(* ===== verification/_CoqProject ===== *)
-Q . S2P
Prelude.v
Bitmap.v
Regset.v
CLib.v
CSort.v
StrTable.v
DtString.v
Int128.v
DtBuf.v
Strtab.v
DtList.v
Htab.v
Ident.v
DtMap.v
BpfFuncs.v
Bpf.v
BpfWords.v
BpfPath.v
BpfStr.v
BpfChr.v
DtAs.v
Node.v
Cg.v
Cook.v
CookInv.v
CookTyped.v
CookOps.v
CookTree.v
CookClause.v
CgSem.v
CgRegs.v
CgRun.v
CgWp.v
CgFault.v
CgCorrect.v
CgClause.v
CgProgram.v
CgExample.v
CgPressure.v
Fold.v
DtLink.v
Assemble.v
AssembleCorrect.v
LinkGraph.v
LinkBuild.v
LinkResolve.v
LinkCorrect.v
LinkRun.v
LinkExample.v
LinkErrors.v
ClauseLink.v
ClauseRun.v
CookCode.v
CookExample.v
ClauseExample.v
SymTab.v
SymRange.v
SymWorld.v
SymInsert.v
SymSort.v
SymPack.v
SymLookup.v
SymExample.v
Consume.v
ConsumeRing.v
ConsumeExample.v
