(* ===== verification/Prelude.v ===== *)
(** * A verification library for Oracle Linux DTrace

    DTrace compiles programs in the D language to BPF, loads them into the
    kernel, and consumes what they record.  This library models the parts of the
    repository that are algorithms on data, and proves what makes them correct.
    Every definition is translated from the C or assembly source it names; the
    functions keep their names.

    ** The program and the files that model it

    - The compiler, libdtrace/dt_parser.c, dt_cg.c, dt_regset.c, dt_as.c.  The
      parser builds a tree of nodes and evaluates operators on constants; cooking
      resolves names, creates variables and checks types; the code generator walks the
      tree, allocates registers and appends BPF instructions to a list; the
      assembler turns the list into an array and labels into distances.
      [Node] has the nodes of expressions, the questions about their types,
      promotion, and constant folding (dt_node_op1, dt_node_op2, dt_node_op3).
      [Regset] is the register set with its spilling, on the bitmaps of [Bitmap]
      (include/sys/bitmap.h).  [DtAs] is the instruction list, the macros of
      include/bpf_asm.h and the assembler's passes over the code; [Assemble] is
      dt_as() as a whole, with the table of variables, the relocations and the
      string table of the DIFO, and [AssembleCorrect] what it makes.  [Cg] is
      the code generator for expressions (dt_cg_node and what it calls),
      [CgClause] that for clauses (dt_cg, dt_cg_prologue, dt_cg_epilogue).
    - Cooking, dt_node_cook() and dt_cook_clause() in dt_parser.c with the cooking
      of identifiers in dt_ident.c: [Cook].  It changes the tree, the tables of
      variables and the types of variables, and keeps the changes when it ends
      with an error, after which a clause is tried again in the other order.
      [CookInv] has what holds of the tables at any time and how they grow, with
      rules for total correctness; [CookTyped] the declarative rules of typing and
      what is asked of libctf ([ctf_laws]); [CookOps] shows that what is computed
      for an operator is what a rule allows, [CookTree] the same for trees by
      induction, [CookClause] for clauses.  [CookCode] takes clauses of integers
      that have been accepted to the code generator and the machine; [CookExample]
      is a clause that is cooked twice, compiled and run.
    - What compiled expressions mean is [CgSem]; [Bpf] is the BPF machine.
      [CgRegs], [CgRun], [CgWp], [CgFault] and [CgCorrect] carry the proof that
      generated code computes the meaning of its expression: [CgRegs] describes
      the register set as a stack of eighteen places, [CgRun] execution from one
      program counter to another, [CgWp] what a generator appends (a weakest
      precondition) and what the appended code does, [CgFault] the code that
      reports a fault, [CgCorrect] one lemma for each operator and the induction
      over expressions.  [CgProgram] has the theorem about a whole clause, from
      the tree to a call of the assembled program; [CgExample] is a clause that
      is compiled and run; [CgPressure] has programs that are compiled wrongly;
      [Fold] shows that constant folding agrees with the generated code.
    - The linker, dt_link() in libdtrace/dt_cc.c with the lookup of BPF symbols
      in dt_dlibs.c: [DtLink].  A first pass over the functions that a program
      needs counts instructions, relocations and variables, a second one copies
      them, a third one patches calls and constants.  [LinkGraph] says which
      functions a program needs and in which order they are found, and has the
      proof about the first pass; [LinkBuild] has the second, [LinkResolve] the
      third, [LinkCorrect] the theorem about all three.  [LinkRun] runs separate
      functions, each call going to the function it names, and shows that the
      linked program does the same on the machine of [Bpf].  [LinkExample] is a
      program that is linked and run, [LinkErrors] what happens when linking
      fails.  The names that the assembler and the linker store go into a
      string table that they know by the interface [StrTable]; [Strtab]
      implements it.
    - The stages together: [ClauseLink] shows that the DIFO of a clause is what
      the linker asks of a function, and what its relocations become;
      [ClauseRun] has the theorem from the tree of a clause to a call of it in a
      linked program, [ClauseExample] a clause that goes through all stages.
    - The tables of the compiler: [Strtab] (dt_strtab.c, strings stored in
      chunks), [Htab] (dt_htab.c, hash tables), [Ident] (dt_ident.c and
      dt_pragma.c, identifiers and their tables), [DtList] (dt_list.c), [DtMap]
      (dt_map.c, descriptions of data, probes and aggregations), [DtBuf]
      (dt_buf.c, growable buffers).
    - The kernel's symbols, libdtrace/dt_symtab.c: [SymTab].  Each module has a
      table; all symbols are in one hash table by name, and a sorted table maps
      ranges of addresses to symbols.  [SymRange] has the proof about the
      forming of ranges, [SymWorld] the state of all tables with what holds of
      it at any time, [SymInsert], [SymSort] and [SymPack] that each operation
      preserves it, [SymLookup] the theorems about searches and destruction,
      [SymExample] two modules with overlapping symbols.
    - The functions linked into every program: [BpfFuncs] (bpf/*.c: binning of
      quantize() and lquantize(), speculations, variables, faults) and the
      assembly of bpf/*.S on the machine of [Bpf], with the memory lemmas of
      [BpfWords]: [BpfPath] (basename, dirname), [BpfStr] (substr, strjoin),
      [BpfChr] (strchr, strrchr).
    - The consumer, libdtrace/dt_consume.c with dt_handle.c: [Consume].  It reads the
      ring buffers of the CPUs, hands records to the client's callbacks, and keeps
      the data of speculations until they are committed or discarded.  [ConsumeRing]
      has the theorem about reading a buffer while the kernel writes to it,
      [ConsumeExample] a kernel, a client, and the orders in which the records of a
      speculation can be read.
    - Utilities: [Int128] (the 128-bit arithmetic of dt_consume.c), [DtString]
      (dt_string.c), [CLib] (C strings, libport/strlcpy.c and strlcat.c), [CSort]
      (qsort and bsearch).  This file has what all of them share.

    ** Conventions

    Integers are [Z]; arithmetic of a machine type is wrapped explicitly ([u32],
    [s64], ...).  The result of an operation that may fail an assertion, leave
    an array or do what C leaves undefined is an [option], and [None] stands for
    these; results that the code itself reports are values.  A [longjmp] out of
    the compiler is the outcome [Longjmp].  Whether an allocation succeeds is an
    argument.  Structures linked by pointers live on a heap ([gmap] from
    addresses); arrays are lists.

    ** What the theorems show

    - Refinement: a hash table, a linked list, a set of enabled probes and a
      clause of D behave as a set, a list, a finite map and an evaluation of
      expressions; [dt_clause_linked_correct] is the one about the compiler,
      [dt_cg_clause_correct] and [dt_as_correct] those about its stages.
      [dt_link_correct] says what is in a linked program, and [dt_link_runs]
      that it computes what its functions do.
    - Typing: [dt_cook_clause_typed] says that the check of types returns and that
      what it accepts obeys the rules; [dt_cook_clause_compiles] that accepted
      clauses compile and run.
    - Functional correctness of the assembler, the string table, the identifier
      tables, the layout of records, the register set, the buffers, the integer
      arithmetic and the BPF functions, on all branches, errors included.
    - Invariants over any sequence of calls: speculations, symbol tables.
    - Liveness: a ring buffer is read to its end ([dt_consume_cpu_drains]).
    - Round trips: spilling and reloading registers, writing out the string
      table, escaping strings.
    - Counterexamples, where the code does not do what it means to; they are
      listed as findings.

    ** Bounds and fuel

    Loops that are not structural take fuel: the comparison and copying loops of
    [Strtab], the growth loops of [DtBuf] and [DtMap], the destruction and
    iteration of [Htab], the recursion of [DtLink] over the functions (more fuel
    than there are functions), the forming of ranges in [SymTab] (three turns for
    a symbol), the loops of [Consume] over records, events and turns, the search of
    [CSort], the machine of [Bpf].  For each there is a theorem
    that enough fuel gives a result, or, for [Bpf], the statement is that some number
    of steps ends the program.  The theorem about clauses covers programs of less
    than 2^15 instructions, the reach of a branch; [CgSem.weight] bounds them by
    32 for each operator.  [CgSem.fits] bounds the registers: nine, and nine more
    values on the stack.

    ** What is not modelled

    The lexer and the grammar are generated; types come from libctf, which is
    not part of the repository, and are the classes [Node.Ctf] and
    [Cook.CtfCook].  Of cooking and of the code generator the actions,
    aggregations, subroutines, associative arrays, members, kernel symbols and
    translators are not modelled; neither are declarations.  What the consumer prints,
    the providers, process control, option handling and the commands are system
    calls and formatted output.  libbpf is a copy of another project. *)
From Stdlib Require Export ZArith Lia Bool.
From stdpp Require Export base list option numbers strings gmap.

#[global] Open Scope Z_scope.

(** Let [lia] reason about division and remainder. *)
Ltac Zify.zify_post_hook ::= Z.to_euclidean_division_equations.

(** ** Machine integers *)

(** [wrap w z] is the value of [z] converted to an unsigned [w]-bit type,
    [swrap w z] its value converted to a signed one. *)
Definition wrap (w z : Z) : Z := z mod 2 ^ w.
Definition swrap (w z : Z) : Z := (z + 2 ^ (w - 1)) mod 2 ^ w - 2 ^ (w - 1).

Abbreviation u8 := (wrap 8).
Abbreviation u16 := (wrap 16).
Abbreviation u32 := (wrap 32).
Abbreviation u64 := (wrap 64).
Abbreviation s8 := (swrap 8).
Abbreviation s16 := (swrap 16).
Abbreviation s32 := (swrap 32).
Abbreviation s64 := (swrap 64).

(** The value ranges of the two kinds of type. *)
Definition urange (w z : Z) : Prop := 0 <= z < 2 ^ w.
Definition srange (w z : Z) : Prop := - 2 ^ (w - 1) <= z < 2 ^ (w - 1).

Lemma wrap_range w z : 0 <= w → urange w (wrap w z).
Proof. intros. apply Z.mod_pos_bound. lia. Qed.

Lemma wrap_id w z : urange w z → wrap w z = z.
Proof. intros. by apply Z.mod_small. Qed.

(** A sum, or a difference, of two values in range wraps at most once. *)
Lemma wrap_sum w z : 0 <= z < 2 * 2 ^ w → wrap w z = if z <? 2 ^ w then z else z - 2 ^ w.
Proof.
  intros Hz. unfold wrap. destruct (Z.ltb_spec z (2 ^ w)); [apply Z.mod_small; lia|].
  symmetry. apply (Z.mod_unique_pos _ _ 1); lia.
Qed.

Lemma wrap_diff w z : - 2 ^ w <= z < 2 ^ w → wrap w z = if z <? 0 then z + 2 ^ w else z.
Proof.
  intros Hz. unfold wrap. destruct (Z.ltb_spec z 0); [|apply Z.mod_small; lia].
  symmetry. apply (Z.mod_unique_pos _ _ (-1)); lia.
Qed.

Lemma swrap_range w z : 0 < w → srange w (swrap w z).
Proof.
  intros Hw. unfold srange, swrap.
  assert (2 ^ w = 2 * 2 ^ (w - 1)) by (rewrite <- Z.pow_succ_r by lia; f_equal; lia).
  pose proof (Z.mod_pos_bound (z + 2 ^ (w - 1)) (2 ^ w)). lia.
Qed.

Lemma swrap_id w z : 0 < w → srange w z → swrap w z = z.
Proof.
  intros Hw Hz. unfold srange, swrap in *.
  assert (2 ^ w = 2 * 2 ^ (w - 1)) by (rewrite <- Z.pow_succ_r by lia; f_equal; lia).
  rewrite Z.mod_small; lia.
Qed.

Lemma wrap_swrap w z : 0 < w → wrap w (swrap w z) = wrap w z.
Proof.
  intros Hw. unfold wrap, swrap.
  rewrite Zminus_mod_idemp_l. f_equal. lia.
Qed.

(** Arithmetic on wrapped numbers, which [autorewrite with wrap] undoes. *)
Lemma wrap_add_l w a b : wrap w (wrap w a + b) = wrap w (a + b).
Proof. unfold wrap. by rewrite Zplus_mod_idemp_l. Qed.

Lemma wrap_add_r w a b : wrap w (a + wrap w b) = wrap w (a + b).
Proof. unfold wrap. by rewrite Zplus_mod_idemp_r. Qed.

Lemma wrap_sub_l w a b : wrap w (wrap w a - b) = wrap w (a - b).
Proof. unfold wrap. by rewrite Zminus_mod_idemp_l. Qed.

Lemma wrap_sub_r w a b : wrap w (a - wrap w b) = wrap w (a - b).
Proof. unfold wrap. by rewrite Zminus_mod_idemp_r. Qed.

Lemma wrap_wrap w z : wrap w (wrap w z) = wrap w z.
Proof. unfold wrap. by rewrite Zmod_mod. Qed.

Lemma swrap_wrap w z : swrap w (wrap w z) = swrap w z.
Proof. unfold swrap, wrap. by rewrite Zplus_mod_idemp_l. Qed.

Lemma wrap_mult w v z : 0 <= w <= v → ∃ k, wrap v z = z + k * 2 ^ w.
Proof.
  intros H. exists (- (z / 2 ^ v) * 2 ^ (v - w)). unfold wrap.
  rewrite Zmod_eq_full by (apply Z.pow_nonzero; lia).
  replace (2 ^ v) with (2 ^ (v - w) * 2 ^ w) at 2 by (rewrite <- Z.pow_add_r by lia; f_equal; lia). ring.
Qed.

Lemma swrap_wrap_le w v z : 0 <= w <= v → swrap w (wrap v z) = swrap w z.
Proof.
  intros H. destruct (wrap_mult w v z H) as [k ->]. unfold swrap.
  replace (z + k * 2 ^ w + 2 ^ (w - 1)) with (z + 2 ^ (w - 1) + k * 2 ^ w) by ring.
  by rewrite Z_mod_plus_full.
Qed.

Lemma wrap_wrap_le w v z : 0 <= w <= v → wrap w (wrap v z) = wrap w z.
Proof.
  intros H. destruct (wrap_mult w v z H) as [k ->]. unfold wrap. by rewrite Z_mod_plus_full.
Qed.

(** Sign extension by a shift to the left and an arithmetic shift back. *)
Lemma sign_extend w k z : 0 < w → 0 <= k → swrap (w + k) (wrap (w + k) (Z.shiftl z k)) = swrap w z * 2 ^ k.
Proof.
  intros Hw Hk. rewrite swrap_wrap. unfold swrap. rewrite Z.shiftl_mul_pow2 by lia.
  replace (2 ^ (w + k - 1)) with (2 ^ (w - 1) * 2 ^ k) by (rewrite <- Z.pow_add_r by lia; f_equal; lia).
  rewrite Z.pow_add_r, <- Z.mul_add_distr_r by lia.
  rewrite Z.mul_mod_distr_r by lia. lia.
Qed.

Create Rewrite HintDb wrap.
#[export] Hint Rewrite wrap_add_l wrap_add_r wrap_sub_l wrap_sub_r wrap_wrap swrap_wrap : wrap.

(** ** Bitwise reasoning *)

Create Rewrite HintDb bits.
#[export] Hint Rewrite Z.land_spec Z.lor_spec Z.lxor_spec Z.ldiff_spec
  Z.bits_0 : bits.
#[export] Hint Rewrite Z.shiftr_spec Z.shiftl_spec Z.lnot_spec using lia : bits.

(** Prove an equation between bit vectors bit by bit. *)
Ltac bitwise i Hi :=
  apply Z.bits_inj'; intros i Hi; autorewrite with bits.

Lemma land_low_range z w : 0 <= w → 0 <= Z.land z (Z.ones w) < 2 ^ w.
Proof. intros. rewrite Z.land_ones by lia. apply Z.mod_pos_bound. lia. Qed.

Lemma testbit_high z w i : 0 <= z < 2 ^ w → w <= i → Z.testbit z i = false.
Proof.
  intros [Hz Hlt] Hi.
  destruct (decide (z = 0)) as [->|]; [apply Z.bits_0|].
  apply Z.bits_above_log2; [lia|].
  apply Z.log2_lt_pow2 in Hlt; lia.
Qed.

Lemma testbit_range z w :
  0 <= w → 0 <= z → (∀ i, w <= i → Z.testbit z i = false) → z < 2 ^ w.
Proof.
  intros Hw Hz Hb. destruct (decide (z = 0)) as [->|]; [lia|].
  apply Z.log2_lt_pow2; [lia|].
  destruct (Z.lt_ge_cases (Z.log2 z) w) as [|Hge]; [done|].
  specialize (Hb _ Hge). rewrite Z.bit_log2 in Hb by lia. done.
Qed.

Lemma shiftr_range x n w : 0 <= n → urange w x → urange w (Z.shiftr x n).
Proof.
  unfold urange. intros Hn Hx. rewrite Z.shiftr_div_pow2 by lia.
  assert (0 < 2 ^ n) by lia. split; [apply Z.div_pos; lia|].
  apply Z.le_lt_trans with x; [|lia]. apply Z.div_le_upper_bound; nia.
Qed.

(** ** Options as the results of partial operations *)

(** Throughout the development an operation of type [option A] is [None] when
    the C code it models would fail an assertion or leave the bounds of an
    object; results the code itself reports (NULL, -1, an errno) are values. *)

Lemma bind_Some_inv {A B} (f : A → option B) (o : option A) b :
  o ≫= f = Some b → ∃ a, o = Some a ∧ f a = Some b.
Proof. destruct o; simpl; naive_solver. Qed.

Ltac invert_bind :=
  repeat match goal with
  | H : (_ ≫= _) = Some _ |- _ =>
      let a := fresh "v" in let E := fresh "E" in
      apply bind_Some_inv in H as (a & E & H)
  end; simplify_eq/=.

(** ** Lists *)

Lemma lookup_repeat_lt {A} (x : A) n i : (i < n)%nat → replicate n x !! i = Some x.
Proof. apply lookup_replicate_2. Qed.

Lemma list_lookup_insert_case {A} (l : list A) i j x :
  (i < length l)%nat →
  <[i:=x]> l !! j = if decide (i = j) then Some x else l !! j.
Proof.
  intros. case_decide; subst.
  - by apply list_lookup_insert_eq.
  - by apply list_lookup_insert_ne.
Qed.

Section filter.
Context {A} (P : A → Prop) `{∀ x, Decision (P x)}.

Lemma list_filter_id (l : list A) : (∀ x, x ∈ l → P x) → filter P l = l.
Proof.
  induction l as [|x l IH]; intros HP; [done|]. rewrite filter_cons_True by (apply HP; left).
  f_equal. apply IH. intros y ?. apply HP. by right.
Qed.

Lemma list_filter_none (l : list A) : (∀ x, x ∈ l → ¬ P x) → filter P l = [].
Proof.
  induction l as [|x l IH]; intros HP; [done|]. rewrite filter_cons_False by (apply HP; left).
  apply IH. intros y ?. apply HP. by right.
Qed.
End filter.

Lemma list_filter_ext {A} (P Q : A → Prop) `{∀ x, Decision (P x), ∀ x, Decision (Q x)} (l : list A) :
  (∀ x, x ∈ l → P x ↔ Q x) → filter P l = filter Q l.
Proof.
  induction l as [|x l IH]; intros HPQ; [done|]. rewrite !filter_cons.
  rewrite IH by (intros y ?; apply HPQ; by right). pose proof (HPQ x ltac:(left)).
  repeat case_decide; tauto.
Qed.

(** Lists of lists: a slot and the rest. *)
Lemma concat_slot {A} (G : list (list A)) i sl :
  G !! i = Some sl → ∃ R, concat G ≡ₚ sl ++ R ∧ ∀ sl', concat (<[i := sl']> G) ≡ₚ sl' ++ R.
Proof.
  intros Hi. apply list_elem_of_split_length in Hi as (G1 & G2 & -> & ->).
  exists (concat G1 ++ concat G2). split; [|intros sl'; rewrite insert_app_r_alt, Nat.sub_diag by lia];
    rewrite concat_app; simpl; rewrite Permutation_app_swap_app; done.
Qed.

Lemma elem_of_concat {A} (G : list (list A)) p : p ∈ concat G ↔ ∃ i sl, G !! i = Some sl ∧ p ∈ sl.
Proof.
  rewrite list_elem_of_In, in_concat. split.
  - intros (sl & Hsl & Hp). apply list_elem_of_In in Hsl, Hp.
    apply list_elem_of_lookup in Hsl as [i Hi]. eauto.
  - intros (i & sl & Hi & Hp). exists sl. rewrite <- !list_elem_of_In.
    split; [by eapply list_elem_of_lookup_2|done].
Qed.

Lemma list_delete_app_l {A} (l1 l2 : list A) k :
  (k < length l1)%nat → delete k (l1 ++ l2) = delete k l1 ++ l2.
Proof.
  revert k. induction l1 as [|x l1 IH]; intros k Hk; simpl in *; [lia|].
  destruct k as [|k]; [done|]. simpl. f_equal. apply IH. lia.
Qed.

(** ** Alignment *)

(** The usual rounding up to a power of two, in unsigned arithmetic of width [w]. *)
Lemma align_up w x k :
  0 <= k <= w → 0 <= x → x + (2 ^ k - 1) < 2 ^ w →
  let off := Z.land (wrap w (x + (2 ^ k - 1))) (wrap w (Z.lnot (2 ^ k - 1))) in
  off mod 2 ^ k = 0 ∧ x <= off < x + 2 ^ k.
Proof.
  intros Hk Hx Hb off.
  assert (off = (x + (2 ^ k - 1)) / 2 ^ k * 2 ^ k) as ->.
  { unfold off. rewrite (wrap_id w (x + _)) by (unfold urange; lia). unfold wrap.
    rewrite <- (Z.land_ones _ w), (Z.land_comm (Z.lnot _)), Z.land_assoc by lia.
    rewrite (Z.land_ones _ w), Z.mod_small by lia.
    replace (2 ^ k - 1) with (Z.ones k) at 2 by (rewrite Z.ones_equiv; lia).
    rewrite <- Z.ldiff_land, Z.ldiff_ones_r, Z.shiftl_mul_pow2, Z.shiftr_div_pow2 by lia. done. }
  rewrite Z.mod_mul by lia. split; [done|].
  pose proof (Z.div_mod (x + (2 ^ k - 1)) (2 ^ k)). pose proof (Z.mod_pos_bound (x + (2 ^ k - 1)) (2 ^ k)). lia.
Qed.
