(* ===== verification/Bitmap.v ===== *)
(** * Bitmaps: the macros of include/sys/bitmap.h and the population counts
    [dt_popc] and [dt_popcb] of libdtrace/dt_subr.c *)
From S2P Require Import Prelude.

Module Bitmap.

Definition BT_ULSHIFT : Z := 6.
Definition BT_NBIPUL : Z := Z.shiftl 1 BT_ULSHIFT.
Definition BT_ULMASK : Z := BT_NBIPUL - 1.

(** A bitmap is a vector of [ulong_t]. *)
Abbreviation bitmap := (list Z).

Definition BT_WIM (bm : bitmap) (i : Z) : option Z :=
  bm !! Z.to_nat (Z.shiftr i BT_ULSHIFT).
Definition BT_BIW (i : Z) : Z := Z.shiftl 1 (Z.land i BT_ULMASK).
Definition BT_BITOUL (nbits : Z) : Z := (nbits + BT_NBIPUL - 1) / BT_NBIPUL.
Definition BT_SIZEOFMAP (nbits : Z) : Z := BT_BITOUL nbits * 8.

Definition BT_TEST (bm : bitmap) (i : Z) : option bool :=
  w ← BT_WIM bm i;
  Some (negb (Z.land w (BT_BIW i) =? 0)).

Definition BT_SET (bm : bitmap) (i : Z) : option bitmap :=
  w ← BT_WIM bm i;
  Some (<[Z.to_nat (Z.shiftr i BT_ULSHIFT) := Z.lor w (BT_BIW i)]> bm).

(** [~BT_BIW(i)] is the 64-bit complement. *)
Definition BT_CLEAR (bm : bitmap) (i : Z) : option bitmap :=
  w ← BT_WIM bm i;
  Some (<[Z.to_nat (Z.shiftr i BT_ULSHIFT) :=
            Z.land w (Z.lxor (Z.ones 64) (BT_BIW i))]> bm).

(** ** Population counts *)

(** [dt_popc] (the [_LP64] branch); every intermediate value is a [ulong_t]. *)
Definition dt_popc (x : Z) : Z :=
  let x := u64 (x - Z.land (Z.shiftr x 1) 0x5555555555555555) in
  let x := u64 (Z.land x 0x3333333333333333 + Z.land (Z.shiftr x 2) 0x3333333333333333) in
  let x := Z.land (u64 (x + Z.shiftr x 4)) 0x0F0F0F0F0F0F0F0F in
  let x := u64 (x + Z.shiftr x 8) in
  let x := u64 (x + Z.shiftr x 16) in
  let x := u64 (x + Z.shiftr x 32) in
  Z.land x 0x7F.

(** The loop [for (w = 0; w < maxw; w++) popc += dt_popc(bp[w]);] *)
Fixpoint popcb_loop (bp : bitmap) (w : nat) (k : nat) (popc : Z) : option Z :=
  match k with
  | O => Some popc
  | S k => v ← bp !! w; popcb_loop bp (S w) k (u64 (popc + dt_popc v))
  end.

Definition dt_popcb (bp : bitmap) (n : Z) : option Z :=
  let maxb := Z.land n BT_ULMASK in
  let maxw := Z.shiftr n BT_ULSHIFT in
  if n =? 0 then Some 0
  else
    popc ← popcb_loop bp 0 (Z.to_nat maxw) 0;
    v ← bp !! Z.to_nat maxw;
    Some (u64 (popc + dt_popc (Z.land v (Z.shiftl 1 maxb - 1)))).

(** ** Well-formed bitmaps and the set of bits they hold *)

Definition words (bm : bitmap) : Prop := Forall (urange 64) bm.

(** Bit [i] of a bitmap, [false] outside of it. *)
Definition bit (bm : bitmap) (i : Z) : bool :=
  match BT_WIM bm i with
  | Some w => Z.testbit w (i mod 64)
  | None => false
  end.

Definition in_map (bm : bitmap) (i : Z) : Prop := 0 <= i < 64 * Z.of_nat (length bm).

Lemma shiftr_6 i : Z.shiftr i BT_ULSHIFT = i / 64.
Proof. by rewrite Z.shiftr_div_pow2. Qed.

Lemma land_mask i : Z.land i BT_ULMASK = i mod 64.
Proof. change BT_ULMASK with (Z.ones 6). by rewrite Z.land_ones. Qed.

Lemma BT_BIW_testbit i j :
  0 <= j → Z.testbit (BT_BIW i) j = bool_decide (j = i mod 64).
Proof.
  intros Hj. unfold BT_BIW. rewrite land_mask, Z.shiftl_1_l.
  case_bool_decide; subst.
  - apply Z.pow2_bits_true. lia.
  - apply Z.pow2_bits_false. lia.
Qed.

Lemma BT_WIM_in bm i : in_map bm i → is_Some (BT_WIM bm i).
Proof.
  intros Hi. apply lookup_lt_is_Some. rewrite shiftr_6.
  unfold in_map in Hi. lia.
Qed.

Lemma BT_WIM_range bm i w : words bm → BT_WIM bm i = Some w → urange 64 w.
Proof. intros Hw Hl. by eapply Forall_lookup_1 in Hl. Qed.

Lemma land_BIW_zero w i : (Z.land w (BT_BIW i) =? 0) = negb (Z.testbit w (i mod 64)).
Proof.
  destruct (Z.testbit w (i mod 64)) eqn:E; simpl.
  - apply Z.eqb_neq. intros H0.
    assert (Z.testbit (Z.land w (BT_BIW i)) (i mod 64) = true) as HT.
    { rewrite Z.land_spec, BT_BIW_testbit, E, bool_decide_true by lia. done. }
    by rewrite H0, Z.bits_0 in HT.
  - apply Z.eqb_eq. bitwise j Hj. rewrite BT_BIW_testbit by lia.
    case_bool_decide; subst; rewrite ?E, ?andb_false_r; done.
Qed.

(** The test macro reads bit [i]. *)
Lemma BT_TEST_bit bm i : in_map bm i → BT_TEST bm i = Some (bit bm i).
Proof.
  intros Hi. unfold BT_TEST, bit. destruct (BT_WIM_in _ _ Hi) as [w ->]; simpl.
  by rewrite land_BIW_zero, negb_involutive.
Qed.

Lemma bit_insert bm i j w :
  in_map bm i → 0 <= j →
  bit (<[Z.to_nat (Z.shiftr i BT_ULSHIFT) := w]> bm) j =
  if decide (i / 64 = j / 64) then Z.testbit w (j mod 64) else bit bm j.
Proof.
  intros Hi Hj. unfold bit, BT_WIM. rewrite !shiftr_6. unfold in_map in Hi.
  rewrite list_lookup_insert_case by lia.
  repeat case_decide; try done; exfalso; lia.
Qed.

(** The set macro is defined on the bitmap's bits, and sets bit [i] only. *)
Lemma BT_SET_spec bm i :
  in_map bm i → words bm →
  ∃ bm', BT_SET bm i = Some bm' ∧ length bm' = length bm ∧ words bm' ∧
    ∀ j, 0 <= j → bit bm' j = bool_decide (j = i) || bit bm j.
Proof.
  intros Hi Hw. destruct (BT_WIM_in _ _ Hi) as [w Hl].
  unfold BT_SET. rewrite Hl. simpl. eexists. split_and!; [done| | |].
  - by rewrite length_insert.
  - apply Forall_insert; [done|].
    pose proof (BT_WIM_range _ _ _ Hw Hl) as Hr. unfold urange in *.
    assert (0 <= Z.lor w (BT_BIW i)).
    { apply Z.lor_nonneg. split; [lia|]. apply Z.shiftl_nonneg. lia. }
    split; [done|]. apply testbit_range; [lia|done|].
    intros k Hk. rewrite Z.lor_spec, BT_BIW_testbit by lia.
    rewrite (testbit_high w 64) by lia. rewrite bool_decide_false by lia. done.
  - intros j Hj. rewrite bit_insert by done. case_decide as Hq.
    + rewrite Z.lor_spec, BT_BIW_testbit by lia. rewrite orb_comm. f_equal.
      * apply bool_decide_ext. lia.
      * unfold bit, BT_WIM in *. rewrite shiftr_6 in *. by rewrite <- Hq, Hl.
    + rewrite bool_decide_false by congruence. done.
Qed.

(** The clear macro clears bit [i] only. *)
Lemma BT_CLEAR_spec bm i :
  in_map bm i → words bm →
  ∃ bm', BT_CLEAR bm i = Some bm' ∧ length bm' = length bm ∧ words bm' ∧
    ∀ j, 0 <= j → bit bm' j = negb (bool_decide (j = i)) && bit bm j.
Proof.
  intros Hi Hw. destruct (BT_WIM_in _ _ Hi) as [w Hl].
  unfold BT_CLEAR. rewrite Hl. simpl. eexists. split_and!; [done| | |].
  - by rewrite length_insert.
  - apply Forall_insert; [done|].
    pose proof (BT_WIM_range _ _ _ Hw Hl) as Hr. unfold urange in *.
    assert (0 <= Z.land w (Z.lxor (Z.ones 64) (BT_BIW i))) by (apply Z.land_nonneg; lia).
    split; [done|]. apply testbit_range; [lia|done|].
    intros k Hk. rewrite Z.land_spec, (testbit_high w 64) by lia. done.
  - intros j Hj. rewrite bit_insert by done. case_decide as Hq.
    + rewrite Z.land_spec, Z.lxor_spec, BT_BIW_testbit by lia.
      rewrite Z.ones_spec_low by lia.
      rewrite andb_comm. f_equal.
      * rewrite xorb_true_l. f_equal. apply bool_decide_ext. lia.
      * unfold bit, BT_WIM in *. rewrite shiftr_6 in *. by rewrite <- Hq, Hl.
    + rewrite bool_decide_false by congruence. done.
Qed.

(** ** Correctness of the population counts *)

(** The number of [i < n] with [f i]: what the counts are meant to compute. *)
Fixpoint count_bits (f : Z → bool) (n : nat) : Z :=
  match n with
  | O => 0
  | S k => count_bits f k + Z.b2z (f (Z.of_nat k))
  end.

Lemma count_bits_ext f g n :
  (∀ i, 0 <= i < Z.of_nat n → f i = g i) → count_bits f n = count_bits g n.
Proof. induction n; intros H; simpl; [done|]. rewrite IHn, H; auto with lia. Qed.

Lemma count_bits_app f n m :
  count_bits f (n + m) = count_bits f n + count_bits (λ i, f (Z.of_nat n + i)) m.
Proof.
  induction m; [rewrite Nat.add_0_r; simpl; lia|].
  rewrite Nat.add_succ_r. simpl. rewrite IHm, Nat2Z.inj_add. lia.
Qed.

Lemma count_bits_range f n : 0 <= count_bits f n <= Z.of_nat n.
Proof. induction n; simpl; [lia|]. destruct (f _); simpl; lia. Qed.

Lemma count_bits_none f n : (∀ i, f i = false) → count_bits f n = 0.
Proof. intros H. induction n; simpl; [done|]. by rewrite IHn, H. Qed.

(** Words as little-endian lists of bytes, and byte-periodic masks. *)
Fixpoint le (l : list Z) : Z :=
  match l with [] => 0 | a :: l => a + 256 * le l end.
Definition bytes : list Z → Prop := Forall (λ a, 0 <= a < 256).

Lemma le_nonneg l : bytes l → 0 <= le l.
Proof. induction 1; simpl; lia. Qed.

Lemma land_split a b c d :
  0 <= a < 256 → 0 <= c < 256 → Z.land (a + 256 * b) (c + 256 * d) = Z.land a c + 256 * Z.land b d.
Proof.
  intros Ha Hc.
  assert (∀ x y, 0 <= x < 256 → x + 256 * y = Z.lor x (Z.shiftl y 8)) as Hlor.
  { intros x y Hx. replace (256 * y) with (Z.shiftl y 8)
      by (rewrite Z.shiftl_mul_pow2; lia).
    assert (Z.land x (Z.shiftl y 8) = 0) as H0.
    { bitwise i Hi. destruct (Z.lt_ge_cases i 8).
      - rewrite (Z.testbit_neg_r _ (i - 8)) by lia. apply andb_false_r.
      - by rewrite (testbit_high x 8) by lia. }
    by rewrite Z.add_nocarry_lxor, Z.lxor_lor. }
  assert (0 <= Z.land a c < 256).
  { split; [apply Z.land_nonneg; lia|]. apply (testbit_range _ 8); [lia|apply Z.land_nonneg; lia|].
    intros i Hi. rewrite Z.land_spec, (testbit_high a 8) by lia. done. }
  rewrite !Hlor by done. bitwise i Hi.
  destruct (Z.lt_ge_cases i 8).
  - rewrite !(Z.testbit_neg_r _ (i - 8)) by lia. by rewrite !orb_false_r.
  - by rewrite (testbit_high a 8), (testbit_high c 8) by lia.
Qed.

(** A check of a property of every byte by evaluation. *)
Definition all_bytes (P : Z → bool) : bool := forallb (λ i, P (Z.of_nat i)) (seq 0 256).

Lemma all_bytes_spec P a : all_bytes P = true → 0 <= a < 256 → P a = true.
Proof.
  intros H Ha. unfold all_bytes in H. rewrite forallb_forall in H.
  specialize (H (Z.to_nat a)). rewrite Z2Nat.id in H by lia.
  apply H, in_seq. lia.
Qed.

Lemma count_bits_split a b n :
  0 <= a < 256 →
  count_bits (Z.testbit (a + 256 * b)) (8 + n) =
  count_bits (Z.testbit a) 8 + count_bits (Z.testbit b) n.
Proof.
  intros Ha. rewrite count_bits_app. f_equal; apply count_bits_ext; intros i Hi.
  - rewrite <- (Z.mod_pow2_bits_low _ 8) by lia.
    rewrite <- (Z.mod_pow2_bits_low a 8) by lia. change (2 ^ 8) with 256. f_equal. lia.
  - change (Z.of_nat 8) with 8. rewrite (Z.add_comm 8).
    rewrite <- Z.div_pow2_bits by lia. change (2 ^ 8) with 256. f_equal. lia.
Qed.

Fixpoint rep (c : Z) (n : nat) : Z :=
  match n with O => 0 | S n => c + 256 * rep c n end.

(** The first three steps of [dt_popc] on a single byte. *)
Definition popc_byte1 (a : Z) : Z := a - Z.land (a / 2) 0x55.
Definition popc_byte2 (a : Z) : Z := Z.land a 0x33 + Z.land (a / 4) 0x33.
Definition popc_byte3 (a : Z) : Z := Z.land (a + a / 16) 0x0F.

Lemma popc_step1 l :
  bytes l →
  le l - Z.land (le l / 2) (rep 0x55 (length l)) = le (map popc_byte1 l).
Proof.
  unfold popc_byte1. induction 1 as [|a l Ha Hl IH]; simpl; [done|].
  replace ((a + 256 * le l) / 2) with ((a / 2 + 128 * (le l mod 2)) + 256 * (le l / 2)) by lia.
  rewrite land_split by lia. rewrite <- IH.
  assert (Z.land (a / 2 + 128 * (le l mod 2)) 0x55 = Z.land (a / 2) 0x55) as ->; [|lia].
  assert (le l mod 2 = 0 ∨ le l mod 2 = 1) as [-> | ->] by lia; [f_equal; lia|].
  apply Z.eqb_eq.
  apply (all_bytes_spec (λ a, Z.land (a / 2 + 128 * 1) 0x55 =? Z.land (a / 2) 0x55));
    [by vm_compute|done].
Qed.

Lemma popc_step2 l :
  bytes l →
  Z.land (le l) (rep 0x33 (length l)) + Z.land (le l / 4) (rep 0x33 (length l)) =
  le (map popc_byte2 l).
Proof.
  unfold popc_byte2. induction 1 as [|a l Ha Hl IH]; simpl; [done|].
  replace ((a + 256 * le l) / 4) with ((a / 4 + 64 * (le l mod 4)) + 256 * (le l / 4)) by lia.
  rewrite !land_split by lia. rewrite <- IH.
  assert (Z.land (a / 4 + 64 * (le l mod 4)) 0x33 = Z.land (a / 4) 0x33) as ->; [|lia].
  apply Z.eqb_eq.
  set (m := le l mod 4). assert (0 <= m < 4) as Hm by lia. clearbody m.
  assert (m = 0 ∨ m = 1 ∨ m = 2 ∨ m = 3) as [->|[->|[->| ->]]] by lia;
  match goal with |- (Z.land (_ + ?k) _ =? _) = _ =>
    apply (all_bytes_spec (λ a, Z.land (a / 4 + k) 0x33 =? Z.land (a / 4) 0x33));
    [by vm_compute|done] end.
Qed.

(** After the second step the nibbles are at most 4. *)
Definition nibbles (a : Z) : Prop := 0 <= a <= 0x44 ∧ a mod 16 <= 4.

Lemma popc_step3 l :
  Forall nibbles l →
  Z.land (le l + le l / 16) (rep 0x0F (length l)) = le (map popc_byte3 l) ∧
  le l mod 16 <= 4.
Proof.
  unfold nibbles, popc_byte3. induction 1 as [|a l Ha Hl [IH Hm]]; simpl; [done|]. split; [|lia].
  replace (a + 256 * le l + (a + 256 * le l) / 16)
    with ((a + a / 16 + 16 * (le l mod 16)) + 256 * (le l + le l / 16)) by lia.
  rewrite land_split by lia. rewrite IH. f_equal.
  change 0x0F with (Z.ones 4). rewrite !Z.land_ones by lia. lia.
Qed.

(** Their effect is the count of the byte. *)
Definition popc_byte (a : Z) : Z := popc_byte3 (popc_byte2 (popc_byte1 a)).

Lemma popc_byte_spec a :
  0 <= a < 256 →
  0 <= popc_byte1 a < 256 ∧ nibbles (popc_byte2 (popc_byte1 a)) ∧
  popc_byte a = count_bits (Z.testbit a) 8.
Proof.
  intros Ha. pose (P := λ a : Z,
    let b := popc_byte1 a in let c := popc_byte2 b in
    (0 <=? b) && (b <? 256) && (0 <=? c) && (c <=? 0x44) && (c mod 16 <=? 4) &&
    (popc_byte a =? count_bits (Z.testbit a) 8)).
  assert (P a = true) as H by (apply all_bytes_spec; [by vm_compute|done]).
  unfold P in H. cbv zeta in *. unfold nibbles. rewrite !andb_true_iff in H. lia.
Qed.

Fixpoint split_bytes (n : nat) (z : Z) : list Z :=
  match n with O => [] | S n => z mod 256 :: split_bytes n (z / 256) end.

Lemma split_bytes_spec n z :
  bytes (split_bytes n z) ∧ length (split_bytes n z) = n ∧
  (0 <= z < 256 ^ Z.of_nat n → le (split_bytes n z) = z).
Proof.
  revert z. induction n as [|n IH]; intros z; cbn [split_bytes length le].
  - split_and!; [constructor|done|]. change (256 ^ Z.of_nat 0) with 1. lia.
  - destruct (IH (z / 256)) as (Hb & Hlen & Hle). split_and!.
    + constructor; [lia|done].
    + by rewrite Hlen.
    + intros Hz. rewrite Nat2Z.inj_succ, Z.pow_succ_r in Hz by lia.
      rewrite Hle; lia.
Qed.

Lemma popc_steps l :
  bytes l →
  let x := le l - Z.land (le l / 2) (rep 0x55 (length l)) in
  let y := Z.land x (rep 0x33 (length l)) + Z.land (x / 4) (rep 0x33 (length l)) in
  bytes (map popc_byte1 l) ∧ x = le (map popc_byte1 l) ∧
  Z.land (y + y / 16) (rep 0x0F (length l)) = le (map popc_byte l) ∧
  Forall nibbles (map popc_byte2 (map popc_byte1 l)) ∧
  y = le (map popc_byte2 (map popc_byte1 l)).
Proof.
  intros Hl. cbv zeta.
  assert (bytes (map popc_byte1 l)) as Hb.
  { apply Forall_map. eapply Forall_impl; [exact Hl|]. intros a Ha. by apply popc_byte_spec. }
  assert (Forall nibbles (map popc_byte2 (map popc_byte1 l))) as Hm.
  { rewrite map_map. apply Forall_map. eapply Forall_impl; [exact Hl|].
    intros a Ha. by apply popc_byte_spec. }
  rewrite popc_step1 by done.
  pose proof (popc_step2 _ Hb) as H2. rewrite length_map in H2. rewrite H2.
  destruct (popc_step3 _ Hm) as [H3 _]. rewrite !length_map in H3. rewrite H3.
  rewrite !map_map in *. done.
Qed.

Lemma count_bits_le l :
  bytes l → count_bits (Z.testbit (le l)) (8 * length l) = foldr Z.add 0 (map popc_byte l).
Proof.
  induction 1 as [|a l Ha Hl IH]; [done|]. cbn [length le map foldr].
  replace (8 * S (length l))%nat with (8 + 8 * length l)%nat by lia.
  rewrite count_bits_split by done. rewrite IH.
  destruct (popc_byte_spec a Ha) as (_ & _ & ->). done.
Qed.

Lemma le_bound l : bytes l → le l < 256 ^ Z.of_nat (length l).
Proof.
  induction 1 as [|a n Ha Hn IH]; [done|].
  cbn [length le]. rewrite Nat2Z.inj_succ, Z.pow_succ_r by lia. lia.
Qed.

Lemma le_urange l : bytes l → length l = 8%nat → urange 64 (le l).
Proof.
  intros Hl Hlen. split; [by apply le_nonneg|].
  pose proof (le_bound l Hl) as H. by rewrite Hlen in H.
Qed.

(** The last three additions fold the eight byte counts together. *)
Lemma popc_fold p :
  length p = 8%nat → Forall (λ q, 0 <= q <= 8) p →
  let x := u64 (le p + le p / 256) in
  let x := u64 (x + x / 2 ^ 16) in
  let x := u64 (x + x / 2 ^ 32) in
  Z.land x 0x7F = foldr Z.add 0 p.
Proof.
  intros Hl Hp. destruct p as [|a [|b [|c [|d [|e [|f [|g [|h []]]]]]]]]; try done.
  rewrite !Forall_cons_iff in Hp. destruct Hp as (?&?&?&?&?&?&?&?&_).
  cbn [le foldr]. change 0x7F with (Z.ones 7). rewrite Z.land_ones by lia.
  cbv zeta. change (2 ^ 16) with 65536. change (2 ^ 32) with 4294967296. change (2 ^ 7) with 128.
  rewrite <- (Z.div_unique_pos _ 256 (le [b; c; d; e; f; g; h]) a) by (cbn [le]; lia).
  rewrite (wrap_id 64 (_ + le _)) by (unfold urange; cbn [le]; lia).
  rewrite <- (Z.div_unique_pos _ 65536
    (le [c + d; d + e; e + f; f + g; g + h; h]) (le [a + b; b + c])) by (cbn [le]; lia).
  rewrite (wrap_id 64 (_ + le _)) by (unfold urange; cbn [le]; lia).
  rewrite <- (Z.div_unique_pos _ 4294967296 (le [e + f + g + h; f + g + h; g + h; h])
    (le [a + b + c + d; b + c + d + e; c + d + e + f; d + e + f + g])) by (cbn [le]; lia).
  rewrite (wrap_id 64 (_ + le _)) by (unfold urange; cbn [le]; lia).
  symmetry. apply (Z.mod_unique_pos _ _ (2 * le [b + c + d + e + f + g + h;
    c + d + e + f + g + h; d + e + f + g + h; e + f + g + h; f + g + h; g + h; h])); cbn [le]; lia.
Qed.

Lemma nibbles_add_range l :
  length l = 8%nat → Forall nibbles l → urange 64 (le l + le l / 16).
Proof.
  intros Hl Hp.
  assert (0 <= le l <= 0x4444444444444444) as Hr; [|unfold urange; lia].
  destruct l as [|a [|b [|c [|d [|e [|f [|g [|h []]]]]]]]]; try done.
  rewrite !Forall_cons_iff in Hp. unfold nibbles in Hp.
  destruct Hp as ([? _]&[? _]&[? _]&[? _]&[? _]&[? _]&[? _]&[? _]&_). cbn [le]. lia.
Qed.

Lemma dt_popc_count x : urange 64 x → dt_popc x = count_bits (Z.testbit x) 64.
Proof.
  intros Hx. destruct (split_bytes_spec 8 x) as (Hb & Hlen & Hle).
  specialize (Hle Hx). set (l := split_bytes 8 x) in *. clearbody l. subst x.
  destruct (popc_steps l Hb) as (Hb1 & Hx1 & Hy & Hm & Hym).
  set (m := map popc_byte2 _) in *.
  assert (length m = length l) as Hlm by (unfold m; by rewrite !length_map). clearbody m.
  assert (bytes m) as Hbm
    by (eapply Forall_impl; [exact Hm|]; unfold nibbles; simpl; lia).
  pose proof (count_bits_le l Hb) as Hc. rewrite Hlen in *.
  change (rep 0x55 8) with 0x5555555555555555 in *.
  change (rep 0x33 8) with 0x3333333333333333 in *.
  change (rep 0x0F 8) with 0x0F0F0F0F0F0F0F0F in *.
  unfold dt_popc. rewrite !Z.shiftr_div_pow2 by lia.
  change (2 ^ 1) with 2. change (2 ^ 2) with 4. change (2 ^ 4) with 16.
  change (2 ^ 8) with 256.
  rewrite (wrap_id 64 (le l - _))
    by (rewrite Hx1; apply le_urange; by rewrite ?length_map).
  rewrite Hym in *. rewrite (wrap_id 64 (le m)) by by apply le_urange.
  rewrite (wrap_id 64 (_ + _ / 16)) by by apply nibbles_add_range.
  rewrite Hy. change 64%nat with (8 * 8)%nat. rewrite Hc.
  apply popc_fold; [by rewrite length_map|].
  apply Forall_map. eapply Forall_impl; [exact Hb|]. intros a Ha.
  destruct (popc_byte_spec a Ha) as (_ & _ & ->). apply count_bits_range.
Qed.

Lemma bit_word bm w v i :
  bm !! w = Some v → 0 <= i < 64 → bit bm (64 * Z.of_nat w + i) = Z.testbit v i.
Proof.
  intros Hl Hi. unfold bit, BT_WIM. rewrite shiftr_6.
  replace (Z.to_nat _) with w by lia. rewrite Hl. f_equal. lia.
Qed.

Lemma popcb_loop_spec bm k w popc :
  words bm → (w + k <= length bm)%nat → 0 <= popc → popc + 64 * Z.of_nat k < 2 ^ 64 →
  popcb_loop bm w k popc =
    Some (popc + count_bits (λ i, bit bm (64 * Z.of_nat w + i)) (64 * k)).
Proof.
  intros Hw. revert w popc. induction k as [|k IH]; intros w popc Hk Hp Hmax.
  - change (64 * 0)%nat with 0%nat. simpl. f_equal. lia.
  - cbn [popcb_loop].
    destruct (lookup_lt_is_Some_2 bm w) as [v Hv]; [lia|]. rewrite Hv. cbn [mbind option_bind].
    assert (urange 64 v) as Hv64 by by eapply Forall_lookup_1 in Hv.
    pose proof (count_bits_range (Z.testbit v) 64) as Hr.
    rewrite dt_popc_count by done. rewrite (wrap_id 64) by (unfold urange; lia).
    rewrite IH by lia. replace (64 * S k)%nat with (64 + 64 * k)%nat by lia.
    rewrite (count_bits_app _ 64). f_equal. rewrite <- Z.add_assoc. f_equal. f_equal.
    + apply count_bits_ext. intros i Hi. symmetry. by apply bit_word.
    + apply count_bits_ext. intros i Hi. f_equal. lia.
Qed.

Lemma land_low_bits v n i :
  0 <= n → 0 <= i → Z.testbit (Z.land v (Z.shiftl 1 n - 1)) i = (i <? n) && Z.testbit v i.
Proof.
  intros Hn Hi. replace (Z.shiftl 1 n - 1) with (Z.ones n) by (rewrite Z.ones_equiv, Z.shiftl_1_l; lia).
  rewrite Z.land_spec, Z.testbit_ones_nonneg by lia. apply andb_comm.
Qed.

Lemma count_bits_guard f n m :
  (n <= m)%nat → count_bits (λ i, (i <? Z.of_nat n) && f i) m = count_bits f n.
Proof.
  induction m as [|m IH]; intros Hnm; [by replace n with 0%nat by lia|].
  destruct (decide (n = S m)) as [->|].
  - apply count_bits_ext. intros i Hi. destruct (Z.ltb_spec i (Z.of_nat (S m))); [done|lia].
  - simpl. rewrite IH by lia. destruct (Z.ltb_spec (Z.of_nat m) (Z.of_nat n)); simpl; lia.
Qed.

Lemma dt_popcb_in bm n :
  words bm → in_map bm n → 64 * Z.of_nat (length bm) < 2 ^ 64 →
  dt_popcb bm n = Some (count_bits (bit bm) (Z.to_nat n)).
Proof.
  intros Hw [Hn0 Hn] Hlen. unfold dt_popcb. rewrite shiftr_6, land_mask.
  destruct (Z.eqb_spec n 0) as [->|Hnz]; [done|].
  rewrite popcb_loop_spec by (done || lia). cbn [mbind option_bind].
  destruct (lookup_lt_is_Some_2 bm (Z.to_nat (n / 64))) as [v Hv]; [lia|]. rewrite Hv.
  cbn [mbind option_bind].
  assert (urange 64 v) as Hv64 by by eapply Forall_lookup_1 in Hv.
  rewrite dt_popc_count.
  2: { split; [apply Z.land_nonneg; unfold urange in Hv64; lia|].
       apply testbit_range; [lia|apply Z.land_nonneg; unfold urange in Hv64; lia|].
       intros i Hi. rewrite Z.land_spec, (testbit_high v 64) by (unfold urange in Hv64; lia). done. }
  rewrite (count_bits_ext _ (λ i, (i <? Z.of_nat (Z.to_nat (n mod 64))) && Z.testbit v i) 64).
  2: { intros i Hi. rewrite land_low_bits by lia. do 2 f_equal. lia. }
  rewrite count_bits_guard by lia.
  rewrite (count_bits_ext (Z.testbit v) (λ i, bit bm (64 * Z.of_nat (Z.to_nat (n / 64)) + i))).
  2: { intros i Hi. symmetry. apply bit_word; [done|lia]. }
  rewrite (count_bits_ext (λ i, bit bm (64 * Z.of_nat 0 + i)) (bit bm)) by done.
  replace (64 * Z.of_nat (Z.to_nat (n / 64))) with (Z.of_nat (64 * Z.to_nat (n / 64))) by lia.
  rewrite wrap_id.
  - f_equal. rewrite Z.add_0_l, <- count_bits_app. f_equal. lia.
  - rewrite Z.add_0_l, <- count_bits_app. pose proof (count_bits_range (bit bm)
      (64 * Z.to_nat (n / 64) + Z.to_nat (n mod 64))). unfold urange. lia.
Qed.

(** At the end of the bitmap [dt_popcb] reads the word after the last one. *)
Lemma dt_popcb_end bm :
  bm ≠ [] → dt_popcb bm (64 * Z.of_nat (length bm)) = None.
Proof.
  intros Hne. unfold dt_popcb. rewrite shiftr_6, land_mask.
  destruct (Z.eqb_spec (64 * Z.of_nat (length bm)) 0) as [H0|_].
  { destruct bm; [done|simpl in H0; lia]. }
  destruct (popcb_loop _ _ _ _); [|done]. simpl.
  rewrite lookup_ge_None_2 by lia. done.
Qed.

End Bitmap.
