(* ===== verification/Regset.v ===== *)
(** * The register set of the code generator: libdtrace/dt_regset.c

    A register is free, active, or active with an earlier value spilled to its
    slot on the BPF stack.  The spill callbacks are functions on a state [S]:
    in the code generator they emit a store to, or a load from, the slot. *)
From S2P Require Import Prelude Bitmap.
Import Bitmap.

Module Regset.

(** ** The component *)

Record dt_regset (S : Type) := {
  dr_size : Z;
  dr_spill_store : Z → S → S;
  dr_spill_load : Z → S → S;
  dr_active : list Z;
  dr_spilled : list Z
}.
Arguments dr_size {_}. Arguments dr_spill_store {_}. Arguments dr_spill_load {_}.
Arguments dr_active {_}. Arguments dr_spilled {_}.

Definition set_active {S} (a : list Z) (d : dt_regset S) : dt_regset S :=
  {| dr_size := dr_size d; dr_spill_store := dr_spill_store d;
     dr_spill_load := dr_spill_load d; dr_active := a; dr_spilled := dr_spilled d |}.
Definition set_spilled {S} (a : list Z) (d : dt_regset S) : dt_regset S :=
  {| dr_size := dr_size d; dr_spill_store := dr_spill_store d;
     dr_spill_load := dr_spill_load d; dr_active := dr_active d; dr_spilled := a |}.

(** [memset(bm, 0, nbytes)] on a vector of words. *)
Definition memset0 (bm : list Z) (nbytes : Z) : list Z :=
  replicate (Z.to_nat (nbytes / 8)) 0 ++ drop (Z.to_nat (nbytes / 8)) bm.

Definition dt_regset_reset {S} (drp : dt_regset S) : dt_regset S :=
  set_spilled (memset0 (dr_spilled drp) (BT_SIZEOFMAP (dr_size drp)))
    (set_active (memset0 (dr_active drp) (BT_SIZEOFMAP (dr_size drp))) drp).

(** The three allocations: [None] is a failed [malloc], [Some] the (arbitrary)
    contents of the new block.  The result is [None] for NULL. *)
Definition dt_regset_create {S} (set_ok : bool) (active spilled : option (list Z))
    (size : Z) (stf ldf : Z → S → S) : option (dt_regset S) :=
  if set_ok then
    let size := u64 (size + 1) in
    match active, spilled with
    | Some a, Some s =>
        Some (dt_regset_reset
          {| dr_size := size; dr_spill_store := stf; dr_spill_load := ldf;
             dr_active := a; dr_spilled := s |})
    | _, _ => None
    end
  else None.

(** [for (reg = n - 1; reg >= 0; reg--) if (BT_TEST(bm, reg) == 0) ...]: the
    register at which the loop stops, if it does. *)
Fixpoint find_clear (bm : list Z) (n : nat) : option (option Z) :=
  match n with
  | O => Some None
  | S k =>
      b ← BT_TEST bm (Z.of_nat k);
      if (b : bool) then find_clear bm k else Some (Some (Z.of_nat k))
  end.

Definition dt_regset_alloc {S} (drp : dt_regset S) (s : S) : option (Z * dt_regset S * S) :=
  r ← find_clear (dr_active drp) (Z.to_nat (dr_size drp));
  match r with
  | Some reg =>
      a ← BT_SET (dr_active drp) reg;
      Some (reg, set_active a drp, s)
  | None =>
      r ← find_clear (dr_spilled drp) (Z.to_nat (dr_size drp));
      match r with
      | Some reg =>
          let s := dr_spill_store drp reg s in
          sp ← BT_SET (dr_spilled drp) reg;
          Some (reg, set_spilled sp drp, s)
      | None => Some (-1, drp, s)
      end
  end.

(** [assert(reg >= 0 && reg < drp->dr_size)]: the second comparison is unsigned. *)
Definition reg_ok {S} (drp : dt_regset S) (reg : Z) : bool :=
  (0 <=? reg) && (u64 reg <? dr_size drp).

Definition dt_regset_xalloc {S} (drp : dt_regset S) (reg : Z) (s : S) :
    option (Z * dt_regset S * S) :=
  if reg_ok drp reg then
    act ← BT_TEST (dr_active drp) reg;
    if (act : bool) then
      sp ← BT_TEST (dr_spilled drp) reg;
      if (sp : bool) then Some (-1, drp, s)
      else
        let s := dr_spill_store drp reg s in
        spm ← BT_SET (dr_spilled drp) reg;
        let drp := set_spilled spm drp in
        a ← BT_SET (dr_active drp) reg;
        Some (0, set_active a drp, s)
    else
      a ← BT_SET (dr_active drp) reg;
      Some (0, set_active a drp, s)
  else None.

Definition dt_regset_free {S} (drp : dt_regset S) (reg : Z) (s : S) :
    option (dt_regset S * S) :=
  if reg_ok drp reg then
    act ← BT_TEST (dr_active drp) reg;
    if (act : bool) then
      sp ← BT_TEST (dr_spilled drp) reg;
      if (sp : bool) then
        let s := dr_spill_load drp reg s in
        spm ← BT_CLEAR (dr_spilled drp) reg;
        Some (set_spilled spm drp, s)
      else
        a ← BT_CLEAR (dr_active drp) reg;
        Some (set_active a drp, s)
    else None
  else None.

(** [while (--reg > 0) dt_regset_free(drp, reg);] entered with [reg = n + 1]. *)
Fixpoint free_down {S} (n : nat) (drp : dt_regset S) (s : S) : option (dt_regset S * S) :=
  match n with
  | O => Some (drp, s)
  | Datatypes.S k =>
      '(drp, s) ← dt_regset_free drp (Z.of_nat n) s;
      free_down k drp s
  end.

(** [for (reg = 1; reg <= 5; reg++)], with [k] iterations left. *)
Fixpoint xalloc_args_loop {S} (k : nat) (reg : nat) (drp : dt_regset S) (s : S) :
    option (Z * dt_regset S * S) :=
  match k with
  | O => Some (0, drp, s)
  | Datatypes.S k =>
      '(rc, drp, s) ← dt_regset_xalloc drp (Z.of_nat reg) s;
      if rc =? -1 then
        '(drp, s) ← free_down (reg - 1) drp s;
        Some (-1, drp, s)
      else xalloc_args_loop k (Datatypes.S reg) drp s
  end.

Definition dt_regset_xalloc_args {S} (drp : dt_regset S) (s : S) :
    option (Z * dt_regset S * S) := xalloc_args_loop 5 1 drp s.

Fixpoint free_args_loop {S} (k : nat) (reg : nat) (drp : dt_regset S) (s : S) :
    option (dt_regset S * S) :=
  match k with
  | O => Some (drp, s)
  | Datatypes.S k =>
      '(drp, s) ← dt_regset_free drp (Z.of_nat reg) s;
      free_args_loop k (Datatypes.S reg) drp s
  end.

Definition dt_regset_free_args {S} (drp : dt_regset S) (s : S) : option (dt_regset S * S) :=
  free_args_loop 5 1 drp s.

(** The characters [dt_regset_dump] prints: 'x' (120), 's' (115) or '.' (46). *)
Fixpoint dump_loop {S} (drp : dt_regset S) (k : nat) (reg : nat) : option (list Z) :=
  match k with
  | O => Some []
  | Datatypes.S k =>
      a ← BT_TEST (dr_active drp) (Z.of_nat reg);
      c ← (if (a : bool) then Some 120
           else sp ← BT_TEST (dr_spilled drp) (Z.of_nat reg);
                Some (if (sp : bool) then 115 else 46));
      rest ← dump_loop drp k (Datatypes.S reg);
      Some (c :: rest)
  end.

Definition dt_regset_dump {S} (drp : dt_regset S) : option (list Z) :=
  dump_loop drp (Z.to_nat (dr_size drp)) 0.

(** ** The spill callbacks of the code generator *)

(** [dt_cg_spill_store] and [dt_cg_spill_load] (dt_cg.c) emit one instruction
    each; their effect on the BPF machine is a move between a register and its
    stack slot, at the offset [DT_STK_SPILL(reg)] (dt_dctx.h) from the frame
    pointer. *)
Definition DCTX_SIZE : Z := 9 * 8.
Definition DT_STK_SLOT_SZ : Z := 8.
Definition DT_STK_DCTX : Z := 0 - DCTX_SIZE.
Definition DT_STK_SPILL_BASE : Z := DT_STK_DCTX - DT_STK_SLOT_SZ.
Definition DT_STK_SPILL (n : Z) : Z := DT_STK_SPILL_BASE - n * DT_STK_SLOT_SZ.

Record machine := { m_reg : Z → Z; m_stk : Z → Z }.

Definition upd (f : Z → Z) (k v : Z) : Z → Z := λ x, if x =? k then v else f x.

Definition dt_cg_spill_store (reg : Z) (m : machine) : machine :=
  {| m_reg := m_reg m; m_stk := upd (m_stk m) (DT_STK_SPILL reg) (m_reg m reg) |}.
Definition dt_cg_spill_load (reg : Z) (m : machine) : machine :=
  {| m_reg := upd (m_reg m) reg (m_stk m (DT_STK_SPILL reg)); m_stk := m_stk m |}.

(** ** Abstract view *)

(** How many values compete for a register: 0 when it is free, 1 when it is
    active, 2 when it is active and holds back a spilled value. *)
Definition level {S} (drp : dt_regset S) (reg : Z) : Z :=
  Z.b2z (bit (dr_active drp) reg) + Z.b2z (bit (dr_spilled drp) reg).

Definition is_reg {S} (drp : dt_regset S) (reg : Z) : Prop := 0 <= reg < dr_size drp.

Record wf {S} (drp : dt_regset S) : Prop := {
  wf_size : 0 <= dr_size drp < 2 ^ 31;
  wf_len_active : Z.of_nat (length (dr_active drp)) = BT_BITOUL (dr_size drp);
  wf_len_spilled : Z.of_nat (length (dr_spilled drp)) = BT_BITOUL (dr_size drp);
  wf_words_active : words (dr_active drp);
  wf_words_spilled : words (dr_spilled drp);
  wf_incl : ∀ r, 0 <= r → bit (dr_spilled drp) r = true → bit (dr_active drp) r = true
}.

(** Same set of registers, same callbacks: what the operations leave alone. *)
Definition same_frame {S} (d1 d2 : dt_regset S) : Prop :=
  dr_size d1 = dr_size d2 ∧ dr_spill_store d1 = dr_spill_store d2 ∧
  dr_spill_load d1 = dr_spill_load d2.

(** Two register sets that no operation can tell apart. *)
Definition equiv {S} (d1 d2 : dt_regset S) : Prop :=
  same_frame d1 d2 ∧ ∀ r, 0 <= r → level d1 r = level d2 r.

(** ** Lemmas *)

Section lemmas.
Context {S : Type}.
Implicit Types (drp : dt_regset S) (s : S) (r : Z).

Lemma BITOUL_ge n : 0 <= n → n <= 64 * BT_BITOUL n.
Proof. intros. unfold BT_BITOUL, BT_NBIPUL, BT_ULSHIFT. change (Z.shiftl 1 6) with 64. lia. Qed.

Lemma wf_in_active drp r : wf drp → is_reg drp r → in_map (dr_active drp) r.
Proof.
  intros [Hs Ha _ _ _ _] Hr. unfold is_reg in Hr. unfold in_map. rewrite Ha.
  pose proof (BITOUL_ge (dr_size drp)). lia.
Qed.

Lemma wf_in_spilled drp r : wf drp → is_reg drp r → in_map (dr_spilled drp) r.
Proof.
  intros [Hs _ Ha _ _ _] Hr. unfold is_reg in Hr. unfold in_map. rewrite Ha.
  pose proof (BITOUL_ge (dr_size drp)). lia.
Qed.

Lemma reg_ok_true drp r : wf drp → is_reg drp r → reg_ok drp r = true.
Proof.
  intros [Hs _ _ _ _ _] Hr. unfold is_reg in Hr. unfold reg_ok.
  rewrite wrap_id by (unfold urange; lia). lia.
Qed.

Lemma level_0 drp r : level drp r = 0 ↔ bit (dr_active drp) r = false ∧ bit (dr_spilled drp) r = false.
Proof. unfold level. destruct (bit _ r), (bit _ r); simpl; intuition (lia || congruence). Qed.

Lemma level_cases drp r :
  wf drp → 0 <= r →
  (level drp r = 0 ∧ bit (dr_active drp) r = false ∧ bit (dr_spilled drp) r = false) ∨
  (level drp r = 1 ∧ bit (dr_active drp) r = true ∧ bit (dr_spilled drp) r = false) ∨
  (level drp r = 2 ∧ bit (dr_active drp) r = true ∧ bit (dr_spilled drp) r = true).
Proof.
  intros Hwf Hr. pose proof (wf_incl _ Hwf r Hr) as Hi. unfold level.
  destruct (bit (dr_active drp) r), (bit (dr_spilled drp) r); simpl; naive_solver lia.
Qed.

(** Setting a bit of either map, and clearing one, as transitions on levels. *)
Lemma set_active_spec drp r :
  wf drp → is_reg drp r → level drp r = 0 →
  ∃ a, BT_SET (dr_active drp) r = Some a ∧ wf (set_active a drp) ∧
    ∀ q, 0 <= q → level (set_active a drp) q = if decide (q = r) then 1 else level drp q.
Proof.
  intros Hwf Hr H0. pose proof (wf_in_active _ _ Hwf Hr) as Hin.
  destruct Hwf as [H1 H2 H3 H4 H5 H6].
  destruct (BT_SET_spec (dr_active drp) r Hin H4) as (a & Ha & Hlen & Hw & Hb).
  exists a. split_and!; [done| |].
  - split; simpl; try done; [by rewrite Hlen|].
    intros q Hq Hsp. rewrite Hb by done. rewrite (H6 q Hq Hsp). apply orb_true_r.
  - apply level_0 in H0 as [_ H0].
    intros q Hq. unfold level. simpl. rewrite Hb by done.
    case_decide; case_bool_decide; subst; try done. by rewrite H0.
Qed.

Lemma set_active_same drp r :
  wf drp → is_reg drp r → bit (dr_active drp) r = true →
  ∃ a, BT_SET (dr_active drp) r = Some a ∧ wf (set_active a drp) ∧
    ∀ q, 0 <= q → level (set_active a drp) q = level drp q.
Proof.
  intros Hwf Hr Hact. pose proof (wf_in_active _ _ Hwf Hr) as Hin.
  destruct Hwf as [H1 H2 H3 H4 H5 H6].
  destruct (BT_SET_spec (dr_active drp) r Hin H4) as (a & Ha & Hlen & Hw & Hb).
  exists a. split_and!; [done| |].
  - split; simpl; try done; [by rewrite Hlen|].
    intros q Hq Hsp. rewrite Hb by done. rewrite (H6 q Hq Hsp). apply orb_true_r.
  - intros q Hq. unfold level. simpl. rewrite Hb by done.
    case_bool_decide; subst; [by rewrite Hact|done].
Qed.

Lemma set_spilled_spec drp r :
  wf drp → is_reg drp r → level drp r = 1 →
  ∃ a, BT_SET (dr_spilled drp) r = Some a ∧ wf (set_spilled a drp) ∧
    ∀ q, 0 <= q → level (set_spilled a drp) q = if decide (q = r) then 2 else level drp q.
Proof.
  intros Hwf Hr H1. pose proof (wf_in_spilled _ _ Hwf Hr) as Hin.
  destruct (level_cases drp r Hwf) as [?|[(_ & Hact & _)|?]]; [unfold is_reg in Hr; lia|lia| |lia].
  destruct Hwf as [Hs H2 H3 H4 H5 H6].
  destruct (BT_SET_spec (dr_spilled drp) r Hin H5) as (a & Ha & Hlen & Hw & Hb).
  exists a. split_and!; [done| |].
  - split; simpl; try done; [by rewrite Hlen|].
    intros q Hq. rewrite Hb by done. case_bool_decide; subst; [done|]. by apply H6.
  - intros q Hq. unfold level. simpl. rewrite Hb by done.
    case_decide; case_bool_decide; subst; try done. by rewrite Hact.
Qed.

Lemma clear_active_spec drp r :
  wf drp → is_reg drp r → level drp r = 1 →
  ∃ a, BT_CLEAR (dr_active drp) r = Some a ∧ wf (set_active a drp) ∧
    ∀ q, 0 <= q → level (set_active a drp) q = if decide (q = r) then 0 else level drp q.
Proof.
  intros Hwf Hr H1. pose proof (wf_in_active _ _ Hwf Hr) as Hin.
  destruct (level_cases drp r Hwf) as [?|[(_ & Hact & Hsp)|?]]; [unfold is_reg in Hr; lia|lia| |lia].
  destruct Hwf as [Hs H2 H3 H4 H5 H6].
  destruct (BT_CLEAR_spec (dr_active drp) r Hin H4) as (a & Ha & Hlen & Hw & Hb).
  exists a. split_and!; [done| |].
  - split; simpl; try done; [by rewrite Hlen|].
    intros q Hq Hq'. rewrite Hb by done. case_bool_decide; subst; simpl; [congruence|auto].
  - intros q Hq. unfold level. simpl. rewrite Hb by done.
    case_decide; case_bool_decide; subst; try done. by rewrite Hsp.
Qed.

Lemma clear_spilled_spec drp r :
  wf drp → is_reg drp r → level drp r = 2 →
  ∃ a, BT_CLEAR (dr_spilled drp) r = Some a ∧ wf (set_spilled a drp) ∧
    ∀ q, 0 <= q → level (set_spilled a drp) q = if decide (q = r) then 1 else level drp q.
Proof.
  intros Hwf Hr H1. pose proof (wf_in_spilled _ _ Hwf Hr) as Hin.
  destruct (level_cases drp r Hwf) as [?|[?|(_ & Hact & Hsp)]]; [unfold is_reg in Hr; lia|lia|lia|].
  destruct Hwf as [Hs H2 H3 H4 H5 H6].
  destruct (BT_CLEAR_spec (dr_spilled drp) r Hin H5) as (a & Ha & Hlen & Hw & Hb).
  exists a. split_and!; [done| |].
  - split; simpl; try done; [by rewrite Hlen|].
    intros q Hq Hq'. rewrite Hb in Hq' by done. apply andb_true_iff in Hq' as [_ Hq']. auto.
  - intros q Hq. unfold level. simpl. rewrite Hb by done.
    case_decide; case_bool_decide; subst; try done. by rewrite Hact.
Qed.

Lemma find_clear_spec bm n :
  Z.of_nat n <= 64 * Z.of_nat (length bm) →
  (∃ r, find_clear bm n = Some (Some r) ∧ 0 <= r < Z.of_nat n ∧ bit bm r = false ∧
        ∀ q, r < q < Z.of_nat n → bit bm q = true) ∨
  (find_clear bm n = Some None ∧ ∀ q, 0 <= q < Z.of_nat n → bit bm q = true).
Proof.
  induction n as [|n IH]; intros Hn; simpl; [right; split; [done|lia]|].
  rewrite BT_TEST_bit by (unfold in_map; lia). simpl.
  destruct (bit bm (Z.of_nat n)) eqn:Hb.
  - destruct IH as [(r & -> & Hr & Hbr & Hmax)|[-> Hall]]; [lia|left|right].
    + exists r. split_and!; [done|lia|lia|done|]. intros q Hq.
      destruct (decide (q = Z.of_nat n)) as [->|]; [done|]. apply Hmax. lia.
    + split; [done|]. intros q Hq.
      destruct (decide (q = Z.of_nat n)) as [->|]; [done|]. apply Hall. lia.
  - left. exists (Z.of_nat n). split_and!; try done; lia.
Qed.

(** The three outcomes of [dt_regset_alloc]: the highest free register; with
    none free, the highest active one, after spilling its value; with all of
    them spilled already, -1. *)
Inductive alloc_spec drp s : Z → dt_regset S → S → Prop :=
  | alloc_free r drp' :
      is_reg drp r → level drp r = 0 →
      (∀ q, r < q < dr_size drp → level drp q ≠ 0) →
      same_frame drp drp' → wf drp' →
      (∀ q, 0 <= q → level drp' q = if decide (q = r) then 1 else level drp q) →
      alloc_spec drp s r drp' s
  | alloc_spill r drp' :
      is_reg drp r → level drp r = 1 →
      (∀ q, is_reg drp q → level drp q ≠ 0) →
      (∀ q, r < q < dr_size drp → level drp q = 2) →
      same_frame drp drp' → wf drp' →
      (∀ q, 0 <= q → level drp' q = if decide (q = r) then 2 else level drp q) →
      alloc_spec drp s r drp' (dr_spill_store drp r s)
  | alloc_none :
      (∀ q, is_reg drp q → level drp q = 2) →
      alloc_spec drp s (-1) drp s.

Lemma alloc_ok drp s :
  wf drp →
  ∃ reg drp' s', dt_regset_alloc drp s = Some (reg, drp', s') ∧ alloc_spec drp s reg drp' s'.
Proof.
  intros Hwf. pose proof (wf_size _ Hwf) as Hs.
  pose proof (BITOUL_ge (dr_size drp) ltac:(lia)) as Hcap.
  unfold dt_regset_alloc.
  destruct (find_clear_spec (dr_active drp) (Z.to_nat (dr_size drp)))
    as [(r & -> & Hr & Hb & Hmax)|[-> Hall]].
  { rewrite (wf_len_active _ Hwf). lia. }
  - simpl. assert (is_reg drp r) as Hreg by (unfold is_reg; lia).
    assert (level drp r = 0) as H0.
    { destruct (level_cases drp r Hwf) as [(? & _)|[(_ & ? & _)|(_ & ? & _)]];
        [lia|done|congruence..]. }
    destruct (set_active_spec drp r Hwf Hreg H0) as (a & -> & Hwf' & Hlev).
    do 3 eexists. split; [done|]. apply alloc_free; try done.
    intros q Hq. specialize (Hmax q ltac:(lia)). unfold level. rewrite Hmax.
    by destruct (bit (dr_spilled drp) q).
  - simpl. destruct (find_clear_spec (dr_spilled drp) (Z.to_nat (dr_size drp)))
      as [(r & -> & Hr & Hb & Hmax)|[-> Hall2]].
    { rewrite (wf_len_spilled _ Hwf). lia. }
    + simpl. assert (is_reg drp r) as Hreg by (unfold is_reg; lia).
      assert (level drp r = 1) as H1 by (unfold level; rewrite Hb, Hall by lia; done).
      destruct (set_spilled_spec drp r Hwf Hreg H1) as (a & -> & Hwf' & Hlev).
      do 3 eexists. split; [done|]. apply alloc_spill; try done.
      * intros q Hq. unfold is_reg in Hq. unfold level. rewrite Hall by lia.
        by destruct (bit (dr_spilled drp) q).
      * intros q Hq. unfold level. rewrite Hall, Hmax by lia. done.
    + do 3 eexists. split; [done|]. apply alloc_none.
      intros q Hq. unfold is_reg in Hq. unfold level. rewrite Hall, Hall2 by lia. done.
Qed.

Inductive xalloc_spec drp r s : Z → dt_regset S → S → Prop :=
  | xalloc_free drp' :
      level drp r = 0 → same_frame drp drp' → wf drp' →
      (∀ q, 0 <= q → level drp' q = if decide (q = r) then 1 else level drp q) →
      xalloc_spec drp r s 0 drp' s
  | xalloc_spill drp' :
      level drp r = 1 → same_frame drp drp' → wf drp' →
      (∀ q, 0 <= q → level drp' q = if decide (q = r) then 2 else level drp q) →
      xalloc_spec drp r s 0 drp' (dr_spill_store drp r s)
  | xalloc_busy :
      level drp r = 2 → xalloc_spec drp r s (-1) drp s.

Lemma xalloc_ok drp r s :
  wf drp → is_reg drp r →
  ∃ rc drp' s', dt_regset_xalloc drp r s = Some (rc, drp', s') ∧ xalloc_spec drp r s rc drp' s'.
Proof.
  intros Hwf Hr. unfold dt_regset_xalloc. rewrite reg_ok_true by done.
  rewrite !BT_TEST_bit by eauto using wf_in_active, wf_in_spilled. simpl.
  destruct (level_cases drp r Hwf) as [(Hl & Ha & Hsp)|[(Hl & Ha & Hsp)|(Hl & Ha & Hsp)]];
    [unfold is_reg in Hr; lia| | |]; rewrite Ha, ?Hsp.
  - destruct (set_active_spec drp r Hwf Hr Hl) as (a & -> & Hwf' & Hlev).
    do 3 eexists. split; [done|]. by apply xalloc_free.
  - destruct (set_spilled_spec drp r Hwf Hr Hl) as (a & -> & Hwf' & Hlev).
    destruct (set_active_same (set_spilled a drp) r Hwf' Hr Ha) as (a' & Ha' & Hwf'' & Hlev').
    simpl in *. rewrite Ha'. simpl.
    do 3 eexists. split; [done|]. apply xalloc_spill; [done..|].
    intros q Hq. rewrite Hlev', Hlev by done. done.
  - do 3 eexists. split; [done|]. by apply xalloc_busy.
Qed.

Inductive free_spec drp r s : dt_regset S → S → Prop :=
  | free_active drp' :
      level drp r = 1 → same_frame drp drp' → wf drp' →
      (∀ q, 0 <= q → level drp' q = if decide (q = r) then 0 else level drp q) →
      free_spec drp r s drp' s
  | free_spilled drp' :
      level drp r = 2 → same_frame drp drp' → wf drp' →
      (∀ q, 0 <= q → level drp' q = if decide (q = r) then 1 else level drp q) →
      free_spec drp r s drp' (dr_spill_load drp r s).

Lemma free_ok drp r s :
  wf drp → is_reg drp r → level drp r ≠ 0 →
  ∃ drp' s', dt_regset_free drp r s = Some (drp', s') ∧ free_spec drp r s drp' s'.
Proof.
  intros Hwf Hr Hne. unfold dt_regset_free. rewrite reg_ok_true by done.
  rewrite !BT_TEST_bit by eauto using wf_in_active, wf_in_spilled. simpl.
  destruct (level_cases drp r Hwf) as [(Hl & Ha & Hsp)|[(Hl & Ha & Hsp)|(Hl & Ha & Hsp)]];
    [unfold is_reg in Hr; lia|done| |]; rewrite Ha, ?Hsp.
  - destruct (clear_active_spec drp r Hwf Hr Hl) as (a & -> & Hwf' & Hlev).
    do 2 eexists. split; [done|]. by apply free_active.
  - destruct (clear_spilled_spec drp r Hwf Hr Hl) as (a & -> & Hwf' & Hlev).
    do 2 eexists. split; [done|]. by apply free_spilled.
Qed.

(** Freeing a free register fails the assertion. *)
Lemma free_unallocated drp r s :
  wf drp → is_reg drp r → level drp r = 0 → dt_regset_free drp r s = None.
Proof.
  intros Hwf Hr H0. unfold dt_regset_free. rewrite reg_ok_true by done.
  rewrite (BT_TEST_bit (dr_active drp)) by eauto using wf_in_active. simpl.
  apply level_0 in H0 as [-> _]. done.
Qed.

Lemma same_frame_trans (d1 d2 d3 : dt_regset S) : same_frame d1 d2 → same_frame d2 d3 → same_frame d1 d3.
Proof. unfold same_frame. intuition congruence. Qed.

Lemma level_bound (d : dt_regset S) q : wf d → 0 <= q → 0 <= level d q <= 2.
Proof. intros Hwf Hq. destruct (level_cases d q Hwf Hq) as [[]|[[]|[]]]; lia. Qed.

End lemmas.

(** ** Preservation of register contents *)

(** A machine together with a register set that spills to its stack. *)
Definition spills (d : dt_regset machine) : Prop :=
  dr_spill_store d = dt_cg_spill_store ∧ dr_spill_load d = dt_cg_spill_load.

(** Every register holds what it held before, and so do the spill slots of
    the registers that were spilled then. *)
Definition preserved (d0 : dt_regset machine) (m0 m : machine) : Prop :=
  (∀ q, is_reg d0 q → level d0 q ≠ 0 → m_reg m q = m_reg m0 q) ∧
  (∀ q, is_reg d0 q → level d0 q = 2 → m_stk m (DT_STK_SPILL q) = m_stk m0 (DT_STK_SPILL q)).

Lemma DT_STK_SPILL_inj p q : DT_STK_SPILL p = DT_STK_SPILL q → p = q.
Proof. unfold DT_STK_SPILL, DT_STK_SLOT_SZ. lia. Qed.

Lemma upd_eq f k v : upd f k v k = v.
Proof. unfold upd. by rewrite Z.eqb_refl. Qed.

Lemma upd_ne f k v q : q ≠ k → upd f k v q = f q.
Proof. intros. unfold upd. by destruct (Z.eqb_spec q k). Qed.

(** [held P d0 m0 d m]: starting from [d0] and [m0], one more allocation is
    outstanding on each register of [P] and on no other.  A register in use
    at the start has its value in place, or in its slot when it is in [P];
    what was in a slot at the start is there still. *)
Record held (P : Z → bool) (d0 : dt_regset machine) (m0 : machine)
    (d : dt_regset machine) (m : machine) : Prop := {
  held_frame : same_frame d0 d;
  held_wf : wf d;
  held_level : ∀ q, 0 <= q → level d q = level d0 q + Z.b2z (P q);
  held_reg : ∀ q, is_reg d0 q → level d0 q ≠ 0 →
    (if P q then m_stk m (DT_STK_SPILL q) else m_reg m q) = m_reg m0 q;
  held_slot : ∀ q, is_reg d0 q → level d0 q = 2 →
    m_stk m (DT_STK_SPILL q) = m_stk m0 (DT_STK_SPILL q)
}.

Definition nobody : Z → bool := λ _, false.
Definition add (r : Z) (P : Z → bool) : Z → bool := λ q, (q =? r) || P q.
Definition remove (r : Z) (P : Z → bool) : Z → bool := λ q, negb (q =? r) && P q.

Lemma held_refl d m : wf d → held nobody d m d m.
Proof. intros Hwf. split; try done. intros q _. simpl. lia. Qed.

Lemma held_done d0 m0 d m : held nobody d0 m0 d m → equiv d0 d ∧ preserved d0 m0 m.
Proof.
  intros [H1 H2 H3 H4 H5]. split; [split; [done|]|by split].
  intros q Hq. rewrite H3 by done. simpl. lia.
Qed.

Lemma held_ext P Q d0 m0 d m : (∀ q, P q = Q q) → held P d0 m0 d m → held Q d0 m0 d m.
Proof.
  intros HPQ [H1 H2 H3 H4 H5]. split; try done.
  - intros q Hq. rewrite H3, HPQ; done.
  - intros q Hq Hl. rewrite <- HPQ. auto.
Qed.

(** Code may write to the registers it has allocated. *)
Lemma held_clobber P d0 m0 d m m' :
  held P d0 m0 d m → (∀ q, P q = false → m_reg m' q = m_reg m q) →
  (∀ o, m_stk m' o = m_stk m o) → held P d0 m0 d m'.
Proof.
  intros [H1 H2 H3 H4 H5] Hr Hs. split; try done.
  - intros q Hq Hl. specialize (H4 q Hq Hl). destruct (P q) eqn:HP; [by rewrite Hs|by rewrite Hr].
  - intros q Hq Hl. rewrite Hs. auto.
Qed.

Lemma held_is_reg P d0 m0 d m r : held P d0 m0 d m → is_reg d0 r ↔ is_reg d r.
Proof. intros [[H _] _ _ _ _]. unfold is_reg. by rewrite H. Qed.

(** One more allocation, of a free register or of a spilled one. *)
Lemma held_take_free P d0 m0 d m d' r :
  held P d0 m0 d m → P r = false → level d r = 0 →
  same_frame d d' → wf d' →
  (∀ q, 0 <= q → level d' q = if decide (q = r) then 1 else level d q) →
  0 <= r → held (add r P) d0 m0 d' m.
Proof.
  intros [H1 H2 H3 H4 H5] HP H0 Hf Hwf Hl Hr. split; try done.
  - by eapply same_frame_trans.
  - intros q Hq. rewrite Hl, H3 by done. unfold add.
    pose proof (H3 r Hr) as Hlr. rewrite HP in Hlr. simpl in Hlr.
    case_decide; subst; [rewrite Z.eqb_refl; simpl; lia|].
    by destruct (Z.eqb_spec q r).
  - intros q Hq Hne. unfold add. destruct (Z.eqb_spec q r); subst; simpl; [|auto].
    exfalso. pose proof (H3 r Hr) as Hlr. rewrite HP in Hlr. simpl in Hlr. lia.
Qed.

Lemma held_take_spill P d0 m0 d m d' r :
  spills d0 → held P d0 m0 d m → P r = false → level d r = 1 →
  same_frame d d' → wf d' →
  (∀ q, 0 <= q → level d' q = if decide (q = r) then 2 else level d q) →
  is_reg d0 r → held (add r P) d0 m0 d' (dr_spill_store d r m).
Proof.
  intros [Hst _] [H1 H2 H3 H4 H5] HP H0 Hf Hwf Hl Hr.
  assert (0 <= r) as Hr0 by (unfold is_reg in Hr; lia).
  pose proof (H3 r Hr0) as Hlr. rewrite HP in Hlr. simpl in Hlr.
  destruct H1 as (Hsz & Hst' & Hld'). rewrite <- Hst', Hst. split; try done.
  - by eapply same_frame_trans.
  - intros q Hq. rewrite Hl, H3 by done. unfold add.
    case_decide; subst; [rewrite Z.eqb_refl; simpl; lia|].
    by destruct (Z.eqb_spec q r).
  - intros q Hq Hne. unfold add. destruct (Z.eqb_spec q r); subst; simpl.
    + rewrite upd_eq. specialize (H4 r Hr Hne). by rewrite HP in H4.
    + specialize (H4 q Hq Hne). destruct (P q); [|done].
      rewrite upd_ne; [done|]. intros Heq%DT_STK_SPILL_inj. done.
  - intros q Hq Hq2. simpl. rewrite upd_ne; [auto|].
    intros ->%DT_STK_SPILL_inj. lia.
Qed.

(** Releasing an outstanding allocation. *)
Lemma held_release P d0 m0 d m r :
  spills d0 → wf d0 → held P d0 m0 d m → P r = true → is_reg d0 r →
  ∃ d' m', dt_regset_free d r m = Some (d', m') ∧ held (remove r P) d0 m0 d' m'.
Proof.
  intros [_ Hld] Hwf0 Hh HP Hr. pose proof (held_is_reg _ _ _ _ _ r Hh) as Hir.
  assert (0 <= r) as Hr0 by (unfold is_reg in Hr; lia).
  destruct Hh as [H1 H2 H3 H4 H5].
  pose proof (H3 r Hr0) as Hlr. rewrite HP in Hlr. simpl in Hlr.
  pose proof (level_bound d0 r Hwf0 Hr0) as Hb0.
  destruct (free_ok d r m H2) as (d' & m' & Hfree & Hspec); [by apply Hir|lia|].
  exists d', m'. split; [done|].
  destruct Hspec as [d' Hl Hf Hwf' Hlev|d' Hl Hf Hwf' Hlev].
  - split; try done.
    + by eapply same_frame_trans.
    + intros q Hq. rewrite Hlev, H3 by done. unfold remove.
      case_decide; subst; [rewrite Z.eqb_refl; simpl; lia|]. by destruct (Z.eqb_spec q r).
    + intros q Hq Hne. unfold remove. destruct (Z.eqb_spec q r); subst; simpl; [lia|auto].
  - destruct H1 as (Hsz & Hst' & Hld'). rewrite <- Hld', Hld. split; try done.
    + by eapply same_frame_trans.
    + intros q Hq. rewrite Hlev, H3 by done. unfold remove.
      case_decide; subst; [rewrite Z.eqb_refl; simpl; lia|]. by destruct (Z.eqb_spec q r).
    + intros q Hq Hne. unfold remove. specialize (H4 q Hq Hne).
      destruct (Z.eqb_spec q r); subst; simpl.
      * rewrite upd_eq. by rewrite HP in H4.
      * destruct (P q); [done|]. by rewrite upd_ne.
Qed.

Lemma held_xalloc P d0 m0 d m r :
  spills d0 → held P d0 m0 d m → P r = false → is_reg d0 r →
  dt_regset_xalloc d r m = Some (-1, d, m) ∨
  ∃ d' m', dt_regset_xalloc d r m = Some (0, d', m') ∧ held (add r P) d0 m0 d' m'.
Proof.
  intros Hsp Hh HP Hr. assert (0 <= r) as Hr0 by (unfold is_reg in Hr; lia).
  destruct (xalloc_ok d r m) as (rc & d' & m' & -> & Hspec).
  { by destruct Hh. }
  { by apply (held_is_reg _ _ _ _ _ r Hh). }
  destruct Hspec; [right..|left; done]; do 2 eexists; (split; [done|]).
  - by eapply held_take_free.
  - by eapply held_take_spill.
Qed.

(** The registers [a <= q < b]. *)
Definition range (a b : Z) : Z → bool := λ q, (a <=? q) && (q <? b).

Lemma range_in a b q : a <= q < b → range a b q = true.
Proof. unfold range. intros. lia. Qed.
Lemma range_out a b q : q < a ∨ b <= q → range a b q = false.
Proof. unfold range. intros. lia. Qed.
Lemma add_range a b q : a <= b → add b (range a b) q = range a (b + 1) q.
Proof. unfold add, range. intros. lia. Qed.
Lemma remove_range_hi a b q : a <= b → remove b (range a (b + 1)) q = range a b q.
Proof. unfold remove, range. intros. lia. Qed.
Lemma remove_range_lo a b q : a < b → remove a (range a b) q = range (a + 1) b q.
Proof. unfold remove, range. intros. lia. Qed.
Lemma range_empty a b q : b <= a → range a b q = nobody q.
Proof. unfold range, nobody. intros. lia. Qed.

Lemma held_free_down n d0 m0 d m :
  spills d0 → wf d0 → (Z.of_nat n < dr_size d0) →
  held (range 1 (Z.of_nat n + 1)) d0 m0 d m →
  ∃ d' m', free_down n d m = Some (d', m') ∧ held nobody d0 m0 d' m'.
Proof.
  intros Hsp Hwf. revert d m. induction n as [|n IH]; intros d m Hn Hh.
  - do 2 eexists. split; [done|]. eapply held_ext; [|done].
    intros q. apply range_empty. lia.
  - cbn [free_down]. destruct (held_release _ _ _ _ _ (Z.of_nat (S n)) Hsp Hwf Hh) as (d' & m' & -> & Hh').
    { apply range_in. lia. } { unfold is_reg. lia. }
    simpl. apply IH; [lia|]. eapply held_ext; [|done].
    intros q. rewrite remove_range_hi by lia. f_equal. lia.
Qed.

Lemma held_xalloc_args k b d0 m0 d m :
  spills d0 → wf d0 → (1 <= b)%nat → Z.of_nat (b + k) <= dr_size d0 →
  held (range 1 (Z.of_nat b)) d0 m0 d m →
  ∃ rc d' m', xalloc_args_loop k b d m = Some (rc, d', m') ∧
    (rc = -1 ∧ held nobody d0 m0 d' m' ∨
     rc = 0 ∧ held (range 1 (Z.of_nat (b + k))) d0 m0 d' m').
Proof.
  intros Hsp Hwf. revert b d m. induction k as [|k IH]; intros b d m Hb Hsz Hh.
  - do 3 eexists. split; [done|]. right. by rewrite Nat.add_0_r.
  - simpl. destruct (held_xalloc _ _ _ _ _ (Z.of_nat b) Hsp Hh) as [Hx|(d' & m' & Hx & Hh')].
    { apply range_out. lia. } { unfold is_reg. lia. }
    + rewrite Hx. simpl.
      destruct (held_free_down (b - 1) d0 m0 d m Hsp Hwf) as (d' & m' & -> & Hh'); [lia| |].
      { eapply held_ext; [|done]. intros q. f_equal. lia. }
      simpl. do 3 eexists. split; [done|]. by left.
    + rewrite Hx. simpl. rewrite Nat.add_succ_r. apply (IH (S b)); [lia..|].
      eapply held_ext; [|done]. intros q. rewrite add_range by lia. f_equal. lia.
Qed.

Lemma held_free_args k b d0 m0 d m :
  spills d0 → wf d0 → (1 <= b)%nat → Z.of_nat (b + k) <= dr_size d0 →
  held (range (Z.of_nat b) (Z.of_nat (b + k))) d0 m0 d m →
  ∃ d' m', free_args_loop k b d m = Some (d', m') ∧ held nobody d0 m0 d' m'.
Proof.
  intros Hsp Hwf. revert b d m. induction k as [|k IH]; intros b d m Hb Hsz Hh.
  - do 2 eexists. split; [done|]. eapply held_ext; [|done].
    intros q. apply range_empty. lia.
  - simpl. destruct (held_release _ _ _ _ _ (Z.of_nat b) Hsp Hwf Hh) as (d' & m' & -> & Hh').
    { apply range_in. lia. } { unfold is_reg. lia. }
    simpl. rewrite Nat.add_succ_r in *. apply (IH (S b)); [lia..|].
    eapply held_ext; [|done]. intros q. rewrite remove_range_lo by lia. f_equal. lia.
Qed.

(** ** A new register set *)

Lemma bit_replicate_0 n r : bit (replicate n 0) r = false.
Proof.
  unfold bit, BT_WIM. destruct (replicate n 0 !! _) eqn:E; [|done].
  apply lookup_replicate in E as [-> _]. apply Z.bits_0.
Qed.

Lemma words_replicate_0 n : words (replicate n 0).
Proof. apply Forall_replicate. unfold urange. lia. Qed.

Lemma memset0_all bm n :
  Z.of_nat (length bm) = BT_BITOUL n → memset0 bm (BT_SIZEOFMAP n) = replicate (length bm) 0.
Proof.
  intros H. unfold memset0, BT_SIZEOFMAP. rewrite Z.div_mul by lia.
  rewrite <- H, Nat2Z.id, drop_all. apply app_nil_r.
Qed.

Lemma reset_wf {S} (d : dt_regset S) :
  0 <= dr_size d < 2 ^ 31 →
  Z.of_nat (length (dr_active d)) = BT_BITOUL (dr_size d) →
  Z.of_nat (length (dr_spilled d)) = BT_BITOUL (dr_size d) →
  wf (dt_regset_reset d) ∧ same_frame d (dt_regset_reset d) ∧
  ∀ r, level (dt_regset_reset d) r = 0.
Proof.
  intros Hs Ha Hsp. unfold dt_regset_reset. simpl.
  rewrite !memset0_all by done. split_and!; [|done|].
  - split; simpl; rewrite ?length_replicate; try done; try apply words_replicate_0.
    intros r _. by rewrite bit_replicate_0.
  - intros r. unfold level. simpl. by rewrite !bit_replicate_0.
Qed.

(** ** The correctness of the register set *)

(** [dt_regset_create] returns NULL exactly when an allocation fails; the
    set it returns otherwise is well-formed, has one register more than asked
    for (%r0), and has every register free, whatever the new memory held. *)
Theorem dt_regset_create_correct {S} ok a sp size (stf ldf : Z → S → S) :
  0 <= size < 2 ^ 31 - 1 →
  (∀ l, a = Some l ∨ sp = Some l → Z.of_nat (length l) = BT_BITOUL (size + 1)) →
  match dt_regset_create ok a sp size stf ldf with
  | None => ok = false ∨ a = None ∨ sp = None
  | Some d => wf d ∧ dr_size d = size + 1 ∧ ∀ r, level d r = 0
  end.
Proof.
  intros Hs Hl. unfold dt_regset_create.
  destruct ok; [|by left]. destruct a as [a|]; [|by eauto]. destruct sp as [sp|]; [|by eauto].
  rewrite wrap_id by (unfold urange; lia).
  match goal with |- context [dt_regset_reset ?d] => destruct (reset_wf d) as (? & ? & ?) end;
    simpl; eauto; lia.
Qed.

Lemma dt_regset_create_correct_witness :
  match dt_regset_create true (Some [12345]) (Some [678]) 9 dt_cg_spill_store dt_cg_spill_load with
  | None => true = false ∨ Some [12345] = None ∨ Some [678] = None
  | Some d => wf d ∧ dr_size d = 9 + 1 ∧ ∀ r, level d r = 0
  end.
Proof.
  apply (dt_regset_create_correct true (Some [12345]) (Some [678]) 9); [lia|].
  intros l [[= <-]|[= <-]]; reflexivity.
Defined.

(** [dt_regset_alloc] never fails an assertion or leaves its bitmaps on a
    well-formed set; it hands out the highest free register, else the highest
    register that is not spilled yet (after storing its value), else -1, and
    changes the state of no other register. *)
Theorem dt_regset_alloc_correct {S} (drp : dt_regset S) s :
  wf drp →
  ∃ reg drp' s', dt_regset_alloc drp s = Some (reg, drp', s') ∧ alloc_spec drp s reg drp' s'.
Proof. apply alloc_ok. Qed.

(** The register set of the code generator: [dtc_difintregs] registers and %r0. *)
Definition initial_set : dt_regset machine :=
  {| dr_size := 9; dr_spill_store := dt_cg_spill_store; dr_spill_load := dt_cg_spill_load;
     dr_active := [0]; dr_spilled := [0] |}.

Lemma initial_set_wf : wf initial_set.
Proof.
  destruct (reset_wf initial_set) as (H & _); [simpl; lia|reflexivity..|]. exact H.
Qed.

Lemma dt_regset_alloc_correct_witness :
  ∃ reg drp' s',
    dt_regset_alloc initial_set {| m_reg := id; m_stk := id |} = Some (reg, drp', s') ∧
    alloc_spec initial_set {| m_reg := id; m_stk := id |} reg drp' s'.
Proof. apply dt_regset_alloc_correct, initial_set_wf. Defined.

(** C22: Allocating a register, writing anything to it and freeing it again
    leaves the register set as it was, every register then in use with its
    value, and every value then spilled in its slot: spilling is transparent. *)
Theorem dt_regset_alloc_free_restores d0 m0 r d1 m1 m2 :
  wf d0 → spills d0 →
  dt_regset_alloc d0 m0 = Some (r, d1, m1) → r ≠ -1 →
  (∀ q, q ≠ r → m_reg m2 q = m_reg m1 q) → (∀ o, m_stk m2 o = m_stk m1 o) →
  ∃ d2 m3, dt_regset_free d1 r m2 = Some (d2, m3) ∧
    wf d2 ∧ equiv d0 d2 ∧ preserved d0 m0 m3.
Proof.
  intros Hwf Hsp Ha Hr Hreg Hstk.
  destruct (alloc_ok d0 m0 Hwf) as (r' & d1' & m1' & Ha' & Hspec). simplify_eq.
  assert (is_reg d0 r ∧ held (add r nobody) d0 m0 d1 m1) as [Hir Hh].
  { pose proof (held_refl d0 m0 Hwf) as H0. destruct Hspec; [| |done]; (split; [done|]).
    - eapply held_take_free; try done. unfold is_reg in *. lia.
    - by eapply held_take_spill. }
  eapply (held_clobber _ _ _ _ _ m2) in Hh; [| |done].
  2: { intros q. unfold add, nobody. destruct (Z.eqb_spec q r); [done|]. by auto. }
  destruct (held_release _ _ _ _ _ r Hsp Hwf Hh) as (d2 & m3 & Hf & Hh'); [|done|].
  { unfold add. by rewrite Z.eqb_refl. }
  exists d2, m3. split; [done|]. split; [by destruct Hh'|]. apply held_done.
  eapply held_ext; [|done]. intros q. unfold remove, add, nobody. by destruct (q =? r).
Qed.

Lemma dt_regset_alloc_free_restores_witness :
  ∃ d2 m3,
    dt_regset_free (set_active [256] initial_set) 8
      {| m_reg := upd id 8 99; m_stk := id |} = Some (d2, m3) ∧
    wf d2 ∧ equiv initial_set d2 ∧ preserved initial_set {| m_reg := id; m_stk := id |} m3.
Proof.
  apply (dt_regset_alloc_free_restores initial_set {| m_reg := id; m_stk := id |} 8
    (set_active [256] initial_set) {| m_reg := id; m_stk := id |}).
  - apply initial_set_wf.
  - split; reflexivity.
  - reflexivity.
  - lia.
  - intros q Hq. simpl. by rewrite upd_ne.
  - done.
Defined.

(** [dt_regset_xalloc_args] takes %r1 to %r5 together or not at all.  When
    one of them is spilled already it returns -1 with the set and every live
    value as before; otherwise a call may clobber the five registers and
    [dt_regset_free_args] brings the set and every live value back. *)
Theorem dt_regset_args_restore d0 m0 :
  wf d0 → spills d0 → 6 <= dr_size d0 →
  ∃ rc d1 m1, dt_regset_xalloc_args d0 m0 = Some (rc, d1, m1) ∧
    (rc = -1 ∧ equiv d0 d1 ∧ preserved d0 m0 m1 ∨
     rc = 0 ∧
     ∀ m2, (∀ q, ¬ 1 <= q <= 5 → m_reg m2 q = m_reg m1 q) →
       (∀ o, m_stk m2 o = m_stk m1 o) →
       ∃ d2 m3, dt_regset_free_args d1 m2 = Some (d2, m3) ∧
         equiv d0 d2 ∧ preserved d0 m0 m3).
Proof.
  intros Hwf Hsp Hsz.
  destruct (held_xalloc_args 5 1 d0 m0 d0 m0 Hsp Hwf) as (rc & d1 & m1 & Hx & Hrc); [lia..| |].
  { eapply held_ext; [|by apply held_refl]. intros q. symmetry. by apply range_empty. }
  exists rc, d1, m1. split; [done|]. destruct Hrc as [[-> Hh]|[-> Hh]]; [left|right].
  - split; [done|]. by apply held_done.
  - split; [done|]. intros m2 Hreg Hstk.
    eapply (held_clobber _ _ _ _ _ m2) in Hh; [| |done].
    2: { intros q Hq. apply Hreg. intros Hin. by rewrite range_in in Hq by lia. }
    destruct (held_free_args 5 1 d0 m0 d1 m2 Hsp Hwf) as (d2 & m3 & Hf & Hh'); [lia..|done|].
    exists d2, m3. split; [done|]. by apply held_done.
Qed.

Lemma dt_regset_args_restore_witness :
  let m0 := {| m_reg := id; m_stk := id |} in
  ∃ rc d1 m1, dt_regset_xalloc_args initial_set m0 = Some (rc, d1, m1) ∧
    (rc = -1 ∧ equiv initial_set d1 ∧ preserved initial_set m0 m1 ∨
     rc = 0 ∧
     ∀ m2, (∀ q, ¬ 1 <= q <= 5 → m_reg m2 q = m_reg m1 q) →
       (∀ o, m_stk m2 o = m_stk m1 o) →
       ∃ d2 m3, dt_regset_free_args d1 m2 = Some (d2, m3) ∧
         equiv initial_set d2 ∧ preserved initial_set m0 m3).
Proof.
  apply dt_regset_args_restore; [apply initial_set_wf|split; reflexivity|simpl; lia].
Defined.

Lemma dump_loop_spec {S} (d : dt_regset S) k reg :
  wf d → Z.of_nat (reg + k) <= dr_size d →
  ∃ l, dump_loop d k reg = Some l ∧ length l = k ∧
    ∀ i c, l !! i = Some c → c = if level d (Z.of_nat (reg + i)) =? 0 then 46 else 120.
Proof.
  intros Hwf. revert reg. induction k as [|k IH]; intros reg Hs; [by exists []|].
  cbn [dump_loop]. assert (is_reg d (Z.of_nat reg)) as Hr by (unfold is_reg; lia).
  rewrite !BT_TEST_bit by eauto using wf_in_active, wf_in_spilled.
  destruct (IH (Datatypes.S reg)) as (l & Hl & Hlen & Hc); [lia|]. rewrite Hl.
  assert (∀ c, c = (if level d (Z.of_nat reg) =? 0 then 46 else 120) →
    ∃ l', Some (c :: l) = Some l' ∧ length l' = Datatypes.S k ∧ ∀ i c, l' !! i = Some c →
      c = if level d (Z.of_nat (reg + i)) =? 0 then 46 else 120) as Hcons.
  { intros c Hc0. exists (c :: l). split; [done|]. split; [by simpl; rewrite Hlen|].
    intros [|i] c' Hi; simpl in Hi; simplify_eq; [by rewrite Nat.add_0_r|].
    rewrite (Hc _ _ Hi). by rewrite Nat.add_succ_r. }
  destruct (level_cases d (Z.of_nat reg) Hwf) as [(Hv & Ha & Hb)|[(Hv & Ha & Hb)|(Hv & Ha & Hb)]];
    [lia|..]; rewrite Ha, ?Hb; apply Hcons; by rewrite Hv.
Qed.

(** [dt_regset_dump] prints one character per register, 'x' for one in use
    and '.' for a free one; its third case, 's' for a spilled register, is
    never printed, because a spilled register is also active. *)
Theorem dt_regset_dump_correct {S} (d : dt_regset S) :
  wf d →
  ∃ l, dt_regset_dump d = Some l ∧ length l = Z.to_nat (dr_size d) ∧ (115 ∉ l) ∧
    ∀ i c, l !! i = Some c → c = if level d (Z.of_nat i) =? 0 then 46 else 120.
Proof.
  intros Hwf. pose proof (wf_size _ Hwf).
  destruct (dump_loop_spec d (Z.to_nat (dr_size d)) 0 Hwf) as (l & Hl & Hlen & Hc); [lia|].
  exists l. split_and!; [done..| |done].
  intros [i Hi]%list_elem_of_lookup. apply Hc in Hi. by destruct (_ =? 0).
Qed.

Lemma dt_regset_dump_correct_witness :
  ∃ l, dt_regset_dump initial_set = Some l ∧ length l = Z.to_nat (dr_size initial_set) ∧ (115 ∉ l) ∧
    ∀ i c, l !! i = Some c → c = if level initial_set (Z.of_nat i) =? 0 then 46 else 120.
Proof. apply dt_regset_dump_correct, initial_set_wf. Defined.

End Regset.
