(* ===== verification/CLib.v ===== *)
(** * The parts of the C library the modelled code calls, and the two string
    functions of libport (strlcpy.c and strlcat.c)

    A byte is a [Z] in [0, 256); a C string is the list of the bytes before
    its terminating NUL; a buffer is the list of all of its bytes.  [char] is
    signed, as on x86-64. *)
From S2P Require Import Prelude.
From Stdlib Require Export Ascii.

(** Character and string literals. *)
Definition ch (a : ascii) : Z := Z.of_N (N_of_ascii a).
Definition str (s : string) : list Z := ch <$> String.list_ascii_of_string s.

Definition byte (c : Z) : Prop := 0 <= c < 256.
Definition bytes_ok : list Z → Prop := Forall byte.

(** A C string: no NUL among its bytes. *)
Definition cstring (s : list Z) : Prop := Forall (λ c, byte c ∧ c ≠ 0) s.

(** The string stored at the start of a buffer, [None] when it has no NUL. *)
Fixpoint cstr (buf : list Z) : option (list Z) :=
  match buf with
  | [] => None
  | c :: buf => if c =? 0 then Some [] else (c ::.) <$> cstr buf
  end.

Lemma cstr_app s rest : cstring s → cstr (s ++ 0 :: rest) = Some s.
Proof.
  induction 1 as [|c s [_ Hc] _ IH]; [done|]. simpl.
  destruct (Z.eqb_spec c 0); [done|]. by rewrite IH.
Qed.

Lemma cstring_app s t : cstring (s ++ t) ↔ cstring s ∧ cstring t.
Proof. apply Forall_app. Qed.

Lemma cstr_inv buf s : cstr buf = Some s → ∃ rest, buf = s ++ 0 :: rest.
Proof.
  revert s. induction buf as [|c buf IH]; intros s; simpl; [done|].
  destruct (Z.eqb_spec c 0) as [->|]; [intros [= <-]; by exists buf|].
  intros (s' & Hs & ->)%fmap_Some. destruct (IH _ Hs) as [rest ->]. by exists rest.
Qed.

(** ** Comparing strings *)

(** strcmp(3), on the bytes of two strings. *)
Fixpoint strcmp (s t : list Z) : Z :=
  match s, t with
  | [], [] => 0
  | [], d :: _ => - d
  | c :: _, [] => c
  | c :: s, d :: t => if c =? d then strcmp s t else c - d
  end.

Lemma strcmp_opp s t : strcmp t s = - strcmp s t.
Proof.
  revert t. induction s as [|c s IH]; intros [|d t]; simpl; try lia.
  destruct (Z.eqb_spec c d), (Z.eqb_spec d c); try lia. apply IH.
Qed.

Lemma strcmp_refl s : strcmp s s = 0.
Proof. induction s as [|c s IH]; [done|]. simpl. by rewrite Z.eqb_refl. Qed.

Lemma strcmp_eq s t : cstring s → cstring t → strcmp s t = 0 → s = t.
Proof.
  intros Hs. revert t. induction Hs as [|c s [Hc Hc0] _ IH]; intros t [|d t' [Hd Hd0] Ht]; simpl; try done; try lia.
  destruct (Z.eqb_spec c d) as [->|]; [|lia]. intros E. by rewrite (IH t' Ht E).
Qed.

Lemma strcmp_trans s t u : cstring s → cstring t → cstring u → strcmp s t <= 0 → strcmp t u <= 0 → strcmp s u <= 0.
Proof.
  unfold cstring, byte. intros Hs. revert t u. induction Hs as [|c s [Hc Hc0] _ IH]; intros t u Ht Hu.
  - destruct Hu as [|e u [? ?] ?]; simpl; lia.
  - destruct Ht as [|d t [? ?] Ht]; simpl; [lia|]. destruct Hu as [|e u [? ?] Hu].
    + simpl. lia.
    + destruct (Z.eqb_spec c d), (Z.eqb_spec d e), (Z.eqb_spec c e); subst; try lia. by apply IH.
Qed.

(** ** Writing to buffers *)

(** [memcpy(buf + off, src, len)]; [None] when it would overrun either side. *)
Definition memcpy (buf : list Z) (off : nat) (src : list Z) (len : nat) : option (list Z) :=
  if decide (off + len <= length buf ∧ len <= length src)%nat
  then Some (take off buf ++ take len src ++ drop (off + len) buf)
  else None.

(** [memmove(buf + dst, buf + src, len)] within one buffer. *)
Definition memmove (buf : list Z) (dst src len : nat) : option (list Z) :=
  if decide (src + len <= length buf)%nat then memcpy buf dst (take len (drop src buf)) len
  else None.

(** [buf[i] = c] *)
Definition store (buf : list Z) (i : nat) (c : Z) : option (list Z) :=
  if decide (i < length buf)%nat then Some (<[i:=c]> buf) else None.

Lemma memcpy_length buf off src len buf' :
  memcpy buf off src len = Some buf' → length buf' = length buf.
Proof.
  unfold memcpy. case_decide; [|done]. intros [= <-].
  rewrite !length_app, !length_take, length_drop. lia.
Qed.

Lemma store_length buf i c buf' : store buf i c = Some buf' → length buf' = length buf.
Proof. unfold store. case_decide; [|done]. intros [= <-]. apply length_insert. Qed.

(** ** Character classes *)

Definition isdigit (c : Z) : bool := (ch "0" <=? c) && (c <=? ch "9").
Definition isupper (c : Z) : bool := (ch "A" <=? c) && (c <=? ch "Z").
Definition islower (c : Z) : bool := (ch "a" <=? c) && (c <=? ch "z").
Definition isalpha (c : Z) : bool := isupper c || islower c.
Definition isalnum (c : Z) : bool := isalpha c || isdigit c.
Definition isspace (c : Z) : bool := (c =? 32) || ((9 <=? c) && (c <=? 13)).

(** ** strtoull(3) *)

(** The value of a digit in any base up to 36. *)
Definition digit_val (c : Z) : option Z :=
  if isdigit c then Some (c - ch "0")
  else if islower c then Some (c - ch "a" + 10)
  else if isupper c then Some (c - ch "A" + 10)
  else None.

Definition digit_in (base c : Z) : option Z :=
  match digit_val c with
  | Some d => if d <? base then Some d else None
  | None => None
  end.

(** The longest run of digits: its value and the rest of the string. *)
Fixpoint digits (base : Z) (acc : Z) (s : list Z) : Z * list Z :=
  match s with
  | c :: s' =>
      match digit_in base c with
      | Some d => digits base (acc * base + d) s'
      | None => (acc, s)
      end
  | [] => (acc, [])
  end.

Fixpoint skip_space (s : list Z) : list Z :=
  match s with
  | c :: s' => if isspace c then skip_space s' else s
  | [] => []
  end.

(** The subject sequence: sign, base (for base 0), and the digits' string. *)
Definition strto_sign (s : list Z) : bool * list Z :=
  match s with
  | c :: s' => if c =? ch "-" then (true, s') else if c =? ch "+" then (false, s') else (false, s)
  | [] => (false, [])
  end.

Definition strto_base (base : Z) (s : list Z) : Z * list Z :=
  match s with
  | z :: x :: d :: s' =>
      if (z =? ch "0") && ((x =? ch "x") || (x =? ch "X")) &&
         (match digit_in 16 d with Some _ => true | None => false end) &&
         ((base =? 0) || (base =? 16))
      then (16, d :: s')
      else if base =? 0 then (if z =? ch "0" then (8, s) else (10, s)) else (base, s)
  | z :: _ => if base =? 0 then (if z =? ch "0" then (8, s) else (10, s)) else (base, s)
  | [] => (base, s)
  end.

Definition ULLONG_MAX : Z := 2 ^ 64 - 1.

(** The result of a conversion: value, rest of the string ([*endptr]) and
    whether it set [errno] to ERANGE. *)
Record conv := { cv_val : Z; cv_end : list Z; cv_erange : bool }.

Definition strtoull (s : list Z) (base : Z) : conv :=
  let '(neg, s1) := strto_sign (skip_space s) in
  let '(b, s2) := strto_base base s1 in
  match s2 with
  | c :: _ =>
      match digit_in b c with
      | Some _ =>
          let '(v, rest) := digits b 0 s2 in
          if ULLONG_MAX <? v then {| cv_val := ULLONG_MAX; cv_end := rest; cv_erange := true |}
          else {| cv_val := if (neg : bool) then u64 (- v) else v; cv_end := rest; cv_erange := false |}
      | None => {| cv_val := 0; cv_end := s; cv_erange := false |}
      end
  | [] => {| cv_val := 0; cv_end := s; cv_erange := false |}
  end.

(** ** strstr(3), strchr(3), strrchr(3) as offsets *)

Fixpoint prefixb (needle s : list Z) : bool :=
  match needle, s with
  | [], _ => true
  | a :: n, b :: s => (a =? b) && prefixb n s
  | _ :: _, [] => false
  end.

Fixpoint strstr (s needle : list Z) : option nat :=
  if prefixb needle s then Some O
  else match s with
       | [] => None
       | _ :: s' => S <$> strstr s' needle
       end.

Fixpoint strchr (s : list Z) (c : Z) : option nat :=
  match s with
  | [] => None
  | a :: s' => if a =? c then Some O else S <$> strchr s' c
  end.

Fixpoint strrchr (s : list Z) (c : Z) : option nat :=
  match s with
  | [] => None
  | a :: s' =>
      match strrchr s' c with
      | Some i => Some (S i)
      | None => if a =? c then Some O else None
      end
  end.

Lemma prefixb_spec n s : prefixb n s = true ↔ ∃ t, s = n ++ t.
Proof.
  revert s. induction n as [|a n IH]; intros s; simpl; [naive_solver|].
  destruct s as [|b s]; [split; [done|intros [t ?]; done]|].
  rewrite andb_true_iff, Z.eqb_eq, IH. split.
  - intros [-> [t ->]]. by exists t.
  - intros [t ?]; simplify_eq. eauto.
Qed.

Definition occurs (n s : list Z) (i : nat) : Prop := ∃ t, drop i s = n ++ t.

Lemma strstr_Some s n i :
  strstr s n = Some i ↔ (i <= length s)%nat ∧ occurs n s i ∧ ∀ j, (j < i)%nat → ¬ occurs n s j.
Proof.
  revert i. induction s as [|a s IH]; intros i; simpl.
  - destruct (prefixb n []) eqn:E.
    + apply prefixb_spec in E as [t E]. split.
      * intros [= <-]. split_and!; [lia|by exists t|lia].
      * intros (Hi & _ & _). f_equal. lia.
    + split; [done|]. intros (Hi & [t Ht] & _). rewrite drop_nil in Ht.
      assert (prefixb n [] = true) by (apply prefixb_spec; by exists t). congruence.
  - destruct (prefixb n (a :: s)) eqn:E.
    + apply prefixb_spec in E as [t E]. split.
      * intros [= <-]. split_and!; [lia|by exists t|lia].
      * intros (_ & _ & Hmin). f_equal. destruct i; [done|].
        exfalso. apply (Hmin O); [lia|]. by exists t.
    + assert (¬ occurs n (a :: s) 0) as Hno.
      { intros [t Ht]. simpl in Ht. assert (prefixb n (a :: s) = true)
          by (apply prefixb_spec; by exists t). congruence. }
      rewrite fmap_Some. split.
      * intros (j & Hj & ->). apply IH in Hj as (H1 & H2 & H3). split_and!; [lia|done|].
        intros [|k] Hk; [done|]. apply (H3 k). lia.
      * intros (H1 & H2 & H3). destruct i as [|i]; [done|]. exists i. split; [|done].
        apply IH. split_and!; [lia|done|]. intros j Hj. apply (H3 (S j)). lia.
Qed.

Lemma strstr_None s n : strstr s n = None ↔ ∀ i, (i <= length s)%nat → ¬ occurs n s i.
Proof.
  induction s as [|a s IH]; simpl.
  - destruct (prefixb n []) eqn:E.
    + apply prefixb_spec in E as [t E]. split; [done|]. intros H.
      exfalso. apply (H O); [lia|]. by exists t.
    + split; [|done]. intros _ i _ [t Ht]. rewrite drop_nil in Ht.
      assert (prefixb n [] = true) by (apply prefixb_spec; by exists t). congruence.
  - destruct (prefixb n (a :: s)) eqn:E.
    + apply prefixb_spec in E as [t E]. split; [done|]. intros H.
      exfalso. apply (H O); [lia|]. by exists t.
    + rewrite fmap_None, IH. split.
      * intros H [|i] Hi; [|apply H; lia].
        intros [t Ht]. simpl in Ht. assert (prefixb n (a :: s) = true)
          by (apply prefixb_spec; by exists t). congruence.
      * intros H i Hi. apply (H (S i)). lia.
Qed.

(** ** libport: strlcpy and strlcat *)

(** Both take the destination buffer and return it with the length. *)
Definition strlcpy (dst src : list Z) (len : nat) : option (list Z * nat) :=
  let slen := length src in
  if decide (len = 0%nat) then Some (dst, slen)
  else
    let copied := if decide (len <= slen)%nat then (len - 1)%nat else slen in
    dst ← memcpy dst 0 src copied;
    dst ← store dst copied 0;
    Some (dst, slen).

(** [while (left-- != 0 && *df != '\0') df++;]: the final offset of [df]. *)
Fixpoint strlcat_scan (dst : list Z) (df n : nat) : option nat :=
  match n with
  | O => Some df
  | S n => c ← dst !! df; if (c : Z) =? 0 then Some df else strlcat_scan dst (S df) n
  end.

Definition strlcat (dst src : list Z) (dstsize : nat) : option (list Z * nat) :=
  let l2 := length src in
  l1 ← strlcat_scan dst 0 dstsize;
  if decide (dstsize = l1) then Some (dst, l1 + l2)%nat
  else
    let copied := if decide (dstsize <= l1 + l2)%nat then (dstsize - l1 - 1)%nat else l2 in
    dst ← memcpy dst l1 src copied;
    dst ← store dst (l1 + copied) 0;
    Some (dst, l1 + l2)%nat.


Lemma memcpy_store buf off src k :
  (off + k < length buf)%nat → (k <= length src)%nat →
  ∃ b, memcpy buf off src k = Some b ∧ (off + k < length b)%nat ∧
    store b (off + k) 0 = Some (take off buf ++ take k src ++ 0 :: drop (S (off + k)) buf).
Proof.
  intros H1 H2. unfold memcpy. rewrite decide_True by lia.
  eexists. split; [done|].
  assert (length (take off buf ++ take k src ++ drop (off + k) buf) = length buf) as Hlen.
  { rewrite !length_app, !length_take, length_drop. lia. }
  rewrite Hlen. split; [lia|]. unfold store. rewrite decide_True by lia. f_equal.
  rewrite app_assoc, insert_app_r_alt by (rewrite length_app, !length_take; lia).
  rewrite <- app_assoc. do 2 f_equal. rewrite length_app, !length_take.
  replace (off + k - _)%nat with O by lia.
  destruct (drop (off + k) buf) as [|c r] eqn:E.
  { apply (f_equal length) in E. rewrite length_drop in E. simpl in E. lia. }
  simpl. f_equal. change r with (drop 1 (c :: r)). rewrite <- E, drop_drop. f_equal. lia.
Qed.

(** [strlcpy] never writes outside the first [len] bytes of a destination
    that has them, leaves there a NUL-terminated copy of as much of the source
    as fits, and returns the length of the source. *)
Theorem strlcpy_correct dst src len :
  cstring src → (len <= length dst)%nat →
  ∃ dst', strlcpy dst src len = Some (dst', length src) ∧
    length dst' = length dst ∧ drop len dst' = drop len dst ∧
    ((0 < len)%nat → cstr dst' = Some (take (len - 1) src)).
Proof.
  intros Hsrc Hlen. unfold strlcpy. case_decide as H0.
  { subst. exists dst. split_and!; [done..|lia]. }
  set (k := if decide _ then _ else _).
  assert ((k < len)%nat ∧ (k <= length src)%nat ∧ take k src = take (len - 1) src) as (Hk & Hks & Htk).
  { unfold k. case_decide; split_and!; try lia; [done|]. rewrite !take_ge by lia. done. }
  destruct (memcpy_store dst 0 src k) as (b & Hb & _ & Hst); [lia..|].
  rewrite Hb. cbn [mbind option_bind]. simpl in Hst. rewrite Hst. simpl.
  eexists. split_and!; [done|..].
  - rewrite length_app, length_take. simpl. rewrite length_drop. lia.
  - rewrite drop_app_ge by (rewrite length_take; lia). rewrite length_take.
    replace (len - k `min` length src)%nat with (S (len - k - 1))%nat by lia.
    simpl. rewrite drop_drop. f_equal. lia.
  - intros _. rewrite Htk. apply cstr_app. by apply Forall_take.
Qed.

Lemma strlcpy_correct_witness :
  ∃ dst', strlcpy (replicate 4 255) (str "dtrace") 3 = Some (dst', length (str "dtrace")) ∧
    length dst' = length (replicate 4 255) ∧ drop 3 dst' = drop 3 (replicate 4 255) ∧
    ((0 < 3)%nat → cstr dst' = Some (take (3 - 1) (str "dtrace"))).
Proof.
  apply strlcpy_correct; [|simpl; lia].
  repeat constructor; cbv; discriminate || lia.
Defined.

Lemma strlcat_scan_spec dst df n :
  (df + n <= length dst)%nat →
  ∃ l, strlcat_scan dst df n = Some (df + l)%nat ∧ (l <= n)%nat ∧
    (∀ i c, (i < l)%nat → dst !! (df + i)%nat = Some c → c ≠ 0) ∧
    ((l < n)%nat → dst !! (df + l)%nat = Some 0).
Proof.
  revert df. induction n as [|n IH]; intros df Hn.
  - exists O. simpl. split_and!; [f_equal; lia|lia|lia|lia].
  - simpl. destruct (lookup_lt_is_Some_2 dst df) as [c Hc]; [lia|]. rewrite Hc. simpl.
    destruct (Z.eqb_spec c 0) as [->|Hne].
    + exists O. rewrite Nat.add_0_r. split_and!; [done|lia|lia|done].
    + destruct (IH (S df)) as (l & -> & Hl & Hpre & Hend); [lia|].
      exists (S l). split_and!; [f_equal; lia|lia| |].
      * intros [|i] c' Hi Hc'; [rewrite Nat.add_0_r in Hc'; congruence|].
        apply (Hpre i); [lia|]. by rewrite <- Nat.add_succ_comm in Hc'.
      * intros Hlt. rewrite <- Nat.add_succ_comm. apply Hend. lia.
Qed.

(** [strlcat] appends to the string that the first [dstsize] bytes of the
    destination hold, never writes outside of these bytes, keeps the result
    NUL-terminated, and returns the length it tried to create; a destination
    with no NUL in these bytes is left alone. *)
Theorem strlcat_correct dst src dstsize :
  bytes_ok dst → cstring src → (dstsize <= length dst)%nat →
  match cstr (take dstsize dst) with
  | Some d => ∃ dst', strlcat dst src dstsize = Some (dst', length d + length src)%nat ∧
      length dst' = length dst ∧ drop dstsize dst' = drop dstsize dst ∧
      cstr dst' = Some (take (dstsize - 1) (d ++ src))
  | None => strlcat dst src dstsize = Some (dst, dstsize + length src)%nat
  end.
Proof.
  intros Hdst Hsrc Hlen. unfold strlcat.
  destruct (strlcat_scan_spec dst 0 dstsize) as (l & -> & Hl & Hpre & Hend); [lia|].
  cbn [mbind option_bind]. rewrite Nat.add_0_l in *.
  assert (cstring (take l dst)) as Hcs.
  { apply Forall_lookup. intros i c Hi. apply lookup_take_Some in Hi as [Hi Hil]. split.
    - by eapply (Forall_lookup_1 _ _ _ _ Hdst).
    - by apply (Hpre i). }
  destruct (decide (dstsize = l)) as [<-|Hne].
  { replace (cstr (take dstsize dst)) with (@None (list Z)); [done|]. symmetry.
    clear -Hcs. induction Hcs as [|c t [_ Hc] _ IH]; [done|]. simpl.
    destruct (Z.eqb_spec c 0); [done|]. by rewrite IH. }
  specialize (Hend ltac:(lia)).
  assert (take dstsize dst = take l dst ++ 0 :: take (dstsize - S l) (drop (S l) dst)) as Htake.
  { rewrite <- (take_drop_middle dst l 0 Hend) at 1.
    rewrite take_app_ge by (rewrite length_take; lia). rewrite length_take.
    replace (dstsize - l `min` length dst)%nat with (S (dstsize - S l))%nat by lia. done. }
  rewrite Htake, cstr_app by done. rewrite length_take, Nat.min_l by lia.
  set (k := if decide _ then _ else _).
  assert ((l + k < dstsize)%nat ∧ (k <= length src)%nat ∧
    take l dst ++ take k src = take (dstsize - 1) (take l dst ++ src)) as (Hk & Hks & Htk).
  { unfold k. rewrite take_app_ge by (rewrite length_take; lia).
    rewrite length_take, Nat.min_l by lia.
    case_decide; split_and!; try lia; f_equal; [f_equal; lia|].
    by rewrite !take_ge by lia. }
  destruct (memcpy_store dst l src k) as (b & Hb & _ & Hst); [lia..|].
  rewrite Hb. cbn [mbind option_bind]. rewrite Hst. cbn [mbind option_bind].
  eexists. split_and!; [done|..].
  - rewrite !length_app, !length_take. simpl. rewrite length_drop. lia.
  - rewrite app_assoc, drop_app_ge by (rewrite length_app, !length_take; lia).
    rewrite length_app, !length_take.
    replace (dstsize - _)%nat with (S (dstsize - l - k - 1))%nat by lia.
    simpl. rewrite drop_drop. f_equal. lia.
  - rewrite app_assoc, Htk. apply cstr_app. apply Forall_take, Forall_app. done.
Qed.

Lemma strlcat_correct_witness :
  match cstr (take 6 (str "ab" ++ replicate 6 0)) with
  | Some d => ∃ dst', strlcat (str "ab" ++ replicate 6 0) (str "cdefg") 6 =
        Some (dst', length d + length (str "cdefg"))%nat ∧
      length dst' = length (str "ab" ++ replicate 6 0) ∧
      drop 6 dst' = drop 6 (str "ab" ++ replicate 6 0) ∧
      cstr dst' = Some (take (6 - 1) (d ++ str "cdefg"))
  | None => strlcat (str "ab" ++ replicate 6 0) (str "cdefg") 6 =
      Some (str "ab" ++ replicate 6 0, (6 + length (str "cdefg"))%nat)
  end.
Proof.
  apply strlcat_correct; [| |simpl; lia]; repeat constructor; cbv; discriminate || lia.
Defined.
