(* ===== verification/CSort.v ===== *)
(** * qsort(3) and bsearch(3)

    Both take the caller's comparison, as a function to [Z] whose sign counts.
    The sort is a merge sort; what is proved of it holds of any sort. *)
From S2P Require Import Prelude.
From stdpp Require Import sorting.
#[local] Open Scope Z_scope.

Section Sort.
Context {A : Type} (cmp : A → A → Z).

Definition before (x y : A) : Prop := cmp x y <= 0.
#[global] Instance before_dec : RelDecision before.
Proof. intros x y. unfold before. apply _. Defined.

Definition qsort (l : list A) : list A := merge_sort before l.

(** A comparison that orders the elements [P], some of which it may not tell
    apart. *)
Class Comparison (P : A → Prop) : Prop := {
  comparison_opp x y : cmp x y <= 0 ↔ 0 <= cmp y x;
  comparison_trans x y z : P x → P y → P z → cmp x y <= 0 → cmp y z <= 0 → cmp x z <= 0
}.

Lemma qsort_perm l : qsort l ≡ₚ l.
Proof. apply merge_sort_Permutation. Qed.

Lemma sorted_strongly `{!Comparison P} l : Forall P l → Sorted before l → StronglySorted before l.
Proof.
  induction l as [|x l IH]; intros HP Hs; [constructor|]. apply Forall_cons in HP as [Hx Hl].
  apply Sorted_inv in Hs as [Hs Hh]. specialize (IH Hl Hs). constructor; [done|].
  destruct l as [|y l]; [constructor|]. apply HdRel_inv in Hh. apply Forall_cons in Hl as [Hy Hl].
  apply StronglySorted_inv in IH as [_ IH]. constructor; [done|].
  rewrite Forall_forall in IH, Hl |- *. intros z Hz. apply (comparison_trans (P := P) x y z); [done|done|by apply Hl|done|by apply IH].
Qed.

Lemma qsort_sorted `{!Comparison P} l : Forall P l → StronglySorted before (qsort l).
Proof.
  intros HP. apply sorted_strongly; [by rewrite qsort_perm|]. apply Sorted_merge_sort.
  intros x y. unfold before. pose proof (comparison_opp (P := P) x y). lia.
Qed.

End Sort.

(** Only the signs of the results matter. *)
Lemma qsort_ext {A} (cmp cmp' : A → A → Z) l :
  (∀ x y, cmp x y <= 0 ↔ cmp' x y <= 0) → qsort cmp l = qsort cmp' l.
Proof.
  intros E.
  assert (∀ l1 l2, list_merge (before cmp) l1 l2 = list_merge (before cmp') l1 l2) as Em.
  { induction l1 as [|x1 l1 IH1]; [done|]. induction l2 as [|x2 l2 IH2]; [done|].
    rewrite !list_merge_cons. rewrite (decide_ext (before cmp x1 x2) (before cmp' x1 x2)) by apply E.
    case_decide; [by rewrite IH1|by rewrite IH2]. }
  assert (∀ st l1, merge_list_to_stack (before cmp) st l1 = merge_list_to_stack (before cmp') st l1) as El.
  { induction st as [|[l2|] st IH]; intros l1; cbn [merge_list_to_stack]; [done| |done]. by rewrite Em, IH. }
  assert (∀ st, merge_stack (before cmp) st = merge_stack (before cmp') st) as Es.
  { induction st as [|[l2|] st IH]; cbn [merge_stack]; [done|by rewrite IH, Em|done]. }
  unfold qsort, merge_sort.
  assert (∀ l st, merge_sort_aux (before cmp) st l = merge_sort_aux (before cmp') st l) as Ea; [|done].
  induction l0 as [|x l0 IH]; intros st; cbn [merge_sort_aux]; [done|]. by rewrite El, IH.
Qed.

(** Comparisons are made of comparisons of numbers, one after the other. *)
Definition lex (c d : Z) : Z := if c =? 0 then d else c.
Definition compare_Z (x y : Z) : Z := if x <? y then -1 else if y <? x then 1 else 0.

Lemma compare_key {A} (key : A → Z) (P : A → Prop) : Comparison (λ x y, compare_Z (key x) (key y)) P.
Proof.
  unfold compare_Z. constructor; intros.
  - destruct (Z.ltb_spec (key x) (key y)), (Z.ltb_spec (key y) (key x)); lia.
  - destruct (Z.ltb_spec (key x) (key y)), (Z.ltb_spec (key y) (key x)), (Z.ltb_spec (key y) (key z)),
      (Z.ltb_spec (key z) (key y)), (Z.ltb_spec (key x) (key z)), (Z.ltb_spec (key z) (key x)); lia.
Qed.

Lemma compare_lex {A} (c d : A → A → Z) (P : A → Prop) :
  Comparison c P → Comparison d P → Comparison (λ x y, lex (c x y) (d x y)) P.
Proof.
  intros [Oc Tc] [Od Td]. unfold lex. constructor.
  - intros x y. pose proof (Oc x y). pose proof (Oc y x). pose proof (Od x y).
    destruct (Z.eqb_spec (c x y) 0), (Z.eqb_spec (c y x) 0); lia.
  - intros x y z Hx Hy Hz. pose proof (Tc x y z Hx Hy Hz). pose proof (Td x y z Hx Hy Hz).
    pose proof (Tc y z x Hy Hz Hx). pose proof (Tc z x y Hz Hx Hy).
    pose proof (Oc x y). pose proof (Oc y x). pose proof (Oc y z). pose proof (Oc z y). pose proof (Oc x z). pose proof (Oc z x).
    destruct (Z.eqb_spec (c x y) 0), (Z.eqb_spec (c y z) 0), (Z.eqb_spec (c x z) 0); lia.
Qed.

Lemma compare_map {A B} (f : B → A) (c : A → A → Z) (P : A → Prop) (Q : B → Prop) :
  (∀ x, Q x → P (f x)) → Comparison c P → Comparison (λ x y, c (f x) (f y)) Q.
Proof. intros Hf [Oc Tc]. constructor; [intros; apply Oc|]. intros x y z Hx Hy Hz. apply Tc; by apply Hf. Qed.

Lemma compare_ext {A} (c d : A → A → Z) (P : A → Prop) : (∀ x y, c x y = d x y) → Comparison d P → Comparison c P.
Proof. intros E [Od Td]. constructor; intros *; rewrite !E; [apply Od|apply Td]. Qed.

Section Search.
Context {A : Type} (cmp : A → Z).

(** The search between the indices [l] and [u]; [cmp] compares the key with an
    element.  Each turn halves the interval. *)
Fixpoint bsearch_loop (fuel : nat) (base : list A) (l u : Z) : option (option A) :=
  if l <? u then
    match fuel with
    | O => None
    | S fuel =>
        let idx := (l + u) / 2 in
        x ← base !! Z.to_nat idx;
        if cmp x <? 0 then bsearch_loop fuel base l idx
        else if 0 <? cmp x then bsearch_loop fuel base (idx + 1) u
        else Some (Some x)
    end
  else Some None.

Definition bsearch (base : list A) : option (option A) :=
  bsearch_loop (length base) base 0 (Z.of_nat (length base)).

(** The elements that the key is above come first, those that it is below last. *)
Definition partitioned (base : list A) : Prop :=
  ∀ (i j : nat) x y, (i < j)%nat → base !! i = Some x → base !! j = Some y →
    (cmp x <= 0 → cmp y < 0) ∧ (0 <= cmp y → 0 < cmp x).

Lemma bsearch_loop_spec base : partitioned base → ∀ fuel l u,
  0 <= l → u <= Z.of_nat (length base) → u - l <= Z.of_nat fuel →
  (∀ (i : nat) x, base !! i = Some x → cmp x = 0 → l <= Z.of_nat i < u) →
  ∃ r, bsearch_loop fuel base l u = Some r ∧
    match r with
    | Some x => x ∈ base ∧ cmp x = 0
    | None => ∀ x, x ∈ base → cmp x ≠ 0
    end.
Proof.
  intros Hp. induction fuel as [|fuel IH]; intros l u Hl Hu Hf Hin; cbn [bsearch_loop];
    destruct (Z.ltb_spec l u) as [Hlu|Hlu]; try lia.
  1,3: exists None; split; [done|]; intros x (i & Hi)%list_elem_of_lookup Hx; specialize (Hin i x Hi Hx); lia.
  assert (l <= (l + u) / 2 < u) as Hm by lia.
  destruct (lookup_lt_is_Some_2 base (Z.to_nat ((l + u) / 2))) as [x Hx]; [lia|]. rewrite Hx. cbn [mbind option_bind].
  destruct (Z.ltb_spec (cmp x) 0); [|destruct (Z.ltb_spec 0 (cmp x))].
  - apply IH; [lia..|]. intros i y Hi Hy. specialize (Hin i y Hi Hy). split; [lia|].
    destruct (decide (Z.to_nat ((l + u) / 2) < i)%nat) as [Hlt|]; [|destruct (decide (i = Z.to_nat ((l + u) / 2)))].
    + destruct (Hp _ _ _ _ Hlt Hx Hi) as [H1 _]. lia.
    + simplify_eq. lia.
    + lia.
  - apply IH; [lia..|]. intros i y Hi Hy. specialize (Hin i y Hi Hy). split; [|lia].
    destruct (decide (i < Z.to_nat ((l + u) / 2))%nat) as [Hlt|]; [|destruct (decide (i = Z.to_nat ((l + u) / 2)))].
    + destruct (Hp _ _ _ _ Hlt Hi Hx) as [H1 _]. lia.
    + simplify_eq. lia.
    + lia.
  - exists (Some x). split; [done|]. split; [by eapply list_elem_of_lookup_2|lia].
Qed.

Lemma bsearch_spec base : partitioned base → ∃ r, bsearch base = Some r ∧
  match r with
  | Some x => x ∈ base ∧ cmp x = 0
  | None => ∀ x, x ∈ base → cmp x ≠ 0
  end.
Proof.
  intros Hp. apply (bsearch_loop_spec base Hp); [lia..|]. intros i x Hi _. apply lookup_lt_Some in Hi. lia.
Qed.

End Search.
