(* ===== verification/StrTable.v ===== *)
(** * What a string table promises

    The assembler and the linker store the names of symbols and variables in a
    string table and find them again by their offsets in the table's bytes.  This
    is the interface through which they do so; [Strtab] implements it. *)
From S2P Require Import Prelude CLib.

(** A new table, the insertion of a string, the bytes that are written out. *)
Class StringTable (T : Type) := {
  tab_new : option T;
  tab_insert : T → list Z → option (Z * T);
  tab_bytes : T → option (list Z)
}.

(** A table has a number of bytes, and strings are stored at offsets.  A string
    stays where it is when others are inserted. *)
Class StringTableLaws (T : Type) `{StringTable T} := {
  tab_ok : T → Prop;
  tab_used : T → Z;
  tab_stored : T → Z → list Z → Prop;
  tab_new_spec : ∃ t, tab_new = Some t ∧ tab_ok t ∧ tab_used t = 1;
  tab_stored_range t off s : tab_ok t → tab_stored t off s → 0 <= off < tab_used t;
  tab_insert_spec t s : tab_ok t → cstring s → tab_used t + Z.of_nat (length s) + 1 < 2 ^ 31 →
    ∃ off t', tab_insert t s = Some (off, t') ∧ tab_ok t' ∧ tab_used t <= tab_used t' ∧
      tab_used t' <= tab_used t + Z.of_nat (length s) + 1 ∧
      tab_stored t' off s ∧ ∀ o u, tab_stored t o u → tab_stored t' o u;
  tab_bytes_spec t : tab_ok t → ∃ b, tab_bytes t = Some b ∧ Z.of_nat (length b) = tab_used t ∧
    ∀ off s, tab_stored t off s → cstring s → cstr (drop (Z.to_nat off) b) = Some s
}.

Section Growth.
Context {T : Type} `{!StringTable T, !StringTableLaws T}.

(** At most [n] bytes have been added to a table. *)
Record tab_grows (n : Z) (t t' : T) : Prop := {
  tg_ok : tab_ok t';
  tg_used : tab_used t <= tab_used t' <= tab_used t + n;
  tg_stored o u : tab_stored t o u → tab_stored t' o u
}.

Lemma tab_grows_refl t : tab_ok t → tab_grows 0 t t.
Proof. intros. constructor; [done|lia|done]. Qed.

Lemma tab_grows_trans n1 n2 t1 t2 t3 : tab_grows n1 t1 t2 → tab_grows n2 t2 t3 → tab_grows (n1 + n2) t1 t3.
Proof. intros [? ? H1] [? ? H2]. constructor; [done|lia|]. intros o u Ho. by apply H2, H1. Qed.

Lemma tab_insert_grows t s : tab_ok t → cstring s → tab_used t + (Z.of_nat (length s) + 1) < 2 ^ 31 →
  ∃ off t', tab_insert t s = Some (off, t') ∧ tab_grows (Z.of_nat (length s) + 1) t t' ∧ tab_stored t' off s ∧
    u32 off = off.
Proof.
  intros Ht Hs Hu. destruct (tab_insert_spec t s Ht Hs ltac:(lia)) as (off & t' & Hi & Ht' & ? & ? & Hst & Hk).
  exists off, t'. split_and!; [done|by constructor; try lia|done|].
  pose proof (tab_stored_range _ _ _ Ht' Hst). apply wrap_id. unfold urange. lia.
Qed.

End Growth.
