(* ===== verification/DtString.v ===== *)
(** * String utilities: libdtrace/dt_string.c *)
From S2P Require Import Prelude CLib.

Module DtString.

(** ** str2hval *)

(** One turn of the loop: [hval] is a [uint32_t], [*p] a (signed) [char]. *)
Definition str2hval_step (hval c : Z) : Z :=
  let hval := u32 (u32 (Z.shiftl hval 4) + s8 c) in
  let g := Z.land hval 0xf0000000 in
  if negb (g =? 0) then Z.lxor (Z.lxor hval (Z.shiftr g 24)) g else hval.

(** [None] is the null pointer. *)
Definition str2hval (p : option (list Z)) (hval : Z) : Z :=
  match p with
  | None => hval
  | Some p => fold_left str2hval_step p hval
  end.

(** ** stresc2chr *)

Definition is_octal (c : Z) : bool := (ch "0" <=? c) && (c <=? ch "7").

Definition hex_digit (c : Z) : option Z :=
  if (ch "0" <=? c) && (c <=? ch "9") then Some (c - ch "0")
  else if (ch "a" <=? c) && (c <=? ch "f") then Some (c - ch "a" + 10)
  else if (ch "A" <=? c) && (c <=? ch "F") then Some (c - ch "A" + 10)
  else None.

(** The bytes written through [q] while [p] runs over the string; [esc] is the
    flag that the previous character was a backslash.  The loop of the [x]
    case accumulates in an [int]. *)
Fixpoint stresc_loop (p : list Z) (esc : bool) {struct p} : list Z :=
  match p with
  | [] => []
  | c :: p1 =>
      if esc then
        if is_octal c then
          let v := c - ch "0" in
          match p1 with
          | d :: p2 =>
              if is_octal d then
                let v := u8 (v * 8 + d - ch "0") in
                match p2 with
                | e :: p3 =>
                    if is_octal e then u8 (v * 8 + e - ch "0") :: stresc_loop p3 false
                    else v :: stresc_loop p2 false
                | [] => v :: stresc_loop p2 false
                end
              else v :: stresc_loop p1 false
          | [] => v :: stresc_loop p1 false
          end
        else if c =? ch "a" then 7 :: stresc_loop p1 false
        else if c =? ch "b" then 8 :: stresc_loop p1 false
        else if c =? ch "f" then 12 :: stresc_loop p1 false
        else if c =? ch "n" then 10 :: stresc_loop p1 false
        else if c =? ch "r" then 13 :: stresc_loop p1 false
        else if c =? ch "t" then 9 :: stresc_loop p1 false
        else if c =? ch "v" then 11 :: stresc_loop p1 false
        else if c =? ch "x" then
          (fix hex (x : Z) (p : list Z) {struct p} : list Z :=
             match p with
             | [] => u8 x :: stresc_loop p false
             | c :: p' =>
                 match hex_digit c with
                 | Some d => hex (s32 (x * 16 + d)) p'
                 | None => u8 x :: stresc_loop p false
                 end
             end) 0 p1
        else if (c =? 34) || (c =? 92) then c :: stresc_loop p1 false
        else 92 :: c :: stresc_loop p1 false
      else
        if c =? 92 then stresc_loop p1 true
        else c :: stresc_loop p1 false
  end.

(** The converted bytes and their number, the value returned. *)
Definition stresc2chr (s : list Z) : list Z * Z :=
  let out := stresc_loop s false in (out, Z.of_nat (length out)).

(** ** strchr2esc *)

(** The cases of the two switch statements: the escape letter, if any. *)
Definition esc_letter (c : Z) : option Z :=
  if c =? 0 then Some (ch "0")
  else if c =? 7 then Some (ch "a")
  else if c =? 8 then Some (ch "b")
  else if c =? 12 then Some (ch "f")
  else if c =? 10 then Some (ch "n")
  else if c =? 13 then Some (ch "r")
  else if c =? 9 then Some (ch "t")
  else if c =? 11 then Some (ch "v")
  else if c =? 34 then Some 34
  else if c =? 92 then Some 92
  else None.

Definition needs_octal (c : Z) : bool := (s8 c <? ch "!") || (ch "~" <? s8 c).

(** The first loop: additional characters needed. *)
Definition esc_addl (c : Z) : nat :=
  match esc_letter c with
  | Some _ => 1
  | None => if c =? 32 then 0 else if needs_octal c then 3 else 0
  end.

(** The second loop: the characters written for [c]. *)
Definition esc_chars (c : Z) : list Z :=
  match esc_letter c with
  | Some l => [92; l]
  | None =>
      if c =? 32 then [c]
      else if needs_octal c then
        [92; Z.land (Z.shiftr (s8 c) 6) 3 + ch "0"; Z.land (Z.shiftr (s8 c) 3) 7 + ch "0";
         Z.land (s8 c) 7 + ch "0"]
      else [c]
  end.

(** The second loop stops after a NUL. *)
Fixpoint esc_loop (s : list Z) : list Z :=
  match s with
  | [] => []
  | c :: s => esc_chars c ++ if c =? 0 then [] else esc_loop s
  end.

(** [strchr2esc] on the [n] bytes at [s]: [None] outside the bounds of [s] or
    of the new block, [Some None] when [malloc] fails. *)
Definition strchr2esc (malloc_ok : bool) (s : list Z) (n : nat) : option (option (list Z)) :=
  if decide (n <= length s)%nat then
    let addl := sum_list_with esc_addl (take n s) in
    if malloc_ok then
      let out := esc_loop (take n s) in
      if decide (length out + 1 <= n + addl + 1)%nat then Some (Some out) else None
    else Some None
  else None.

(** ** strbasename, strbadidnum, strisglob *)

(** The result is an offset into [s]. *)
Definition strbasename (s : list Z) : nat :=
  match strrchr s (ch "/") with
  | None => 0
  | Some p => S p
  end.

Definition idnum_char (c : Z) : bool := isalnum c || (c =? ch "_") || (c =? ch "`").

Fixpoint badidnum_loop (s : list Z) (i : nat) : option nat :=
  match s with
  | [] => None
  | c :: s => if negb (idnum_char c) then Some i else badidnum_loop s (S i)
  end.

(** [None] is NULL (a valid string), [Some i] a pointer to byte [i]. *)
Definition strbadidnum (s : list Z) : option nat :=
  match s with
  | [] => Some 0%nat
  | _ =>
      let r := strtoull s 0 in
      if negb (cv_erange r) && (match cv_end r with [] => true | _ => false end) then None
      else badidnum_loop s 0
  end.

Fixpoint strisglob (s : list Z) : Z :=
  match s with
  | [] => 0
  | c :: s =>
      if (c =? ch "[") || (c =? ch "?") || (c =? ch "*") || (c =? 92) then 1 else strisglob s
  end.

(** ** strhyphenate *)

(** The loop over [p] with [k = q - p] turns left, on the buffer [buf]. *)
Fixpoint hyphenate_loop (k : nat) (buf : list Z) (p : nat) : option (list Z) :=
  match k with
  | O => Some buf
  | S k' =>
      c0 ← buf !! p;
      c1 ← buf !! S p;
      if ((c0 : Z) =? ch "_") && ((c1 : Z) =? ch "_") then
        buf ← store buf p (ch "-");
        buf ← memmove buf (p + 1) (p + 2) (k - 1);
        hyphenate_loop k' buf (S p)
      else hyphenate_loop k' buf (S p)
  end.

Definition strhyphenate (buf : list Z) : option (list Z) :=
  s ← cstr buf;
  hyphenate_loop (length s) buf 0.

(** ** strrstr *)

(** [s] is the offset from which the next search starts; [None] when it would
    start outside of the string and its NUL. *)
Fixpoint strrstr_loop (fuel : nat) (h n : list Z) (s : nat) (prev : option nat) :
    option (option nat) :=
  match fuel with
  | O => None
  | S fuel =>
      if decide (s <= length h)%nat then
        match strstr (drop s h) n with
        | None => Some prev
        | Some i => strrstr_loop fuel h n (S (s + i)) (Some (s + i)%nat)
        end
      else None
  end.

(** A search starts at most once at each offset up to the one after the NUL. *)
Definition strrstr (h n : list Z) : option (option nat) :=
  strrstr_loop (length h + 2) h n 0 None.

(** ** Theorems *)

Lemma hval_clear h :
  0 <= h < 2 ^ 32 →
  let g := Z.land h 0xf0000000 in
  Z.lxor (Z.lxor h (Z.shiftr g 24)) g < 2 ^ 28 ∧ 0 <= Z.lxor (Z.lxor h (Z.shiftr g 24)) g.
Proof.
  intros Hh g.
  assert (0 <= g) as Hg by (apply Z.land_nonneg; lia).
  assert (0 <= Z.lxor (Z.lxor h (Z.shiftr g 24)) g) as Hn.
  { rewrite !Z.lxor_nonneg, Z.shiftr_nonneg. lia. }
  split; [|done]. apply testbit_range; [lia|done|]. intros i Hi.
  rewrite !Z.lxor_spec, Z.shiftr_spec by lia. unfold g. rewrite !Z.land_spec.
  destruct (Z.lt_ge_cases i 32) as [Hi32|Hi32].
  - rewrite (testbit_high h 32 (i + 24)) by lia.
    assert (Z.testbit 0xf0000000 i = true) as ->; [|destruct (Z.testbit h i); done].
    assert (i = 28 ∨ i = 29 ∨ i = 30 ∨ i = 31) as [->|[->|[->| ->]]] by lia; done.
  - rewrite !(testbit_high h 32) by lia. done.
Qed.

Lemma str2hval_step_bound h c : 0 <= str2hval_step h c < 2 ^ 28.
Proof.
  unfold str2hval_step. set (v := u32 (_ + _)).
  assert (0 <= v < 2 ^ 32) as Hv by (apply wrap_range; lia).
  destruct (Z.eqb_spec (Z.land v 0xf0000000) 0) as [H0|]; cbn [negb].
  - split; [lia|]. apply testbit_range; [lia|lia|]. intros i Hi.
    destruct (Z.lt_ge_cases i 32) as [Hi32|]; [|apply (testbit_high v 32); lia].
    assert (Z.testbit (Z.land v 0xf0000000) i = false) as Hb by by rewrite H0, Z.bits_0.
    rewrite Z.land_spec in Hb.
    assert (Z.testbit 0xf0000000 i = true) as Ht; [|by rewrite Ht, andb_true_r in Hb].
    assert (i = 28 ∨ i = 29 ∨ i = 30 ∨ i = 31) as [->|[->|[->| ->]]] by lia; done.
  - destruct (hval_clear v Hv). lia.
Qed.

(** [str2hval] keeps the top four bits of the hash clear (a result is
    below 2^28), and hashing a concatenation is hashing its parts in turn, as
    its comment says of compound hash values. *)
Theorem str2hval_correct p q h :
  0 <= h < 2 ^ 28 →
  0 <= str2hval (Some p) h < 2 ^ 28 ∧
  str2hval (Some (p ++ q)) h = str2hval (Some q) (str2hval (Some p) h).
Proof.
  intros Hh. split; [|apply fold_left_app]. unfold str2hval. revert h Hh.
  induction p as [|c p IH]; intros h Hh; [done|]. simpl. apply IH, str2hval_step_bound.
Qed.

Lemma str2hval_correct_witness :
  0 <= str2hval (Some (str "syscall")) 17 < 2 ^ 28 ∧
  str2hval (Some (str "syscall" ++ str "::read")) 17 =
    str2hval (Some (str "::read")) (str2hval (Some (str "syscall")) 17).
Proof. apply str2hval_correct. lia. Defined.

(** Decoding inverts the encoding of a single byte, whatever follows. *)
Lemma stresc_esc_chars c rest :
  byte c → c ≠ 0 → stresc_loop (esc_chars c ++ rest) false = c :: stresc_loop rest false.
Proof.
  intros Hb Hc.
  assert (Forall (λ c, ∀ r, stresc_loop (esc_chars c ++ r) false = c :: stresc_loop r false)
    (Z.of_nat <$> seq 1 255)) as Hall.
  { repeat (constructor; [intros r; reflexivity|]). constructor. }
  rewrite Forall_forall in Hall. apply Hall. apply list_elem_of_fmap.
  unfold byte in Hb. exists (Z.to_nat c). split; [lia|]. apply elem_of_seq. lia.
Qed.

Lemma esc_chars_length c : (length (esc_chars c) = 1 + esc_addl c)%nat.
Proof.
  unfold esc_chars, esc_addl. destruct (esc_letter c); [done|].
  destruct (c =? 32); [done|]. by destruct (needs_octal c).
Qed.

(** What [strchr2esc] reads: the bytes up to and including the first NUL. *)
Fixpoint upto_nul (s : list Z) : list Z :=
  match s with
  | [] => []
  | c :: s => if c =? 0 then [0] else c :: upto_nul s
  end.

(** C34: Printing a buffer with [strchr2esc] and reading it back with
    [stresc2chr] gives the buffer's bytes up to its first NUL (with the NUL,
    when there is one): the escapes of the two functions agree, for every byte
    value.  The encoder stays within the block it allocates. *)
Theorem stresc2chr_strchr2esc s :
  bytes_ok s →
  ∃ e, strchr2esc true s (length s) = Some (Some e) ∧
    stresc2chr e = (upto_nul s, Z.of_nat (length (upto_nul s))).
Proof.
  intros Hs. unfold strchr2esc. rewrite decide_True, take_ge by lia.
  assert (length (esc_loop s) <= length s + sum_list_with esc_addl s)%nat as Hlen.
  { clear Hs. induction s as [|c s IH]; simpl; [lia|]. rewrite length_app, esc_chars_length.
    destruct (c =? 0); simpl; lia. }
  rewrite decide_True by lia. eexists. split; [done|].
  assert (stresc_loop (esc_loop s) false = upto_nul s) as Hdec; [|unfold stresc2chr; by rewrite Hdec].
  clear Hlen. induction Hs as [|c s Hc _ IH]; [done|]. simpl.
  destruct (Z.eqb_spec c 0) as [->|Hne]; [done|].
  rewrite stresc_esc_chars by done. by rewrite IH.
Qed.

Lemma stresc2chr_strchr2esc_witness :
  ∃ e, strchr2esc true ([10; 200; 34] ++ str "x") (length ([10; 200; 34] ++ str "x")) = Some (Some e) ∧
    stresc2chr e = (upto_nul ([10; 200; 34] ++ str "x"),
      Z.of_nat (length (upto_nul ([10; 200; 34] ++ str "x")))).
Proof. apply stresc2chr_strchr2esc. repeat constructor; cbv; discriminate || lia. Defined.

(** The in-place conversion never writes ahead of what it has read. *)
Lemma stresc_loop_length p esc :
  (length (stresc_loop p esc) <= length p + if esc then 1 else 0)%nat.
Proof.
  assert (∀ n p esc, (length p <= n)%nat →
    (length (stresc_loop p esc) <= length p + if esc then 1 else 0)%nat) as H; [|by eapply H].
  clear p esc. induction n as [|n IH]; intros [|c p] esc Hp; simpl in *; try lia.
  set (hex := fix hex (x : Z) (p : list Z) {struct p} : list Z := _).
  assert (∀ q x, (length q <= n)%nat → (length (hex x q) <= length q + 1)%nat) as Hhex.
  { induction q as [|d q IHq]; intros x Hq; simpl in *.
    - lia.
    - destruct (hex_digit d).
      + specialize (IHq (s32 (x * 16 + z))). lia.
      + pose proof (IH (d :: q) false Hq). simpl in *. lia. }
  assert (∀ q e, (length q <= n)%nat →
    (length (stresc_loop q e) <= length q + if e then 1 else 0)%nat) as IH' by auto.
  clearbody hex. destruct esc.
  - repeat first
      [ case_match; simplify_eq/=
      | match goal with |- context [length (stresc_loop ?q ?e)] =>
          lazymatch goal with
          | H : context [length (stresc_loop q e)] |- _ => fail
          | _ => pose proof (IH' q e ltac:(simpl in *; lia))
          end end
      | match goal with |- context [length (hex ?x ?q)] =>
          pose proof (Hhex q x ltac:(lia)); lia end
      | simpl in *; lia ].
  - case_match; simpl.
    + pose proof (IH' p true ltac:(lia)). simpl in *. lia.
    + pose proof (IH' p false ltac:(lia)). simpl in *. lia.
Qed.

(** [stresc2chr] can work in place: its output is never longer than the
    string it reads, for any string. *)
Theorem stresc2chr_in_place s : 0 <= snd (stresc2chr s) <= Z.of_nat (length s).
Proof. unfold stresc2chr. simpl. pose proof (stresc_loop_length s false). simpl in *. lia. Qed.

(** What [strhyphenate] is meant to compute. *)
Fixpoint hyphenated (s : list Z) : list Z :=
  match s with
  | a :: (b :: t) as s' =>
      if (a =? ch "_") && (b =? ch "_") then ch "-" :: hyphenated t else a :: hyphenated s'
  | _ => s
  end.

Lemma hyphenated_cstring s : cstring s → cstring (hyphenated s).
Proof.
  assert (∀ n s, (length s <= n)%nat → cstring s → cstring (hyphenated s)) as H; [|by eapply H].
  clear s. induction n as [|n IH]; intros [|a [|b t]] Hn Hs; simpl in *; try done; try lia.
  inv Hs as [|? ? Ha Hb]. case_match.
  - constructor; [by change (ch "-") with 45; unfold byte; lia|]. apply IH; [lia|]. by inv Hb.
  - constructor; [done|]. apply (IH (b :: t)); [simpl; lia|done].
Qed.

(** One replacement: the characters after "__" move down by one. *)
Lemma hyphenate_shift pre a b todo z rest :
  let buf := pre ++ a :: b :: todo ++ replicate (S z) 0 ++ rest in
  store buf (length pre) (ch "-") ≫= (λ buf,
    memmove buf (length pre + 1) (length pre + 2) (length todo + S z)) =
  Some ((pre ++ [ch "-"]) ++ todo ++ replicate (S (S z)) 0 ++ rest).
Proof.
  cbv zeta. unfold store. rewrite decide_True by (rewrite length_app; simpl; lia).
  cbn [mbind option_bind]. rewrite insert_app_r_alt, Nat.sub_diag by lia. cbn [insert list_insert].
  set (buf := pre ++ _).
  assert (length buf = length pre + (length todo + S z) + 2 + length rest)%nat as Hlen.
  { unfold buf. rewrite length_app. cbn [length]. rewrite !length_app, length_replicate. lia. }
  assert (drop (length pre + 2) buf = todo ++ replicate (S z) 0 ++ rest) as Hd.
  { unfold buf. rewrite drop_app_ge by lia.
    by replace (length pre + 2 - length pre)%nat with 2%nat by lia. }
  assert (take (length pre + 1) buf = pre ++ [ch "-"]) as Htp.
  { unfold buf. rewrite take_app_ge by lia.
    by replace (length pre + 1 - length pre)%nat with 1%nat by lia. }
  assert (drop (length pre + 1 + (length todo + S z)) buf = 0 :: rest) as Hdr.
  { replace (length pre + 1 + (length todo + S z))%nat
      with (length pre + 2 + (length todo + z))%nat by lia.
    rewrite <- drop_drop, Hd, drop_app_ge by lia.
    replace (length todo + z - length todo)%nat with z by lia.
    rewrite replicate_S_end, <- app_assoc, drop_app_ge by (rewrite length_replicate; lia).
    by rewrite length_replicate, Nat.sub_diag. }
  unfold memmove, memcpy. rewrite Hd, Htp, Hdr, app_assoc.
  rewrite take_app_le by (rewrite length_app, length_replicate; lia).
  rewrite !(take_ge (_ ++ replicate _ _)) by (rewrite length_app, length_replicate; lia).
  rewrite !decide_True by (rewrite ?length_app, ?length_replicate; lia).
  rewrite (replicate_S_end (S z)), <- !app_assoc. done.
Qed.

(** The loop on a buffer that holds the characters [pre] already scanned, the
    string [todo], and as many extra NULs as characters were dropped so far. *)
Lemma hyphenate_loop_spec pre todo z rest :
  cstring todo →
  ∃ z', hyphenate_loop (length todo + z) (pre ++ todo ++ replicate (S z) 0 ++ rest) (length pre) =
    Some (pre ++ hyphenated todo ++ replicate (S z') 0 ++ rest) ∧
    (length (hyphenated todo) + z' = length todo + z)%nat.
Proof.
  remember (length todo + z)%nat as k eqn:Hk. revert pre todo z Hk.
  induction k as [|k IH]; intros pre todo z Hk Hs.
  { destruct todo; [|simpl in Hk; lia]. exists z. simpl. split; [done|lia]. }
  assert (∀ c q z, (k = length q + z)%nat → cstring q →
    ∃ z', hyphenate_loop k (pre ++ c :: q ++ replicate (S z) 0 ++ rest) (S (length pre)) =
      Some (pre ++ (c :: hyphenated q) ++ replicate (S z') 0 ++ rest) ∧
      (length (hyphenated q) + z' = k)%nat) as IHc.
  { intros c q y Hy Hq. destruct (IH (pre ++ [c]) q y Hy Hq) as (z' & Heq & Hl). exists z'.
    rewrite length_app, Nat.add_1_r, <- !app_assoc in Heq. split; [exact Heq|lia]. }
  cbn [hyphenate_loop].
  rewrite !(lookup_app_r pre) by lia.
  rewrite Nat.sub_diag. replace (S (length pre) - length pre)%nat with 1%nat by lia.
  destruct todo as [|a [|b todo]].
  - simpl in Hk. destruct z as [|z]; [lia|]. simpl.
    destruct (IHc 0 [] z) as (z' & Heq & Hl); [simpl; lia|done|]. simpl in *.
    exists (S z'). split; [done|lia].
  - inv Hs. simpl. rewrite andb_false_r.
    destruct (IHc a [] z) as (z' & Heq & Hl); [simpl in *; lia|done|].
    exists z'. split; [done|simpl in *; lia].
  - inv Hs as [|? ? [Ha Ha0] Hs']. cbn [lookup list_lookup app mbind option_bind hyphenated].
    destruct ((a =? ch "_") && (b =? ch "_")) eqn:E.
    + inv Hs' as [|? ? _ Hs'']. simpl in Hk.
      replace (S k - 1)%nat with (length todo + S z)%nat by lia.
      pose proof (hyphenate_shift pre a b todo z rest) as Hsh. cbv zeta in Hsh.
      apply bind_Some_inv in Hsh as (buf & -> & Hmv). cbn [mbind option_bind] in *. rewrite Hmv.
      destruct (IHc (ch "-") todo (S z)) as (z' & Heq & Hl); [lia|done|].
      exists z'. rewrite <- app_assoc. split; [done|simpl; lia].
    + destruct (IHc a (b :: todo) z) as (z' & Heq & Hl); [simpl in *; lia|done|].
      exists z'. split; [done|cbn [length hyphenated] in *; lia].
Qed.

(** [strhyphenate] replaces each "__" by "-", left to right, without ever
    leaving the string's buffer, although its end pointer is not moved when the
    string shrinks. *)
Theorem strhyphenate_correct s rest :
  cstring s →
  ∃ buf, strhyphenate (s ++ 0 :: rest) = Some buf ∧
    length buf = length (s ++ 0 :: rest) ∧ cstr buf = Some (hyphenated s).
Proof.
  intros Hs. unfold strhyphenate. rewrite cstr_app by done. cbn [mbind option_bind].
  destruct (hyphenate_loop_spec [] s 0 rest Hs) as (z & Heq & Hl).
  rewrite Nat.add_0_r in Heq. simpl in Heq. simpl. rewrite Heq. eexists. split; [done|].
  split.
  - rewrite !length_app. simpl. rewrite length_app, length_replicate. lia.
  - apply cstr_app. by apply hyphenated_cstring.
Qed.

Lemma strhyphenate_correct_witness :
  ∃ buf, strhyphenate (str "a___b__" ++ 0 :: [1; 2]) = Some buf ∧
    length buf = length (str "a___b__" ++ 0 :: [1; 2]) ∧
    cstr buf = Some (hyphenated (str "a___b__")).
Proof. apply strhyphenate_correct. repeat constructor; cbv; discriminate || lia. Defined.

(** ** strrstr *)

Lemma occurs_drop n h s i : occurs n (drop s h) i ↔ occurs n h (s + i).
Proof. unfold occurs. by rewrite drop_drop. Qed.

Lemma occurs_lt n h i : n ≠ [] → occurs n h i → (i < length h)%nat.
Proof.
  intros Hn [t Ht]. destruct (Nat.lt_ge_cases i (length h)) as [|Hge]; [done|].
  rewrite drop_ge in Ht by done. by destruct n.
Qed.

Definition last_occurrence (n h : list Z) (r : option nat) : Prop :=
  match r with
  | Some i => occurs n h i ∧ ∀ j, occurs n h j → (j <= i)%nat
  | None => ∀ j, ¬ occurs n h j
  end.

Lemma strrstr_loop_spec h n fuel s prev :
  n ≠ [] → (s <= length h)%nat → (length h - s < fuel)%nat →
  match prev with
  | Some i => occurs n h i ∧ (i < s)%nat ∧ ∀ j, (j < s)%nat → occurs n h j → (j <= i)%nat
  | None => ∀ j, (j < s)%nat → ¬ occurs n h j
  end →
  ∃ r, strrstr_loop fuel h n s prev = Some r ∧ last_occurrence n h r.
Proof.
  intros Hn. revert s prev. induction fuel as [|fuel IH]; intros s prev Hs Hf Hprev; [lia|].
  simpl. rewrite decide_True by done. destruct (strstr (drop s h) n) as [i|] eqn:E.
  - apply strstr_Some in E as (Hi & Hocc & Hmin). rewrite occurs_drop in Hocc.
    pose proof (occurs_lt _ _ _ Hn Hocc).
    apply IH; [lia|lia|]. split_and!; [done|lia|]. intros j Hj _. lia.
  - rewrite strstr_None in E. exists prev. split; [done|].
    assert (∀ j, occurs n h j → (j < s)%nat) as Hlt.
    { intros j Hj. destruct (Nat.lt_ge_cases j s) as [|Hge]; [done|]. exfalso.
      pose proof (occurs_lt _ _ _ Hn Hj).
      apply (E (j - s)%nat); [rewrite length_drop; lia|]. rewrite occurs_drop.
      by replace (s + (j - s))%nat with j by lia. }
    destruct prev as [i|]; simpl; [|naive_solver].
    destruct Hprev as (H1 & H2 & H3). split; [done|]. auto.
Qed.

Lemma strrstr_loop_empty h fuel s prev :
  (s <= length h)%nat → strrstr_loop fuel h [] s prev = None.
Proof.
  revert s prev. induction fuel as [|fuel IH]; intros s prev Hs; [done|].
  simpl. rewrite decide_True by done.
  assert (strstr (drop s h) [] = Some O) as -> by by destruct (drop s h).
  rewrite Nat.add_0_r. destruct (decide (S s <= length h)%nat); [by apply IH|].
  destruct fuel; [done|]. simpl. by rewrite decide_False.
Qed.

(** [strrstr] finds the last occurrence of a non-empty needle; given an
    empty needle it searches on past the end of the haystack. *)
Theorem strrstr_correct h n :
  match n with
  | [] => strrstr h n = None
  | _ => ∃ r, strrstr h n = Some r ∧ last_occurrence n h r
  end.
Proof.
  destruct n as [|a n]; [apply strrstr_loop_empty; lia|].
  apply strrstr_loop_spec; [done|lia|lia|]. intros j Hj. lia.
Qed.

(** ** strbadidnum *)

Lemma badidnum_loop_spec s k :
  match badidnum_loop s k with
  | None => Forall (λ c, idnum_char c = true) s
  | Some i => ∃ j c, i = (k + j)%nat ∧ s !! j = Some c ∧ idnum_char c = false ∧
      Forall (λ c, idnum_char c = true) (take j s)
  end.
Proof.
  revert k. induction s as [|c s IH]; intros k; simpl; [constructor|].
  destruct (idnum_char c) eqn:E; simpl.
  - specialize (IH (S k)). destruct (badidnum_loop s (S k)); [|by constructor].
    destruct IH as (j & c' & -> & Hj & Hc & Hall). exists (S j), c'.
    split_and!; [lia|done..|]. simpl. by constructor.
  - exists O, c. split_and!; [lia|done..|constructor].
Qed.

(** A string that [strtoull] reads to its end without overflow. *)
Definition is_number (s : list Z) : Prop :=
  cv_end (strtoull s 0) = [] ∧ cv_erange (strtoull s 0) = false.

(** [strbadidnum] accepts exactly the non-empty strings that are numbers
    in range or made of identifier characters and backquotes; any other string
    it answers with the first offending character. *)
Theorem strbadidnum_correct s :
  match strbadidnum s with
  | None => s ≠ [] ∧ (is_number s ∨ Forall (λ c, idnum_char c = true) s)
  | Some i => ¬ (s ≠ [] ∧ is_number s) ∧
      (s = [] ∧ i = O ∨
       ∃ c, s !! i = Some c ∧ idnum_char c = false ∧
         Forall (λ c, idnum_char c = true) (take i s))
  end.
Proof.
  destruct s as [|c s]; [simpl; split; [naive_solver|by left]|].
  unfold strbadidnum, is_number. destruct (cv_erange _) eqn:E1, (cv_end _) eqn:E2; cbn [negb andb].
  all: try (pose proof (badidnum_loop_spec (c :: s) 0) as H;
    destruct (badidnum_loop (c :: s) 0);
    [destruct H as (j & d & -> & ?); split; [naive_solver|right; exists d; done]
    |split; [done|by right]]).
  split; [done|by left].
Qed.

End DtString.
