(* ===== verification/Int128.v ===== *)
(** * 128-bit arithmetic for the stddev() aggregation: libdtrace/dt_consume.c

    A [uint64_t[2]] is a pair of 64-bit words, low word first. *)
From S2P Require Import Prelude.

Module Int128.

Record u128 := U128 { lo : Z; hi : Z }.

(** ** The functions *)

Definition dt_gt_128 (a b : u128) : bool :=
  (hi b <? hi a) || ((hi a =? hi b) && (lo b <? lo a)).
Definition dt_ge_128 (a b : u128) : bool :=
  (hi b <? hi a) || ((hi a =? hi b) && (lo b <=? lo a)).
Definition dt_le_128 (a b : u128) : bool :=
  (hi a <? hi b) || ((hi a =? hi b) && (lo a <=? lo b)).

(** Shifting a 64-bit word by 64 bits or more is undefined. *)
Definition shl64 (x n : Z) : option Z :=
  if (0 <=? n) && (n <? 64) then Some (u64 (Z.shiftl x n)) else None.
Definition shr64 (x n : Z) : option Z :=
  if (0 <=? n) && (n <? 64) then Some (Z.shiftr x n) else None.

Definition dt_shift_128 (a : u128) (b : Z) : option u128 :=
  if b =? 0 then Some a
  else if b <? 0 then
    let b := - b in
    if 64 <=? b then
      l ← shr64 (hi a) (b - 64);
      Some (U128 l 0)
    else
      l ← shr64 (lo a) b;
      mask ← shl64 1 (64 - b);
      let mask := u64 (mask - 1) in
      m ← shl64 (Z.land (hi a) mask) (64 - b);
      h ← shr64 (hi a) b;
      Some (U128 (Z.lor l m) h)
  else
    if 64 <=? b then
      h ← shl64 (lo a) (b - 64);
      Some (U128 0 h)
    else
      h ← shl64 (hi a) b;
      mask ← shr64 (lo a) (64 - b);
      l ← shl64 (lo a) b;
      Some (U128 l (Z.lor h mask)).

(** The [while] loop of [dt_nbits_128]; a value has at most 128 bits to shift out. *)
Fixpoint nbits_loop (fuel : nat) (tmp : u128) (nbits : Z) : option Z :=
  if dt_gt_128 tmp (U128 0 0) then
    match fuel with
    | O => None
    | S fuel => tmp ← dt_shift_128 tmp (-1); nbits_loop fuel tmp (nbits + 1)
    end
  else Some nbits.

Definition dt_nbits_128 (a : u128) : option Z :=
  tmp ← dt_shift_128 a (-1);
  nbits_loop 128 tmp 0.

Definition dt_subtract_128 (minuend subtrahend : u128) : u128 :=
  U128 (u64 (lo minuend - lo subtrahend))
       (u64 (hi minuend - hi subtrahend - if lo minuend <? lo subtrahend then 1 else 0)).

Definition dt_add_128 (addend1 addend2 : u128) : u128 :=
  let r0 := u64 (lo addend1 + lo addend2) in
  U128 r0 (u64 (hi addend1 + hi addend2 +
    if (r0 <? lo addend1) || (r0 <? lo addend2) then 1 else 0)).

Definition DT_MASK_LO : Z := 0xFFFFFFFF.

Definition dt_multiply_128 (factor1 factor2 : Z) : option u128 :=
  hi1 ← shr64 factor1 32;
  hi2 ← shr64 factor2 32;
  let lo1 := Z.land factor1 DT_MASK_LO in
  let lo2 := Z.land factor2 DT_MASK_LO in
  let product := U128 (u64 (lo1 * lo2)) (u64 (hi1 * hi2)) in
  tmp ← dt_shift_128 (U128 (u64 (hi1 * lo2)) 0) 32;
  let product := dt_add_128 product tmp in
  tmp ← dt_shift_128 (U128 (u64 (hi2 * lo1)) 0) 32;
  Some (dt_add_128 product tmp).

(** [while (divisor > 0) { log++; divisor >>= 1; }] *)
Fixpoint log_loop (fuel : nat) (divisor log : Z) : option Z :=
  if 0 <? divisor then
    match fuel with
    | O => None
    | S fuel => log_loop fuel (Z.shiftr divisor 1) (log + 1)
    end
  else Some log.

(** The long-division loop; the subtrahend can be shifted right 128 times. *)
Fixpoint divide_loop (fuel : nat) (divisor remainder subtrahend mask result : u128) :
    option u128 :=
  if dt_ge_128 remainder divisor then
    match fuel with
    | O => None
    | S fuel =>
        let '(remainder, result) :=
          if dt_ge_128 remainder subtrahend then
            (dt_subtract_128 remainder subtrahend,
             U128 (Z.lor (lo result) (lo mask)) (Z.lor (hi result) (hi mask)))
          else (remainder, result) in
        subtrahend ← dt_shift_128 subtrahend (-1);
        mask ← dt_shift_128 mask (-1);
        divide_loop fuel divisor remainder subtrahend mask result
    end
  else Some result.

Definition dt_divide_128 (dividend : u128) (divisor : Z) : option u128 :=
  if divisor =? 0 then None
  else
    log ← log_loop 64 divisor 0;
    subtrahend ← dt_shift_128 (U128 divisor 0) (128 - log);
    mask ← dt_shift_128 (U128 1 0) (128 - log);
    divide_loop 128 (U128 divisor 0) dividend subtrahend mask (U128 0 0).

(** One turn of the square root loop. *)
Definition sqrt_step (square : u128) (pair_shift : Z) (result diff : u128) :
    option (u128 * u128) :=
  next_pair ← dt_shift_128 square (s32 (- pair_shift));
  let next_pair := U128 (Z.land (lo next_pair) 3) 0 in
  diff ← dt_shift_128 diff 2;
  let diff := dt_add_128 diff next_pair in
  next_try ← dt_shift_128 result 2;
  let next_try := dt_add_128 next_try (U128 1 0) in
  if dt_le_128 next_try diff then
    let diff := dt_subtract_128 diff next_try in
    result ← dt_shift_128 result 1;
    Some (dt_add_128 result (U128 1 0), diff)
  else
    result ← dt_shift_128 result 1;
    Some (result, diff).

(** [for (i = 0; i <= bit_pairs; i++)] with [n] turns left. *)
Fixpoint sqrt_loop (n : nat) (square : u128) (pair_shift : Z) (result diff : u128) :
    option u128 :=
  match n with
  | O => Some result
  | S n =>
      '(result, diff) ← sqrt_step square pair_shift result diff;
      sqrt_loop n square (u64 (pair_shift - 2)) result diff
  end.

Definition dt_sqrt_128 (square : u128) : option Z :=
  nbits ← dt_nbits_128 square;
  let bit_pairs := Z.quot nbits 2 in
  let pair_shift := bit_pairs * 2 in
  result ← sqrt_loop (Z.to_nat (bit_pairs + 1)) square pair_shift (U128 0 0) (U128 0 0);
  if hi result =? 0 then Some (lo result) else None.

(** Division of [int64_t] values; undefined for a zero divisor and on overflow. *)
Definition div64 (a b : Z) : option Z :=
  if (b =? 0) || ((a =? - 2 ^ 63) && (b =? -1)) then None else Some (Z.quot a b).

(** [data] is the count, the sum and the two words of the sum of squares. *)
Definition dt_stddev (data : Z * Z * u128) (normal : Z) : option Z :=
  let '(count, sum, squares) := data in
  avg_of_squares ← dt_divide_128 squares normal;
  avg_of_squares ← dt_divide_128 avg_of_squares count;
  norm_avg ← div64 (s64 sum) (s64 normal);
  norm_avg ← div64 norm_avg (s64 count);
  let norm_avg := if norm_avg <? 0 then s64 (- norm_avg) else norm_avg in
  square_of_avg ← dt_multiply_128 (u64 norm_avg) (u64 norm_avg);
  let diff := dt_subtract_128 avg_of_squares square_of_avg in
  dt_sqrt_128 diff.

(** ** Values *)

Definition val (a : u128) : Z := lo a + 2 ^ 64 * hi a.
Definition ok (a : u128) : Prop := urange 64 (lo a) ∧ urange 64 (hi a).

Lemma val_range a : ok a → 0 <= val a < 2 ^ 128.
Proof. unfold ok, urange, val. lia. Qed.

Lemma val_inj a b : ok a → ok b → val a = val b → a = b.
Proof.
  destruct a as [la ha], b as [lb hb]. unfold ok, urange, val. simpl. intros [? ?] [? ?] Heq.
  assert (la = lb ∧ ha = hb) as [-> ->] by lia. done.
Qed.

Ltac cmp_cases :=
  repeat match goal with
  | |- context [?a <? ?b] => destruct (Z.ltb_spec a b)
  | |- context [?a <=? ?b] => destruct (Z.leb_spec a b)
  | |- context [?a =? ?b] => destruct (Z.eqb_spec a b)
  end; simpl; try done; exfalso; nia.

Lemma dt_gt_128_spec a b : ok a → ok b → dt_gt_128 a b = (val b <? val a).
Proof. unfold ok, urange, val, dt_gt_128. intros [? ?] [? ?]. cmp_cases. Qed.
Lemma dt_ge_128_spec a b : ok a → ok b → dt_ge_128 a b = (val b <=? val a).
Proof. unfold ok, urange, val, dt_ge_128. intros [? ?] [? ?]. cmp_cases. Qed.
Lemma dt_le_128_spec a b : ok a → ok b → dt_le_128 a b = (val a <=? val b).
Proof. unfold ok, urange, val, dt_le_128. intros [? ?] [? ?]. cmp_cases. Qed.

Ltac ltb_cases :=
  repeat match goal with
  | |- context [?a <? ?b] => destruct (Z.ltb_spec a b)
  end; lia.

Lemma dt_add_128_spec a b :
  ok a → ok b → ok (dt_add_128 a b) ∧ val (dt_add_128 a b) = (val a + val b) mod 2 ^ 128.
Proof.
  intros Ha Hb. split; [split; apply wrap_range; lia|].
  unfold ok, urange, val, dt_add_128 in *. cbn [lo hi].
  change ((lo a + 2 ^ 64 * hi a + (lo b + 2 ^ 64 * hi b)) mod 2 ^ 128)
    with (wrap 128 (lo a + 2 ^ 64 * hi a + (lo b + 2 ^ 64 * hi b))).
  rewrite (wrap_sum 64 (lo a + lo b)) by lia. rewrite (wrap_sum 128) by lia.
  destruct (Z.ltb_spec (lo a + lo b) (2 ^ 64)).
  - replace (_ || _) with false by lia. rewrite (wrap_sum 64) by lia.
    ltb_cases.
  - replace (_ || _) with true by lia. rewrite (wrap_sum 64) by lia.
    ltb_cases.
Qed.

Lemma dt_subtract_128_spec a b :
  ok a → ok b → ok (dt_subtract_128 a b) ∧ val (dt_subtract_128 a b) = (val a - val b) mod 2 ^ 128.
Proof.
  intros Ha Hb. split; [split; apply wrap_range; lia|].
  unfold ok, urange, val, dt_subtract_128 in *. cbn [lo hi].
  change ((lo a + 2 ^ 64 * hi a - (lo b + 2 ^ 64 * hi b)) mod 2 ^ 128)
    with (wrap 128 (lo a + 2 ^ 64 * hi a - (lo b + 2 ^ 64 * hi b))).
  rewrite (wrap_diff 64 (lo a - lo b)) by lia. rewrite (wrap_diff 128) by lia.
  replace (lo a <? lo b) with (lo a - lo b <? 0) by lia.
  destruct (Z.ltb_spec (lo a - lo b) 0); rewrite (wrap_diff 64) by lia.
  - ltb_cases.
  - ltb_cases.
Qed.

(** ** Shifts, bit by bit *)

Lemma u64_testbit x i : 0 <= i → Z.testbit (u64 x) i = (i <? 64) && Z.testbit x i.
Proof.
  intros Hi. unfold wrap. destruct (Z.ltb_spec i 64).
  - by rewrite Z.mod_pow2_bits_low by lia.
  - by rewrite Z.mod_pow2_bits_high by lia.
Qed.

Lemma val_testbit a i :
  ok a → 0 <= i →
  Z.testbit (val a) i = if i <? 64 then Z.testbit (lo a) i else Z.testbit (hi a) (i - 64).
Proof.
  intros [Hl Hh] Hi. unfold val, urange in *. destruct (Z.ltb_spec i 64).
  - rewrite <- (Z.mod_pow2_bits_low _ 64) by lia. f_equal. lia.
  - replace i with (i - 64 + 64) at 1 by lia. rewrite <- Z.div_pow2_bits by lia. f_equal. lia.
Qed.

Lemma shl64_Some x n : 0 <= n < 64 → shl64 x n = Some (u64 (Z.shiftl x n)).
Proof. intros. unfold shl64. by replace ((0 <=? n) && (n <? 64)) with true by lia. Qed.
Lemma shr64_Some x n : 0 <= n < 64 → shr64 x n = Some (Z.shiftr x n).
Proof. intros. unfold shr64. by replace ((0 <=? n) && (n <? 64)) with true by lia. Qed.

Lemma lor_range x y w : 0 <= w → urange w x → urange w y → urange w (Z.lor x y).
Proof.
  unfold urange. intros Hw Hx Hy. assert (0 <= Z.lor x y) by (apply Z.lor_nonneg; lia).
  split; [done|]. apply testbit_range; [lia|done|]. intros i Hi.
  by rewrite Z.lor_spec, (testbit_high x w), (testbit_high y w).
Qed.

Ltac bit_cases :=
  repeat match goal with
  | |- context [?a <? ?b] => destruct (Z.ltb_spec a b); cbn [andb orb]
  end; try lia.

(** The bits that a right shift by [n], 32 < n < 64, loses: the mask in the
    code keeps 64 - n bits of the high word where n bits are needed. *)
Definition lost (n i : Z) : bool := (n <? 64) && (128 - 2 * n <=? i) && (i <? 64).

Lemma dt_shift_128_right_bits a n :
  ok a → 0 <= n < 128 →
  ∃ r, dt_shift_128 a (- n) = Some r ∧ ok r ∧
    ∀ i, 0 <= i → Z.testbit (val r) i = negb (lost n i) && Z.testbit (val a) (i + n).
Proof.
  intros Hok Hn. pose proof Hok as [Hl Hh]. unfold dt_shift_128.
  destruct (Z.eqb_spec (- n) 0).
  { exists a. replace n with 0 by lia. split_and!; [done..|]. intros i Hi.
    rewrite Z.add_0_r. by replace (lost 0 i) with false by (unfold lost; lia). }
  replace (- n <? 0) with true by lia. rewrite Z.opp_involutive.
  destruct (Z.leb_spec 64 n).
  - rewrite shr64_Some by lia. cbn [mbind option_bind]. eexists. split; [done|].
    assert (ok (U128 (Z.shiftr (hi a) (n - 64)) 0)) as Hr.
    { split; simpl; [apply shiftr_range; [lia|done]|unfold urange; lia]. }
    split; [done|]. intros i Hi. rewrite !val_testbit by (done || lia).
    replace (lost n i) with false by (unfold lost; lia). simpl.
    rewrite Z.bits_0. autorewrite with bits. bit_cases.
    + f_equal. lia.
    + symmetry. apply (testbit_high _ 64); unfold urange in *; lia.
  - rewrite !shr64_Some, !shl64_Some by lia. cbn [mbind option_bind].
    rewrite shl64_Some by lia. cbn [mbind option_bind]. eexists. split; [done|].
    match goal with |- ok ?r ∧ _ => assert (ok r) as Hr end.
    { split; simpl; [|apply shiftr_range; [lia|done]].
      apply lor_range; [lia| |apply wrap_range; lia]. apply shiftr_range; [lia|done]. }
    split; [done|]. intros i Hi. rewrite !val_testbit by (done || lia). cbn [lo hi].
    assert (∀ j, 0 <= j → Z.testbit (u64 (u64 (Z.shiftl 1 (64 - n)) - 1)) j = (j <? 64 - n)) as Hm.
    { intros j Hj. rewrite Z.shiftl_1_l, (wrap_id 64 (2 ^ _)).
      2: { split; [lia|]. apply Z.pow_lt_mono_r; lia. }
      replace (2 ^ (64 - n) - 1) with (Z.ones (64 - n)) by (rewrite Z.ones_equiv; lia).
      rewrite u64_testbit, Z.testbit_ones_nonneg by lia. bit_cases; done. }
    destruct (Z.ltb_spec i 64); cbn [andb].
    + rewrite Z.lor_spec, u64_testbit, !Z.shiftr_spec by lia.
      replace (i <? 64) with true by lia. cbn [andb].
      rewrite Z.shiftl_spec by lia. destruct (Z.ltb_spec (i + n) 64).
      * rewrite (Z.testbit_neg_r _ (i - (64 - n))) by lia.
        replace (lost n i) with false by (unfold lost; lia). apply orb_false_r.
      * rewrite (testbit_high (lo a) 64) by (unfold urange in *; lia).
        rewrite Z.land_spec, Hm by lia.
        replace (lost n i) with (negb (i - (64 - n) <? 64 - n)) by (unfold lost; lia).
        rewrite negb_involutive, andb_comm. simpl. do 2 f_equal. lia.
    + replace (i + n <? 64) with false by lia.
      replace (lost n i) with false by (unfold lost; lia). simpl.
      rewrite Z.shiftr_spec by lia. f_equal. lia.
Qed.

Lemma dt_shift_128_right a n :
  ok a → 0 <= n <= 32 ∨ 64 <= n < 128 →
  ∃ r, dt_shift_128 a (- n) = Some r ∧ ok r ∧ val r = val a / 2 ^ n.
Proof.
  intros Hok Hn. destruct (dt_shift_128_right_bits a n Hok) as (r & Hr & Hokr & Hb); [lia|].
  exists r. split_and!; [done..|]. rewrite <- Z.shiftr_div_pow2 by lia. bitwise i Hi.
  rewrite Hb by done. by replace (lost n i) with false by (unfold lost; lia).
Qed.

(** The low two bits are right for every even distance. *)
Lemma dt_shift_128_pair a n :
  ok a → 0 <= n < 128 → n mod 2 = 0 →
  ∃ r, dt_shift_128 a (- n) = Some r ∧ ok r ∧ Z.land (lo r) 3 = (val a / 2 ^ n) mod 4.
Proof.
  intros Hok Hn Heven.
  destruct (dt_shift_128_right_bits a n Hok) as (r & Hr & Hokr & Hb); [lia|].
  exists r. split_and!; [done..|]. change 4 with (2 ^ 2). change 3 with (Z.ones 2).
  rewrite <- Z.shiftr_div_pow2, <- Z.land_ones by lia. bitwise i Hi.
  rewrite !Z.testbit_ones_nonneg by lia.
  destruct (Z.ltb_spec i 2); [|by rewrite !andb_false_r]. rewrite !andb_true_r.
  specialize (Hb i Hi). rewrite val_testbit in Hb by done.
  replace (i <? 64) with true in Hb by lia. rewrite Hb.
  by replace (lost n i) with false by (unfold lost; lia).
Qed.

Lemma dt_shift_128_left a n :
  ok a → 0 <= n < 128 →
  ∃ r, dt_shift_128 a n = Some r ∧ ok r ∧ val r = (val a * 2 ^ n) mod 2 ^ 128.
Proof.
  intros Hok Hn. pose proof Hok as [Hl Hh]. unfold dt_shift_128.
  destruct (Z.eqb_spec n 0).
  { exists a. subst n. split_and!; [done..|]. rewrite Z.mul_1_r, Z.mod_small; [done|].
    by apply val_range. }
  replace (n <? 0) with false by lia.
  assert (∀ i, 0 <= i → Z.testbit ((val a * 2 ^ n) mod 2 ^ 128) i =
    (i <? 128) && (n <=? i) && Z.testbit (val a) (i - n)) as Hspec.
  { intros i Hi. destruct (Z.ltb_spec i 128); cbn [andb].
    - rewrite Z.mod_pow2_bits_low, <- Z.shiftl_mul_pow2, Z.shiftl_spec by lia.
      destruct (Z.leb_spec n i); [done|]. by rewrite Z.testbit_neg_r by lia.
    - apply Z.mod_pow2_bits_high. lia. }
  destruct (Z.leb_spec 64 n).
  - rewrite shl64_Some by lia. cbn [mbind option_bind]. eexists. split; [done|].
    match goal with |- ok ?r ∧ _ => assert (ok r) as Hr end.
    { split; simpl; [unfold urange; lia|apply wrap_range; lia]. }
    split; [done|]. apply Z.bits_inj'. intros i Hi. rewrite Hspec by lia.
    rewrite val_testbit by done. simpl. rewrite Z.bits_0.
    destruct (Z.ltb_spec i 64).
    + replace (n <=? i) with false by lia. by rewrite andb_false_r.
    + rewrite u64_testbit, Z.shiftl_spec by lia.
      replace (i <? 128) with (i - 64 <? 64) by lia.
      destruct (Z.leb_spec n i); cbn [andb].
      * rewrite andb_true_r, val_testbit by (done || lia).
        destruct (Z.ltb_spec (i - 64) 64); cbn [andb]; [|done].
        replace (i - n <? 64) with true by lia. f_equal. lia.
      * rewrite Z.testbit_neg_r by lia. by rewrite !andb_false_r.
  - rewrite !shl64_Some, shr64_Some by lia. cbn [mbind option_bind]. eexists. split; [done|].
    match goal with |- ok ?r ∧ _ => assert (ok r) as Hr end.
    { split; simpl; [apply wrap_range; lia|]. apply lor_range; [lia|apply wrap_range; lia|].
      apply shiftr_range; [lia|done]. }
    split; [done|]. apply Z.bits_inj'. intros i Hi. rewrite Hspec by lia.
    rewrite val_testbit by done. simpl. destruct (Z.ltb_spec i 64).
    + rewrite u64_testbit, Z.shiftl_spec by lia. replace (i <? 64) with true by lia.
      replace (i <? 128) with true by lia. cbn [andb].
      destruct (Z.leb_spec n i); [|by rewrite Z.testbit_neg_r by lia].
      rewrite val_testbit by (done || lia). by replace (i - n <? 64) with true by lia.
    + rewrite Z.lor_spec, u64_testbit, Z.shiftl_spec, Z.shiftr_spec by lia.
      replace (i - 64 <? 64) with (i <? 128) by lia.
      replace (n <=? i) with true by lia. rewrite andb_true_r.
      rewrite val_testbit by (done || lia). destruct (Z.ltb_spec i 128); cbn [andb orb].
      * destruct (Z.ltb_spec (i - n) 64).
        -- rewrite (Z.testbit_neg_r _ (i - 64 - n)) by lia. simpl. f_equal. lia.
        -- rewrite (testbit_high (lo a) 64) by (unfold urange in *; lia).
           rewrite orb_false_r. f_equal. lia.
      * apply (testbit_high _ 64); unfold urange in *; lia.
Qed.

(** ** Multiplication *)

Lemma ok_small x : urange 64 x → ok (U128 x 0).
Proof. intros. split; simpl; [done|unfold urange; lia]. Qed.

Lemma val_small x : val (U128 x 0) = x.
Proof. unfold val. simpl. lia. Qed.

Lemma mul32_range a b :
  0 <= a < 2 ^ 32 → 0 <= b < 2 ^ 32 → 0 <= a * b <= (2 ^ 32 - 1) * (2 ^ 32 - 1).
Proof. intros Ha Hb. split; [lia|]. apply Z.mul_le_mono_nonneg; lia. Qed.

(** The four partial products, recombined. *)
Lemma multiply_combine ll hh hl lh :
  0 <= ll <= (2 ^ 32 - 1) * (2 ^ 32 - 1) → 0 <= hh <= (2 ^ 32 - 1) * (2 ^ 32 - 1) →
  0 <= hl <= (2 ^ 32 - 1) * (2 ^ 32 - 1) → 0 <= lh <= (2 ^ 32 - 1) * (2 ^ 32 - 1) →
  ∃ t1 t2, dt_shift_128 (U128 (u64 hl) 0) 32 = Some t1 ∧
    dt_shift_128 (U128 (u64 lh) 0) 32 = Some t2 ∧
    ok (dt_add_128 (dt_add_128 (U128 (u64 ll) (u64 hh)) t1) t2) ∧
    val (dt_add_128 (dt_add_128 (U128 (u64 ll) (u64 hh)) t1) t2) =
      (hh * 2 ^ 64 + (hl + lh) * 2 ^ 32 + ll) mod 2 ^ 128.
Proof.
  intros H1 H2 H3 H4. rewrite !wrap_id by (unfold urange; lia).
  destruct (dt_shift_128_left (U128 hl 0) 32) as (t1 & -> & Ht1 & V1);
    [apply ok_small; unfold urange; lia|lia|].
  destruct (dt_shift_128_left (U128 lh 0) 32) as (t2 & -> & Ht2 & V2);
    [apply ok_small; unfold urange; lia|lia|].
  rewrite val_small in *. rewrite Z.mod_small in V1, V2 by lia.
  assert (ok (U128 ll hh)) as Hp by (split; unfold urange; simpl; lia).
  destruct (dt_add_128_spec _ _ Hp Ht1) as [Hs VS].
  destruct (dt_add_128_spec _ _ Hs Ht2) as [Hs2 VS2].
  exists t1, t2. split_and!; [done..|]. rewrite VS2, VS, V1, V2.
  rewrite Zplus_mod_idemp_l. f_equal. unfold val. simpl. lia.
Qed.

Lemma multiply_ok f1 f2 :
  urange 64 f1 → urange 64 f2 →
  ∃ p, dt_multiply_128 f1 f2 = Some p ∧ ok p ∧ val p = f1 * f2.
Proof.
  intros H1 H2. unfold dt_multiply_128. rewrite !shr64_Some by lia. cbn [mbind option_bind].
  change DT_MASK_LO with (Z.ones 32). rewrite !Z.land_ones, !Z.shiftr_div_pow2 by lia.
  set (h1 := f1 / 2 ^ 32). set (h2 := f2 / 2 ^ 32).
  set (l1 := f1 mod 2 ^ 32). set (l2 := f2 mod 2 ^ 32).
  assert (f1 = h1 * 2 ^ 32 + l1 ∧ 0 <= h1 < 2 ^ 32 ∧ 0 <= l1 < 2 ^ 32) as (E1 & Hh1 & Hl1)
    by (unfold h1, l1, urange in *; lia).
  assert (f2 = h2 * 2 ^ 32 + l2 ∧ 0 <= h2 < 2 ^ 32 ∧ 0 <= l2 < 2 ^ 32) as (E2 & Hh2 & Hl2)
    by (unfold h2, l2, urange in *; lia).
  clearbody h1 h2 l1 l2.
  destruct (multiply_combine (l1 * l2) (h1 * h2) (h1 * l2) (h2 * l1))
    as (t1 & t2 & -> & -> & Hok & Hval); [by apply mul32_range..|].
  cbn [mbind option_bind]. eexists. split_and!; [done..|]. rewrite Hval.
  replace (_ + l1 * l2) with (f1 * f2) by (subst f1 f2; ring).
  apply Z.mod_small. unfold urange in *. split; [lia|].
  change (2 ^ 128) with (2 ^ 64 * 2 ^ 64). apply Z.mul_lt_mono_nonneg; lia.
Qed.

(** ** Division *)

Lemma log_loop_spec fuel d l :
  0 <= d < 2 ^ Z.of_nat fuel →
  ∃ k, log_loop fuel d l = Some (l + k) ∧ 0 <= k <= Z.of_nat fuel ∧
    d < 2 ^ k ∧ (d = 0 ∧ k = 0 ∨ 0 < k ∧ 2 ^ (k - 1) <= d).
Proof.
  revert d l. induction fuel as [|fuel IH]; intros d l Hd.
  - exists 0. change (2 ^ Z.of_nat 0) with 1 in Hd. assert (d = 0) as -> by lia.
    simpl. split_and!; [f_equal; lia|lia|lia|lia|by left].
  - cbn [log_loop]. destruct (Z.ltb_spec 0 d).
    + rewrite Nat2Z.inj_succ, Z.pow_succ_r in Hd by lia.
      rewrite Z.shiftr_div_pow2 by lia. change (2 ^ 1) with 2.
      destruct (IH (d / 2) (l + 1)) as (k & -> & Hk & Hlt & Hge); [lia|].
      exists (k + 1). rewrite Z.pow_add_r by lia. change (2 ^ 1) with 2.
      split_and!; [f_equal; lia|lia|lia|lia|right].
      split; [lia|]. replace (k + 1 - 1) with k by lia.
      destruct Hge as [[? ->]|[? ?]]; [change (2 ^ 0) with 1; lia|].
      replace k with (Z.succ (k - 1)) by lia. rewrite Z.pow_succ_r by lia. lia.
    + exists 0. assert (d = 0) as -> by lia. split_and!; [f_equal; lia|lia|lia|done|by left].
Qed.

Lemma lor_words a b :
  ok a → ok b →
  ok (U128 (Z.lor (lo a) (lo b)) (Z.lor (hi a) (hi b))) ∧
  val (U128 (Z.lor (lo a) (lo b)) (Z.lor (hi a) (hi b))) = Z.lor (val a) (val b).
Proof.
  intros Ha Hb. assert (ok (U128 (Z.lor (lo a) (lo b)) (Z.lor (hi a) (hi b)))) as Ho.
  { destruct Ha, Hb. split; apply lor_range; try done; lia. }
  split; [done|]. bitwise i Hi. rewrite !val_testbit by done. cbn [lo hi].
  destruct (i <? 64); by rewrite Z.lor_spec.
Qed.

Lemma lor_pow2 x s : 0 <= s → 0 <= x → x mod 2 ^ (s + 1) = 0 → Z.lor x (2 ^ s) = x + 2 ^ s.
Proof.
  intros Hs Hx Hm.
  assert (Z.land x (2 ^ s) = 0) as H0.
  { bitwise i Hi. destruct (decide (i = s)) as [->|Hne].
    - rewrite <- (Z.mod_pow2_bits_low x (s + 1)) by lia. by rewrite Hm, Z.bits_0.
    - rewrite Z.pow2_bits_false by lia. apply andb_false_r. }
  by rewrite Z.add_nocarry_lxor, Z.lxor_lor.
Qed.

(** The state of the long division before the bit [s] of the quotient is
    decided; [n] is the dividend, [d] the divisor. *)
Record div_inv (n d s : Z) (rem sub mask res : u128) : Prop := {
  di_ok : ok rem ∧ ok sub ∧ ok mask ∧ ok res;
  di_s : -1 <= s < 128;
  di_sub : val sub = if s <? 0 then d / 2 else d * 2 ^ s;
  di_mask : val mask = if s <? 0 then 0 else 2 ^ s;
  di_eq : n = val res * d + val rem;
  di_rem : val rem < d * 2 ^ (s + 1);
  di_res : val res mod 2 ^ (s + 1) = 0
}.

Lemma div_inv_step n d s rem sub mask res :
  0 < d → 0 <= s → 0 <= n < 2 ^ 128 → div_inv n d s rem sub mask res →
  ∃ rem' res' sub' mask',
    (if dt_ge_128 rem sub
     then (dt_subtract_128 rem sub,
           U128 (Z.lor (lo res) (lo mask)) (Z.lor (hi res) (hi mask)))
     else (rem, res)) = (rem', res') ∧
    dt_shift_128 sub (-1) = Some sub' ∧ dt_shift_128 mask (-1) = Some mask' ∧
    div_inv n d (s - 1) rem' sub' mask' res'.
Proof.
  intros Hd Hs Hn [(Hrem & Hsub & Hmask & Hres) Hs' Vsub Vmask Heq Hlt Hmod].
  replace (s <? 0) with false in * by lia.
  assert (0 < 2 ^ s) as Hp by lia. rewrite Z.pow_add_r in Hlt, Hmod by lia.
  change (2 ^ 1) with 2 in *.
  destruct (dt_shift_128_right sub 1 Hsub) as (sub' & Hsh & Hsub' & Vsub'); [lia|].
  destruct (dt_shift_128_right mask 1 Hmask) as (mask' & Hsh2 & Hmask' & Vmask'); [lia|].
  change (-1) with (- (1)). change (2 ^ 1) with 2 in *.
  assert (∀ x, x * 2 ^ s / 2 = if s - 1 <? 0 then x / 2 else x * 2 ^ (s - 1)) as Hhalf.
  { intros x. destruct (Z.ltb_spec (s - 1) 0).
    - replace s with 0 by lia. by rewrite Z.mul_1_r.
    - replace s with (Z.succ (s - 1)) at 1 by lia. rewrite Z.pow_succ_r by lia.
      rewrite (Z.mul_comm 2), Z.mul_assoc. apply Z.div_mul. lia. }
  pose proof (val_range _ Hrem) as Hr. pose proof (val_range _ Hres) as Hq.
  rewrite dt_ge_128_spec by done.
  destruct (Z.leb_spec (val sub) (val rem)) as [Hge|Hge].
  - destruct (dt_subtract_128_spec rem sub Hrem Hsub) as [Ho Vo].
    destruct (lor_words res mask Hres Hmask) as [Ho2 Vo2].
    rewrite Z.mod_small in Vo by (rewrite Vsub in *; nia).
    rewrite Vmask, lor_pow2 in Vo2 by first [lia | rewrite Z.pow_add_r by lia; done].
    do 4 eexists. split_and!; [done..|]. split; [done|lia|..].
    + rewrite Vsub', Vsub. apply Hhalf.
    + rewrite Vmask', Vmask. specialize (Hhalf 1). rewrite !Z.mul_1_l in Hhalf.
      rewrite Hhalf. by destruct (s - 1 <? 0).
    + rewrite Vo2, Vo, Vsub. nia.
    + replace (s - 1 + 1) with s by lia. rewrite Vo, Vsub. nia.
    + replace (s - 1 + 1) with s by lia. rewrite Vo2.
      apply Z.mod_divide in Hmod as [q ->]; [|lia].
      apply Z.mod_divide; [lia|]. exists (q * 2 + 1). lia.
  - do 4 eexists. split_and!; [done..|]. split; [done|lia|..].
    + rewrite Vsub', Vsub. apply Hhalf.
    + rewrite Vmask', Vmask. specialize (Hhalf 1). rewrite !Z.mul_1_l in Hhalf.
      rewrite Hhalf. by destruct (s - 1 <? 0).
    + done.
    + replace (s - 1 + 1) with s by lia. lia.
    + replace (s - 1 + 1) with s by lia.
      apply Z.mod_divide in Hmod as [q ->]; [|lia].
      apply Z.mod_divide; [lia|]. exists (q * 2). lia.
Qed.

Lemma divide_loop_spec n d s fuel rem sub mask res :
  0 < d < 2 ^ 64 → 0 <= n < 2 ^ 128 → (Z.to_nat (s + 1) <= fuel)%nat →
  div_inv n d s rem sub mask res →
  ∃ q, divide_loop fuel (U128 d 0) rem sub mask res = Some q ∧ ok q ∧ val q = n / d.
Proof.
  intros Hd Hn. revert s rem sub mask res. induction fuel as [|fuel IH];
    intros s rem sub mask res Hf Hinv; cbn [divide_loop];
    pose proof Hinv as [(Hrem & Hsub & Hmask & Hres) Hs Vsub Vmask Heq Hlt Hmod];
    pose proof (val_range _ Hrem) as Hr;
    rewrite dt_ge_128_spec by (done || (apply ok_small; unfold urange; lia)); rewrite val_small;
    (destruct (Z.leb_spec d (val rem)) as [Hge|Hge];
     [|exists res; split_and!; [done..|]; apply (Z.div_unique_pos _ _ _ (val rem)); lia]).
  - replace s with (-1) in * by lia. change (2 ^ (-1 + 1)) with 1 in Hlt. lia.
  - assert (0 <= s) as Hs0.
    { destruct (Z.lt_ge_cases s 0); [|lia]. replace s with (-1) in * by lia.
      change (2 ^ (-1 + 1)) with 1 in Hlt. lia. }
    destruct (div_inv_step n d s rem sub mask res) as (rem' & res' & sub' & mask' & -> & -> & -> & Hinv');
      [lia|lia|lia|done|]. cbn [mbind option_bind].
    apply (IH (s - 1)); [lia|done].
Qed.

Lemma divide_ok n d :
  ok n → 0 < d < 2 ^ 64 → ∃ q, dt_divide_128 n d = Some q ∧ ok q ∧ val q = val n / d.
Proof.
  intros Hn Hd. unfold dt_divide_128. replace (d =? 0) with false by lia.
  destruct (log_loop_spec 64 d 0) as (k & -> & Hk & Hlt & [[? _]|[Hk0 Hge]]); [lia|lia|].
  cbn [mbind option_bind]. rewrite Z.add_0_l.
  assert (2 ^ (128 - k) * 2 ^ k = 2 ^ 128) as Hpow by (rewrite <- Z.pow_add_r by lia; f_equal; lia).
  assert (2 ^ k = 2 * 2 ^ (k - 1)) as Hk2 by (rewrite <- Z.pow_succ_r by lia; f_equal; lia).
  destruct (dt_shift_128_left (U128 d 0) (128 - k)) as (sub & -> & Hsub & Vsub);
    [apply ok_small; unfold urange; lia|lia|].
  cbn [mbind option_bind].
  destruct (dt_shift_128_left (U128 1 0) (128 - k)) as (mask & -> & Hmask & Vmask);
    [apply ok_small; unfold urange; lia|lia|].
  cbn [mbind option_bind]. rewrite val_small in *.
  assert (0 < 2 ^ (128 - k)) by lia.
  rewrite Z.mod_small in Vsub, Vmask by nia.
  apply (divide_loop_spec _ _ (128 - k)); [lia|by apply val_range|lia|].
  pose proof (val_range _ Hn).
  split.
  - split_and!; try done; apply ok_small; unfold urange; lia.
  - lia.
  - replace (128 - k <? 0) with false by lia. done.
  - replace (128 - k <? 0) with false by lia. lia.
  - rewrite val_small. lia.
  - rewrite Z.pow_add_r by lia. change (2 ^ 1) with 2. nia.
  - rewrite val_small. apply Z.mod_0_l. lia.
Qed.

(** ** Square root *)

Lemma nbits_loop_spec fuel e t k :
  ok t → 0 <= e <= Z.of_nat fuel → val t < 2 ^ e →
  ∃ m, nbits_loop fuel t k = Some (k + m) ∧ 0 <= m <= e ∧ val t < 2 ^ m.
Proof.
  revert e t k. induction fuel as [|fuel IH]; intros e t k Ht He Hlt;
    pose proof (val_range _ Ht) as Hr; cbn [nbits_loop];
    rewrite dt_gt_128_spec by (done || (apply ok_small; unfold urange; lia)); rewrite val_small.
  - replace e with 0 in * by lia. change (2 ^ 0) with 1 in Hlt.
    destruct (Z.ltb_spec 0 (val t)); [lia|].
    exists 0. split_and!; [f_equal; lia|lia|lia|done].
  - destruct (Z.ltb_spec 0 (val t)).
    + destruct (dt_shift_128_right t 1 Ht) as (t' & Hsh & Ht' & Vt'); [lia|].
      change (- (1)) with (-1) in Hsh. rewrite Hsh. cbn [mbind option_bind].
      change (2 ^ 1) with 2 in Vt'.
      assert (0 < e) by (destruct (decide (e = 0)) as [->|]; [change (2 ^ 0) with 1 in Hlt|]; lia).
      replace e with (Z.succ (e - 1)) in Hlt by lia. rewrite Z.pow_succ_r in Hlt by lia.
      destruct (IH (e - 1) t' (k + 1) Ht') as (m & -> & Hm & Hlt'); [lia..|].
      exists (m + 1). rewrite Z.pow_add_r by lia. change (2 ^ 1) with 2.
      split_and!; [f_equal; lia|lia..].
    + exists 0. split_and!; [f_equal; lia|lia|lia|]. change (2 ^ 0) with 1. lia.
Qed.

Lemma dt_nbits_128_spec a :
  ok a → ∃ m, dt_nbits_128 a = Some m ∧ 0 <= m <= 127 ∧ val a < 2 ^ (m + 1).
Proof.
  intros Ha. unfold dt_nbits_128. pose proof (val_range _ Ha).
  destruct (dt_shift_128_right a 1 Ha) as (t & Hsh & Ht & Vt); [lia|].
  change (- (1)) with (-1) in Hsh. rewrite Hsh. cbn [mbind option_bind].
  change (2 ^ 1) with 2 in Vt.
  destruct (nbits_loop_spec 128 127 t 0 Ht) as (m & -> & Hm & Hlt); [lia..|].
  exists m. rewrite Z.pow_add_r by lia. change (2 ^ 1) with 2. split_and!; [done|lia..].
Qed.

(** [r] is the integer square root of [n], and [d] what is left over. *)
Record sqrt_inv (n : Z) (r d : u128) : Prop := {
  si_ok : ok r ∧ ok d;
  si_eq : n = val r * val r + val d;
  si_le : val d <= 2 * val r
}.

Lemma sqrt_inv_bound n r d k : 0 <= k → n < 2 ^ (2 * k) → sqrt_inv n r d → val r < 2 ^ k.
Proof.
  intros Hk Hn [[Hr Hd] Heq Hle]. pose proof (val_range _ Hr). pose proof (val_range _ Hd).
  replace (2 ^ (2 * k)) with (2 ^ k * 2 ^ k) in Hn by (rewrite <- Z.pow_add_r by lia; f_equal; lia).
  apply Z.square_lt_simpl_nonneg; lia.
Qed.

Lemma sqrt_step_spec sq ps r d :
  ok sq → 0 <= ps <= 126 → ps mod 2 = 0 → sqrt_inv (val sq / 2 ^ (ps + 2)) r d →
  ∃ r' d', sqrt_step sq ps r d = Some (r', d') ∧ sqrt_inv (val sq / 2 ^ ps) r' d'.
Proof.
  intros Hsq Hps Heven Hinv. pose proof (val_range _ Hsq) as Hsqr.
  assert (val r < 2 ^ 63) as Hr63.
  { eapply sqrt_inv_bound; [lia| |done]. apply Z.div_lt_upper_bound; [lia|].
    rewrite <- Z.pow_add_r by lia. apply Z.lt_le_trans with (2 ^ 128); [lia|].
    apply Z.pow_le_mono_r; lia. }
  destruct Hinv as [[Hr Hd] Heq Hle]. pose proof (val_range _ Hr). pose proof (val_range _ Hd).
  unfold sqrt_step. rewrite swrap_id by (unfold srange; lia).
  destruct (dt_shift_128_pair sq ps Hsq) as (np & -> & Hnp & Vnp); [lia|done|].
  cbn [mbind option_bind]. rewrite Vnp.
  set (p := (val sq / 2 ^ ps) mod 4). assert (0 <= p < 4) as Hp by (unfold p; lia).
  assert (val sq / 2 ^ ps = 4 * (val sq / 2 ^ (ps + 2)) + p) as Hdiv.
  { unfold p. rewrite Z.pow_add_r, <- Z.div_div by lia. change (2 ^ 2) with 4. lia. }
  rewrite Hdiv, Heq. clearbody p. clear Hdiv Vnp Heq Hsqr Heven.
  assert (ok (U128 p 0)) as Hop by (apply ok_small; unfold urange; lia).
  assert (ok (U128 1 0)) as Ho1 by (apply ok_small; unfold urange; lia).
  destruct (dt_shift_128_left d 2 Hd) as (d4 & -> & Hd4 & Vd4); [lia|]. cbn [mbind option_bind].
  destruct (dt_shift_128_left r 2 Hr) as (r4 & -> & Hr4 & Vr4); [lia|]. cbn [mbind option_bind].
  destruct (dt_shift_128_left r 1 Hr) as (r2 & -> & Hr2 & Vr2); [lia|]. cbn [mbind option_bind].
  change (2 ^ 2) with 4 in *. change (2 ^ 1) with 2 in *.
  rewrite Z.mod_small in Vd4, Vr4, Vr2 by lia.
  destruct (dt_add_128_spec d4 (U128 p 0) Hd4 Hop) as [Hdp Vdp].
  destruct (dt_add_128_spec r4 (U128 1 0) Hr4 Ho1) as [Hnt Vnt].
  destruct (dt_add_128_spec r2 (U128 1 0) Hr2 Ho1) as [Hr1 Vr1].
  rewrite val_small in Vdp, Vnt, Vr1. rewrite Z.mod_small in Vdp, Vnt, Vr1 by lia.
  rewrite dt_le_128_spec by done. rewrite Vnt, Vdp, Vd4, Vr4.
  destruct (Z.leb_spec (val r * 4 + 1) (val d * 4 + p)) as [Hc|Hc].
  - destruct (dt_subtract_128_spec _ _ Hdp Hnt) as [Hds Vds].
    rewrite Z.mod_small in Vds by lia.
    do 2 eexists. split; [done|]. split; [done|..]; rewrite ?Vds, ?Vr1, ?Vr2, ?Vdp, ?Vnt, ?Vd4, ?Vr4; lia.
  - do 2 eexists. split; [done|]. split; [done|..]; rewrite ?Vr2, ?Vdp, ?Vd4; lia.
Qed.

Lemma sqrt_loop_spec n sq r d :
  ok sq → (n <= 64)%nat → sqrt_inv (val sq / 2 ^ (2 * Z.of_nat n)) r d →
  ∃ r' d', sqrt_loop n sq (u64 (2 * Z.of_nat n - 2)) r d = Some r' ∧ sqrt_inv (val sq) r' d'.
Proof.
  intros Hsq. revert r d. induction n as [|n IH]; intros r d Hn Hinv.
  - simpl. change (2 * Z.of_nat 0) with 0 in Hinv. rewrite Z.div_1_r in Hinv. by exists r, d.
  - cbn [sqrt_loop]. rewrite (wrap_id 64 (2 * _ - 2)) by (unfold urange; lia).
    replace (2 * Z.of_nat (S n) - 2) with (2 * Z.of_nat n) by lia.
    destruct (sqrt_step_spec sq (2 * Z.of_nat n) r d Hsq) as (r' & d' & -> & Hinv'); [lia|lia| |].
    { by replace (2 * Z.of_nat n + 2) with (2 * Z.of_nat (S n)) by lia. }
    cbn [mbind option_bind]. apply (IH r' d'); [lia|done].
Qed.

Lemma sqrt_ok sq : ok sq → dt_sqrt_128 sq = Some (Z.sqrt (val sq)).
Proof.
  intros Hsq. unfold dt_sqrt_128. pose proof (val_range _ Hsq).
  destruct (dt_nbits_128_spec sq Hsq) as (m & -> & Hm & Hlt). cbn [mbind option_bind].
  rewrite Z.quot_div_nonneg by lia.
  destruct (sqrt_loop_spec (Z.to_nat (m / 2 + 1)) sq (U128 0 0) (U128 0 0) Hsq) as (r & d & Heq & Hinv).
  { lia. }
  { rewrite Z.div_small.
    - split; [split; apply ok_small; unfold urange; lia|done..].
    - split; [lia|]. apply Z.lt_le_trans with (2 ^ (m + 1)); [done|].
      apply Z.pow_le_mono_r; lia. }
  rewrite wrap_id in Heq by (unfold urange; lia).
  replace (2 * Z.of_nat (Z.to_nat (m / 2 + 1)) - 2) with (m / 2 * 2) in Heq by lia.
  rewrite Heq. cbn [mbind option_bind].
  assert (val r < 2 ^ 64) as Hr64 by (eapply sqrt_inv_bound; [lia| |done]; lia).
  destruct Hinv as [[Hr Hd] Hsum Hle]. pose proof (val_range _ Hr). pose proof (val_range _ Hd).
  assert (hi r = 0 ∧ lo r = val r) as [Hhi Hlo].
  { unfold val, ok, urange in *. lia. }
  rewrite Hhi, Hlo. simpl. f_equal. symmetry. apply Z.sqrt_unique. lia.
Qed.

(** ** The correctness of the 128-bit functions *)

(** [dt_multiply_128] computes the exact 128-bit product of any two 64-bit
    factors. *)
Theorem dt_multiply_128_correct f1 f2 :
  urange 64 f1 → urange 64 f2 →
  ∃ p, dt_multiply_128 f1 f2 = Some p ∧ ok p ∧ val p = f1 * f2.
Proof. apply multiply_ok. Qed.

Lemma dt_multiply_128_correct_witness :
  ∃ p, dt_multiply_128 (2 ^ 64 - 1) (2 ^ 63 + 5) = Some p ∧ ok p ∧
    val p = (2 ^ 64 - 1) * (2 ^ 63 + 5).
Proof. apply dt_multiply_128_correct; unfold urange; lia. Defined.

(** C18: [dt_divide_128] terminates and returns the quotient of a 128-bit
    dividend and a non-zero 64-bit divisor; a zero divisor fails its
    assertion. *)
Theorem dt_divide_128_correct n d :
  ok n → urange 64 d →
  if d =? 0 then dt_divide_128 n d = None
  else ∃ q, dt_divide_128 n d = Some q ∧ ok q ∧ val q = val n / d.
Proof.
  intros Hn Hd. destruct (Z.eqb_spec d 0) as [->|]; [done|].
  apply divide_ok; [done|]. unfold urange in Hd. lia.
Qed.

Lemma dt_divide_128_correct_witness :
  if 10 =? 0 then dt_divide_128 (U128 7 3) 10 = None
  else ∃ q, dt_divide_128 (U128 7 3) 10 = Some q ∧ ok q ∧ val q = val (U128 7 3) / 10.
Proof. apply dt_divide_128_correct; [split|]; unfold urange; simpl; lia. Defined.

(** [dt_sqrt_128] returns the integer square root of any 128-bit value, and
    its final assertion (that the result fits in 64 bits) always holds. *)
Theorem dt_sqrt_128_correct sq : ok sq → dt_sqrt_128 sq = Some (Z.sqrt (val sq)).
Proof. apply sqrt_ok. Qed.

Lemma dt_sqrt_128_correct_witness :
  dt_sqrt_128 (U128 582734 12) = Some (Z.sqrt (val (U128 582734 12))).
Proof. apply dt_sqrt_128_correct. split; unfold urange; simpl; lia. Defined.

(** [dt_shift_128] is an exact 128-bit shift (left shifts drop the bits
    above 2^128) except for right shifts by 33 to 63 bits, where the mask it
    takes from the high word is too narrow and exactly the bits [lost] says
    come out as 0: shifting 2^96 right by 40 gives 0 instead of 2^56. *)
Theorem dt_shift_128_correct a n :
  ok a → 0 <= n < 128 →
  (∃ r, dt_shift_128 a n = Some r ∧ ok r ∧ val r = (val a * 2 ^ n) mod 2 ^ 128) ∧
  (∃ r, dt_shift_128 a (- n) = Some r ∧ ok r ∧
    (∀ i, 0 <= i → Z.testbit (val r) i = negb (lost n i) && Z.testbit (val a) (i + n)) ∧
    (n <= 32 ∨ 64 <= n → val r = val a / 2 ^ n)) ∧
  dt_shift_128 (U128 0 (2 ^ 32)) (-40) = Some (U128 0 0).
Proof.
  intros Ha Hn. split_and!; [by apply dt_shift_128_left| |done].
  destruct (dt_shift_128_right_bits a n Ha Hn) as (r & Hr & Hok & Hb).
  exists r. split_and!; [done..|]. intros Hex.
  destruct (dt_shift_128_right a n Ha) as (r' & Hr' & _ & Hv); [lia|]. congruence.
Qed.

Lemma dt_shift_128_correct_witness :
  let a := U128 0 (2 ^ 32) in
  (∃ r, dt_shift_128 a 40 = Some r ∧ ok r ∧ val r = (val a * 2 ^ 40) mod 2 ^ 128) ∧
  (∃ r, dt_shift_128 a (- 40) = Some r ∧ ok r ∧
    (∀ i, 0 <= i → Z.testbit (val r) i = negb (lost 40 i) && Z.testbit (val a) (i + 40)) ∧
    (40 <= 32 ∨ 64 <= 40 → val r = val a / 2 ^ 40)) ∧
  dt_shift_128 (U128 0 (2 ^ 32)) (-40) = Some (U128 0 0).
Proof. apply dt_shift_128_correct; [split; unfold urange; simpl; lia|lia]. Defined.

Lemma quot_abs_bound a b : 0 < b → Z.abs (Z.quot a b) <= Z.abs a.
Proof.
  intros Hb. rewrite <- Z.quot_abs, (Z.abs_eq b), Z.quot_div_nonneg by lia.
  apply Z.div_le_upper_bound; [done|]. clear -Hb. pose proof (Z.abs_nonneg a). nia.
Qed.

Lemma div64_pos a b : 0 < b → div64 a b = Some (Z.quot a b).
Proof. intros. unfold div64. by replace ((b =? 0) || _) with false by lia. Qed.

(** The absolute value of the average, as the code computes it. *)
Lemma abs64 a : Z.abs a <= 2 ^ 63 → u64 (if a <? 0 then s64 (- a) else a) = Z.abs a.
Proof.
  intros Ha. destruct (Z.ltb_spec a 0).
  - rewrite wrap_swrap, wrap_id by (unfold urange; lia). lia.
  - rewrite wrap_id by (unfold urange; lia). lia.
Qed.

(** C25: [dt_stddev] returns the integer square root of the (truncated) average
    of the squares minus the square of the truncated average, whenever the
    former is the larger, as it is for the data of an aggregation: no
    assertion fails and no intermediate value overflows. *)
Theorem dt_stddev_correct count sum squares normal :
  0 < count < 2 ^ 63 → 0 < normal < 2 ^ 63 → urange 64 sum → ok squares →
  let avg := Z.quot (Z.quot (s64 sum) normal) count in
  let avgsq := val squares / normal / count in
  avg * avg <= avgsq →
  dt_stddev (count, sum, squares) normal = Some (Z.sqrt (avgsq - avg * avg)).
Proof.
  intros Hc Hn Hs Hsq avg avgsq Hle. unfold dt_stddev.
  destruct (divide_ok squares normal Hsq) as (q1 & -> & Hq1 & V1); [lia|]. cbn [mbind option_bind].
  destruct (divide_ok q1 count Hq1) as (q2 & -> & Hq2 & V2); [lia|]. cbn [mbind option_bind].
  rewrite V1 in V2. fold avgsq in V2.
  rewrite !(swrap_id 64 normal), !(swrap_id 64 count) by (unfold srange; lia).
  pose proof (swrap_range 64 sum ltac:(lia)) as Hsr. unfold srange in Hsr.
  change (2 ^ (64 - 1)) with (2 ^ 63) in Hsr.
  rewrite !div64_pos by lia. cbn [mbind option_bind]. rewrite div64_pos by lia.
  cbn [mbind option_bind]. fold avg.
  assert (Z.abs avg <= 2 ^ 63) as Habs.
  { apply Z.le_trans with (Z.abs (Z.quot (s64 sum) normal)); [apply quot_abs_bound; lia|].
    apply Z.le_trans with (Z.abs (s64 sum)); [apply quot_abs_bound; lia|]. clear -Hsr. lia. }
  clearbody avg avgsq. rewrite abs64 by done.
  destruct (multiply_ok (Z.abs avg) (Z.abs avg)) as (p & -> & Hp & Vp); [unfold urange; lia..|].
  cbn [mbind option_bind].
  destruct (dt_subtract_128_spec q2 p Hq2 Hp) as [Hd Vd].
  rewrite sqrt_ok by done. do 2 f_equal.
  rewrite Vd, V2, Vp, <- Z.abs_mul, Z.abs_eq by lia.
  pose proof (val_range _ Hq2). rewrite V2 in *. apply Z.mod_small. lia.
Qed.

Lemma dt_stddev_correct_witness :
  let avg := Z.quot (Z.quot (s64 (u64 (-10))) 1) 4 in
  let avgsq := val (U128 150 0) / 1 / 4 in
  dt_stddev (4, u64 (-10), U128 150 0) 1 = Some (Z.sqrt (avgsq - avg * avg)).
Proof.
  apply dt_stddev_correct; vm_compute; intuition discriminate.
Defined.

End Int128.
