(* ===== verification/DtBuf.v ===== *)
(** * Memory buffers: libdtrace/dt_buf.c

    A buffer is a block of memory that grows by doubling.  The pointers
    [dbu_buf] and [dbu_ptr] are the block ([None] for NULL) and an offset into
    it.  The handle's errno is threaded through, and an argument [al] says
    which sizes [malloc] can serve. *)
From S2P Require Import Prelude CLib.

Module DtBuf.

Definition EDT_NOMEM : Z := 1008.
Definition _dtrace_bufsize : Z := 512.

Record dt_buf := mk_buf {
  dbu_name : list Z;
  dbu_buf : option (list Z);
  dbu_ptr : Z;
  dbu_len : Z;
  dbu_err : Z;
  dbu_resizes : Z
}.

(** [dt_zalloc] (dt_subr.c): a block of zeros, or NULL with errno set. *)
Definition dt_zalloc (al : Z → bool) (size : Z) (errno : Z) : option (list Z) * Z :=
  if al size then (Some (replicate (Z.to_nat size) 0), errno) else (None, EDT_NOMEM).

Definition dt_buf_create (al : Z → bool) (name : list Z) (len errno : Z) : dt_buf * Z :=
  let len := if len =? 0 then _dtrace_bufsize else len in
  let '(b, errno) := dt_zalloc al len errno in
  (mk_buf name b 0 len (match b with None => errno | Some _ => 0 end) 0, errno).

Definition dt_buf_reset (al : Z → bool) (bp : dt_buf) (errno : Z) : dt_buf * Z :=
  match dbu_buf bp with
  | Some b => (mk_buf (dbu_name bp) (Some b) 0 (dbu_len bp) 0 (dbu_resizes bp), errno)
  | None => dt_buf_create al (dbu_name bp) (dbu_len bp) errno
  end.

(** [roundup(x, y)] of <sys/param.h>. *)
Definition roundup (x y : Z) : Z := (x + (y - 1)) / y * y.

(** [while (ptr + adj + len > buf + new_len) { new_len *= 2; r++; }]; a size
    doubles at most 64 times before it wraps to 0, where the loop hangs. *)
Fixpoint grow_loop (fuel : nat) (need new_len r : Z) : option (Z * Z) :=
  if new_len <? need then
    match fuel with
    | O => None
    | S fuel => grow_loop fuel need (u64 (new_len * 2)) (u32 (r + 1))
    end
  else Some (new_len, r).

(** The bytes [src] stored at offset [off] of the block. *)
Definition put (b : option (list Z)) (off : Z) (src : list Z) : option (option (list Z)) :=
  match b, src with
  | None, [] => Some None
  | None, _ => None
  | Some b, _ => Some <$> memcpy b (Z.to_nat off) src (length src)
  end.

Definition dt_buf_write (al : Z → bool) (bp : dt_buf) (data : list Z) (align errno : Z) :
    option (dt_buf * Z) :=
  let len := Z.of_nat (length data) in
  if align =? 0 then None else
  let off := dbu_ptr bp in
  let adj := roundup off align - off in
  if negb (dbu_err bp =? 0) then Some (bp, dbu_err bp)
  else if dbu_len bp <? off + adj + len then
    '(new_len, r) ← grow_loop 64 (off + adj + len) (u64 (dbu_len bp * 2)) 1;
    match dt_zalloc al new_len errno with
    | (None, errno) =>
        Some (mk_buf (dbu_name bp) (dbu_buf bp) off (dbu_len bp) errno (dbu_resizes bp), errno)
    | (Some nb, errno) =>
        nb ← (match dbu_buf bp with
              | Some b => memcpy nb 0 b (Z.to_nat off)
              | None => if off =? 0 then Some nb else None
              end);
        b ← put (Some nb) (off + adj) data;
        Some (mk_buf (dbu_name bp) b (off + adj + len) new_len (dbu_err bp)
               (s32 (dbu_resizes bp + r)), errno)
    end
  else
    b ← put (dbu_buf bp) (off + adj) data;
    Some (mk_buf (dbu_name bp) b (off + adj + len) (dbu_len bp) (dbu_err bp) (dbu_resizes bp), errno).

Definition dt_buf_offset (bp : dt_buf) (align : Z) : Z := roundup (dbu_ptr bp) align.
Definition dt_buf_len (bp : dt_buf) : Z := dbu_ptr bp.
Definition dt_buf_error (bp : dt_buf) : Z := dbu_err bp.
Definition dt_buf_ptr (bp : dt_buf) : option (list Z) := dbu_buf bp.

(** The bytes written so far. *)
Definition contents (bp : dt_buf) : list Z :=
  match dbu_buf bp with Some b => take (Z.to_nat (dbu_ptr bp)) b | None => [] end.

Definition dt_buf_concat (al : Z → bool) (dst src : dt_buf) (align errno : Z) :
    option (dt_buf * Z) :=
  if (dbu_err dst =? 0) && negb (dbu_err src =? 0) then
    Some (mk_buf (dbu_name dst) (dbu_buf dst) (dbu_ptr dst) (dbu_len dst) (dbu_err src)
            (dbu_resizes dst), dbu_err src)
  else dt_buf_write al dst (contents src) align errno.

(** Returns the block (NULL, after freeing it, when the buffer is in error). *)
Definition dt_buf_claim (bp : dt_buf) : option (list Z) * dt_buf :=
  (if negb (dbu_err bp =? 0) then None else dbu_buf bp,
   mk_buf (dbu_name bp) None 0 0 (dbu_err bp) (dbu_resizes bp)).

(** ** Invariant *)

(** The block has [dbu_len] bytes, the offset is within it, and the bytes not
    written yet are zero (as long as the buffer has not been reset). *)
Record wf (bp : dt_buf) : Prop := {
  wf_len : 0 < dbu_len bp;
  wf_ptr : 0 <= dbu_ptr bp <= dbu_len bp;
  wf_block : match dbu_buf bp with
    | Some b => Z.of_nat (length b) = dbu_len bp
    | None => dbu_err bp ≠ 0
    end
}.

Definition clean (bp : dt_buf) : Prop :=
  ∀ b, dbu_buf bp = Some b → Forall (λ c, c = 0) (drop (Z.to_nat (dbu_ptr bp)) b).

Lemma roundup_spec x y :
  0 <= x → 0 < y → x <= roundup x y < x + y ∧ roundup x y mod y = 0.
Proof.
  intros Hx Hy. unfold roundup. rewrite Z.mod_mul by lia. split; [|done].
  pose proof (Z.div_mod (x + (y - 1)) y). pose proof (Z.mod_pos_bound (x + (y - 1)) y). lia.
Qed.

Lemma grow_loop_spec fuel need len r :
  0 < len < 2 ^ 64 → need <= 2 ^ 63 → need <= len * 2 ^ Z.of_nat fuel →
  ∃ n r', grow_loop fuel need len r = Some (n, r') ∧ need <= n < 2 ^ 64 ∧ 0 < n.
Proof.
  revert len r. induction fuel as [|fuel IH]; intros len r Hl Hn Hf;
    cbn [grow_loop]; (destruct (Z.ltb_spec len need); [|do 2 eexists; split; [done|lia]]).
  - change (2 ^ Z.of_nat 0) with 1 in Hf. lia.
  - rewrite Nat2Z.inj_succ, Z.pow_succ_r in Hf by lia.
    rewrite wrap_id by (unfold urange; lia). apply IH; lia.
Qed.

(** Storing [data] at [o] in a block with room for it. *)
Lemma put_spec b off o data :
  (off <= o)%nat → (o + length data <= length b)%nat →
  ∃ b', memcpy b o data (length data) = Some b' ∧ length b' = length b ∧
    take (o + length data) b' = take off b ++ take (o - off) (drop off b) ++ data ∧
    drop (o + length data) b' = drop (o + length data) b.
Proof.
  intros Ho Hl. unfold memcpy. rewrite decide_True by lia.
  rewrite (take_ge data) by lia. eexists. split; [done|].
  split; [rewrite !length_app, length_take, length_drop; lia|]. split.
  - rewrite app_assoc, take_app_le by (rewrite length_app, length_take; lia).
    rewrite take_ge by (rewrite length_app, length_take; lia).
    rewrite app_assoc. f_equal.
    replace o with (off + (o - off))%nat at 1 by lia. by rewrite take_take_drop.
  - rewrite app_assoc, drop_app_ge by (rewrite length_app, length_take; lia).
    rewrite drop_drop. f_equal. rewrite length_app, length_take. lia.
Qed.

(** What a successful write leaves behind. *)
Definition appended (bp bp' : dt_buf) (data : list Z) (align : Z) : Prop :=
  dbu_err bp' = 0 ∧
  dt_buf_len bp' = dt_buf_offset bp align + Z.of_nat (length data) ∧
  ∃ pad, contents bp' = contents bp ++ pad ++ data ∧
    Z.of_nat (length pad) = dt_buf_offset bp align - dt_buf_len bp ∧
    (clean bp → pad = replicate (length pad) 0 ∧ clean bp').

Lemma put_appended bp b nb data align nl r :
  let off := dbu_ptr bp in
  let o := roundup off align in
  dbu_buf bp = Some b → dbu_err bp = 0 → 0 <= off → 0 < align →
  off <= Z.of_nat (length b) →
  0 < nl → Z.of_nat (length nb) = nl → o + Z.of_nat (length data) <= nl →
  take (Z.to_nat off) nb = take (Z.to_nat off) b →
  (clean bp → Forall (λ c, c = 0) (drop (Z.to_nat off) nb)) →
  ∃ nb', put (Some nb) o data = Some (Some nb') ∧
    let bp' := mk_buf (dbu_name bp) (Some nb') (o + Z.of_nat (length data)) nl 0 r in
    wf bp' ∧ appended bp bp' data align.
Proof.
  intros off o Hb He Hoff Hal Hofflen Hpos Hnl Hfit Htake Hclean.
  destruct (roundup_spec off align Hoff Hal) as [Hround _]. fold o in Hround.
  destruct (put_spec nb (Z.to_nat off) (Z.to_nat o) data) as (nb' & Hput & Hlen & Ht & Hd); [lia..|].
  exists nb'. unfold put. rewrite Hput. split; [done|]. cbv zeta.
  assert (Z.to_nat (o + Z.of_nat (length data)) = Z.to_nat o + length data)%nat as Hto by lia.
  split; [split; simpl; lia|]. split; [done|]. unfold dt_buf_len, dt_buf_offset. simpl.
  fold off. fold o. split; [done|].
  exists (take (Z.to_nat o - Z.to_nat off) (drop (Z.to_nat off) nb)).
  split_and!.
  - unfold contents. simpl. rewrite Hb, Hto, Ht, Htake. done.
  - rewrite length_take, length_drop. lia.
  - intros Hc. specialize (Hclean Hc). split.
    + symmetry. apply replicate_as_Forall_2; [done|].
      apply Forall_take. eapply Forall_impl; [exact Hclean|]. by intros ? ->.
    + unfold clean. simpl. intros ? [= <-]. rewrite Hto, Hd.
      replace (Z.to_nat o + length data)%nat
        with (Z.to_nat off + (Z.to_nat o + length data - Z.to_nat off))%nat by lia.
      rewrite <- drop_drop. by apply Forall_drop.
Qed.

Lemma write_ok al bp data align errno :
  wf bp → dbu_err bp = 0 → 0 < align →
  dt_buf_offset bp align + Z.of_nat (length data) <= 2 ^ 63 →
  ∃ bp' errno', dt_buf_write al bp data align errno = Some (bp', errno') ∧ wf bp' ∧
    ((appended bp bp' data align ∧ errno' = errno) ∨
     (dbu_err bp' = EDT_NOMEM ∧ errno' = EDT_NOMEM ∧ contents bp' = contents bp ∧
      dbu_len bp < dt_buf_offset bp align + Z.of_nat (length data))).
Proof.
  intros [Hlen Hptr Hblk] He Hal Hmax. unfold dt_buf_write, dt_buf_offset in *.
  destruct (dbu_buf bp) as [b|] eqn:Hb; [|done].
  destruct (roundup_spec (dbu_ptr bp) align) as [Hround _]; [lia..|].
  replace (align =? 0) with false by lia. rewrite He. cbn [negb Z.eqb].
  rewrite !Zplus_minus. set (o := roundup (dbu_ptr bp) align) in *.
  destruct (Z.ltb_spec (dbu_len bp) (o + Z.of_nat (length data))) as [Hneed|Hfit].
  - rewrite wrap_id by (unfold urange; lia).
    destruct (grow_loop_spec 64 (o + Z.of_nat (length data)) (dbu_len bp * 2) 1)
      as (n & r & -> & Hn & _); [lia..|]. cbn [mbind option_bind]. unfold dt_zalloc.
    destruct (al n).
    + unfold memcpy at 1. rewrite decide_True by (rewrite length_replicate; lia).
      rewrite take_0, app_nil_l, Nat.add_0_l, drop_replicate. cbn [mbind option_bind].
      set (nb := take _ b ++ _).
      destruct (put_appended bp b nb data align n (s32 (dbu_resizes bp + r)))
        as (nb' & Hput & Hwf & Happ); unfold nb; try done; try lia.
      * rewrite length_app, length_take, length_replicate. lia.
      * rewrite take_app_le by (rewrite length_take; lia). apply take_idemp.
      * intros _. rewrite drop_app_ge by (rewrite length_take; lia).
        rewrite drop_replicate. by apply Forall_replicate.
      * fold o in Hput. unfold nb in Hput. rewrite Hput. cbn [mbind option_bind].
        do 2 eexists. split; [done|]. split; [done|]. by left.
    + do 2 eexists. split; [done|]. split.
      * split; simpl; rewrite ?Hb; done.
      * right. split_and!; try done. unfold contents. simpl. by rewrite Hb.
  - destruct (put_appended bp b b data align (dbu_len bp) (dbu_resizes bp))
      as (nb' & Hput & Hwf & Happ); try done; try lia.
    { intros Hc. by apply Hc. }
    fold o in Hput. rewrite Hput. cbn [mbind option_bind].
    do 2 eexists. split; [done|]. split; [done|]. by left.
Qed.

(** C29: [dt_buf_write] on a well-formed buffer terminates and either appends the
    data at the next aligned offset, growing the block if it must and keeping
    what was written before (a buffer that was never reset is padded with
    zeros), or, when the larger block cannot be allocated, leaves the contents
    alone and records EDT_NOMEM in the buffer and in the handle. *)
Theorem dt_buf_write_correct al bp data align errno :
  wf bp → dbu_err bp = 0 → 0 < align →
  dt_buf_offset bp align + Z.of_nat (length data) <= 2 ^ 63 →
  ∃ bp' errno', dt_buf_write al bp data align errno = Some (bp', errno') ∧ wf bp' ∧
    ((appended bp bp' data align ∧ errno' = errno) ∨
     (dbu_err bp' = EDT_NOMEM ∧ errno' = EDT_NOMEM ∧ contents bp' = contents bp ∧
      dbu_len bp < dt_buf_offset bp align + Z.of_nat (length data))).
Proof. apply write_ok. Qed.

Lemma dt_buf_write_correct_witness :
  let bp := mk_buf [] (Some [1; 2; 3; 0]) 3 4 0 0 in
  ∃ bp' errno', dt_buf_write (λ _, true) bp [7; 8; 9] 4 0 = Some (bp', errno') ∧ wf bp' ∧
    ((appended bp bp' [7; 8; 9] 4 ∧ errno' = 0) ∨
     (dbu_err bp' = EDT_NOMEM ∧ errno' = EDT_NOMEM ∧ contents bp' = contents bp ∧
      dbu_len bp < dt_buf_offset bp 4 + Z.of_nat (length [7; 8; 9]))).
Proof.
  apply dt_buf_write_correct; [split; simpl; lia|done|lia|vm_compute; discriminate].
Defined.

(** A series of writes, with the sizes each may allocate. *)
Fixpoint writes (bp : dt_buf) (ws : list ((Z → bool) * list Z * Z)) (errno : Z) : option (dt_buf * Z) :=
  match ws with
  | [] => Some (bp, errno)
  | (al, data, align) :: ws =>
      '(bp, errno) ← dt_buf_write al bp data align errno;
      writes bp ws errno
  end.

Lemma write_error al bp data align errno :
  dbu_err bp ≠ 0 → 0 < align → dt_buf_write al bp data align errno = Some (bp, dbu_err bp).
Proof.
  intros He Hal. unfold dt_buf_write. replace (align =? 0) with false by lia.
  by replace (dbu_err bp =? 0) with false by lia.
Qed.

(** An error is persistent, as the file's comment promises: after a failed
    write any series of writes leaves the buffer as it is and reports the same
    error, concatenating the buffer to another passes the error on, and
    claiming it yields NULL. *)
Theorem dt_buf_error_persists bp ws errno dst al align :
  dbu_err bp ≠ 0 → 0 < align → Forall (λ w, 0 < w.2) ws → dbu_err dst = 0 →
  writes bp ws errno = Some (bp, if decide (ws = []) then errno else dbu_err bp) ∧
  (∃ dst', dt_buf_concat al dst bp align errno = Some (dst', dbu_err bp) ∧
    dbu_err dst' = dbu_err bp ∧ contents dst' = contents dst) ∧
  fst (dt_buf_claim bp) = None.
Proof.
  intros He Hal Hws Hd. split_and!.
  - revert errno. induction Hws as [|[[al' data] align'] ws Ha Hws IH]; intros errno; [done|].
    cbn [writes]. rewrite write_error by done. cbn [mbind option_bind]. rewrite IH.
    by repeat case_decide.
  - unfold dt_buf_concat. rewrite Hd. replace (dbu_err bp =? 0) with false by lia.
    eexists. split; [done|]. done.
  - unfold dt_buf_claim. by replace (dbu_err bp =? 0) with false by lia.
Qed.

Lemma dt_buf_error_persists_witness :
  let bp := mk_buf [] (Some [1; 2]) 2 2 EDT_NOMEM 0 in
  let dst := mk_buf [] (Some [5]) 1 1 0 0 in
  let ws := [((λ _, true), [3; 4], 1); ((λ _, true), [5], 8)] in
  writes bp ws 0 = Some (bp, if decide (ws = []) then 0 else dbu_err bp) ∧
  (∃ dst', dt_buf_concat (λ _, true) dst bp 4 0 = Some (dst', dbu_err bp) ∧
    dbu_err dst' = dbu_err bp ∧ contents dst' = contents dst) ∧
  fst (dt_buf_claim bp) = None.
Proof.
  apply dt_buf_error_persists; [done|lia| |done]. repeat constructor.
Defined.

End DtBuf.
