(* ===== verification/Strtab.v ===== *)
(** * String tables: libdtrace/dt_strtab.c

    The strings of a program, stored with their NULs in a list of chunks of
    equal size and found through a hash table.  A pointer into the storage is a
    chunk number and an offset in the chunk.  What [dt_strtab_compare] reads
    outside the chunk, or outside the string it is given, is the arbitrary
    [oob] and [soob]; the argument [mem] is the block a call of [dt_strtab_grow]
    obtains, or [None] when one of its allocations fails. *)
From S2P Require Import Prelude CLib DtString StrTable.
Import DtString.

Module Strtab.

Definition _dtrace_strbuckets : nat := 211.

Record dt_strhash := mk_strhash {
  str_data : nat * nat;
  str_buf : nat;
  str_off : Z;
  str_len : nat
}.

Record dt_strtab := mk_strtab {
  str_hash : list (list dt_strhash);
  str_hashsz : nat;
  str_bufs : list (list Z);
  str_ptr : nat * nat;
  str_nbufs : nat;
  str_bufsz : nat;
  str_nstrs : Z;
  str_size : Z
}.

(** The allocations of a run: the contents of the [n]th chunk if it can be had. *)
Abbreviation chunks := (nat → option (list Z)).

Definition dt_strtab_grow (mem : chunks) (sp : dt_strtab) : Z * dt_strtab :=
  match mem (str_nbufs sp) with
  | None => (-1, sp)
  | Some c =>
      (0, mk_strtab (str_hash sp) (str_hashsz sp) (str_bufs sp ++ [c]) (str_nbufs sp, O)
            (S (str_nbufs sp)) (str_bufsz sp) (str_nstrs sp) (str_size sp))
  end.

(** [m1] and [m2]: the table and the array of buckets can be allocated.  The
    inner [None] is NULL. *)
Definition dt_strtab_create (m1 m2 : bool) (mem : chunks) (bufsz : nat) : option (option dt_strtab) :=
  if decide (bufsz = 0%nat) then None
  else if negb m1 then Some None
  else if negb m2 then Some None
  else
    let sp := mk_strtab (replicate _dtrace_strbuckets []) _dtrace_strbuckets [] (O, O) 0 bufsz 1 1 in
    let '(rc, sp) := dt_strtab_grow mem sp in
    if rc =? -1 then Some None
    else
      c ← str_bufs sp !! fst (str_ptr sp);
      c ← store c (snd (str_ptr sp)) 0;
      Some (Some (mk_strtab (str_hash sp) (str_hashsz sp) (<[fst (str_ptr sp) := c]> (str_bufs sp))
                    (fst (str_ptr sp), S (snd (str_ptr sp))) (str_nbufs sp) (str_bufsz sp) 1 1)).

Section compare.
Context (oob : nat → nat → Z) (soob : nat → Z).

(** The byte at an offset of a chunk, and of the string compared with. *)
Definition buf_at (sp : dt_strtab) (b i : nat) : Z :=
  default (oob b i) (str_bufs sp !! b ≫= (.!! i)).
Definition str_at (s : list Z) (k : nat) : Z := default (soob k) (s !! k).

(** strncmp(3) on two readable places. *)
Fixpoint strncmp (f g : nat → Z) (i n : nat) : Z :=
  match n with
  | O => 0
  | S n =>
      if negb (u8 (f i) - u8 (g i) =? 0) then u8 (f i) - u8 (g i)
      else if u8 (f i) =? 0 then 0
      else strncmp f g (S i) n
  end.

(** The loop of [dt_strtab_compare] with [buf] at offset [i] of chunk [b], [str]
    advanced by [k]. *)
Fixpoint compare_loop (fuel : nat) (sp : dt_strtab) (b i : nat) (s : list Z) (k len : nat) : option Z :=
  match len, fuel with
  | O, _ => Some 0
  | _, O => None
  | _, S fuel =>
      '(b, i) ← (if decide (i = str_bufsz sp) then
                   _ ← str_bufs sp !! S b; Some (S b, O)
                 else Some (b, i));
      let resid := (str_bufsz sp - i)%nat in
      let n := Nat.min resid len in
      let rv := s8 (buf_at sp b i) - s8 (str_at s k) in
      if negb (rv =? 0) then Some rv else
      let rv := s8 (buf_at sp b (i + 1)) - s8 (str_at s (k + 1)) in
      if negb (rv =? 0) then Some rv else
      let rv := strncmp (λ j, buf_at sp b (i + j)) (λ j, str_at s (k + j)) 2 n in
      if negb (rv =? 0) then Some rv else
      compare_loop fuel sp b (i + n) s (k + n) (len - n)
  end.

Definition dt_strtab_compare (sp : dt_strtab) (hp : dt_strhash) (s : list Z) (len : nat) : option Z :=
  if decide (fst (str_data hp) = str_buf hp)
  then compare_loop len sp (str_buf hp) (snd (str_data hp)) s 0 len
  else None.

Fixpoint xindex_loop (sp : dt_strtab) (chain : list dt_strhash) (s : list Z) (len : nat) : option Z :=
  match chain with
  | [] => Some (-1)
  | hp :: chain =>
      rv ← dt_strtab_compare sp hp s (len + 1);
      if rv =? 0 then Some (s64 (str_off hp)) else xindex_loop sp chain s len
  end.

Definition dt_strtab_xindex (sp : dt_strtab) (s : list Z) (len h : nat) : option Z :=
  chain ← str_hash sp !! h;
  xindex_loop sp chain s len.

Definition hash_of (sp : dt_strtab) (s : list Z) : nat :=
  Z.to_nat (str2hval (Some s) (u32 (Z.of_nat (length s))) mod Z.of_nat (str_hashsz sp)).

(** [m1]: the copy of the string can be allocated. *)
Definition dt_strtab_index (m1 : bool) (sp : dt_strtab) (s : option (list Z)) : option Z :=
  match s with
  | None | Some [] => Some 0
  | Some s =>
      if negb m1 then Some (-1)
      else dt_strtab_xindex sp (s ++ [0]) (length s) (hash_of sp s)
  end.

End compare.

Section insert.
Context (oob : nat → nat → Z) (soob : nat → Z) (mem : chunks).

Definition set_bufs (sp : dt_strtab) (bufs : list (list Z)) (ptr : nat * nat) (n : nat) : dt_strtab :=
  mk_strtab (str_hash sp) (str_hashsz sp) bufs ptr n (str_bufsz sp) (str_nstrs sp) (str_size sp).

(** The loop of [dt_strtab_copyin]; [false] is the jump to [err]. *)
Fixpoint copyin_loop (fuel : nat) (sp : dt_strtab) (b : nat) (s : list Z) : option (bool * dt_strtab) :=
  match s, fuel with
  | [], _ => Some (true, sp)
  | _, O => None
  | _, S fuel =>
      let full := bool_decide (str_ptr sp = (b, str_bufsz sp)) in
      let '(rc, sp) := if full then dt_strtab_grow mem sp else (0, sp) in
      if rc =? -1 then Some (false, sp)
      else
        let b := if full then S b else b in
        let o := snd (str_ptr sp) in
        let resid := (str_bufsz sp - o)%nat in
        let n := Nat.min resid (length s) in
        c ← str_bufs sp !! b;
        c ← memcpy c o s n;
        copyin_loop fuel (set_bufs sp (<[b := c]> (str_bufs sp)) (b, (o + n)%nat) (str_nbufs sp)) b
          (drop n s)
  end.

Definition dt_strtab_copyin (sp : dt_strtab) (s : list Z) : option (Z * dt_strtab) :=
  let old_p := str_ptr sp in
  let old_n := str_nbufs sp in
  '(ok, sp) ← copyin_loop (length s) sp (str_nbufs sp - 1) s;
  if (ok : bool) then Some (0, sp)
  else Some (-1, set_bufs sp (take old_n (str_bufs sp)) old_p old_n).

(** [m1] and [m2]: the copy of the string and the hash entry can be allocated. *)
Definition dt_strtab_insert (m1 m2 : bool) (sp : dt_strtab) (s : option (list Z)) :
    option (Z * dt_strtab) :=
  match s with
  | None | Some [] => Some (0, sp)
  | Some s =>
      if negb m1 then Some (-1, sp)
      else
        let slen := length s in
        let h := hash_of sp s in
        off ← dt_strtab_xindex oob soob sp (s ++ [0]) slen h;
        if negb (off =? -1) then Some (off, sp)
        else if negb m2 then Some (-1, sp)
        else
          let hp := mk_strhash (str_ptr sp) (str_nbufs sp - 1) (str_size sp) slen in
          '(rc, sp) ← dt_strtab_copyin sp (s ++ [0]);
          if rc =? -1 then Some (-1, sp)
          else
            chain ← str_hash sp !! h;
            Some (s64 (str_off hp),
                  mk_strtab (<[h := hp :: chain]> (str_hash sp)) (str_hashsz sp) (str_bufs sp)
                    (str_ptr sp) (str_nbufs sp) (str_bufsz sp) (u64 (str_nstrs sp + 1))
                    (u64 (str_size sp + Z.of_nat slen + 1)))
  end.

End insert.

Definition dt_strtab_size (sp : dt_strtab) : Z := str_size sp.

(** The callback that copies into a block of memory. *)
Definition dt_strtab_copystr (s : list Z) (n : nat) (off : Z) (buf : list Z) : option (Z * list Z) :=
  buf ← memcpy buf (Z.to_nat off) s n;
  Some (Z.of_nat n, buf).

(** The loop over the chunks [i], [i + 1], ... with any callback on a state [S]. *)
Section write.
Context {S : Type} (func : list Z → nat → Z → S → option (Z * S)).

Fixpoint write_loop (sp : dt_strtab) (i : nat) (bufs : list (list Z)) (total : Z) (st : S) :
    option (Z * S) :=
  match bufs with
  | [] => Some (total, st)
  | c :: bufs =>
      let n := if decide (i = str_nbufs sp - 1)%nat then snd (str_ptr sp) else str_bufsz sp in
      '(res, st) ← func c n total st;
      if res <=? 0 then Some (total, st)
      else write_loop sp (1 + i) bufs (total + res) st
  end.

Definition dt_strtab_write (sp : dt_strtab) (st : S) : option (Z * S) :=
  '(total, st) ← write_loop sp 0 (take (str_nbufs sp) (str_bufs sp)) 0 st;
  Some (if (total =? 0) && negb (str_size sp =? 0) then -1 else total, st).
End write.

(** ** The storage as one sequence of bytes *)

Lemma concat_lookup {A} (ls : list (list A)) m b i :
  Forall (λ l, length l = m) ls → (i < m)%nat →
  concat ls !! (b * m + i)%nat = ls !! b ≫= (.!! i).
Proof.
  intros Hls Hi. revert b. induction Hls as [|l ls Hl Hls IH]; intros b; [by destruct b|].
  cbn [concat]. destruct b as [|b]; simpl.
  - by rewrite lookup_app_l by lia.
  - rewrite lookup_app_r by lia. rewrite <- IH. f_equal. lia.
Qed.

Lemma concat_length {A} (ls : list (list A)) m :
  Forall (λ l, length l = m) ls → length (concat ls) = (length ls * m)%nat.
Proof. induction 1; simpl; rewrite ?length_app; lia. Qed.

Lemma take_concat {A} (ls : list (list A)) m n :
  Forall (λ l, length l = m) ls → take (n * m) (concat ls) = concat (take n ls).
Proof.
  intros Hls. revert n. induction Hls as [|l ls Hl Hls IH]; intros n.
  { cbn [concat]. by rewrite !take_nil. }
  destruct n as [|n]; [done|]. cbn [concat take]. rewrite <- IH.
  replace (S n * m)%nat with (length l + n * m)%nat by lia. by rewrite take_app_add.
Qed.

(** Where a pointer points in the storage, and the bytes stored so far. *)
Definition pos (sp : dt_strtab) (p : nat * nat) : nat := (fst p * str_bufsz sp + snd p)%nat.
Definition storage (sp : dt_strtab) : list Z := concat (str_bufs sp).
Definition contents (sp : dt_strtab) : list Z := take (pos sp (str_ptr sp)) (storage sp).

(** The chunks, and the pointer into the last of them. *)
Record core (sp : dt_strtab) : Prop := {
  core_bufsz : (0 < str_bufsz sp)%nat;
  core_len : Forall (λ c, length c = str_bufsz sp) (str_bufs sp);
  core_bytes : bytes_ok (storage sp);
  core_nbufs : str_nbufs sp = length (str_bufs sp);
  core_ptr : S (fst (str_ptr sp)) = str_nbufs sp;
  core_off : (0 < snd (str_ptr sp) <= str_bufsz sp)%nat
}.

Lemma storage_length sp : core sp → length (storage sp) = (str_nbufs sp * str_bufsz sp)%nat.
Proof. intros H. rewrite (core_nbufs _ H). apply concat_length, H. Qed.

Lemma contents_length sp : core sp → length (contents sp) = pos sp (str_ptr sp).
Proof.
  intros H. unfold contents. rewrite length_take, storage_length by done.
  pose proof (core_ptr _ H). pose proof (core_off _ H). unfold pos. nia.
Qed.

(** ** dt_strtab_compare *)

Lemma u8_byte c : byte c → u8 c = c.
Proof. intros. apply wrap_id. unfold urange. unfold byte in *. lia. Qed.

Lemma s8_inj c d : byte c → byte d → s8 c - s8 d = 0 → c = d.
Proof. unfold byte, swrap. intros. lia. Qed.

Lemma strncmp_zero f g i n j :
  strncmp f g i n = 0 → (i <= j < i + n)%nat → (∀ k, (i <= k < j)%nat → u8 (f k) ≠ 0) →
  u8 (f j) = u8 (g j).
Proof.
  revert i. induction n as [|n IH]; intros i; simpl; [lia|].
  destruct (Z.eqb_spec (u8 (f i) - u8 (g i)) 0); simpl; [|done].
  intros H Hj Hk. destruct (decide (i = j)) as [->|]; [lia|].
  destruct (Z.eqb_spec (u8 (f i)) 0) as [E|]; [by specialize (Hk i ltac:(lia))|].
  apply IH with (S i); [done|lia|]. intros k ?. apply Hk. lia.
Qed.

Lemma strncmp_same f g i n z :
  (i <= z < i + n)%nat → (∀ k, (i <= k <= z)%nat → f k = g k) → f z = 0 → strncmp f g i n = 0.
Proof.
  revert i. induction n as [|n IH]; intros i Hi Heq Hz; simpl; [done|].
  rewrite (Heq i) by lia. rewrite Z.sub_diag. simpl.
  destruct (Z.eqb_spec (u8 (g i)) 0) as [|Hne]; [done|].
  apply IH; [|intros; apply Heq; lia|done].
  destruct (decide (i = z)) as [->|]; [|lia]. by rewrite <- Heq, Hz in Hne by lia.
Qed.

Section compare_lemmas.
Context (oob : nat → nat → Z) (soob : nat → Z) (sp : dt_strtab).
Hypothesis Hcore : core sp.

Lemma buf_at_storage b i :
  (b < str_nbufs sp)%nat → (i < str_bufsz sp)%nat →
  storage sp !! (b * str_bufsz sp + i)%nat = Some (buf_at oob sp b i).
Proof.
  intros Hb Hi. unfold storage. rewrite (core_nbufs _ Hcore) in Hb.
  rewrite concat_lookup by (done || apply Hcore). unfold buf_at.
  destruct (lookup_lt_is_Some_2 _ _ Hb) as [c Hc]. rewrite Hc. simpl.
  assert (i < length c)%nat as Hi' by (by rewrite (proj1 (Forall_lookup _ _) (core_len _ Hcore) _ _ Hc)).
  destruct (lookup_lt_is_Some_2 _ _ Hi') as [x Hx]. by rewrite Hx.
Qed.

Lemma buf_at_byte b i :
  (b < str_nbufs sp)%nat → (i < str_bufsz sp)%nat → byte (buf_at oob sp b i).
Proof.
  intros Hb Hi. eapply (proj1 (Forall_lookup _ _) (core_bytes _ Hcore)).
  by apply buf_at_storage.
Qed.

Lemma str_at_lookup s k : (k < length s)%nat → s !! k = Some (str_at soob s k).
Proof.
  intros Hk. unfold str_at. destruct (lookup_lt_is_Some_2 _ _ Hk) as [x Hx]. by rewrite Hx.
Qed.

(** What the three tests of an iteration establish: the piece of [n] bytes in
    the chunk is the piece of the string. *)
Lemma piece_eq b i s k n :
  (b < str_nbufs sp)%nat → (0 < n)%nat → (i + n <= str_bufsz sp)%nat → (k + n <= length s)%nat →
  bytes_ok s → (∀ j, (j + 1 < n)%nat → str_at soob s (k + j) ≠ 0) →
  s8 (buf_at oob sp b i) - s8 (str_at soob s k) = 0 →
  s8 (buf_at oob sp b (i + 1)) - s8 (str_at soob s (k + 1)) = 0 →
  strncmp (λ j, buf_at oob sp b (i + j)) (λ j, str_at soob s (k + j)) 2 n = 0 →
  ∀ j, (j < n)%nat → buf_at oob sp b (i + j) = str_at soob s (k + j).
Proof.
  intros Hb Hn Hi Hk Hs Hnz H0 H1 H2 j.
  assert (∀ j, (j < n)%nat → byte (str_at soob s (k + j))) as Hsb.
  { intros j' ?. eapply (proj1 (Forall_lookup _ _) Hs), str_at_lookup. lia. }
  assert (∀ j, (j < n)%nat → byte (buf_at oob sp b (i + j))) as Hbb.
  { intros j' ?. apply buf_at_byte; lia. }
  induction (lt_wf j) as [j _ IH]. intros Hj.
  destruct (decide (j = 0%nat)) as [->|].
  { rewrite !Nat.add_0_r. apply s8_inj; [apply buf_at_byte; lia| |done].
    specialize (Hsb 0%nat Hn). by rewrite Nat.add_0_r in Hsb. }
  destruct (decide (j = 1%nat)) as [->|]; [apply s8_inj; auto|].
  rewrite <- (u8_byte (buf_at _ _ _ _)), <- (u8_byte (str_at _ _ _)) by auto.
  apply (strncmp_zero (λ j, buf_at oob sp b (i + j)) (λ j, str_at soob s (k + j)) 2 n j H2); [lia|].
  intros l Hl. rewrite u8_byte by (apply Hbb; lia). rewrite IH by lia. apply Hnz. lia.
Qed.

Lemma piece_take b i s k n :
  (b < str_nbufs sp)%nat → (i + n <= str_bufsz sp)%nat → (k + n <= length s)%nat →
  (∀ j, (j < n)%nat → buf_at oob sp b (i + j) = str_at soob s (k + j)) →
  take n (drop (pos sp (b, i)) (storage sp)) = take n (drop k s).
Proof.
  intros Hb Hi Hk Heq. apply list_eq. intros j.
  destruct (decide (j < n)%nat); [|by rewrite !lookup_take_ge by lia].
  rewrite !lookup_take_lt, !lookup_drop by lia. unfold pos. simpl.
  rewrite <- Nat.add_assoc, buf_at_storage, str_at_lookup by lia. by rewrite Heq.
Qed.

Lemma cstring_lookup s j c : cstring s → (s ++ [0]) !! j = Some c → (j < length s)%nat → c ≠ 0.
Proof.
  intros Hs Hc Hj. rewrite lookup_app_l in Hc by done.
  apply (proj1 (Forall_lookup _ _) Hs) in Hc. tauto.
Qed.

Lemma cstring_nul_inj s t r r' : cstring s → cstring t → s ++ 0 :: r = t ++ 0 :: r' → s = t.
Proof.
  intros Hs Ht E. apply (f_equal cstr) in E. rewrite !cstr_app in E by done. by simplify_eq.
Qed.

Lemma cstring_bytes s : cstring s → bytes_ok (s ++ [0]).
Proof.
  intros Hs. apply Forall_app. split; [|apply Forall_singleton; done].
  eapply Forall_impl; [exact Hs|]. by intros c [? _].
Qed.

Lemma piece_prefix t u rest n :
  cstring t → cstring u → (n <= length u)%nat →
  take n (t ++ 0 :: rest) = take n (u ++ [0]) → (n <= length t)%nat ∧ take n t = take n u.
Proof.
  intros Ht Hu Hn E. rewrite (take_app_le u) in E by done.
  assert (n <= length t)%nat as Hnt; [|by rewrite take_app_le in E].
  destruct (decide (n <= length t)%nat) as [|Hlt]; [done|]. exfalso.
  apply (f_equal (.!! length t)) in E.
  rewrite !lookup_take_lt, lookup_app_r, Nat.sub_diag in E by lia. symmetry in E. simpl in E.
  apply (proj1 (Forall_lookup _ _) Hu) in E. tauto.
Qed.

(** The next chunk, when the piece ends with this one. *)
Definition hop (b i : nat) : option (nat * nat) :=
  if decide (i = str_bufsz sp) then _ ← str_bufs sp !! S b; Some (S b, O) else Some (b, i).

Lemma hop_spec b i c :
  (i <= str_bufsz sp)%nat → storage sp !! pos sp (b, i) = Some c →
  ∃ b' i', hop b i = Some (b', i') ∧ pos sp (b', i') = pos sp (b, i) ∧
    (b' < str_nbufs sp)%nat ∧ (i' < str_bufsz sp)%nat.
Proof.
  intros Hi Hc%lookup_lt_Some. rewrite storage_length in Hc by done.
  pose proof (core_bufsz _ Hcore). unfold hop, pos in *. simpl in *. case_decide; simpl.
  - destruct (lookup_lt_is_Some_2 (str_bufs sp) (S b)) as [d Hd].
    { rewrite <- (core_nbufs _ Hcore). nia. }
    rewrite Hd. simpl. do 2 eexists. split; [done|]. simpl. nia.
  - do 2 eexists. split; [done|]. split; [done|]. nia.
Qed.

Lemma compare_loop_S fuel b i s k len :
  (0 < len)%nat →
  compare_loop oob soob (S fuel) sp b i s k len =
  '(b, i) ← hop b i;
  let n := Nat.min (str_bufsz sp - i) len in
  let rv := s8 (buf_at oob sp b i) - s8 (str_at soob s k) in
  if negb (rv =? 0) then Some rv else
  let rv := s8 (buf_at oob sp b (i + 1)) - s8 (str_at soob s (k + 1)) in
  if negb (rv =? 0) then Some rv else
  let rv := strncmp (λ j, buf_at oob sp b (i + j)) (λ j, str_at soob s (k + j)) 2 n in
  if negb (rv =? 0) then Some rv else
  compare_loop oob soob fuel sp b (i + n) s (k + n) (len - n).
Proof. by destruct len; [lia|]. Qed.

(** The comparison of [u] with the string [t] stored at the pointer terminates,
    and finds a difference unless they are the same string. *)
Lemma compare_sound fuel b i s k u t :
  cstring u → cstring t → bytes_ok s → drop k s = u ++ [0] →
  (i <= str_bufsz sp)%nat → t ++ [0] `prefix_of` drop (pos sp (b, i)) (storage sp) →
  (length u + 1 <= fuel)%nat →
  ∃ rv, compare_loop oob soob fuel sp b i s k (length u + 1) = Some rv ∧ (rv = 0 → t = u).
Proof.
  revert b i k u t. induction fuel as [|fuel IH]; intros b i k u t Hu Ht Hs Hdrop Hi [rest Hrest] Hf;
    [lia|].
  assert (k + (length u + 1) = length s)%nat as Hlen.
  { apply (f_equal length) in Hdrop. rewrite length_drop, length_app in Hdrop. simpl in Hdrop. lia. }
  rewrite compare_loop_S by lia.
  destruct (hop_spec b i (default 0 ((t ++ [0]) !! 0%nat))) as (b' & i' & -> & Hpos & Hb' & Hi'); [done| |].
  { replace (pos sp (b, i)) with (pos sp (b, i) + 0)%nat by lia. rewrite <- lookup_drop, Hrest.
    by destruct t. }
  cbn [mbind option_bind]. cbv zeta. rewrite <- Hpos in Hrest. clear Hpos Hi b i.
  set (n := Nat.min _ _). assert (0 < n <= length u + 1)%nat as Hn by lia.
  case (Z.eqb_spec (s8 (buf_at _ _ _ _) - _) 0); simpl; [intros H0|eauto with lia].
  case (Z.eqb_spec (s8 (buf_at _ _ _ _) - _) 0); simpl; [intros H1|eauto with lia].
  case (Z.eqb_spec (strncmp _ _ _ _) 0); simpl; [intros H2|eauto with lia].
  assert (take n (drop (pos sp (b', i')) (storage sp)) = take n (drop k s)) as Hpiece.
  { apply piece_take; [lia..|]. apply piece_eq; try done; try lia.
    intros j Hj. apply (cstring_lookup u j); [done| |lia].
    rewrite <- Hdrop, lookup_drop. apply str_at_lookup. lia. }
  rewrite Hrest, Hdrop, <- app_assoc in Hpiece. simpl in Hpiece.
  destruct (decide (n = length u + 1)%nat) as [En|].
  - eexists. split; [by rewrite En, Nat.sub_diag; destruct fuel|]. intros _.
    rewrite (take_ge (u ++ [0])) in Hpiece by (rewrite length_app; simpl; lia).
    apply (cstring_nul_inj t u rest (drop n (t ++ 0 :: rest))); [done..|].
    rewrite <- (take_drop n (t ++ 0 :: rest)) at 1. by rewrite Hpiece, <- app_assoc.
  - destruct (piece_prefix t u rest n) as [Hnt Htake]; [done|done|lia|done|].
    replace (length u + 1 - n)%nat with (length (drop n u) + 1)%nat by (rewrite length_drop; lia).
    destruct (IH b' (i' + n)%nat (k + n)%nat (drop n u) (drop n t)) as (rv & -> & Hrv).
    + by apply Forall_drop.
    + by apply Forall_drop.
    + done.
    + rewrite <- drop_drop, Hdrop, drop_app_le by lia. done.
    + lia.
    + exists rest. unfold pos in *. simpl in *. rewrite Nat.add_assoc, <- drop_drop, Hrest.
      by rewrite <- !app_assoc, drop_app_le by lia.
    + rewrite length_drop. lia.
    + exists rv. split; [done|]. intros E. rewrite <- (take_drop n t), <- (take_drop n u).
      by rewrite Htake, Hrv.
Qed.

(** A string of two bytes or more that is stored within one chunk compares
    equal to itself, whatever lies outside the chunk and the string. *)
Lemma compare_complete b i t :
  cstring t → (2 <= length t)%nat → (b < str_nbufs sp)%nat →
  (i + length t + 1 <= str_bufsz sp)%nat →
  t ++ [0] `prefix_of` drop (pos sp (b, i)) (storage sp) →
  compare_loop oob soob (length t + 1) sp b i (t ++ [0]) 0 (length t + 1) = Some 0.
Proof.
  intros Ht H2 Hb Hi [rest Hrest]. rewrite Nat.add_1_r at 1. rewrite compare_loop_S by lia.
  unfold hop. rewrite decide_False by lia. cbn [mbind option_bind]. cbv zeta.
  replace (Nat.min (str_bufsz sp - i) (length t + 1)) with (length t + 1)%nat by lia.
  assert (∀ j, (j <= length t)%nat → buf_at oob sp b (i + j) = str_at soob (t ++ [0]) j) as Heq.
  { intros j Hj. assert (Some (buf_at oob sp b (i + j)) = Some (str_at soob (t ++ [0]) j)); [|congruence].
    rewrite <- str_at_lookup by (rewrite length_app; simpl; lia).
    rewrite <- buf_at_storage by lia.
    replace (b * str_bufsz sp + (i + j))%nat with (pos sp (b, i) + j)%nat by (unfold pos; simpl; lia).
    rewrite <- lookup_drop, Hrest. apply lookup_app_l. rewrite length_app. simpl. lia. }
  rewrite <- (Nat.add_0_r i) at 1. rewrite !Heq by lia. simpl. rewrite !Z.sub_diag. simpl.
  rewrite (strncmp_same _ _ 2 _ (length t)); simpl.
  - rewrite Nat.sub_diag. by destruct (length t).
  - lia.
  - intros k Hk. apply Heq. lia.
  - rewrite Heq by lia. unfold str_at. by rewrite lookup_app_r, Nat.sub_diag by lia.
Qed.

End compare_lemmas.

(** ** dt_strtab_copyin *)

Section copyin_lemmas.
Context (mem : chunks).

(** The allocator returns blocks of the size asked for. *)
Definition mem_ok (sz : nat) : Prop := ∀ n c, mem n = Some c → length c = sz ∧ bytes_ok c.

(** Everything but the storage. *)
Definition same_rest (sp sp' : dt_strtab) : Prop :=
  str_hash sp' = str_hash sp ∧ str_hashsz sp' = str_hashsz sp ∧ str_bufsz sp' = str_bufsz sp ∧
  str_nstrs sp' = str_nstrs sp ∧ str_size sp' = str_size sp.

Lemma storage_snoc (init : list (list Z)) c c' : concat (<[length init := c']> (init ++ [c])) = concat init ++ c'.
Proof.
  rewrite <- (Nat.add_0_r (length init)), insert_app_r. simpl. rewrite concat_app. simpl.
  by rewrite app_nil_r.
Qed.

(** One piece copied to offset [o] of the last chunk. *)
Lemma put_piece sp init c o s n :
  (0 < str_bufsz sp)%nat → str_bufs sp = init ++ [c] → str_nbufs sp = S (length init) →
  Forall (λ c, length c = str_bufsz sp) (init ++ [c]) → bytes_ok (concat (init ++ [c])) →
  bytes_ok s → (0 < n <= length s)%nat → (o + n <= str_bufsz sp)%nat →
  let b := length init in
  ∃ c', memcpy c o s n = Some c' ∧
    let sp' := set_bufs sp (<[b := c']> (str_bufs sp)) (b, (o + n)%nat) (str_nbufs sp) in
    core sp' ∧ contents sp' = take (pos sp (b, o)) (storage sp) ++ take n s.
Proof.
  intros Hsz Hbufs Hnb Hlens Hbytes Hs Hn Ho b. subst b.
  pose proof (proj1 (Forall_app _ _ _) Hlens) as [Hinit Hc].
  rewrite Forall_singleton in Hc. rewrite concat_app in Hbytes. simpl in Hbytes.
  rewrite app_nil_r in Hbytes. apply Forall_app in Hbytes as [Hbi Hbc].
  assert (length (concat init) = length init * str_bufsz sp)%nat as Hli by by apply concat_length.
  unfold memcpy. rewrite decide_True by lia. set (c' := take o c ++ _).
  assert (length c' = str_bufsz sp) as Hc'.
  { unfold c'. rewrite !length_app, !length_take, length_drop. lia. }
  exists c'. split; [done|]. cbv zeta. split.
  - split; unfold storage; cbn [set_bufs str_bufsz str_bufs str_nbufs str_ptr fst snd].
    + done.
    + rewrite Hbufs. apply Forall_insert; [done|done].
    + rewrite Hbufs, storage_snoc. apply Forall_app. split; [done|].
      unfold c'. rewrite !Forall_app. split_and!; [by apply Forall_take..|by apply Forall_drop].
    + rewrite length_insert, Hbufs, length_app. simpl. lia.
    + lia.
    + lia.
  - unfold contents, storage, pos. cbn [set_bufs str_bufsz str_bufs str_nbufs str_ptr fst snd].
    rewrite Hbufs, storage_snoc, concat_app. simpl. rewrite app_nil_r, <- Hli.
    rewrite !take_app_add, <- app_assoc. f_equal. unfold c'.
    rewrite app_assoc, take_app_length'; [done|]. rewrite length_app, !length_take. lia.
Qed.

Lemma core_last sp :
  core sp → ∃ init c, str_bufs sp = init ++ [c] ∧ str_nbufs sp = S (length init) ∧
    fst (str_ptr sp) = length init.
Proof.
  intros H. destruct (exists_last (l := str_bufs sp)) as (init & c & E).
  { intros E. pose proof (core_nbufs _ H) as Hn. pose proof (core_ptr _ H). rewrite E in Hn. simpl in Hn. lia. }
  exists init, c. pose proof (core_nbufs _ H) as Hn. pose proof (core_ptr _ H).
  rewrite E, length_app in Hn. simpl in Hn. split_and!; [done|lia..].
Qed.

(** The start of an iteration: a new chunk when the current one is full. *)
Definition prepare (sp : dt_strtab) : Z * dt_strtab * nat :=
  let b := (str_nbufs sp - 1)%nat in
  let full := bool_decide (str_ptr sp = (b, str_bufsz sp)) in
  (if full then dt_strtab_grow mem sp else (0, sp), if full then S b else b).

Record room (sp : dt_strtab) (init : list (list Z)) (c : list Z) : Prop := {
  room_bufs : str_bufs sp = init ++ [c];
  room_nbufs : str_nbufs sp = S (length init);
  room_len : Forall (λ c, length c = str_bufsz sp) (init ++ [c]);
  room_bytes : bytes_ok (concat (init ++ [c]));
  room_ptr : fst (str_ptr sp) = length init ∧ (snd (str_ptr sp) < str_bufsz sp)%nat
}.

Lemma prepare_spec sp :
  core sp → mem_ok (str_bufsz sp) →
  (∃ b n, prepare sp = ((-1, sp), b) ∧ mem n = None) ∨
  (∃ sp' init c, prepare sp = ((0, sp'), length init) ∧ room sp' init c ∧ same_rest sp sp' ∧
    take (pos sp' (str_ptr sp')) (storage sp') = contents sp ∧ (str_nbufs sp <= str_nbufs sp')%nat).
Proof.
  intros Hc Hm. destruct (core_last sp Hc) as (init & c & Hbufs & Hnb & Hfst).
  pose proof (core_len _ Hc) as Hlen. pose proof (core_bytes _ Hc) as Hby.
  pose proof (core_off _ Hc) as Hoff. unfold storage in Hby. rewrite Hbufs in Hlen, Hby.
  unfold prepare. rewrite Hnb. replace (S (length init) - 1)%nat with (length init) by lia.
  case_bool_decide as Hfull.
  - unfold dt_strtab_grow. destruct (mem (str_nbufs sp)) as [c'|] eqn:Emem; [|eauto].
    right. destruct (Hm _ _ Emem) as [Hlc Hbc].
    eexists _, (init ++ [c]), c'. split; [by rewrite length_app; simpl; rewrite Nat.add_1_r|].
    split; [split; simpl; rewrite ?Hbufs, ?Hnb, ?length_app; simpl|].
    + done.
    + lia.
    + apply Forall_app. split; [done|]. by apply Forall_singleton.
    + rewrite concat_app. unfold bytes_ok. rewrite Forall_app. simpl. by rewrite app_nil_r.
    + split; [lia|]. apply Hc.
    + split; [done|]. split; [|simpl; lia].
      unfold contents, storage, pos. simpl. rewrite Hfull, Hbufs, Hnb. simpl.
      rewrite (concat_app (init ++ [c])), take_app_le.
      * f_equal. lia.
      * rewrite (concat_length _ (str_bufsz sp)) by done. rewrite length_app. simpl. lia.
  - right. exists sp, init, c. split; [done|]. split; [|repeat split; lia]. split; try done.
    split; [done|]. destruct (decide (snd (str_ptr sp) = str_bufsz sp)) as [E|]; [|lia].
    destruct Hfull. rewrite <- Hfst, <- E. by destruct (str_ptr sp).
Qed.

Lemma copyin_loop_S fuel sp s :
  (0 < length s)%nat →
  copyin_loop mem (S fuel) sp (str_nbufs sp - 1) s =
  let '((rc, sp'), b) := prepare sp in
  if rc =? -1 then Some (false, sp')
  else
    let o := snd (str_ptr sp') in
    let n := Nat.min (str_bufsz sp' - o) (length s) in
    c ← str_bufs sp' !! b;
    c ← memcpy c o s n;
    copyin_loop mem fuel (set_bufs sp' (<[b := c]> (str_bufs sp')) (b, (o + n)%nat) (str_nbufs sp')) b
      (drop n s).
Proof.
  intros Hs. destruct s as [|x s]; [simpl in Hs; lia|]. unfold prepare.
  cbn [copyin_loop]. by destruct (bool_decide _); [destruct (dt_strtab_grow mem sp)|].
Qed.

Lemma copyin_loop_spec fuel sp s :
  core sp → mem_ok (str_bufsz sp) → bytes_ok s → (length s <= fuel)%nat →
  ∃ ok sp' d, copyin_loop mem fuel sp (str_nbufs sp - 1) s = Some (ok, sp') ∧
    core sp' ∧ same_rest sp sp' ∧ contents sp' = contents sp ++ d ∧
    (if (ok : bool) then d = s else ∃ n, mem n = None) ∧ (str_nbufs sp <= str_nbufs sp')%nat.
Proof.
  revert sp s. induction fuel as [|fuel IH]; intros sp s Hc Hm Hs Hf;
    (destruct (decide (s = [])) as [->|Hne];
      [by exists true, sp, []; rewrite app_nil_r|]);
    (assert (0 < length s)%nat by (destruct s; simpl; [done|lia])).
  { lia. }
  rewrite copyin_loop_S by lia.
  destruct (prepare_spec sp Hc Hm) as [(b & n & -> & Hn)|(sp1 & init & c & -> & Hr & Hrest & Htake & Hnb)].
  { exists false, sp, []. rewrite app_nil_r. split_and!; eauto. done. }
  destruct Hrest as (Hr1 & Hr2 & Hr3 & Hr4 & Hr5).
  cbn [Z.eqb]. cbv zeta. destruct Hr as [Hb1 Hn1 Hl1 Hy1 [Hp1 Ho1]].
  set (n := Nat.min _ _).
  assert (str_bufs sp1 !! length init = Some c) as -> by (rewrite Hb1; by apply list_lookup_middle).
  destruct (put_piece sp1 init c (snd (str_ptr sp1)) s n) as (c' & Hput & Hcore' & Hcont);
    [first [done | lia | rewrite Hr3; apply Hc]..|].
  cbn [mbind option_bind]. rewrite Hput. cbn [mbind option_bind].
  set (sp2 := set_bufs _ _ _ _) in *.
  destruct (IH sp2 (drop n s)) as (ok & sp' & d & Hloop & Hc' & Hs' & Hd & Hok & Hnb').
  { done. } { by unfold sp2; simpl; rewrite Hr3. } { by apply Forall_drop. } { rewrite length_drop. lia. }
  replace (length init) with (str_nbufs sp2 - 1)%nat by (simpl; lia). rewrite Hloop.
  exists ok, sp', (take n s ++ d). split; [done|]. split; [done|].
  split; [unfold same_rest in *; simpl in *; destruct_and!; split_and!; congruence|].
  split.
  { rewrite Hd, Hcont, <- Hp1, <- surjective_pairing, Htake. by rewrite app_assoc. }
  split; [destruct ok; [by rewrite Hok, take_drop|done]|]. simpl in Hnb'. lia.
Qed.

(** [dt_strtab_copyin] appends all of the string or nothing of it. *)
Lemma copyin_spec sp s :
  core sp → mem_ok (str_bufsz sp) → bytes_ok s →
  ∃ rc sp', dt_strtab_copyin mem sp s = Some (rc, sp') ∧ core sp' ∧ same_rest sp sp' ∧
    (rc = 0 ∧ contents sp' = contents sp ++ s ∨
     rc = -1 ∧ contents sp' = contents sp ∧ str_ptr sp' = str_ptr sp ∧
     str_nbufs sp' = str_nbufs sp ∧ ∃ n, mem n = None).
Proof.
  intros Hc Hm Hs. unfold dt_strtab_copyin.
  destruct (copyin_loop_spec (length s) sp s Hc Hm Hs) as
    (ok & sp' & d & -> & Hc' & Hrest & Hcont & Hok & Hnb); [done|].
  cbn [mbind option_bind]. destruct ok; [do 2 eexists; split_and!; eauto; naive_solver|].
  assert (str_bufsz sp' = str_bufsz sp) as Hsz by apply Hrest.
  do 2 eexists. split; [done|].
  assert (Forall (λ c, length c = str_bufsz sp) (take (str_nbufs sp) (str_bufs sp'))) as Hlen.
  { rewrite <- Hsz. apply Forall_take, Hc'. }
  split; [split; unfold storage; simpl; rewrite ?Hsz; try apply Hc; try done|].
  - rewrite <- (take_concat _ (str_bufsz sp')) by apply Hc'. apply Forall_take, Hc'.
  - rewrite length_take, <- (core_nbufs _ Hc'). lia.
  - split; [done|]. right. split_and!; try done.
    unfold contents, storage, pos. simpl. rewrite Hsz.
    rewrite <- (take_concat _ (str_bufsz sp)), take_take by (rewrite <- Hsz; apply Hc').
    assert (pos sp (str_ptr sp) <= str_nbufs sp * str_bufsz sp)%nat as Hle.
    { rewrite <- storage_length by done. rewrite <- contents_length by done.
      unfold contents. rewrite length_take. lia. }
    unfold pos in Hle. rewrite Nat.min_l by done. fold (pos sp (str_ptr sp)).
    fold (storage sp') (storage sp) (contents sp).
    assert (take (pos sp (str_ptr sp)) (contents sp') = contents sp) as <-.
    { rewrite Hcont. apply take_app_length'. symmetry. by apply contents_length. }
    unfold contents. rewrite take_take, Nat.min_l; [done|].
    apply (f_equal length) in Hcont. rewrite length_app, !contents_length in Hcont by done. lia.
Qed.
End copyin_lemmas.

(** ** The table *)

(** The string [s] is stored, with its NUL, at offset [off]. *)
Definition stored (sp : dt_strtab) (off : Z) (s : list Z) : Prop :=
  0 <= off ∧ s ++ [0] `prefix_of` drop (Z.to_nat off) (contents sp).

(** [hp] is an entry for the string [t]. *)
Record entry (sp : dt_strtab) (hp : dt_strhash) (t : list Z) : Prop := {
  entry_str : cstring t;
  entry_len : str_len hp = length t;
  entry_buf : fst (str_data hp) = str_buf hp;
  entry_data : (snd (str_data hp) <= str_bufsz sp)%nat;
  entry_off : str_off hp = Z.of_nat (pos sp (str_data hp));
  entry_stored : stored sp (str_off hp) t
}.

Record wf (sp : dt_strtab) : Prop := {
  wf_core : core sp;
  wf_hashsz : str_hashsz sp = length (str_hash sp);
  wf_hashpos : (0 < str_hashsz sp)%nat;
  wf_size : str_size sp = Z.of_nat (length (contents sp));
  wf_bound : str_size sp < 2 ^ 63;
  wf_empty : stored sp 0 [];
  wf_hash : ∀ h chain hp, str_hash sp !! h = Some chain → hp ∈ chain →
    ∃ t, t ≠ [] ∧ hash_of sp t = h ∧ entry sp hp t
}.

Lemma stored_mono sp sp' off s :
  contents sp `prefix_of` contents sp' → stored sp off s → stored sp' off s.
Proof.
  intros [d Hd] [Hoff [r Hr]]. split; [done|].
  destruct (decide (Z.to_nat off <= length (contents sp))%nat).
  - exists (r ++ d). rewrite Hd, drop_app_le, Hr by done. by rewrite <- !app_assoc.
  - rewrite drop_ge in Hr by lia. by destruct s.
Qed.

Lemma stored_bound sp off s :
  stored sp off s → off + Z.of_nat (length s) + 1 <= Z.of_nat (length (contents sp)).
Proof.
  intros [Hoff [r Hr]]. apply (f_equal length) in Hr.
  rewrite length_drop, !length_app in Hr. simpl in Hr. lia.
Qed.

Lemma entry_mono sp sp' hp t :
  contents sp `prefix_of` contents sp' → str_bufsz sp' = str_bufsz sp → entry sp hp t → entry sp' hp t.
Proof.
  intros Hp Hb []. split; try done.
  - by rewrite Hb.
  - unfold pos. by rewrite Hb.
  - by eapply stored_mono.
Qed.

Lemma stored_storage sp off s :
  stored sp off s → s ++ [0] `prefix_of` drop (Z.to_nat off) (storage sp).
Proof.
  intros [Hoff [r Hr]]. exists (r ++ drop (pos sp (str_ptr sp)) (storage sp)).
  rewrite app_assoc, <- Hr. unfold contents.
  destruct (decide (Z.to_nat off <= length (contents sp))%nat).
  - rewrite <- drop_app_le by done. by unfold contents; rewrite take_drop.
  - rewrite drop_ge in Hr by lia. by destruct s.
Qed.

Section table.
Context (oob : nat → nat → Z) (soob : nat → Z).

Lemma dt_strtab_compare_sound sp hp t s :
  core sp → entry sp hp t → cstring s →
  ∃ rv, dt_strtab_compare oob soob sp hp (s ++ [0]) (length s + 1) = Some rv ∧ (rv = 0 → t = s).
Proof.
  intros Hc [Ht _ Hb Hd Ho Hst] Hs. unfold dt_strtab_compare. rewrite decide_True by done.
  apply compare_sound; try done.
  - by apply cstring_bytes.
  - rewrite <- Hb, <- surjective_pairing. apply stored_storage in Hst.
    by rewrite Ho, Nat2Z.id in Hst.
Qed.

Lemma entry_s64 sp hp t : wf sp → entry sp hp t → s64 (str_off hp) = str_off hp.
Proof.
  intros Hwf He. apply swrap_id; [lia|]. pose proof (entry_stored _ _ _ He) as Hst.
  pose proof (stored_bound _ _ _ Hst). pose proof (wf_bound _ Hwf). pose proof (wf_size _ Hwf).
  destruct Hst. unfold srange. change (64 - 1) with 63. lia.
Qed.

(** A search gives -1 or an offset where the string is. *)
Lemma xindex_sound sp s h chain :
  wf sp → cstring s → str_hash sp !! h = Some chain →
  ∃ r, xindex_loop oob soob sp chain (s ++ [0]) (length s) = Some r ∧ (r = -1 ∨ stored sp r s).
Proof.
  intros Hwf Hs Hh. assert (∀ hp, hp ∈ chain → ∃ t, entry sp hp t) as Hall.
  { intros hp Hin. destruct (wf_hash _ Hwf _ _ _ Hh Hin) as (t & _ & _ & ?). eauto. }
  clear Hh. induction chain as [|hp chain IH]; simpl; [eauto|].
  destruct (Hall hp) as [t Ht]; [by left|].
  destruct (dt_strtab_compare_sound sp hp t s) as (rv & -> & Hrv); [apply Hwf|done..|].
  cbn [mbind option_bind]. destruct (Z.eqb_spec rv 0) as [E|_].
  - eexists. split; [done|]. right. rewrite (entry_s64 _ _ t) by done.
    rewrite <- (Hrv E). apply Ht.
  - apply IH. intros hp' ?. apply Hall. by right.
Qed.

(** An entry whose string has two bytes or more and lies in one chunk. *)
Definition findable (sp : dt_strtab) (s : list Z) : Prop :=
  ∃ chain hp, str_hash sp !! hash_of sp s = Some chain ∧ hp ∈ chain ∧ entry sp hp s ∧
    (snd (str_data hp) + length s + 1 <= str_bufsz sp)%nat.

Lemma entry_nbufs sp hp s :
  core sp → entry sp hp s → (str_buf hp < str_nbufs sp)%nat ∨ snd (str_data hp) = str_bufsz sp.
Proof.
  intros Hc [_ _ Hb Hd Ho Hst]. apply stored_bound in Hst. rewrite Ho in Hst.
  rewrite contents_length in Hst by done. unfold pos in Hst. rewrite Hb in Hst.
  pose proof (core_ptr _ Hc). pose proof (core_off _ Hc).
  destruct (decide (str_buf hp < str_nbufs sp)%nat); [by left|right].
  assert (str_nbufs sp * str_bufsz sp <= str_buf hp * str_bufsz sp)%nat by (apply Nat.mul_le_mono_r; lia).
  assert (fst (str_ptr sp) * str_bufsz sp + str_bufsz sp = str_nbufs sp * str_bufsz sp)%nat by nia.
  lia.
Qed.

Lemma findable_compare sp hp s :
  wf sp → entry sp hp s → (2 <= length s)%nat →
  (snd (str_data hp) + length s + 1 <= str_bufsz sp)%nat →
  dt_strtab_compare oob soob sp hp (s ++ [0]) (length s + 1) = Some 0.
Proof.
  intros Hwf He Hlen Hfit. destruct (entry_nbufs _ _ _ (wf_core _ Hwf) He) as [Hbuf|]; [|lia].
  destruct He as [Ht _ Hb Hd Ho Hst]. unfold dt_strtab_compare. rewrite decide_True by done.
  apply compare_complete; try done; [apply Hwf|].
  rewrite <- Hb, <- surjective_pairing. apply stored_storage in Hst. by rewrite Ho, Nat2Z.id in Hst.
Qed.

Lemma xindex_complete sp s :
  wf sp → cstring s → (2 <= length s)%nat → findable sp s →
  ∃ r, dt_strtab_xindex oob soob sp (s ++ [0]) (length s) (hash_of sp s) = Some r ∧ stored sp r s.
Proof.
  intros Hwf Hs Hlen (chain & hp & Hh & Hin & He & Hfit). unfold dt_strtab_xindex.
  rewrite Hh. cbn [mbind option_bind].
  destruct (xindex_sound sp s _ _ Hwf Hs Hh) as (r & Hr & [->|Hst]); [|eauto].
  exfalso. pose proof (findable_compare sp hp s Hwf He Hlen Hfit) as Hcmp.
  assert (∀ hp, hp ∈ chain → ∃ t, entry sp hp t) as Hall.
  { intros hp' Hin'. destruct (wf_hash _ Hwf _ _ _ Hh Hin') as (t & _ & _ & ?). eauto. }
  clear Hh. induction chain as [|hp' chain IH]; [by apply elem_of_nil in Hin|].
  simpl in Hr. destruct (Hall hp') as [t Ht]; [by left|].
  destruct (dt_strtab_compare_sound sp hp' t s) as (rv & Erv & _); [apply Hwf|done..|].
  rewrite Erv in Hr. cbn [mbind option_bind] in Hr. destruct (Z.eqb_spec rv 0).
  - rewrite (entry_s64 _ _ t) in Hr by done. destruct (entry_stored _ _ _ Ht). injection Hr. lia.
  - apply elem_of_cons in Hin as [->|Hin]; [congruence|].
    apply IH; [done|done|]. intros hp'' ?. apply Hall. by right.
Qed.

Lemma hash_of_lt sp s : wf sp → (hash_of sp s < length (str_hash sp))%nat.
Proof.
  intros Hwf. unfold hash_of. pose proof (wf_hashpos _ Hwf). rewrite <- (wf_hashsz _ Hwf).
  pose proof (Z.mod_pos_bound (str2hval (Some s) (u32 (Z.of_nat (length s)))) (Z.of_nat (str_hashsz sp))).
  set (m := _ mod _) in *. clearbody m. lia.
Qed.

(** A table with the same entries and more contents. *)
Lemma wf_extend sp sp' :
  wf sp → core sp' → str_hash sp' = str_hash sp → str_hashsz sp' = str_hashsz sp →
  str_bufsz sp' = str_bufsz sp → contents sp' = contents sp → str_size sp' = str_size sp → wf sp'.
Proof.
  intros Hwf Hc Hh Hhs Hb Hcont Hsz.
  assert (contents sp `prefix_of` contents sp') as Hpre by by rewrite Hcont.
  split; [done|..]; rewrite ?Hh, ?Hhs, ?Hcont, ?Hsz; try apply Hwf.
  - eapply stored_mono; [done|apply Hwf].
  - intros h chain hp H1 H2. destruct (wf_hash _ Hwf _ _ _ H1 H2) as (t & ? & <- & ?).
    exists t. split; [done|]. split; [unfold hash_of; by rewrite Hhs|]. by eapply entry_mono.
Qed.

(** Prepending the new entry to its chain. *)
Lemma wf_insert sp sp1 s chain :
  let h := hash_of sp s in
  let hp := mk_strhash (str_ptr sp) (str_nbufs sp - 1) (str_size sp) (length s) in
  let sp' := mk_strtab (<[h := hp :: chain]> (str_hash sp1)) (str_hashsz sp1) (str_bufs sp1)
    (str_ptr sp1) (str_nbufs sp1) (str_bufsz sp1) (u64 (str_nstrs sp1 + 1))
    (u64 (str_size sp1 + Z.of_nat (length s) + 1)) in
  wf sp → cstring s → s ≠ [] → str_size sp + Z.of_nat (length s) + 1 < 2 ^ 63 →
  core sp1 → same_rest sp sp1 → contents sp1 = contents sp ++ s ++ [0] →
  str_hash sp !! h = Some chain →
  wf sp' ∧ entry sp' hp s ∧ contents sp' = contents sp1.
Proof.
  intros h hp sp' Hwf Hs Hne Hbnd Hc (Hr1 & Hr2 & Hr3 & Hr4 & Hr5) Hcont Hh.
  assert (contents sp' = contents sp1) as Hcont' by done.
  assert (contents sp `prefix_of` contents sp') as Hpre by (rewrite Hcont', Hcont; by eexists).
  pose proof (wf_size _ Hwf) as Hsize. pose proof (hash_of_lt sp s Hwf) as Hlt.
  pose proof (core_ptr _ (wf_core _ Hwf)) as Hptr. pose proof (core_off _ (wf_core _ Hwf)) as Hoff.
  assert (entry sp' hp s) as He.
  { split; simpl; try done; [lia|rewrite Hr3; lia| |].
    - rewrite Hsize, contents_length by apply Hwf. unfold pos. simpl. by rewrite Hr3.
    - split; [lia|]. rewrite Hcont', Hcont, Hsize, Nat2Z.id, drop_app_length. done. }
  split; [|done]. split; simpl.
  - by destruct Hc.
  - by rewrite length_insert, Hr2, Hr1, (wf_hashsz _ Hwf).
  - rewrite Hr2. apply Hwf.
  - rewrite Hcont', Hcont, !length_app, Hr5. simpl. rewrite wrap_id by (unfold urange; lia). lia.
  - rewrite Hr5, wrap_id by (unfold urange; lia). done.
  - eapply stored_mono; [done|apply Hwf].
  - intros h' chain' hp' H1 H2. rewrite Hr1 in H1. fold h in Hlt.
    assert (∀ t, hash_of sp' t = hash_of sp t) as Hho by (intros; unfold hash_of; simpl; by rewrite Hr2).
    assert (hp' = hp ∧ h' = h ∨ ∃ c, str_hash sp !! h' = Some c ∧ hp' ∈ c) as [[-> ->]|(c & Hc' & Hin)].
    { rewrite list_lookup_insert_case in H1 by done. case_decide; [|eauto]. simplify_eq.
      apply elem_of_cons in H2 as [->|?]; eauto. }
    + exists s. by rewrite Hho.
    + destruct (wf_hash _ Hwf _ _ _ Hc' Hin) as (t & ? & <- & ?). exists t. rewrite Hho.
      split_and!; try done. by eapply entry_mono.
Qed.

(** What [dt_strtab_insert] does, with the allocations [m1], [m2] and [mem]. *)
Lemma strtab_insert_spec mem m1 m2 sp s :
  wf sp → mem_ok mem (str_bufsz sp) → cstring s →
  str_size sp + Z.of_nat (length s) + 1 < 2 ^ 63 →
  ∃ off sp', dt_strtab_insert oob soob mem m1 m2 sp (Some s) = Some (off, sp') ∧ wf sp' ∧
    str_bufsz sp' = str_bufsz sp ∧
    ((off = -1 ∧ contents sp' = contents sp ∧ (m1 = false ∨ m2 = false ∨ ∃ n, mem n = None)) ∨
     (stored sp off s ∧ sp' = sp) ∨
     (s ≠ [] ∧ off = str_size sp ∧ contents sp' = contents sp ++ s ++ [0] ∧
      ∃ hp chain, str_hash sp' !! hash_of sp' s = Some (hp :: chain) ∧ entry sp' hp s ∧
        str_data hp = str_ptr sp ∧ str_buf hp = (str_nbufs sp - 1)%nat)).
Proof.
  intros Hwf Hm Hs Hbnd. destruct (decide (s = [])) as [->|Hne].
  { exists 0, sp. split; [done|]. split; [done|]. split; [done|]. right. left.
    split; [apply Hwf|done]. }
  assert (dt_strtab_insert oob soob mem m1 m2 sp (Some s) =
    if negb m1 then Some (-1, sp) else
    off ← dt_strtab_xindex oob soob sp (s ++ [0]) (length s) (hash_of sp s);
    if negb (off =? -1) then Some (off, sp) else if negb m2 then Some (-1, sp) else
    '(rc, sp1) ← dt_strtab_copyin mem sp (s ++ [0]);
    if rc =? -1 then Some (-1, sp1) else
    chain ← str_hash sp1 !! hash_of sp s;
    Some (s64 (str_size sp),
      mk_strtab (<[hash_of sp s := mk_strhash (str_ptr sp) (str_nbufs sp - 1) (str_size sp) (length s)
        :: chain]> (str_hash sp1)) (str_hashsz sp1) (str_bufs sp1) (str_ptr sp1) (str_nbufs sp1)
        (str_bufsz sp1) (u64 (str_nstrs sp1 + 1)) (u64 (str_size sp1 + Z.of_nat (length s) + 1)))) as ->.
  { by destruct s. }
  destruct m1; simpl; [|do 2 eexists; split_and!; [done|done|done|left; tauto]].
  unfold dt_strtab_xindex.
  destruct (lookup_lt_is_Some_2 _ _ (hash_of_lt sp s Hwf)) as [chain Hh]. rewrite Hh. simpl.
  destruct (xindex_sound sp s _ _ Hwf Hs Hh) as (r & -> & Hr). simpl.
  destruct (Z.eqb_spec r (-1)) as [->|Hr1]; simpl.
  2:{ destruct Hr as [?|Hr]; [done|]. do 2 eexists. split_and!; [done..|]. right. by left. }
  destruct m2; simpl; [|do 2 eexists; split_and!; [done|done|done|left; tauto]].
  destruct (copyin_spec mem sp (s ++ [0]) (wf_core _ Hwf) Hm (cstring_bytes s Hs))
    as (rc & sp1 & -> & Hc1 & Hrest & [[-> Hcont]|(-> & Hcont & _ & _ & Hmem)]); simpl.
  - rewrite (proj1 Hrest), Hh. simpl. do 2 eexists. split; [done|].
    destruct (wf_insert sp sp1 s chain) as (Hwf' & He & Hcont'); try done.
    rewrite (proj1 Hrest) in Hwf', He, Hcont'. split; [done|].
    split; [apply Hrest|]. right. right. split; [done|].
    assert (str_hashsz sp1 = str_hashsz sp) as Hhs by apply Hrest.
    split; [rewrite swrap_id; unfold srange; try lia; pose proof (wf_size _ Hwf);
      change (64 - 1) with 63; lia|].
    split; [by rewrite Hcont'|]. do 2 eexists. split; [|split; [exact He|done]].
    unfold hash_of. simpl. rewrite Hhs. fold (hash_of sp s).
    apply list_lookup_insert_eq. by apply hash_of_lt.
  - do 2 eexists. split; [done|]. destruct Hrest as (? & ? & ? & ? & ?).
    split; [by eapply wf_extend|]. split; [done|]. left. tauto.
Qed.
End table.

(** Any number of insertions, with any allocations. *)
Inductive inserts : dt_strtab → dt_strtab → Prop :=
  | inserts_refl sp : inserts sp sp
  | inserts_step sp sp1 sp2 oob soob mem m1 m2 s off :
      inserts sp sp1 → mem_ok mem (str_bufsz sp1) → cstring s →
      str_size sp1 + Z.of_nat (length s) + 1 < 2 ^ 63 →
      dt_strtab_insert oob soob mem m1 m2 sp1 (Some s) = Some (off, sp2) → inserts sp sp2.

Lemma insert_keeps oob soob mem m1 m2 sp s off sp' :
  wf sp → mem_ok mem (str_bufsz sp) → cstring s →
  str_size sp + Z.of_nat (length s) + 1 < 2 ^ 63 →
  dt_strtab_insert oob soob mem m1 m2 sp (Some s) = Some (off, sp') →
  wf sp' ∧ contents sp `prefix_of` contents sp' ∧ str_bufsz sp' = str_bufsz sp.
Proof.
  intros Hwf Hm Hs Hb Hi.
  destruct (strtab_insert_spec oob soob mem m1 m2 sp s) as (? & ? & E & Hwf' & Hsz & Hcase); [done..|].
  rewrite E in Hi. simplify_eq. split; [done|]. split; [|done].
  destruct Hcase as [(_ & -> & _)|[[_ ->]|(_ & _ & -> & _)]]; [done|done|by eexists].
Qed.

(** A chain only grows at its front. *)
Lemma insert_chain oob soob mem m1 m2 sp s off sp' h chain :
  wf sp → mem_ok mem (str_bufsz sp) → cstring s →
  dt_strtab_insert oob soob mem m1 m2 sp (Some s) = Some (off, sp') →
  str_hash sp !! h = Some chain →
  str_hashsz sp' = str_hashsz sp ∧ ∃ pre, str_hash sp' !! h = Some (pre ++ chain).
Proof.
  intros Hwf Hm Hs Hi Hh. destruct s as [|x s']; [simpl in Hi; simplify_eq; by split; [|exists []]|].
  unfold dt_strtab_insert in Hi. set (s := x :: s') in *.
  destruct m1; simpl in Hi; [|simplify_eq; by split; [|exists []]].
  destruct (dt_strtab_xindex _ _ _ _ _ _) as [r|]; simpl in Hi; [|done].
  destruct (r =? -1); simpl in Hi; [|simplify_eq; by split; [|exists []]].
  destruct m2; simpl in Hi; [|simplify_eq; by split; [|exists []]].
  destruct (copyin_spec mem sp (s ++ [0]) (wf_core _ Hwf) Hm (cstring_bytes s Hs))
    as (rc & sp1 & E & _ & (Hr1 & Hr2 & _) & Hrc).
  unfold s in E. simpl in E. rewrite E in Hi. simpl in Hi.
  destruct (rc =? -1); [simplify_eq; split; [done|]; exists []; by rewrite Hr1|].
  invert_bind. split; [done|]. rewrite Hr1 in *. set (hs := hash_of sp (x :: s')) in *.
  rewrite list_lookup_insert_case by (by eapply lookup_lt_Some). case_decide; [|by exists []].
  simplify_eq. eexists [_]. done.
Qed.

Lemma findable_keeps oob soob mem m1 m2 sp s off sp' t :
  wf sp → mem_ok mem (str_bufsz sp) → cstring s →
  str_size sp + Z.of_nat (length s) + 1 < 2 ^ 63 →
  dt_strtab_insert oob soob mem m1 m2 sp (Some s) = Some (off, sp') →
  findable sp t → findable sp' t.
Proof.
  intros Hwf Hm Hs Hb Hi (chain & hp & Hh & Hin & He & Hfit).
  destruct (insert_keeps _ _ _ _ _ _ _ _ _ Hwf Hm Hs Hb Hi) as (_ & Hpre & Hsz).
  destruct (insert_chain _ _ _ _ _ _ _ _ _ _ _ Hwf Hm Hs Hi Hh) as (Hhs & pre & Hh').
  exists (pre ++ chain), hp. split; [unfold hash_of in *; by rewrite Hhs|].
  split; [apply elem_of_app; by right|]. split; [by eapply entry_mono|]. by rewrite Hsz.
Qed.

Lemma inserts_keep sp sp' :
  wf sp → inserts sp sp' → wf sp' ∧ contents sp `prefix_of` contents sp' ∧
    str_bufsz sp' = str_bufsz sp ∧ ∀ t, findable sp t → findable sp' t.
Proof.
  intros Hwf. induction 1 as [|sp sp1 sp2 oob soob mem m1 m2 s off H1 IH Hm Hs Hb Hi]; [done|].
  destruct (IH Hwf) as (Hwf1 & Hp1 & Hsz1 & Hf1).
  destruct (insert_keeps _ _ _ _ _ _ _ _ _ Hwf1 Hm Hs Hb Hi) as (Hwf2 & Hp2 & Hsz2).
  split; [done|]. split; [by trans (contents sp1)|]. split; [congruence|].
  intros t Ht. exact (findable_keeps _ _ _ _ _ _ _ _ _ _ Hwf1 Hm Hs Hb Hi (Hf1 t Ht)).
Qed.

(** ** Creation and writing out *)

Lemma strtab_create_spec m1 m2 mem bufsz :
  (0 < bufsz)%nat → mem_ok mem bufsz →
  ∃ r, dt_strtab_create m1 m2 mem bufsz = Some r ∧
    match r with
    | None => m1 = false ∨ m2 = false ∨ mem 0%nat = None
    | Some sp => wf sp ∧ contents sp = [0] ∧ str_bufsz sp = bufsz
    end.
Proof.
  intros Hsz Hm. unfold dt_strtab_create. rewrite decide_False by lia.
  destruct m1; simpl; [|exists None; split; [done|]; tauto]. destruct m2; simpl; [|exists None; split; [done|]; tauto].
  unfold dt_strtab_grow. simpl. destruct (mem 0%nat) as [c|] eqn:Hc; simpl; [|exists None; split; [done|]; tauto].
  destruct (Hm _ _ Hc) as [Hlen Hby]. unfold store. rewrite decide_True by lia. simpl.
  destruct c as [|x c]; [simpl in Hlen; lia|]. eexists. split; [done|]. simpl.
  assert (∀ sp, str_bufs sp = [0 :: c] → str_ptr sp = (0, 1)%nat → contents sp = [0]) as Hcont.
  { intros sp E1 E2. unfold contents, storage, pos. rewrite E1, E2. done. }
  split; [|by rewrite Hcont]. split; rewrite ?Hcont; simpl; try done; try lia.
  - split; simpl; try done; try lia.
    + apply Forall_singleton. done.
    + unfold storage. simpl. rewrite app_nil_r. apply Forall_cons_iff in Hby as [_ ?].
      by constructor.
  - unfold _dtrace_strbuckets. lia.
  - intros h chain hp Hh Hin. change (replicate 211 [] !! h = Some chain) in Hh. apply lookup_replicate in Hh as [-> _].
    by apply elem_of_nil in Hin.
Qed.

Lemma copystr_spec c n total buf :
  0 <= total → (n <= length c)%nat → (Z.to_nat total + n <= length buf)%nat →
  dt_strtab_copystr c n total buf =
    Some (Z.of_nat n, take (Z.to_nat total) buf ++ take n c ++ drop (Z.to_nat total + n) buf).
Proof. intros. unfold dt_strtab_copystr, memcpy. by rewrite decide_True. Qed.

Lemma write_loop_spec sp i init c total buf :
  (0 < snd (str_ptr sp) <= str_bufsz sp)%nat → Forall (λ c, length c = str_bufsz sp) (init ++ [c]) →
  (i + length init = str_nbufs sp - 1)%nat → 0 <= total →
  let data := concat init ++ take (snd (str_ptr sp)) c in
  (Z.to_nat total + length data <= length buf)%nat →
  write_loop dt_strtab_copystr sp i (init ++ [c]) total buf =
    Some (total + Z.of_nat (length data),
          take (Z.to_nat total) buf ++ data ++ drop (Z.to_nat total + length data) buf).
Proof.
  intros Hp Hl. revert i total buf. induction init as [|c0 init IH]; intros i total buf Hi Ht data Hbuf.
  - apply Forall_cons_iff in Hl as [Hl _]. unfold data in *. simpl in *. rewrite decide_True by lia.
    rewrite length_take, Nat.min_l in Hbuf |- * by lia. rewrite copystr_spec by lia. simpl.
    replace (Z.of_nat (snd (str_ptr sp)) <=? 0) with false by lia. done.
  - simpl in Hl. apply Forall_cons_iff in Hl as [Hl0 Hl]. simpl in Hi. cbn [app write_loop].
    rewrite decide_False by lia. unfold data in *. cbn [concat] in *.
    rewrite <- app_assoc, length_app in Hbuf |- *. rewrite copystr_spec by lia.
    cbn [mbind option_bind]. replace (Z.of_nat (str_bufsz sp) <=? 0) with false by lia.
    rewrite (take_ge c0) by lia. rewrite IH; [|done|lia|lia|].
    + f_equal. f_equal; [lia|]. rewrite (app_assoc (take (Z.to_nat total) buf) c0 (drop _ _)).
      set (A := take (Z.to_nat total) buf ++ c0).
      assert (length A = Z.to_nat (total + Z.of_nat (str_bufsz sp))) as HA.
      { unfold A. rewrite length_app, length_take. lia. }
      rewrite take_app_length' by done. unfold A at 1. rewrite <- !app_assoc. do 4 f_equal.
      rewrite drop_app_ge, drop_drop by lia. f_equal. lia.
    + rewrite !length_app, !length_take, length_drop. rewrite length_app, length_take in Hbuf. lia.
Qed.

Lemma write_spec sp buf :
  core sp → (length (contents sp) <= length buf)%nat →
  write_loop dt_strtab_copystr sp 0 (take (str_nbufs sp) (str_bufs sp)) 0 buf =
    Some (Z.of_nat (length (contents sp)), contents sp ++ drop (length (contents sp)) buf).
Proof.
  intros Hc Hbuf. destruct (core_last sp Hc) as (init & c & Hb & Hn & Hf).
  pose proof (core_off _ Hc) as Hoff. pose proof (core_len _ Hc) as Hlen. rewrite Hb in Hlen.
  rewrite Hb, take_ge by (rewrite length_app; simpl; lia).
  assert (contents sp = concat init ++ take (snd (str_ptr sp)) c) as E.
  { apply Forall_app in Hlen as [Hli _]. unfold contents, storage, pos.
    rewrite Hb, Hf, concat_app, <- (concat_length init (str_bufsz sp)) by done.
    rewrite take_app_add. simpl. by rewrite app_nil_r. }
  rewrite E in Hbuf |- *. rewrite write_loop_spec; [done|done|done|lia|lia|]. simpl. lia.
Qed.

(** ** Properties *)

(** C13: Inserting a string in a well-formed table always returns and keeps the
    table well-formed.  It returns -1, leaving the stored bytes alone, only when
    an allocation fails; otherwise it returns an offset at which the string
    and its NUL are stored, and what was stored before stays where it was:
    either the string was there and the table is unchanged, or it is appended
    and its offset is the old size.  This holds whatever [dt_strtab_compare]
    reads beyond its buffers. *)
Theorem dt_strtab_insert_correct oob soob mem m1 m2 sp s :
  wf sp → mem_ok mem (str_bufsz sp) → cstring s →
  str_size sp + Z.of_nat (length s) + 1 < 2 ^ 63 →
  ∃ off sp', dt_strtab_insert oob soob mem m1 m2 sp (Some s) = Some (off, sp') ∧ wf sp' ∧
    ((off = -1 ∧ contents sp' = contents sp ∧ (m1 = false ∨ m2 = false ∨ ∃ n, mem n = None)) ∨
     (stored sp' off s ∧ (sp' = sp ∨
        off = dt_strtab_size sp ∧ contents sp' = contents sp ++ s ++ [0]))).
Proof.
  intros Hwf Hm Hs Hb.
  destruct (strtab_insert_spec oob soob mem m1 m2 sp s) as (off & sp' & E & Hwf' & _ & Hcase); [done..|].
  exists off, sp'. split; [done|]. split; [done|].
  destruct Hcase as [H|[[H ->]|(_ & -> & Hc & hp & chain & _ & He & Hd & _)]]; [by left|by right; auto|].
  right. split; [|right; done]. split; [rewrite (wf_size _ Hwf); lia|].
  rewrite Hc, (wf_size _ Hwf), Nat2Z.id, drop_app_length. done.
Qed.

(** A chunk obtained from the allocator, for the concrete runs below. *)
Definition zeros : chunks := λ _, Some (replicate 16 0).

Lemma zeros_ok : mem_ok zeros 16.
Proof. intros n c [= <-]. split; [done|]. by apply (Forall_replicate byte 16 0). Qed.

Definition table1 : dt_strtab :=
  Eval vm_compute in default (mk_strtab [] 0 [] (O, O) 0 0 0 0)
    (default None (dt_strtab_create true true zeros 16)).

Lemma table1_wf : wf table1.
Proof.
  destruct (strtab_create_spec true true zeros 16) as (r & Hr & Hcase); [lia| |].
  { apply zeros_ok. }
  vm_compute in Hr. injection Hr as <-. apply Hcase.
Qed.

Lemma dt_strtab_insert_correct_witness :
  ∃ off sp', dt_strtab_insert (λ _ _, 7) (λ _, 9) zeros true true table1 (Some (str "syscall")) =
      Some (off, sp') ∧ wf sp' ∧
    ((off = -1 ∧ contents sp' = contents table1 ∧ (true = false ∨ true = false ∨ ∃ n, zeros n = None)) ∨
     (stored sp' off (str "syscall") ∧ (sp' = table1 ∨
        off = dt_strtab_size table1 ∧ contents sp' = contents table1 ++ str "syscall" ++ [0]))).
Proof.
  apply dt_strtab_insert_correct; [apply table1_wf|apply zeros_ok|repeat constructor; done|done].
Defined.

(** A string of at least two characters that was added within one chunk is
    found by every later search, however many insertions lie between and
    whatever the comparison reads beyond its buffers, at an offset where it is
    stored; and inserting it again returns such an offset and adds nothing. *)
Theorem dt_strtab_index_after_insert oob soob mem m1 m2 sp s off sp1 sp2 oob' soob' mem' :
  wf sp → mem_ok mem (str_bufsz sp) → cstring s → (2 <= length s)%nat →
  str_size sp + Z.of_nat (length s) + 1 < 2 ^ 63 →
  (snd (str_ptr sp) + length s + 1 <= str_bufsz sp)%nat →
  dt_strtab_insert oob soob mem m1 m2 sp (Some s) = Some (off, sp1) → contents sp1 ≠ contents sp →
  inserts sp1 sp2 →
  ∃ r, dt_strtab_index oob' soob' true sp2 (Some s) = Some r ∧ stored sp2 r s ∧
    dt_strtab_insert oob' soob' mem' true true sp2 (Some s) = Some (r, sp2).
Proof.
  intros Hwf Hm Hs Hlen Hb Hfit Hi Hnew Hsteps.
  destruct (strtab_insert_spec oob soob mem m1 m2 sp s) as (? & ? & E & Hwf1 & Hsz & Hcase); [done..|].
  rewrite E in Hi. simplify_eq.
  assert (findable sp1 s) as Hf.
  { destruct Hcase as [(_ & ? & _)|[[_ ->]|(_ & _ & _ & hp & chain & Hh & He & Hd & _)]]; [done..|].
    exists (hp :: chain), hp. split; [done|]. split; [by left|]. split; [done|]. by rewrite Hd, Hsz. }
  destruct (inserts_keep sp1 sp2 Hwf1 Hsteps) as (Hwf2 & _ & _ & Hf2).
  destruct (xindex_complete oob' soob' sp2 s Hwf2 Hs Hlen (Hf2 s Hf)) as (r & Hr & Hst).
  exists r. destruct s as [|x s]; [simpl in Hlen; lia|]. unfold dt_strtab_index, dt_strtab_insert.
  simpl negb. cbv iota zeta. rewrite Hr. split; [done|]. split; [done|]. cbn [mbind option_bind].
  destruct Hst as [Hge _]. by replace (r =? -1) with false by lia.
Qed.

Definition table2 : dt_strtab :=
  Eval vm_compute in
    from_option snd table1
      (dt_strtab_insert (λ _ _, 7) (λ _, 9) zeros true true table1 (Some (str "syscall"))).
Definition table3 : dt_strtab :=
  Eval vm_compute in
    from_option snd table1
      (dt_strtab_insert (λ _ _, 7) (λ _, 9) zeros true true table2 (Some (str "entry-point"))).

Lemma dt_strtab_index_after_insert_witness :
  ∃ r, dt_strtab_index (λ _ _, 0) (λ _, 0) true table3 (Some (str "syscall")) = Some r ∧
    stored table3 r (str "syscall") ∧
    dt_strtab_insert (λ _ _, 0) (λ _, 0) (λ _, None) true true table3 (Some (str "syscall")) =
      Some (r, table3).
Proof.
  assert (∀ s, s = str "syscall" ∨ s = str "entry-point" → cstring s) as Hs.
  { intros s [-> | ->]; repeat constructor; done. }
  apply (dt_strtab_index_after_insert (λ _ _, 7) (λ _, 9) zeros true true table1 _ 1 table2);
    [apply table1_wf|apply zeros_ok|apply Hs; tauto|vm_compute; lia|vm_compute; reflexivity
    |vm_compute; lia|vm_compute; reflexivity|vm_compute; discriminate|].
  eapply (inserts_step _ table2 _ (λ _ _, 7) (λ _, 9) zeros true true (str "entry-point"));
    [constructor|apply zeros_ok|apply Hs; tauto|vm_compute; reflexivity|vm_compute; reflexivity].
Defined.

(** C33: Writing a table out with [dt_strtab_copystr] to a large enough block
    returns [dt_strtab_size] and stores the strings' bytes at its start, so that
    a string's offset finds it there, as the users of a DIFO's string table
    rely on. *)
Theorem dt_strtab_write_correct sp buf off s :
  wf sp → (Z.to_nat (dt_strtab_size sp) <= length buf)%nat → cstring s → stored sp off s →
  ∃ buf', dt_strtab_write dt_strtab_copystr sp buf = Some (dt_strtab_size sp, buf') ∧
    length buf' = length buf ∧ cstr (drop (Z.to_nat off) buf') = Some s.
Proof.
  intros Hwf Hbuf Hs Hst. unfold dt_strtab_size in *. rewrite (wf_size _ Hwf), Nat2Z.id in *.
  unfold dt_strtab_write. rewrite write_spec by (done || apply Hwf). cbn [mbind option_bind].
  pose proof (stored_bound _ _ _ (wf_empty _ Hwf)). pose proof (stored_bound _ _ _ Hst).
  rewrite (wf_size _ Hwf).
  replace (Z.of_nat (length (contents sp)) =? 0) with false by (simpl in *; lia). simpl.
  eexists. split; [done|]. split; [rewrite length_app, length_drop; lia|].
  destruct Hst as [Hge [r Hr]]. rewrite drop_app_le by lia. rewrite Hr, <- !app_assoc. simpl.
  by apply cstr_app.
Qed.

Lemma dt_strtab_write_correct_witness :
  ∃ buf', dt_strtab_write dt_strtab_copystr table3 (replicate 24 255) = Some (dt_strtab_size table3, buf') ∧
    length buf' = length (replicate 24 255) ∧
    cstr (drop (Z.to_nat 9) buf') = Some (str "entry-point").
Proof.
  assert (∀ s, s = str "syscall" ∨ s = str "entry-point" → cstring s) as Hs.
  { intros s [-> | ->]; repeat constructor; done. }
  apply dt_strtab_write_correct; [|vm_compute; lia|apply Hs; tauto|].
  - apply (inserts_keep table1); [apply table1_wf|].
    eapply (inserts_step _ table2 _ (λ _ _, 7) (λ _, 9) zeros true true (str "entry-point"));
      [|apply zeros_ok|apply Hs; tauto|vm_compute; reflexivity|vm_compute; reflexivity].
    eapply (inserts_step _ table1 _ (λ _ _, 7) (λ _, 9) zeros true true (str "syscall"));
      [constructor|apply zeros_ok|apply Hs; tauto|vm_compute; reflexivity|vm_compute; reflexivity].
  - split; [lia|]. exists []. vm_compute. reflexivity.
Defined.

(** The table of the empty string and [s], with chunks of 16 bytes. *)
Definition table_of (s : list Z) : option dt_strtab :=
  snd <$> dt_strtab_insert (λ _ _, 0) (λ _, 0) zeros true true table1 (Some s).

(** The search reads outside its buffers: whether a string of one
    character that is in the table is found depends on the byte after the copy
    of the string that is searched for, and whether a string that ends in the
    next chunk is found depends on the bytes after the chunk. *)
Theorem dt_strtab_compare_overread :
  (∃ sp, table_of (str "a") = Some sp ∧
    dt_strtab_index (λ _ _, 0) (λ _, 0) true sp (Some (str "a")) = Some 1 ∧
    dt_strtab_index (λ _ _, 0) (λ _, 1) true sp (Some (str "a")) = Some (-1)) ∧
  (∃ sp, table_of (str "a-long-probe-name") = Some sp ∧
    dt_strtab_index (λ _ i, nth i (str "?a-long-probe-name") 0) (λ _, 0) true sp
      (Some (str "a-long-probe-name")) = Some 1 ∧
    dt_strtab_index (λ _ i, 0) (λ _, 0) true sp (Some (str "a-long-probe-name")) = Some (-1)).
Proof.
  split; eexists; (split; [vm_compute; reflexivity|]); split; vm_compute; reflexivity.
Qed.

(** ** The table as the linker uses it *)

Section Table.
Context (oob : nat → nat → Z) (soob : nat → Z) (mem : chunks) (bufsz : nat).

(** With memory for every allocation. *)
Definition string_table : StringTable dt_strtab := {|
  tab_new := mjoin (dt_strtab_create true true mem bufsz);
  tab_insert sp s := dt_strtab_insert oob soob mem true true sp (Some s);
  tab_bytes sp := snd <$> dt_strtab_write dt_strtab_copystr sp (replicate (Z.to_nat (dt_strtab_size sp)) 0)
|}.

Lemma string_table_laws : (0 < bufsz)%nat → mem_ok mem bufsz → (∀ n, is_Some (mem n)) →
  @StringTableLaws dt_strtab string_table.
Proof.
  intros Hsz Hm Hall.
  refine {| tab_ok sp := wf sp ∧ str_bufsz sp = bufsz; tab_used := dt_strtab_size; tab_stored := stored |};
    unfold dt_strtab_size; cbn [tab_new tab_insert tab_bytes string_table].
  - destruct (strtab_create_spec true true mem bufsz Hsz Hm) as ([sp|] & -> & Hr).
    + destruct Hr as (Hwf & Hc & Hb). exists sp. split_and!; [done|done|done|]. by rewrite (wf_size _ Hwf), Hc.
    + destruct Hr as [?|[?|Hr]]; [done|done|]. by destruct (Hall 0%nat) as [? ?]; simplify_eq.
  - intros sp off s [Hwf _] Hst. pose proof (stored_bound _ _ _ Hst). rewrite (wf_size _ Hwf).
    destruct Hst as [? _]. lia.
  - intros sp s [Hwf Hb] Hs Hu. rewrite <- Hb in Hm.
    destruct (strtab_insert_spec oob soob mem true true sp s Hwf Hm Hs ltac:(lia)) as (off & sp' & -> & Hwf' & Hb' & Hr).
    exists off, sp'. split; [done|]. split; [split; [done|congruence]|].
    destruct Hr as [(_ & _ & [?|[?|[n Hn]]])|[[Hst ->]|(_ & -> & Hc & _)]];
      [done|done|by destruct (Hall n) as [? ?]; simplify_eq|by split_and!; try lia|].
    rewrite (wf_size _ Hwf), (wf_size _ Hwf'), Hc, !length_app. cbn [length]. split; [lia|]. split; [lia|]. split.
    + split; [lia|]. by rewrite Hc, Nat2Z.id, drop_app_length.
    + intros o u. apply stored_mono. rewrite Hc. by eexists.
  - intros sp [Hwf _]. unfold dt_strtab_write, dt_strtab_size. rewrite (wf_size _ Hwf), Nat2Z.id.
    rewrite write_spec by (apply Hwf || by rewrite length_replicate). cbn [mbind option_bind fmap option_fmap option_map snd].
    eexists. split; [done|]. rewrite drop_ge, app_nil_r by (by rewrite length_replicate). split; [done|].
    intros off s [_ [r Hr]] Hs. rewrite Hr, <- app_assoc. by apply cstr_app.
Qed.

End Table.

End Strtab.
