(* ===== verification/DtList.v ===== *)
(** * Doubly linked lists: libdtrace/dt_list.c

    The links live in a heap of [dt_list_t] structures; 0 is NULL.  Following
    a pointer to nothing is [None].  The list head is a [dt_list_t] too: its
    [dl_next] is the first element and its [dl_prev] the last one. *)
From S2P Require Import Prelude.

Record dt_list_t := mk_links { dl_prev : Z; dl_next : Z }.

Abbreviation links := (gmap Z dt_list_t).

(** [p->dl_next = v] and [p->dl_prev = v]. *)
Definition set_next (h : links) (p v : Z) : option links :=
  n ← h !! p; Some (<[p := mk_links (dl_prev n) v]> h).
Definition set_prev (h : links) (p v : Z) : option links :=
  n ← h !! p; Some (<[p := mk_links v (dl_next n)]> h).

(** ** Chains of links *)

(** The first element of a chain, and the last one. *)
Definition first (l : list Z) (after : Z) : Z := default after (head l).
Definition final (before : Z) (l : list Z) : Z := default before (last l).

(** The elements [l] are linked both ways, between [before] and [after]. *)
Fixpoint dll (h : links) (before : Z) (l : list Z) (after : Z) : Prop :=
  match l with
  | [] => True
  | x :: l => h !! x = Some (mk_links before (first l after)) ∧ dll h x l after
  end.

Create HintDb dlist.

Lemma final_snoc b l x : final b (l ++ [x]) = x.
Proof. unfold final. by rewrite last_snoc. Qed.

Lemma final_cons b l x : final b (x :: l) = final x l.
Proof. unfold final. destruct l using rev_ind; [done|]. by rewrite app_comm_cons, !last_snoc. Qed.

Lemma first_app l l' a : first (l ++ l') a = first l (first l' a).
Proof. by destruct l. Qed.

Lemma final_app b l l' : final b (l ++ l') = final (final b l) l'.
Proof.
  destruct l' using rev_ind; [by rewrite app_nil_r|]. by rewrite app_assoc, !final_snoc.
Qed.

Lemma dll_app h b l l' a :
  dll h b (l ++ l') a ↔ dll h b l (first l' a) ∧ dll h (final b l) l' a.
Proof.
  revert b. induction l as [|x l IH]; intros b; simpl; [unfold final; simpl; tauto|].
  rewrite IH, first_app, final_cons. tauto.
Qed.

Lemma dll_frame h h' b l a :
  (∀ x, x ∈ l → h' !! x = h !! x) → dll h b l a → dll h' b l a.
Proof.
  revert b. induction l as [|x l IH]; intros b Heq; simpl; [done|].
  intros [H1 H2]. rewrite Heq by left. split; [done|]. apply IH; [|done].
  intros y ?. apply Heq. by right.
Qed.

Lemma dll_insert h b l a x n : x ∉ l → dll h b l a → dll (<[x := n]> h) b l a.
Proof.
  intros Hx. apply dll_frame. intros y Hy. apply lookup_insert_ne. by intros ->.
Qed.

#[export] Hint Resolve dll_insert : dlist.

(** The links next to a place in a chain. *)
Lemma dll_last h b l x a :
  dll h b (l ++ [x]) a ↔ dll h b l x ∧ h !! x = Some (mk_links (final b l) a).
Proof. rewrite dll_app. simpl. unfold first. simpl. tauto. Qed.

(** Changing the link after, or before, a chain. *)
Lemma dll_relink_after h b l a a' h' :
  NoDup l → dll h b l a → l ≠ [] → set_next h (final b l) a' = Some h' →
  dll h' b l a' ∧ (∀ y, y ≠ final b l → h' !! y = h !! y).
Proof.
  intros Hnd Hl Hne. destruct l as [|x l _] using rev_ind; [done|]. rewrite final_snoc.
  apply NoDup_app in Hnd as (_ & Hx & _). apply dll_last in Hl as [Hl Hlast].
  unfold set_next. rewrite Hlast. intros [= <-]. split.
  - apply dll_last. split; [|by rewrite lookup_insert_eq].
    apply dll_insert; [|done]. intros Hin. apply (Hx x Hin). by left.
  - intros y Hy. by apply lookup_insert_ne.
Qed.

Lemma dll_relink_before h b b' x l a :
  NoDup (x :: l) → dll h b (x :: l) a →
  ∃ h', set_prev h x b' = Some h' ∧ dll h' b' (x :: l) a ∧ (∀ y, y ≠ x → h' !! y = h !! y).
Proof.
  intros [Hx _]%NoDup_cons [H1 H2]. unfold set_prev. rewrite H1. eexists. split; [done|]. split.
  - split; [by rewrite lookup_insert_eq|]. by apply dll_insert.
  - intros y Hy. by apply lookup_insert_ne.
Qed.

Module DtList.

Definition dt_list_append (h : links) (dlp new : Z) : option links :=
  d ← h !! dlp;
  let p := dl_prev d in
  let q := new in
  h ← set_prev h dlp q;
  h ← set_prev h q p;
  h ← set_next h q 0;
  if negb (p =? 0) then
    n ← h !! p;
    if negb (dl_next n =? 0) then None else set_next h p q
  else
    n ← h !! dlp;
    if negb (dl_next n =? 0) then None else set_next h dlp q.

Definition dt_list_prepend (h : links) (dlp new : Z) : option links :=
  let p := new in
  d ← h !! dlp;
  let q := dl_next d in
  h ← set_next h dlp p;
  h ← set_prev h p 0;
  h ← set_next h p q;
  if negb (q =? 0) then
    n ← h !! q;
    if negb (dl_prev n =? 0) then None else set_prev h q p
  else
    n ← h !! dlp;
    if negb (dl_prev n =? 0) then None else set_prev h dlp p.

Definition dt_list_insert (h : links) (dlp after_me new : Z) : option links :=
  let p := after_me in
  let q := new in
  if p =? 0 then dt_list_append h dlp new
  else
    n ← h !! p;
    if dl_next n =? 0 then dt_list_append h dlp new
    else
      h ← set_next h q (dl_next n);
      h ← set_prev h q p;
      h ← set_next h p q;
      m ← h !! q;
      set_prev h (dl_next m) q.

Definition dt_list_delete (h : links) (dlp existing : Z) : option links :=
  let p := existing in
  n ← h !! p;
  h ← (if negb (dl_prev n =? 0) then set_next h (dl_prev n) (dl_next n)
       else set_next h dlp (dl_next n));
  n ← h !! p;
  if negb (dl_next n =? 0) then set_prev h (dl_next n) (dl_prev n)
  else set_prev h dlp (dl_prev n).

(** The loop of [dt_list_length]; a list has fewer elements than the heap. *)
Fixpoint length_loop (fuel : nat) (h : links) (p len : Z) : option Z :=
  if p =? 0 then Some len
  else match fuel with
  | O => None
  | S fuel => n ← h !! p; length_loop fuel h (dl_next n) (u64 (len + 1))
  end.

Definition dt_list_length (h : links) (dlp : Z) : option Z :=
  d ← h !! dlp;
  length_loop (size h) h (dl_next d) 0.

(** [dt_in_list(l, e)] of dt_list.h. *)
Definition dt_in_list (h : links) (l e : Z) : option bool :=
  d ← h !! l;
  if dl_next d =? e then Some true
  else n ← h !! e; Some (negb (dl_prev n =? 0)).

(** ** The list a head stands for *)

Record dlist (h : links) (dlp : Z) (l : list Z) : Prop := {
  dlist_head : h !! dlp = Some (mk_links (final 0 l) (first l 0));
  dlist_links : dll h 0 l 0;
  dlist_nodup : NoDup l;
  dlist_out : dlp ∉ l;
  dlist_null : 0 ∉ dlp :: l
}.

(** Nothing but the links of the list changes. *)
Definition elsewhere (h h' : links) (dlp : Z) (l : list Z) : Prop :=
  ∀ x, x ∉ dlp :: l → h' !! x = h !! x.

(** [p] is an element of a list, hence not NULL. *)
Ltac nonnull p := replace (p =? 0) with false by (symmetry; apply Z.eqb_neq; set_solver).

Lemma append_spec h dlp l new :
  dlist h dlp l → new ∉ dlp :: l → new ≠ 0 → is_Some (h !! new) →
  ∃ h', dt_list_append h dlp new = Some h' ∧ dlist h' dlp (l ++ [new]) ∧
    elsewhere h h' dlp (l ++ [new]).
Proof.
  intros [Hh Hl Hnd Hout H0] Hnew Hn0 [n Hn]. unfold dt_list_append, set_prev, set_next.
  rewrite Hh. cbn [mbind option_bind].
  destruct l as [|x l _] using rev_ind.
  - unfold final, first. simpl. assert (new ≠ dlp) by set_solver. simplify_map_eq.
    eexists. split; [done|]. split.
    + split; unfold final, first; simpl; simplify_map_eq; try done.
      * apply NoDup_singleton.
      * set_solver.
      * set_solver.
    + intros y Hy. assert (y ≠ new ∧ y ≠ dlp) as [? ?] by set_solver. by simplify_map_eq.
  - apply dll_last in Hl as [Hl Hx]. rewrite final_snoc. simpl.
    assert (x ≠ 0 ∧ x ≠ new ∧ x ≠ dlp ∧ new ≠ dlp) as (? & ? & ? & ?) by set_solver.
    simplify_map_eq. replace (x =? 0) with false by lia. simpl. simplify_map_eq.
    eexists. split; [done|]. split.
    + split; rewrite ?final_snoc, ?first_app; simpl.
      * by simplify_map_eq.
      * apply dll_last. rewrite final_snoc. split; [|by simplify_map_eq].
        apply dll_last. split; [|by simplify_map_eq]. apply NoDup_app in Hnd as (_ & Hd & _).
        repeat apply dll_insert; set_solver.
      * apply NoDup_app. split; [done|]. split; [set_solver|]. apply NoDup_singleton.
      * set_solver.
      * set_solver.
    + intros y Hy. assert (y ≠ x ∧ y ≠ new ∧ y ≠ dlp) as (? & ? & ?) by set_solver.
      by simplify_map_eq.
Qed.

Lemma prepend_spec h dlp l new :
  dlist h dlp l → new ∉ dlp :: l → new ≠ 0 → is_Some (h !! new) →
  ∃ h', dt_list_prepend h dlp new = Some h' ∧ dlist h' dlp (new :: l) ∧
    elsewhere h h' dlp (new :: l).
Proof.
  intros [Hh Hl Hnd Hout H0] Hnew Hn0 [n Hn]. unfold dt_list_prepend, set_prev, set_next.
  rewrite Hh. cbn [mbind option_bind]. assert (new ≠ dlp) by set_solver. destruct l as [|x l].
  - unfold final, first. simpl. simplify_map_eq.
    eexists. split; [done|]. split.
    + split; unfold final, first; simpl; simplify_map_eq; try done.
      * apply NoDup_singleton.
      * set_solver.
      * set_solver.
    + intros y Hy. assert (y ≠ new ∧ y ≠ dlp) as [? ?] by set_solver. by simplify_map_eq.
  - destruct Hl as [Hx Hl]. unfold first. simpl.
    assert (x ≠ 0 ∧ x ≠ new ∧ x ≠ dlp) as (? & ? & ?) by set_solver.
    simplify_map_eq. replace (x =? 0) with false by lia. simpl. simplify_map_eq.
    eexists. split; [done|]. split.
    + split; unfold first; simpl.
      * simplify_map_eq. by rewrite !final_cons.
      * split; [by simplify_map_eq|]. split; [by simplify_map_eq|].
        apply NoDup_cons in Hnd as [? Hnd].
        repeat apply dll_insert; set_solver.
      * apply NoDup_cons. split; [set_solver|done].
      * set_solver.
      * set_solver.
    + intros y Hy. assert (y ≠ x ∧ y ≠ new ∧ y ≠ dlp) as (? & ? & ?) by set_solver.
      by simplify_map_eq.
Qed.

(** Redirecting the link that leads out of a part of the list: the last element
    of [l], or the head when [l] is empty. *)
Lemma relink_after h dlp l x t v :
  h !! dlp = Some (mk_links t (first l x)) → dll h 0 l x → NoDup l → dlp ∉ l → 0 ∉ l →
  ∃ h', (if negb (final 0 l =? 0) then set_next h (final 0 l) v else set_next h dlp v) = Some h' ∧
    h' !! dlp = Some (mk_links t (first l v)) ∧ dll h' 0 l v ∧
    (∀ y, y ∉ dlp :: l → h' !! y = h !! y).
Proof.
  intros Hd Hl Hnd Hout H0. destruct l as [|z l _] using rev_ind.
  - unfold set_next. rewrite Hd. simpl. eexists. split; [done|]. rewrite lookup_insert_eq.
    split; [done|]. split; [done|]. intros y Hy. apply lookup_insert_ne. set_solver.
  - apply dll_last in Hl as [Hl Hz]. rewrite final_snoc.
    nonnull z. simpl. unfold set_next. rewrite Hz. simpl.
    eexists. split; [done|]. rewrite first_app in *. split_and!.
    + rewrite lookup_insert_ne by set_solver. by rewrite Hd; destruct l.
    + apply dll_last. rewrite lookup_insert_eq. split; [|done]. apply dll_insert; [|done].
      apply NoDup_app in Hnd as (_ & Hd' & _). set_solver.
    + intros y Hy. apply lookup_insert_ne. set_solver.
Qed.

Lemma relink_before h dlp l x f v :
  h !! dlp = Some (mk_links (final x l) f) → dll h x l 0 → NoDup l → dlp ∉ l → 0 ∉ l →
  ∃ h', (if negb (first l 0 =? 0) then set_prev h (first l 0) v else set_prev h dlp v) = Some h' ∧
    h' !! dlp = Some (mk_links (final v l) f) ∧ dll h' v l 0 ∧
    (∀ y, y ∉ dlp :: l → h' !! y = h !! y).
Proof.
  intros Hd Hl Hnd Hout H0. destruct l as [|z l].
  - unfold set_prev. rewrite Hd. simpl. eexists. split; [done|]. rewrite lookup_insert_eq.
    split; [done|]. split; [done|]. intros y Hy. apply lookup_insert_ne. set_solver.
  - destruct Hl as [Hz Hl]. unfold first. simpl.
    nonnull z. simpl. unfold set_prev. rewrite Hz. simpl.
    eexists. split; [done|]. rewrite final_cons in *. split_and!.
    + rewrite lookup_insert_ne by set_solver. by rewrite Hd.
    + by rewrite lookup_insert_eq.
    + apply dll_insert; [|done]. by apply NoDup_cons in Hnd as [? _].
    + intros y Hy. apply lookup_insert_ne. set_solver.
Qed.

Lemma nodup_mid (l1 l2 : list Z) x :
  NoDup (l1 ++ x :: l2) → NoDup l1 ∧ NoDup l2 ∧ (x ∉ l1) ∧ (x ∉ l2) ∧ NoDup (l1 ++ l2) ∧
    (∀ y, y ∈ l1 → y ∉ l2).
Proof.
  intros (H1 & H2 & H3)%NoDup_app. apply NoDup_cons in H3 as [H3 H4]. split_and!; try done.
  - set_solver.
  - apply NoDup_app. set_solver.
  - set_solver.
Qed.

Lemma list_delete_spec h dlp l1 x l2 :
  dlist h dlp (l1 ++ x :: l2) →
  ∃ h', dt_list_delete h dlp x = Some h' ∧ dlist h' dlp (l1 ++ l2) ∧
    elsewhere h h' dlp (l1 ++ l2).
Proof.
  intros [Hh Hl Hnd Hout H0]. destruct (nodup_mid _ _ _ Hnd) as (N1 & N2 & X1 & X2 & N12 & Hdis).
  apply dll_app in Hl as [Hl1 [Hx Hl2]]. unfold first in Hl1. simpl in Hl1.
  rewrite final_app, final_cons, first_app in Hh. unfold first in Hh at 2. simpl in Hh.
  unfold dt_list_delete. rewrite Hx. cbn [mbind option_bind dl_prev dl_next].
  destruct (relink_after h dlp l1 x (final x l2) (first l2 0)) as (h1 & -> & Hd1 & Hl1' & F1);
    [done|done|done|set_solver|set_solver|].
  cbn [mbind option_bind]. rewrite F1 by set_solver. rewrite Hx. cbn [mbind option_bind dl_prev dl_next].
  destruct (relink_before h1 dlp l2 x (first l1 (first l2 0)) (final 0 l1)) as (h2 & -> & Hd2 & Hl2' & F2);
    [done| |done|set_solver|set_solver|].
  { eapply dll_frame; [|done]. intros y Hy. apply F1. set_solver. }
  eexists. split; [done|]. split; [split|].
  - by rewrite final_app, first_app.
  - apply dll_app. split; [|done]. eapply dll_frame; [|done]. intros y Hy. apply F2. set_solver.
  - done.
  - set_solver.
  - set_solver.
  - intros y Hy. rewrite F2, F1 by set_solver. done.
Qed.

Lemma list_insert_spec h dlp l1 p l2 new :
  dlist h dlp (l1 ++ p :: l2) → new ∉ dlp :: l1 ++ p :: l2 → new ≠ 0 → is_Some (h !! new) →
  ∃ h', dt_list_insert h dlp p new = Some h' ∧ dlist h' dlp (l1 ++ p :: new :: l2) ∧
    elsewhere h h' dlp (l1 ++ p :: new :: l2).
Proof.
  intros Hdl Hnew Hn0 Hn. pose proof Hdl as [Hh Hl Hnd Hout H0].
  apply dll_app in Hl as [Hl1 [Hp Hl2]]. unfold first in Hl1. simpl in Hl1.
  unfold dt_list_insert. nonnull p. rewrite Hp. cbn [mbind option_bind dl_next].
  destruct l2 as [|y l2].
  - simpl. replace (l1 ++ [p; new]) with ((l1 ++ [p]) ++ [new]) by by rewrite <- app_assoc.
    by apply append_spec.
  - destruct (nodup_mid _ _ _ Hnd) as (N1 & N2 & X1 & X2 & N12 & Hdis).
    destruct Hl2 as [Hy Hl2]. unfold first. simpl. nonnull y.
    destruct Hn as [n Hn]. unfold set_next, set_prev. rewrite Hn. simpl.
    assert (p ≠ new ∧ p ≠ y ∧ y ≠ new ∧ p ≠ dlp ∧ new ≠ dlp ∧ y ≠ dlp) as (? & ? & ? & ? & ? & ?)
      by set_solver.
    simplify_map_eq. eexists. split; [done|]. apply NoDup_cons in N2 as [Y2 N2].
    split; [split|].
    + rewrite final_app, !final_cons, first_app in *. unfold first in *. simpl in *.
      by simplify_map_eq.
    + apply dll_app. split.
      * repeat apply dll_insert; try done; set_solver.
      * split; [unfold first; simpl; by simplify_map_eq|].
        split; [unfold first; simpl; by simplify_map_eq|].
        split; [by simplify_map_eq|]. repeat apply dll_insert; try done; set_solver.
    + apply NoDup_app. split; [done|]. split; [set_solver|].
      repeat (apply NoDup_cons; split; [set_solver|]). done.
    + set_solver.
    + set_solver.
    + intros z Hz. assert (z ≠ p ∧ z ≠ new ∧ z ≠ y) as (? & ? & ?) by set_solver. by simplify_map_eq.
Qed.

Lemma length_loop_spec h b l fuel n :
  dll h b l 0 → 0 ∉ l → (length l <= fuel)%nat → 0 <= n → n + Z.of_nat (length l) < 2 ^ 64 →
  length_loop fuel h (first l 0) n = Some (n + Z.of_nat (length l)).
Proof.
  revert b fuel n. induction l as [|x l IH]; intros b fuel n Hl H0 Hf Hn Hb.
  - unfold first. destruct fuel; simpl; f_equal; lia.
  - destruct Hl as [Hx Hl]. destruct fuel as [|fuel]; [simpl in Hf; lia|].
    change (first (x :: l) 0) with x. cbn [length_loop]. nonnull x.
    rewrite Hx. cbn [mbind option_bind dl_next]. simpl in Hf, Hb.
    rewrite wrap_id by (unfold urange; lia). rewrite (IH x) by (done || set_solver || lia).
    f_equal. simpl. lia.
Qed.

Lemma length_spec h dlp l :
  dlist h dlp l → Z.of_nat (length l) < 2 ^ 64 → dt_list_length h dlp = Some (Z.of_nat (length l)).
Proof.
  intros [Hh Hl Hnd Hout H0] Hb. unfold dt_list_length. rewrite Hh. cbn [mbind option_bind dl_next].
  rewrite (length_loop_spec h 0 l); [f_equal; lia|done|set_solver| |lia|lia].
  rewrite <- (size_list_to_set (C := gset Z) l), <- size_dom by done. apply subseteq_size.
  intros x Hx%elem_of_list_to_set. apply elem_of_dom.
  clear -Hl Hx. revert Hl. generalize 0 at 1. induction l as [|y l IH]; intros b Hl; [by apply elem_of_nil in Hx|].
  destruct Hl as [Hy Hl]. apply elem_of_cons in Hx as [->|Hx]; [by rewrite Hy|]. by eapply IH.
Qed.

Lemma in_list_spec h dlp l e n :
  dlist h dlp l → e ≠ 0 → h !! e = Some n → (e ∉ l → dl_prev n = 0) →
  dt_in_list h dlp e = Some (bool_decide (e ∈ l)).
Proof.
  intros [Hh Hl Hnd Hout H0] He Hn Hstale. unfold dt_in_list. rewrite Hh. cbn [mbind option_bind dl_next].
  rewrite Hn. cbn [mbind option_bind]. destruct (decide (e ∈ l)) as [Hin|Hin].
  - rewrite bool_decide_true by done. destruct (Z.eqb_spec (first l 0) e); [done|].
    apply list_elem_of_split in Hin as (l1 & l2 & ->). apply dll_app in Hl as [_ [He' _]].
    rewrite Hn in He'. injection He' as ->. simpl. destruct l1 as [|x l1 _] using rev_ind; [done|].
    rewrite final_snoc. f_equal. nonnull x. done.
  - rewrite bool_decide_false, Hstale by done. destruct (Z.eqb_spec (first l 0) e) as [E|]; [|done].
    destruct l as [|x l]; [by destruct He|]. destruct Hin. rewrite <- E. left.
Qed.

(** ** The list as an abstract data type *)

Inductive op := Append (new : Z) | Prepend (new : Z) | Insert (after new : Z) | Delete (x : Z).

Definition run_op (dlp : Z) (h : links) (o : op) : option links :=
  match o with
  | Append new => dt_list_append h dlp new
  | Prepend new => dt_list_prepend h dlp new
  | Insert after new => dt_list_insert h dlp after new
  | Delete x => dt_list_delete h dlp x
  end.

Fixpoint insert_after (l : list Z) (p new : Z) : list Z :=
  match l with
  | [] => [new]
  | x :: l => if x =? p then x :: new :: l else x :: insert_after l p new
  end.

Definition spec_op (l : list Z) (o : op) : list Z :=
  match o with
  | Append new => l ++ [new]
  | Prepend new => new :: l
  | Insert after new => insert_after l after new
  | Delete x => filter (λ y, y ≠ x) l
  end.

(** An element is added once, from the allocated memory [D]; an element that is
    deleted or inserted after is in the list (NULL to insert after means the
    end). *)
Definition op_ok (dlp : Z) (D : gset Z) (l : list Z) (o : op) : Prop :=
  match o with
  | Append new | Prepend new => (new ∉ dlp :: l) ∧ new ≠ 0 ∧ new ∈ D
  | Insert after new => (new ∉ dlp :: l) ∧ new ≠ 0 ∧ new ∈ D ∧ (after = 0 ∨ after ∈ l)
  | Delete x => x ∈ l
  end.

Fixpoint ops_ok (dlp : Z) (D : gset Z) (l : list Z) (ops : list op) : Prop :=
  match ops with
  | [] => True
  | o :: ops => op_ok dlp D l o ∧ ops_ok dlp D (spec_op l o) ops
  end.

Fixpoint run_ops (dlp : Z) (h : links) (ops : list op) : option links :=
  match ops with
  | [] => Some h
  | o :: ops => h ← run_op dlp h o; run_ops dlp h ops
  end.

Lemma insert_after_split l1 p l2 new :
  p ∉ l1 → insert_after (l1 ++ p :: l2) p new = l1 ++ p :: new :: l2.
Proof.
  induction l1 as [|x l1 IH]; simpl; intros Hp; [by rewrite Z.eqb_refl|].
  destruct (Z.eqb_spec x p) as [->|]; [set_solver|]. rewrite IH by set_solver. done.
Qed.

Lemma insert_after_end l p new : p ∉ l → insert_after l p new = l ++ [new].
Proof.
  induction l as [|x l IH]; simpl; intros Hp; [done|].
  destruct (Z.eqb_spec x p) as [->|]; [set_solver|]. rewrite IH by set_solver. done.
Qed.

Lemma delete_split (l1 : list Z) x l2 :
  NoDup (l1 ++ x :: l2) → filter (λ y, y ≠ x) (l1 ++ x :: l2) = l1 ++ l2.
Proof.
  intros (_ & _ & X1 & X2 & _ & _)%nodup_mid. rewrite filter_app, filter_cons_False by naive_solver.
  f_equal; apply list_filter_id; intros y Hy ->; done.
Qed.

Lemma set_next_dom h p v h' : set_next h p v = Some h' → dom h' = dom h.
Proof. unfold set_next. intros H. invert_bind. by apply dom_insert_lookup_L. Qed.
Lemma set_prev_dom h p v h' : set_prev h p v = Some h' → dom h' = dom h.
Proof. unfold set_prev. intros H. invert_bind. by apply dom_insert_lookup_L. Qed.

Ltac links_dom :=
  repeat match goal with
  | H : set_next _ _ _ = Some _ |- _ => apply set_next_dom in H
  | H : set_prev _ _ _ = Some _ |- _ => apply set_prev_dom in H
  end; congruence.

Lemma append_dom h dlp new h' : dt_list_append h dlp new = Some h' → dom h' = dom h.
Proof.
  unfold dt_list_append. intros H. invert_bind.
  destruct (negb _); invert_bind; destruct (negb _); simplify_eq; links_dom.
Qed.

Lemma run_op_dom dlp h o h' : run_op dlp h o = Some h' → dom h' = dom h.
Proof.
  destruct o as [new|new|p new|x]; simpl; [apply append_dom|..].
  - unfold dt_list_prepend. intros H. invert_bind.
    destruct (negb _); invert_bind; destruct (negb _); simplify_eq; links_dom.
  - unfold dt_list_insert. destruct (p =? 0); [apply append_dom|]. intros H. invert_bind.
    destruct (dl_next _ =? 0); [by eapply append_dom|]. invert_bind.
    links_dom.
  - unfold dt_list_delete. intros H. invert_bind.
    do 2 destruct (negb _); links_dom.
Qed.

(** Each operation does to the list what its specification does. *)
Lemma op_refines dlp h l o :
  dlist h dlp l → op_ok dlp (dom h) l o →
  ∃ h', run_op dlp h o = Some h' ∧ dlist h' dlp (spec_op l o) ∧ dom h' = dom h ∧
    elsewhere h h' dlp (l ++ spec_op l o).
Proof.
  intros Hd Hok.
  assert (∃ h', run_op dlp h o = Some h' ∧ dlist h' dlp (spec_op l o) ∧
    elsewhere h h' dlp (spec_op l o)) as (h' & Hrun & Hd' & He); last first.
  { exists h'. split_and!; try done; [by eapply run_op_dom|]. intros x Hx. apply He. set_solver. }
  destruct o as [new|new|p new|x]; simpl in *.
  - destruct Hok as (? & ? & ?%elem_of_dom). by apply append_spec.
  - destruct Hok as (? & ? & ?%elem_of_dom). by apply prepend_spec.
  - destruct Hok as (? & ? & ?%elem_of_dom & [->|Hin]).
    + rewrite insert_after_end by (destruct Hd; set_solver). by apply append_spec.
    + apply list_elem_of_split in Hin as (l1 & l2 & ->).
      pose proof (nodup_mid _ _ _ (dlist_nodup _ _ _ Hd)) as (_ & _ & Hp & _).
      rewrite insert_after_split by done. by apply list_insert_spec.
  - apply list_elem_of_split in Hok as (l1 & l2 & ->).
    rewrite delete_split by apply Hd. by apply list_delete_spec.
Qed.

(** C23: A list used through its operations behaves as a mathematical list: any
    sequence of appends, prepends, insertions and deletions that adds elements
    not in the list and deletes elements that are runs without failing an
    assertion or following a bad pointer, ends in the list the specification
    gives, linked correctly in both directions, and the length is its length. *)
Theorem dt_list_refines dlp h l ops :
  dlist h dlp l → ops_ok dlp (dom h) l ops →
  let l' := foldl spec_op l ops in
  ∃ h', run_ops dlp h ops = Some h' ∧ dlist h' dlp l' ∧
    (Z.of_nat (length l') < 2 ^ 64 → dt_list_length h' dlp = Some (Z.of_nat (length l'))).
Proof.
  revert h l. induction ops as [|o ops IH]; intros h l Hd Hok; simpl in *.
  - exists h. split; [done|]. split; [done|]. by apply length_spec.
  - destruct Hok as [Ho Hok]. destruct (op_refines dlp h l o Hd Ho) as (h1 & -> & Hd1 & Hdom & _).
    apply IH; [done|]. by rewrite Hdom.
Qed.

Definition heap1 : links :=
  <[100 := mk_links 0 0]> (<[1 := mk_links 7 8]> (<[2 := mk_links 0 0]> (<[3 := mk_links 0 0]> ∅))).

Lemma dt_list_refines_witness :
  let ops := [Append 1; Prepend 2; Insert 2 3; Delete 1] in
  ∃ h', run_ops 100 heap1 ops = Some h' ∧ dlist h' 100 (foldl spec_op [] ops) ∧
    (Z.of_nat (length (foldl spec_op [] ops)) < 2 ^ 64 →
     dt_list_length h' 100 = Some (Z.of_nat (length (foldl spec_op [] ops)))).
Proof.
  apply (dt_list_refines 100 heap1 []).
  - split; [done|done|constructor|set_solver|set_solver].
  - cbn [ops_ok op_ok spec_op insert_after app Z.eqb Pos.eqb].
    split_and!; first [done | apply elem_of_dom; by eexists | set_solver].
Defined.

(** [dt_in_list] answers membership for an element that is in the list or
    whose [dl_prev] is NULL; but an element other than the first that was
    deleted still answers as a member, since [dt_list_delete] leaves its links. *)
Theorem dt_in_list_correct h dlp l e n :
  dlist h dlp l → e ≠ 0 → h !! e = Some n →
  ((e ∉ l → dl_prev n = 0) → dt_in_list h dlp e = Some (bool_decide (e ∈ l))) ∧
  (e ∈ tail l → ∃ h', dt_list_delete h dlp e = Some h' ∧ dt_in_list h' dlp e = Some true).
Proof.
  intros Hd He Hn. split; [by eapply in_list_spec|]. intros Hin.
  destruct l as [|x l]; [by apply elem_of_nil in Hin|]. simpl in Hin.
  apply list_elem_of_split in Hin as (l1 & l2 & ->).
  destruct (list_delete_spec h dlp (x :: l1) e l2 Hd) as (h' & Hrun & Hd' & Helse). exists h'.
  split; [done|]. destruct Hd as [Hh Hl Hnd Hout H0]. unfold dt_in_list.
  rewrite (dlist_head _ _ _ Hd'). cbn [mbind option_bind dl_next].
  destruct (Z.eqb_spec (first ((x :: l1) ++ l2) 0) e); [done|].
  rewrite app_comm_cons in Hl. apply dll_app in Hl as [_ [He' _]].
  pose proof (nodup_mid (x :: l1) l2 e Hnd) as (_ & _ & X1 & X2 & _).
  rewrite Helse, He' by set_solver. cbn [mbind option_bind dl_prev]. f_equal.
  destruct l1 as [|y l1 _] using rev_ind; [unfold final; simpl; nonnull x; done|].
  rewrite app_comm_cons, final_snoc. nonnull y. done.
Qed.

Definition heap2 : links :=
  <[100 := mk_links 2 1]> (<[1 := mk_links 0 2]> (<[2 := mk_links 1 0]> ∅)).

Lemma dt_in_list_correct_witness :
  ((2 ∉ [1; 2] → dl_prev (mk_links 1 0) = 0) →
    dt_in_list heap2 100 2 = Some (bool_decide (2 ∈ [1; 2]))) ∧
  (2 ∈ tail [1; 2] →
    ∃ h', dt_list_delete heap2 100 2 = Some h' ∧ dt_in_list h' 100 2 = Some true).
Proof.
  apply (dt_in_list_correct heap2 100 [1; 2] 2 (mk_links 1 0)); [|done|done].
  split; [done|done| |set_solver|set_solver].
  repeat (apply NoDup_cons; split; [set_solver|]). constructor.
Defined.

End DtList.
