(* ===== verification/Htab.v ===== *)
(** * Hash tables: libdtrace/dt_htab.c and the link functions of dt_htab.h

    A table is an array of slots, each a list of buckets, each the list of the
    entries that are equal under [cmp].  The entries of a bucket are linked
    through a [dt_hentry] (the pair of links of DtList) in memory owned by the
    client, by functions the client supplies: [HtabOps] is what the table
    requires of them, and the functions [DEFINE_HE_STD_LINK_FUNCS] generates
    are an instance of it. *)
From S2P Require Import Prelude DtList.

(** ** The operations a client supplies *)

Class HtabOps (H : Type) := {
  hval : Z → Z;
  cmp : Z → Z → Z;
  add : H → Z → Z → option (H * Z);
  del : H → Z → Z → option (H * Z);
  next : H → Z → option Z
}.

(** What they promise: [cmp] compares keys and equal keys hash alike; [rep h p l]
    says that the list of the entries [l] hangs off the head [p] in the memory
    [h], [fresh h e] that [e] is an entry in no list.  An operation on one list
    leaves the other lists and entries alone. *)
Class HtabLaws (H : Type) `{HtabOps H} := {
  rep : H → Z → list Z → Prop;
  fresh : H → Z → Prop;
  hval_range e : 0 <= hval e < 2 ^ 32;
  cmp_refl e : cmp e e = 0;
  cmp_sym e f : cmp e f = 0 → cmp f e = 0;
  cmp_trans e f g : cmp e f = 0 → cmp f g = 0 → cmp e g = 0;
  cmp_hval e f : cmp e f = 0 → hval e = hval f;
  rep_nil h : rep h 0 [];
  rep_head h p l : rep h p l → p = first l 0;
  rep_null h p l : rep h p l → 0 ∉ l;
  fresh_null h e : fresh h e → e ≠ 0;
  add_spec h p l e :
    rep h p l → fresh h e → e ∉ l →
    ∃ h', add h p e = Some (h', e) ∧ rep h' e (e :: l) ∧
      (∀ q m, rep h q m → (∀ x, x ∈ e :: l → x ∉ m) → rep h' q m) ∧
      (∀ x, x ∉ e :: l → fresh h x → fresh h' x);
  del_spec h p l e :
    rep h p l → e ∈ l →
    ∃ h' q, del h p e = Some (h', q) ∧ rep h' q (filter (λ x, x ≠ e) l) ∧ fresh h' e ∧
      (∀ q m, rep h q m → (∀ x, x ∈ l → x ∉ m) → rep h' q m) ∧
      (∀ x, x ∉ l → fresh h x → fresh h' x);
  next_spec h p l1 e l2 : rep h p (l1 ++ e :: l2) → next h e = Some (first l2 0)
}.

Module Htab.

(** ** The standard link functions *)

Definition he_add (h : links) (head new : Z) : option (links * Z) :=
  if head =? 0 then Some (h, new)
  else
    h ← set_next h new head;
    h ← set_prev h head new;
    Some (h, new).

Definition he_del (h : links) (head ent : Z) : option (links * Z) :=
  n ← h !! ent;
  let prev := dl_prev n in
  let next := dl_next n in
  if head =? ent then
    if next =? 0 then Some (h, 0)
    else
      h ← set_prev h next 0;
      h ← set_next h ent 0;
      Some (h, next)
  else if next =? 0 then
    h ← set_next h prev 0;
    h ← set_prev h ent 0;
    Some (h, head)
  else
    h ← set_next h prev next;
    h ← set_prev h next prev;
    h ← set_next h ent 0;
    h ← set_prev h ent 0;
    Some (h, head).

Definition he_next (h : links) (ent : Z) : option Z :=
  n ← h !! ent;
  Some (dl_next n).

(** ** The table *)

Definition ENOENT : Z := 2.
Definition ENOMEM : Z := 12.

(** A bucket, with the address it was allocated at. *)
Record dt_hbucket := mk_bucket {
  bk_addr : Z;
  bk_hval : Z;
  bk_head : Z;
  bk_nentries : Z
}.

Record dt_htab := mk_htab {
  tab : list (list dt_hbucket);
  size : Z;
  mask : Z;
  nbuckets : Z;
  nentries : Z
}.

Record dt_htab_iter := mk_iter {
  it_idx : Z;
  it_bucket : Z;
  it_ent : Z;
  it_exhausted : bool
}.

Section table.
Context {H : Type} `{HtabOps H}.

(** [m1] and [m2]: the two allocations succeed; [None] is NULL. *)
Definition dt_htab_create (m1 m2 : bool) : option dt_htab :=
  if negb m1 then None
  else
    let sz := 1 in
    if negb m2 then None
    else Some (mk_htab (replicate (Z.to_nat sz) []) sz (sz - 1) 0 0).

(** The inner loop of [resize]: the buckets of a slot move to the new table. *)
Fixpoint resize_slot (nmask : Z) (ntab : list (list dt_hbucket)) (bs : list dt_hbucket) :
    option (list (list dt_hbucket)) :=
  match bs with
  | [] => Some ntab
  | b :: bs =>
      let idx := Z.to_nat (Z.land (bk_hval b) nmask) in
      s ← ntab !! idx;
      resize_slot nmask (<[idx := b :: s]> ntab) bs
  end.

Fixpoint resize_loop (nmask : Z) (ntab : list (list dt_hbucket)) (slots : list (list dt_hbucket)) :
    option (list (list dt_hbucket)) :=
  match slots with
  | [] => Some ntab
  | bs :: slots => ntab ← resize_slot nmask ntab bs; resize_loop nmask ntab slots
  end.

(** [m]: the new table can be allocated. *)
Definition resize (m : bool) (htab : dt_htab) : option (Z * dt_htab) :=
  let osize := size htab in
  let nsize := Z.shiftl osize 1 in
  let nmask := nsize - 1 in
  if negb m then Some (- ENOMEM, htab)
  else
    ntab ← resize_loop nmask (replicate (Z.to_nat nsize) []) (take (Z.to_nat osize) (tab htab));
    Some (0, mk_htab ntab nsize nmask (nbuckets htab) (nentries htab)).

(** The bucket of a slot whose head is equal to the entry: its place. *)
Fixpoint find_bucket (slot : list dt_hbucket) (entry : Z) : option nat :=
  match slot with
  | [] => None
  | b :: slot =>
      if cmp (bk_head b) entry =? 0 then Some O else S <$> find_bucket slot entry
  end.

(** From the label [add]. *)
Definition add_entry (h : H) (htab : dt_htab) (idx : nat) (slot : list dt_hbucket) (k : nat)
    (entry : Z) : option (Z * H * dt_htab) :=
  b ← slot !! k;
  '(h, p) ← add h (bk_head b) entry;
  let b := mk_bucket (bk_addr b) (bk_hval b) p (s32 (bk_nentries b + 1)) in
  Some (0, h, mk_htab (<[idx := <[k := b]> slot]> (tab htab)) (size htab) (mask htab)
                (nbuckets htab) (u64 (nentries htab + 1))).

(** From the label [retry].  [mr]: the allocation of the next call of [resize]
    succeeds; [mb]: the address of a new bucket, if it can be allocated.  Each
    turn doubles the size. *)
Fixpoint insert_loop (fuel : nat) (mr : nat → bool) (mb : option Z) (h : H) (htab : dt_htab)
    (hv entry : Z) : option (Z * H * dt_htab) :=
  let idx := Z.to_nat (Z.land hv (mask htab)) in
  slot ← tab htab !! idx;
  match find_bucket slot entry with
  | Some k => add_entry h htab idx slot k entry
  | None =>
      if size htab <? Z.shiftr (nbuckets htab) 1 then
        match fuel with
        | O => None
        | S fuel =>
            '(err, htab) ← resize (mr fuel) htab;
            if negb (err =? 0) then Some (err, h, htab)
            else insert_loop fuel mr mb h htab hv entry
        end
      else
        match mb with
        | None => Some (- ENOMEM, h, htab)
        | Some a =>
            let slot := mk_bucket a hv 0 0 :: slot in
            let htab := mk_htab (<[idx := slot]> (tab htab)) (size htab) (mask htab)
                          (s32 (nbuckets htab + 1)) (nentries htab) in
            add_entry h htab idx slot 0 entry
        end
  end.

Definition dt_htab_insert (mr : nat → bool) (mb : option Z) (h : H) (htab : dt_htab) (entry : Z) :
    option (Z * H * dt_htab) :=
  insert_loop 32 mr mb h htab (hval entry) entry.

Definition dt_htab_lookup (htab : dt_htab) (entry : Z) : option Z :=
  let idx := Z.to_nat (Z.land (hval entry) (mask htab)) in
  slot ← tab htab !! idx;
  match find_bucket slot entry with
  | Some k => b ← slot !! k; Some (bk_head b)
  | None => Some 0
  end.

Definition dt_htab_delete (h : H) (htab : dt_htab) (entry : Z) : option (Z * H * dt_htab) :=
  let idx := Z.to_nat (Z.land (hval entry) (mask htab)) in
  slot ← tab htab !! idx;
  match find_bucket slot entry with
  | None => Some (- ENOENT, h, htab)
  | Some k =>
      b ← slot !! k;
      '(h, p) ← del h (bk_head b) entry;
      let n := u64 (nentries htab - 1) in
      if p =? 0 then
        Some (0, h, mk_htab (<[idx := delete k slot]> (tab htab)) (size htab) (mask htab)
                      (s32 (nbuckets htab - 1)) n)
      else
        let b := mk_bucket (bk_addr b) (bk_hval b) p (s32 (bk_nentries b - 1)) in
        Some (0, h, mk_htab (<[idx := <[k := b]> slot]> (tab htab)) (size htab) (mask htab)
                      (nbuckets htab) n)
  end.

(** The buckets of a slot from the one at an address on. *)
Fixpoint from_addr (a : Z) (slot : list dt_hbucket) : list dt_hbucket :=
  match slot with
  | [] => []
  | b :: slot' => if bk_addr b =? a then slot else from_addr a slot'
  end.

(** The inner loop of [dt_htab_next], from the first of the given buckets: the
    next bucket and entry, unless the slot is exhausted. *)
Fixpoint next_bucket (h : H) (bs : list dt_hbucket) (ent : Z) : option (option (Z * Z)) :=
  match bs with
  | [] => Some None
  | b :: bs =>
      e ← (if ent =? 0 then Some (bk_head b) else next h ent);
      if negb (e =? 0) then Some (Some (bk_addr b, e))
      else next_bucket h bs 0
  end.

(** The outer loop over the slots from [idx] on. *)
Fixpoint next_slot (h : H) (slots : list (list dt_hbucket)) (idx bucket ent : Z) :
    option dt_htab_iter :=
  match slots with
  | [] => Some (mk_iter idx 0 0 true)
  | [] :: slots => next_slot h slots (idx + 1) 0 0
  | slot :: slots =>
      let bs := if bucket =? 0 then slot else from_addr bucket slot in
      r ← next_bucket h bs ent;
      match r with
      | Some (b, e) => Some (mk_iter idx b e false)
      | None => next_slot h slots (idx + 1) 0 0
      end
  end.

(** A call with an iterator: [None] as the new iterator when it is freed. *)
Definition next_step (h : H) (htab : dt_htab) (i : dt_htab_iter) : option (Z * option dt_htab_iter) :=
  if it_exhausted i then Some (0, None)
  else
    let ret := it_ent i in
    i ← next_slot h (drop (Z.to_nat (it_idx i)) (tab htab)) (it_idx i) (it_bucket i) (it_ent i);
    Some (ret, Some i).

(** [m]: the iterator can be allocated. *)
Definition dt_htab_next (m : bool) (h : H) (htab : dt_htab) (it : option dt_htab_iter) :
    option (Z * option dt_htab_iter) :=
  match it with
  | None =>
      if negb m then Some (0, None)
      else
        '(_, it) ← next_step h htab (mk_iter 0 0 0 false);
        i ← it;
        next_step h htab i
  | Some i => next_step h htab i
  end.

(** [while (bucket->head)] of [dt_htab_destroy]. *)
Fixpoint empty_bucket (fuel : nat) (h : H) (p : Z) : option H :=
  if p =? 0 then Some h
  else match fuel with
  | O => None
  | S fuel => '(h, p) ← del h p p; empty_bucket fuel h p
  end.

Fixpoint destroy_loop (h : H) (bs : list dt_hbucket) : option H :=
  match bs with
  | [] => Some h
  | b :: bs => h ← empty_bucket (Z.to_nat (bk_nentries b)) h (bk_head b); destroy_loop h bs
  end.

(** The table's own memory is freed; what is left is the entries'. *)
Definition dt_htab_destroy (h : H) (htab : option dt_htab) : option H :=
  match htab with
  | None => Some h
  | Some htab => destroy_loop h (concat (take (Z.to_nat (size htab)) (tab htab)))
  end.

Definition dt_htab_entries (htab : dt_htab) : Z := nentries htab.

End table.

(** ** The standard link functions meet the interface *)

Section std.
Context (hv : Z → Z) (cm : Z → Z → Z).

Instance std_ops : HtabOps links :=
  {| hval := hv; cmp := cm; add := he_add; del := he_del; next := he_next |}.

Definition std_rep (h : links) (p : Z) (l : list Z) : Prop :=
  p = first l 0 ∧ dll h 0 l 0 ∧ NoDup l ∧ 0 ∉ l.
Definition std_fresh (h : links) (e : Z) : Prop := h !! e = Some (mk_links 0 0) ∧ e ≠ 0.

Lemma std_frame h h' (m : list Z) :
  (∀ x, x ∉ m → h' !! x = h !! x) →
  (∀ q l, std_rep h q l → (∀ x, x ∈ m → x ∉ l) → std_rep h' q l) ∧
  (∀ x, x ∉ m → std_fresh h x → std_fresh h' x).
Proof.
  intros Hf. split.
  - intros q l (? & Hl & ? & ?) Hdis. split_and!; try done. eapply dll_frame; [|done].
    intros x Hx. apply Hf. intros Hm. by eapply Hdis.
  - intros x Hx [? ?]. split; [|done]. by rewrite Hf.
Qed.

Lemma he_add_spec h p l e :
  std_rep h p l → std_fresh h e → e ∉ l →
  ∃ h', he_add h p e = Some (h', e) ∧ std_rep h' e (e :: l) ∧
    (∀ x, x ∉ e :: l → h' !! x = h !! x).
Proof.
  intros (-> & Hl & Hnd & H0) [He Hne] Hin. unfold he_add. destruct l as [|x l].
  - eexists. split; [done|]. split; [|done]. split; [done|]. split; [done|].
    split; [apply NoDup_singleton|set_solver].
  - unfold first. simpl. assert (x ≠ 0 ∧ x ≠ e) as [? ?] by set_solver.
    replace (x =? 0) with false by lia. destruct Hl as [Hx Hl]. unfold set_next, set_prev.
    rewrite He. simpl. simplify_map_eq. eexists. split; [done|]. apply NoDup_cons in Hnd as [Hxl Hnd].
    split.
    + split; [done|]. split.
      * split; [by simplify_map_eq|]. split; [by simplify_map_eq|].
        repeat apply dll_insert; set_solver.
      * split; [|set_solver]. repeat (apply NoDup_cons; split; [set_solver|]). done.
    + intros y Hy. rewrite !lookup_insert_ne by set_solver. done.
Qed.

Lemma he_del_spec h p l e :
  std_rep h p l → e ∈ l →
  ∃ h' q, he_del h p e = Some (h', q) ∧ std_rep h' q (filter (λ x, x ≠ e) l) ∧ std_fresh h' e ∧
    (∀ x, x ∉ l → h' !! x = h !! x).
Proof.
  intros (-> & Hl & Hnd & H0) Hin. apply list_elem_of_split in Hin as (l1 & l2 & ->).
  rewrite DtList.delete_split by done.
  destruct (DtList.nodup_mid _ _ _ Hnd) as (N1 & N2 & X1 & X2 & N12 & Hdis).
  apply dll_app in Hl as [Hl1 [He Hl2]]. unfold first in Hl1. simpl in Hl1.
  unfold he_del. rewrite He. cbn [mbind option_bind dl_prev dl_next]. unfold set_next, set_prev, std_rep, std_fresh.
  assert (e ≠ 0) by set_solver.
  destruct l1 as [|x l1 _] using rev_ind; destruct l2 as [|y l2].
  - unfold first. simpl. rewrite Z.eqb_refl. simpl. do 2 eexists. split; [done|].
    split_and!; first [done | apply NoDup_nil_2 | set_solver].
  - unfold first. simpl. rewrite Z.eqb_refl. assert (y ≠ 0 ∧ y ≠ e) as [? ?] by set_solver.
    replace (y =? 0) with false by lia. destruct Hl2 as [Hy Hl2]. rewrite Hy. simpl.
    simplify_map_eq. do 2 eexists. split; [done|]. apply NoDup_cons in N2 as [? ?].
    split; [|split; [by simplify_map_eq|]].
    + split; [done|]. split; [|set_solver]. split; [by simplify_map_eq|].
      repeat apply dll_insert; set_solver.
    + intros z Hz. rewrite !lookup_insert_ne by set_solver. done.
  - apply dll_last in Hl1 as [Hl1 Hx]. rewrite final_snoc.
    replace (first ((l1 ++ [x]) ++ [e]) 0 =? e) with false
      by (symmetry; apply Z.eqb_neq; destruct l1; unfold first; simpl; set_solver).
    simpl. rewrite Hx. simpl. assert (x ≠ 0 ∧ x ≠ e) as [? ?] by set_solver. simplify_map_eq.
    apply NoDup_app in N1 as (N1 & Hx1 & _).
    do 2 eexists. split; [done|]. rewrite app_nil_r. split; [|split; [by simplify_map_eq|]].
    + split; [by destruct l1|]. split; [|split; [by rewrite app_nil_r in N12|set_solver]].
      apply dll_last. split; [|by simplify_map_eq]. repeat apply dll_insert; set_solver.
    + intros z Hz. rewrite !lookup_insert_ne by set_solver. done.
  - apply dll_last in Hl1 as [Hl1 Hx]. rewrite final_snoc. destruct Hl2 as [Hy Hl2].
    assert (x ≠ 0 ∧ x ≠ e ∧ y ≠ 0 ∧ y ≠ e ∧ x ≠ y) as (? & ? & ? & ? & ?) by set_solver.
    replace (first ((l1 ++ [x]) ++ e :: y :: l2) 0 =? e) with false
      by (symmetry; apply Z.eqb_neq; destruct l1; unfold first; simpl; set_solver).
    change (first (y :: l2) 0) with y. replace (y =? 0) with false by lia. rewrite Hx. simpl.
    simplify_map_eq. apply NoDup_app in N1 as (N1 & Hx1 & _). apply NoDup_cons in N2 as [Y2 N2].
    do 2 eexists. split; [done|]. split; [|split; [by simplify_map_eq|]].
    + split; [by destruct l1|]. split; [|split; [done|set_solver]].
      apply dll_app. rewrite final_snoc. split.
      * apply dll_last. split; [|by simplify_map_eq]. repeat apply dll_insert; set_solver.
      * split; [by simplify_map_eq|]. repeat apply dll_insert; set_solver.
    + intros z Hz. rewrite !lookup_insert_ne by set_solver. done.
Qed.

Lemma he_next_spec h p l1 e l2 : std_rep h p (l1 ++ e :: l2) → he_next h e = Some (first l2 0).
Proof.
  intros (_ & Hl & _). apply dll_app in Hl as [_ [He _]]. unfold he_next. by rewrite He.
Qed.

(** The client's part: a comparison of keys and a hash that respects it. *)
Class KeyLaws := {
  key_range e : 0 <= hv e < 2 ^ 32;
  key_refl e : cm e e = 0;
  key_sym e f : cm e f = 0 → cm f e = 0;
  key_trans e f g : cm e f = 0 → cm f g = 0 → cm e g = 0;
  key_hval e f : cm e f = 0 → hv e = hv f
}.

#[refine] Instance std_laws `{KeyLaws} : HtabLaws links :=
  {| rep := std_rep; fresh := std_fresh; hval_range := key_range; cmp_refl := key_refl;
     cmp_sym := key_sym; cmp_trans := key_trans; cmp_hval := key_hval;
     next_spec := he_next_spec |}.
Proof.
  - intros h. split_and!; [done|done|constructor|set_solver].
  - by intros h p l [-> _].
  - by intros h p l (_ & _ & _ & ?).
  - by intros h e [_ ?].
  - intros h p l e Hl He Hin. destruct (he_add_spec h p l e) as (h' & ? & ? & Hf); [done..|].
    exists h'. split; [done|]. split; [done|]. by apply std_frame.
  - intros h p l e Hl Hin. destruct (he_del_spec h p l e) as (h' & q & ? & ? & ? & Hf); [done..|].
    exists h', q. split; [done|]. split; [done|]. split; [done|]. by apply std_frame.
Defined.

End std.

(** ** The table as a list of its entries *)

Section correct.
Context {H : Type} {Ops : HtabOps H} {Laws : HtabLaws H}.

(** A bucket and the entries that hang off it. *)
Abbreviation gbucket := (dt_hbucket * list Z)%type.

Record bucket_ok (h : H) (p : gbucket) : Prop := {
  bo_ne : p.2 ≠ [];
  bo_rep : rep h (bk_head p.1) p.2;
  bo_n : bk_nentries p.1 = Z.of_nat (length p.2);
  bo_hval : ∀ x, x ∈ p.2 → hval x = bk_hval p.1;
  bo_addr : bk_addr p.1 ≠ 0
}.

(** The entries of [L] equal to [x]. *)
Definition equals (L : list Z) (x : Z) : list Z := filter (λ y, cmp y x = 0) L.

(** The buckets [F] hold the entries [L], latest first: one bucket for each
    class of equal entries, with its entries in the order of [L]. *)
Record holds (h : H) (F : list gbucket) (L : list Z) : Prop := {
  holds_ok : ∀ p, p ∈ F → bucket_ok h p;
  holds_addr : NoDup ((λ p, bk_addr p.1) <$> F);
  holds_class : ∀ p q x y, p ∈ F → q ∈ F → x ∈ p.2 → y ∈ q.2 → cmp x y = 0 → p = q;
  holds_agree : ∀ p x, p ∈ F → x ∈ p.2 → p.2 = equals L x;
  holds_in : ∀ x, x ∈ L → ∃ p, p ∈ F ∧ x ∈ p.2;
  holds_nodup : NoDup L
}.

#[global] Instance holds_perm h : Proper ((≡ₚ) ==> eq ==> iff) (holds h).
Proof.
  assert (∀ F F' L, F ≡ₚ F' → holds h F L → holds h F' L) as Himp.
  { intros F F' L HF [Hok Haddr Hcls Hagr Hin Hnd]. split; try done.
    - intros p. rewrite <- HF. apply Hok.
    - by rewrite <- HF.
    - intros p q x y. rewrite <- HF. apply Hcls.
    - intros p x. rewrite <- HF. apply Hagr.
    - intros x Hx. destruct (Hin x Hx) as (p & Hp & ?). exists p. by rewrite <- HF. }
  intros F F' HF L ? <-. split; apply Himp; [done|by symmetry].
Qed.

Lemma elem_of_equals L x y : y ∈ equals L x ↔ cmp y x = 0 ∧ y ∈ L.
Proof. unfold equals. by rewrite list_elem_of_filter. Qed.

Lemma holds_elem h F L p x : holds h F L → p ∈ F → x ∈ p.2 → x ∈ L.
Proof. intros Hh Hp Hx. rewrite (holds_agree _ _ _ Hh p x) in Hx by done. by apply elem_of_equals in Hx as [_ ?]. Qed.

Lemma holds_notin h p R L : holds h (p :: R) L → p ∉ R.
Proof.
  intros Hh Hp. pose proof (holds_addr _ _ _ Hh) as Hnd. apply NoDup_cons in Hnd as [Hnd _].
  apply Hnd. apply list_elem_of_fmap. eauto.
Qed.

(** Different buckets have different entries. *)
Lemma holds_disjoint h p R L q x : holds h (p :: R) L → q ∈ R → x ∈ p.2 → x ∉ q.2.
Proof.
  intros Hh Hq Hx Hx'. apply (holds_notin _ _ _ _ Hh).
  rewrite (holds_class _ _ _ Hh p q x x); [done|by left|by right|done|done|apply cmp_refl].
Qed.

Lemma bucket_head h p : bucket_ok h p → bk_head p.1 ∈ p.2 ∧ bk_head p.1 ≠ 0.
Proof.
  intros Hp. pose proof (rep_head _ _ _ (bo_rep _ _ Hp)) as E. pose proof (rep_null _ _ _ (bo_rep _ _ Hp)) as H0.
  pose proof (bo_ne _ _ Hp) as Hne. destruct p.2 as [|x l]; [done|]. rewrite E. unfold first. simpl.
  split; [left|]. intros ->. apply H0. left.
Qed.

Lemma bucket_ok_frame h h' p :
  bucket_ok h p → (∀ q m, rep h q m → q = bk_head p.1 → m = p.2 → rep h' q m) → bucket_ok h' p.
Proof. intros [] Hf. split; try done. by apply Hf. Qed.

Lemma equals_cons L e x : equals (e :: L) x = if cmp e x =? 0 then e :: equals L x else equals L x.
Proof.
  unfold equals. destruct (Z.eqb_spec (cmp e x) 0); [by rewrite filter_cons_True|].
  by rewrite filter_cons_False.
Qed.

Lemma cmp_equiv_l e f x : cmp e f = 0 → (cmp e x =? 0) = (cmp f x =? 0).
Proof.
  intros E. apply eq_true_iff_eq. rewrite !Z.eqb_eq. split; intros E'.
  - eapply cmp_trans; [by apply cmp_sym|done].
  - by eapply cmp_trans.
Qed.

(** Adding an entry to the bucket of its class. *)
Lemma holds_add h h' b l R L e b' :
  holds h ((b, l) :: R) L → e ∉ L → cmp (bk_head b) e = 0 →
  rep h' e (e :: l) → (∀ q m, rep h q m → (∀ x, x ∈ e :: l → x ∉ m) → rep h' q m) →
  b' = mk_bucket (bk_addr b) (bk_hval b) e (bk_nentries b + 1) →
  holds h' ((b', e :: l) :: R) (e :: L).
Proof.
  intros Hh He Hcmp Hrep Hframe ->.
  assert (bucket_ok h (b, l)) as Hb by (apply Hh; left).
  destruct (bucket_head _ _ Hb) as [Hhd _]. simpl in Hhd.
  assert (l = equals L (bk_head b)) as Hl by (eapply (holds_agree _ _ _ Hh (b, l)); [left|done]).
  assert (∀ y, y ∈ l → cmp e y = 0) as Hey.
  { intros y Hy. rewrite Hl in Hy. apply elem_of_equals in Hy as [Hy _].
    apply cmp_sym. by eapply cmp_trans. }
  assert (∀ q x, q ∈ R → x ∈ q.2 → cmp e x ≠ 0) as Hother.
  { intros q x Hq Hx E. apply (holds_notin _ _ _ _ Hh).
    rewrite (holds_class _ _ _ Hh (b, l) q (bk_head b) x);
      [done|left|by right|done|done|by eapply cmp_trans]. }
  split.
  - intros p [->|Hp]%elem_of_cons.
    + destruct Hb as [_ _ Hn Hhv Ha]. simpl in *. split; simpl; try done; [lia|].
      intros x [->|Hx]%elem_of_cons; [|by apply Hhv].
      rewrite <- (cmp_hval _ _ Hcmp). by apply Hhv.
    + assert (bucket_ok h p) as Hp' by (apply Hh; by right).
      eapply bucket_ok_frame; [done|]. intros q m Hqm -> ->. apply Hframe; [done|].
      intros x [->|Hx]%elem_of_cons Hx'.
      * apply He. eapply holds_elem; [done|right; done|done].
      * by eapply (holds_disjoint _ (b, l)).
  - apply (holds_addr _ _ _ Hh).
  - intros p q x y [->|Hp]%elem_of_cons [->|Hq]%elem_of_cons Hx Hy E; simpl in *.
    + done.
    + exfalso. apply (Hother q y); [done|done|].
      apply elem_of_cons in Hx as [->|Hx]; [done|]. eapply cmp_trans; [by apply Hey|done].
    + exfalso. apply (Hother p x); [done|done|]. apply cmp_sym in E.
      apply elem_of_cons in Hy as [->|Hy]; [done|]. eapply cmp_trans; [by apply Hey|done].
    + eapply (holds_class _ _ _ Hh); [by right|by right|done|done|done].
  - intros p x [->|Hp]%elem_of_cons Hx; simpl in *; rewrite equals_cons.
    + assert (cmp e x = 0) as Hex by (apply elem_of_cons in Hx as [->|Hx]; [apply cmp_refl|by apply Hey]).
      rewrite Hex. simpl. f_equal. rewrite Hl. unfold equals. apply list_filter_iff.
      intros y. assert (cmp (bk_head b) x = 0) by (by eapply cmp_trans).
      split; intros; [by eapply cmp_trans|]. eapply cmp_trans; [done|by apply cmp_sym].
    + destruct (Z.eqb_spec (cmp e x) 0) as [E|]; [by destruct (Hother p x Hp Hx)|].
      eapply (holds_agree _ _ _ Hh); [by right|done].
  - intros x [->|Hx]%elem_of_cons; [eexists; split; [left|left]|].
    destruct (holds_in _ _ _ Hh x Hx) as (p & [->|Hp]%elem_of_cons & Hxp).
    + eexists. split; [left|by right].
    + exists p. split; [by right|done].
  - apply NoDup_cons. split; [done|apply Hh].
Qed.

(** Adding an entry of a new class, in a bucket of its own. *)
Lemma holds_new h h' R L e a :
  holds h R L → (∀ x, x ∈ L → cmp e x ≠ 0) → a ≠ 0 → a ∉ ((λ p, bk_addr p.1) <$> R) →
  rep h' e [e] → (∀ q m, rep h q m → (∀ x, x ∈ [e] → x ∉ m) → rep h' q m) →
  holds h' ((mk_bucket a (hval e) e 1, [e]) :: R) (e :: L).
Proof.
  intros Hh Hnew Ha Haddr Hrep Hframe.
  assert (e ∉ L) as He by (intros He; apply (Hnew e He), cmp_refl).
  assert (∀ q x, q ∈ R → x ∈ q.2 → cmp e x ≠ 0) as Hother.
  { intros q x Hq Hx. apply Hnew. by eapply holds_elem. }
  split.
  - intros p [->|Hp]%elem_of_cons.
    + split; simpl; try done. by intros x ->%list_elem_of_singleton.
    + eapply bucket_ok_frame; [by apply Hh|]. intros q m Hqm -> ->. apply Hframe; [done|].
      intros x ->%list_elem_of_singleton Hx'. apply He. by eapply holds_elem.
  - apply NoDup_cons. split; [done|apply Hh].
  - intros p q x y [->|Hp]%elem_of_cons [->|Hq]%elem_of_cons Hx Hy E; simpl in *.
    + done.
    + apply list_elem_of_singleton in Hx as ->. by destruct (Hother q y).
    + apply list_elem_of_singleton in Hy as ->. apply cmp_sym in E. by destruct (Hother p x).
    + by eapply (holds_class _ _ _ Hh).
  - intros p x [->|Hp]%elem_of_cons Hx; simpl in *; rewrite equals_cons.
    + apply list_elem_of_singleton in Hx as ->. rewrite cmp_refl. simpl. f_equal. symmetry.
      apply list_filter_none. intros y Hy E. apply (Hnew y Hy). by apply cmp_sym.
    + destruct (Z.eqb_spec (cmp e x) 0) as [E|]; [by destruct (Hother p x Hp Hx)|].
      by eapply (holds_agree _ _ _ Hh).
  - intros x [->|Hx]%elem_of_cons; [eexists; split; [left|by left]|].
    destruct (holds_in _ _ _ Hh x Hx) as (p & Hp & Hxp). exists p. split; [by right|done].
  - apply NoDup_cons. split; [done|apply Hh].
Qed.

Lemma equals_remove L e x : equals (filter (λ y, y ≠ e) L) x = filter (λ y, y ≠ e) (equals L x).
Proof.
  unfold equals. rewrite !list_filter_filter. apply list_filter_iff. intros y. simpl. tauto.
Qed.

(** Removing an entry: what it means for the other buckets. *)
Lemma holds_rest h h' b l R L e :
  holds h ((b, l) :: R) L → e ∈ l →
  (∀ q m, rep h q m → (∀ x, x ∈ l → x ∉ m) → rep h' q m) →
  (∀ p, p ∈ R → bucket_ok h' p) ∧
  (∀ p x, p ∈ R → x ∈ p.2 → p.2 = equals (filter (λ y, y ≠ e) L) x).
Proof.
  intros Hh He Hframe. split.
  - intros p Hp. eapply bucket_ok_frame; [apply Hh; by right|]. intros q m Hqm -> ->.
    apply Hframe; [done|]. intros x Hx. by eapply (holds_disjoint _ (b, l)).
  - intros p x Hp Hx. assert (p.2 = equals L x) as E by (eapply holds_agree; [done|by right|done]).
    rewrite equals_remove, <- E. symmetry. apply list_filter_id. intros y Hy ->.
    by eapply (holds_disjoint _ (b, l)).
Qed.

(** Removing an entry that is not the last one of its bucket. *)
Lemma holds_del h h' b l R L e b' q :
  let l' := filter (λ y, y ≠ e) l in
  holds h ((b, l) :: R) L → e ∈ l → l' ≠ [] → rep h' q l' →
  (∀ q m, rep h q m → (∀ x, x ∈ l → x ∉ m) → rep h' q m) →
  b' = mk_bucket (bk_addr b) (bk_hval b) q (bk_nentries b - 1) →
  holds h' ((b', l') :: R) (filter (λ y, y ≠ e) L).
Proof.
  intros l' Hh He Hne Hrep Hframe ->. destruct (holds_rest h h' b l R L e Hh He Hframe) as [Hok Hagr].
  assert (∀ x, x ∈ l' → x ∈ l) as Hsub by (intros x; unfold l'; rewrite list_elem_of_filter; tauto).
  assert (∀ x, x ∈ l → l = equals L x) as Hl by (intros x Hx; apply (holds_agree _ _ _ Hh (b, l) x); [left|done]).
  assert (length l = S (length l')) as Hlen.
  { assert (NoDup l) as Hnd by (rewrite (Hl e He); apply NoDup_filter, Hh).
    apply list_elem_of_split in He as (l1 & l2 & ->). unfold l'.
    rewrite DtList.delete_split by done. rewrite !length_app. simpl. lia. }
  split.
  - intros p [->|Hp]%elem_of_cons; [|by apply Hok].
    destruct (holds_ok _ _ _ Hh (b, l)) as [_ _ Hn Hhv Ha]; [left|]. split; simpl in *; try done; [lia|].
    intros x Hx. by apply Hhv, Hsub.
  - apply (holds_addr _ _ _ Hh).
  - intros p r x y [->|Hp]%elem_of_cons [->|Hr]%elem_of_cons Hx Hy E; simpl in *.
    + done.
    + exfalso. apply (holds_notin _ _ _ _ Hh).
      rewrite (holds_class _ _ _ Hh (b, l) r x y); [done|left|by right|by apply Hsub|done|done].
    + exfalso. apply (holds_notin _ _ _ _ Hh).
      rewrite (holds_class _ _ _ Hh (b, l) p y x);
        [done|left|by right|by apply Hsub|done|by apply cmp_sym].
    + eapply (holds_class _ _ _ Hh); [by right|by right|done|done|done].
  - intros p x [->|Hp]%elem_of_cons Hx; [|by apply Hagr]. simpl in *.
    rewrite equals_remove, <- (Hl x) by auto. done.
  - intros x [Hxe Hx]%list_elem_of_filter.
    destruct (holds_in _ _ _ Hh x Hx) as (p & [->|Hp]%elem_of_cons & Hxp).
    + eexists. split; [left|]. by apply list_elem_of_filter.
    + exists p. split; [by right|done].
  - apply NoDup_filter, Hh.
Qed.

(** Removing the last entry of a bucket, and the bucket. *)
Lemma holds_del_last h h' b l R L e :
  holds h ((b, l) :: R) L → e ∈ l → filter (λ y, y ≠ e) l = [] →
  (∀ q m, rep h q m → (∀ x, x ∈ l → x ∉ m) → rep h' q m) →
  holds h' R (filter (λ y, y ≠ e) L).
Proof.
  intros Hh He Hnil Hframe. destruct (holds_rest h h' b l R L e Hh He Hframe) as [Hok Hagr].
  split; try done.
  - apply (NoDup_cons_1_2 _ _ (holds_addr _ _ _ Hh)).
  - intros p q x y Hp Hq. apply (holds_class _ _ _ Hh); by right.
  - intros x [Hxe Hx]%list_elem_of_filter.
    destruct (holds_in _ _ _ Hh x Hx) as (p & [->|Hp]%elem_of_cons & Hxp); [|eauto].
    exfalso. apply (not_elem_of_nil x). rewrite <- Hnil. by apply list_elem_of_filter.
  - apply NoDup_filter, Hh.
Qed.

(** ** The slots *)

(** Every bucket is in the slot its hash selects. *)
Definition placed (G : list (list gbucket)) (m : Z) : Prop :=
  ∀ i sl p, G !! i = Some sl → p ∈ sl → Z.land (bk_hval p.1) m = Z.of_nat i.

Abbreviation buckets G := (fmap (M := list) (fmap (M := list) fst) G).

Record inv (h : H) (t : dt_htab) (G : list (list gbucket)) (L : list Z) : Prop := {
  inv_tab : tab t = buckets G;
  inv_size : ∃ k, 0 <= k <= 30 ∧ size t = 2 ^ k;
  inv_mask : mask t = size t - 1;
  inv_len : Z.of_nat (length G) = size t;
  inv_placed : placed G (mask t);
  inv_nbuckets : nbuckets t = Z.of_nat (length (concat G));
  inv_nentries : nentries t = Z.of_nat (length L);
  inv_holds : holds h (concat G) L
}.

(** The table [t] in memory [h] holds the entries [L], latest first. *)
Definition table (h : H) (t : dt_htab) (L : list Z) : Prop := ∃ G, inv h t G L.

Lemma land_size_mask x k : 0 <= k → 0 <= Z.land x (2 ^ k - 1) < 2 ^ k.
Proof.
  intros Hk. replace (2 ^ k - 1) with (Z.ones k) by (rewrite Z.ones_equiv; lia).
  by apply land_low_range.
Qed.

(** The slot an entry belongs to. *)
Lemma inv_slot h t G L x :
  inv h t G L →
  let idx := Z.to_nat (Z.land x (mask t)) in
  ∃ sl, G !! idx = Some sl ∧ tab t !! idx = Some (fst <$> sl) ∧ Z.of_nat idx = Z.land x (mask t).
Proof.
  intros Hinv idx. destruct (inv_size _ _ _ _ Hinv) as (k & Hk & Hs).
  pose proof (land_size_mask x k ltac:(lia)) as Hr. rewrite <- Hs, <- (inv_mask _ _ _ _ Hinv) in Hr.
  destruct (lookup_lt_is_Some_2 G idx) as [sl Hsl].
  { pose proof (inv_len _ _ _ _ Hinv). unfold idx. lia. }
  exists sl. split; [done|]. rewrite (inv_tab _ _ _ _ Hinv), list_lookup_fmap, Hsl.
  split; [done|]. unfold idx. lia.
Qed.

Lemma find_bucket_spec (sl : list gbucket) e :
  match find_bucket (fst <$> sl) e with
  | Some k => ∃ b l, sl !! k = Some (b, l) ∧ cmp (bk_head b) e = 0
  | None => ∀ p, p ∈ sl → cmp (bk_head p.1) e ≠ 0
  end.
Proof.
  induction sl as [|[b l] sl IH]; [by intros p ?%elem_of_nil|].
  rewrite fmap_cons. cbn [find_bucket fst].
  destruct (Z.eqb_spec (cmp (bk_head b) e) 0) as [E|E]; [by exists b, l|].
  destruct (find_bucket (fst <$> sl) e) as [k|]; simpl.
  - exact IH.
  - intros p [->|Hp]%elem_of_cons; [done|by apply IH].
Qed.

(** An entry equal to a stored one is in the slot searched. *)
Lemma absent h t G L e sl :
  inv h t G L → G !! Z.to_nat (Z.land (hval e) (mask t)) = Some sl →
  (∀ p, p ∈ sl → cmp (bk_head p.1) e ≠ 0) → ∀ x, x ∈ L → cmp e x ≠ 0.
Proof.
  intros Hinv Hsl Hnone x Hx E. destruct (inv_slot h t G L (hval e) Hinv) as (sl' & Hsl' & _ & Hi).
  rewrite Hsl in Hsl'. injection Hsl' as <-.
  destruct (holds_in _ _ _ (inv_holds _ _ _ _ Hinv) x Hx) as (p & Hp & Hxp).
  pose proof (holds_ok _ _ _ (inv_holds _ _ _ _ Hinv) p Hp) as Hok.
  pose proof (holds_agree _ _ _ (inv_holds _ _ _ _ Hinv) p x Hp Hxp) as Hagr.
  apply elem_of_concat in Hp as (j & slj & Hj & Hp).
  pose proof (inv_placed _ _ _ _ Hinv j slj p Hj Hp) as Hpl.
  rewrite <- (bo_hval _ _ Hok x Hxp), <- (cmp_hval _ _ E), <- Hi in Hpl.
  assert (j = Z.to_nat (Z.land (hval e) (mask t))) as -> by lia.
  rewrite Hsl in Hj. injection Hj as <-. apply (Hnone p Hp).
  destruct (bucket_head _ _ Hok) as [Hhd _]. rewrite Hagr in Hhd.
  apply elem_of_equals in Hhd as [Hhd _]. eapply cmp_trans; [done|by apply cmp_sym].
Qed.

(** Replacing a slot by one with the same or other buckets. *)
Lemma placed_insert G m i sl :
  (i < length G)%nat → placed G m → (∀ p, p ∈ sl → Z.land (bk_hval p.1) m = Z.of_nat i) →
  placed (<[i := sl]> G) m.
Proof.
  intros Hi Hpl Hsl j slj p. rewrite list_lookup_insert_case by done.
  case_decide as Hij; [|apply Hpl]. subst j. intros [= <-]. apply Hsl.
Qed.

Lemma buckets_insert i (sl : list gbucket) G : buckets (<[i := sl]> G) = <[i := fst <$> sl]> (buckets G).
Proof. apply list_fmap_insert. Qed.

Lemma inv_update h t G L idx sl sl' h' t' L' :
  inv h t G L → G !! idx = Some sl →
  (∀ p, p ∈ sl' → Z.land (bk_hval p.1) (mask t) = Z.of_nat idx) →
  tab t' = <[idx := fst <$> sl']> (tab t) → size t' = size t → mask t' = mask t →
  nbuckets t' = nbuckets t + Z.of_nat (length sl') - Z.of_nat (length sl) →
  nentries t' = Z.of_nat (length L') →
  (∀ R, concat G ≡ₚ sl ++ R → holds h (sl ++ R) L → holds h' (sl' ++ R) L') →
  inv h' t' (<[idx := sl']> G) L'.
Proof.
  intros [Ht Hs Hm Hl Hp Hnb Hne Hh] Hsl Hpl' Ht' Hs' Hm' Hnb' Hne' Himp.
  assert (idx < length G)%nat as Hidx by (by eapply lookup_lt_Some).
  destruct (concat_slot G idx sl Hsl) as (R & HR & HR').
  split; rewrite ?Hs', ?Hm', ?length_insert; try done.
  - by rewrite Ht', Ht, buckets_insert.
  - by apply placed_insert.
  - rewrite Hnb', Hnb, HR, HR', !length_app. lia.
  - rewrite HR'. apply Himp; [done|]. by rewrite <- HR.
Qed.

Lemma slot_split {A} (sl : list A) k p R :
  sl !! k = Some p →
  ∃ R', sl ++ R ≡ₚ p :: R' ∧ (∀ p', <[k := p']> sl ++ R ≡ₚ p' :: R') ∧ delete k sl ++ R ≡ₚ R'.
Proof.
  intros Hk. apply list_elem_of_split_length in Hk as (s1 & s2 & -> & ->).
  exists (s1 ++ s2 ++ R). split; [|split].
  - rewrite <- app_assoc. simpl. by rewrite <- Permutation_middle.
  - intros p'. rewrite insert_app_r_alt, Nat.sub_diag by lia. simpl.
    rewrite <- app_assoc. simpl. by rewrite <- Permutation_middle.
  - rewrite delete_middle. by rewrite <- app_assoc.
Qed.

(** The entries not in the table stay apart from it. *)
Definition keeps_fresh (h h' : H) (L : list Z) (e : Z) : Prop :=
  ∀ x, x ≠ e → x ∉ L → fresh h x → fresh h' x.

Lemma equals_length L x : (length (equals L x) <= length L)%nat.
Proof. unfold equals. induction L as [|y L IH]; [done|]. rewrite filter_cons. case_decide; simpl; lia. Qed.

Lemma in_slot h t G L idx sl k p :
  inv h t G L → G !! idx = Some sl → sl !! k = Some p →
  p ∈ concat G ∧ Z.land (bk_hval p.1) (mask t) = Z.of_nat idx ∧ bucket_ok h p ∧
  p.2 = equals L (bk_head p.1) ∧ (∀ x, x ∈ p.2 → x ∈ L).
Proof.
  intros Hinv Hsl Hk. apply list_elem_of_lookup_2 in Hk.
  assert (p ∈ concat G) as Hp by (apply elem_of_concat; eauto).
  pose proof (inv_holds _ _ _ _ Hinv) as Hh. pose proof (holds_ok _ _ _ Hh p Hp) as Hok.
  destruct (bucket_head _ _ Hok) as [Hhd _].
  split; [done|]. split; [by eapply inv_placed|]. split; [done|].
  split; [by apply (holds_agree _ _ _ Hh)|]. intros x. by apply (holds_elem _ _ _ _ _ Hh).
Qed.

Lemma add_found h t G L e idx sl k b l :
  inv h t G L → G !! idx = Some sl → sl !! k = Some (b, l) → cmp (bk_head b) e = 0 →
  e ∉ L → fresh h e → Z.of_nat (length L) < 2 ^ 31 - 1 →
  ∃ h' t', add_entry h t idx (fst <$> sl) k e = Some (0, h', t') ∧ table h' t' (e :: L) ∧
    keeps_fresh h h' L e.
Proof.
  intros Hinv Hsl Hk Hcmp He Hf Hb. unfold add_entry. rewrite list_lookup_fmap, Hk. simpl.
  destruct (in_slot _ _ _ _ _ _ _ _ Hinv Hsl Hk) as (Hp & Hpl & Hok & Hl & Hsub). simpl in *.
  assert (e ∉ l) as Hel by (intros Hx; by apply He, Hsub).
  destruct (add_spec h (bk_head b) l e (bo_rep _ _ Hok) Hf Hel) as (h' & Hadd & Hrep & Hframe & Hfr).
  rewrite Hadd. cbn [mbind option_bind]. do 2 eexists. split; [done|]. split.
  - exists (<[idx := <[k := (mk_bucket (bk_addr b) (bk_hval b) e (bk_nentries b + 1), e :: l)]> sl]> G).
    eapply inv_update; [done|done|..]; simpl; try done.
    + intros p (j & Hj)%list_elem_of_lookup. rewrite list_lookup_insert_case in Hj by (by eapply lookup_lt_Some).
      case_decide; [by simplify_eq|]. eapply (inv_placed _ _ _ _ Hinv idx sl); [done|].
      by eapply list_elem_of_lookup_2.
    + rewrite list_fmap_insert. simpl. pose proof (bo_n _ _ Hok) as Hn. simpl in Hn.
      pose proof (equals_length L (bk_head b)). rewrite <- Hl in *.
      rewrite swrap_id by (unfold srange; try change (32 - 1) with 31; lia). done.
    + rewrite length_insert. lia.
    + rewrite (inv_nentries _ _ _ _ Hinv), wrap_id by (unfold urange; lia). lia.
    + intros R _ HR. destruct (slot_split sl k (b, l) R Hk) as (R' & E1 & E2 & _).
      rewrite E2. eapply holds_add; [by rewrite <- E1|done..].
  - intros x Hx HxL. apply Hfr. intros [->|Hin]%elem_of_cons; [done|]. by apply HxL, Hsub.
Qed.

Lemma add_new h t G L e a sl :
  let idx := Z.to_nat (Z.land (hval e) (mask t)) in
  inv h t G L → G !! idx = Some sl → (∀ x, x ∈ L → cmp e x ≠ 0) → fresh h e →
  a ≠ 0 → a ∉ ((λ p, bk_addr p.1) <$> concat G) →
  Z.of_nat (length L) < 2 ^ 31 - 1 → nbuckets t < 2 ^ 31 - 1 →
  let slot := mk_bucket a (hval e) 0 0 :: (fst <$> sl) in
  let t1 := mk_htab (<[idx := slot]> (tab t)) (size t) (mask t) (s32 (nbuckets t + 1)) (nentries t) in
  ∃ h' t', add_entry h t1 idx slot 0 e = Some (0, h', t') ∧ table h' t' (e :: L) ∧
    keeps_fresh h h' L e.
Proof.
  intros idx Hinv Hsl Hnew Hf Ha Haddr Hb Hnb slot t1. unfold add_entry, slot. simpl.
  destruct (add_spec h 0 [] e (rep_nil h) Hf) as (h' & Hadd & Hrep & Hframe & Hfr); [set_solver|].
  rewrite Hadd. cbn [mbind option_bind]. do 2 eexists. split; [done|].
  destruct (inv_slot _ _ _ _ (hval e) Hinv) as (sl' & Hsl' & _ & Hidx). fold idx in Hsl', Hidx.
  rewrite Hsl in Hsl'. injection Hsl' as <-. split.
  - exists (<[idx := (mk_bucket a (hval e) e 1, [e]) :: sl]> G).
    eapply inv_update; [done|done|..]; simpl; try done.
    + intros p [->|Hp]%elem_of_cons; [done|]. by eapply (inv_placed _ _ _ _ Hinv idx sl).
    + by rewrite list_insert_insert_eq.
    + rewrite swrap_id; [lia|lia|]. pose proof (inv_nbuckets _ _ _ _ Hinv). unfold srange.
      change (32 - 1) with 31. lia.
    + rewrite (inv_nentries _ _ _ _ Hinv), wrap_id by (unfold urange; lia). lia.
    + intros R HG HR. eapply holds_new; try done. by rewrite <- HG.
  - intros x Hx _. apply Hfr. set_solver.
Qed.

(** ** resize *)

Lemma resize_slot_spec k (NG : list (list gbucket)) sl :
  0 <= k → Z.of_nat (length NG) = 2 ^ k → placed NG (2 ^ k - 1) →
  ∃ NG', resize_slot (2 ^ k - 1) (buckets NG) (fst <$> sl) = Some (buckets NG') ∧
    length NG' = length NG ∧ placed NG' (2 ^ k - 1) ∧ concat NG' ≡ₚ sl ++ concat NG.
Proof.
  intros Hk. revert NG. induction sl as [|p sl IH]; intros NG Hl Hp; [by exists NG|].
  rewrite fmap_cons. cbn [resize_slot].
  pose proof (land_size_mask (bk_hval p.1) k Hk) as Hr. set (idx := Z.to_nat _).
  destruct (lookup_lt_is_Some_2 NG idx) as [s0 Hs0]; [unfold idx; lia|].
  rewrite list_lookup_fmap, Hs0. cbn [fmap option_fmap option_map mbind option_bind].
  rewrite <- fmap_cons, <- buckets_insert. destruct (concat_slot NG idx s0 Hs0) as (R & HR & HR').
  destruct (IH (<[idx := p :: s0]> NG)) as (NG' & -> & Hl' & Hp' & Hperm).
  - by rewrite length_insert.
  - apply placed_insert; [by eapply lookup_lt_Some|done|]. intros q [->|Hq]%elem_of_cons; [unfold idx; lia|].
    by eapply Hp.
  - exists NG'. rewrite length_insert in Hl'. split_and!; try done. rewrite Hperm, HR', HR. simpl.
    by rewrite <- Permutation_middle.
Qed.

Lemma resize_loop_spec k (G NG : list (list gbucket)) :
  0 <= k → Z.of_nat (length NG) = 2 ^ k → placed NG (2 ^ k - 1) →
  ∃ NG', resize_loop (2 ^ k - 1) (buckets NG) (buckets G) = Some (buckets NG') ∧
    length NG' = length NG ∧ placed NG' (2 ^ k - 1) ∧ concat NG' ≡ₚ concat G ++ concat NG.
Proof.
  intros Hk. revert NG. induction G as [|sl G IH]; intros NG Hl Hp; [by exists NG|].
  rewrite fmap_cons. cbn [resize_loop].
  destruct (resize_slot_spec k NG sl Hk Hl Hp) as (NG1 & -> & Hl1 & Hp1 & E1). cbn [mbind option_bind].
  destruct (IH NG1) as (NG' & -> & Hl' & Hp' & E'); [by rewrite Hl1|done|].
  exists NG'. split_and!; try done; [congruence|]. rewrite E', E1. cbn [concat].
  by rewrite !app_assoc, (Permutation_app_comm (concat G)).
Qed.

Lemma buckets_empty n : replicate n [] = buckets (replicate n ([] : list gbucket)).
Proof. by rewrite fmap_replicate. Qed.

Lemma concat_empty {A} n : concat (replicate n ([] : list A)) = [].
Proof. by induction n. Qed.

Lemma resize_spec m h t G L :
  inv h t G L → size t < 2 ^ 30 →
  ∃ err t', resize m t = Some (err, t') ∧
    (err = - ENOMEM ∧ t' = t ∨
     err = 0 ∧ size t' = 2 * size t ∧ nbuckets t' = nbuckets t ∧
     ∃ G', inv h t' G' L ∧ concat G' ≡ₚ concat G).
Proof.
  intros [Ht (k & Hk & Hs) Hm Hl Hp Hnb Hne Hh] Hsz. unfold resize.
  destruct m; simpl; [|do 2 eexists; split; [done|by left]].
  assert (k < 30) as Hk30 by (apply (Z.pow_lt_mono_r_iff 2); [lia|lia|]; by rewrite <- Hs).
  assert (Z.shiftl (size t) 1 = 2 ^ (k + 1)) as ->.
  { rewrite Z.shiftl_mul_pow2, Hs, Z.pow_add_r by lia. done. }
  rewrite Ht, take_ge by (rewrite length_fmap; lia). rewrite buckets_empty.
  destruct (resize_loop_spec (k + 1) G (replicate (Z.to_nat (2 ^ (k + 1))) []))
    as (G' & -> & Hl' & Hp' & E'); [lia|rewrite length_replicate; lia| |].
  { intros i sl p [-> _]%lookup_replicate. by intros ?%elem_of_nil. }
  rewrite concat_empty, app_nil_r in E'. cbn [mbind option_bind].
  do 2 eexists. split; [done|]. right. split; [done|]. simpl.
  split; [rewrite Hs, Z.pow_add_r; lia|]. split; [done|]. exists G'. split; [|done].
  split; simpl; try done.
  - exists (k + 1). lia.
  - rewrite Hl', length_replicate. lia.
  - by rewrite E'.
  - by rewrite E'.
Qed.

(** ** The operations *)

Lemma concat_buckets (G : list (list gbucket)) : concat (buckets G) = fst <$> concat G.
Proof.
  induction G as [|sl G IH]; [done|]. rewrite fmap_cons. cbn [concat]. by rewrite fmap_app, IH.
Qed.

Lemma addresses (G : list (list gbucket)) :
  bk_addr <$> concat (buckets G) = (λ p, bk_addr p.1) <$> concat G.
Proof. by rewrite concat_buckets, <- list_fmap_compose. Qed.

(** The allocator returns an address no bucket of the table is at. *)
Definition new_bucket (mb : option Z) (t : dt_htab) : Prop :=
  ∀ a, mb = Some a → a ≠ 0 ∧ a ∉ (bk_addr <$> concat (tab t)).

Lemma insert_loop_spec fuel mr mb h t G L e :
  inv h t G L → new_bucket mb t → e ∉ L → fresh h e →
  Z.of_nat (length L) < 2 ^ 31 - 1 → nbuckets t < 2 ^ 31 - 1 →
  2 ^ 30 <= size t * 2 ^ Z.of_nat fuel →
  ∃ err h' t', insert_loop fuel mr mb h t (hval e) e = Some (err, h', t') ∧
    (err = - ENOMEM ∧ h' = h ∧ table h t' L ∨
     err = 0 ∧ table h' t' (e :: L) ∧ keeps_fresh h h' L e).
Proof.
  revert t G. induction fuel as [|fuel IH]; intros t G Hinv Hmb He Hf Hb Hnb Hfuel;
    cbn [insert_loop];
    destruct (inv_slot _ _ _ _ (hval e) Hinv) as (sl & Hsl & Htab & Hidx);
    rewrite Htab; cbn [mbind option_bind];
    pose proof (find_bucket_spec sl e) as Hfind; destruct (find_bucket (fst <$> sl) e) as [k|];
    try (destruct Hfind as (b & l & Hk & Hcmp);
      destruct (add_found h t G L e _ sl k b l Hinv Hsl Hk Hcmp He Hf Hb) as (h' & t' & -> & ? & ?);
      do 3 eexists; split; [done|]; by right);
    destruct (Z.ltb_spec (size t) (Z.shiftr (nbuckets t) 1)) as [Hlt|_].
  1: { rewrite Z.shiftr_div_pow2 in Hlt by lia. simpl in Hfuel. lia. }
  1,3: destruct mb as [a|]; [|do 3 eexists; split; [done|]; left; split_and!; [done..|by exists G]].
  1,2: destruct (Hmb a eq_refl) as [Ha Haddr]; rewrite (inv_tab _ _ _ _ Hinv), addresses in Haddr;
    pose proof (absent h t G L e sl Hinv Hsl Hfind) as Habs;
    destruct (add_new h t G L e a sl Hinv Hsl Habs Hf Ha Haddr Hb Hnb) as (h' & t' & -> & ? & ?);
    do 3 eexists; split; [done|]; by right.
  rewrite Z.shiftr_div_pow2 in Hlt by lia.
  destruct (resize_spec (mr fuel) h t G L Hinv) as (err & t' & -> & Hcase); [lia|].
  cbn [mbind option_bind]. destruct Hcase as [[-> ->]|(-> & Hs' & Hn' & G' & Hinv' & Hperm)].
  - do 3 eexists. split; [done|]. left. split_and!; [done..|by exists G].
  - cbn [Z.eqb negb]. apply (IH t' G'); try done.
    + intros a Ea. destruct (Hmb a Ea) as [? Haddr]. split; [done|].
      rewrite (inv_tab _ _ _ _ Hinv'), addresses, Hperm, <- addresses, <- (inv_tab _ _ _ _ Hinv). done.
    + lia.
    + rewrite Nat2Z.inj_succ, Z.pow_succ_r in Hfuel by lia. lia.
Qed.

Lemma equals_cmp L x y : cmp x y = 0 → equals L x = equals L y.
Proof.
  intros E. unfold equals. apply list_filter_iff. intros z. split; intros; [by eapply cmp_trans|].
  eapply cmp_trans; [done|by apply cmp_sym].
Qed.

Lemma lookup_spec h t L e : table h t L → dt_htab_lookup t e = Some (first (equals L e) 0).
Proof.
  intros [G Hinv]. unfold dt_htab_lookup.
  destruct (inv_slot _ _ _ _ (hval e) Hinv) as (sl & Hsl & -> & Hidx). cbn [mbind option_bind].
  pose proof (find_bucket_spec sl e) as Hfind. destruct (find_bucket (fst <$> sl) e) as [k|].
  - destruct Hfind as (b & l & Hk & Hcmp).
    destruct (in_slot _ _ _ _ _ _ _ _ Hinv Hsl Hk) as (_ & _ & Hok & Hl & _). simpl in *.
    rewrite list_lookup_fmap, Hk. simpl. f_equal. rewrite <- (equals_cmp L _ e Hcmp), <- Hl.
    by apply (rep_head h), Hok.
  - f_equal. unfold equals. rewrite list_filter_none; [done|]. intros x Hx E.
    apply (absent _ _ _ _ _ _ Hinv Hsl Hfind x Hx). by apply cmp_sym.
Qed.

(** The slot with one entry less. *)
Definition slot_without (sl : list gbucket) (k : nat) (b : dt_hbucket) (l : list Z) (q : Z) :
    list gbucket :=
  if decide (l = []) then delete k sl
  else <[k := (mk_bucket (bk_addr b) (bk_hval b) q (bk_nentries b - 1), l)]> sl.

Lemma delete_inv h t G L e :
  inv h t G L → e ∈ L → Z.of_nat (length L) < 2 ^ 31 → nbuckets t < 2 ^ 31 →
  ∃ idx sl k b l q h' t', dt_htab_delete h t e = Some (0, h', t') ∧
    G !! idx = Some sl ∧ sl !! k = Some (b, l) ∧ e ∈ l ∧
    inv h' t' (<[idx := slot_without sl k b (filter (λ x, x ≠ e) l) q]> G) (filter (λ x, x ≠ e) L) ∧
    fresh h' e ∧ keeps_fresh h h' L e.
Proof.
  intros Hinv He Hb Hnb. unfold dt_htab_delete.
  destruct (inv_slot _ _ _ _ (hval e) Hinv) as (sl & Hsl & -> & Hidx). cbn [mbind option_bind].
  set (idx := Z.to_nat _) in *.
  pose proof (find_bucket_spec sl e) as Hfind. destruct (find_bucket (fst <$> sl) e) as [k|].
  2: { destruct (absent _ _ _ _ _ _ Hinv Hsl Hfind e He). apply cmp_refl. }
  destruct Hfind as (b & l & Hk & Hcmp).
  destruct (in_slot _ _ _ _ _ _ _ _ Hinv Hsl Hk) as (Hp & Hpl & Hok & Hl & Hsub). simpl in *.
  assert (e ∈ l) as Hel.
  { rewrite Hl, (equals_cmp L _ e Hcmp). apply elem_of_equals. split; [apply cmp_refl|done]. }
  rewrite list_lookup_fmap, Hk. simpl.
  destruct (del_spec h (bk_head b) l e (bo_rep _ _ Hok) Hel) as (h' & q & Hdel & Hrep & Hfe & Hframe & Hfr).
  rewrite Hdel. cbn [mbind option_bind]. set (l' := filter (λ x, x ≠ e) l) in *.
  assert (u64 (nentries t - 1) = Z.of_nat (length (filter (λ x, x ≠ e) L))) as Hne.
  { pose proof (holds_nodup _ _ _ (inv_holds _ _ _ _ Hinv)) as Hnd. rewrite (inv_nentries _ _ _ _ Hinv).
    apply list_elem_of_split in He as (L1 & L2 & ->). rewrite DtList.delete_split by done.
    rewrite !length_app in *. simpl in *. rewrite wrap_id by (unfold urange; lia). lia. }
  assert (keeps_fresh h h' L e) as Hkeep.
  { intros x _ HxL. apply Hfr. intros Hx. by apply HxL, Hsub. }
  pose proof (rep_head _ _ _ Hrep) as Hq. pose proof (rep_null _ _ _ Hrep) as H0.
  exists idx, sl, k, b, l, q, h'. unfold slot_without. fold l'. destruct (Z.eqb_spec q 0) as [E|E].
  - assert (l' = []) as Hl'.
    { destruct l' as [|x l0]; [done|]. unfold first in Hq. simpl in Hq. rewrite E in Hq. subst x. set_solver. }
    rewrite decide_True by done. eexists. split; [done|]. split_and!; try done.
    assert (k < length sl)%nat by (by eapply lookup_lt_Some).
    eapply inv_update; [done|done|..]; simpl; try done.
    + intros p Hp'. eapply (inv_placed _ _ _ _ Hinv idx sl); [done|].
      destruct (slot_split sl k (b, l) [] Hk) as (R' & E1 & _ & E3). rewrite !app_nil_r in *.
      rewrite E1. right. by rewrite <- E3.
    + by rewrite list_fmap_delete.
    + rewrite length_delete by eauto. pose proof (inv_nbuckets _ _ _ _ Hinv).
      assert (0 < length (concat G))%nat by (destruct (concat G); [by apply elem_of_nil in Hp|simpl; lia]).
      rewrite swrap_id; [lia|lia|]. unfold srange. change (32 - 1) with 31. lia.
    + intros R _ HR. destruct (slot_split sl k (b, l) R Hk) as (R' & E1 & _ & E3).
      rewrite E3. eapply holds_del_last; [by rewrite <- E1|done..].
  - assert (l' ≠ []) as Hl' by (intros Hl'; rewrite Hl' in Hq; done).
    rewrite decide_False by done. eexists. split; [done|]. split_and!; try done.
    eapply inv_update; [done|done|..]; simpl; try done.
    + intros p (j & Hj)%list_elem_of_lookup. rewrite list_lookup_insert_case in Hj by (by eapply lookup_lt_Some).
      case_decide; [by simplify_eq|]. eapply (inv_placed _ _ _ _ Hinv idx sl); [done|].
      by eapply list_elem_of_lookup_2.
    + rewrite list_fmap_insert. simpl. pose proof (bo_n _ _ Hok) as Hn. simpl in Hn.
      pose proof (equals_length L (bk_head b)). rewrite <- Hl in *.
      rewrite swrap_id by (unfold srange; try change (32 - 1) with 31; lia). done.
    + rewrite length_insert. lia.
    + intros R _ HR. destruct (slot_split sl k (b, l) R Hk) as (R' & E1 & E2 & _).
      rewrite E2. eapply holds_del; [by rewrite <- E1|done..].
Qed.

Lemma delete_absent h t L e :
  table h t L → equals L e = [] → dt_htab_delete h t e = Some (- ENOENT, h, t).
Proof.
  intros [G Hinv] Heq. unfold dt_htab_delete.
  destruct (inv_slot _ _ _ _ (hval e) Hinv) as (sl & Hsl & -> & Hidx). cbn [mbind option_bind].
  pose proof (find_bucket_spec sl e) as Hfind. destruct (find_bucket (fst <$> sl) e) as [k|]; [|done].
  destruct Hfind as (b & l & Hk & Hcmp).
  destruct (in_slot _ _ _ _ _ _ _ _ Hinv Hsl Hk) as (_ & _ & Hok & Hl & _). simpl in *.
  rewrite (equals_cmp L _ e Hcmp), Heq in Hl. by destruct (bo_ne _ _ Hok).
Qed.

(** ** Iteration *)

(** The entries in the order the iterator visits them. *)
Definition order (F : list gbucket) : list Z := concat (snd <$> F).

(** [i] stands before the entries [todo], the rest of the table's. *)
Definition at_iter (G : list (list gbucket)) (i : dt_htab_iter) (todo : list Z) : Prop :=
  if it_exhausted i then todo = []
  else ∃ G1 s1 b l1 l2 s2 G2,
    G = G1 ++ (s1 ++ (b, l1 ++ it_ent i :: l2) :: s2) :: G2 ∧ it_idx i = Z.of_nat (length G1) ∧
    it_bucket i = bk_addr b ∧ todo = it_ent i :: l2 ++ order s2 ++ order (concat G2).

Lemma next_bucket_start h p s2 :
  bucket_ok h p →
  ∃ x l, p.2 = x :: l ∧ next_bucket h (fst <$> p :: s2) 0 = Some (Some (bk_addr p.1, x)).
Proof.
  intros Hok. destruct (bucket_head _ _ Hok) as [_ Hne].
  pose proof (rep_head _ _ _ (bo_rep _ _ Hok)) as Hhd. pose proof (bo_ne _ _ Hok).
  destruct p.2 as [|x l]; [done|]. exists x, l. split; [done|]. rewrite fmap_cons.
  cbn [next_bucket Z.eqb mbind option_bind]. replace (bk_head p.1 =? 0) with false by lia.
  simpl. by rewrite Hhd.
Qed.

(** Starting on the slots [G2] that follow [G1]. *)
Lemma next_slot_start h G1 G2 :
  (∀ p, p ∈ concat G2 → bucket_ok h p) →
  ∃ i, next_slot h (buckets G2) (Z.of_nat (length G1)) 0 0 = Some i ∧
    at_iter (G1 ++ G2) i (order (concat G2)).
Proof.
  revert G1. induction G2 as [|sl G2 IH]; intros G1 Hok.
  { eexists. split; [done|]. done. }
  rewrite fmap_cons. destruct sl as [|p s2].
  - cbn [fmap list_fmap next_slot]. destruct (IH (G1 ++ [[]])) as (i & Hi & Hat); [by apply Hok|].
    exists i. rewrite length_app in Hi. simpl in Hi.
    replace (Z.of_nat (length G1) + 1) with (Z.of_nat (length G1 + 1)) by lia.
    rewrite <- app_assoc in Hat. by split.
  - destruct (next_bucket_start h p s2) as (x & l & Hp & Hnb); [apply Hok; left|].
    rewrite fmap_cons in *. cbn [next_slot Z.eqb]. rewrite Hnb. cbn [mbind option_bind].
    eexists. split; [done|]. unfold at_iter. simpl.
    exists G1, [], p.1, [], l, s2, G2. simpl. rewrite <- Hp, <- surjective_pairing.
    split_and!; try done. unfold order. rewrite fmap_cons. simpl. rewrite Hp. simpl.
    by rewrite fmap_app, concat_app.
Qed.

Lemma from_addr_split s1 b s2 :
  NoDup (bk_addr <$> s1 ++ b :: s2) → from_addr (bk_addr b) (s1 ++ b :: s2) = b :: s2.
Proof.
  induction s1 as [|b' s1 IH]; [by simpl; rewrite Z.eqb_refl|].
  rewrite <- app_comm_cons, fmap_cons. intros [Hn Hnd]%NoDup_cons. cbn [from_addr].
  replace (bk_addr b' =? bk_addr b) with false; [by apply IH|].
  symmetry. apply Z.eqb_neq. intros E. apply Hn. rewrite E, fmap_app. set_solver.
Qed.

Lemma at_iter_nodup h t G L G1 s1 b l s2 G2 :
  inv h t G L → G = G1 ++ (s1 ++ (b, l) :: s2) :: G2 →
  NoDup (bk_addr <$> (fst <$> s1) ++ b :: (fst <$> s2)) ∧ bucket_ok h (b, l) ∧
  (∀ p, p ∈ s2 → bucket_ok h p) ∧ (∀ p, p ∈ concat G2 → bucket_ok h p).
Proof.
  intros Hinv HG. pose proof (inv_holds _ _ _ _ Hinv) as Hh. rewrite HG, concat_app in Hh. simpl in Hh.
  pose proof (holds_ok _ _ _ Hh) as Hok. split.
  - pose proof (holds_addr _ _ _ Hh) as Hnd. rewrite !fmap_app in Hnd.
    apply NoDup_app in Hnd as (_ & _ & Hnd). apply NoDup_app in Hnd as (Hnd & _ & _).
    rewrite fmap_app, fmap_cons, <- !list_fmap_compose. by rewrite fmap_cons in Hnd.
  - split; [apply Hok; set_solver|]. split; intros p Hp; apply Hok; set_solver.
Qed.

Lemma order_app F F' : order (F ++ F') = order F ++ order F'.
Proof. unfold order. by rewrite fmap_app, concat_app. Qed.

Lemma next_step_spec h t G L i x todo :
  inv h t G L → at_iter G i (x :: todo) →
  ∃ i', next_step h t i = Some (x, Some i') ∧ at_iter G i' todo.
Proof.
  intros Hinv Hat. unfold next_step, at_iter in *. destruct (it_exhausted i); [done|].
  destruct Hat as (G1 & s1 & b & l1 & l2 & s2 & G2 & HG & Hidx & Hbk & [= -> ->]).
  destruct (at_iter_nodup _ _ _ _ _ _ _ _ _ _ Hinv HG) as (Hnd & Hok & Hok2 & HokG).
  rewrite Hidx, Nat2Z.id, (inv_tab _ _ _ _ Hinv), HG, fmap_app.
  rewrite drop_app_length' by (by rewrite length_fmap). rewrite !fmap_cons, fmap_app, fmap_cons. cbn [fst].
  assert (bk_addr b ≠ 0) as Hb0 by apply (bo_addr _ _ Hok).
  assert (next_slot h (((fst <$> s1) ++ b :: (fst <$> s2)) :: buckets G2) (Z.of_nat (length G1))
      (it_bucket i) (it_ent i) =
    r ← next_bucket h (b :: (fst <$> s2)) (it_ent i);
    match r with
    | Some (b, e) => Some (mk_iter (Z.of_nat (length G1)) b e false)
    | None => next_slot h (buckets G2) (Z.of_nat (length G1) + 1) 0 0
    end) as ->.
  { rewrite Hbk. cbn [next_slot]. replace (bk_addr b =? 0) with false by lia.
    rewrite from_addr_split by done. by destruct s1. }
  pose proof (rep_null _ _ _ (bo_rep _ _ Hok)) as H0. simpl in H0.
  cbn [next_bucket]. replace (it_ent i =? 0) with false by (symmetry; apply Z.eqb_neq; set_solver).
  rewrite (next_spec _ _ _ _ _ (bo_rep _ _ Hok)). cbn [mbind option_bind].
  destruct l2 as [|y l2]; cbn [first head default negb Z.eqb].
  - destruct s2 as [|p s2].
    + cbn [next_bucket fmap list_fmap mbind option_bind].
      destruct (next_slot_start h (G1 ++ [s1 ++ [(b, l1 ++ [it_ent i])]]) G2 HokG) as (i' & Hi' & Hat').
      rewrite length_app in Hi'. simpl in Hi'.
      replace (Z.of_nat (length G1) + 1) with (Z.of_nat (length G1 + 1)) by lia.
      rewrite Hi'. cbn [mbind option_bind]. exists i'. split; [done|]. rewrite <- app_assoc in Hat'.
      exact Hat'.
    + destruct (next_bucket_start h p s2) as (y & l & Hp & ->); [apply Hok2; left|].
      cbn [mbind option_bind]. eexists. split; [done|]. simpl.
      exists G1, (s1 ++ [(b, l1 ++ [it_ent i])]), p.1, [], l, s2, G2. simpl.
      rewrite <- Hp, <- surjective_pairing, <- app_assoc. split_and!; try done.
      unfold order at 1. rewrite fmap_cons. simpl. by rewrite Hp, <- app_assoc.
  - unfold first. simpl. replace (y =? 0) with false by (symmetry; apply Z.eqb_neq; set_solver). simpl.
    eexists. split; [done|]. simpl. exists G1, s1, b, (l1 ++ [it_ent i]), l2, s2, G2.
    rewrite <- app_assoc. split_and!; done.
Qed.

Lemma elem_of_order F x : x ∈ order F ↔ ∃ p, p ∈ F ∧ x ∈ p.2.
Proof.
  unfold order. rewrite elem_of_concat. split.
  - intros (i & l & Hi & Hx). rewrite list_lookup_fmap in Hi. apply fmap_Some in Hi as (p & Hp & ->).
    exists p. split; [by eapply list_elem_of_lookup_2|done].
  - intros (p & Hp & Hx). apply list_elem_of_lookup in Hp as [i Hi].
    exists i, p.2. by rewrite list_lookup_fmap, Hi.
Qed.

Lemma nodup_order F :
  NoDup F → (∀ p, p ∈ F → NoDup p.2) →
  (∀ p q x, p ∈ F → q ∈ F → x ∈ p.2 → x ∈ q.2 → p = q) → NoDup (order F).
Proof.
  induction F as [|p F IH]; intros Hnd Hl Hdis; [constructor|].
  apply NoDup_cons in Hnd as [Hp Hnd]. unfold order. rewrite fmap_cons. cbn [concat].
  apply NoDup_app. split; [apply Hl; left|]. split.
  - intros x Hx (q & Hq & Hxq)%elem_of_order. apply Hp.
    rewrite (Hdis p q x); [done|left|by right|done|done].
  - apply IH; [done|intros q Hq; apply Hl; by right|].
    intros q r x Hq Hr. apply Hdis; by right.
Qed.

(** The iteration order is an order of the table's entries. *)
Lemma order_perm h F L : holds h F L → order F ≡ₚ L.
Proof.
  intros Hh. apply NoDup_Permutation.
  - apply nodup_order.
    + eapply NoDup_fmap_1, Hh.
    + intros p Hp. pose proof (holds_ok _ _ _ Hh p Hp) as Hok.
      destruct (bucket_head _ _ Hok) as [Hhd _]. rewrite (holds_agree _ _ _ Hh p _ Hp Hhd).
      apply NoDup_filter, Hh.
    + intros p q x Hp Hq Hx Hx'. apply (holds_class _ _ _ Hh p q x x); try done. apply cmp_refl.
  - apply Hh.
  - intros x. rewrite elem_of_order. split.
    + intros (p & Hp & Hx). by eapply holds_elem.
    + intros Hx. by apply (holds_in _ _ _ Hh).
Qed.

Lemma holds_length h F L : holds h F L → (length F <= length L)%nat.
Proof.
  intros Hh. rewrite <- (order_perm _ _ _ Hh). pose proof (holds_ok _ _ _ Hh) as Hok. clear Hh.
  induction F as [|p F IH]; [simpl; lia|]. unfold order. rewrite fmap_cons. cbn [concat].
  rewrite length_app. pose proof (bo_ne _ _ (Hok p ltac:(left))).
  assert (length F <= length (order F))%nat by (apply IH; intros q Hq; apply Hok; by right).
  unfold order in *. destruct p.2; [done|]. simpl. lia.
Qed.

Lemma inv_nbuckets_le h t G L : inv h t G L → nbuckets t <= Z.of_nat (length L).
Proof.
  intros Hinv. pose proof (holds_length _ _ _ (inv_holds _ _ _ _ Hinv)).
  rewrite (inv_nbuckets _ _ _ _ Hinv). lia.
Qed.

(** Deleting an entry the iterator has passed does not disturb it. *)
Lemma at_iter_delete G i todo idx sl k b l e q :
  at_iter G i todo → G !! idx = Some sl → sl !! k = Some (b, l) → e ∈ l → e ∉ todo →
  at_iter (<[idx := slot_without sl k b (filter (λ x, x ≠ e) l) q]> G) i todo.
Proof.
  intros Hat Hsl Hk He Hout. unfold at_iter in *. destruct (it_exhausted i); [done|].
  destruct Hat as (G1 & s1 & b0 & l1 & l2 & s2 & G2 & -> & Hidx & Hbk & ->).
  destruct (decide (idx < length G1)%nat) as [Hlt|Hge].
  { rewrite insert_app_l by done. eexists _, s1, b0, l1, l2, s2, G2. by rewrite length_insert. }
  destruct (decide (idx = length G1)) as [->|Hne].
  - rewrite insert_app_r_alt, Nat.sub_diag by lia. rewrite list_lookup_middle in Hsl by done.
    injection Hsl as <-. simpl. unfold slot_without.
    destruct (decide (k < length s1)%nat) as [Hlt|Hge'].
    + case_decide.
      * rewrite list_delete_app_l by done. eexists G1, _, b0, l1, l2, s2, G2. done.
      * rewrite insert_app_l by done. eexists G1, _, b0, l1, l2, s2, G2. done.
    + destruct (decide (k = length s1)) as [->|Hne].
      * rewrite list_lookup_middle in Hk by done. injection Hk as <- <-.
        rewrite filter_app, (list_filter_id _ (it_ent i :: l2)) by (intros x Hx ->; set_solver).
        rewrite decide_False by (intros [_ ?]%app_eq_nil; done).
        rewrite insert_app_r_alt, Nat.sub_diag by lia. simpl.
        eexists G1, s1, _, _, l2, s2, G2. done.
      * exfalso. apply Hout. rewrite lookup_app_r in Hk by lia.
        destruct (k - length s1)%nat as [|j] eqn:E; [lia|]. simpl in Hk.
        right. rewrite !elem_of_app. right. left. apply elem_of_order. exists (b, l).
        split; [by eapply list_elem_of_lookup_2|done].
  - exfalso. apply Hout. rewrite lookup_app_r in Hsl by lia.
    destruct (idx - length G1)%nat as [|j] eqn:E; [lia|]. simpl in Hsl.
    right. rewrite !elem_of_app. do 2 right. apply elem_of_order. exists (b, l).
    split; [|done]. apply elem_of_concat. exists j, sl. split; [done|]. by eapply list_elem_of_lookup_2.
Qed.

(** A client's loop over the table that deletes the entries it selects. *)
Fixpoint walk (fuel : nat) (sel : Z → bool) (h : H) (t : dt_htab) (it : option dt_htab_iter) :
    option (list Z * H * dt_htab) :=
  match fuel with
  | O => None
  | S fuel =>
      '(x, it) ← dt_htab_next true h t it;
      if x =? 0 then Some ([], h, t)
      else
        '(h, t) ← (if sel x then '(_, h, t) ← dt_htab_delete h t x; Some (h, t) else Some (h, t));
        '(xs, h, t) ← walk fuel sel h t it;
        Some (x :: xs, h, t)
  end.

Lemma walk_S fuel sel h t i x it :
  next_step h t i = Some (x, it) → x ≠ 0 →
  walk (S fuel) sel h t (Some i) =
  '(h, t) ← (if sel x then '(_, h, t) ← dt_htab_delete h t x; Some (h, t) else Some (h, t));
  '(xs, h, t) ← walk fuel sel h t it;
  Some (x :: xs, h, t).
Proof.
  intros Hstep Hx. cbn [walk dt_htab_next]. rewrite Hstep. cbn [mbind option_bind].
  by replace (x =? 0) with false by lia.
Qed.

Lemma walk_spec sel h t G L i todo :
  inv h t G L → at_iter G i todo → NoDup todo → (∀ x, x ∈ todo → x ∈ L) →
  Z.of_nat (length L) < 2 ^ 31 →
  ∃ h' t', walk (S (length todo)) sel h t (Some i) = Some (todo, h', t') ∧
    table h' t' (filter (λ x, ¬ (x ∈ todo ∧ sel x = true)) L).
Proof.
  revert h t G L i. induction todo as [|x todo IH]; intros h t G L i Hinv Hat Hnd Hsub Hb.
  - assert (it_exhausted i = true) as E.
    { unfold at_iter in Hat. destruct (it_exhausted i); [done|].
      by destruct Hat as (? & ? & ? & ? & ? & ? & ? & _ & _ & _ & ?). }
    cbn [walk length dt_htab_next]. unfold next_step. rewrite E. cbn [mbind option_bind Z.eqb].
    do 2 eexists. split; [done|]. rewrite list_filter_id; [by exists G|].
    intros y _ [Hy%elem_of_nil _]. done.
  - apply NoDup_cons in Hnd as [Hx Hnd]. cbn [length].
    destruct (next_step_spec h t G L i x todo Hinv Hat) as (i' & Hstep & Hat').
    assert (x ∈ L) as HxL by (apply Hsub; left).
    assert (x ≠ 0) as Hx0.
    { pose proof (inv_holds _ _ _ _ Hinv) as Hh. destruct (holds_in _ _ _ Hh x HxL) as (p & Hp & Hxp).
      intros ->. by apply (rep_null _ _ _ (bo_rep _ _ (holds_ok _ _ _ Hh p Hp))). }
    rewrite (walk_S _ _ _ _ _ _ _ Hstep Hx0).
    destruct (sel x) eqn:Esel.
    + pose proof (inv_nbuckets_le _ _ _ _ Hinv).
      destruct (delete_inv h t G L x Hinv HxL Hb) as (idx & sl & k & b & l & q & h1 & t1 & -> & Hsl & Hk & Hxl & Hinv1 & _);
        [lia|]. cbn [mbind option_bind].
      destruct (IH h1 t1 _ _ i' Hinv1) as (h' & t' & -> & Htab).
      * by apply at_iter_delete.
      * done.
      * intros y Hy. apply list_elem_of_filter. split; [by intros ->|]. apply Hsub. by right.
      * assert (length (filter (λ y, y ≠ x) L) <= length L)%nat by apply length_filter. lia.
      * cbn [mbind option_bind]. do 2 eexists. split; [done|]. rewrite list_filter_filter in Htab.
        erewrite list_filter_iff; [exact Htab|]. intros y. simpl. rewrite elem_of_cons.
        split; [|tauto]. intros Hy. split; [tauto|]. intros ->. apply Hy. auto.
    + cbn [mbind option_bind].
      destruct (IH h t G L i' Hinv Hat' Hnd) as (h' & t' & -> & Htab); [|done|].
      { intros y Hy. apply Hsub. by right. }
      cbn [mbind option_bind]. do 2 eexists. split; [done|].
      erewrite list_filter_iff; [exact Htab|]. intros y. simpl. rewrite elem_of_cons.
      split; [tauto|]. intros Hy [[->|?] ?]; [congruence|tauto].
Qed.

Lemma htab_insert_spec mr mb h t L e :
  table h t L → new_bucket mb t → e ∉ L → fresh h e → Z.of_nat (length L) < 2 ^ 31 - 1 →
  ∃ err h' t', dt_htab_insert mr mb h t e = Some (err, h', t') ∧
    (err = - ENOMEM ∧ h' = h ∧ table h t' L ∨
     err = 0 ∧ table h' t' (e :: L) ∧ keeps_fresh h h' L e).
Proof.
  intros [G Hinv] Hmb He Hf Hb. pose proof (inv_nbuckets_le _ _ _ _ Hinv) as Hle.
  apply (insert_loop_spec 32 mr mb h t G L e Hinv Hmb He Hf Hb); [lia|].
  destruct (inv_size _ _ _ _ Hinv) as (k & Hk & ->).
  assert (2 ^ 0 <= 2 ^ k) by (apply Z.pow_le_mono_r; lia). change (2 ^ Z.of_nat 32) with (2 ^ 30 * 4). lia.
Qed.

(** ** Destruction *)

Lemma empty_bucket_spec fuel h p l :
  rep h p l → NoDup l → (length l <= fuel)%nat →
  ∃ h', empty_bucket fuel h p = Some h' ∧ (∀ x, x ∈ l → fresh h' x) ∧
    (∀ q m, rep h q m → (∀ x, x ∈ l → x ∉ m) → rep h' q m) ∧
    (∀ x, x ∉ l → fresh h x → fresh h' x).
Proof.
  revert h p l. induction fuel as [|fuel IH]; intros h p l Hrep Hnd Hf;
    pose proof (rep_head _ _ _ Hrep) as Hp; pose proof (rep_null _ _ _ Hrep) as H0;
    (destruct l as [|x l]; [subst p; exists h; split_and!; try done; set_solver|]).
  { simpl in Hf. lia. }
  unfold first in Hp. simpl in Hp. subst p. cbn [empty_bucket].
  replace (x =? 0) with false by (symmetry; apply Z.eqb_neq; set_solver).
  destruct (del_spec h x (x :: l) x Hrep) as (h1 & q & Hdel & Hrep1 & Hfx & Hfr1 & Hfresh1); [left|].
  rewrite Hdel. cbn [mbind option_bind]. apply NoDup_cons in Hnd as [Hx Hnd].
  rewrite filter_cons_False, list_filter_id in Hrep1 by (naive_solver || by intros y Hy ->).
  destruct (IH h1 q l Hrep1 Hnd) as (h' & -> & Hfresh & Hfr & Hfresh'); [simpl in Hf; lia|].
  exists h'. split_and!; [done|..].
  - intros y [->|Hy]%elem_of_cons; [by apply Hfresh'|by apply Hfresh].
  - intros q' m Hq' Hm. apply Hfr; [by apply Hfr1|]. intros y Hy. apply Hm. by right.
  - intros y Hy Hf'. apply Hfresh'; [set_solver|]. apply Hfresh1; done.
Qed.

Lemma htab_destroy_spec h F :
  (∀ p, p ∈ F → bucket_ok h p) → NoDup (order F) →
  ∃ h', destroy_loop h (fst <$> F) = Some h' ∧ (∀ x, x ∈ order F → fresh h' x) ∧
    (∀ x, x ∉ order F → fresh h x → fresh h' x).
Proof.
  revert h. induction F as [|p F IH]; intros h Hok Hnd.
  { exists h. split; [done|]. split; [|done]. intros x ?%elem_of_nil. done. }
  change (order (p :: F)) with (p.2 ++ order F) in *. apply NoDup_app in Hnd as (Hndp & Hdis & Hnd).
  destruct (Hok p ltac:(left)) as [_ Hrep Hn _ _]. rewrite fmap_cons. cbn [destroy_loop].
  destruct (empty_bucket_spec (Z.to_nat (bk_nentries p.1)) h (bk_head p.1) p.2 Hrep Hndp)
    as (h1 & -> & Hf1 & Hfr1 & Hk1); [lia|]. cbn [mbind option_bind].
  destruct (IH h1) as (h' & -> & Hf & Hk).
  - intros q Hq. eapply bucket_ok_frame; [apply Hok; by right|]. intros r m Hr -> ->.
    apply Hfr1; [done|]. intros x Hx Hxq. apply (Hdis x Hx). apply elem_of_order. eauto.
  - done.
  - exists h'. split; [done|]. split.
    + intros x [Hx|Hx]%elem_of_app; [apply Hk; [by apply Hdis|by apply Hf1]|by apply Hf].
    + intros x [Hx Hx']%not_elem_of_app Hfx. apply Hk; [done|]. by apply Hk1.
Qed.

(** ** Properties *)


(** C24: A search returns the entry most recently inserted among those that
    compare equal to the given one, NULL when there is none; deleting an entry
    of the table removes it, and only it, and unlinks it; deleting something no
    entry compares equal to reports ENOENT and changes nothing. *)
Theorem dt_htab_lookup_delete_correct h t L e :
  table h t L → Z.of_nat (length L) < 2 ^ 31 →
  dt_htab_lookup t e = Some (first (equals L e) 0) ∧
  (e ∈ L → ∃ h' t', dt_htab_delete h t e = Some (0, h', t') ∧
     table h' t' (filter (λ x, x ≠ e) L) ∧ fresh h' e ∧ keeps_fresh h h' L e) ∧
  (equals L e = [] → dt_htab_delete h t e = Some (- ENOENT, h, t)).
Proof.
  intros Htab Hb. split; [by eapply lookup_spec|]. split; [|by eapply delete_absent].
  intros He. destruct Htab as [G Hinv]. pose proof (inv_nbuckets_le _ _ _ _ Hinv).
  destruct (delete_inv h t G L e Hinv He Hb)
    as (idx & sl & k & b & l & q & h' & t' & ? & _ & _ & _ & Hinv' & ? & ?); [lia|].
  exists h', t'. split; [done|]. split; [by eexists|done].
Qed.

(** C30: Iterating over a table returns each of its entries exactly once and then
    NULL, even when the loop deletes entries as they are returned, as the
    comment on the iterator's state promises; afterwards the table holds the
    entries that were not deleted. *)
Theorem dt_htab_next_correct sel h t L :
  table h t L → Z.of_nat (length L) < 2 ^ 31 →
  ∃ xs h' t', walk (S (length L)) sel h t None = Some (xs, h', t') ∧ xs ≡ₚ L ∧
    table h' t' (filter (λ x, sel x = false) L).
Proof.
  intros [G Hinv] Hb. pose proof (order_perm _ _ _ (inv_holds _ _ _ _ Hinv)) as Hperm.
  destruct (next_slot_start h [] G) as (i & Hi & Hat).
  { intros p Hp. by apply (inv_holds _ _ _ _ Hinv). }
  assert (dt_htab_next true h t None = dt_htab_next true h t (Some i)) as Estart.
  { assert (next_step h t (mk_iter 0 0 0 false) = Some (0, Some i)) as E0.
    { unfold next_step. cbn [it_exhausted it_idx it_bucket it_ent].
      rewrite (inv_tab _ _ _ _ Hinv), drop_0. change (Z.of_nat (length [])) with 0 in Hi. by rewrite Hi. }
    cbn [dt_htab_next negb]. by rewrite E0. }
  destruct (walk_spec sel h t G L i (order (concat G)) Hinv Hat) as (h' & t' & Hwalk & Htab).
  - rewrite Hperm. apply (inv_holds _ _ _ _ Hinv).
  - intros x. by rewrite Hperm.
  - done.
  - exists (order (concat G)), h', t'. rewrite (Permutation_length Hperm) in Hwalk. split.
    + cbn [walk]. rewrite Estart. exact Hwalk.
    + split; [done|]. erewrite list_filter_ext; [exact Htab|]. intros x Hx. simpl.
      rewrite Hperm. destruct (sel x); naive_solver.
Qed.

(** Destroying a table unlinks each of its entries, and touches no other. *)
Theorem dt_htab_destroy_correct h t L :
  table h t L →
  ∃ h', dt_htab_destroy h (Some t) = Some h' ∧ (∀ x, x ∈ L → fresh h' x) ∧
    (∀ x, x ∉ L → fresh h x → fresh h' x).
Proof.
  intros [G Hinv]. pose proof (inv_holds _ _ _ _ Hinv) as Hh.
  pose proof (order_perm _ _ _ Hh) as Hperm. unfold dt_htab_destroy.
  rewrite take_ge by (rewrite (inv_tab _ _ _ _ Hinv), length_fmap; pose proof (inv_len _ _ _ _ Hinv); lia).
  destruct (htab_destroy_spec h (concat G)) as (h' & Hd & Hf & Hk); [by apply Hh|by rewrite Hperm; apply Hh|].
  exists h'. rewrite (inv_tab _ _ _ _ Hinv), concat_buckets. split; [done|].
  split; intros x; rewrite <- Hperm; [apply Hf|apply Hk].
Qed.

Lemma htab_create_spec m1 m2 h t : dt_htab_create m1 m2 = Some t → table h t [].
Proof.
  unfold dt_htab_create. destruct m1, m2; try done. intros [= <-]. exists [[]].
  split; simpl; try done.
  - exists 0. lia.
  - intros i sl p Hi Hp. apply list_lookup_singleton_Some in Hi as [-> <-]. by apply elem_of_nil in Hp.
  - split; try (by intros ? ?%elem_of_nil); [constructor|..]; try (by intros ? ? ?%elem_of_nil).
    + by intros ? ? ? ? ?%elem_of_nil.
    + constructor.
Qed.

End correct.

(** ** A table of numbers with the standard links, compared modulo 8 *)

#[local] Instance mod8 : KeyLaws (λ e, e mod 8) (λ e f, e mod 8 - f mod 8).
Proof. split; intros; lia. Qed.

#[local] Instance ops8 : HtabOps links := std_ops (λ e, e mod 8) (λ e f, e mod 8 - f mod 8).
#[local] Instance laws8 : HtabLaws links := std_laws _ _.

Definition table_heap : links := <[1 := mk_links 0 0]> (<[9 := mk_links 0 0]> (<[2 := mk_links 0 0]> ∅)).
Definition table0 : dt_htab := mk_htab [[]] 1 0 0 0.

Definition state1 : links * dt_htab :=
  Eval vm_compute in
    match dt_htab_insert (λ _, true) (Some 1000) table_heap table0 1 with
    | Some (_, h, t) => (h, t)
    | None => (table_heap, table0)
    end.
Definition state2 : links * dt_htab :=
  Eval vm_compute in
    match dt_htab_insert (λ _, true) None state1.1 state1.2 9 with
    | Some (_, h, t) => (h, t)
    | None => state1
    end.

(** An insertion that was computed, from the lemma on insertions. *)
Lemma inserted h t L e mb h' t' :
  table h t L → new_bucket mb t → e ∉ L → fresh h e → Z.of_nat (length L) < 2 ^ 31 - 1 →
  dt_htab_insert (λ _, true) mb h t e = Some (0, h', t') → table h' t' (e :: L).
Proof.
  intros Ht Hmb He Hf Hb E.
  destruct (htab_insert_spec (λ _, true) mb h t L e) as (err & h1 & t1 & E' & Hcase); [done..|].
  rewrite E in E'. simplify_eq. by destruct Hcase as [[? _]|(_ & ? & _)].
Qed.

Lemma state1_table : table state1.1 state1.2 [1].
Proof.
  eapply (inserted table_heap table0 [] 1 (Some 1000)); [by eapply (htab_create_spec true true)|..].
  - intros a [= <-]. split; [done|]. simpl. set_solver.
  - set_solver.
  - by split.
  - done.
  - vm_compute. reflexivity.
Qed.

Lemma state2_table : table state2.1 state2.2 [9; 1].
Proof.
  eapply (inserted state1.1 state1.2 [1] 9 None); [apply state1_table|..].
  - by intros a ?.
  - set_solver.
  - by split.
  - done.
  - vm_compute. reflexivity.
Qed.


Lemma dt_htab_lookup_delete_correct_witness :
  dt_htab_lookup state2.2 1 = Some 9 ∧
  ∃ h' t', dt_htab_delete state2.1 state2.2 1 = Some (0, h', t') ∧ table h' t' [9] ∧
    fresh h' 1 ∧ keeps_fresh state2.1 h' [9; 1] 1.
Proof.
  destruct (dt_htab_lookup_delete_correct state2.1 state2.2 [9; 1] 1) as (H1 & H2 & _);
    [apply state2_table|done|].
  split; [exact H1|]. apply H2. set_solver.
Defined.

Lemma dt_htab_next_correct_witness :
  ∃ xs h' t', walk 3 (λ x, x =? 1) state2.1 state2.2 None = Some (xs, h', t') ∧ xs ≡ₚ [9; 1] ∧
    table h' t' [9].
Proof. apply (dt_htab_next_correct (λ x, x =? 1) state2.1 state2.2 [9; 1]); [apply state2_table|done]. Defined.

Lemma dt_htab_destroy_correct_witness :
  ∃ h', dt_htab_destroy state2.1 (Some state2.2) = Some h' ∧ (∀ x, x ∈ [9; 1] → fresh h' x) ∧
    (∀ x, x ∉ [9; 1] → fresh state2.1 x → fresh h' x).
Proof. apply (dt_htab_destroy_correct state2.1 state2.2 [9; 1]). apply state2_table. Defined.

End Htab.
