(* ===== verification/Ident.v ===== *)
(** * Identifiers and identifier hash tables: libdtrace/dt_ident.c, and the
    deferred pragmas of dt_pragma.c

    Identifiers live in a heap, at the addresses the hash chains hold; 0 is
    NULL.  The allocator [al] gives an address outside the heap it is asked
    for, or [None].  A [longjmp] out of the compiler is the outcome [Longjmp].
    The class-specific data behind [di_ops] (types, nodes, signatures) is not
    modelled: [di_ops], [di_iarg] and [di_data] are opaque words. *)
From S2P Require Import Prelude CLib DtString.
Import DtString.

Module Ident.

Definition EDT_NOMEM : Z := 1008.
Definition _dtrace_strbuckets : nat := 211.

Definition DT_IDENT_ARRAY : Z := 0.
Definition DT_IDENT_SCALAR : Z := 1.
Definition DT_IDENT_PTR : Z := 2.
Definition DT_IDENT_FUNC : Z := 3.
Definition DT_IDENT_AGG : Z := 4.
Definition DT_IDENT_AGGFUNC : Z := 5.
Definition DT_IDENT_ACTFUNC : Z := 6.
Definition DT_IDENT_XLSOU : Z := 7.
Definition DT_IDENT_XLPTR : Z := 8.
Definition DT_IDENT_SYMBOL : Z := 9.
Definition DT_IDENT_ENUM : Z := 10.
Definition DT_IDENT_PRAGAT : Z := 11.
Definition DT_IDENT_PRAGBN : Z := 12.
Definition DT_IDENT_PROBE : Z := 13.

Definition DT_IDFLG_TLS : Z := 0x0001.
Definition DT_IDFLG_WRITE : Z := 0x0004.
Definition DT_IDFLG_REF : Z := 0x0010.
Definition DT_IDFLG_MOD : Z := 0x0020.
Definition DT_IDFLG_USER : Z := 0x0200.
Definition DT_IDFLG_DECL : Z := 0x0400.
Definition DT_IDFLG_ORPHAN : Z := 0x0800.

(** The vector [dt_idops_thaw] as an opaque word. *)
Definition dt_idops_thaw : Z := 1.

Record dtrace_attribute := mk_attr { dtat_name : Z; dtat_data : Z; dtat_class : Z }.

Record dt_ident := mk_ident {
  di_name : option (list Z);
  di_kind : Z;
  di_flags : Z;
  di_id : Z;
  di_attr : dtrace_attribute;
  di_vers : Z;
  di_ops : Z;
  di_iarg : Z;
  di_data : Z;
  di_offset : Z;
  di_size : Z;
  di_gen : Z;
  di_lineno : Z
}.

Abbreviation idheap := (gmap Z dt_ident).

(** [dh_defer] is NULL or [dt_pragma_apply]; the chains of [dh_hash] are linked
    through [di_next]. *)
Record dt_idhash := mk_idhash {
  dh_name : list Z;
  dh_defer : bool;
  dh_tmpl : option (list dt_ident);
  dh_nextid : Z;
  dh_minid : Z;
  dh_maxid : Z;
  dh_nextoff : Z;
  dh_nelems : Z;
  dh_hashsz : nat;
  dh_hash : list (list Z)
}.

Inductive outcome (A : Type) := Done (a : A) | Longjmp (code : Z).
Arguments Done {A}.
Arguments Longjmp {A}.

(** [m]: the table can be allocated; the inner [None] is NULL. *)
Definition dt_idhash_create (m : bool) (name : list Z) (tmpl : option (list dt_ident)) (min max : Z) :
    option (option dt_idhash) :=
  if max <? min then None
  else if negb m then Some None
  else Some (Some (mk_idhash name false tmpl min min max 0 0 _dtrace_strbuckets
                     (replicate _dtrace_strbuckets []))).

Definition set_hash (dhp : dt_idhash) (nelems : Z) (hash : list (list Z)) : dt_idhash :=
  mk_idhash (dh_name dhp) (dh_defer dhp) (dh_tmpl dhp) (dh_nextid dhp) (dh_minid dhp) (dh_maxid dhp)
    (dh_nextoff dhp) nelems (dh_hashsz dhp) hash.

(** The chain a name selects. *)
Definition chain_of (dhp : dt_idhash) (name : option (list Z)) : nat :=
  Z.to_nat (str2hval name 0 mod Z.of_nat (dh_hashsz dhp)).

(** The search of a chain; a NULL name would crash [strcmp]. *)
Fixpoint lookup_loop (h : idheap) (chain : list Z) (name : list Z) : option Z :=
  match chain with
  | [] => Some 0
  | a :: chain =>
      i ← h !! a;
      n ← di_name i;
      if bool_decide (n = name) then Some a else lookup_loop h chain name
  end.

(** [dt_ident_create] at the address of the new identifier. *)
Definition dt_ident_create (name : option (list Z)) (kind flags id : Z) (attr : dtrace_attribute)
    (vers ops iarg gen lineno : Z) : dt_ident :=
  mk_ident name kind flags id attr vers ops iarg 0 (-1) 0 gen lineno.

Section alloc.
Context (al : idheap → option Z) (yylineno : Z).

(** The search and the removal of a table whose template is spent. *)
Definition lookup_filled (h : idheap) (dhp : dt_idhash) (name : list Z) : option Z :=
  chain ← dh_hash dhp !! chain_of dhp (Some name);
  lookup_loop h chain name.

Fixpoint unlink (chain : list Z) (key : Z) : option (list Z) :=
  match chain with
  | [] => None
  | a :: chain => if a =? key then Some chain else (a ::.) <$> unlink chain key
  end.

(** [dt_ident_destroy]: the identifier's memory is freed. *)
Definition dt_ident_destroy (h : idheap) (idp : Z) : idheap := delete idp h.

Definition dt_idhash_delete (h : idheap) (dhp : dt_idhash) (key : Z) : option (idheap * dt_idhash) :=
  i ← h !! key;
  let c := chain_of dhp (di_name i) in
  chain ← dh_hash dhp !! c;
  chain ← unlink chain key;
  if dh_nelems dhp =? 0 then None
  else
    let dhp := set_hash dhp (u64 (dh_nelems dhp - 1)) (<[c := chain]> (dh_hash dhp)) in
    Some (if Z.land (di_flags i) DT_IDFLG_ORPHAN =? 0 then dt_ident_destroy h key else h, dhp).

(** What one pragma does to an identifier. *)
Definition apply_pragma (i p : dt_ident) : dt_ident :=
  if di_kind p =? DT_IDENT_PRAGAT then
    mk_ident (di_name i) (di_kind i) (di_flags i) (di_id i) (di_attr p) (di_vers i) (di_ops i)
      (di_iarg i) (di_data i) (di_offset i) (di_size i) (di_gen i) (di_lineno i)
  else if di_kind p =? DT_IDENT_PRAGBN then
    mk_ident (di_name i) (di_kind i) (di_flags i) (di_id i) (di_attr i) (di_vers p) (di_ops i)
      (di_iarg i) (di_data i) (di_offset i) (di_size i) (di_gen i) (di_lineno i)
  else i.

(** [dt_pragma_apply]: the pending pragmas [php] for the name of [idp].  The
    pragma table has no template. *)
Fixpoint pragma_loop (fuel : nat) (h : idheap) (php : dt_idhash) (idp : Z) : option (idheap * dt_idhash) :=
  i ← h !! idp;
  n ← di_name i;
  pdp ← lookup_filled h php n;
  if pdp =? 0 then Some (h, php)
  else match fuel with
  | O => None
  | S fuel =>
      p ← h !! pdp;
      '(h, php) ← dt_idhash_delete (<[idp := apply_pragma i p]> h) php pdp;
      pragma_loop fuel h php idp
  end.

Definition dt_pragma_apply (h : idheap) (php : option dt_idhash) (idp : Z) :
    option (idheap * option dt_idhash) :=
  match php with
  | None => Some (h, None)
  | Some php =>
      '(h, php) ← pragma_loop (Z.to_nat (dh_nelems php)) h php idp;
      Some (h, Some php)
  end.

(** The end of both insertions: link the identifier, run the callback. *)
Definition link (h : idheap) (php : option dt_idhash) (dhp : dt_idhash) (name : option (list Z)) (idp : Z) :
    option (idheap * option dt_idhash * dt_idhash) :=
  let c := chain_of dhp name in
  chain ← dh_hash dhp !! c;
  let dhp := set_hash dhp (u64 (dh_nelems dhp + 1)) (<[c := idp :: chain]> (dh_hash dhp)) in
  if dh_defer dhp then
    '(h, php) ← dt_pragma_apply h php idp;
    Some (h, php, dhp)
  else Some (h, php, dhp).

(** [dt_idhash_insert] with the template spent: 0 is NULL. *)
Definition insert_filled (h : idheap) (php : option dt_idhash) (dhp : dt_idhash)
    (name : option (list Z)) (kind flags id : Z) (attr : dtrace_attribute) (vers ops iarg gen : Z) :
    option (Z * idheap * option dt_idhash * dt_idhash) :=
  match al h with
  | None => Some (0, h, php, dhp)
  | Some a =>
      let idp := dt_ident_create name kind flags id attr vers ops iarg gen yylineno in
      '(h, php, dhp) ← link (<[a := idp]> h) php dhp name a;
      Some (a, h, php, dhp)
  end.

Fixpoint populate_loop (h : idheap) (php : option dt_idhash) (dhp : dt_idhash) (tmpl : list dt_ident) :
    option (outcome (idheap * option dt_idhash * dt_idhash)) :=
  match tmpl with
  | [] => Some (Done (h, php, dhp))
  | t :: tmpl =>
      '(a, h, php, dhp) ← insert_filled h php dhp (di_name t) (di_kind t) (di_flags t) (di_id t)
        (di_attr t) (di_vers t) (if di_ops t =? 0 then dt_idops_thaw else di_ops t) (di_iarg t) 0;
      if a =? 0 then Some (Longjmp EDT_NOMEM) else populate_loop h php dhp tmpl
  end.

(** [dt_idhash_populate], called when there is a template. *)
Definition dt_idhash_populate (h : idheap) (php : option dt_idhash) (dhp : dt_idhash) :
    option (outcome (idheap * option dt_idhash * dt_idhash)) :=
  match dh_tmpl dhp with
  | None => Some (Done (h, php, dhp))
  | Some tmpl =>
      populate_loop h php
        (mk_idhash (dh_name dhp) (dh_defer dhp) None (dh_nextid dhp) (dh_minid dhp) (dh_maxid dhp)
           (dh_nextoff dhp) (dh_nelems dhp) (dh_hashsz dhp) (dh_hash dhp)) tmpl
  end.

Definition dt_idhash_lookup (h : idheap) (php : option dt_idhash) (dhp : dt_idhash) (name : list Z) :
    option (outcome (Z * idheap * option dt_idhash * dt_idhash)) :=
  r ← dt_idhash_populate h php dhp;
  match r with
  | Longjmp c => Some (Longjmp c)
  | Done (h, php, dhp) =>
      a ← lookup_filled h dhp name;
      Some (Done (a, h, php, dhp))
  end.

Definition dt_idhash_insert (h : idheap) (php : option dt_idhash) (dhp : dt_idhash)
    (name : option (list Z)) (kind flags id : Z) (attr : dtrace_attribute) (vers ops iarg gen : Z) :
    option (outcome (Z * idheap * option dt_idhash * dt_idhash)) :=
  r ← dt_idhash_populate h php dhp;
  match r with
  | Longjmp c => Some (Longjmp c)
  | Done (h, php, dhp) =>
      r ← insert_filled h php dhp name kind flags id attr vers ops iarg gen;
      Some (Done r)
  end.

Definition set_flags (i : dt_ident) (flags : Z) : dt_ident :=
  mk_ident (di_name i) (di_kind i) flags (di_id i) (di_attr i) (di_vers i) (di_ops i)
    (di_iarg i) (di_data i) (di_offset i) (di_size i) (di_gen i) (di_lineno i).

Definition dt_idhash_xinsert (h : idheap) (php : option dt_idhash) (dhp : dt_idhash) (idp : Z) :
    option (outcome (idheap * option dt_idhash * dt_idhash)) :=
  r ← dt_idhash_populate h php dhp;
  match r with
  | Longjmp c => Some (Longjmp c)
  | Done (h, php, dhp) =>
      i ← h !! idp;
      r ← link (<[idp := set_flags i (Z.ldiff (di_flags i) DT_IDFLG_ORPHAN)]> h) php dhp (di_name i) idp;
      Some (Done r)
  end.

End alloc.

(** [dt_idhash_destroy]: what is left of the heap. *)
Definition dt_idhash_destroy (h : idheap) (dhp : option dt_idhash) : idheap :=
  match dhp with
  | None => h
  | Some dhp => foldl (λ h a, delete a h) h (concat (take (dh_hashsz dhp) (dh_hash dhp)))
  end.

Fixpoint update_loop (h : idheap) (ids : list Z) (nextid : Z) : option Z :=
  match ids with
  | [] => Some nextid
  | a :: ids =>
      i ← h !! a;
      update_loop h ids
        (if (di_kind i =? DT_IDENT_ARRAY) || (di_kind i =? DT_IDENT_SCALAR) || (di_kind i =? DT_IDENT_AGG)
         then Z.max nextid (u32 (di_id i + 1)) else nextid)
  end.

Definition set_nextid (dhp : dt_idhash) (n : Z) : dt_idhash :=
  mk_idhash (dh_name dhp) (dh_defer dhp) (dh_tmpl dhp) n (dh_minid dhp) (dh_maxid dhp)
    (dh_nextoff dhp) (dh_nelems dhp) (dh_hashsz dhp) (dh_hash dhp).

Definition dt_idhash_update (h : idheap) (dhp : dt_idhash) : option dt_idhash :=
  n ← update_loop h (concat (take (dh_hashsz dhp) (dh_hash dhp))) (dh_minid dhp);
  Some (set_nextid dhp n).

(** The new id is [None] when the call returns -1. *)
Definition dt_idhash_nextid (dhp : dt_idhash) : option Z * dt_idhash :=
  if dh_maxid dhp <=? dh_nextid dhp then (None, dhp)
  else (Some (dh_nextid dhp), set_nextid dhp (u32 (dh_nextid dhp + 1))).

Definition dt_idhash_peekid (dhp : dt_idhash) : Z := dh_nextid dhp.
Definition dt_idhash_datasize (dhp : dt_idhash) : Z := dh_nextoff dhp.
Definition dt_idhash_size (dhp : dt_idhash) : Z := dh_nelems dhp.
Definition dt_idhash_name (dhp : dt_idhash) : list Z := dh_name dhp.

Definition dt_idhash_comp (l r : dt_ident) : Z :=
  if negb (di_id l =? di_id r) then s32 (di_id l - di_id r)
  else strcmp (default [] (di_name l)) (default [] (di_name r)).

Definition set_storage (i : dt_ident) (offset size : Z) : dt_ident :=
  mk_ident (di_name i) (di_kind i) (di_flags i) (di_id i) (di_attr i) (di_vers i) (di_ops i)
    (di_iarg i) (di_data i) offset size (di_gen i) (di_lineno i).

(** [dt_ident_set_storage], with [dt_maxtlslen] of the handle. *)
Definition dt_ident_set_storage (h : idheap) (dhp : dt_idhash) (dt_maxtlslen : Z) (idp alignment size : Z) :
    option (idheap * dt_idhash * Z) :=
  i ← h !! idp;
  if Z.land (di_flags i) DT_IDFLG_TLS =? 0 then
    let off := Z.land (u32 (dh_nextoff dhp + (alignment - 1))) (u32 (Z.lnot (alignment - 1))) in
    let off := s32 off in
    let dhp := mk_idhash (dh_name dhp) (dh_defer dhp) (dh_tmpl dhp) (dh_nextid dhp) (dh_minid dhp)
                 (dh_maxid dhp) (u32 (off + size)) (dh_nelems dhp) (dh_hashsz dhp) (dh_hash dhp) in
    Some (<[idp := set_storage i off (s32 size)]> h, dhp, dt_maxtlslen)
  else
    Some (<[idp := set_storage i 0 (s32 size)]> h, dhp,
          if dt_maxtlslen <? size then size else dt_maxtlslen).

Definition dt_ident_morph (i : dt_ident) (kind ops iarg : Z) : dt_ident :=
  mk_ident (di_name i) kind (di_flags i) (di_id i) (di_attr i) (di_vers i) ops iarg 0
    (di_offset i) (di_size i) (di_gen i) (di_lineno i).

Definition dt_ident_unref (i : dt_ident) (dt_gen : Z) : bool :=
  (di_gen i =? dt_gen) &&
  (Z.land (di_flags i) (Z.lor DT_IDFLG_REF (Z.lor DT_IDFLG_MOD DT_IDFLG_DECL)) =? 0).

Definition dt_idkind_name (kind : Z) : string :=
  if kind =? DT_IDENT_ARRAY then "associative array"
  else if kind =? DT_IDENT_SCALAR then "scalar"
  else if kind =? DT_IDENT_PTR then "pointer"
  else if kind =? DT_IDENT_FUNC then "function"
  else if kind =? DT_IDENT_AGG then "aggregation"
  else if kind =? DT_IDENT_AGGFUNC then "aggregating function"
  else if kind =? DT_IDENT_ACTFUNC then "tracing function"
  else if kind =? DT_IDENT_XLSOU then "translated data"
  else if kind =? DT_IDENT_XLPTR then "pointer to translated data"
  else if kind =? DT_IDENT_SYMBOL then "external symbol reference"
  else if kind =? DT_IDENT_ENUM then "enumerator"
  else if kind =? DT_IDENT_PRAGAT then "#pragma attributes"
  else if kind =? DT_IDENT_PRAGBN then "#pragma binding"
  else if kind =? DT_IDENT_PROBE then "probe definition"
  else "<?>".

(** ** The identifiers of a table, latest first *)

Definition name_of (h : idheap) (a : Z) : option (list Z) := h !! a ≫= di_name.

(** The identifiers of [L] with a given name. *)
Definition named (h : idheap) (n : list Z) (L : list Z) : list Z := filter (λ a, name_of h a = Some n) L.

Record wf (h : idheap) (dhp : dt_idhash) (L : list Z) : Prop := {
  wf_hashsz : length (dh_hash dhp) = dh_hashsz dhp;
  wf_pos : (0 < dh_hashsz dhp)%nat;
  wf_chain : ∀ c chain a, dh_hash dhp !! c = Some chain → a ∈ chain →
    ∃ n, name_of h a = Some n ∧ chain_of dhp (Some n) = c;
  wf_order : ∀ n chain, dh_hash dhp !! chain_of dhp (Some n) = Some chain →
    named h n chain = named h n L;
  wf_perm : concat (dh_hash dhp) ≡ₚ L;
  wf_nodup : NoDup L;
  wf_null : 0 ∉ L;
  wf_nelems : dh_nelems dhp = Z.of_nat (length L)
}.

Lemma named_frame h h' n L :
  (∀ a, a ∈ L → name_of h' a = name_of h a) → named h' n L = named h n L.
Proof. intros Hf. apply list_filter_ext. intros a Ha. by rewrite Hf. Qed.

Lemma in_chain dhp c chain a (L : list Z) :
  concat (dh_hash dhp) ≡ₚ L → dh_hash dhp !! c = Some chain → a ∈ chain → a ∈ L.
Proof.
  intros <- Hc Ha. apply elem_of_concat. eauto.
Qed.

(** Only the names matter. *)
Lemma wf_frame h h' dhp L :
  (∀ a, a ∈ L → name_of h' a = name_of h a) → wf h dhp L → wf h' dhp L.
Proof.
  intros Hf [? ? Hc Ho Hp ? ? ?]. split; try done.
  - intros c chain a H1 H2. rewrite Hf by (by eapply in_chain). by eapply Hc.
  - intros n chain H1. rewrite (named_frame h), (named_frame h h' n L) by (done || (intros a Ha; apply Hf; by eapply in_chain)).
    by apply Ho.
Qed.

Lemma chain_of_lt h dhp L n : wf h dhp L → (chain_of dhp n < length (dh_hash dhp))%nat.
Proof.
  intros Hwf. unfold chain_of. rewrite (wf_hashsz _ _ _ Hwf). pose proof (wf_pos _ _ _ Hwf).
  pose proof (Z.mod_pos_bound (str2hval n 0) (Z.of_nat (dh_hashsz dhp))). set (m := _ mod _) in *. clearbody m. lia.
Qed.

Lemma lookup_loop_spec h chain name :
  (∀ a, a ∈ chain → is_Some (name_of h a)) →
  lookup_loop h chain name = Some (default 0 (head (named h name chain))).
Proof.
  induction chain as [|a chain IH]; intros Hn; [done|]. cbn [lookup_loop].
  destruct (Hn a ltac:(left)) as [n Ha]. pose proof Ha as Ha'. unfold name_of in Ha'.
  destruct (h !! a) as [i|]; [|done]. cbn [mbind option_bind] in *. rewrite Ha'. cbn [mbind option_bind].
  unfold named. destruct (bool_decide_reflect (n = name)) as [->|Hne].
  - by rewrite filter_cons_True.
  - rewrite filter_cons_False by congruence. apply IH. intros b Hb. apply Hn. by right.
Qed.

Lemma lookup_filled_spec h dhp L name :
  wf h dhp L → lookup_filled h dhp name = Some (default 0 (head (named h name L))).
Proof.
  intros Hwf. unfold lookup_filled.
  destruct (lookup_lt_is_Some_2 _ _ (chain_of_lt _ _ _ (Some name) Hwf)) as [chain Hc].
  rewrite Hc. cbn [mbind option_bind]. rewrite lookup_loop_spec.
  - by rewrite (wf_order _ _ _ Hwf _ _ Hc).
  - intros a Ha. destruct (wf_chain _ _ _ Hwf _ _ _ Hc Ha) as (n & -> & _). by eexists.
Qed.

Lemma chain_of_set dhp k hash n : chain_of (set_hash dhp k hash) n = chain_of dhp n.
Proof. done. Qed.

(** A new identifier at the front of its chain. *)
Lemma wf_link h dhp L a n chain :
  wf h dhp L → a ∉ L → a ≠ 0 → name_of h a = Some n → Z.of_nat (length L) + 1 < 2 ^ 64 →
  dh_hash dhp !! chain_of dhp (Some n) = Some chain →
  wf h (set_hash dhp (u64 (dh_nelems dhp + 1)) (<[chain_of dhp (Some n) := a :: chain]> (dh_hash dhp)))
    (a :: L).
Proof.
  intros Hwf Ha Ha0 Hn Hb Hc. pose proof (chain_of_lt _ _ _ (Some n) Hwf) as Hlt. split; simpl.
  - rewrite length_insert. apply Hwf.
  - apply Hwf.
  - intros c ch b. rewrite list_lookup_insert_case by done. case_decide as E.
    + intros [= <-] [->|Hb']%elem_of_cons; [eauto|]. subst c. by apply (wf_chain _ _ _ Hwf _ chain).
    + apply (wf_chain _ _ _ Hwf).
  - intros m ch. rewrite chain_of_set, list_lookup_insert_case by done. case_decide as E.
    + intros [= <-]. unfold named. rewrite !filter_cons. fold (named h m chain) (named h m L).
      rewrite (wf_order _ _ _ Hwf m chain) by congruence. done.
    + intros Hch. unfold named. rewrite (filter_cons_False _ a); [by apply (wf_order _ _ _ Hwf)|].
      rewrite Hn. intros [= ->]. done.
  - destruct (concat_slot _ _ _ Hc) as (R & E1 & E2).
    rewrite E2. simpl. by rewrite <- E1, (wf_perm _ _ _ Hwf).
  - apply NoDup_cons. split; [done|apply Hwf].
  - rewrite not_elem_of_cons. split; [done|apply Hwf].
  - rewrite (wf_nelems _ _ _ Hwf), wrap_id by (unfold urange; lia). lia.
Qed.

Lemma unlink_spec chain key :
  NoDup chain → key ∈ chain → unlink chain key = Some (filter (λ a, a ≠ key) chain).
Proof.
  induction chain as [|a chain IH]; intros Hnd Hin; [by apply elem_of_nil in Hin|].
  apply NoDup_cons in Hnd as [Ha Hnd]. cbn [unlink]. destruct (Z.eqb_spec a key) as [->|Hne].
  - rewrite filter_cons_False by naive_solver. rewrite list_filter_id; [done|]. by intros b Hb ->.
  - rewrite filter_cons_True by done. apply elem_of_cons in Hin as [->|Hin]; [done|].
    by rewrite (IH Hnd Hin).
Qed.

Lemma named_remove h n L key : named h n (filter (λ a, a ≠ key) L) = filter (λ a, a ≠ key) (named h n L).
Proof. unfold named. rewrite !list_filter_filter. apply list_filter_iff. intros a. simpl. tauto. Qed.

Lemma filter_remove_notin (key : Z) (L : list Z) : key ∉ L → filter (λ a, a ≠ key) L = L.
Proof. intros H. apply list_filter_id. by intros a Ha ->. Qed.

Lemma length_remove (key : Z) (L : list Z) :
  NoDup L → key ∈ L → length L = S (length (filter (λ a, a ≠ key) L)).
Proof.
  intros Hnd Hin. apply list_elem_of_split in Hin as (l1 & l2 & ->).
  apply NoDup_app in Hnd as (_ & Hd & Hnd). apply NoDup_cons in Hnd as [Hk _].
  rewrite filter_app, filter_cons_False by naive_solver.
  rewrite !filter_remove_notin by set_solver. rewrite !length_app. simpl. lia.
Qed.

(** Removing an identifier from its chain. *)
Lemma idhash_delete_spec h dhp L key :
  wf h dhp L → key ∈ L → Z.of_nat (length L) < 2 ^ 64 →
  ∃ i h' dhp', h !! key = Some i ∧ dt_idhash_delete h dhp key = Some (h', dhp') ∧
    wf h' dhp' (filter (λ a, a ≠ key) L) ∧
    h' = (if Z.land (di_flags i) DT_IDFLG_ORPHAN =? 0 then delete key h else h) ∧
    (∀ a, a ≠ key → h' !! a = h !! a) ∧ dh_nelems dhp' = dh_nelems dhp - 1.
Proof.
  intros Hwf Hin Hb.
  assert (∃ c chain, dh_hash dhp !! c = Some chain ∧ key ∈ chain) as (c & chain & Hc & Hk).
  { apply elem_of_concat. by rewrite (wf_perm _ _ _ Hwf). }
  destruct (wf_chain _ _ _ Hwf _ _ _ Hc Hk) as (n & Hn & Ec). pose proof Hn as Hn'. unfold name_of in Hn'.
  destruct (h !! key) as [i|] eqn:Hi; [|done]. simpl in Hn'. unfold dt_idhash_delete. rewrite Hi.
  cbn [mbind option_bind]. rewrite Hn', Ec, Hc. cbn [mbind option_bind].
  destruct (concat_slot _ _ _ Hc) as (R & E1 & E2).
  pose proof (wf_perm _ _ _ Hwf) as Hperm. pose proof (wf_nodup _ _ _ Hwf) as Hnd.
  assert (NoDup (chain ++ R)) as HndR by (by rewrite <- E1, Hperm).
  apply NoDup_app in HndR as (Hndc & Hdis & _).
  rewrite unlink_spec by done. cbn [mbind option_bind].
  pose proof (length_remove key L Hnd Hin) as Hlen.
  replace (dh_nelems dhp =? 0) with false by (rewrite (wf_nelems _ _ _ Hwf); lia).
  do 3 eexists. split; [done|]. split; [done|].
  assert (c < length (dh_hash dhp))%nat as Hlt by (by eapply lookup_lt_Some).
  split; [|split; [done|split]].
  - eapply (wf_frame h).
    { intros a [Ha _]%list_elem_of_filter. unfold name_of, dt_ident_destroy.
      destruct (_ =? 0); [by rewrite lookup_delete_ne|done]. }
    split; simpl.
    + rewrite length_insert. apply Hwf.
    + apply Hwf.
    + intros c' ch b. rewrite list_lookup_insert_case by done. case_decide as E.
      * intros [= <-] [_ Hb']%list_elem_of_filter. subst c'. by apply (wf_chain _ _ _ Hwf _ chain).
      * apply (wf_chain _ _ _ Hwf).
    + intros m ch. rewrite chain_of_set, list_lookup_insert_case, named_remove by done. case_decide as E.
      * intros [= <-]. rewrite named_remove. f_equal. apply (wf_order _ _ _ Hwf). by rewrite <- E.
      * intros Hch. rewrite (wf_order _ _ _ Hwf _ _ Hch). symmetry. apply filter_remove_notin.
        intros [Hm _]%list_elem_of_filter. congruence.
    + rewrite E2, <- Hperm, E1, filter_app, (filter_remove_notin key R); [done|by apply Hdis].
    + by apply NoDup_filter.
    + intros [_ H0]%list_elem_of_filter. by apply (wf_null _ _ _ Hwf).
    + rewrite (wf_nelems _ _ _ Hwf), wrap_id by (unfold urange; lia). lia.
  - intros a Ha. unfold dt_ident_destroy. destruct (_ =? 0); [by rewrite lookup_delete_ne|done].
  - simpl. rewrite (wf_nelems _ _ _ Hwf), wrap_id by (unfold urange; lia). lia.
Qed.

(** ** Deferred pragmas *)

Lemma apply_pragma_name i p : di_name (apply_pragma i p) = di_name i.
Proof. unfold apply_pragma. by repeat case_match. Qed.

(** The identifiers at some addresses. *)
Definition idents (h : idheap) (L : list Z) : list dt_ident := omap (h !!.) L.

Lemma idents_cons h a L :
  idents h (a :: L) = match h !! a with Some i => i :: idents h L | None => idents h L end.
Proof. done. Qed.

Lemma idents_frame h h' L : (∀ a, a ∈ L → h' !! a = h !! a) → idents h' L = idents h L.
Proof.
  induction L as [|a L IH]; intros Hf; [done|]. rewrite !idents_cons, Hf by left.
  rewrite IH; [done|]. intros b Hb. apply Hf. by right.
Qed.

Lemma elem_of_named h n L a : a ∈ named h n L ↔ name_of h a = Some n ∧ a ∈ L.
Proof. unfold named. by rewrite list_elem_of_filter. Qed.

Lemma pragma_loop_spec fuel h php P idp i n :
  wf h php P → idp ∉ P → h !! idp = Some i → di_name i = Some n →
  (length (named h n P) <= fuel)%nat → Z.of_nat (length P) < 2 ^ 64 →
  ∃ h' php', pragma_loop fuel h php idp = Some (h', php') ∧
    wf h' php' (filter (λ a, name_of h a ≠ Some n) P) ∧
    h' !! idp = Some (foldl apply_pragma i (idents h (named h n P))) ∧
    (∀ b, b ≠ idp → b ∉ named h n P → h' !! b = h !! b).
Proof.
  revert h php P i. induction fuel as [|fuel IH]; intros h php P i Hwf Hidp Hi Hn Hf Hb;
    cbn [pragma_loop]; rewrite Hi; cbn [mbind option_bind]; rewrite Hn; cbn [mbind option_bind];
    rewrite (lookup_filled_spec _ _ _ n Hwf); cbn [mbind option_bind];
    (destruct (named h n P) as [|pdp rest] eqn:Enamed;
      [simpl; do 2 eexists; split; [done|]; split; [|done];
       rewrite list_filter_id; [done|]; intros a Ha Hna;
       by apply (not_elem_of_nil a); rewrite <- Enamed; apply elem_of_named|]).
  { simpl in Hf. lia. }
  change (default 0 (head (pdp :: rest))) with pdp. assert (pdp ∈ named h n P) as Hpdp by (rewrite Enamed; left).
  apply elem_of_named in Hpdp as [Hnp HpP].
  replace (pdp =? 0) with false
    by (symmetry; apply Z.eqb_neq; intros ->; by apply (wf_null _ _ _ Hwf)).
  destruct (h !! pdp) as [p|] eqn:Hp; [|by unfold name_of in Hnp; rewrite Hp in Hnp].
  cbn [mbind option_bind]. set (h1 := <[idp := apply_pragma i p]> h).
  assert (∀ a, a ≠ idp → name_of h1 a = name_of h a) as Hn1
    by (intros a Ha; unfold name_of, h1; by rewrite lookup_insert_ne).
  assert (wf h1 php P) as Hwf1 by (eapply wf_frame; [|done]; intros a Ha; apply Hn1; by intros ->).
  destruct (idhash_delete_spec h1 php P pdp Hwf1 HpP Hb) as (p1 & h2 & php2 & Hp1 & -> & Hwf2 & _ & Hf2 & _).
  cbn [mbind option_bind]. set (P2 := filter (λ a, a ≠ pdp) P) in *.
  assert (pdp ≠ idp) as Hpi by (by intros ->).
  assert (∀ a, a ∈ P2 → name_of h2 a = name_of h a) as Hn2.
  { intros a [Ha HaP]%list_elem_of_filter. unfold name_of. rewrite Hf2 by done.
    apply Hn1. by intros ->. }
  assert (named h2 n P2 = rest ∧ pdp ∉ rest) as [Erest Hrest].
  { assert (NoDup (pdp :: rest)) as Hnd by (rewrite <- Enamed; apply NoDup_filter, Hwf).
    apply NoDup_cons in Hnd as [Hr _]. split; [|done].
    rewrite (named_frame h) by done. unfold P2. rewrite named_remove, Enamed.
    rewrite filter_cons_False by naive_solver. by apply filter_remove_notin. }
  destruct (IH h2 php2 P2 (apply_pragma i p)) as (h' & php' & -> & Hwf' & Hidp' & Hf'); [done|..].
  - intros [_ ?]%list_elem_of_filter. done.
  - rewrite Hf2 by done. unfold h1. by rewrite lookup_insert_eq.
  - by rewrite apply_pragma_name.
  - rewrite Erest. simpl in Hf. lia.
  - pose proof (length_filter (λ a, a ≠ pdp) P). unfold P2. lia.
  - rewrite Erest in *. do 2 eexists. split; [done|]. split; [|split].
    + erewrite (list_filter_ext _ (λ a, name_of h2 a ≠ Some n)) in Hwf' by done.
      unfold P2 in Hwf'. rewrite list_filter_filter in Hwf'.
      erewrite list_filter_ext; [exact Hwf'|]. intros a Ha. simpl.
      destruct (decide (a = pdp)) as [->|Hne]; [naive_solver|].
      rewrite (Hn2 a) by (by apply list_elem_of_filter). tauto.
    + rewrite Hidp', idents_cons, Hp. simpl. do 2 f_equal. apply idents_frame.
      intros a Ha. assert (a ∈ named h2 n P2) as [_ HaP]%elem_of_named by by rewrite Erest.
      apply list_elem_of_filter in HaP as [Hap HaP]. rewrite Hf2 by done. unfold h1.
      rewrite lookup_insert_ne; [done|]. by intros ->.
    + intros b Hbi Hbn. rewrite Hf' by set_solver. rewrite Hf2 by set_solver. unfold h1.
      by rewrite lookup_insert_ne.
Qed.

(** ** Insertion *)

(** A table with the identifiers [L], and the table of the pending pragmas [P]. *)
Record tables (h : idheap) (php : option dt_idhash) (dhp : dt_idhash) (L P : list Z) : Prop := {
  tb_wf : wf h dhp L;
  tb_pending : match php with Some p => wf h p P | None => P = [] end;
  tb_disjoint : ∀ a, a ∈ L → a ∉ P;
  tb_bound : Z.of_nat (length P) < 2 ^ 64
}.

(** What becomes of a new identifier, of the pending pragmas, and of a table. *)
Definition with_pragmas (h : idheap) (dhp : dt_idhash) (n : list Z) (P : list Z) (i : dt_ident) : dt_ident :=
  if dh_defer dhp then foldl apply_pragma i (idents h (named h n P)) else i.

Definition pending_after (h : idheap) (dhp : dt_idhash) (n : list Z) (P : list Z) : list Z :=
  if dh_defer dhp then filter (λ a, name_of h a ≠ Some n) P else P.

Definition same_table (dhp dhp' : dt_idhash) : Prop :=
  dh_name dhp' = dh_name dhp ∧ dh_defer dhp' = dh_defer dhp ∧ dh_tmpl dhp' = dh_tmpl dhp ∧
  dh_nextid dhp' = dh_nextid dhp ∧ dh_minid dhp' = dh_minid dhp ∧ dh_maxid dhp' = dh_maxid dhp ∧
  dh_nextoff dhp' = dh_nextoff dhp ∧ dh_hashsz dhp' = dh_hashsz dhp.

Lemma foldl_pragma_name ps i : di_name (foldl apply_pragma i ps) = di_name i.
Proof.
  revert i. induction ps as [|p ps IH]; intros i; [done|]. simpl. by rewrite IH, apply_pragma_name.
Qed.

Lemma pragma_apply_spec h php P idp i n :
  match php with Some p => wf h p P | None => P = [] end → Z.of_nat (length P) < 2 ^ 64 →
  idp ∉ P → h !! idp = Some i → di_name i = Some n →
  ∃ h' php', dt_pragma_apply h php idp = Some (h', php') ∧
    match php' with
    | Some p => wf h' p (filter (λ a, name_of h a ≠ Some n) P)
    | None => filter (λ a, name_of h a ≠ Some n) P = []
    end ∧
    h' !! idp = Some (foldl apply_pragma i (idents h (named h n P))) ∧
    (∀ b, b ≠ idp → b ∉ named h n P → h' !! b = h !! b).
Proof.
  intros Hp Hb Hidp Hi Hn. destruct php as [p|]; simpl.
  - assert (length (named h n P) <= Z.to_nat (dh_nelems p))%nat as Hf.
    { rewrite (wf_nelems _ _ _ Hp), Nat2Z.id. apply length_filter. }
    destruct (pragma_loop_spec _ h p P idp i n Hp Hidp Hi Hn Hf Hb) as (h' & p' & -> & ? & ? & ?).
    cbn [mbind option_bind]. by exists h', (Some p').
  - subst P. by exists h, None.
Qed.

Lemma link_spec h php dhp L P a i n :
  tables h php dhp L P → a ∉ L → a ∉ P → a ≠ 0 → h !! a = Some i → di_name i = Some n →
  Z.of_nat (length L) + 1 < 2 ^ 64 →
  ∃ h' php' dhp', link h php dhp (Some n) a = Some (h', php', dhp') ∧
    tables h' php' dhp' (a :: L) (pending_after h dhp n P) ∧ same_table dhp dhp' ∧
    h' !! a = Some (with_pragmas h dhp n P i) ∧
    (∀ b, b ≠ a → b ∉ P → h' !! b = h !! b).
Proof.
  intros [Hwf Hp Hdis Hb] HaL HaP Ha0 Hi Hn HbL. unfold link, with_pragmas, pending_after.
  assert (name_of h a = Some n) as Hna by (unfold name_of; by rewrite Hi).
  destruct (lookup_lt_is_Some_2 _ _ (chain_of_lt _ _ _ (Some n) Hwf)) as [chain Hc].
  rewrite Hc. cbn [mbind option_bind].
  pose proof (wf_link h dhp L a n chain Hwf HaL Ha0 Hna HbL Hc) as Hwf'.
  set (dhp' := set_hash _ _ _) in *. change (dh_defer dhp') with (dh_defer dhp).
  destruct (dh_defer dhp); last first.
  { do 3 eexists. split; [done|]. split; [|done]. split; try done. set_solver. }
  destruct (pragma_apply_spec h php P a i n Hp Hb HaP Hi Hn) as (h' & php' & -> & Hp' & Hi' & Hf).
  cbn [mbind option_bind]. do 3 eexists. split; [done|].
  assert (∀ b, b ≠ a → b ∉ P → h' !! b = h !! b) as Hf'.
  { intros b Hba HbP. apply Hf; [done|]. rewrite elem_of_named. tauto. }
  split; [|done]. split; [|done|..].
  - eapply (wf_frame h); [|done]. intros b [->|HbL']%elem_of_cons; unfold name_of.
    + rewrite Hi, Hi'. simpl. apply foldl_pragma_name.
    + rewrite Hf'; [done| |by apply Hdis]. by intros ->.
  - intros b Hb' [_ HbP]%list_elem_of_filter. set_solver.
  - pose proof (length_filter (λ b, name_of h b ≠ Some n) P). lia.
Qed.

Section alloc_lemmas.
Context (al : idheap → option Z) (yylineno : Z).

(** The allocator returns addresses that are not in use. *)
Hypothesis al_fresh : ∀ h a, al h = Some a → a ≠ 0 ∧ h !! a = None.

Lemma live h dhp L a : wf h dhp L → a ∈ L → is_Some (h !! a).
Proof.
  intros Hwf Ha. rewrite <- (wf_perm _ _ _ Hwf) in Ha. apply elem_of_concat in Ha as (c & chain & Hc & Ha).
  destruct (wf_chain _ _ _ Hwf _ _ _ Hc Ha) as (n & Hn & _). unfold name_of in Hn.
  destruct (h !! a); [by eexists|done].
Qed.

Lemma insert_filled_spec h php dhp L P n kind flags id attr vers ops iarg gen :
  tables h php dhp L P → Z.of_nat (length L) + 1 < 2 ^ 64 →
  let i := dt_ident_create (Some n) kind flags id attr vers ops iarg gen yylineno in
  (al h = None ∧
   insert_filled al yylineno h php dhp (Some n) kind flags id attr vers ops iarg gen = Some (0, h, php, dhp)) ∨
  ∃ a h' php' dhp', al h = Some a ∧
    insert_filled al yylineno h php dhp (Some n) kind flags id attr vers ops iarg gen =
      Some (a, h', php', dhp') ∧
    tables h' php' dhp' (a :: L) (pending_after h dhp n P) ∧ same_table dhp dhp' ∧
    h' !! a = Some (with_pragmas h dhp n P i) ∧
    (∀ b, b ≠ a → b ∉ P → h' !! b = h !! b).
Proof.
  intros Htb HbL i. unfold insert_filled. destruct (al h) as [a|] eqn:Ha; [|by left]. right.
  destruct (al_fresh _ _ Ha) as [Ha0 Hfresh]. fold i.
  assert (a ∉ L) as HaL by (intros Hin; destruct (live _ _ _ _ (tb_wf _ _ _ _ _ Htb) Hin); congruence).
  assert (a ∉ P) as HaP.
  { intros Hin. pose proof (tb_pending _ _ _ _ _ Htb) as Hp. destruct php; [|by subst P; apply elem_of_nil in Hin].
    destruct (live _ _ _ _ Hp Hin); congruence. }
  assert (∀ b, b ≠ a → name_of (<[a := i]> h) b = name_of h b) as Hn
    by (intros b Hb; unfold name_of; by rewrite lookup_insert_ne).
  assert (tables (<[a := i]> h) php dhp L P) as Htb'.
  { destruct Htb as [Hwf Hp Hdis Hb]. split; try done.
    - eapply wf_frame; [|done]. intros b Hb'. apply Hn. by intros ->.
    - destruct php; [|done]. eapply wf_frame; [|done]. intros b Hb'. apply Hn. by intros ->. }
  assert (∀ l, a ∉ l → named (<[a := i]> h) n l = named h n l) as Hnamed
    by (intros l Hl; apply named_frame; intros b Hb; apply Hn; by intros ->).
  destruct (link_spec (<[a := i]> h) php dhp L P a i n) as (h' & php' & dhp' & -> & H1 & H2 & H3 & H4);
    try done; [by rewrite lookup_insert_eq|].
  cbn [mbind option_bind]. exists a, h', php', dhp'. split; [done|]. split; [done|].
  assert (pending_after (<[a := i]> h) dhp n P = pending_after h dhp n P) as Ep.
  { unfold pending_after. destruct (dh_defer dhp); [|done]. apply list_filter_ext. intros b Hb.
    rewrite Hn; [done|]. by intros ->. }
  assert (with_pragmas (<[a := i]> h) dhp n P i = with_pragmas h dhp n P i) as Ew.
  { unfold with_pragmas. destruct (dh_defer dhp); [|done]. rewrite Hnamed by done. f_equal.
    apply idents_frame. intros b [_ Hb]%elem_of_named. rewrite lookup_insert_ne; [done|]. by intros ->. }
  rewrite <- Ep, <- Ew. split_and!; try done. intros b Hb HbP. rewrite H4 by done. by apply lookup_insert_ne.
Qed.

(** The identifier made from a template entry. *)
Definition from_template (h : idheap) (a : Z) (t : dt_ident) : Prop :=
  ∃ i, h !! a = Some i ∧ di_name i = di_name t ∧ di_kind i = di_kind t ∧ di_id i = di_id t ∧
    di_flags i = di_flags t ∧ di_ops i = (if di_ops t =? 0 then dt_idops_thaw else di_ops t).

Lemma apply_pragma_other i p :
  di_kind (apply_pragma i p) = di_kind i ∧ di_id (apply_pragma i p) = di_id i ∧
  di_flags (apply_pragma i p) = di_flags i ∧ di_ops (apply_pragma i p) = di_ops i.
Proof. unfold apply_pragma. by repeat case_match. Qed.

Lemma with_pragmas_other h dhp n P i :
  let j := with_pragmas h dhp n P i in
  di_name j = di_name i ∧ di_kind j = di_kind i ∧ di_id j = di_id i ∧ di_flags j = di_flags i ∧
  di_ops j = di_ops i.
Proof.
  unfold with_pragmas. destruct (dh_defer dhp); [|done]. generalize (idents h (named h n P)) as ps.
  intros ps. revert i. induction ps as [|p ps IH]; intros i; [done|]. simpl.
  destruct (IH (apply_pragma i p)) as (-> & -> & -> & -> & ->).
  destruct (apply_pragma_other i p) as (-> & -> & -> & ->). by rewrite apply_pragma_name.
Qed.

Lemma populate_loop_spec h php dhp L P T :
  tables h php dhp L P → Forall (λ t, is_Some (di_name t)) T →
  Z.of_nat (length L + length T) < 2 ^ 64 →
  ∃ r, populate_loop al yylineno h php dhp T = Some r ∧
    match r with
    | Longjmp c => c = EDT_NOMEM ∧ ∃ h0, al h0 = None
    | Done (h', php', dhp') =>
        ∃ A P', tables h' php' dhp' (rev A ++ L) P' ∧ same_table dhp dhp' ∧
          Forall2 (from_template h') A T ∧ (∀ b, b ∈ P' → b ∈ P) ∧
          (∀ b, is_Some (h !! b) → b ∉ P → h' !! b = h !! b)
    end.
Proof.
  intros Htb HT. revert h php dhp L P Htb. induction HT as [|t T [n Hn] HT IH]; intros h php dhp L P Htb Hb.
  { eexists. split; [done|]. by exists [], P. }
  simpl in Hb. cbn [populate_loop]. rewrite Hn.
  destruct (insert_filled_spec h php dhp L P n (di_kind t) (di_flags t) (di_id t) (di_attr t) (di_vers t)
    (if di_ops t =? 0 then dt_idops_thaw else di_ops t) (di_iarg t) 0 Htb) as
    [[Hal ->]|(a & h1 & php1 & dhp1 & Hal & -> & Htb1 & Hsame & Ha & Hf1)]; [lia|..].
  { eexists. cbn [mbind option_bind Z.eqb]. split; [done|]. split; [done|]. by exists h. }
  cbn [mbind option_bind]. destruct (al_fresh _ _ Hal) as [Ha0 Hnone].
  replace (a =? 0) with false by lia.
  destruct (IH h1 php1 dhp1 (a :: L) _ Htb1) as (r & -> & Hr); [simpl; lia|].
  eexists. split; [done|]. destruct r as [[[h' php'] dhp']|c]; [|done].
  destruct Hr as (A & P' & Htb' & Hsame' & HA & HP' & Hf').
  assert (∀ b, b ∈ pending_after h dhp n P → b ∈ P) as HP.
  { intros b. unfold pending_after. destruct (dh_defer dhp); [|done]. rewrite list_elem_of_filter. tauto. }
  exists (a :: A), P'. split; [simpl; by rewrite <- app_assoc|]. split.
  { unfold same_table in *. destruct_and!. split_and!; congruence. }
  split; [|split; [auto|]].
  - constructor; [|done]. exists (with_pragmas h dhp n P (dt_ident_create (Some n) (di_kind t) (di_flags t)
      (di_id t) (di_attr t) (di_vers t) (if di_ops t =? 0 then dt_idops_thaw else di_ops t) (di_iarg t) 0 yylineno)).
    rewrite Hf', Ha.
    + destruct (with_pragmas_other h dhp n P (dt_ident_create (Some n) (di_kind t) (di_flags t)
        (di_id t) (di_attr t) (di_vers t) (if di_ops t =? 0 then dt_idops_thaw else di_ops t) (di_iarg t) 0 yylineno))
        as (-> & -> & -> & -> & ->). by rewrite Hn.
    + by eexists.
    + apply (tb_disjoint _ _ _ _ _ Htb1). left.
  - intros b [ib Hib] HbP. assert (b ≠ a) as Hba by congruence.
    rewrite Hf' by (rewrite ?Hf1 by done; eauto). by apply Hf1.
Qed.

End alloc_lemmas.

(** ** Properties *)

(** C21: Inserting a name in a table whose template is spent returns NULL and
    changes nothing when there is no memory; otherwise a search for the name
    finds the new identifier and a search for any other name finds what it
    found before, and the identifier carries the arguments of the call as
    amended by the pragmas that were pending for its name, which are gone. *)
Theorem dt_idhash_insert_correct al yylineno h php dhp L P n kind flags id attr vers ops iarg gen :
  (∀ h a, al h = Some a → a ≠ 0 ∧ h !! a = None) →
  tables h php dhp L P → dh_tmpl dhp = None → Z.of_nat (length L) + 1 < 2 ^ 64 →
  let i := dt_ident_create (Some n) kind flags id attr vers ops iarg gen yylineno in
  ∃ a h' php' dhp',
    dt_idhash_insert al yylineno h php dhp (Some n) kind flags id attr vers ops iarg gen =
      Some (Done (a, h', php', dhp')) ∧
    (al h = None ∧ a = 0 ∧ h' = h ∧ php' = php ∧ dhp' = dhp ∨
     tables h' php' dhp' (a :: L) (pending_after h dhp n P) ∧
     h' !! a = Some (with_pragmas h dhp n P i) ∧
     ∀ m, ∃ b, dt_idhash_lookup al yylineno h php dhp m = Some (Done (b, h, php, dhp)) ∧
       dt_idhash_lookup al yylineno h' php' dhp' m =
         Some (Done (if decide (m = n) then a else b, h', php', dhp'))).
Proof.
  intros Hal Htb Htmpl Hb i. unfold dt_idhash_insert, dt_idhash_lookup, dt_idhash_populate.
  rewrite Htmpl. cbn [mbind option_bind].
  destruct (insert_filled_spec al yylineno Hal h php dhp L P n kind flags id attr vers ops iarg gen Htb Hb) as
    [[Hn ->]|(a & h' & php' & dhp' & Ha & -> & Htb' & Hsame & Hi & Hf)]; cbn [mbind option_bind].
  { do 4 eexists. split; [done|]. left. done. }
  exists a, h', php', dhp'. split; [done|]. right. split; [done|]. split; [done|]. intros m.
  rewrite (lookup_filled_spec _ _ _ m (tb_wf _ _ _ _ _ Htb)). cbn [mbind option_bind].
  eexists. split; [done|]. destruct Hsame as (_ & _ & -> & _). rewrite Htmpl. cbn [mbind option_bind].
  rewrite (lookup_filled_spec _ _ _ m (tb_wf _ _ _ _ _ Htb')). cbn [mbind option_bind]. do 5 f_equal.
  assert (name_of h' a = Some n) as Hna.
  { unfold name_of. rewrite Hi. exact (proj1 (with_pragmas_other h dhp n P i)). }
  unfold named. destruct (decide (m = n)) as [->|Hne].
  - by rewrite filter_cons_True.
  - rewrite filter_cons_False by congruence. f_equal. f_equal. apply list_filter_ext. intros b Hbl.
    unfold name_of. rewrite Hf; [done| |by apply (tb_disjoint _ _ _ _ _ Htb)].
    intros ->. destruct (live _ _ _ _ (tb_wf _ _ _ _ _ Htb) Hbl). destruct (Hal _ _ Ha). congruence.
Qed.

(** An allocator, and an empty table, for the concrete runs. *)
Definition al_max (h : idheap) : option Z := Some (1 + foldr Z.max 0 (fst <$> map_to_list h)).

Lemma al_max_fresh h a : al_max h = Some a → a ≠ 0 ∧ h !! a = None.
Proof.
  unfold al_max. intros [= <-]. set (l := fst <$> map_to_list h).
  assert (0 <= foldr Z.max 0 l ∧ ∀ x, x ∈ l → x <= foldr Z.max 0 l) as [H0 Hle].
  { induction l as [|y l [IH0 IH]]; simpl; [split; [lia|]; by intros x ?%elem_of_nil|].
    split; [lia|]. intros x [->|Hx]%elem_of_cons; [lia|]. specialize (IH x Hx). lia. }
  split; [lia|]. destruct (h !! _) as [i|] eqn:Hi; [|done]. exfalso.
  apply elem_of_map_to_list in Hi. assert (1 + foldr Z.max 0 l ∈ l) as Hin.
  { unfold l at 2. apply list_elem_of_fmap. eexists (_, i). split; [done|]. done. }
  specialize (Hle _ Hin). lia.
Qed.

Lemma idhash_create_spec m name tmpl min max h :
  min <= max →
  ∃ r, dt_idhash_create m name tmpl min max = Some r ∧
    (∀ dhp, r = Some dhp → tables h None dhp [] [] ∧ dh_tmpl dhp = tmpl ∧ dh_nextid dhp = min).
Proof.
  intros Hm. unfold dt_idhash_create. replace (max <? min) with false by lia.
  destruct m; simpl; (eexists; split; [done|]); intros dhp [= <-]. split; [|done].
  split; [|done|by intros a ?%elem_of_nil|done]. split; simpl; try done.
  - unfold _dtrace_strbuckets. lia.
  - intros c chain a Hc. change (replicate 211 [] !! c = Some chain) in Hc.
    apply lookup_replicate in Hc as [-> _]. by intros ?%elem_of_nil.
  - intros n chain Hc. change (replicate 211 [] !! chain_of (mk_idhash name false tmpl min min max 0 0
      _dtrace_strbuckets (replicate 211 [])) (Some n) = Some chain) in Hc.
    by apply lookup_replicate in Hc as [-> _].
  - constructor.
  - set_solver.
Qed.

Definition idents0 (tmpl : option (list dt_ident)) : dt_idhash :=
  mk_idhash (str "globals") false tmpl 100 100 200 0 0 _dtrace_strbuckets (replicate _dtrace_strbuckets []).

Lemma table0_ok tmpl : tables ∅ None (idents0 tmpl) [] [].
Proof.
  destruct (idhash_create_spec true (str "globals") tmpl 100 200 ∅) as (r & E & Hr); [lia|].
  unfold dt_idhash_create in E. simpl in E. injection E as <-. by apply Hr.
Qed.

Definition attr0 : dtrace_attribute := mk_attr 5 5 6.

Lemma dt_idhash_insert_correct_witness :
  let i := dt_ident_create (Some (str "pid")) 1 0 7 attr0 0 1 0 1 10 in
  ∃ a h' php' dhp',
    dt_idhash_insert al_max 10 ∅ None (idents0 None) (Some (str "pid")) 1 0 7 attr0 0 1 0 1 =
      Some (Done (a, h', php', dhp')) ∧
    (al_max ∅ = None ∧ a = 0 ∧ h' = ∅ ∧ php' = None ∧ dhp' = idents0 None ∨
     tables h' php' dhp' [a] (pending_after ∅ (idents0 None) (str "pid") []) ∧
     h' !! a = Some (with_pragmas ∅ (idents0 None) (str "pid") [] i) ∧
     ∀ m, ∃ b, dt_idhash_lookup al_max 10 ∅ None (idents0 None) m = Some (Done (b, ∅, None, idents0 None)) ∧
       dt_idhash_lookup al_max 10 h' php' dhp' m =
         Some (Done (if decide (m = str "pid") then a else b, h', php', dhp'))).
Proof.
  apply (dt_idhash_insert_correct al_max 10 ∅ None (idents0 None) [] []);
    [apply al_max_fresh|apply table0_ok|done|done].
Defined.

(** The attributes, and the version, of the last pragma of its kind in a list. *)
Fixpoint last_attr (ps : list dt_ident) (d : dtrace_attribute) : dtrace_attribute :=
  match ps with
  | [] => d
  | p :: ps => last_attr ps (if di_kind p =? DT_IDENT_PRAGAT then di_attr p else d)
  end.
Fixpoint last_vers (ps : list dt_ident) (d : Z) : Z :=
  match ps with
  | [] => d
  | p :: ps => last_vers ps (if di_kind p =? DT_IDENT_PRAGBN then di_vers p else d)
  end.

(** Applying the pragmas pending for an identifier terminates, removes all of
    them and no other, and changes nothing of the identifier but its attributes
    and version, which become those of the pragma of each kind that was given
    first: the table lists the latest first, and the loop lets each pragma
    override the ones before it in the list. *)
Theorem dt_pragma_apply_correct h php P idp i n :
  wf h php P → Z.of_nat (length P) < 2 ^ 64 → idp ∉ P → h !! idp = Some i → di_name i = Some n →
  let ps := idents h (named h n P) in
  ∃ h' php', dt_pragma_apply h (Some php) idp = Some (h', Some php') ∧
    wf h' php' (filter (λ a, name_of h a ≠ Some n) P) ∧
    h' !! idp = Some (mk_ident (di_name i) (di_kind i) (di_flags i) (di_id i) (last_attr ps (di_attr i))
      (last_vers ps (di_vers i)) (di_ops i) (di_iarg i) (di_data i) (di_offset i) (di_size i)
      (di_gen i) (di_lineno i)) ∧
    (∀ b, b ≠ idp → b ∉ named h n P → h' !! b = h !! b).
Proof.
  intros Hwf Hb Hidp Hi Hn ps.
  destruct (pragma_apply_spec h (Some php) P idp i n Hwf Hb Hidp Hi Hn) as (h' & php' & E & Hp' & Hi' & Hf).
  unfold dt_pragma_apply in *. apply bind_Some_inv in E as ([h1 p1] & E1 & [= -> <-]). rewrite E1.
  cbn [mbind option_bind]. exists h', p1. split_and!; try done. rewrite Hi'. f_equal. fold ps.
  clear. revert i. induction ps as [|p ps IH]; intros i; [by destruct i|]. simpl. rewrite IH.
  unfold apply_pragma. destruct (Z.eqb_spec (di_kind p) DT_IDENT_PRAGAT) as [E|]; simpl.
  - rewrite E. done.
  - by destruct (di_kind p =? DT_IDENT_PRAGBN).
Qed.

Definition ident_of (name : string) (kind : Z) (attr : dtrace_attribute) : dt_ident :=
  dt_ident_create (Some (str name)) kind 0 0 attr 0 1 0 1 10.

Definition pragmas1 : idheap * dt_idhash :=
  Eval vm_compute in
    match insert_filled al_max 1 (<[50 := ident_of "x" 1 attr0]> ∅) None (idents0 None) (Some (str "x"))
      DT_IDENT_PRAGAT 0 0 (mk_attr 1 1 1) 0 1 0 1 with
    | Some (_, h, _, p) => (h, p)
    | None => (∅, idents0 None)
    end.

Lemma pragmas1_ok : wf pragmas1.1 pragmas1.2 [51].
Proof.
  destruct (insert_filled_spec al_max 1 al_max_fresh (<[50 := ident_of "x" 1 attr0]> ∅) None (idents0 None) [] []
    (str "x") DT_IDENT_PRAGAT 0 0 (mk_attr 1 1 1) 0 1 0 1) as [[? _]|(a & h' & php' & dhp' & Ha & E & Htb & _)];
    [|done|done|].
  - destruct (idhash_create_spec true (str "globals") None 100 200 (<[50 := ident_of "x" 1 attr0]> ∅)) as (r & E & Hr); [lia|].
    unfold dt_idhash_create in E. simpl in E. injection E as <-. by apply Hr.
  - vm_compute in Ha. injection Ha as <-. vm_compute in E. injection E as <- <- <-. apply Htb.
Qed.

Lemma dt_pragma_apply_correct_witness :
  let i := ident_of "x" 1 attr0 in
  let ps := idents pragmas1.1 (named pragmas1.1 (str "x") [51]) in
  ∃ h' php', dt_pragma_apply pragmas1.1 (Some pragmas1.2) 50 = Some (h', Some php') ∧
    wf h' php' (filter (λ a, name_of pragmas1.1 a ≠ Some (str "x")) [51]) ∧
    h' !! 50 = Some (mk_ident (di_name i) (di_kind i) (di_flags i) (di_id i) (last_attr ps (di_attr i))
      (last_vers ps (di_vers i)) (di_ops i) (di_iarg i) (di_data i) (di_offset i) (di_size i)
      (di_gen i) (di_lineno i)) ∧
    (∀ b, b ≠ 50 → b ∉ named pragmas1.1 (str "x") [51] → h' !! b = pragmas1.1 !! b).
Proof.
  apply (dt_pragma_apply_correct pragmas1.1 pragmas1.2 [51] 50 (ident_of "x" 1 attr0) (str "x"));
    [apply pragmas1_ok|done|set_solver|vm_compute; reflexivity|reflexivity].
Defined.

(** The kinds of identifier that take part in [dt_idhash_update]. *)
Definition variable (i : dt_ident) : Prop :=
  di_kind i = DT_IDENT_ARRAY ∨ di_kind i = DT_IDENT_SCALAR ∨ di_kind i = DT_IDENT_AGG.

Lemma update_loop_spec h ids n :
  (∀ a, a ∈ ids → ∃ i, h !! a = Some i ∧ 0 <= di_id i < 2 ^ 32 - 1) →
  ∃ n', update_loop h ids n = Some n' ∧ n <= n' ∧
    (∀ a i, a ∈ ids → h !! a = Some i → variable i → di_id i < n').
Proof.
  revert n. induction ids as [|a ids IH]; intros n Hok.
  { exists n. split; [done|]. split; [lia|]. by intros a i ?%elem_of_nil. }
  destruct (Hok a ltac:(left)) as (i & Hi & Hid). cbn [update_loop]. rewrite Hi. cbn [mbind option_bind].
  rewrite wrap_id by (unfold urange; lia). 
  set (n1 := if (di_kind i =? DT_IDENT_ARRAY) || (di_kind i =? DT_IDENT_SCALAR) ||
    (di_kind i =? DT_IDENT_AGG) then Z.max n (di_id i + 1) else n).
  assert (n <= n1 ∧ (variable i → di_id i < n1)) as [H1 H2].
  { unfold n1, variable. destruct (Z.eqb_spec (di_kind i) DT_IDENT_ARRAY), (Z.eqb_spec (di_kind i) DT_IDENT_SCALAR),
      (Z.eqb_spec (di_kind i) DT_IDENT_AGG); simpl; split; lia || naive_solver. }
  destruct (IH n1) as (n' & -> & Hle & Hall); [intros b Hb; apply Hok; by right|].
  exists n'. split; [done|]. split; [lia|]. intros b j [->|Hb]%elem_of_cons Hj Hv; [|by apply (Hall b)].
  simplify_eq. specialize (H2 Hv). lia.
Qed.

(** After [dt_idhash_update] the ids that [dt_idhash_nextid] hands out are in the
    table's range and above the id of every scalar, array and aggregation of
    the table, and consecutive calls hand out consecutive ids until the range
    is exhausted. *)
Theorem dt_idhash_update_nextid_correct h dhp L :
  wf h dhp L → (∀ a, a ∈ L → ∃ i, h !! a = Some i ∧ 0 <= di_id i < 2 ^ 32 - 1) →
  0 <= dh_minid dhp → dh_maxid dhp < 2 ^ 32 →
  ∃ dhp', dt_idhash_update h dhp = Some dhp' ∧ wf h dhp' L ∧
    match dt_idhash_nextid dhp' with
    | (Some id, dhp'') =>
        dh_minid dhp <= id < dh_maxid dhp ∧
        (∀ a i, a ∈ L → h !! a = Some i → variable i → di_id i < id) ∧
        dt_idhash_peekid dhp'' = id + 1 ∧ wf h dhp'' L
    | (None, dhp'') => dh_maxid dhp <= dt_idhash_peekid dhp' ∧ dhp'' = dhp'
    end.
Proof.
  intros Hwf Hids Hmin Hmax. unfold dt_idhash_update.
  rewrite take_ge by (rewrite (wf_hashsz _ _ _ Hwf); lia).
  destruct (update_loop_spec h (concat (dh_hash dhp)) (dh_minid dhp)) as (n & -> & Hle & Hall).
  { intros a. rewrite (wf_perm _ _ _ Hwf). apply Hids. }
  cbn [mbind option_bind]. eexists. split; [done|].
  assert (∀ m, wf h (set_nextid dhp m) L) as Hwf' by (intros m; by destruct Hwf; split).
  split; [done|]. unfold dt_idhash_nextid. simpl.
  destruct (Z.leb_spec (dh_maxid dhp) n); [done|]. split; [lia|]. split.
  - intros a i Ha. apply Hall. by rewrite (wf_perm _ _ _ Hwf).
  - unfold dt_idhash_peekid. simpl. split; [by rewrite wrap_id by (unfold urange; lia)|].
    exact (Hwf' (u32 (n + 1))).
Qed.

Lemma dt_idhash_update_nextid_correct_witness :
  ∃ dhp', dt_idhash_update pragmas1.1 pragmas1.2 = Some dhp' ∧ wf pragmas1.1 dhp' [51] ∧
    match dt_idhash_nextid dhp' with
    | (Some id, dhp'') =>
        dh_minid pragmas1.2 <= id < dh_maxid pragmas1.2 ∧
        (∀ a i, a ∈ [51] → pragmas1.1 !! a = Some i → variable i → di_id i < id) ∧
        dt_idhash_peekid dhp'' = id + 1 ∧ wf pragmas1.1 dhp'' [51]
    | (None, dhp'') => dh_maxid pragmas1.2 <= dt_idhash_peekid dhp' ∧ dhp'' = dhp'
    end.
Proof.
  apply dt_idhash_update_nextid_correct; [apply pragmas1_ok| |vm_compute; discriminate|done].
  intros a ->%list_elem_of_singleton. eexists. split; [vm_compute; reflexivity|]. vm_compute. split; [discriminate|done].
Defined.

(** A request for storage: an identifier, its alignment and its size. *)
Fixpoint set_storages (h : idheap) (dhp : dt_idhash) (maxtls : Z) (reqs : list (Z * Z * Z)) :
    option (idheap * dt_idhash * Z) :=
  match reqs with
  | [] => Some (h, dhp, maxtls)
  | (idp, alignment, sz) :: reqs =>
      '(h, dhp, maxtls) ← dt_ident_set_storage h dhp maxtls idp alignment sz;
      set_storages h dhp maxtls reqs
  end.

(** The most the requests can take, with the padding. *)
Fixpoint worst (reqs : list (Z * Z * Z)) : Z :=
  match reqs with [] => 0 | (_, alignment, sz) :: reqs => alignment + sz + worst reqs end.

Definition req_ok (h : idheap) (r : Z * Z * Z) : Prop :=
  let '(idp, alignment, sz) := r in
  (∃ k, 0 <= k < 31 ∧ alignment = 2 ^ k) ∧ 0 <= sz ∧
  ∃ i, h !! idp = Some i ∧ Z.land (di_flags i) DT_IDFLG_TLS = 0.

(** [r] got the bytes [o, o + size), aligned, within [lo, hi). *)
Definition granted (h : idheap) (lo hi : Z) (r : Z * Z * Z) : Prop :=
  let '(idp, alignment, sz) := r in
  ∃ i, h !! idp = Some i ∧ di_size i = sz ∧ di_offset i mod alignment = 0 ∧
    lo <= di_offset i ∧ di_offset i + sz <= hi.

Definition apart (h : idheap) (r r' : Z * Z * Z) : Prop :=
  ∃ i i', h !! fst (fst r) = Some i ∧ h !! fst (fst r') = Some i' ∧
    di_offset i + di_size i <= di_offset i'.

Lemma worst_nonneg h reqs : Forall (req_ok h) reqs → 0 <= worst reqs.
Proof.
  induction 1 as [|[[idp al] sz] reqs [(k & Hk & ->) [Hs _]] _ IH]; simpl; [lia|].
  pose proof (Z.pow_pos_nonneg 2 k). lia.
Qed.

Lemma set_storage_step h dhp m idp alignment sz :
  req_ok h (idp, alignment, sz) → 0 <= dh_nextoff dhp → dh_nextoff dhp + alignment + sz < 2 ^ 31 →
  ∃ h' dhp', dt_ident_set_storage h dhp m idp alignment sz = Some (h', dhp', m) ∧
    granted h' (dh_nextoff dhp) (dh_nextoff dhp') (idp, alignment, sz) ∧
    dh_nextoff dhp' <= dh_nextoff dhp + alignment + sz ∧
    (∀ b, b ≠ idp → h' !! b = h !! b).
Proof.
  intros [(k & Hk & ->) (Hs & i & Hi & Hf)] H0 Hb. unfold dt_ident_set_storage. rewrite Hi.
  cbn [mbind option_bind]. rewrite Hf. cbn [Z.eqb].
  pose proof (Z.pow_pos_nonneg 2 k). destruct (align_up 32 (dh_nextoff dhp) k) as [Hal Hr]; [lia|lia|lia|].
  set (off := Z.land (u32 (dh_nextoff dhp + (2 ^ k - 1))) (u32 (Z.lnot (2 ^ k - 1)))) in *.
  assert (s32 off = off) as ->.
  { apply swrap_id; [lia|]. unfold srange. change (32 - 1) with 31. lia. }
  do 2 eexists. split; [done|]. simpl. rewrite wrap_id by (unfold urange; lia). split; [|split; [lia|]].
  - eexists. rewrite lookup_insert_eq. split; [done|]. simpl. split_and!; try lia.
    apply swrap_id; [lia|]. unfold srange. change (32 - 1) with 31. lia.
  - intros b Hbi. by apply lookup_insert_ne.
Qed.

Lemma granted_mono h h' lo hi lo' hi' r :
  h' !! fst (fst r) = h !! fst (fst r) → lo' <= lo → hi <= hi' → granted h lo hi r → granted h' lo' hi' r.
Proof.
  destruct r as [[idp al] sz]. simpl. intros E Hlo Hhi (i & ? & ? & ? & ? & ?). exists i. rewrite E.
  split_and!; lia || done.
Qed.

Lemma set_storages_spec h dhp m reqs :
  Forall (req_ok h) reqs → NoDup (fst ∘ fst <$> reqs) →
  0 <= dh_nextoff dhp → dh_nextoff dhp + worst reqs < 2 ^ 31 →
  ∃ h' dhp', set_storages h dhp m reqs = Some (h', dhp', m) ∧ dh_nextoff dhp <= dh_nextoff dhp' ∧
    Forall (granted h' (dh_nextoff dhp) (dh_nextoff dhp')) reqs ∧
    ForallOrdPairs (apart h') reqs ∧ (∀ b, b ∉ (fst ∘ fst <$> reqs) → h' !! b = h !! b).
Proof.
  intros Hok. revert h dhp Hok. induction reqs as [|[[idp al] sz] reqs IH]; intros h dhp Hok Hnd H0 Hb.
  { do 2 eexists. split; [done|]. split; [lia|]. split_and!; done || constructor. }
  apply Forall_cons_iff in Hok as [Hr Hok]. rewrite fmap_cons in Hnd. apply NoDup_cons in Hnd as [Hidp Hnd].
  change ((fst ∘ fst) (idp, al, sz)) with idp in *. pose proof (worst_nonneg h reqs Hok) as Hw.
  cbn [worst] in Hb. destruct (set_storage_step h dhp m idp al sz Hr H0) as (h1 & dhp1 & E1 & Hg & Hle & Hf1); [lia|].
  cbn [set_storages]. rewrite E1. cbn [mbind option_bind].
  pose proof Hg as (i1 & Hi1 & Hsz1 & _ & Hlo1 & Hhi1). destruct Hr as [_ [Hs _]].
  destruct (IH h1 dhp1) as (h' & dhp' & E & Hmon & Hall & Hord & Hf).
  - rewrite Forall_forall in Hok |- *. intros [[idp' al'] sz'] Hin.
    destruct (Hok _ Hin) as (? & ? & i' & ? & ?). simpl.
    rewrite Hf1; [eauto|]. intros ->. apply Hidp. apply list_elem_of_fmap. by exists (idp, al', sz').
  - done.
  - lia.
  - lia.
  - exists h', dhp'. split; [done|]. split; [lia|].
    assert (h' !! idp = h1 !! idp) as Hidp' by by apply Hf. split_and!.
    + apply Forall_cons_iff. split.
      * eapply granted_mono; [exact Hidp'| | |exact Hg]; lia.
      * eapply Forall_impl; [exact Hall|]. intros r. apply granted_mono; [done|lia|lia].
    + constructor; [|done]. apply Forall_impl with (granted h' (dh_nextoff dhp1) (dh_nextoff dhp')); [done|].
      intros [[idp' al'] sz'] (i' & Hi' & _ & _ & Hlo' & _). exists i1, i'. simpl. rewrite Hidp'.
      split_and!; try done. lia.
    + intros b Hb'. rewrite Hf by set_solver. apply Hf1. set_solver.
Qed.

(** Storage handed out to the variables of a table is aligned as asked and
    the variables do not overlap: after any series of requests for different
    variables with alignments that are powers of two, each lies behind the
    ones before it, and all lie within [dt_idhash_datasize]. *)
Theorem dt_ident_set_storage_correct h dhp m reqs :
  Forall (req_ok h) reqs → NoDup (fst ∘ fst <$> reqs) →
  0 <= dh_nextoff dhp → dh_nextoff dhp + worst reqs < 2 ^ 31 →
  ∃ h' dhp', set_storages h dhp m reqs = Some (h', dhp', m) ∧
    Forall (granted h' (dh_nextoff dhp) (dt_idhash_datasize dhp')) reqs ∧
    ForallOrdPairs (apart h') reqs.
Proof.
  intros Hok Hnd H0 Hb.
  destruct (set_storages_spec h dhp m reqs Hok Hnd H0 Hb) as (h' & dhp' & ? & _ & ? & ? & _). eauto 6.
Qed.

Definition heap2 : idheap :=
  <[1 := ident_of "x" 1 attr0]> (<[2 := ident_of "y" 1 attr0]> ∅).

Lemma dt_ident_set_storage_correct_witness :
  let reqs := [(1, 1, 3); (2, 8, 8)] in
  ∃ h' dhp', set_storages heap2 (idents0 None) 0 reqs = Some (h', dhp', 0) ∧
    Forall (granted h' 0 (dt_idhash_datasize dhp')) reqs ∧ ForallOrdPairs (apart h') reqs.
Proof.
  apply (dt_ident_set_storage_correct heap2 (idents0 None) 0 [(1, 1, 3); (2, 8, 8)]).
  - constructor; [|constructor; [|constructor]].
    + split; [by exists 0|]. split; [lia|]. eexists. split; [reflexivity|done].
    + split; [by exists 3|]. split; [lia|]. eexists. split; [reflexivity|done].
  - simpl. repeat (apply NoDup_cons; split; [set_solver|]). constructor.
  - done.
  - done.
Defined.

(** C32: The first search of a table fills it from its template, once: unless
    memory runs out, which jumps out of the compiler with EDT_NOMEM, the table
    then holds an identifier for each template entry, in front of what it held,
    the template is spent, and the search returns the latest identifier with
    the name. *)
Theorem dt_idhash_lookup_correct al yylineno h php dhp L P T n :
  (∀ h a, al h = Some a → a ≠ 0 ∧ h !! a = None) →
  tables h php dhp L P → dh_tmpl dhp = Some T → Forall (λ t, is_Some (di_name t)) T →
  Z.of_nat (length L + length T) < 2 ^ 64 →
  ∃ r, dt_idhash_lookup al yylineno h php dhp n = Some r ∧
    match r with
    | Longjmp c => c = EDT_NOMEM ∧ ∃ h0, al h0 = None
    | Done (a, h', php', dhp') =>
        dh_tmpl dhp' = None ∧
        ∃ A P', tables h' php' dhp' (rev A ++ L) P' ∧ Forall2 (from_template h') A T ∧
          a = default 0 (head (named h' n (rev A ++ L)))
    end.
Proof.
  intros Hal Htb HT Hnames Hb. unfold dt_idhash_lookup, dt_idhash_populate. rewrite HT.
  set (dhp0 := mk_idhash _ _ _ _ _ _ _ _ _ _).
  assert (tables h php dhp0 L P) as Htb0 by (by destruct Htb as [[] ? ? ?]; repeat split).
  destruct (populate_loop_spec al yylineno Hal h php dhp0 L P T Htb0 Hnames Hb) as (r & -> & Hr).
  cbn [mbind option_bind]. destruct r as [[[h' php'] dhp']|c]; [|by eexists].
  destruct Hr as (A & P' & Htb' & Hsame & HA & _ & _).
  rewrite (lookup_filled_spec _ _ _ n (tb_wf _ _ _ _ _ Htb')). cbn [mbind option_bind].
  eexists. split; [done|]. split; [by destruct Hsame as (_ & _ & -> & _)|]. by exists A, P'.
Qed.

Definition template1 : list dt_ident := [ident_of "arg0" 1 attr0; ident_of "arg1" 1 attr0].

Lemma dt_idhash_lookup_correct_witness :
  ∃ r, dt_idhash_lookup al_max 10 ∅ None (idents0 (Some template1)) (str "arg1") = Some r ∧
    match r with
    | Longjmp c => c = EDT_NOMEM ∧ ∃ h0, al_max h0 = None
    | Done (a, h', php', dhp') =>
        dh_tmpl dhp' = None ∧
        ∃ A P', tables h' php' dhp' (rev A ++ []) P' ∧ Forall2 (from_template h') A template1 ∧
          a = default 0 (head (named h' (str "arg1") (rev A ++ [])))
    end.
Proof.
  apply (dt_idhash_lookup_correct al_max 10 ∅ None _ [] []); [apply al_max_fresh|apply table0_ok|done| |done].
  repeat (constructor; [by eexists|]). constructor.
Defined.

Lemma idhash_destroy_loop h L a :
  foldl (λ h a, delete a h) h L !! a = if decide (a ∈ L) then None else (h : idheap) !! a.
Proof.
  revert h. induction L as [|b L IH]; intros h; [by rewrite decide_False by set_solver|]. simpl. rewrite IH.
  destruct (decide (a ∈ L)); [by rewrite decide_True by set_solver|].
  destruct (decide (a = b)) as [->|].
  - by rewrite decide_True, lookup_delete_eq by set_solver.
  - by rewrite decide_False, lookup_delete_ne by set_solver.
Qed.

(** Deleting an identifier of a table removes it and nothing else, freeing it
    unless it is marked as an orphan; searches then find the identifier that it
    hid.  Destroying the table frees its identifiers and no others. *)
Theorem dt_idhash_delete_correct h dhp L key i :
  wf h dhp L → Z.of_nat (length L) < 2 ^ 64 → key ∈ L → h !! key = Some i →
  (∃ h' dhp', dt_idhash_delete h dhp key = Some (h', dhp') ∧ wf h' dhp' (filter (λ a, a ≠ key) L) ∧
    dt_idhash_size dhp' = dt_idhash_size dhp - 1 ∧
    h' = (if Z.land (di_flags i) DT_IDFLG_ORPHAN =? 0 then delete key h else h) ∧
    ∀ n, lookup_filled h' dhp' n = Some (default 0 (head (filter (λ a, a ≠ key) (named h n L))))) ∧
  (∀ a, dt_idhash_destroy h (Some dhp) !! a = if decide (a ∈ L) then None else h !! a).
Proof.
  intros Hwf Hb Hkey Hi. split.
  - destruct (idhash_delete_spec h dhp L key Hwf Hkey Hb) as (i' & h' & dhp' & Hi' & ? & Hwf' & Hh' & Hf & Hn).
    rewrite Hi in Hi'. injection Hi' as <-. exists h', dhp'. split_and!; try done.
    intros n. rewrite (lookup_filled_spec _ _ _ n Hwf'). rewrite <- named_remove.
    rewrite (named_frame h); [done|]. intros a [Ha _]%list_elem_of_filter. unfold name_of. by rewrite Hf.
  - intros a. unfold dt_idhash_destroy. rewrite take_ge by (rewrite (wf_hashsz _ _ _ Hwf); lia).
    rewrite idhash_destroy_loop. by repeat case_decide; rewrite (wf_perm _ _ _ Hwf) in *.
Qed.

Lemma dt_idhash_delete_correct_witness :
  (∃ h' dhp', dt_idhash_delete pragmas1.1 pragmas1.2 51 = Some (h', dhp') ∧
    wf h' dhp' (filter (λ a, a ≠ 51) [51]) ∧
    dt_idhash_size dhp' = dt_idhash_size pragmas1.2 - 1 ∧ h' = delete 51 pragmas1.1 ∧
    ∀ n, lookup_filled h' dhp' n =
      Some (default 0 (head (filter (λ a, a ≠ 51) (named pragmas1.1 n [51]))))) ∧
  (∀ a, dt_idhash_destroy pragmas1.1 (Some pragmas1.2) !! a =
    if decide (a ∈ [51]) then None else pragmas1.1 !! a).
Proof.
  apply (dt_idhash_delete_correct pragmas1.1 pragmas1.2 [51] 51
    (dt_ident_create (Some (str "x")) DT_IDENT_PRAGAT 0 0 (mk_attr 1 1 1) 0 1 0 1 1));
    [apply pragmas1_ok|done|set_solver|vm_compute; reflexivity].
Defined.

End Ident.
