(* ===== verification/DtMap.v ===== *)
(** * Enabled probe ids, data records and aggregation ids: libdtrace/dt_map.c

    The handle's arrays are lists, [None] for NULL; an entry 0 of an array of
    pointers is NULL.  Data descriptions live in a heap, with their reference
    counts.  The boolean arguments say whether the allocations of a call
    succeed.  Indexing outside an array is [None]. *)
From S2P Require Import Prelude.

Module DtMap.

Definition EDT_NOMEM : Z := 1008.
Definition DT_AGG_NUM_COPIES : Z := 1.

Record dtrace_recdesc := mk_rec {
  dtrd_action : Z;
  dtrd_size : Z;
  dtrd_offset : Z;
  dtrd_alignment : Z;
  dtrd_format : Z;
  dtrd_arg : Z
}.

Definition rec0 : dtrace_recdesc := mk_rec 0 0 0 0 0 0.

Record dtrace_datadesc := mk_ddesc {
  dtdd_nrecs : Z;
  dtdd_recs : option (list dtrace_recdesc);
  dtdd_refcnt : Z
}.

Record dtrace_aggdesc := mk_agg {
  dtagd_id : Z;
  dtagd_name : list Z;
  dtagd_sig : Z;
  dtagd_varid : Z;
  dtagd_size : Z;
  dtagd_nrecs : Z;
  dtagd_recs : list dtrace_recdesc
}.

(** The part of the handle these functions use. *)
Record dtrace_hdl := mk_hdl {
  dt_errno : Z;
  dt_nextepid : Z;
  dt_maxprobe : Z;
  dt_ddesc : option (list Z);
  dt_pdesc : option (list Z);
  dt_probes : list Z;
  dt_maxagg : Z;
  dt_adesc : option (list (option dtrace_aggdesc))
}.

Abbreviation ddheap := (gmap Z dtrace_datadesc).

(** ** Data descriptions *)

Definition dt_datadesc_hold (h : ddheap) (ddp : Z) : option (ddheap * Z) :=
  d ← h !! ddp;
  Some (<[ddp := mk_ddesc (dtdd_nrecs d) (dtdd_recs d) (s32 (dtdd_refcnt d + 1))]> h, ddp).

(** The formats of the records are destroyed with the description. *)
Definition dt_datadesc_release (h : ddheap) (ddp : Z) : option ddheap :=
  d ← h !! ddp;
  let n := s32 (dtdd_refcnt d - 1) in
  if 0 <? n then Some (<[ddp := mk_ddesc (dtdd_nrecs d) (dtdd_recs d) n]> h)
  else Some (delete ddp h).

(** [a] is the address of the new description, [None] without memory. *)
Definition dt_datadesc_create (a : option Z) (h : ddheap) (errno : Z) : option (Z * ddheap * Z) :=
  match a with
  | None => Some (0, h, EDT_NOMEM)
  | Some a =>
      '(h, p) ← dt_datadesc_hold (<[a := mk_ddesc 0 None 0]> h) a;
      Some (p, h, errno)
  end.

(** [oddp] is the description of the parser's control block. *)
Definition dt_datadesc_finalize (m : bool) (oddp ddp : dtrace_datadesc) (pcb_maxrecs errno : Z) :
    option (Z * dtrace_datadesc * Z * Z) :=
  if dtdd_nrecs oddp <? pcb_maxrecs then
    if negb m then Some (-1, ddp, pcb_maxrecs, EDT_NOMEM)
    else
      recs ← dtdd_recs ddp;
      if decide (Z.to_nat (dtdd_nrecs oddp) <= length recs)%nat then
        Some (0, mk_ddesc (dtdd_nrecs oddp) (Some (take (Z.to_nat (dtdd_nrecs oddp)) recs)) (dtdd_refcnt ddp),
              dtdd_nrecs oddp, errno)
      else None
  else Some (0, mk_ddesc (dtdd_nrecs oddp) (dtdd_recs ddp) (dtdd_refcnt ddp), pcb_maxrecs, errno).

(** ** Enabled probe ids *)

(** [memcpy] of the first [max] entries of the old array to a larger new one. *)
Definition grow {A} (null : A) (old : option (list A)) (max nmax : Z) : option (list A) :=
  match old with
  | None => Some (replicate (Z.to_nat nmax) null)
  | Some l =>
      if decide (Z.to_nat max <= length l ∧ Z.to_nat max <= Z.to_nat nmax)%nat
      then Some (take (Z.to_nat max) l ++ replicate (Z.to_nat nmax - Z.to_nat max) null)
      else None
  end.

(** [l[i] = x] *)
Definition assign {A} (l : list A) (i : Z) (x : A) : option (list A) :=
  if decide (Z.to_nat i < length l)%nat then Some (<[Z.to_nat i := x]> l) else None.

(** The end of [dt_epid_add], once there is room. *)
Definition epid_bind (h : ddheap) (dtp : dtrace_hdl) (epid ddp prid : Z) : option (Z * ddheap * dtrace_hdl) :=
  ddesc ← dt_ddesc dtp;
  x ← ddesc !! Z.to_nat epid;
  if negb (x =? 0) then Some (epid, h, dtp)
  else
    '(h, p) ← dt_datadesc_hold h ddp;
    ddesc ← assign ddesc epid p;
    pdesc ← dt_pdesc dtp;
    desc ← dt_probes dtp !! Z.to_nat prid;
    pdesc ← assign pdesc epid desc;
    Some (epid, h, mk_hdl (dt_errno dtp) (dt_nextepid dtp) (dt_maxprobe dtp) (Some ddesc)
                     (Some pdesc) (dt_probes dtp) (dt_maxagg dtp) (dt_adesc dtp)).

Definition dt_epid_add (m : bool) (h : ddheap) (dtp : dtrace_hdl) (ddp prid : Z) :
    option (Z * ddheap * dtrace_hdl) :=
  let max := u32 (dt_maxprobe dtp) in
  let epid := dt_nextepid dtp in
  let dtp := mk_hdl (dt_errno dtp) (u32 (epid + 1)) (dt_maxprobe dtp) (dt_ddesc dtp) (dt_pdesc dtp)
               (dt_probes dtp) (dt_maxagg dtp) (dt_adesc dtp) in
  let full := (max <=? epid) || bool_decide (dt_ddesc dtp = None) in
  if full && negb m then
    Some (u32 (-1), h, mk_hdl EDT_NOMEM (dt_nextepid dtp) (dt_maxprobe dtp) (dt_ddesc dtp)
                         (dt_pdesc dtp) (dt_probes dtp) (dt_maxagg dtp) (dt_adesc dtp))
  else
    dtp ← (if full then
             let nmax := if max =? 0 then 2 else u32 (Z.shiftl max 1) in
             nddesc ← grow 0 (dt_ddesc dtp) max nmax;
             npdesc ← (match dt_ddesc dtp with
                       | None => grow 0 None max nmax
                       | Some _ => match dt_pdesc dtp with
                                   | None => None
                                   | Some l => grow 0 (Some l) max nmax
                                   end
                       end);
             Some (mk_hdl (dt_errno dtp) (dt_nextepid dtp) nmax (Some nddesc) (Some npdesc)
                     (dt_probes dtp) (dt_maxagg dtp) (dt_adesc dtp))
           else Some dtp);
    epid_bind h dtp epid ddp prid.

(** The inner [None] is the result -1. *)
Definition dt_epid_lookup (dtp : dtrace_hdl) (epid : Z) : option (option (Z * Z)) :=
  if dt_maxprobe dtp <=? epid then Some None
  else
    ddesc ← dt_ddesc dtp;
    d ← ddesc !! Z.to_nat epid;
    if d =? 0 then Some None
    else
      pdesc ← dt_pdesc dtp;
      p ← pdesc !! Z.to_nat epid;
      if p =? 0 then Some None else Some (Some (d, p)).

Fixpoint epid_destroy_loop (h : ddheap) (ddesc pdesc : list Z) : option ddheap :=
  match ddesc, pdesc with
  | [], _ => Some h
  | d :: ddesc, p :: pdesc =>
      if d =? 0 then if p =? 0 then epid_destroy_loop h ddesc pdesc else None
      else
        h ← dt_datadesc_release h d;
        if p =? 0 then None else epid_destroy_loop h ddesc pdesc
  | _, [] => None
  end.

Definition dt_epid_destroy (h : ddheap) (dtp : dtrace_hdl) : option (ddheap * dtrace_hdl) :=
  match dt_pdesc dtp, dt_ddesc dtp with
  | Some pdesc, Some ddesc =>
      if dt_maxprobe dtp <=? 0 then None
      else
        h ← epid_destroy_loop h (take (Z.to_nat (dt_maxprobe dtp)) ddesc) pdesc;
        Some (h, mk_hdl (dt_errno dtp) 0 0 None None (dt_probes dtp) (dt_maxagg dtp) (dt_adesc dtp))
  | None, None => if dt_maxprobe dtp =? 0 then Some (h, dtp) else None
  | _, _ => None
  end.

(** ** Data records *)

(** The state of the compilation: the description's records and the end of the
    data laid out so far.  The result is the offset and the gap, if any, that
    the callback [gapf] is asked to fill; [None] inside is the [longjmp]. *)
Record recs_state := mk_recs { rs_ddesc : dtrace_datadesc; pcb_maxrecs : Z; pcb_bufoff : Z }.

Definition dt_rec_add (m : bool) (st : recs_state) (kind size alignment pfp arg : Z) :
    option (option (Z * option Z * recs_state)) :=
  let ddp := rs_ddesc st in
  if negb ((0 <? alignment) && (alignment <=? 8) && (Z.land alignment (alignment - 1) =? 0)) then None
  else
    let cnt := s32 (dtdd_nrecs ddp + 1) in
    let max := pcb_maxrecs st in
    let full := max <=? cnt in
    if full && negb m then Some None
    else
      '(recs, max) ← (if full then
                        let nmax := if max =? 0 then cnt else s32 (Z.shiftl max 1) in
                        nrecs ← grow rec0 (dtdd_recs ddp) max nmax;
                        Some (nrecs, nmax)
                      else recs ← dtdd_recs ddp; Some (recs, max));
      let off := Z.land (u32 (pcb_bufoff st + (alignment - 1))) (u32 (Z.lnot (alignment - 1))) in
      recs ← assign recs (dtdd_nrecs ddp) (mk_rec kind size off alignment pfp arg);
      let gap := u32 (off - pcb_bufoff st) in
      Some (Some (off, if 0 <? gap then Some gap else None,
                  mk_recs (mk_ddesc (s32 (dtdd_nrecs ddp + 1)) (Some recs) (dtdd_refcnt ddp)) max
                    (u32 (off + size)))).

(** ** Aggregation ids *)

(** The identifier of an aggregation, and of its function: what is read of them. *)
Record agg_ident := mk_aid { aid_id : Z; aid_name : list Z; aid_auxinfo : Z; aid_size : Z; fid_id : Z }.

(** The loop that makes room for [id]: [m] says which of the allocations
    succeed; the result [false] is the failure of one. *)
Fixpoint aggid_grow (fuel : nat) (m : nat → bool) (dtp : dtrace_hdl) (id : Z) : option (bool * dtrace_hdl) :=
  let max := u32 (dt_maxagg dtp) in
  if (max <=? id) || bool_decide (dt_adesc dtp = None) then
    match fuel with
    | O => None
    | S fuel =>
        let nmax := if max =? 0 then 1 else u32 (Z.shiftl max 1) in
        if negb (m fuel) then
          Some (false, mk_hdl EDT_NOMEM (dt_nextepid dtp) (dt_maxprobe dtp) (dt_ddesc dtp) (dt_pdesc dtp)
                         (dt_probes dtp) (dt_maxagg dtp) (dt_adesc dtp))
        else
          nadesc ← grow None (dt_adesc dtp) max nmax;
          aggid_grow fuel m (mk_hdl (dt_errno dtp) (dt_nextepid dtp) (dt_maxprobe dtp) (dt_ddesc dtp)
            (dt_pdesc dtp) (dt_probes dtp) nmax (Some nadesc)) id
    end
  else Some (true, dtp).

(** The records of an aggregation: [n] of them from offset [off] on. *)
Fixpoint agg_recs (n : nat) (fid off : Z) : list dtrace_recdesc :=
  match n with
  | O => []
  | S n => mk_rec fid 8 off 8 0 1 :: agg_recs n fid (u32 (off + 8))
  end.

Definition set_errno (dtp : dtrace_hdl) (e : Z) : dtrace_hdl :=
  mk_hdl e (dt_nextepid dtp) (dt_maxprobe dtp) (dt_ddesc dtp) (dt_pdesc dtp) (dt_probes dtp)
    (dt_maxagg dtp) (dt_adesc dtp).

Definition set_adesc (dtp : dtrace_hdl) (max : Z) (a : option (list (option dtrace_aggdesc))) : dtrace_hdl :=
  mk_hdl (dt_errno dtp) (dt_nextepid dtp) (dt_maxprobe dtp) (dt_ddesc dtp) (dt_pdesc dtp) (dt_probes dtp)
    max a.

(** [m1] and [m2]: the description and its records can be allocated. *)
Definition dt_aggid_add (m : nat → bool) (m1 m2 : bool) (dtp : dtrace_hdl) (aid : agg_ident) :
    option (Z * dtrace_hdl) :=
  let id := aid_id aid in
  '(ok, dtp) ← aggid_grow 33 m dtp id;
  if negb (ok : bool) then Some (-1, dtp)
  else
    adesc ← dt_adesc dtp;
    x ← adesc !! Z.to_nat id;
    match x with
    | Some _ => Some (0, dtp)
    | None =>
        if negb m1 then Some (-1, set_errno dtp EDT_NOMEM)
        else
          let size := u32 (u64 (aid_size aid - 8) / DT_AGG_NUM_COPIES) in
          let nrecs := s32 (size / 8) in
          if negb m2 then Some (-1, set_errno dtp EDT_NOMEM)
          else
            adesc ← assign adesc id
              (Some (mk_agg id (aid_name aid) (aid_auxinfo aid) id size nrecs
                       (agg_recs (Z.to_nat nrecs) (fid_id aid) 0)));
            Some (0, set_adesc dtp (dt_maxagg dtp) (Some adesc))
    end.

Definition dt_aggid_lookup (dtp : dtrace_hdl) (aggid : Z) : option (option dtrace_aggdesc) :=
  if dt_maxagg dtp <=? aggid then Some None
  else
    adesc ← dt_adesc dtp;
    adesc !! Z.to_nat aggid.

Definition dt_aggid_destroy (dtp : dtrace_hdl) : option dtrace_hdl :=
  match dt_adesc dtp with
  | Some l =>
      if dt_maxagg dtp =? 0 then None
      else if decide (Z.to_nat (dt_maxagg dtp) <= length l)%nat then Some (set_adesc dtp 0 None) else None
  | None => if dt_maxagg dtp =? 0 then Some dtp else None
  end.

(** ** The enabled probe ids as a list *)

(** The ids 1, 2, ... are bound to the pairs [E] of a data description and a
    probe description. *)
Record epids (dtp : dtrace_hdl) (E : list (Z * Z)) : Prop := {
  ep_next : dt_nextepid dtp = 1 + Z.of_nat (length E);
  ep_nonnull : Forall (λ e, e.1 ≠ 0 ∧ e.2 ≠ 0) E;
  ep_arrays :
    (dt_ddesc dtp = None ∧ dt_pdesc dtp = None ∧ dt_maxprobe dtp = 0 ∧ E = []) ∨
    (2 <= dt_maxprobe dtp < 2 ^ 32 ∧ dt_nextepid dtp <= dt_maxprobe dtp ∧ ∃ z,
      dt_ddesc dtp = Some (0 :: E.*1 ++ replicate z 0) ∧
      dt_pdesc dtp = Some (0 :: E.*2 ++ replicate z 0) ∧
      dt_maxprobe dtp = 1 + Z.of_nat (length E + z))
}.

Lemma grow_some {A} (null : A) l max nmax :
  Z.of_nat (length l) = max → max <= nmax →
  grow null (Some l) max nmax = Some (l ++ replicate (Z.to_nat (nmax - max)) null).
Proof.
  intros Hl Hm. unfold grow. rewrite decide_True by lia. rewrite take_ge by lia. do 3 f_equal. lia.
Qed.

Lemma assign_app {A} (l1 l2 : list A) i x y :
  Z.to_nat i = length l1 → assign (l1 ++ x :: l2) i y = Some (l1 ++ y :: l2).
Proof.
  intros Hi. unfold assign. rewrite decide_True by (rewrite length_app; simpl; lia).
  rewrite Hi. f_equal. rewrite insert_app_r_alt, Nat.sub_diag by lia. done.
Qed.

Lemma epid_bind_spec h dtp E z ddp prid d desc :
  Forall (λ e, e.1 ≠ 0 ∧ e.2 ≠ 0) E →
  dt_ddesc dtp = Some (0 :: E.*1 ++ replicate (S z) 0) →
  dt_pdesc dtp = Some (0 :: E.*2 ++ replicate (S z) 0) →
  dt_nextepid dtp = 2 + Z.of_nat (length E) →
  dt_maxprobe dtp = 2 + Z.of_nat (length E + z) → dt_maxprobe dtp < 2 ^ 32 →
  h !! ddp = Some d → ddp ≠ 0 → desc ≠ 0 → dt_probes dtp !! Z.to_nat prid = Some desc →
  ∃ h' dtp', epid_bind h dtp (1 + Z.of_nat (length E)) ddp prid = Some (1 + Z.of_nat (length E), h', dtp') ∧
    epids dtp' (E ++ [(ddp, desc)]) ∧
    h' = <[ddp := mk_ddesc (dtdd_nrecs d) (dtdd_recs d) (s32 (dtdd_refcnt d + 1))]> h ∧
    dt_errno dtp' = dt_errno dtp ∧ dt_probes dtp' = dt_probes dtp.
Proof.
  intros HE Hdd Hpd Hnext Hmax Hmax32 Hd Hddp Hdesc Hprobe. unfold epid_bind.
  change (replicate (S z) 0) with (0 :: replicate z 0) in *. rewrite Hdd. cbn [mbind option_bind].
  rewrite app_comm_cons, list_lookup_middle by (simpl; rewrite length_fmap; lia).
  cbn [mbind option_bind Z.eqb negb]. unfold dt_datadesc_hold. rewrite Hd. cbn [mbind option_bind].
  rewrite assign_app by (simpl; rewrite length_fmap; lia). cbn [mbind option_bind].
  rewrite Hpd, Hprobe. cbn [mbind option_bind]. rewrite app_comm_cons.
  rewrite assign_app by (simpl; rewrite length_fmap; lia). cbn [mbind option_bind].
  do 2 eexists. split; [done|]. split; [|done]. split; simpl.
  - rewrite length_app. simpl. lia.
  - apply Forall_app. split; [done|]. by apply Forall_singleton.
  - right. split; [lia|]. split; [lia|]. exists z. rewrite !fmap_app. simpl.
    rewrite <- !app_assoc, length_app. simpl. split_and!; [done|done|lia].
Qed.

Lemma epid_add_spec m h dtp E ddp prid d desc :
  epids dtp E → h !! ddp = Some d → ddp ≠ 0 → desc ≠ 0 → dt_probes dtp !! Z.to_nat prid = Some desc →
  Z.of_nat (length E) < 2 ^ 30 →
  ∃ r h' dtp', dt_epid_add m h dtp ddp prid = Some (r, h', dtp') ∧
    ((m = false ∧ r = u32 (-1) ∧ h' = h ∧ dt_errno dtp' = EDT_NOMEM) ∨
     (r = dt_nextepid dtp ∧ epids dtp' (E ++ [(ddp, desc)]) ∧ dt_probes dtp' = dt_probes dtp ∧
      h' = <[ddp := mk_ddesc (dtdd_nrecs d) (dtdd_recs d) (s32 (dtdd_refcnt d + 1))]> h)).
Proof.
  intros [Hnext Hnn Harr] Hd Hddp Hdesc Hprobe Hb. unfold dt_epid_add.
  cbn [dt_errno dt_nextepid dt_maxprobe dt_ddesc dt_pdesc dt_probes dt_maxagg dt_adesc].
  rewrite Hnext. set (len := Z.of_nat (length E)) in *. assert (0 <= len) by lia.
  rewrite (wrap_id 32 (1 + len + 1)) by (unfold urange; lia).
  destruct Harr as [(Hdd & Hpd & Hmax & ->)|(Hmax & Hle & z & Hdd & Hpd & Hz)].
  - rewrite Hmax, Hdd, Hpd. change (u32 0) with 0. rewrite bool_decide_true by done. rewrite orb_true_r.
    destruct m; [|do 3 eexists; split; [done|]; by left]. cbn [andb negb Z.eqb grow mbind option_bind].
    edestruct (epid_bind_spec h) with (E := @nil (Z * Z)) (z := 0%nat) as (h' & dtp' & E' & ? & ? & ? & ?);
      [..|do 3 eexists; split; [exact E'|]; by right]; done.
  - rewrite (wrap_id 32 (dt_maxprobe dtp)) by (unfold urange; lia).
    rewrite Hdd, Hpd, bool_decide_false, orb_false_r by done.
    destruct (Z.leb_spec (dt_maxprobe dtp) (1 + len)) as [Hfull|Hroom].
    + destruct m; [|do 3 eexists; split; [done|]; by left]. cbn [andb negb].
      assert (z = 0%nat) as -> by lia. replace (dt_maxprobe dtp =? 0) with false by lia.
      assert (u32 (Z.shiftl (dt_maxprobe dtp) 1) = 2 * dt_maxprobe dtp) as ->.
      { rewrite Z.shiftl_mul_pow2, wrap_id by (unfold urange; lia). lia. }
      rewrite !grow_some by (simpl; rewrite ?length_app, ?length_fmap; simpl; lia). cbn [mbind option_bind].
      set (z := (Z.to_nat (2 * dt_maxprobe dtp - dt_maxprobe dtp) - 1)%nat).
      replace (Z.to_nat (2 * dt_maxprobe dtp - dt_maxprobe dtp)) with (S z) by lia.
      rewrite <- !app_comm_cons, !app_nil_r.
      edestruct (epid_bind_spec h) with (E := E) (z := z) as (h' & dtp' & E' & ? & ? & ? & ?);
        [..|do 3 eexists; split; [exact E'|]; by right]; done || (simpl; lia).
    + cbn [andb mbind option_bind]. destruct z as [|z]; [lia|].
      edestruct (epid_bind_spec h) with (E := E) (z := z) as (h' & dtp' & E' & ? & ? & ? & ?);
        [..|do 3 eexists; split; [exact E'|]; by right]; done || (simpl; lia).
Qed.

Lemma epid_lookup_spec dtp E epid :
  epids dtp E → 0 < epid → dt_epid_lookup dtp epid = Some (E !! Z.to_nat (epid - 1)).
Proof.
  intros [Hnext Hnn Harr] Hpos. unfold dt_epid_lookup.
  destruct Harr as [(Hdd & Hpd & Hmax & ->)|(Hmax & Hle & z & Hdd & Hpd & Hz)].
  { rewrite Hmax. by replace (0 <=? epid) with true by lia. }
  destruct (Z.leb_spec (dt_maxprobe dtp) epid).
  { by rewrite lookup_ge_None_2 by lia. }
  rewrite Hdd, Hpd. cbn [mbind option_bind].
  set (j := Z.to_nat (epid - 1)). replace (Z.to_nat epid) with (S j) by lia.
  change ((0 :: E.*1 ++ replicate z 0) !! S j) with ((E.*1 ++ replicate z 0) !! j).
  change ((0 :: E.*2 ++ replicate z 0) !! S j) with ((E.*2 ++ replicate z 0) !! j).
  destruct (E !! j) as [[d p]|] eqn:Hj.
  - pose proof (lookup_lt_Some _ _ _ Hj). rewrite !lookup_app_l by (rewrite length_fmap; lia).
    rewrite !list_lookup_fmap, Hj. simpl. rewrite Forall_lookup in Hnn. destruct (Hnn _ _ Hj) as [H1 H2]. simpl in *.
    replace (d =? 0) with false by lia. by replace (p =? 0) with false by lia.
  - apply lookup_ge_None in Hj. rewrite (lookup_app_r E.*1) by (rewrite length_fmap; lia).
    rewrite length_fmap, lookup_replicate_2 by (unfold j in *; lia). done.
Qed.

(** ** Release *)

Definition count (d : Z) (l : list Z) : Z := Z.of_nat (length (filter (λ x, x = d) l)).

(** A description that [n] references to are dropped. *)
Definition drop_refs (x : dtrace_datadesc) (n : Z) : option dtrace_datadesc :=
  if dtdd_refcnt x =? n then None else Some (mk_ddesc (dtdd_nrecs x) (dtdd_recs x) (dtdd_refcnt x - n)).

Lemma count_cons d x l : count d (x :: l) = (if x =? d then 1 else 0) + count d l.
Proof.
  unfold count. destruct (Z.eqb_spec x d); [rewrite filter_cons_True by done|rewrite filter_cons_False by done];
    simpl; lia.
Qed.

Lemma count_nonneg d l : 0 <= count d l.
Proof. unfold count. lia. Qed.

Lemma epid_destroy_spec h E z :
  Forall (λ e, e.1 ≠ 0 ∧ e.2 ≠ 0) E →
  (∀ d, d ∈ E.*1 → ∃ x, h !! d = Some x ∧ count d E.*1 <= dtdd_refcnt x < 2 ^ 31) →
  ∃ h', epid_destroy_loop h (E.*1 ++ replicate z 0) (E.*2 ++ replicate z 0) = Some h' ∧
    ∀ d, h' !! d = if decide (d ∈ E.*1) then h !! d ≫= λ x, drop_refs x (count d E.*1) else h !! d.
Proof.
  intros Hnn. revert h. induction Hnn as [|[d p] E [Hd Hp] Hnn IH]; intros h Href.
  { exists h. split; [by induction z|]. intros d. by rewrite decide_False by set_solver. }
  simpl in Hd, Hp. rewrite !fmap_cons. cbn [app fst snd epid_destroy_loop].
  replace (d =? 0) with false by lia. destruct (Href d) as (x & Hx & Hcnt); [left|].
  rewrite fmap_cons in *. simpl in Hcnt, Href. rewrite count_cons, Z.eqb_refl in Hcnt.
  pose proof (count_nonneg d E.*1) as Hc0.
  unfold dt_datadesc_release. rewrite Hx. cbn [mbind option_bind].
  assert (s32 (dtdd_refcnt x - 1) = dtdd_refcnt x - 1) as ->.
  { apply swrap_id; [lia|]. unfold srange. change (32 - 1) with 31. lia. }
  replace (p =? 0) with false by lia.
  assert (∃ h1, (if 0 <? dtdd_refcnt x - 1
      then Some (<[d := mk_ddesc (dtdd_nrecs x) (dtdd_recs x) (dtdd_refcnt x - 1)]> h)
      else Some (delete d h)) = Some h1 ∧
    h1 !! d = drop_refs x 1 ∧ (∀ b, b ≠ d → h1 !! b = h !! b)) as (h1 & -> & Hd1 & Hb1).
  { unfold drop_refs. destruct (Z.ltb_spec 0 (dtdd_refcnt x - 1)).
    - replace (dtdd_refcnt x =? 1) with false by lia. eexists. split; [done|].
      split; [apply lookup_insert_eq|]. intros b Hb. by apply lookup_insert_ne.
    - replace (dtdd_refcnt x =? 1) with true by lia. eexists. split; [done|].
      split; [apply lookup_delete_eq|]. intros b Hb. by apply lookup_delete_ne. }
  cbn [mbind option_bind]. destruct (IH h1) as (h' & -> & Hh').
  - intros b Hb. destruct (Href b) as (y & Hy & Hc); [by right|]. rewrite count_cons in Hc.
    destruct (Z.eqb_spec d b) as [<-|]; [|rewrite Hb1 by done; exists y; split; [done|lia]].
    rewrite Hd1. unfold drop_refs. rewrite Hx in Hy. injection Hy as <-.
    assert (0 < count d E.*1).
    { unfold count. apply list_elem_of_split in Hb as (l1 & l2 & ->).
      rewrite filter_app, filter_cons_True, length_app by done. simpl. lia. }
    replace (dtdd_refcnt x =? 1) with false by lia. eexists. split; [done|]. simpl. lia.
  - exists h'. split; [done|]. intros b. rewrite Hh', count_cons.
    destruct (Z.eqb_spec d b) as [<-|Hne].
    + rewrite (decide_True (P := d ∈ d :: _)) by left. rewrite Hx, Hd1. simpl. unfold drop_refs.
      destruct (decide (d ∈ E.*1)) as [Hin|Hin].
      * assert (0 < count d E.*1).
        { unfold count. apply list_elem_of_split in Hin as (l1 & l2 & ->).
          rewrite filter_app, filter_cons_True, length_app by done. simpl. lia. }
        replace (dtdd_refcnt x =? 1) with false by lia. simpl.
        destruct (Z.eqb_spec (dtdd_refcnt x - 1) (count d E.*1)), (Z.eqb_spec (dtdd_refcnt x) (1 + count d E.*1)); try lia; [done|].
        do 2 f_equal. lia.
      * assert (count d E.*1 = 0) as ->.
        { unfold count. rewrite list_filter_none; [done|]. by intros y Hy ->. }
        done.
    + rewrite Hb1 by done. destruct (decide (b ∈ E.*1)).
      * by rewrite decide_True by set_solver.
      * by rewrite decide_False by set_solver.
Qed.

(** ** Properties of enabled probe ids *)

(** C20: Adding a probe's data description returns the next id, and from then on
    looking that id up finds the pair while every other id finds what it found
    before; the description has one more reference.  When the arrays cannot be
    grown the call returns -1 with EDT_NOMEM and takes no reference. *)
Theorem dt_epid_add_correct m h dtp E ddp prid d desc :
  epids dtp E → h !! ddp = Some d → ddp ≠ 0 → desc ≠ 0 → dt_probes dtp !! Z.to_nat prid = Some desc →
  Z.of_nat (length E) < 2 ^ 30 →
  ∃ r h' dtp', dt_epid_add m h dtp ddp prid = Some (r, h', dtp') ∧
    ((m = false ∧ r = u32 (-1) ∧ h' = h ∧ dt_errno dtp' = EDT_NOMEM) ∨
     (r = dt_nextepid dtp ∧ epids dtp' (E ++ [(ddp, desc)]) ∧
      h' = <[ddp := mk_ddesc (dtdd_nrecs d) (dtdd_recs d) (s32 (dtdd_refcnt d + 1))]> h ∧
      ∀ epid, 0 < epid → ∃ x, dt_epid_lookup dtp epid = Some x ∧
        dt_epid_lookup dtp' epid = Some (if epid =? r then Some (ddp, desc) else x))).
Proof.
  intros HE Hd Hddp Hdesc Hprobe Hb.
  destruct (epid_add_spec m h dtp E ddp prid d desc HE Hd Hddp Hdesc Hprobe Hb)
    as (r & h' & dtp' & Hadd & Hcase).
  exists r, h', dtp'. split; [done|]. destruct Hcase as [?|(-> & HE' & _ & Hh)]; [by left|right].
  split; [done|]. split; [done|]. split; [done|]. intros epid Hpos.
  rewrite (epid_lookup_spec dtp E) by done. eexists. split; [done|].
  rewrite (epid_lookup_spec dtp' (E ++ [(ddp, desc)])) by done. f_equal. rewrite (ep_next _ _ HE).
  destruct (Z.eqb_spec epid (1 + Z.of_nat (length E))) as [->|Hne].
  - rewrite lookup_app_r by lia. by replace (_ - length E)%nat with 0%nat by lia.
  - destruct (decide (Z.to_nat (epid - 1) < length E)%nat); [by rewrite lookup_app_l|].
    rewrite !lookup_ge_None_2; [done|lia|]. rewrite length_app. simpl. lia.
Qed.

(** A handle as dtrace_open leaves it, with two probes. *)
Definition handle0 : dtrace_hdl := mk_hdl 0 1 0 None None [700; 701] 0 None.
Definition heap0 : ddheap := <[500 := mk_ddesc 0 None 1]> ∅.

Lemma handle0_ok : epids handle0 [].
Proof. split; [done|constructor|by left]. Qed.

Lemma dt_epid_add_correct_witness :
  ∃ r h' dtp', dt_epid_add true heap0 handle0 500 1 = Some (r, h', dtp') ∧
    ((true = false ∧ r = u32 (-1) ∧ h' = heap0 ∧ dt_errno dtp' = EDT_NOMEM) ∨
     (r = dt_nextepid handle0 ∧ epids dtp' [(500, 701)] ∧
      h' = <[500 := mk_ddesc 0 None (s32 (1 + 1))]> heap0 ∧
      ∀ epid, 0 < epid → ∃ x, dt_epid_lookup handle0 epid = Some x ∧
        dt_epid_lookup dtp' epid = Some (if epid =? r then Some (500, 701) else x))).
Proof.
  apply (dt_epid_add_correct true heap0 handle0 [] 500 1 (mk_ddesc 0 None 1) 701);
    [apply handle0_ok|done|done|done|done|done].
Defined.

(** The id is taken before the arrays are grown and is not given back when
    that fails, but the arrays only ever double: after two calls that ran out
    of memory the next one stores outside the arrays it allocates. *)
Theorem dt_epid_add_overrun :
  ∃ dtp1 dtp2,
    dt_epid_add false heap0 handle0 500 0 = Some (2 ^ 32 - 1, heap0, dtp1) ∧
    dt_epid_add false heap0 dtp1 500 0 = Some (2 ^ 32 - 1, heap0, dtp2) ∧
    dt_epid_add true heap0 dtp2 500 0 = None.
Proof.
  exists (mk_hdl EDT_NOMEM 2 0 None None [700; 701] 0 None), (mk_hdl EDT_NOMEM 3 0 None None [700; 701] 0 None).
  split; [vm_compute; reflexivity|]. split; vm_compute; reflexivity.
Qed.

(** Destroying the ids drops one reference of a data description for each id
    bound to it, freeing the description with its last reference, and touches
    no other description. *)
Theorem dt_epid_destroy_correct h dtp E :
  epids dtp E →
  (∀ d, d ∈ E.*1 → ∃ x, h !! d = Some x ∧ count d E.*1 <= dtdd_refcnt x < 2 ^ 31) →
  ∃ h' dtp', dt_epid_destroy h dtp = Some (h', dtp') ∧
    dt_ddesc dtp' = None ∧ dt_pdesc dtp' = None ∧ dt_maxprobe dtp' = 0 ∧
    ∀ d, h' !! d = if decide (d ∈ E.*1) then h !! d ≫= λ x, drop_refs x (count d E.*1) else h !! d.
Proof.
  intros [Hnext Hnn Harr] Href. unfold dt_epid_destroy.
  destruct Harr as [(Hdd & Hpd & Hmax & ->)|(Hmax & Hle & z & Hdd & Hpd & Hz)].
  - rewrite Hdd, Hpd, Hmax. do 2 eexists. split; [done|]. split_and!; try done.
  - rewrite Hdd, Hpd. replace (dt_maxprobe dtp <=? 0) with false by lia.
    rewrite take_ge by (simpl; rewrite length_app, length_fmap, length_replicate; lia).
    cbn [epid_destroy_loop Z.eqb]. destruct (epid_destroy_spec h E z Hnn Href) as (h' & -> & Hh').
    cbn [mbind option_bind]. do 2 eexists. split; [done|]. done.
Qed.

Definition handle1 : dtrace_hdl := mk_hdl 0 2 2 (Some [0; 500]) (Some [0; 701]) [700; 701] 0 None.

Lemma dt_epid_destroy_correct_witness :
  ∃ h' dtp', dt_epid_destroy (<[500 := mk_ddesc 0 None 2]> ∅) handle1 = Some (h', dtp') ∧
    dt_ddesc dtp' = None ∧ dt_pdesc dtp' = None ∧ dt_maxprobe dtp' = 0 ∧
    ∀ d, h' !! d = if decide (d ∈ [(500, 701)].*1)
      then (<[500 := mk_ddesc 0 None 2]> ∅ : ddheap) !! d ≫= λ x, drop_refs x (count d [(500, 701)].*1)
      else (<[500 := mk_ddesc 0 None 2]> ∅ : ddheap) !! d.
Proof.
  apply (dt_epid_destroy_correct _ handle1 [(500, 701)]).
  - split; [done|by repeat constructor|]. right. split; [done|]. split; [done|]. by exists 0%nat.
  - intros d ->%list_elem_of_singleton. eexists. split; [reflexivity|]. vm_compute. split; [discriminate|done].
Defined.

(** ** Data records *)

(** The description has the records [R] and room for more. *)
Record records (st : recs_state) (R : list dtrace_recdesc) : Prop := {
  rs_nrecs : dtdd_nrecs (rs_ddesc st) = Z.of_nat (length R);
  rs_room :
    (dtdd_recs (rs_ddesc st) = None ∧ pcb_maxrecs st = 0 ∧ R = []) ∨
    ∃ z, dtdd_recs (rs_ddesc st) = Some (R ++ replicate z rec0) ∧
      pcb_maxrecs st = Z.of_nat (length R + z) ∧ 0 < pcb_maxrecs st <= 2 ^ 30;
  rs_off : 0 <= pcb_bufoff st
}.

(** The alignments the assertion lets through. *)
Lemma alignments a :
  (0 <? a) && (a <=? 8) && (Z.land a (a - 1) =? 0) = true → ∃ k, 0 <= k <= 3 ∧ a = 2 ^ k.
Proof.
  intros H. apply andb_prop in H as [[H1 H2]%andb_prop H3].
  assert (a = 1 ∨ a = 2 ∨ a = 3 ∨ a = 4 ∨ a = 5 ∨ a = 6 ∨ a = 7 ∨ a = 8)
    as [->|[->|[->|[->|[->|[->|[->| ->]]]]]]] by lia; try done.
  - by exists 0.
  - by exists 1.
  - by exists 2.
  - by exists 3.
Qed.

(** The record that a call adds. *)
Definition next_rec (st : recs_state) (kind size alignment pfp arg : Z) : dtrace_recdesc :=
  mk_rec kind size (Z.land (u32 (pcb_bufoff st + (alignment - 1))) (u32 (Z.lnot (alignment - 1))))
    alignment pfp arg.

Lemma rec_add_spec m st R kind size alignment pfp arg :
  let rc := next_rec st kind size alignment pfp arg in
  records st R → (0 <? alignment) && (alignment <=? 8) && (Z.land alignment (alignment - 1) =? 0) = true →
  0 <= size → pcb_bufoff st + alignment + size < 2 ^ 32 → Z.of_nat (length R) + 1 < 2 ^ 29 →
  dt_rec_add m st kind size alignment pfp arg = Some None ∧ m = false ∨
  ∃ st' gap, dt_rec_add m st kind size alignment pfp arg = Some (Some (dtrd_offset rc, gap, st')) ∧
    records st' (R ++ [rc]) ∧ dtrd_offset rc mod alignment = 0 ∧
    pcb_bufoff st + default 0 gap = dtrd_offset rc ∧ (∀ g, gap = Some g → 0 < g < alignment) ∧
    dtrd_offset rc + size = pcb_bufoff st'.
Proof.
  intros rc [Hn Hroom Hoff] Ha Hs Hb HR. unfold dt_rec_add. cbv zeta. rewrite Ha. cbn [negb]. rewrite Hn.
  destruct (alignments _ Ha) as (k & Hk & ->).
  assert (2 ^ k <= 2 ^ 3) by (apply Z.pow_le_mono_r; lia).
  pose proof (Z.pow_pos_nonneg 2 k).
  assert (pcb_bufoff st + (2 ^ k - 1) < 2 ^ 32) as Hk' by lia.
  destruct (align_up 32 (pcb_bufoff st) k ltac:(lia) Hoff Hk') as [Hal Hr].
  change (Z.land (u32 (pcb_bufoff st + (2 ^ k - 1))) (u32 (Z.lnot (2 ^ k - 1)))) with (dtrd_offset rc) in *.
  assert (s32 (Z.of_nat (length R) + 1) = Z.of_nat (length R) + 1) as ->.
  { apply swrap_id; [lia|]. unfold srange. change (32 - 1) with 31. lia. }
  assert (u32 (dtrd_offset rc - pcb_bufoff st) = dtrd_offset rc - pcb_bufoff st) as -> by (apply wrap_id; unfold urange; lia).
  assert (u32 (dtrd_offset rc + size) = dtrd_offset rc + size) as -> by (apply wrap_id; unfold urange; lia).
  fold rc. set (o := dtrd_offset rc) in *.
  set (full := pcb_maxrecs st <=? Z.of_nat (length R) + 1).
  assert (full && negb m = true ∧ m = false ∨ full && negb m = false ∧ ∃ z max,
    (if full then
       let nmax := if pcb_maxrecs st =? 0 then Z.of_nat (length R) + 1 else s32 (Z.shiftl (pcb_maxrecs st) 1) in
       nrecs ← grow rec0 (dtdd_recs (rs_ddesc st)) (pcb_maxrecs st) nmax; Some (nrecs, nmax)
     else recs ← dtdd_recs (rs_ddesc st); Some (recs, pcb_maxrecs st)) = Some (R ++ replicate (S z) rec0, max) ∧
    max = Z.of_nat (length R + S z) ∧ 0 < max <= 2 ^ 30) as [[-> ->]|(-> & z & max & E & Hmax & Hmaxb)].
  - destruct full eqn:Efull; [destruct m; [right|by left]|right]; (split; [done|]).
    + destruct Hroom as [(Hr0 & Hm0 & ->)|(z & Hr0 & Hm0 & Hmb)].
      * rewrite Hr0, Hm0. exists 0%nat, 1. split; [done|]. simpl. lia.
      * unfold full in Efull. replace (pcb_maxrecs st =? 0) with false by lia.
        assert (s32 (Z.shiftl (pcb_maxrecs st) 1) = 2 * pcb_maxrecs st) as ->.
        { rewrite Z.shiftl_mul_pow2 by lia. rewrite swrap_id; [lia|lia|]. unfold srange. change (32 - 1) with 31. lia. }
        rewrite Hr0. cbv zeta. rewrite grow_some by (rewrite ?length_app, ?length_replicate; lia).
        cbn [mbind option_bind]. exists (z + Z.to_nat (pcb_maxrecs st) - 1)%nat, (2 * pcb_maxrecs st).
        split; [|lia]. rewrite <- app_assoc, <- replicate_add. do 5 f_equal. lia.
    + unfold full in Efull. destruct Hroom as [(_ & Hm0 & ->)|(z & Hr0 & Hm0 & Hmb)]; [by rewrite Hm0 in Efull|].
      rewrite Hr0. cbn [mbind option_bind]. destruct z as [|z]; [lia|]. exists z, (pcb_maxrecs st).
      split; [done|lia].
  - left. done.
  - right. cbv zeta in E. rewrite E. cbn [mbind option_bind]. change (replicate (S z) rec0) with (rec0 :: replicate z rec0).
    rewrite assign_app by lia. cbn [mbind option_bind]. do 2 eexists. split; [done|]. split_and!.
    + split; simpl; [rewrite length_app; simpl; lia| |lia].
      right. exists z. rewrite length_app, <- app_assoc. simpl. split; [done|]. split; [lia|done].
    + done.
    + destruct (Z.ltb_spec 0 (o - pcb_bufoff st)); simpl; lia.
    + intros g. destruct (Z.ltb_spec 0 (o - pcb_bufoff st)); [|done]. intros [= <-]. lia.
    + done.
Qed.

(** A series of records: their kind, size, alignment, format and argument.  The
    result has the offset and the gap of each. *)
Fixpoint rec_adds (st : recs_state) (rs : list (Z * Z * Z * Z * Z)) : option (list (Z * option Z) * recs_state) :=
  match rs with
  | [] => Some ([], st)
  | (kind, size, alignment, pfp, arg) :: rs =>
      r ← dt_rec_add true st kind size alignment pfp arg;
      '(off, gap, st) ← r;
      '(offs, st) ← rec_adds st rs;
      Some ((off, gap) :: offs, st)
  end.

Definition rec_req (r : Z * Z * Z * Z * Z) : Prop :=
  let '(_, size, alignment, _, _) := r in
  (0 <? alignment) && (alignment <=? 8) && (Z.land alignment (alignment - 1) =? 0) = true ∧ 0 <= size.

Fixpoint rec_worst (rs : list (Z * Z * Z * Z * Z)) : Z :=
  match rs with [] => 0 | (_, size, alignment, _, _) :: rs => alignment + size + rec_worst rs end.

(** The gaps and the records tile the data from [lo] to [hi], each record
    aligned as asked. *)
Fixpoint tiles (lo hi : Z) (rs : list (Z * Z * Z * Z * Z)) (offs : list (Z * option Z)) : Prop :=
  match rs, offs with
  | [], [] => lo = hi
  | (_, size, alignment, _, _) :: rs, (off, gap) :: offs =>
      off mod alignment = 0 ∧ lo + default 0 gap = off ∧ (∀ g, gap = Some g → 0 < g < alignment) ∧
      tiles (off + size) hi rs offs
  | _, _ => False
  end.

(** C19: Any series of records is laid out without overlap: the gaps that the
    callback is asked to fill and the records exactly tile the data from the
    old end to the new one, each record is aligned as asked, no gap reaches the
    alignment, and the description's array always has room. *)
Theorem dt_rec_add_correct st R rs :
  records st R → Forall rec_req rs → pcb_bufoff st + rec_worst rs < 2 ^ 32 →
  Z.of_nat (length R + length rs) < 2 ^ 29 →
  ∃ offs st' R', rec_adds st rs = Some (offs, st') ∧ records st' (R ++ R') ∧
    fst <$> offs = dtrd_offset <$> R' ∧ tiles (pcb_bufoff st) (pcb_bufoff st') rs offs.
Proof.
  intros Hst Hrs. revert st R Hst. induction Hrs as [|r rs Hr Hrs IH]; intros st R Hst Hb Hl.
  { exists [], st, []. by rewrite app_nil_r. }
  destruct r as [[[[kind size] alignment] pfp] arg]. destruct Hr as [Ha Hs].
  assert (0 <= rec_worst rs).
  { clear -Hrs. induction Hrs as [|[[[[kd sz] al] pf] ar] rs [Ha Hs] _ IH]; simpl; [lia|].
    destruct (alignments _ Ha) as (k & ? & ->). pose proof (Z.pow_pos_nonneg 2 k). lia. }
  cbn [rec_worst] in Hb. simpl in Hl.
  destruct (rec_add_spec true st R kind size alignment pfp arg Hst Ha Hs) as
    [[_ ?]|(st1 & gap & E & Hst1 & Hal & Hgap & Hg & Hoff)]; [lia|lia|done|].
  set (rc := next_rec st kind size alignment pfp arg) in *.
  assert (pcb_bufoff st1 <= pcb_bufoff st + alignment + size).
  { destruct gap as [g|]; simpl in *; [specialize (Hg g eq_refl)|];
      destruct (alignments _ Ha) as (k & ? & ->); pose proof (Z.pow_pos_nonneg 2 k); lia. }
  destruct (IH st1 (R ++ [rc]) Hst1) as (offs & st' & R' & E' & Hst' & Hoffs & Ht);
    [lia|rewrite length_app; simpl; lia|].
  exists ((dtrd_offset rc, gap) :: offs), st', (rc :: R'). cbn [rec_adds]. rewrite E. cbn [mbind option_bind].
  rewrite E'. cbn [mbind option_bind]. split; [done|]. rewrite <- app_assoc in Hst'. split; [done|].
  split; [by rewrite !fmap_cons, Hoffs|]. cbn [tiles]. rewrite Hoff. done.
Qed.

Lemma dt_rec_add_correct_witness :
  let st := mk_recs (mk_ddesc 0 None 1) 0 4 in
  let rs := [(1, 3, 1, 0, 0); (1, 8, 8, 0, 0)] in
  ∃ offs st' R', rec_adds st rs = Some (offs, st') ∧ records st' ([] ++ R') ∧
    fst <$> offs = dtrd_offset <$> R' ∧ tiles 4 (pcb_bufoff st') rs offs.
Proof.
  apply (dt_rec_add_correct (mk_recs (mk_ddesc 0 None 1) 0 4) []); [|by repeat constructor|done|done].
  split; [done|by left|done].
Defined.

(** ** Aggregation ids as a map *)

(** The array has as many entries as [dt_maxagg] says, a power of two. *)
Definition aggs_ok (dtp : dtrace_hdl) : Prop :=
  (dt_adesc dtp = None ∧ dt_maxagg dtp = 0) ∨
  ∃ l, dt_adesc dtp = Some l ∧ dt_maxagg dtp = Z.of_nat (length l) ∧ 1 <= dt_maxagg dtp < 2 ^ 32.

Definition agg_at (dtp : dtrace_hdl) (id : Z) : option dtrace_aggdesc :=
  l ← dt_adesc dtp; mjoin (l !! Z.to_nat id).

Lemma aggid_lookup_spec dtp id : aggs_ok dtp → 0 <= id → dt_aggid_lookup dtp id = Some (agg_at dtp id).
Proof.
  intros Hok Hid. unfold dt_aggid_lookup, agg_at.
  destruct Hok as [[-> ->]|(l & -> & -> & _)]; [by rewrite (proj2 (Z.leb_le _ _))|].
  cbn [mbind option_bind]. destruct (Z.leb_spec (Z.of_nat (length l)) id).
  - by rewrite lookup_ge_None_2 by lia.
  - destruct (lookup_lt_is_Some_2 l (Z.to_nat id)) as [x ->]; [lia|done].
Qed.

(** Growing changes no entry. *)
Lemma agg_at_grow l n j : mjoin ((l ++ replicate n None) !! j) = (mjoin (l !! j) : option dtrace_aggdesc).
Proof.
  destruct (decide (j < length l)%nat); [by rewrite lookup_app_l|].
  rewrite lookup_app_r, (lookup_ge_None_2 l) by lia.
  destruct (replicate n None !! _) eqn:E; [|done]. by apply lookup_replicate in E as [-> _].
Qed.

Lemma aggid_grow_spec fuel : ∀ m dtp id, aggs_ok dtp → 0 <= id < 2 ^ 31 →
  (dt_adesc dtp = None ∧ id < 2 ^ (Z.of_nat fuel - 1) ∧ (0 < fuel)%nat ∨
   1 <= dt_maxagg dtp ∧ id < dt_maxagg dtp * 2 ^ Z.of_nat fuel) →
  ∃ ok dtp', aggid_grow fuel m dtp id = Some (ok, dtp') ∧ aggs_ok dtp' ∧
    (∀ j, agg_at dtp' j = agg_at dtp j) ∧
    (if ok : bool then dt_errno dtp' = dt_errno dtp ∧ id < dt_maxagg dtp' else dt_errno dtp' = EDT_NOMEM) ∧
    ((∀ n, m n = true) → ok = true).
Proof.
  induction fuel as [|fuel IH]; intros m dtp id Hok Hid Hfuel; cbn [aggid_grow].
  - destruct Hok as [[Hn H0]|(l & Hl & Hmax & Hb)]; [lia|].
    rewrite (wrap_id 32 (dt_maxagg dtp)) by (unfold urange; lia).
    replace (dt_maxagg dtp <=? id) with false by lia. rewrite bool_decide_eq_false_2 by by rewrite Hl.
    exists true, dtp. split_and!; [done|right; eauto|done|done|lia|done].
  - assert (u32 (dt_maxagg dtp) = dt_maxagg dtp) as ->.
    { apply wrap_id. unfold urange. destruct Hok as [[_ ->]|(l & _ & _ & ?)]; lia. }
    destruct ((dt_maxagg dtp <=? id) || bool_decide (dt_adesc dtp = None)) eqn:Ec.
    2:{ apply orb_false_iff in Ec as [Ec1 Ec2]. exists true, dtp. split_and!; try done. lia. }
    destruct (m fuel) eqn:Em; cbn [negb].
    2:{ eexists false, _. split; [done|]. split_and!; try done. intros Hm. by rewrite Hm in Em. }
    assert (∃ l', grow None (dt_adesc dtp) (dt_maxagg dtp)
        (if dt_maxagg dtp =? 0 then 1 else u32 (Z.shiftl (dt_maxagg dtp) 1)) = Some l' ∧
      (if dt_maxagg dtp =? 0 then 1 else u32 (Z.shiftl (dt_maxagg dtp) 1)) = Z.of_nat (length l') ∧
      1 <= Z.of_nat (length l') < 2 ^ 32 ∧ id < Z.of_nat (length l') * 2 ^ Z.of_nat fuel ∧
      ∀ j, mjoin (l' !! Z.to_nat j) = agg_at dtp j) as (l' & -> & -> & Hb & Hid' & Hat).
    { destruct Hok as [[Hn H0]|(l & Hl & Hmax & Hb)].
      - rewrite Hn, H0. exists [None]. split_and!; try done.
        + destruct Hfuel as [(_ & Hf & _)|?]; [|lia]. simpl. rewrite Nat2Z.inj_succ in Hf.
          replace (Z.succ (Z.of_nat fuel) - 1) with (Z.of_nat fuel) in Hf by lia. lia.
        + intros j. unfold agg_at. rewrite Hn. simpl. by destruct (Z.to_nat j).
      - rewrite bool_decide_eq_false_2, orb_false_r in Ec by by rewrite Hl.
        replace (dt_maxagg dtp =? 0) with false by lia.
        rewrite Z.shiftl_mul_pow2, (wrap_id 32 (dt_maxagg dtp * _)) by (unfold urange; lia).
        rewrite Hl, grow_some by lia. eexists. split; [done|].
        rewrite length_app, length_replicate. split_and!; try lia.
        + destruct Hfuel as [(? & _)|[_ Hf]]; [congruence|].
          rewrite Nat2Z.inj_succ, Z.pow_succ_r in Hf by lia.
          replace (Z.of_nat (length l + _)) with (2 * dt_maxagg dtp) by lia. lia.
        + intros j. rewrite agg_at_grow. unfold agg_at. by rewrite Hl. }
    cbn [mbind option_bind].
    edestruct (IH m) as (ok & dtp' & -> & Hok' & Hat' & Herr & Hm); [|exact Hid| |].
    { right. exists l'. simpl. done. }
    { right. simpl. lia. }
    exists ok, dtp'. split_and!; [done|done| |done|done]. intros j. rewrite Hat'. apply Hat.
Qed.

Lemma agg_recs_spec n fid off i :
  (i < n)%nat → 0 <= off → off + 8 * Z.of_nat n < 2 ^ 32 →
  agg_recs n fid off !! i = Some (mk_rec fid 8 (off + 8 * Z.of_nat i) 8 0 1).
Proof.
  revert off i. induction n as [|n IH]; intros off i Hi Ho Hb; [lia|]. cbn [agg_recs].
  destruct i as [|i]; simpl; [do 2 f_equal; lia|].
  rewrite (wrap_id 32 (off + 8)) by (unfold urange; lia). rewrite IH by lia. do 2 f_equal. lia.
Qed.

Lemma agg_recs_length n fid off : length (agg_recs n fid off) = n.
Proof. revert off. induction n as [|n IH]; intros off; simpl; [done|]. by rewrite IH. Qed.

(** What [dt_aggid_add] records of an aggregation: one 8-byte record for every
    8 bytes of one copy of its data. *)
Definition agg_described (aid : agg_ident) (a : dtrace_aggdesc) : Prop :=
  dtagd_id a = aid_id aid ∧ dtagd_name a = aid_name aid ∧ dtagd_varid a = aid_id aid ∧
  dtagd_sig a = aid_auxinfo aid ∧
  aid_size aid = DT_AGG_NUM_COPIES * dtagd_size a + 8 ∧
  dtagd_size a = 8 * dtagd_nrecs a ∧ Z.of_nat (length (dtagd_recs a)) = dtagd_nrecs a ∧
  ∀ i r, dtagd_recs a !! i = Some r → dtrd_action r = fid_id aid ∧ dtrd_size r = 8 ∧
    dtrd_alignment r = 8 ∧ dtrd_offset r = 8 * Z.of_nat i.

(** C28: Adding an aggregation returns with the array large enough for its id:
    afterwards the lookup of its id finds the description that was there or one
    whose 8-byte records tile one copy of the data, and the lookup of every
    other id finds what it found before.  If an allocation fails the call
    reports [EDT_NOMEM] and no lookup changes. *)
Theorem dt_aggid_add_correct m m1 m2 dtp aid n :
  aggs_ok dtp → 0 <= aid_id aid < 2 ^ 31 → aid_size aid = DT_AGG_NUM_COPIES * (8 * n) + 8 → 0 <= n < 2 ^ 28 →
  ∃ r dtp', dt_aggid_add m m1 m2 dtp aid = Some (r, dtp') ∧ aggs_ok dtp' ∧
    (∀ j, 0 <= j → j ≠ aid_id aid → dt_aggid_lookup dtp' j = dt_aggid_lookup dtp j) ∧
    (if decide (r = 0)
     then ∃ a, dt_aggid_lookup dtp' (aid_id aid) = Some (Some a) ∧
            (dt_aggid_lookup dtp (aid_id aid) = Some (Some a) ∨
             dt_aggid_lookup dtp (aid_id aid) = Some None ∧ agg_described aid a)
     else r = -1 ∧ dt_errno dtp' = EDT_NOMEM ∧
       dt_aggid_lookup dtp' (aid_id aid) = dt_aggid_lookup dtp (aid_id aid)) ∧
    ((∀ i, m i = true) → m1 = true → m2 = true → r = 0).
Proof.
  intros Hok Hid Hsz Hn. set (id := aid_id aid) in *.
  assert (dt_adesc dtp = None ∧ id < 2 ^ (Z.of_nat 33 - 1) ∧ (0 < 33)%nat ∨
    1 <= dt_maxagg dtp ∧ id < dt_maxagg dtp * 2 ^ Z.of_nat 33) as Hf.
  { change (2 ^ (Z.of_nat 33 - 1)) with (2 ^ 32). change (2 ^ Z.of_nat 33) with (2 ^ 33).
    destruct Hok as [[? ?]|(l & ? & ? & ?)]; [left; split_and!; [done|lia|lia]|right; lia]. }
  destruct (aggid_grow_spec 33 m dtp id Hok Hid Hf) as (ok & d1 & E & Hok1 & Hat1 & Hres & Hm). clear Hf.
  unfold dt_aggid_add. fold id. rewrite E. cbn [mbind option_bind].
  assert (∀ j, 0 <= j → dt_aggid_lookup d1 j = dt_aggid_lookup dtp j) as Hl1.
  { intros j Hj. by rewrite !aggid_lookup_spec, Hat1. }
  destruct ok; cbn [negb].
  2:{ exists (-1), d1. split_and!; [done|done|auto| |intros Hm'; by specialize (Hm Hm')].
      rewrite decide_False by done. split_and!; [done|done|apply Hl1; lia]. }
  destruct Hres as [_ Hid1]. destruct Hok1 as [[? ?]|(l & Hl & Hmax & Hb)]; [lia|].
  rewrite Hl. cbn [mbind option_bind].
  assert (dt_aggid_lookup d1 id = l !! Z.to_nat id) as Hlk.
  { unfold dt_aggid_lookup. replace (dt_maxagg d1 <=? id) with false by lia. by rewrite Hl. }
  destruct (lookup_lt_is_Some_2 l (Z.to_nat id)) as [x Hx]; [lia|]. rewrite Hx in Hlk |- *.
  cbn [mbind option_bind]. assert (aggs_ok d1) as Hok1 by (right; eauto).
  destruct x as [a|].
  { exists 0, d1. split_and!; [done|done|auto| |done]. rewrite decide_True by done.
    exists a. split; [done|]. left. rewrite <- Hl1 by lia. done. }
  destruct m1; cbn [negb].
  2:{ eexists (-1), _. split; [done|]. split_and!; [done|intros; by apply Hl1| |done].
      rewrite decide_False by done. split_and!; [done|done|apply Hl1; lia]. }
  destruct m2; cbn [negb].
  2:{ eexists (-1), _. split; [done|]. split_and!; [done|intros; by apply Hl1| |done].
      rewrite decide_False by done. split_and!; [done|done|apply Hl1; lia]. }
  cbv zeta. unfold assign. rewrite decide_True by lia. cbn [mbind option_bind].
  assert (u32 (u64 (aid_size aid - 8) / DT_AGG_NUM_COPIES) = 8 * n) as ->.
  { rewrite Hsz, Z.add_simpl_r. unfold DT_AGG_NUM_COPIES.
    rewrite (wrap_id 64) by (unfold urange; lia). rewrite Z.mul_comm, Z.div_mul by done.
    apply wrap_id. unfold urange. lia. }
  replace (8 * n / 8) with n by (rewrite Z.mul_comm, Z.div_mul; lia).
  rewrite (swrap_id 32 n) by (try done; unfold srange; change (32 - 1) with 31; lia).
  eexists 0, _. split; [done|]. split_and!.
  - right. eexists. split; [done|]. simpl. by rewrite length_insert.
  - intros j Hj Hne. rewrite <- Hl1 by done. unfold dt_aggid_lookup. simpl. rewrite Hl. simpl.
    by rewrite list_lookup_insert_ne by lia.
  - rewrite decide_True by done. eexists. split.
    + unfold dt_aggid_lookup. simpl. replace (dt_maxagg d1 <=? id) with false by lia.
      simpl. apply list_lookup_insert_eq. lia.
    + right. split; [rewrite <- Hl1 by lia; done|]. split_and!; try done; simpl.
      * rewrite agg_recs_length. lia.
      * intros i r Hi. pose proof (lookup_lt_Some _ _ _ Hi) as Hlt. rewrite agg_recs_length in Hlt.
        rewrite agg_recs_spec in Hi by lia. injection Hi as <-. done.
  - done.
Qed.

Lemma dt_aggid_add_correct_witness :
  let dtp := mk_hdl 0 1 0 None None [] 0 None in
  let aid := mk_aid 5 [97] 0 24 7 in
  ∃ r dtp', dt_aggid_add (λ _, true) true true dtp aid = Some (r, dtp') ∧ r = 0 ∧
    ∃ a, dt_aggid_lookup dtp' 5 = Some (Some a).
Proof.
  destruct (dt_aggid_add_correct (λ _, true) true true (mk_hdl 0 1 0 None None [] 0 None)
    (mk_aid 5 [97] 0 24 7) 2) as (r & dtp' & E & _ & _ & Hr & H0); [by left|done|done|done|].
  specialize (H0 (λ _, eq_refl) eq_refl eq_refl). subst r.
  exists 0, dtp'. split; [done|]. split; [done|]. rewrite decide_True in Hr by done.
  destruct Hr as (a & Ha & _). by exists a.
Defined.

End DtMap.
