(* ===== verification/BpfFuncs.v ===== *)
(** * The C functions that run in the kernel: bpf/*.c

    The functions of the precompiled BPF library that are written in C: the
    binning of quantize() and lquantize(), speculations, thread-local variables,
    built-in variables and the reporting of faults.

    The helpers the kernel provides are not part of this repository.  The maps
    they operate on are an instance of [BpfMap], and what their documentation
    (bpf-helpers(7)) promises is [BpfMapLaws]; the other helpers are fields of a
    record that the functions take as an argument. *)
From S2P Require Import Prelude.

(** ** BPF maps *)

Definition BPF_ANY : Z := 0.
Definition BPF_NOEXIST : Z := 1.

(** [map_store m k v] is a store of [v] through the pointer that the lookup of
    [k] returned. *)
Class BpfMap (M V : Type) := {
  map_lookup_elem : M → Z → option V;
  map_update_elem : M → Z → V → Z → Z * M;
  map_delete_elem : M → Z → Z * M;
  map_store : M → Z → V → M
}.

Class BpfMapLaws (M V : Type) `{BpfMap M V} := {
  update_ok m k v flags m' r : map_update_elem m k v flags = (r, m') → 0 <= r →
    r = 0 ∧ map_lookup_elem m' k = Some v ∧ ∀ j, j ≠ k → map_lookup_elem m' j = map_lookup_elem m j;
  update_fails m k v flags m' r : map_update_elem m k v flags = (r, m') → r < 0 →
    ∀ j, map_lookup_elem m' j = map_lookup_elem m j;
  update_noexist m k v m' r : map_update_elem m k v BPF_NOEXIST = (r, m') →
    is_Some (map_lookup_elem m k) → r < 0;
  delete_lookup m k m' r : map_delete_elem m k = (r, m') →
    map_lookup_elem m' k = None ∧ ∀ j, j ≠ k → map_lookup_elem m' j = map_lookup_elem m j;
  store_lookup m k v : is_Some (map_lookup_elem m k) →
    map_lookup_elem (map_store m k v) k = Some v ∧
    ∀ j, j ≠ k → map_lookup_elem (map_store m k v) j = map_lookup_elem m j
}.

(** A hash map of [cap] entries, to show that the laws can hold. *)
Section HashMap.
Context {V : Type} (cap : nat).

Definition hash_update (m : gmap Z V) (k : Z) (v : V) (flags : Z) : Z * gmap Z V :=
  if decide (is_Some (m !! k)) then
    if flags =? BPF_NOEXIST then (-17, m) else (0, <[k := v]> m)
  else if decide (cap <= size m)%nat then (-7, m) else (0, <[k := v]> m).

Definition hash_map : BpfMap (gmap Z V) V := {|
  map_lookup_elem := λ m k, m !! k;
  map_update_elem := hash_update;
  map_delete_elem := λ m k, (if decide (is_Some (m !! k)) then 0 else -2, delete k m);
  map_store := λ m k v, <[k := v]> m
|}.

Lemma hash_map_laws : @BpfMapLaws (gmap Z V) V hash_map.
Proof.
  split; simpl; unfold hash_update.
  - intros m k v flags m' r E Hr. repeat (case_decide || case_match); simplify_eq; try lia;
      (split; [done|]; split; [by simplify_map_eq|]; intros; by simplify_map_eq).
  - intros m k v flags m' r E Hr j. repeat (case_decide || case_match); simplify_eq; try lia; done.
  - intros m k v m' r E Hs. rewrite decide_True in E by done. simpl in E. by simplify_eq.
  - intros m k m' r [= _ <-]. split; intros; by simplify_map_eq.
  - intros m k v _. split; intros; by simplify_map_eq.
Qed.

End HashMap.

Module BpfFuncs.

(** ** quantize(): bpf/agg_qbin.c *)

Definition qbin_step (mask k : Z) (s : Z * Z) : Z * Z :=
  let '(off, tmp) := s in
  if Z.land tmp mask =? 0 then (off, tmp) else (s16 (off + k), Z.shiftr tmp k).

Definition dt_agg_qbin (val : Z) : Z :=
  if val =? 0 then 63
  else if u64 val =? 0x8000000000000000 then 0
  else
    let tmp := u64 val in
    let tmp := if val <? 0 then u64 (tmp * -1) else tmp in
    let s := qbin_step 0x7fffffff00000000 32 (1, tmp) in
    let s := qbin_step 0x00000000ffff0000 16 s in
    let s := qbin_step 0x000000000000ff00 8 s in
    let s := qbin_step 0x00000000000000f0 4 s in
    let '(off, tmp) := qbin_step 0x000000000000000c 2 s in
    let off := if Z.land tmp 2 =? 0 then off else s16 (off + 1) in
    let off := if val <? 0 then s16 (off * -1) else off in
    s16 (off + 63).

(** The buckets as the consumer prints them: include/dtrace/actions_defines.h *)
Definition DTRACE_QUANTIZE_NBUCKETS : Z := (8 * 8 - 1) * 2 + 1.
Definition DTRACE_QUANTIZE_ZEROBUCKET : Z := 8 * 8 - 1.
Definition DTRACE_QUANTIZE_BUCKETVAL (buck : Z) : Z :=
  if buck <? DTRACE_QUANTIZE_ZEROBUCKET then
    - Z.shiftl 1 (DTRACE_QUANTIZE_ZEROBUCKET - 1 - buck)
  else if buck =? DTRACE_QUANTIZE_ZEROBUCKET then 0
  else Z.shiftl 1 (buck - DTRACE_QUANTIZE_ZEROBUCKET - 1).

(** ** lquantize(): bpf/agg_lqbin.c *)

(** A difference that does not fit in 64 bits is undefined. *)
Definition dt_agg_lqbin (val base levels step : Z) : option Z :=
  if (step =? 0) || (val <? base) then Some 0
  else if (2 ^ 63 <=? val - base) then None
  else
    let level := u64 (val - base) / step in
    let level := if levels <? level then levels else level in
    Some (u64 (level + 1)).

(** ** Speculations: bpf/speculation.c *)

Record dt_bpf_specs := mk_specs { written : Z; draining : Z }.

Section Speculation.
Context {M : Type} `{BpfMap M dt_bpf_specs}.
(** The size of the map, which the loader substitutes for the address of NSPEC. *)
Variable NSPEC : Z.

(** The sequence of [SEARCH(n)]. *)
Fixpoint SEARCH (specs : M) (ns : list Z) : Z * M :=
  match ns with
  | [] => (0, specs)
  | n :: ns =>
      if NSPEC <? n then (0, specs)
      else
        let '(r, specs) := map_update_elem specs n (mk_specs 0 0) BPF_NOEXIST in
        if r =? 0 then (n, specs) else SEARCH specs ns
  end.

Definition dt_speculation (specs : M) : Z * M :=
  SEARCH specs [1; 2; 3; 4; 5; 6; 7; 8; 9; 10; 11; 12; 13; 14; 15; 16].

Definition dt_speculation_speculate (specs : M) (id : Z) : Z * M :=
  match map_lookup_elem specs id with
  | None => (-1, specs)
  | Some spec =>
      if negb (draining spec =? 0) then (-1, specs)
      else (0, map_store specs id (mk_specs (u64 (written spec + 1)) (draining spec)))
  end.

(** The third component says that the fault of an illegal operation is
    reported with [dt_probe_error]. *)
Definition dt_speculation_set_drainable (specs : M) (id : Z) : Z * M * bool :=
  match map_lookup_elem specs id with
  | None => if id <=? NSPEC then (0, specs, false) else (-1, specs, true)
  | Some spec => (0, map_store specs id (mk_specs (written spec) 1), false)
  end.

(** The removal of a drained speculation by the consumer ([dt_spec_buf_destroy]
    in dt_consume.c deletes its entry of the map). *)
Definition spec_free (specs : M) (id : Z) : M := (map_delete_elem specs id).2.

(** What the probes and the consumer do to the map. *)
Inductive spec_op :=
  | Speculation
  | Speculate (id : Z)
  | Drain (id : Z)
  | Free (id : Z).

#[export] Instance spec_op_eq_dec : EqDecision spec_op.
Proof. solve_decision. Defined.

Definition spec_step (specs : M) (o : spec_op) : Z * M :=
  match o with
  | Speculation => dt_speculation specs
  | Speculate id => dt_speculation_speculate specs id
  | Drain id => (dt_speculation_set_drainable specs id).1
  | Free id => (0, spec_free specs id)
  end.

Definition spec_run (specs : M) (ops : list spec_op) : M := foldl (λ m o, (spec_step m o).2) specs ops.

End Speculation.

(** ** Thread-local variables: bpf/get_tvar.c *)

Section Tvar.
Context {M V : Type} `{BpfMap M V}.
(** The number of CPUs, and the results of [bpf_get_current_pid_tgid] and
    [bpf_get_smp_processor_id]. *)
Variables NCPUS pid_tgid cpu : Z.

Definition tvar_key (id : Z) : Z :=
  let key := Z.land pid_tgid 0x00000000ffffffff in
  let key := if key =? 0 then cpu else u64 (key + u32 NCPUS) in
  let key := u64 (key + 1) in
  Z.lor (u64 (Z.shiftl key 32)) id.

(** A pointer to the value of an entry is the entry's key. *)
Definition dt_get_tvar (dvars : M) (id store nval : Z) : option Z * M :=
  let dflt_key := 0 in
  let key := tvar_key id in
  if negb (store =? 0) && (nval =? 0) then (None, (map_delete_elem dvars key).2)
  else
    match map_lookup_elem dvars key with
    | Some _ => (Some key, dvars)
    | None =>
        if store =? 0 then (None, dvars)
        else
          match map_lookup_elem dvars dflt_key with
          | None => (None, dvars)
          | Some val =>
              let '(r, dvars) := map_update_elem dvars key val BPF_ANY in
              if r <? 0 then (None, dvars)
              else
                match map_lookup_elem dvars key with
                | Some _ => (Some key, dvars)
                | None => (None, dvars)
                end
          end
    end.

End Tvar.

(** ** Faults and built-in variables: bpf/probe_error.c, bpf/get_bvar.c *)

(** The machine state of a probe; the saved CPU registers are not used here. *)
Record dt_mstate := mk_mst {
  epid : Z; prid : Z; clid : Z; tag : Z; syscall_errno : Z; fault : Z; tstamp : Z; argv : list Z
}.

Definition DTRACEFLT_BADADDR : Z := 1.
Definition DTRACEFLT_ILLOP : Z := 3.

Section Bvar.
(** The ERROR probe's clauses, which the compiler generates. *)
Variable dt_error : dt_mstate → dt_mstate.

Definition set_argv (mst : dt_mstate) (l : list Z) : dt_mstate :=
  mk_mst (epid mst) (prid mst) (clid mst) (tag mst) (syscall_errno mst) (fault mst) (tstamp mst) l.
Definition set_fault (mst : dt_mstate) (f : Z) : dt_mstate :=
  mk_mst (epid mst) (prid mst) (clid mst) (tag mst) (syscall_errno mst) f (tstamp mst) (argv mst).
Definition set_tstamp (mst : dt_mstate) (t : Z) : dt_mstate :=
  mk_mst (epid mst) (prid mst) (clid mst) (tag mst) (syscall_errno mst) (fault mst) t (argv mst).

Definition dt_probe_error (mst : dt_mstate) (pc flt illval : Z) : dt_mstate :=
  let mst := set_argv mst
    (<[5%nat := illval]> (<[4%nat := flt]> (<[3%nat := pc]>
       (<[2%nat := clid mst]> (<[1%nat := epid mst]> (<[0%nat := 0]> (argv mst))))))) in
  set_fault (dt_error mst) flt.

Record dt_bpf_probe := mk_probe { prv : Z; mod_ : Z; fun_ : Z; prb : Z }.

(** The results of the helpers and the contents of the maps.  [get_stack size
    flags] is the result and the contents of the buffer, [probe_read size addr]
    the value read, if any. *)
Record helpers := mk_helpers {
  get_current_task : Z;
  ktime_get_ns : Z;
  get_current_pid_tgid : Z;
  get_current_uid_gid : Z;
  get_stack : Z → Z → Z * list Z;
  probe_read : Z → Z → option Z;
  probes : Z → option dt_bpf_probe;
  state : Z → option Z;
  cpuinfo : option Z
}.

Variable env : helpers.
(** The address of the string table, and the constants the loader substitutes. *)
Variables strtab STBSZ STKSIZ BOOTTM : Z.

Definition DIF_VAR_ARG0 : Z := 0x106.
Definition DT_STATE_TASK_PARENT_OFF : Z := 3.
Definition DT_STATE_TASK_TGID_OFF : Z := 4.
Definition DT_STATE_TASK_COMM_OFF : Z := 5.
Definition BPF_F_USER_STACK : Z := 256.

Definition error (mst : dt_mstate) (flt illval : Z) : option (Z * dt_mstate) :=
  Some (u64 (-1), dt_probe_error mst (u64 (-1)) flt illval).

Definition dt_get_bvar (mst : dt_mstate) (id : Z) : option (Z * dt_mstate) :=
  match id with
  | 0x100 => Some (get_current_task env, mst)
  | 0x101 =>
      let mst := if tstamp mst =? 0 then set_tstamp mst (ktime_get_ns env) else mst in
      Some (tstamp mst, mst)
  | 0x104 => Some (epid mst, mst)
  | 0x105 => Some (prid mst, mst)
  | 0x106 | 0x107 | 0x108 | 0x109 | 0x10a | 0x10b | 0x10c | 0x10d | 0x10e | 0x10f =>
      v ← argv mst !! Z.to_nat (id - DIF_VAR_ARG0); Some (v, mst)
  | 0x110 | 0x11b =>
      let flags := if id =? 0x11b then BPF_F_USER_STACK else 0 in
      let stacksize := u64 (get_stack env (u32 STKSIZ) flags).1 in
      if stacksize <? 0 then error mst 9 0 else Some (stacksize / 8, mst)
  | 0x111 | 0x11c =>
      let flags := if id =? 0x11c then BPF_F_USER_STACK else 0 in
      let '(r, buf) := get_stack env 16 flags in
      if r <? 0 then Some (0, mst) else v ← buf !! 1%nat; Some (v, mst)
  | 0x112 | 0x113 | 0x114 | 0x115 =>
      match probes env (prid mst) with
      | None => Some (strtab, mst)
      | Some pinfo =>
          let off := if id =? 0x112 then prv pinfo else if id =? 0x113 then mod_ pinfo
                     else if id =? 0x114 then fun_ pinfo else prb pinfo in
          if STBSZ <? off then Some (strtab, mst) else Some (u64 (strtab + off), mst)
      end
  | 0x116 => Some (Z.shiftr (get_current_pid_tgid env) 32, mst)
  | 0x117 => Some (Z.land (get_current_pid_tgid env) 0x00000000ffffffff, mst)
  | 0x118 =>
      match state env DT_STATE_TASK_COMM_OFF with
      | None => error mst DTRACEFLT_ILLOP 0
      | Some comm_off =>
          let ptr := get_current_task env in
          if ptr =? 0 then error mst DTRACEFLT_BADADDR ptr else Some (u64 (ptr + comm_off), mst)
      end
  | 0x11a => Some (u64 (ktime_get_ns env + BOOTTM), mst)
  | 0x11d =>
      match state env DT_STATE_TASK_PARENT_OFF, state env DT_STATE_TASK_TGID_OFF with
      | Some parent_off, Some tgid_off =>
          let ptr := get_current_task env in
          if ptr =? 0 then error mst DTRACEFLT_BADADDR ptr
          else
            match probe_read env 8 (u64 (ptr + parent_off)) with
            | None => error mst DTRACEFLT_BADADDR (u64 (ptr + parent_off))
            | Some ptr =>
                match probe_read env 4 (u64 (ptr + tgid_off)) with
                | None => error mst DTRACEFLT_BADADDR (u64 (ptr + tgid_off))
                | Some val => Some (u64 (s32 val), mst)
                end
            end
      | _, _ => Some (u64 (-1), mst)
      end
  | 0x11e => Some (Z.land (get_current_uid_gid env) 0x00000000ffffffff, mst)
  | 0x11f => Some (Z.shiftr (get_current_uid_gid env) 32, mst)
  | 0x120 => Some (u64 (syscall_errno mst), mst)
  | 0x121 => match cpuinfo env with None => Some (0, mst) | Some val => Some (val, mst) end
  | _ => error mst DTRACEFLT_ILLOP 0
  end.

End Bvar.

(** ** Lemmas on binning *)

Lemma land_upper t n k : 0 <= k <= n → 0 <= t < 2 ^ n →
  (Z.land t (Z.shiftl (Z.ones (n - k)) k) =? 0) = (t <? 2 ^ k).
Proof.
  intros Hk Ht.
  assert (Z.land t (Z.shiftl (Z.ones (n - k)) k) = Z.shiftl (Z.shiftr t k) k) as ->.
  { bitwise i Hi. destruct (Z.ltb_spec i k).
    - by rewrite !(Z.testbit_neg_r _ (i - k)), andb_false_r by lia.
    - rewrite Z.shiftr_spec by lia.
      replace (i - k + k) with i by lia. destruct (Z.ltb_spec i n).
      + rewrite Z.ones_spec_low by lia. by rewrite andb_true_r.
      + rewrite (testbit_high t n) by lia. done. }
  rewrite Z.shiftl_mul_pow2, Z.shiftr_div_pow2 by lia.
  pose proof (Z.pow_pos_nonneg 2 k ltac:(lia) ltac:(lia)).
  destruct (Z.ltb_spec t (2 ^ k)) as [?|?].
  - by rewrite Z.div_small by lia.
  - apply Z.eqb_neq. pose proof (Z.div_str_pos t (2 ^ k) ltac:(lia)). nia.
Qed.

(** One step of the search keeps the position of the leading bit. *)
Lemma qbin_step_spec n k off t :
  0 < k <= n → n <= 2 * k → 0 < t < 2 ^ n → 0 <= off → off + k < 2 ^ 15 →
  ∃ off' t', qbin_step (Z.shiftl (Z.ones (n - k)) k) k (off, t) = (off', t') ∧
    off' + Z.log2 t' = off + Z.log2 t ∧ 0 < t' < 2 ^ k ∧ off <= off' <= off + k.
Proof.
  intros Hk Hn Ht Hoff Hb. unfold qbin_step. rewrite land_upper by lia.
  destruct (Z.ltb_spec t (2 ^ k)).
  { exists off, t. split; [done|]. lia. }
  exists (off + k), (Z.shiftr t k).
  rewrite swrap_id by (try lia; unfold srange; change (2 ^ (16 - 1)) with (2 ^ 15); lia).
  split; [done|]. rewrite Z.log2_shiftr by lia.
  assert (k <= Z.log2 t) by (apply Z.log2_le_pow2; lia).
  rewrite Z.shiftr_div_pow2 by lia. split; [lia|]. split; [|lia].
  assert (2 ^ n <= 2 ^ k * 2 ^ k) by (rewrite <- Z.pow_add_r by lia; apply Z.pow_le_mono_r; lia).
  split; [apply Z.div_str_pos; lia|apply Z.div_lt_upper_bound; lia].
Qed.

(** The search finds one more than the position of the leading bit. *)
Lemma qbin_search t : 0 < t < 2 ^ 63 →
  let '(off, tmp) := qbin_step 0x000000000000000c 2
    (qbin_step 0x00000000000000f0 4
      (qbin_step 0x000000000000ff00 8
        (qbin_step 0x00000000ffff0000 16
          (qbin_step 0x7fffffff00000000 32 (1, t))))) in
  (if Z.land tmp 2 =? 0 then off else s16 (off + 1)) = 1 + Z.log2 t.
Proof.
  intros Ht.
  destruct (qbin_step_spec 63 32 1 t) as (o1 & t1 & E0 & E1 & H1 & B1); try lia.
  change (Z.shiftl (Z.ones (63 - 32)) 32) with 0x7fffffff00000000 in E0. rewrite E0.
  destruct (qbin_step_spec 32 16 o1 t1) as (o2 & t2 & E & E2 & H2 & B2); try lia.
  change (Z.shiftl (Z.ones (32 - 16)) 16) with 0x00000000ffff0000 in E. rewrite E.
  destruct (qbin_step_spec 16 8 o2 t2) as (o3 & t3 & E' & E3 & H3 & B3); try lia.
  change (Z.shiftl (Z.ones (16 - 8)) 8) with 0xff00 in E'. rewrite E'.
  destruct (qbin_step_spec 8 4 o3 t3) as (o4 & t4 & E'' & E4 & H4 & B4); try lia.
  change (Z.shiftl (Z.ones (8 - 4)) 4) with 0xf0 in E''. rewrite E''.
  destruct (qbin_step_spec 4 2 o4 t4) as (o5 & t5 & E''' & E5 & H5 & B5); try lia.
  change (Z.shiftl (Z.ones (4 - 2)) 2) with 0xc in E'''. rewrite E'''.
  assert (t5 = 1 ∨ t5 = 2 ∨ t5 = 3) as [->|[->| ->]] by lia; simpl in *; [lia| |].
  all: change (Z.log2 2) with 1 in *; change (Z.log2 3) with 1 in *.
  all: rewrite swrap_id by (try lia; unfold srange; change (2 ^ (16 - 1)) with (2 ^ 15); lia); lia.
Qed.

(** C26: quantize() puts every 64-bit value in the bucket the consumer prints it
    under: the bucket's number is within the data, a value of zero goes to the
    zero bucket, and any other value lies between its bucket's value and twice
    that value, excluded unless it is the smallest value there is. *)
Theorem dt_agg_qbin_correct val : srange 64 val →
  let b := dt_agg_qbin val in
  0 <= b < DTRACE_QUANTIZE_NBUCKETS ∧
  (b = DTRACE_QUANTIZE_ZEROBUCKET ↔ val = 0) ∧
  (0 < val → DTRACE_QUANTIZE_BUCKETVAL b <= val < 2 * DTRACE_QUANTIZE_BUCKETVAL b) ∧
  (val < 0 → 2 * DTRACE_QUANTIZE_BUCKETVAL b <= val <= DTRACE_QUANTIZE_BUCKETVAL b ∧
    (2 * DTRACE_QUANTIZE_BUCKETVAL b = val → val = - 2 ^ 63)).
Proof.
  intros Hv b. unfold srange in Hv. change (64 - 1) with 63 in Hv.
  destruct (decide (val = - 2 ^ 63)) as [->|Hmin]; [vm_compute; intuition congruence|].
  assert (b = 63 + Z.sgn val * (if val =? 0 then 0 else 1 + Z.log2 (Z.abs val))) as ->.
  { unfold b, dt_agg_qbin. destruct (Z.eqb_spec val 0) as [->|H0]; [done|].
    assert (u64 val ≠ 0x8000000000000000).
    { destruct (Z.ltb_spec val 0); rewrite wrap_diff by lia;
        [replace (val <? 0) with true by lia|replace (val <? 0) with false by lia]; lia. }
    replace (u64 val =? _) with false by lia.
    assert ((if val <? 0 then u64 (u64 val * -1) else u64 val) = Z.abs val) as ->.
    { destruct (Z.ltb_spec val 0).
      - unfold wrap. rewrite Z.mul_mod_idemp_l by done. rewrite Z.mod_small; lia.
      - rewrite wrap_id by (unfold urange; lia). lia. }
    pose proof (qbin_search (Z.abs val) ltac:(lia)) as Hq.
    pose proof (Z.log2_nonneg (Z.abs val)).
    assert (Z.log2 (Z.abs val) < 63) by (apply Z.log2_lt_pow2; lia).
    destruct (qbin_step 0xc 2 _) as [off tmp]. rewrite Hq.
    destruct (Z.ltb_spec val 0).
    - rewrite (swrap_id 16 ((1 + _) * -1)) by (try lia; unfold srange; change (16 - 1) with 15; lia).
      rewrite swrap_id by (try lia; unfold srange; change (16 - 1) with 15; lia). lia.
    - rewrite swrap_id by (try lia; unfold srange; change (16 - 1) with 15; lia). lia. }
  unfold DTRACE_QUANTIZE_BUCKETVAL, DTRACE_QUANTIZE_NBUCKETS, DTRACE_QUANTIZE_ZEROBUCKET.
  change (8 * 8 - 1) with 63. destruct (Z.eqb_spec val 0) as [->|H0]; [simpl; lia|].
  pose proof (Z.log2_nonneg (Z.abs val)).
  destruct (Z.log2_spec (Z.abs val) ltac:(lia)) as [Hlo Hhi]. rewrite Z.pow_succ_r in Hhi by lia.
  assert (Z.log2 (Z.abs val) < 63) by (apply Z.log2_lt_pow2; lia).
  set (e := Z.log2 (Z.abs val)) in *.
  destruct (decide (0 < val)).
  - rewrite Z.sgn_pos by lia.
    replace (63 + 1 * (1 + e) <? 63) with false by lia.
    replace (63 + 1 * (1 + e) =? 63) with false by lia.
    replace (63 + 1 * (1 + e) - 63 - 1) with e by lia.
    rewrite Z.shiftl_1_l. lia.
  - rewrite Z.sgn_neg by lia.
    replace (63 + -1 * (1 + e) <? 63) with true by lia.
    replace (63 - 1 - (63 + -1 * (1 + e))) with e by lia.
    rewrite Z.shiftl_1_l. lia.
Qed.

Lemma dt_agg_qbin_correct_witness :
  let b := dt_agg_qbin (-12) in
  0 <= b < DTRACE_QUANTIZE_NBUCKETS ∧
  (b = DTRACE_QUANTIZE_ZEROBUCKET ↔ -12 = 0) ∧
  (0 < -12 → DTRACE_QUANTIZE_BUCKETVAL b <= -12 < 2 * DTRACE_QUANTIZE_BUCKETVAL b) ∧
  (-12 < 0 → 2 * DTRACE_QUANTIZE_BUCKETVAL b <= -12 <= DTRACE_QUANTIZE_BUCKETVAL b ∧
    (2 * DTRACE_QUANTIZE_BUCKETVAL b = -12 → -12 = - 2 ^ 63)).
Proof. apply (dt_agg_qbin_correct (-12)). done. Defined.

(** Lquantize() puts a value below the base in bucket 0, a value at or
    above the upper limit in the last bucket, and any other value in the bucket
    of the step it falls in.  It is undefined for a value whose distance to the
    base does not fit in 63 bits. *)
Theorem dt_agg_lqbin_correct val base levels step :
  srange 64 val → srange 32 base → urange 64 (levels + 1) → 0 <= levels → 0 < step < 2 ^ 64 →
  match dt_agg_lqbin val base levels step with
  | None => 2 ^ 63 <= val - base
  | Some b => 0 <= b <= levels + 1 ∧ (b = 0 ↔ val < base) ∧
      (0 < b <= levels → base + (b - 1) * step <= val < base + b * step) ∧
      (b = levels + 1 ↔ base + levels * step <= val)
  end.
Proof.
  unfold srange, urange. intros Hv Hb Hl Hl0 Hs. unfold dt_agg_lqbin.
  replace (step =? 0) with false by lia. cbn [orb].
  destruct (Z.ltb_spec val base).
  { assert (0 <= levels * step) by nia. split_and!; lia. }
  destruct (Z.leb_spec (2 ^ 63) (val - base)); [done|].
  rewrite (wrap_id 64 (val - base)) by (unfold urange; lia).
  pose proof (Z.div_mod (val - base) step ltac:(lia)).
  pose proof (Z.mod_pos_bound (val - base) step ltac:(lia)).
  pose proof (Z.div_pos (val - base) step ltac:(lia) ltac:(lia)).
  set (q := (val - base) / step) in *. set (r := (val - base) mod step) in *. clearbody q r.
  destruct (Z.ltb_spec levels q).
  - rewrite wrap_id by (unfold urange; lia). split_and!; try lia. split; [nia|lia].
  - rewrite wrap_id by (unfold urange; lia). split_and!; nia.
Qed.

Lemma dt_agg_lqbin_correct_witness :
  match dt_agg_lqbin 37 10 5 10 with
  | None => 2 ^ 63 <= 37 - 10
  | Some b => 0 <= b <= 5 + 1 ∧ (b = 0 ↔ 37 < 10) ∧
      (0 < b <= 5 → 10 + (b - 1) * 10 <= 37 < 10 + b * 10) ∧ (b = 5 + 1 ↔ 10 + 5 * 10 <= 37)
  end.
Proof. apply (dt_agg_lqbin_correct 37 10 5 10); unfold srange, urange; lia. Defined.

(** ** Speculations *)

Section SpeculationProofs.
Context {M : Type} `{!BpfMap M dt_bpf_specs, !BpfMapLaws M dt_bpf_specs}.
Variable NSPEC : Z.
Implicit Types specs : M.

Lemma SEARCH_spec specs ns r specs' :
  SEARCH NSPEC specs ns = (r, specs') → 0 ∉ ns →
  (r = 0 ∧ ∀ j, map_lookup_elem specs' j = map_lookup_elem specs j) ∨
  (r ∈ ns ∧ r <= NSPEC ∧ map_lookup_elem specs r = None ∧
   map_lookup_elem specs' r = Some (mk_specs 0 0) ∧
   ∀ j, j ≠ r → map_lookup_elem specs' j = map_lookup_elem specs j).
Proof.
  revert specs. induction ns as [|n ns IH]; intros specs; cbn [SEARCH].
  { intros [= <- <-] _. by left. }
  destruct (Z.ltb_spec NSPEC n). { intros [= <- <-] _. by left. }
  destruct (map_update_elem specs n (mk_specs 0 0) BPF_NOEXIST) as [r1 specs1] eqn:E.
  destruct (Z.eqb_spec r1 0) as [->|Hr1]; intros Hs Hn.
  - injection Hs as <- <-. right. destruct (update_ok _ _ _ _ _ _ E) as (_ & H1 & H2); [lia|].
    split_and!; [left|lia| |done|done].
    destruct (map_lookup_elem specs n) eqn:El; [|done].
    pose proof (update_noexist _ _ _ _ _ E (mk_is_Some _ _ El)). lia.
  - assert (r1 < 0) as Hneg.
    { destruct (decide (r1 < 0)); [done|]. destruct (update_ok _ _ _ _ _ _ E) as [? _]; [lia|done]. }
    pose proof (update_fails _ _ _ _ _ _ E Hneg) as Hsame.
    destruct (IH specs1 Hs) as [[-> Hj]|(Hin & Hle & H1 & H2 & H3)]; [set_solver| |].
    + left. split; [done|]. intros j. by rewrite Hj.
    + right. split_and!; [by right|done|by rewrite <- Hsame|done|].
      intros j Hj. by rewrite H3.
Qed.

(** What each operation does to an entry: an id is given out only while it is
    free, and an entry that is draining changes only when it is freed. *)
Lemma spec_step_spec specs o id :
  map_lookup_elem (spec_step NSPEC specs o).2 id =
    match map_lookup_elem specs id with
    | None => if decide (o = Speculation ∧ (spec_step NSPEC specs o).1 = id ∧ id ≠ 0)
              then Some (mk_specs 0 0) else None
    | Some s =>
        if decide (o = Free id) then None
        else if decide (o = Drain id) then Some (mk_specs (written s) 1)
        else if decide (o = Speculate id ∧ draining s = 0) then Some (mk_specs (u64 (written s + 1)) 0)
        else Some s
    end.
Proof.
  destruct o as [|id'|id'|id'].
  - cbn [spec_step]. destruct (dt_speculation NSPEC specs) as [r specs'] eqn:E. cbn [fst snd].
    apply SEARCH_spec in E; [|set_solver].
    destruct (map_lookup_elem specs id) as [s|] eqn:El.
    + rewrite !decide_False by naive_solver.
      destruct E as [[_ E]|(_ & _ & E1 & E2 & E3)]; [by rewrite E|]. rewrite E3; [done|congruence].
    + destruct E as [[-> E]|(Hin & _ & E1 & E2 & E3)].
      * rewrite decide_False by naive_solver. by rewrite E.
      * destruct (decide (r = id)) as [->|Hne].
        -- rewrite decide_True; [done|]. split_and!; [done..|]. intros ->. set_solver.
        -- rewrite decide_False by naive_solver. by rewrite E3.
  - cbn [spec_step]. unfold dt_speculation_speculate.
    destruct (map_lookup_elem specs id') as [s'|] eqn:El'; cbn [snd].
    2:{ destruct (map_lookup_elem specs id) as [s|] eqn:El; [|by rewrite decide_False by naive_solver].
        rewrite !decide_False by naive_solver. done. }
    destruct (Z.eqb_spec (draining s') 0) as [Hd|Hd]; cbn [negb snd].
    + destruct (store_lookup specs id' (mk_specs (u64 (written s' + 1)) (draining s'))) as [H1 H2]; [done|].
      destruct (decide (id = id')) as [->|Hne].
      * rewrite H1, El'. rewrite (decide_False (P := Speculate id' = Free id')), (decide_False (P := Speculate id' = Drain id')) by done.
        rewrite decide_True by done. by rewrite Hd.
      * rewrite H2 by done. destruct (map_lookup_elem specs id) as [s|]; rewrite !decide_False by naive_solver; done.
    + destruct (map_lookup_elem specs id) as [s|] eqn:El; [|by rewrite decide_False by naive_solver].
      rewrite !decide_False by naive_solver. done.
  - cbn [spec_step]. unfold dt_speculation_set_drainable.
    destruct (map_lookup_elem specs id') as [s'|] eqn:El'; cbn [fst snd].
    + destruct (store_lookup specs id' (mk_specs (written s') 1)) as [H1 H2]; [done|].
      destruct (decide (id = id')) as [->|Hne].
      * rewrite H1, El'. by rewrite decide_False, decide_True by done.
      * rewrite H2 by done. destruct (map_lookup_elem specs id) as [s|]; rewrite !decide_False by naive_solver; done.
    + assert (∀ b : bool, (if b then (0, specs, false) else (-1, specs, true)).1.2 = specs) as ->
        by by intros [].
      destruct (map_lookup_elem specs id) as [s|] eqn:El; rewrite !decide_False by naive_solver; done.
  - cbn [spec_step snd]. unfold spec_free.
    destruct (map_delete_elem specs id') as [r specs'] eqn:E. cbn [snd].
    apply delete_lookup in E as [H1 H2]. destruct (decide (id = id')) as [->|Hne].
    + rewrite H1. destruct (map_lookup_elem specs id') as [s|];
        [by rewrite decide_True|by rewrite decide_False by naive_solver].
    + rewrite H2 by done. destruct (map_lookup_elem specs id) as [s|]; rewrite !decide_False by naive_solver; done.
Qed.

(** The calls of speculate() for an id before its first commit() or discard(). *)
Fixpoint speculated (id : Z) (ops : list spec_op) : Z :=
  match ops with
  | [] => 0
  | Speculate i :: ops => (if decide (i = id) then 1 else 0) + speculated id ops
  | Drain i :: ops => if decide (i = id) then 0 else speculated id ops
  | _ :: ops => speculated id ops
  end.

Lemma spec_run_cons specs o ops :
  spec_run NSPEC specs (o :: ops) = spec_run NSPEC (spec_step NSPEC specs o).2 ops.
Proof. done. Qed.

Lemma spec_run_draining ops specs id w :
  Free id ∉ ops → map_lookup_elem specs id = Some (mk_specs w 1) →
  map_lookup_elem (spec_run NSPEC specs ops) id = Some (mk_specs w 1).
Proof.
  revert specs. induction ops as [|o ops IH]; intros specs Hf Hs; [done|].
  rewrite spec_run_cons. apply IH; [set_solver|]. rewrite spec_step_spec, Hs.
  rewrite decide_False by set_solver. case_decide; [done|]. by rewrite decide_False by naive_solver.
Qed.

Lemma spec_run_active ops specs id w :
  Free id ∉ ops → map_lookup_elem specs id = Some (mk_specs w 0) → urange 64 w →
  map_lookup_elem (spec_run NSPEC specs ops) id =
    Some (mk_specs (u64 (w + speculated id ops)) (if decide (Drain id ∈ ops) then 1 else 0)).
Proof.
  revert specs w. induction ops as [|o ops IH]; intros specs w Hf Hs Hw.
  { rewrite decide_False by set_solver. cbn [spec_run foldl speculated].
    rewrite Z.add_0_r, wrap_id by done. done. }
  rewrite spec_run_cons. pose proof (spec_step_spec specs o id) as Hstep. rewrite Hs in Hstep.
  rewrite decide_False in Hstep by set_solver. cbn [written draining] in Hstep.
  destruct (decide (o = Drain id)) as [->|Hd].
  { rewrite (spec_run_draining ops _ id w) by (done || set_solver).
    rewrite decide_True by set_solver. cbn [speculated]. rewrite decide_True by done.
    by rewrite Z.add_0_r, wrap_id. }
  assert (speculated id (o :: ops) = (if decide (o = Speculate id) then 1 else 0) + speculated id ops) as ->.
  { destruct o as [|i|i|i]; cbn [speculated]; repeat case_decide; try congruence; lia. }
  replace (if decide (Drain id ∈ o :: ops) then 1 else 0) with (if decide (Drain id ∈ ops) then 1 else 0)
    by (repeat case_decide; set_solver).
  destruct (decide (o = Speculate id)) as [->|Hsp].
  - rewrite decide_True in Hstep by done. erewrite (IH _ (u64 (w + 1))); [|set_solver|done|by apply wrap_range].
    unfold wrap. rewrite Z.add_mod_idemp_l by done. do 3 f_equal. lia.
  - rewrite decide_False in Hstep by naive_solver. rewrite (IH _ w); [|set_solver|done|done]. done.
Qed.


End SpeculationProofs.


(** ** Thread-local variables *)

Lemma tvar_key_eq NCPUS pid_tgid cpu id :
  let tid := pid_tgid mod 2 ^ 32 in
  urange 32 NCPUS → 0 <= cpu < NCPUS → tid + NCPUS + 1 < 2 ^ 32 → urange 32 id → 0 <= pid_tgid →
  tvar_key NCPUS pid_tgid cpu id = 2 ^ 32 * (1 + if tid =? 0 then cpu else tid + NCPUS) + id.
Proof.
  intros tid Hn Hc Ht Hid Hp. unfold tvar_key. unfold urange in *.
  assert (Z.land pid_tgid 0xffffffff = tid) as ->.
  { change 0xffffffff with (Z.ones 32). by rewrite Z.land_ones. }
  pose proof (Z.mod_pos_bound pid_tgid (2 ^ 32) ltac:(lia)). fold tid in H. clearbody tid.
  rewrite (wrap_id 32 NCPUS) by done. rewrite (wrap_id 64 (tid + NCPUS)) by (unfold urange; lia).
  set (k := if tid =? 0 then cpu else tid + NCPUS).
  assert (0 <= k /\ k + 1 < 2 ^ 32) by (unfold k; destruct (tid =? 0); lia). clearbody k.
  rewrite (wrap_id 64 (k + 1)) by (unfold urange; lia).
  rewrite Z.shiftl_mul_pow2 by lia. rewrite wrap_id by (unfold urange; lia).
  rewrite <- Z.add_nocarry_lor; [lia|].
  rewrite <- (Z.shiftl_mul_pow2 (k + 1) 32) by lia.
  bitwise i Hi. destruct (Z.ltb_spec i 32); [by rewrite Z.testbit_neg_r by lia|].
  by rewrite (testbit_high id 32), andb_false_r by lia.
Qed.

(** Whose variable it is: the idle thread of a CPU has thread id 0. *)
Definition owner (pid_tgid cpu : Z) : Z + Z :=
  let tid := pid_tgid mod 2 ^ 32 in if tid =? 0 then inl cpu else inr tid.

(** The thread and the variable are such that keys do not overflow. *)
Definition tvar_ok (NCPUS pid_tgid cpu id : Z) : Prop :=
  0 <= cpu < NCPUS ∧ pid_tgid mod 2 ^ 32 + NCPUS + 1 < 2 ^ 32 ∧ 0 <= id < 2 ^ 32 ∧ 0 <= pid_tgid.

Lemma tvar_key_inj NCPUS p1 c1 id1 p2 c2 id2 :
  tvar_ok NCPUS p1 c1 id1 → tvar_ok NCPUS p2 c2 id2 →
  tvar_key NCPUS p1 c1 id1 = tvar_key NCPUS p2 c2 id2 → owner p1 c1 = owner p2 c2 ∧ id1 = id2.
Proof.
  intros (Hc1 & Ht1 & Hi1 & Hp1) (Hc2 & Ht2 & Hi2 & Hp2).
  pose proof (Z.mod_pos_bound p1 (2 ^ 32) ltac:(lia)). pose proof (Z.mod_pos_bound p2 (2 ^ 32) ltac:(lia)).
  rewrite !tvar_key_eq by (unfold urange; lia). unfold owner.
  generalize dependent (p1 mod 2 ^ 32). generalize dependent (p2 mod 2 ^ 32). intros t2 Ht2 ? t1 Ht1 ? E.
  destruct (Z.eqb_spec t1 0), (Z.eqb_spec t2 0); split; try f_equal; lia.
Qed.

Lemma tvar_key_pos NCPUS p c id : tvar_ok NCPUS p c id → 0 < tvar_key NCPUS p c id.
Proof.
  intros (Hc & Ht & Hi & Hp). pose proof (Z.mod_pos_bound p (2 ^ 32) ltac:(lia)).
  rewrite tvar_key_eq by (unfold urange; lia). destruct (_ =? 0); lia.
Qed.

Section TvarProofs.
Context {M V : Type} `{!BpfMap M V, !BpfMapLaws M V}.
Implicit Types dvars : M.

(** What a call leaves of the entry itself. *)
Definition tvar_outcome dvars dvars' (key store nval : Z) (r : option Z) : Prop :=
  let old := map_lookup_elem dvars key in
  let new := map_lookup_elem dvars' key in
  if store =? 0 then new = old ∧ r = match old with Some _ => Some key | None => None end
  else if nval =? 0 then new = None ∧ r = None
  else
    match r with
    | Some k => k = key ∧ is_Some new ∧ new = match old with Some _ => old | None => map_lookup_elem dvars 0 end
    | None => old = None ∧ new = None
    end.

Lemma get_tvar_spec NCPUS pid_tgid cpu dvars id store nval r dvars' :
  let key := tvar_key NCPUS pid_tgid cpu id in
  dt_get_tvar NCPUS pid_tgid cpu dvars id store nval = (r, dvars') →
  tvar_outcome dvars dvars' key store nval r ∧
  ∀ j, j ≠ key → map_lookup_elem dvars' j = map_lookup_elem dvars j.
Proof.
  intros key. unfold dt_get_tvar, tvar_outcome. fold key.
  destruct (Z.eqb_spec store 0) as [->|Hs]; cbn [negb andb].
  { destruct (map_lookup_elem dvars key) eqn:E; intros [= <- <-]; by rewrite E. }
  destruct (Z.eqb_spec nval 0) as [->|Hn].
  { destruct (map_delete_elem dvars key) as [r0 d0] eqn:E. intros [= <- <-]. cbn [snd].
    apply delete_lookup in E as [H1 H2]. done. }
  destruct (map_lookup_elem dvars key) as [v|] eqn:E.
  { intros [= <- <-]. by rewrite E. }
  destruct (map_lookup_elem dvars 0) as [v|] eqn:E0; [|intros [= <- <-]; by rewrite E].
  destruct (map_update_elem dvars key v BPF_ANY) as [r0 d0] eqn:Eu.
  destruct (Z.ltb_spec r0 0).
  - intros [= <- <-]. pose proof (update_fails _ _ _ _ _ _ Eu ltac:(lia)) as Hsame.
    rewrite Hsame, E. split; [done|]. intros; apply Hsame.
  - destruct (update_ok _ _ _ _ _ _ Eu ltac:(lia)) as (_ & H1 & H2). rewrite H1.
    intros [= <- <-]. rewrite H1. done.
Qed.

(** C27: A load of a thread-local variable changes nothing and finds the
    variable if it exists; storing zero deletes it; any other store finds it or
    creates it with the default value, or reports that this was not possible.
    No call changes a variable of another thread, another variable of the same
    thread or the default value. *)
Theorem dt_get_tvar_correct NCPUS pid_tgid cpu dvars id store nval r dvars' :
  tvar_ok NCPUS pid_tgid cpu id →
  dt_get_tvar NCPUS pid_tgid cpu dvars id store nval = (r, dvars') →
  tvar_outcome dvars dvars' (tvar_key NCPUS pid_tgid cpu id) store nval r ∧
  map_lookup_elem dvars' 0 = map_lookup_elem dvars 0 ∧
  ∀ p c i, tvar_ok NCPUS p c i → ¬ (owner p c = owner pid_tgid cpu ∧ i = id) →
    map_lookup_elem dvars' (tvar_key NCPUS p c i) = map_lookup_elem dvars (tvar_key NCPUS p c i).
Proof.
  intros Hok E. apply get_tvar_spec in E as [Hout Hoth]. split; [done|]. split.
  - apply Hoth. pose proof (tvar_key_pos _ _ _ _ Hok). lia.
  - intros p c i Hok' Hne. apply Hoth. intros Heq. by apply Hne, (tvar_key_inj NCPUS).
Qed.

End TvarProofs.

Lemma dt_get_tvar_correct_witness :
  let hm := hash_map 4 in let m := <[0 := 100]> ∅ : gmap Z Z in
  map_lookup_elem (dt_get_tvar 8 4294967297 3 m 1280 1 1).2 (tvar_key 8 4294967298 3 1280) = None.
Proof.
  intros hm m.
  destruct (@dt_get_tvar_correct _ _ hm (hash_map_laws 4) 8 4294967297 3 m 1280 1 1
    (Some (tvar_key 8 4294967297 3 1280)) (dt_get_tvar 8 4294967297 3 m 1280 1 1).2) as (_ & _ & H3);
    [done|vm_compute; reflexivity|].
  rewrite H3; [vm_compute; reflexivity|done|vm_compute; intros [[=] _]].
Defined.

(** ** Built-in variables *)

Section BvarProofs.
Variables (dt_error : dt_mstate → dt_mstate) (env : helpers) (mst : dt_mstate) (id : Z).

(** A result without a fault, or with one that was reported. *)
Definition bvar_outcome (r : option (Z * dt_mstate)) : Prop :=
  ∃ v mst', r = Some (v, mst') ∧
    (mst' = mst ∨
     (id = 0x101 ∧ v = ktime_get_ns env ∧ mst' = set_tstamp mst v) ∨
     (v = 2 ^ 64 - 1 ∧ ∃ flt ill, (flt = DTRACEFLT_BADADDR ∨ flt = DTRACEFLT_ILLOP) ∧ fault mst' = flt ∧
        mst' = dt_probe_error dt_error mst (2 ^ 64 - 1) flt ill)).

Lemma bvar_ok v : bvar_outcome (Some (v, mst)).
Proof. exists v, mst. auto. Qed.

Lemma bvar_badaddr ill : bvar_outcome (error dt_error mst DTRACEFLT_BADADDR ill).
Proof. do 2 eexists. split; [done|]. right; right. split; [done|]. by exists DTRACEFLT_BADADDR, ill; auto. Qed.

Lemma bvar_illop ill : bvar_outcome (error dt_error mst DTRACEFLT_ILLOP ill).
Proof. do 2 eexists. split; [done|]. right; right. split; [done|]. by exists DTRACEFLT_ILLOP, ill; auto. Qed.

Lemma bvar_list (l : list Z) i : (i < length l)%nat → bvar_outcome (v ← l !! i; Some (v, mst)).
Proof. intros Hi. destruct (lookup_lt_is_Some_2 l i Hi) as [v ->]. apply bvar_ok. Qed.

Lemma bvar_stack r : bvar_outcome (if u64 r <? 0 then error dt_error mst 9 0 else Some (u64 r / 8, mst)).
Proof.
  pose proof (wrap_range 64 r ltac:(lia)) as H. unfold urange in H.
  replace (u64 r <? 0) with false by lia. apply bvar_ok.
Qed.

(** Reading any built-in variable returns.  Either no fault is reported,
    and the machine state is unchanged but for the time stamp that the first
    read of [timestamp] caches; or the result is -1 and the fault, one of a bad
    address and an illegal operation, is recorded after the ERROR probe ran. *)
Theorem dt_get_bvar_correct strtab STBSZ STKSIZ BOOTTM :
  length (argv mst) = 10%nat → (∀ flags, length (get_stack env 16 flags).2 = 2%nat) →
  bvar_outcome (dt_get_bvar dt_error env strtab STBSZ STKSIZ BOOTTM mst id).
Proof.
  intros Ha Hst.
  destruct (decide (id = 0x101)) as [Eid|Hne].
  { rewrite Eid. cbn [dt_get_bvar]. destruct (tstamp mst =? 0); [|apply bvar_ok].
    do 2 eexists. split; [done|]. auto. }
  pose proof bvar_ok. pose proof bvar_badaddr. pose proof bvar_illop.
  unfold dt_get_bvar.
  repeat first
    [ done
    | apply bvar_list; rewrite Ha; vm_compute; lia
    | apply bvar_stack
    | match goal with
      | |- bvar_outcome (let '(_, _) := get_stack env 16 ?f in _) =>
          pose proof (Hst f); destruct (get_stack env 16 f) as [? ?]
      | |- bvar_outcome (v ← ?l !! 1%nat; _) => apply bvar_list; simpl in *; lia
      end
    | case_match; simplify_eq ].
Qed.

End BvarProofs.

Lemma dt_get_bvar_correct_witness :
  let mst := mk_mst 1 2 3 0 0 0 0 (replicate 10 7) in
  let env := mk_helpers 0 55 0 0 (λ _ _, (-14, [0; 0])) (λ _ _, None) (λ _, None) (λ _, Some 8) None in
  bvar_outcome id env mst 0x11d (dt_get_bvar id env 1000 100 64 5 mst 0x11d).
Proof. apply dt_get_bvar_correct; done. Defined.

(** A failure of [bpf_get_stack] is never reported as the bad-stack fault:
    its negative result becomes an enormous depth of the stack. *)
Theorem dt_get_bvar_stackdepth dt_error env strtab STBSZ STKSIZ BOOTTM mst id :
  let r := (get_stack env (u32 STKSIZ) (if id =? 0x11b then BPF_F_USER_STACK else 0)).1 in
  id = 0x110 ∨ id = 0x11b → -4096 < r < 0 →
  dt_get_bvar dt_error env strtab STBSZ STKSIZ BOOTTM mst id = Some ((2 ^ 64 + r) / 8, mst).
Proof.
  intros r Hid Hr. assert (u64 r = 2 ^ 64 + r) as Hu.
  { rewrite wrap_diff by lia. replace (r <? 0) with true by lia. lia. }
  destruct Hid as [-> | ->]; cbn [dt_get_bvar]; fold r; rewrite Hu; by replace (2 ^ 64 + r <? 0) with false by lia.
Qed.

Lemma dt_get_bvar_stackdepth_witness :
  let mst := mk_mst 1 2 3 0 0 0 0 (replicate 10 7) in
  let env := mk_helpers 0 55 0 0 (λ _ _, (-14, [0; 0])) (λ _ _, None) (λ _, None) (λ _, Some 8) None in
  dt_get_bvar id env 1000 100 64 5 mst 0x110 = Some ((2 ^ 64 - 14) / 8, mst).
Proof. apply (dt_get_bvar_stackdepth id); [by left|done]. Defined.

End BpfFuncs.
