(* ===== verification/Bpf.v ===== *)
(** * The BPF machine

    A model of the machine that the code in bpf/*.S is written for: eleven
    64-bit registers, memory made of disjoint blocks of bytes, the instructions
    those files use, calls of other functions and of the kernel's helpers.

    A value is a 64-bit integer or a pointer into a block, as the kernel's
    verifier tracks them.  A load or store outside a block, the use of a
    register or of bytes that were never written as a number, and arithmetic
    that the verifier refuses on a pointer have no result: that a program has a
    result includes that it does none of these. *)
From S2P Require Import Prelude.
From stdpp Require Export list_numbers.

#[global] Open Scope Z_scope.

Module Bpf.

(** ** Values and memory *)

Inductive val :=
  | Int (z : Z)
  | Ptr (b o : Z).

(** A byte of memory: never written, a byte of a number, or the [n]-th byte of
    a pointer. *)
Inductive memval :=
  | Undef
  | Byte (z : Z)
  | Frag (v : val) (n : nat).

#[export] Instance val_eq_dec : EqDecision val.
Proof. solve_decision. Defined.
#[export] Instance memval_eq_dec : EqDecision memval.
Proof. solve_decision. Defined.

Abbreviation mem := (gmap Z (list memval)).

Definition loadn (m : mem) (b o : Z) (n : nat) : option (list memval) :=
  l ← m !! b;
  if decide (0 <= o ∧ o + Z.of_nat n <= Z.of_nat (length l))
  then Some (take n (drop (Z.to_nat o) l)) else None.

(** The block [l] with [vs] stored at [o]. *)
Definition overwrite (l : list memval) (o : Z) (vs : list memval) : list memval :=
  take (Z.to_nat o) l ++ vs ++ drop (Z.to_nat o + length vs) l.

Definition storen (m : mem) (b o : Z) (vs : list memval) : option mem :=
  l ← m !! b;
  if decide (0 <= o ∧ o + Z.of_nat (length vs) <= Z.of_nat (length l))
  then Some (<[b := overwrite l o vs]> m) else None.

Definition byte_of (v : memval) : option Z := match v with Byte z => Some z | _ => None end.

Definition frags (v : val) : list memval := Frag v <$> seq 0 8.

(** The value that the bytes [vs] represent, and the bytes of a value. *)
Definition decode (vs : list memval) : option val :=
  match mapM byte_of vs with
  | Some bs => Some (Int (little_endian_to_Z 8 bs))
  | None =>
      match vs with
      | Frag v 0 :: _ => if decide (vs = frags v) then Some v else None
      | _ => None
      end
  end.

Definition encode (n : nat) (v : val) : option (list memval) :=
  match v with
  | Int z => Some (Byte <$> Z_to_little_endian (Z.of_nat n) 8 z)
  | Ptr _ _ => if decide (n = 8%nat) then Some (frags v) else None
  end.

Definition load (m : mem) (b o : Z) (n : nat) : option val := vs ← loadn m b o n; decode vs.
Definition store (m : mem) (b o : Z) (n : nat) (v : val) : option mem := vs ← encode n v; storen m b o vs.

(** ** Instructions *)

Inductive reg := r0 | r1 | r2 | r3 | r4 | r5 | r6 | r7 | r8 | r9 | fp.

Definition reg_idx (r : reg) : nat :=
  match r with
  | r0 => 0 | r1 => 1 | r2 => 2 | r3 => 3 | r4 => 4 | r5 => 5 | r6 => 6 | r7 => 7 | r8 => 8
  | r9 => 9 | fp => 10
  end%nat.

Inductive src :=
  | R (r : reg)
  | I (imm : Z).

Inductive alu := MOV | ADD | SUB | MUL | DIV | MOD | OR | AND | LSH | RSH | ARSH | XOR | NEG.
Inductive cond := JEQ | JNE | JGT | JGE | JLT | JLE | JSGT | JSGE | JSLT | JSLE.

(** A jump names a label, or skips a number of instructions. *)
Inductive target :=
  | Lab (l : string)
  | Rel (n : Z).

Inductive insn :=
  | Alu (op : alu) (dst : reg) (s : src)
  | Lddw (dst : reg) (imm : Z)
  | Ldx (n : nat) (dst base : reg) (off : Z)
  | Stx (n : nat) (base : reg) (off : Z) (s : reg)
  | St (n : nat) (base : reg) (off imm : Z)
  | Ja (t : target)
  | J (c : cond) (dst : reg) (s : src) (t : target)
  | Call (helper : Z)
  | CallF (f : string)
  | Exit.

(** Assembly text: labels and instructions. *)
Inductive item :=
  | L (l : string)
  | Op (i : insn).

(** The position of each label. *)
Fixpoint labels (its : list item) (pc : Z) : list (string * Z) :=
  match its with
  | [] => []
  | L l :: its => (l, pc) :: labels its pc
  | Op _ :: its => labels its (pc + 1)
  end.

Definition find_label (tab : list (string * Z)) (l : string) : option Z :=
  snd <$> find (λ e, bool_decide (fst e = l)) tab.

Definition resolve_target (tab : list (string * Z)) (pc : Z) (t : target) : option target :=
  match t with
  | Lab l => a ← find_label tab l; Some (Rel (a - (pc + 1)))
  | Rel n => Some (Rel n)
  end.

Definition resolve_insn (tab : list (string * Z)) (pc : Z) (i : insn) : option insn :=
  match i with
  | Ja t => t ← resolve_target tab pc t; Some (Ja t)
  | J c d s t => t ← resolve_target tab pc t; Some (J c d s t)
  | i => Some i
  end.

Fixpoint resolve (tab : list (string * Z)) (its : list item) (pc : Z) : option (list insn) :=
  match its with
  | [] => Some []
  | L _ :: its => resolve tab its pc
  | Op i :: its => i ← resolve_insn tab pc i; rest ← resolve tab its (pc + 1); Some (i :: rest)
  end.

(** The program a text stands for. *)
Definition assemble (its : list item) : list insn := default [] (resolve (labels its 0) its 0).

(** ** Execution *)

(** An immediate operand has 32 bits and is sign-extended. *)
Definition imm64 (i : Z) : Z := u64 (s32 i).

Definition alu_int (op : alu) (a b : Z) : Z :=
  match op with
  | MOV => b
  | ADD => u64 (a + b)
  | SUB => u64 (a - b)
  | MUL => u64 (a * b)
  | DIV => if b =? 0 then 0 else a / b
  | MOD => if b =? 0 then a else a mod b
  | OR => Z.lor a b
  | AND => Z.land a b
  | LSH => u64 (Z.shiftl a (Z.land b 63))
  | RSH => Z.shiftr a (Z.land b 63)
  | ARSH => u64 (Z.shiftr (s64 a) (Z.land b 63))
  | XOR => Z.lxor a b
  | NEG => u64 (- a)
  end.

Definition alu_val (op : alu) (a b : val) : option val :=
  match op, a, b with
  | MOV, _, v => Some v
  | _, Int a, Int b => Some (Int (alu_int op a b))
  | ADD, Ptr k o, Int b => Some (Ptr k (o + s64 b))
  | SUB, Ptr k o, Int b => Some (Ptr k (o - s64 b))
  | _, _, _ => None
  end.

Definition cond_int (c : cond) (a b : Z) : bool :=
  match c with
  | JEQ => a =? b | JNE => negb (a =? b)
  | JGT => b <? a | JGE => b <=? a | JLT => a <? b | JLE => a <=? b
  | JSGT => s64 b <? s64 a | JSGE => s64 b <=? s64 a
  | JSLT => s64 a <? s64 b | JSLE => s64 a <=? s64 b
  end.

Definition cond_val (c : cond) (a b : val) : option bool :=
  match c, a, b with
  | _, Int a, Int b => Some (cond_int c a b)
  | JEQ, Ptr _ _, Int 0 => Some false
  | JNE, Ptr _ _, Int 0 => Some true
  | _, _, _ => None
  end.

(** A register that holds no value cannot be read. *)
Definition regs := list (option val).

Definition rget (rs : regs) (r : reg) : option val := mjoin (rs !! reg_idx r).
Definition rset (rs : regs) (r : reg) (v : val) : regs := <[reg_idx r := Some v]> rs.

Definition sget (rs : regs) (s : src) : option val :=
  match s with R r => rget rs r | I i => Some (Int (imm64 i)) end.

(** The address [base + off]. *)
Definition addr (rs : regs) (base : reg) (off : Z) : option (Z * Z) :=
  match rget rs base with Some (Ptr b o) => Some (b, o + off) | _ => None end.

(** The first operand of a move is not read. *)
Definition alu_step (rs : regs) (op : alu) (d : reg) (s : src) : option regs :=
  b ← sget rs s;
  match op with
  | MOV => Some (rset rs d b)
  | _ => a ← rget rs d; v ← alu_val op a b; Some (rset rs d v)
  end.

(** The registers after a call: the callee's and the caller's part. *)
Definition after_call (rs : regs) (v : option val) : regs :=
  v :: None :: None :: None :: None :: None :: drop 6 rs.
Arguments after_call _ _ /.

(** The size of a stack frame; the frame pointer points to its end. *)
Abbreviation STACK := 512%nat.
Definition frame0 : list memval := replicate STACK Undef.

Section Machine.
(** The helpers: number, the five arguments, memory; and the functions. *)
Variable helper : Z → list (option val) → mem → option (val * mem).
Variable funs : string → option (list insn).

(** [run fuel P fb pc rs m] executes [P] from instruction [pc] in the stack
    frame [fb]; the result is register 0 and the memory. *)
Fixpoint run (fuel : nat) (P : list insn) (fb : Z) (pc : Z) (rs : regs) (m : mem) :
    option (option val * mem) :=
  match fuel with
  | O => None
  | S fuel =>
      i ← (if 0 <=? pc then P !! Z.to_nat pc else None);
      match i with
      | Alu op d s => rs ← alu_step rs op d s; run fuel P fb (pc + 1) rs m
      | Lddw d imm => run fuel P fb (pc + 1) (rset rs d (Int imm)) m
      | Ldx n d base off =>
          '(b, o) ← addr rs base off;
          v ← load m b o n; run fuel P fb (pc + 1) (rset rs d v) m
      | Stx n base off s =>
          '(b, o) ← addr rs base off;
          v ← rget rs s;
          m ← store m b o n v; run fuel P fb (pc + 1) rs m
      | St n base off imm =>
          '(b, o) ← addr rs base off;
          m ← store m b o n (Int (imm64 imm)); run fuel P fb (pc + 1) rs m
      | Ja (Rel n) => run fuel P fb (pc + 1 + n) rs m
      | Ja (Lab _) => None
      | J c d s (Rel n) =>
          a ← rget rs d; b ← sget rs s; t ← cond_val c a b;
          run fuel P fb (if t : bool then pc + 1 + n else pc + 1) rs m
      | J _ _ _ (Lab _) => None
      | Call h =>
          '(v, m) ← helper h (take 5 (drop 1 rs)) m;
          run fuel P fb (pc + 1) (after_call rs (Some v)) m
      | CallF f =>
          Q ← funs f;
          '(v, m) ← run fuel Q (fb - 1) 0
                      (None :: take 5 (drop 1 rs) ++ [None; None; None; None; Some (Ptr (fb - 1) 512)])
                      (<[fb - 1 := frame0]> m);
          run fuel P fb (pc + 1) (after_call rs v) (delete (fb - 1) m)
      | Exit => Some (rget rs r0, m)
      end
  end.

Definition runs_to (P : list insn) (fb pc : Z) (rs : regs) (m : mem) (v : option val) (m' : mem) : Prop :=
  ∃ fuel, run fuel P fb pc rs m = Some (v, m').

(** A function called with the arguments [args] in the frame [fb]. *)
Definition calls_to (P : list insn) (fb : Z) (args : list val) (m : mem) (v : option val) (m' : mem) : Prop :=
  ∃ m1, runs_to P fb 0
    (None :: (Some <$> args) ++ replicate (9 - length args) None ++ [Some (Ptr fb 512)])
    (<[fb := frame0]> m) v m1 ∧ m' = delete fb m1.

(** ** Rules of execution *)

Lemma run_mono fuel k P fb pc rs m r :
  run fuel P fb pc rs m = Some r → run (fuel + k) P fb pc rs m = Some r.
Proof.
  revert P fb pc rs m r. induction fuel as [|fuel IH]; intros P fb pc rs m r E; [done|].
  change (S fuel + k)%nat with (S (fuel + k)). cbn [run] in E |- *.
  destruct (if 0 <=? pc then P !! Z.to_nat pc else None) as [i|]; [|done]. cbn [mbind option_bind] in E |- *.
  destruct i; repeat first
    [ done | by apply IH
    | match type of E with
      | (?x ≫= _) = Some _ =>
          lazymatch x with
          | run _ _ _ _ _ _ => destruct x as [[? ?]|] eqn:Er; [rewrite (IH _ _ _ _ _ _ Er)|done]
          | _ => destruct x as [?|]; [|done]
          end; cbn [mbind option_bind] in E |- *
      end
    | case_match ].
Qed.

Definition fetch (P : list insn) (pc : Z) : option insn := if 0 <=? pc then P !! Z.to_nat pc else None.

Section Rules.
Variables (P : list insn) (fb pc : Z) (rs : regs) (m : mem) (v : option val) (m' : mem).

Lemma runs_alu op d s rs' : fetch P pc = Some (Alu op d s) → alu_step rs op d s = Some rs' →
  runs_to P fb (pc + 1) rs' m v m' → runs_to P fb pc rs m v m'.
Proof. intros E1 E2 [n E]. exists (S n). cbn [run]. fold (fetch P pc). rewrite E1. cbn [mbind option_bind]. by rewrite E2. Qed.

Lemma runs_lddw d imm : fetch P pc = Some (Lddw d imm) →
  runs_to P fb (pc + 1) (rset rs d (Int imm)) m v m' → runs_to P fb pc rs m v m'.
Proof. intros E1 [n E]. exists (S n). cbn [run]. fold (fetch P pc). by rewrite E1. Qed.

Lemma runs_ldx k d base off b o w : fetch P pc = Some (Ldx k d base off) →
  addr rs base off = Some (b, o) → load m b o k = Some w →
  runs_to P fb (pc + 1) (rset rs d w) m v m' → runs_to P fb pc rs m v m'.
Proof.
  intros E1 E2 E3 [n E]. exists (S n). cbn [run]. fold (fetch P pc). rewrite E1. cbn [mbind option_bind].
  rewrite E2. cbn [mbind option_bind]. by rewrite E3.
Qed.

Lemma runs_stx k base off s b o w m1 : fetch P pc = Some (Stx k base off s) →
  addr rs base off = Some (b, o) → rget rs s = Some w → store m b o k w = Some m1 →
  runs_to P fb (pc + 1) rs m1 v m' → runs_to P fb pc rs m v m'.
Proof.
  intros E1 E2 E3 E4 [n E]. exists (S n). cbn [run]. fold (fetch P pc). rewrite E1. cbn [mbind option_bind].
  rewrite E2. cbn [mbind option_bind]. rewrite E3. cbn [mbind option_bind]. by rewrite E4.
Qed.

Lemma runs_st k base off imm b o m1 : fetch P pc = Some (St k base off imm) →
  addr rs base off = Some (b, o) → store m b o k (Int (imm64 imm)) = Some m1 →
  runs_to P fb (pc + 1) rs m1 v m' → runs_to P fb pc rs m v m'.
Proof.
  intros E1 E2 E3 [n E]. exists (S n). cbn [run]. fold (fetch P pc). rewrite E1. cbn [mbind option_bind].
  rewrite E2. cbn [mbind option_bind]. by rewrite E3.
Qed.

Lemma runs_ja n : fetch P pc = Some (Ja (Rel n)) →
  runs_to P fb (pc + 1 + n) rs m v m' → runs_to P fb pc rs m v m'.
Proof. intros E1 [k E]. exists (S k). cbn [run]. fold (fetch P pc). by rewrite E1. Qed.

Lemma runs_j c d s n a b t : fetch P pc = Some (J c d s (Rel n)) →
  rget rs d = Some a → sget rs s = Some b → cond_val c a b = Some t →
  runs_to P fb (if t : bool then pc + 1 + n else pc + 1) rs m v m' → runs_to P fb pc rs m v m'.
Proof.
  intros E1 E2 E3 E4 [k E]. exists (S k). cbn [run]. fold (fetch P pc). rewrite E1. cbn [mbind option_bind].
  rewrite E2. cbn [mbind option_bind]. rewrite E3. cbn [mbind option_bind]. by rewrite E4.
Qed.

Lemma runs_call h w m1 : fetch P pc = Some (Call h) → helper h (take 5 (drop 1 rs)) m = Some (w, m1) →
  runs_to P fb (pc + 1) (after_call rs (Some w)) m1 v m' → runs_to P fb pc rs m v m'.
Proof.
  intros E1 E2 [k E]. exists (S k). cbn [run]. fold (fetch P pc). rewrite E1. cbn [mbind option_bind].
  by rewrite E2.
Qed.

Lemma runs_callf f Q w m1 : fetch P pc = Some (CallF f) → funs f = Some Q →
  runs_to Q (fb - 1) 0
    (None :: take 5 (drop 1 rs) ++ [None; None; None; None; Some (Ptr (fb - 1) 512)])
    (<[fb - 1 := frame0]> m) w m1 →
  runs_to P fb (pc + 1) (after_call rs w) (delete (fb - 1) m1) v m' → runs_to P fb pc rs m v m'.
Proof.
  intros E1 E2 [k1 E3] [k2 E]. exists (S (k1 + k2)). cbn [run]. fold (fetch P pc). rewrite E1.
  cbn [mbind option_bind]. rewrite E2. cbn [mbind option_bind].
  rewrite (run_mono _ k2 _ _ _ _ _ _ E3). cbn [mbind option_bind].
  rewrite Nat.add_comm. by apply run_mono.
Qed.

Lemma runs_exit : fetch P pc = Some Exit → v = rget rs r0 → m' = m → runs_to P fb pc rs m v m'.
Proof. intros E1 -> ->. exists 1%nat. cbn [run]. fold (fetch P pc). by rewrite E1. Qed.

End Rules.

End Machine.

(** ** Symbolic execution *)

(** Drop the conversions of numbers that are in range. *)
Ltac in_range :=
  repeat match goal with
  | |- context [wrap 64 ?x] => rewrite (wrap_id 64 x) by (unfold urange; lia)
  | |- context [swrap 64 ?x] =>
      rewrite (swrap_id 64 x) by (first [done|unfold srange; change (64 - 1) with 63; lia])
  end.

Ltac literals :=
  repeat match goal with
  | |- context [imm64 ?k] => let x := eval vm_compute in (imm64 k) in change (imm64 k) with x
  | |- context [Z.add 512 (Zneg ?b)] =>
      let x := eval vm_compute in (Z.add 512 (Zneg b)) in change (Z.add 512 (Zneg b)) with x
  | |- context [Z.land (Zpos ?a) (Zpos ?b)] =>
      let x := eval vm_compute in (Z.land (Zpos a) (Zpos b)) in change (Z.land (Zpos a) (Zpos b)) with x
  end.

Ltac reduce_state :=
  cbn [rset rget sget addr alu_step alu_val alu_int cond_val cond_int after_call reg_idx mjoin option_join
       lookup list_lookup insert list_insert mbind option_bind take drop app fst snd];
  literals.

Ltac next_pc :=
  lazymatch goal with
  | |- runs_to ?h ?f ?P ?fb (if ?b then ?x else ?y) ?rs ?m ?v ?m' =>
      let x' := eval vm_compute in x in let y' := eval vm_compute in y in
      change (runs_to h f P fb (if b then x' else y') rs m v m')
  | |- runs_to ?h ?f ?P ?fb ?pc ?rs ?m ?v ?m' =>
      let pc' := eval vm_compute in pc in change (runs_to h f P fb pc' rs m v m')
  end.

(** One instruction; what the rule for it needs and computation does not give
    is left as a goal before the rest of the run. *)
Ltac exec :=
  lazymatch goal with
  | |- runs_to _ _ ?P _ ?pc ?rs _ _ _ =>
      let i := eval vm_compute in (fetch P pc) in
      lazymatch i with
      | Some (Alu ?op ?d ?s) =>
          eapply runs_alu; [reflexivity|reduce_state; reflexivity|next_pc; reduce_state]
      | Some (Lddw _ _) => eapply runs_lddw; [reflexivity|next_pc; reduce_state]
      | Some (Ldx _ _ _ _) =>
          eapply runs_ldx; [reflexivity|reduce_state; reflexivity| |next_pc; reduce_state]
      | Some (Stx _ _ _ _) =>
          eapply runs_stx; [reflexivity|reduce_state; reflexivity|reduce_state; reflexivity| |next_pc; reduce_state]
      | Some (St _ _ _ _) =>
          eapply runs_st; [reflexivity|reduce_state; reflexivity|literals|next_pc; reduce_state]
      | Some (Ja _) => eapply runs_ja; [reflexivity|next_pc]
      | Some (J _ _ _ _) =>
          eapply runs_j; [reflexivity|reduce_state; reflexivity|reduce_state; reflexivity
                         |reduce_state; reflexivity|next_pc]
      | Some (Call _) => eapply runs_call; [reflexivity|reduce_state|next_pc; reduce_state]
      | Some (CallF _) => eapply runs_callf; [reflexivity|reflexivity|reduce_state|next_pc; reduce_state]
      | Some Exit => eapply runs_exit; [reflexivity|reduce_state|]
      end
  end.

(** A conditional jump that is taken, or not. *)
Ltac taken :=
  match goal with
  | |- runs_to _ _ _ _ (if ?b then _ else _) _ _ _ _ =>
      replace b with true
        by (symmetry; first [apply Z.leb_le|apply Z.ltb_lt|apply Z.eqb_eq|apply negb_true_iff, Z.eqb_neq]; lia)
  end.
Ltac not_taken :=
  match goal with
  | |- runs_to _ _ _ _ (if ?b then _ else _) _ _ _ _ =>
      replace b with false
        by (symmetry; first [apply Z.leb_gt|apply Z.ltb_ge|apply Z.eqb_neq|apply negb_false_iff, Z.eqb_eq]; lia)
  end.

(** Find a block in an updated memory. *)
Ltac block :=
  repeat first
    [ eassumption | apply lookup_insert_eq | rewrite lookup_insert_ne by (done || congruence)
    | rewrite lookup_delete_ne by (done || congruence) ].

(** The memory after a call, in which only the frame [fb] and the block [bd]
    were written. *)
Ltac mem_eq fb bd :=
  let k := fresh "k" in
  apply map_eq; intros k; destruct (decide (k = fb)) as [->|];
  [ rewrite lookup_delete_eq; rewrite ?lookup_insert_ne by (done || congruence); done
  | rewrite lookup_delete_ne by (done || congruence);
    destruct (decide (k = bd)) as [->|];
    repeat first [ done | rewrite !lookup_insert_eq | rewrite lookup_insert_ne by (done || congruence) ] ].

(** ** Loads and stores *)

Lemma load_byte (m : mem) b o l z :
  m !! b = Some l → 0 <= o → l !! Z.to_nat o = Some (Byte z) → load m b o 1 = Some (Int z).
Proof.
  intros Hm Ho Hl. unfold load, loadn. rewrite Hm. cbn [mbind option_bind].
  pose proof (lookup_lt_Some _ _ _ Hl). rewrite decide_True by lia. cbn [mbind option_bind].
  rewrite (drop_S l (Byte z) (Z.to_nat o)) by done. cbn [take]. unfold decode. simpl.
  by rewrite Z.shiftl_0_l, Z.lor_0_r.
Qed.

Lemma overwrite_one l o x : 0 <= o < Z.of_nat (length l) → overwrite l o [x] = <[Z.to_nat o := x]> l.
Proof.
  intros Ho. unfold overwrite. simpl. rewrite insert_take_drop by lia.
  do 2 f_equal. f_equal. lia.
Qed.

Lemma store_byte (m : mem) b o l z :
  m !! b = Some l → 0 <= o < Z.of_nat (length l) →
  store m b o 1 (Int z) = Some (<[b := <[Z.to_nat o := Byte (u8 z)]> l]> m).
Proof.
  intros Hm Ho. unfold store, encode. cbn [mbind option_bind].
  replace (Z_to_little_endian (Z.of_nat 1) 8 z) with [u8 z].
  2:{ change (Z.of_nat 1) with (Z.succ 0). rewrite Z_to_little_endian_succ by lia.
      rewrite Z_to_little_endian_0, Z.land_ones by lia. done. }
  unfold storen. rewrite Hm. cbn [mbind option_bind]. simpl length. rewrite decide_True by lia.
  cbn [fmap list_fmap]. by rewrite overwrite_one by lia.
Qed.

(** *** Spilled values *)

(** The eight bytes at [o] hold the value [v]. *)
Definition slot (l : list memval) (o : Z) (v : val) : Prop :=
  0 <= o ∧ o + 8 <= Z.of_nat (length l) ∧ decode (take 8 (drop (Z.to_nat o) l)) = Some v.

Definition val_ok (v : val) : Prop := match v with Int z => urange 64 z | Ptr _ _ => True end.

Lemma load_slot (m : mem) b o l v : m !! b = Some l → slot l o v → load m b o 8 = Some v.
Proof.
  intros Hm (H0 & H1 & Hd). unfold load, loadn. rewrite Hm. cbn [mbind option_bind].
  rewrite decide_True by lia. done.
Qed.

Lemma mapM_byte_of bs : mapM byte_of (Byte <$> bs) = Some bs.
Proof. apply mapM_fmap_Some. by intros. Qed.

Lemma encode_length n v vs : encode n v = Some vs → length vs = n.
Proof.
  destruct v as [z|b o]; simpl; [|case_decide; [|done]].
  - intros [= <-]. rewrite length_fmap. pose proof (length_Z_to_little_endian (Z.of_nat n) 8 z). lia.
  - intros [= <-]. by subst.
Qed.

Lemma decode_encode v vs : val_ok v → encode 8 v = Some vs → decode vs = Some v.
Proof.
  destruct v as [z|b o]; intros Hv.
  2:{ cbn [encode]. rewrite decide_True by done. intros [= <-]. unfold decode, frags.
      cbn [seq fmap list_fmap mapM byte_of mbind option_bind]. by rewrite decide_True. }
  intros E. assert (vs = Byte <$> Z_to_little_endian (Z.of_nat 8) 8 z) as -> by (cbn [encode] in E; congruence).
  unfold decode. rewrite mapM_byte_of. do 2 f_equal.
  rewrite little_endian_to_Z_to_little_endian by lia.
  change (Z.of_nat 8 * 8) with 64. by apply (wrap_id 64).
Qed.

Lemma overwrite_length l o vs :
  0 <= o → o + Z.of_nat (length vs) <= Z.of_nat (length l) → length (overwrite l o vs) = length l.
Proof. intros. unfold overwrite. rewrite !length_app, length_take, length_drop. lia. Qed.

Lemma overwrite_at l o vs :
  0 <= o → o + Z.of_nat (length vs) <= Z.of_nat (length l) →
  take (length vs) (drop (Z.to_nat o) (overwrite l o vs)) = vs.
Proof.
  intros. unfold overwrite. rewrite drop_app_length' by (rewrite length_take; lia).
  by rewrite take_app_length.
Qed.

Lemma overwrite_other l o vs o' n :
  0 <= o → o + Z.of_nat (length vs) <= Z.of_nat (length l) → 0 <= o' →
  o' + Z.of_nat n <= o ∨ o + Z.of_nat (length vs) <= o' →
  take n (drop (Z.to_nat o') (overwrite l o vs)) = take n (drop (Z.to_nat o') l).
Proof.
  intros H0 H1 H2 [H3|H3]; unfold overwrite.
  - rewrite drop_app_le by (rewrite length_take; lia).
    rewrite take_app_le by (rewrite length_drop, length_take; lia).
    rewrite <- (take_drop (Z.to_nat o) l) at 2.
    rewrite drop_app_le by (rewrite length_take; lia).
    by rewrite take_app_le by (rewrite length_drop, length_take; lia).
  - rewrite drop_app_ge by (rewrite length_take; lia). rewrite length_take.
    rewrite drop_app_ge by lia. rewrite drop_drop. do 2 f_equal. lia.
Qed.

Lemma store_slot (m : mem) b o l v :
  m !! b = Some l → 0 <= o → o + 8 <= Z.of_nat (length l) → val_ok v →
  ∃ l', store m b o 8 v = Some (<[b := l']> m) ∧ length l' = length l ∧ slot l' o v ∧
    ∀ o' w, slot l o' w → o' + 8 <= o ∨ o + 8 <= o' → slot l' o' w.
Proof.
  intros Hm H0 H1 Hv. assert (∃ vs, encode 8 v = Some vs) as [vs E] by (destruct v; simpl; eauto).
  pose proof (encode_length _ _ _ E) as Hl. exists (overwrite l o vs). unfold store. rewrite E.
  cbn [mbind option_bind]. unfold storen. rewrite Hm. cbn [mbind option_bind].
  rewrite decide_True by lia. split_and!; [done|by apply overwrite_length; lia| |].
  - split_and!; [done|rewrite overwrite_length; lia|].
    rewrite <- Hl. rewrite overwrite_at by lia. by apply decode_encode.
  - intros o' w (Ho & Ho1 & Hd) Hdis. split_and!; [done|rewrite overwrite_length; lia|].
    by rewrite overwrite_other by (rewrite ?Hl; lia).
Qed.

(** ** The assembler's mnemonics *)

Module Asm.
Coercion R : reg >-> src.
Coercion I : Z >-> src.
Definition mov (d : reg) (s : src) : item := Op (Alu MOV d s).
Definition add (d : reg) (s : src) : item := Op (Alu ADD d s).
Definition sub (d : reg) (s : src) : item := Op (Alu SUB d s).
Definition mul (d : reg) (s : src) : item := Op (Alu MUL d s).
Definition div (d : reg) (s : src) : item := Op (Alu DIV d s).
Definition or (d : reg) (s : src) : item := Op (Alu OR d s).
Definition and (d : reg) (s : src) : item := Op (Alu AND d s).
Definition lsh (d : reg) (s : src) : item := Op (Alu LSH d s).
Definition rsh (d : reg) (s : src) : item := Op (Alu RSH d s).
Definition arsh (d : reg) (s : src) : item := Op (Alu ARSH d s).
Definition xor (d : reg) (s : src) : item := Op (Alu XOR d s).
Definition lddw (d : reg) (imm : Z) : item := Op (Lddw d imm).
Definition ldxb (d base : reg) (off : Z) : item := Op (Ldx 1 d base off).
Definition ldxdw (d base : reg) (off : Z) : item := Op (Ldx 8 d base off).
Definition stxb (base : reg) (off : Z) (s : reg) : item := Op (Stx 1 base off s).
Definition stxdw (base : reg) (off : Z) (s : reg) : item := Op (Stx 8 base off s).
Definition stb (base : reg) (off imm : Z) : item := Op (St 1 base off imm).
Definition ja (t : target) : item := Op (Ja t).
Definition jeq (d : reg) (s : src) (t : target) : item := Op (J JEQ d s t).
Definition jne (d : reg) (s : src) (t : target) : item := Op (J JNE d s t).
Definition jgt (d : reg) (s : src) (t : target) : item := Op (J JGT d s t).
Definition jge (d : reg) (s : src) (t : target) : item := Op (J JGE d s t).
Definition jlt (d : reg) (s : src) (t : target) : item := Op (J JLT d s t).
Definition jle (d : reg) (s : src) (t : target) : item := Op (J JLE d s t).
Definition jsge (d : reg) (s : src) (t : target) : item := Op (J JSGE d s t).
Definition jslt (d : reg) (s : src) (t : target) : item := Op (J JSLT d s t).
Definition jsle (d : reg) (s : src) (t : target) : item := Op (J JSLE d s t).
Definition call (h : Z) : item := Op (Call h).
Definition callf (f : string) : item := Op (CallF f).
Definition exit : item := Op Exit.
End Asm.

(** ** The helpers that copy memory *)

Definition BPF_FUNC_probe_read : Z := 4.
Definition BPF_FUNC_probe_read_str : Z := 45.

(** The bytes of a string, of which at most [n] are read. *)
Fixpoint read_str (l : list memval) (n : nat) : option (list Z) :=
  match n with
  | O => Some []
  | S n =>
      match l with
      | Byte z :: l => if z =? 0 then Some [] else s ← read_str l n; Some (z :: s)
      | _ => None
      end
  end.

Definition zeros (s : list Z) : list memval := Byte <$> (s ++ [0]).

(** What bpf-helpers(7) says of [bpf_probe_read_str] and [bpf_probe_read], for
    memory that can be accessed and regions that do not overlap. *)
Class CopyHelpers (helper : Z → list (option val) → mem → option (val * mem)) := {
  probe_read_str_law m bd od size bs os ld ls s x y :
    m !! bd = Some ld → 0 <= od → od + size <= Z.of_nat (length ld) →
    m !! bs = Some ls → 0 <= os → bd ≠ bs → 0 < size →
    read_str (drop (Z.to_nat os) ls) (Z.to_nat size) = Some s →
    helper BPF_FUNC_probe_read_str [Some (Ptr bd od); Some (Int size); Some (Ptr bs os); x; y] m =
      Some (Int (Z.min (Z.of_nat (length s) + 1) size),
            <[bd := overwrite ld od (zeros (take (Z.to_nat size - 1) s))]> m);
  probe_read_law m bd od size bs os vs m' x y :
    bd ≠ bs → 0 <= size → loadn m bs os (Z.to_nat size) = Some vs → storen m bd od vs = Some m' →
    helper BPF_FUNC_probe_read [Some (Ptr bd od); Some (Int size); Some (Ptr bs os); x; y] m =
      Some (Int 0, m')
}.

(** Helpers that do just this. *)
Definition copy_helper (h : Z) (args : list (option val)) (m : mem) : option (val * mem) :=
  match args with
  | Some (Ptr bd od) :: Some (Int size) :: Some (Ptr bs os) :: _ =>
      if h =? BPF_FUNC_probe_read then
        vs ← loadn m bs os (Z.to_nat size);
        m ← storen m bd od vs;
        Some (Int 0, m)
      else if h =? BPF_FUNC_probe_read_str then
        ls ← m !! bs; ld ← m !! bd;
        s ← read_str (drop (Z.to_nat os) ls) (Z.to_nat size);
        Some (Int (Z.min (Z.of_nat (length s) + 1) size),
              <[bd := overwrite ld od (zeros (take (Z.to_nat size - 1) s))]> m)
      else None
  | _ => None
  end.

#[export] Instance copy_helper_laws : CopyHelpers copy_helper.
Proof.
  split.
  - intros m bd od size bs os ld ls s x y Hd Hod Hlen Hs Hos Hne Hsz Hr. simpl.
    by rewrite Hs, Hd; simpl; rewrite Hr.
  - intros m bd od size bs os vs m' x y Hne Hsz Hl Hst. simpl. rewrite Hl. simpl. by rewrite Hst.
Qed.

(** ** Strings in memory *)

Definition char (z : Z) : Prop := 0 < z < 256.

(** The block [l] has the string [s] at offset [o]. *)
Definition string_at (l : list memval) (o : Z) (s : list Z) : Prop :=
  0 <= o ∧ Forall char s ∧ ∃ rest, drop (Z.to_nat o) l = zeros s ++ rest.

Lemma zeros_cons z s : zeros (z :: s) = Byte z :: zeros s.
Proof. done. Qed.

Lemma zeros_length s : length (zeros s) = S (length s).
Proof. unfold zeros. rewrite length_fmap, length_app. simpl. lia. Qed.

Lemma zeros_app s1 s2 : zeros (s1 ++ s2) = (Byte <$> s1) ++ zeros s2.
Proof. unfold zeros. by rewrite <- app_assoc, fmap_app. Qed.

Lemma read_str_zeros s rest n : Forall char s → read_str (zeros s ++ rest) n = Some (take n s).
Proof.
  intros Hs. revert n. induction Hs as [|z s Hz Hs IH]; intros [|n]; try done.
  rewrite zeros_cons. cbn [app read_str]. destruct (Z.eqb_spec z 0); [unfold char in Hz; lia|].
  by rewrite IH.
Qed.

Lemma read_string l o s n : string_at l o s → read_str (drop (Z.to_nat o) l) n = Some (take n s).
Proof. intros (_ & Hs & rest & ->). by apply read_str_zeros. Qed.

Lemma string_at_length l o s : string_at l o s → o + Z.of_nat (length s) + 1 <= Z.of_nat (length l).
Proof.
  intros (Ho & _ & rest & E). apply (f_equal length) in E.
  rewrite length_drop, length_app, zeros_length in E. lia.
Qed.

Lemma string_at_byte l o s i z :
  string_at l o s → s !! i = Some z → l !! Z.to_nat (o + Z.of_nat i) = Some (Byte z).
Proof.
  intros (Ho & _ & rest & E) Hi. replace (Z.to_nat (o + Z.of_nat i)) with (Z.to_nat o + i)%nat by lia.
  rewrite <- lookup_drop, E. rewrite lookup_app_l by (rewrite zeros_length; apply lookup_lt_Some in Hi; lia).
  unfold zeros. rewrite list_lookup_fmap, lookup_app_l by (by eapply lookup_lt_Some). by rewrite Hi.
Qed.

Lemma overwrite_string l o s :
  0 <= o → Forall char s → o + Z.of_nat (length s) + 1 <= Z.of_nat (length l) →
  string_at (overwrite l o (zeros s)) o s.
Proof.
  intros Ho Hs Hl. split; [done|]. split; [done|]. eexists. unfold overwrite.
  by rewrite drop_app_length' by (rewrite length_take; lia).
Qed.

Lemma overwrite_app l o vs ws : 0 <= o → o + Z.of_nat (length vs + length ws) <= Z.of_nat (length l) →
  overwrite l o (vs ++ ws) = overwrite (overwrite l o vs) (o + Z.of_nat (length vs)) ws.
Proof.
  intros Ho Hl. unfold overwrite. rewrite !length_app.
  rewrite (take_app_ge (take _ l)) by (rewrite length_take; lia).
  rewrite take_app_length' by (rewrite length_take; lia).
  rewrite <- !app_assoc. do 3 f_equal.
  rewrite drop_app_ge by (rewrite length_take; lia). rewrite length_take.
  rewrite drop_app_ge by lia. rewrite drop_drop. f_equal. lia.
Qed.

Lemma overwrite_again l o vs ws : 0 <= o → (length vs <= length ws)%nat →
  o + Z.of_nat (length ws) <= Z.of_nat (length l) →
  overwrite (overwrite l o vs) o ws = overwrite l o ws.
Proof.
  intros Ho Hv Hw. unfold overwrite.
  rewrite take_app_length' by (rewrite length_take; lia). do 2 f_equal.
  rewrite drop_app_ge by (rewrite length_take; lia). rewrite length_take.
  rewrite drop_app_ge by lia. rewrite drop_drop. f_equal. lia.
Qed.

(** Writing [s2] over the end of the string [s1] appends it. *)
Lemma overwrite_append l o s1 s2 :
  0 <= o → o + Z.of_nat (length s1 + length s2) + 1 <= Z.of_nat (length l) →
  overwrite (overwrite l o (zeros s1)) (o + Z.of_nat (length s1)) (zeros s2) = overwrite l o (zeros (s1 ++ s2)).
Proof.
  intros Ho Hl. rewrite zeros_app. unfold zeros at 1. rewrite fmap_app.
  assert (length (Byte <$> s1) = length s1) as Hs by by rewrite length_fmap.
  rewrite (overwrite_app l o (Byte <$> s1) (Byte <$> [0])) by (rewrite ?length_fmap; cbn [length]; lia).
  rewrite Hs. rewrite overwrite_again.
  - rewrite overwrite_app by (rewrite ?Hs, ?zeros_length; lia). by rewrite Hs.
  - lia.
  - rewrite zeros_length. simpl. lia.
  - rewrite overwrite_length by (rewrite ?Hs; lia). rewrite zeros_length. lia.
Qed.

(** [bpf_probe_read_str] on a string. *)
Lemma probe_read_string `{!CopyHelpers helper} m bd od size bs os ld ls s x y :
  m !! bd = Some ld → m !! bs = Some ls → string_at ls os s → bd ≠ bs →
  0 <= od → 0 < size → od + size <= Z.of_nat (length ld) →
  helper BPF_FUNC_probe_read_str [Some (Ptr bd od); Some (Int size); Some (Ptr bs os); x; y] m =
    Some (Int (Z.min (Z.of_nat (length s) + 1) size),
          <[bd := overwrite ld od (zeros (take (Z.to_nat size - 1) s))]> m).
Proof.
  intros Hd Hs Hstr Hne Hod Hsz Hroom.
  rewrite (probe_read_str_law m bd od size bs os ld ls (take (Z.to_nat size) s)); try done.
  - rewrite take_take. do 3 f_equal; [rewrite length_take; lia|]. do 4 f_equal. lia.
  - by destruct Hstr.
  - by apply read_string.
Qed.

(** The block [l'] is [l] with the string [s] written at [o], and anything in
    the rest of the [n] bytes there. *)
Record wrote (l l' : list memval) (o n : Z) (s : list Z) : Prop := {
  wrote_string : string_at l' o s;
  wrote_length : length l' = length l;
  wrote_before : take (Z.to_nat o) l' = take (Z.to_nat o) l;
  wrote_after : drop (Z.to_nat (o + n)) l' = drop (Z.to_nat (o + n)) l
}.

Lemma wrote_overwrite l l1 o n s :
  0 <= o → o + n <= Z.of_nat (length l) → Z.of_nat (length s) < n → Forall char s →
  length l1 = length l → take (Z.to_nat o) l1 = take (Z.to_nat o) l →
  drop (Z.to_nat (o + n)) l1 = drop (Z.to_nat (o + n)) l →
  wrote l (overwrite l1 o (zeros s)) o n s.
Proof.
  intros Ho Hn Hs Hc Hl Hb Ha. split.
  - apply overwrite_string; [done|done|lia].
  - rewrite overwrite_length; rewrite ?zeros_length; lia.
  - unfold overwrite. by rewrite take_app_length' by (rewrite length_take; lia).
  - rewrite <- Ha. unfold overwrite. rewrite drop_app_ge by (rewrite length_take; lia).
    rewrite length_take, drop_app_ge by (rewrite zeros_length; lia). rewrite drop_drop. f_equal.
    rewrite zeros_length. lia.
Qed.

Lemma wrote_once l o n s :
  0 <= o → o + n <= Z.of_nat (length l) → Z.of_nat (length s) < n → Forall char s →
  wrote l (overwrite l o (zeros s)) o n s.
Proof. intros. by apply wrote_overwrite. Qed.

Lemma wrote_again l l' o n s s' :
  wrote l l' o n s → 0 <= o → o + n <= Z.of_nat (length l) → Z.of_nat (length s') < n → Forall char s' →
  wrote l (overwrite l' o (zeros s')) o n s'.
Proof. intros [_ H1 H2 H3] **. by apply wrote_overwrite. Qed.

Lemma land_char c : char c → Z.land c 255 = c.
Proof. intros Hc. unfold char in Hc. change 255 with (Z.ones 8). rewrite Z.land_ones by lia. apply Z.mod_small. lia. Qed.

Lemma overwrite_char l o c : 0 <= o → o + 2 <= Z.of_nat (length l) →
  <[Z.to_nat (o + 1) := Byte 0]> (<[Z.to_nat o := Byte c]> l) = overwrite l o (zeros [c]).
Proof.
  intros Ho Hl. change (zeros [c]) with ([Byte c] ++ [Byte 0]). rewrite overwrite_app by (simpl; lia).
  rewrite (overwrite_one l) by lia. simpl length.
  rewrite overwrite_one by (rewrite length_insert; lia). done.
Qed.

(** A part of a string. *)
Lemma string_at_drop l o s1 s2 : string_at l o (s1 ++ s2) → string_at l (o + Z.of_nat (length s1)) s2.
Proof.
  intros (Ho & Hc & rest & E). split; [lia|]. apply Forall_app in Hc as [_ Hc]. split; [done|].
  exists rest. replace (Z.to_nat (o + Z.of_nat (length s1))) with (Z.to_nat o + length s1)%nat by lia.
  rewrite <- drop_drop, E, zeros_app, <- app_assoc. by rewrite drop_app_length' by by rewrite length_fmap.
Qed.

(** Two shifts by 32 sign-extend a 32-bit number. *)
Lemma sign_extend_32 z : Z.shiftr (s64 (u64 (Z.shiftl z 32))) 32 = s32 z.
Proof.
  change (s64 (u64 (Z.shiftl z 32))) with (swrap (32 + 32) (wrap (32 + 32) (Z.shiftl z 32))).
  rewrite sign_extend by lia. rewrite <- Z.shiftl_mul_pow2 by lia. rewrite Z.shiftr_shiftl_l by lia.
  by rewrite Z.sub_diag, Z.shiftl_0_r.
Qed.

(** The character before the part of a string that was looked at. *)
Lemma scan_char (s rl : list Z) c tail : s = rev (c :: rl) ++ tail →
  s !! length rl = Some c ∧ (length rl < length s)%nat.
Proof.
  intros ->. simpl. rewrite <- app_assoc.
  assert ((rev rl ++ [c] ++ tail) !! length rl = Some c) as H.
  { by rewrite lookup_app_r, length_rev, Nat.sub_diag by (rewrite length_rev; lia). }
  split; [done|]. by apply lookup_lt_Some in H.
Qed.

(** The bytes of a part of a string. *)
Lemma load_string (m : mem) b l o s i n :
  m !! b = Some l → string_at l o s → (i + n <= length s)%nat →
  loadn m b (o + Z.of_nat i) n = Some (Byte <$> take n (drop i s)).
Proof.
  intros Hm Hs Hi. pose proof (string_at_length _ _ _ Hs) as Hl. destruct Hs as (Ho & Hc & rest & E).
  unfold loadn. rewrite Hm. cbn [mbind option_bind]. rewrite decide_True by lia. f_equal.
  replace (Z.to_nat (o + Z.of_nat i)) with (Z.to_nat o + i)%nat by lia.
  rewrite <- drop_drop, E. unfold zeros. rewrite drop_app_le by (rewrite length_fmap, length_app; simpl; lia).
  rewrite take_app_le by (rewrite length_drop, length_fmap, length_app; simpl; lia).
  rewrite <- fmap_drop, <- fmap_take. rewrite drop_app_le by lia.
  by rewrite take_app_le by (rewrite length_drop; lia).
Qed.

(** Ending a string with a NUL. *)
Lemma overwrite_nul l o t : 0 <= o → o + Z.of_nat (length t) + 1 <= Z.of_nat (length l) →
  <[Z.to_nat (o + Z.of_nat (length t)) := Byte 0]> (overwrite l o (Byte <$> t)) = overwrite l o (zeros t).
Proof.
  intros Ho Hl. unfold zeros. rewrite fmap_app.
  rewrite overwrite_app by (rewrite ?length_fmap; cbn [length]; lia). rewrite length_fmap.
  cbn [fmap list_fmap]. rewrite overwrite_one; [done|].
  rewrite overwrite_length by (rewrite ?length_fmap; lia). lia.
Qed.

Lemma storen_at (m : mem) b o l vs : m !! b = Some l → 0 <= o → o + Z.of_nat (length vs) <= Z.of_nat (length l) →
  storen m b o vs = Some (<[b := overwrite l o vs]> m).
Proof. intros Hm H0 H1. unfold storen. rewrite Hm. cbn [mbind option_bind]. by rewrite decide_True by lia. Qed.

(** *** Frames

    A frame as a series of values that were spilled to it. *)
Definition spill (l : list memval) (o : Z) (v : val) : list memval := overwrite l o (default [] (encode 8 v)).

Lemma encode_8 v : ∃ vs, encode 8 v = Some vs ∧ length vs = 8%nat.
Proof.
  assert (∃ vs, encode 8 v = Some vs) as [vs E] by (destruct v; simpl; eauto).
  exists vs. split; [done|]. by eapply encode_length.
Qed.

Lemma spill_length l o v : 0 <= o → o + 8 <= Z.of_nat (length l) → length (spill l o v) = length l.
Proof.
  intros. unfold spill. destruct (encode_8 v) as (vs & -> & Hl). simpl. apply overwrite_length; lia.
Qed.

Lemma store_spill (m : mem) b o l v :
  m !! b = Some l → 0 <= o → o + 8 <= Z.of_nat (length l) → store m b o 8 v = Some (<[b := spill l o v]> m).
Proof.
  intros Hm H0 H1. unfold store, spill. destruct (encode_8 v) as (vs & -> & Hl). cbn [mbind option_bind from_option id].
  unfold storen. rewrite Hm. cbn [mbind option_bind]. by rewrite decide_True by lia.
Qed.

Lemma slot_spill l o v : 0 <= o → o + 8 <= Z.of_nat (length l) → val_ok v → slot (spill l o v) o v.
Proof.
  intros H0 H1 Hv. split_and!; [done|by rewrite spill_length|]. unfold spill.
  destruct (encode_8 v) as (vs & E & Hl). rewrite E. cbn [from_option id]. rewrite <- Hl.
  rewrite overwrite_at by lia. by apply decode_encode.
Qed.

Lemma slot_spill_other l o v o' w :
  slot l o' w → o' + 8 <= o ∨ o + 8 <= o' → 0 <= o → o + 8 <= Z.of_nat (length l) → slot (spill l o v) o' w.
Proof.
  intros (Ho & Ho1 & Hd) Hdis H0 H1. split_and!; [done|by rewrite spill_length|]. unfold spill.
  destruct (encode_8 v) as (vs & -> & Hl). cbn [from_option id]. by rewrite overwrite_other by (rewrite ?Hl; lia).
Qed.

Lemma frame0_length : length frame0 = 512%nat.
Proof. done. Qed.

End Bpf.

(** Side conditions on frames. *)
Ltac frame_size := repeat rewrite Bpf.spill_length; rewrite ?Bpf.frame0_length; lia.
Ltac slots :=
  first
    [ apply Bpf.slot_spill; [lia|frame_size|first [done|unfold Bpf.val_ok, urange; lia]]
    | apply Bpf.slot_spill_other; [slots|lia|lia|frame_size]
    | eassumption ].
