(* ===== verification/BpfWords.v ===== *)
(** * Operations of the BPF machine on eight bytes at a time

    What loading, combining and storing 64-bit words does to the bytes of a
    buffer, and how [bpf_probe_read_str] reads a buffer of bytes. *)
From S2P Require Import Prelude Bpf.
Import Bpf.

Module BpfWords.

Definition byte (z : Z) : Prop := 0 <= z < 2 ^ 8.

Abbreviation le := (little_endian_to_Z 8).

Lemma char_byte s : Forall char s → Forall byte s.
Proof. intros. eapply Forall_impl; [done|]. unfold char, byte. intros; simpl in *; lia. Qed.

Lemma le_range w : Forall byte w → 0 <= le w < 2 ^ (8 * Z.of_nat (length w)).
Proof.
  intros Hw. pose proof (little_endian_to_Z_bound 8 w ltac:(lia) Hw). by rewrite (Z.mul_comm 8).
Qed.

(** A bitwise operation on words works byte by byte. *)
Lemma le_xor w v : length w = length v → Forall byte w → Forall byte v →
  Z.lxor (le w) (le v) = le (zip_with Z.lxor w v).
Proof.
  intros Hl Hw. revert v Hl. induction Hw as [|a w Ha Hw IH]; intros [|b v] Hl Hv; try done; simpl in *.
  apply Forall_cons_iff in Hv as [Hb Hv]. rewrite <- IH by (done || lia).
  bitwise i Hi. destruct (Z.ltb_spec i 8).
  - by rewrite !(Z.testbit_neg_r _ (i - 8)), !orb_false_r by lia.
  - rewrite (testbit_high a 8), (testbit_high b 8) by (done || lia). done.
Qed.

Lemma xor_bytes w v : Forall byte w → Forall byte v → Forall byte (zip_with Z.lxor w v).
Proof.
  intros Hw. revert v. induction Hw as [|a w Ha Hw IH]; intros v Hv; [constructor|].
  destruct Hv as [|b v Hb Hv]; [constructor|]. simpl. constructor; [|by apply IH].
  unfold byte in *. split; [apply Z.lxor_nonneg; lia|].
  apply testbit_range; [lia|apply Z.lxor_nonneg; lia|]. intros i Hi.
  by rewrite Z.lxor_spec, (testbit_high a 8), (testbit_high b 8) by lia.
Qed.

(** Eight bytes as a value, and back. *)
Lemma decode_bytes w : decode (Byte <$> w) = Some (Int (le w)).
Proof. unfold decode. by rewrite mapM_byte_of. Qed.

Lemma encode_le w : length w = 8%nat → Forall byte w → encode 8 (Int (le w)) = Some (Byte <$> w).
Proof. intros Hl Hw. unfold encode. rewrite Z_to_little_endian_to_Z; [done|by rewrite Hl|lia|done]. Qed.

(** Blocks of bytes. *)
Lemma load_word (m : mem) b o bs w1 w w2 :
  m !! b = Some (Byte <$> bs) → bs = w1 ++ w ++ w2 → o = Z.of_nat (length w1) → length w = 8%nat →
  load m b o 8 = Some (Int (le w)).
Proof.
  intros Hm -> -> Hw. unfold load, loadn. rewrite Hm. cbn [mbind option_bind].
  rewrite !fmap_app. rewrite decide_True by (rewrite !length_app, !length_fmap; lia). cbn [mbind option_bind].
  rewrite drop_app_length' by (rewrite length_fmap; lia).
  rewrite take_app_length' by (by rewrite length_fmap). apply decode_bytes.
Qed.

Lemma store_word (m : mem) b o bs w1 w w2 v :
  m !! b = Some (Byte <$> bs) → bs = w1 ++ w ++ w2 → o = Z.of_nat (length w1) → length w = 8%nat →
  length v = 8%nat → Forall byte v →
  store m b o 8 (Int (le v)) = Some (<[b := Byte <$> (w1 ++ v ++ w2)]> m).
Proof.
  intros Hm -> -> Hw Hv Hb. unfold store. rewrite encode_le by done. cbn [mbind option_bind].
  erewrite storen_at; [|done|lia|rewrite !length_fmap, !length_app; lia]. do 2 f_equal.
  unfold overwrite. rewrite !fmap_app, length_fmap, Nat2Z.id.
  rewrite take_app_length' by by rewrite length_fmap. do 2 f_equal.
  rewrite (drop_app_ge (Byte <$> w1)) by (rewrite length_fmap; lia). rewrite length_fmap.
  rewrite drop_app_length' by (rewrite length_fmap; lia). done.
Qed.

(** Reading a string from bytes: it ends before the first NUL. *)
Fixpoint until_nul (bs : list Z) : list Z :=
  match bs with [] => [] | x :: bs => if x =? 0 then [] else x :: until_nul bs end.

Lemma read_str_bytes bs rest n : (length (until_nul bs) < length bs)%nat → (length bs <= n)%nat →
  read_str ((Byte <$> bs) ++ rest) n = Some (until_nul bs).
Proof.
  revert n. induction bs as [|x bs IH]; intros n Hl Hn; simpl in *; [lia|].
  destruct n as [|n]; [lia|]. cbn [read_str]. destruct (x =? 0); [done|]. simpl in Hl.
  by rewrite IH by lia.
Qed.

Lemma until_nul_length bs n : (0 ∈ take n bs) → (length (until_nul (take n bs)) < length (take n bs))%nat.
Proof.
  revert n. induction bs as [|x bs IH]; intros [|n]; simpl; try (intros H; by apply elem_of_nil in H).
  intros [<-|Hin]%elem_of_cons; [simpl; lia|]. destruct (x =? 0); simpl; [lia|].
  apply IH in Hin. lia.
Qed.

Lemma overwrite_bytes bs o ws :
  overwrite (Byte <$> bs) o (Byte <$> ws) = Byte <$> (take (Z.to_nat o) bs ++ ws ++ drop (Z.to_nat o + length ws) bs).
Proof. unfold overwrite. by rewrite !fmap_app, fmap_take, fmap_drop, length_fmap. Qed.

Lemma take_bytes bs n : Forall byte bs → Forall byte (take n bs).
Proof. apply Forall_take. Qed.

(** Rounding up to a multiple of eight, as the code does it. *)
Lemma round_up_8 x : 0 <= x < 2 ^ 63 →
  let y := Z.land (x + 7) (2 ^ 64 - 8) in y mod 8 = 0 ∧ x <= y < x + 8.
Proof.
  intros Hx. pose proof (align_up 64 x 3 ltac:(lia) ltac:(lia) ltac:(lia)) as H.
  change (wrap 64 (Z.lnot (2 ^ 3 - 1))) with (2 ^ 64 - 8) in H.
  rewrite wrap_id in H by (unfold urange; lia). exact H.
Qed.

End BpfWords.
