(* ===== verification/BpfPath.v ===== *)
(** * basename() and dirname() in the kernel: bpf/basename.S, bpf/dirname.S

    The two functions as assembly text, and theorems that say what a call of
    them leaves, on the machine of [Bpf]. *)
From S2P Require Import Prelude Bpf.
Import Bpf.

Module BpfPath.

(** ** The programs *)

Section Programs.
Import Asm.
Variable STRSZ : Z.

(** void dt_basename(char *src, char *dst) *)
Definition dt_basename_text : list item := [
  mov r6 r1;
  mov r7 r2;
  mov r1 r7;
  lddw r2 STRSZ;
  add r2 1;
  mov r3 r6;
  call BPF_FUNC_probe_read_str;
  jsle r0 1 (Lab ".Ldot");
  mov r9 r0;
  sub r9 1;
  L ".Lend";
  sub r9 1;
  jslt r9 0 (Lab ".Lslash");
  mov r1 r6;
  add r1 r9;
  ldxb r1 r1 0;
  and r1 0xff;
  jeq r1 47 (Lab ".Lend");
  mov r8 r9;
  L ".Lbgn";
  sub r8 1;
  jslt r8 0 (Lab ".Lcopy");
  mov r1 r6;
  add r1 r8;
  ldxb r1 r1 0;
  and r1 0xff;
  jne r1 47 (Lab ".Lbgn");
  L ".Lcopy";
  sub r9 r8;
  jsge r9 0 (Rel 1);
  mov r9 0;
  add r8 1;
  mov r1 r7;
  mov r2 r9;
  add r2 1;
  mov r3 r6;
  add r3 r8;
  call BPF_FUNC_probe_read_str;
  exit;
  L ".Ldot";
  mov r9 1;
  stb r7 0 46;
  stb r7 1 0;
  exit;
  L ".Lslash";
  mov r9 1;
  stb r7 0 47;
  stb r7 1 0;
  exit
].

Definition dt_basename : list insn := Eval vm_compute in assemble dt_basename_text.

(** void dt_dirname(char *src, char *dst) *)
Definition dt_dirname_text : list item := [
  mov r6 r1;
  mov r7 r2;
  mov r1 r7;
  lddw r2 STRSZ;
  add r2 1;
  mov r3 r6;
  call BPF_FUNC_probe_read_str;
  jsle r0 1 (Lab ".Ldot");
  mov r8 r0;
  sub r8 1;
  L ".L1";
  sub r8 1;
  jslt r8 0 (Lab ".Lslash");
  mov r0 r6;
  add r0 r8;
  ldxb r0 r0 0;
  and r0 0xff;
  jeq r0 47 (Lab ".L1");
  L ".L2";
  sub r8 1;
  jslt r8 0 (Lab ".Ldot");
  mov r0 r6;
  add r0 r8;
  ldxb r0 r0 0;
  and r0 0xff;
  jne r0 47 (Lab ".L2");
  L ".L3";
  sub r8 1;
  jslt r8 0 (Lab ".Lslash");
  mov r0 r6;
  add r0 r8;
  ldxb r0 r0 0;
  and r0 0xff;
  jeq r0 47 (Lab ".L3");
  add r8 1;
  mov r1 r7;
  mov r2 r8;
  add r2 1;
  mov r3 r6;
  call BPF_FUNC_probe_read_str;
  exit;
  L ".Ldot";
  mov r8 1;
  stb r7 0 46;
  stb r7 1 0;
  exit;
  L ".Lslash";
  mov r8 1;
  stb r7 0 47;
  stb r7 1 0;
  exit
].

Definition dt_dirname : list insn := Eval vm_compute in assemble dt_dirname_text.

End Programs.

(** ** Path names *)

(** The base name and the directory name of a path, as POSIX defines them,
    looking at the path from its end. *)
Fixpoint drop_slashes (l : list Z) : list Z :=
  match l with c :: l' => if c =? 47 then drop_slashes l' else l | [] => [] end.
Fixpoint take_name (l : list Z) : list Z :=
  match l with c :: l' => if c =? 47 then [] else c :: take_name l' | [] => [] end.
Fixpoint drop_name (l : list Z) : list Z :=
  match l with c :: l' => if c =? 47 then l else drop_name l' | [] => [] end.

Definition basename (s : list Z) : list Z :=
  match s with
  | [] => [46]
  | _ => match drop_slashes (rev s) with [] => [47] | t => rev (take_name t) end
  end.

Definition dirname (s : list Z) : list Z :=
  match s with
  | [] => [46]
  | _ =>
      match drop_slashes (rev s) with
      | [] => [47]
      | t =>
          match drop_name t with
          | [] => [46]
          | u => match drop_slashes u with [] => [47] | w => rev w end
          end
      end
  end.

Lemma take_drop_name l : l = take_name l ++ drop_name l.
Proof. induction l as [|c l IH]; [done|]. simpl. destruct (c =? 47); [done|]. simpl. by rewrite <- IH. Qed.

Lemma drop_slashes_head l t c : drop_slashes l = c :: t → c ≠ 47.
Proof.
  induction l as [|d l IH]; [done|]. simpl. destruct (Z.eqb_spec d 47); [apply IH|]. by intros [= <- _].
Qed.

Lemma drop_name_head l t c : drop_name l = c :: t → c = 47.
Proof.
  induction l as [|d l IH]; [done|]. simpl. destruct (Z.eqb_spec d 47); [by intros [= <- _]|apply IH].
Qed.

Lemma drop_slashes_suffix l : ∃ k, l = k ++ drop_slashes l.
Proof.
  induction l as [|c l [k IH]]; [by exists []|]. simpl. destruct (c =? 47); [|by exists []].
  exists (c :: k). simpl. by rewrite <- IH.
Qed.


Lemma dirname_ok s : Forall char s → Forall char (dirname s) ∧ (length (dirname s) <= Nat.max 1 (length s))%nat.
Proof.
  intros Hs.
  assert (∀ c, char c → Forall char [c] ∧ (length [c] <= Nat.max 1 (length s))%nat) as Hone
    by (intros c Hc; split; [by apply Forall_singleton|simpl; lia]).
  unfold dirname. destruct s as [|c0 s0] eqn:E; [by apply Hone|]. rewrite <- E in *. clear E.
  destruct (drop_slashes_suffix (rev s)) as [k1 E1]. destruct (drop_slashes (rev s)) as [|c t]; [by apply Hone|].
  pose proof (take_drop_name (c :: t)) as E2. destruct (drop_name (c :: t)) as [|d u]; [by apply Hone|].
  destruct (drop_slashes_suffix (d :: u)) as [k3 E3]. destruct (drop_slashes (d :: u)) as [|e w]; [by apply Hone|].
  rewrite E2, E3, !app_assoc in E1. pose proof (f_equal length E1) as El.
  rewrite length_rev, !length_app in El. split; [|rewrite length_rev; simpl in *; lia].
  apply Forall_rev. apply Forall_rev in Hs. rewrite E1 in Hs. by apply Forall_app in Hs as [_ ?].
Qed.

(** ** Proofs *)

Section Proofs.
Context (helper : Z → list (option val) → mem → option (val * mem)) `{!CopyHelpers helper}.
Variable funs : string → option (list insn).
Variable STRSZ : Z.
Hypothesis STRSZ_ok : 0 < STRSZ < 2 ^ 31.

(** *** basename() *)

Section Basename.
Variables (m m' : mem) (fb b o bd od : Z) (l : list memval) (s : list Z) (v x0 : option val).
Hypothesis Hm : m !! b = Some l.
Hypothesis Ho : 0 <= o.
Hypothesis Hs : ∀ i c, s !! i = Some c → char c ∧ l !! Z.to_nat (o + Z.of_nat i) = Some (Byte c).
Hypothesis Hlen : Z.of_nat (length s) < 2 ^ 32.

Let base_regs (x1 : option val) (bgn : option val) (len : Z) : regs :=
  [x0; x1; None; None; None; None; Some (Ptr b o); Some (Ptr bd od); bgn; Some (Int len);
   Some (Ptr fb 512)].

Lemma basename_end rl tail x1 : s = rev rl ++ tail →
  (∀ x, drop_slashes rl = [] → runs_to helper funs (dt_basename STRSZ) fb 40 (base_regs x None (2 ^ 64 - 1)) m v m') →
  (∀ x c t, drop_slashes rl = c :: t →
    runs_to helper funs (dt_basename STRSZ) fb 17 (base_regs x None (Z.of_nat (length t))) m v m') →
  runs_to helper funs (dt_basename STRSZ) fb 10 (base_regs x1 None (Z.of_nat (length rl))) m v m'.
Proof.
  revert tail x1. induction rl as [|c rl IH]; intros tail x1 E Hslash Hname; unfold base_regs in *.
  { exec. exec. apply Hslash. done. }
  destruct (scan_char s rl c tail E) as [Hc ?].
  destruct (Hs _ _ Hc) as [Hchar Hl].
  exec. in_range. replace (Z.of_nat (length (c :: rl)) - 1) with (Z.of_nat (length rl)) by (simpl; lia).
  exec. in_range. not_taken. do 2 exec. in_range. exec.
  { eapply load_byte; [done|lia|]. by rewrite Z.add_0_r. }
  exec. rewrite land_char by done. exec.
  destruct (Z.eqb_spec c 47) as [->|Hne].
  - eapply (IH (47 :: tail)); [by rewrite E; simpl; rewrite <- app_assoc|done|done].
  - apply (Hname _ c rl). simpl. by rewrite (proj2 (Z.eqb_neq c 47)).
Qed.

Lemma basename_bgn rl tail x1 len : s = rev rl ++ tail → 0 <= len < 2 ^ 32 →
  (∀ x, runs_to helper funs (dt_basename STRSZ) fb 25
     (base_regs x (Some (Int (u64 (Z.of_nat (length (drop_name rl)) - 1)))) len) m v m') →
  runs_to helper funs (dt_basename STRSZ) fb 18
    (base_regs x1 (Some (Int (Z.of_nat (length rl)))) len) m v m'.
Proof.
  revert tail x1. induction rl as [|c rl IH]; intros tail x1 E Hl Hcopy; unfold base_regs in *.
  { exec. exec. apply Hcopy. }
  destruct (scan_char s rl c tail E) as [Hc ?].
  destruct (Hs _ _ Hc) as [Hchar Hlk].
  exec. in_range. replace (Z.of_nat (length (c :: rl)) - 1) with (Z.of_nat (length rl)) by (simpl; lia).
  exec. in_range. not_taken. do 2 exec. in_range. exec.
  { eapply load_byte; [done|lia|]. by rewrite Z.add_0_r. }
  exec. rewrite land_char by done. exec. cbn [drop_name] in Hcopy.
  destruct (Z.eqb_spec c 47) as [->|Hne]; cbn [negb].
  - specialize (Hcopy (Some (Int 47))). rewrite wrap_id in Hcopy by (unfold urange; simpl; lia).
    replace (Z.of_nat (length rl)) with (Z.of_nat (length (47 :: rl)) - 1) by (simpl; lia). done.
  - eapply (IH (c :: tail)); [by rewrite E; simpl; rewrite <- app_assoc|done|done].
Qed.

End Basename.

(** *** dirname() *)

Section Dirname.
Variables (m m' : mem) (fb b o bd od : Z) (l : list memval) (s : list Z).
Hypothesis Hm : m !! b = Some l.
Hypothesis Ho : 0 <= o.
Hypothesis Hs : ∀ i c, s !! i = Some c → char c ∧ l !! Z.to_nat (o + Z.of_nat i) = Some (Byte c).
Hypothesis Hlen : Z.of_nat (length s) < 2 ^ 32.

Let dir_regs (x0 : option val) (len : Z) : regs :=
  [x0; None; None; None; None; None; Some (Ptr b o); Some (Ptr bd od); Some (Int len); None;
   Some (Ptr fb 512)].

Let dir_runs (pc : Z) (x0 : option val) (len : Z) : Prop :=
  ∃ v, runs_to helper funs (dt_dirname STRSZ) fb pc (dir_regs x0 len) m v m'.

(** One round of a loop, from [pc] on. *)
Ltac dir_round c rl :=
  unfold dir_regs; exec; in_range;
  replace (Z.of_nat (length (c :: rl)) - 1) with (Z.of_nat (length rl)) by (simpl; lia);
  exec; in_range; not_taken; do 2 exec; in_range;
  exec; [eapply load_byte; [done|lia|]; by rewrite Z.add_0_r|];
  exec; rewrite ?land_char by done; exec.

(** The loops [.L1] and [.L3]. *)
Lemma dirname_slashes pc next rl tail x0 : pc = 10 ∧ next = 17 ∨ pc = 24 ∧ next = 31 → s = rev rl ++ tail →
  (∀ x, drop_slashes rl = [] → dir_runs 42 x (2 ^ 64 - 1)) →
  (∀ x c t, drop_slashes rl = c :: t → dir_runs next x (Z.of_nat (length t))) →
  dir_runs pc x0 (Z.of_nat (length rl)).
Proof.
  intros Hpc. revert tail x0. induction rl as [|c rl IH]; intros tail x0 E Hslash Hname.
  { destruct (Hslash x0 eq_refl) as [v Hv]. exists v.
    destruct Hpc as [[-> ->]|[-> ->]]; (unfold dir_regs; exec; exec; exact Hv). }
  destruct (scan_char s rl c tail E) as [Hc Hlt]. destruct (Hs _ _ Hc) as [Hchar Hl].
  cbn [drop_slashes] in Hslash, Hname. destruct (Z.eqb_spec c 47) as [->|Hne].
  - destruct (IH (47 :: tail) (Some (Int 47))) as [v Hv];
      [by rewrite E; simpl; rewrite <- app_assoc|done|done|].
    exists v. destruct Hpc as [[-> ->]|[-> ->]]; (dir_round 47 rl; exact Hv).
  - destruct (Hname (Some (Int c)) c rl eq_refl) as [v Hv]. exists v.
    destruct Hpc as [[-> ->]|[-> ->]]; (dir_round c rl; not_taken; exact Hv).
Qed.

Lemma dirname_name rl tail x0 : s = rev rl ++ tail →
  (∀ x, drop_name rl = [] → dir_runs 38 x (2 ^ 64 - 1)) →
  (∀ x c t, drop_name rl = c :: t → dir_runs 24 x (Z.of_nat (length t))) →
  dir_runs 17 x0 (Z.of_nat (length rl)).
Proof.
  revert tail x0. induction rl as [|c rl IH]; intros tail x0 E Hslash Hname.
  { destruct (Hslash x0 eq_refl) as [v Hv]. exists v. unfold dir_regs. exec. exec. exact Hv. }
  destruct (scan_char s rl c tail E) as [Hc Hlt]. destruct (Hs _ _ Hc) as [Hchar Hl].
  cbn [drop_name] in Hslash, Hname. destruct (Z.eqb_spec c 47) as [->|Hne].
  - destruct (Hname (Some (Int 47)) 47 rl eq_refl) as [v Hv]. exists v. dir_round 47 rl. exact Hv.
  - destruct (IH (c :: tail) (Some (Int c))) as [v Hv];
      [by rewrite E; simpl; rewrite <- app_assoc|done|done|].
    exists v. dir_round c rl. taken. exact Hv.
Qed.

End Dirname.

Section Path.
Variables (m : mem) (fb bd od : Z) (ld : list memval) (b o : Z) (l : list memval) (s : list Z).
Hypothesis Hfb : m !! fb = None.
Hypothesis Hd : m !! bd = Some ld.
Hypothesis Hod : 0 <= od.
Hypothesis Hroom : od + STRSZ + 1 <= Z.of_nat (length ld).
Hypothesis Hb : m !! b = Some l.
Hypothesis Hstr : string_at l o s.
Hypothesis Hne : bd ≠ b.

(** The path that is worked on, and the memory once it was copied. *)
Let s' := take (Z.to_nat STRSZ) s.
Let ld1 := overwrite ld od (zeros s').
Let m1 : mem := <[bd := ld1]> (<[fb := frame0]> m).
Let path_regs : regs :=
  [Some (Int (Z.of_nat (length s') + 1)); None; None; None; None; None; Some (Ptr b o); Some (Ptr bd od);
   None; None; Some (Ptr fb 512)].

Lemma path_neq : fb ≠ bd ∧ fb ≠ b.
Proof. clear -Hfb Hd Hb. split; intros ->; congruence. Qed.

Lemma path_chars i c : s' !! i = Some c → char c ∧ l !! Z.to_nat (o + Z.of_nat i) = Some (Byte c).
Proof.
  intros Hi. apply lookup_take_Some in Hi as [Hi _]. split; [|by eapply string_at_byte].
  destruct Hstr as (_ & Hc & _). by eapply Forall_lookup_1.
Qed.

Lemma path_length : Z.of_nat (length s') <= STRSZ.
Proof. unfold s'. rewrite length_take. lia. Qed.

Lemma path_wrote : wrote ld ld1 od (STRSZ + 1) s'.
Proof.
  pose proof path_length. apply wrote_once; [done|lia|lia|].
  destruct Hstr as (_ & Hc & _). by apply Forall_take.
Qed.

Lemma path_start P t : P = dt_basename STRSZ ∨ P = dt_dirname STRSZ →
  (∃ v ld', runs_to helper funs P fb 7 path_regs m1 v (<[bd := ld']> m1) ∧ wrote ld ld' od (STRSZ + 1) t) →
  ∃ v ld', calls_to helper funs P fb [Ptr b o; Ptr bd od] m v (<[bd := ld']> m) ∧
    wrote ld ld' od (STRSZ + 1) t.
Proof.
  intros HP (v & ld' & Hrun & Hw). destruct path_neq as [? ?]. exists v, ld'. split; [|done].
  exists (<[bd := ld']> m1). split; [|unfold m1; mem_eq fb bd].
  assert (Z.min (Z.of_nat (length s) + 1) (STRSZ + 1) = Z.of_nat (length s') + 1) as Hmin
    by (unfold s'; rewrite length_take; lia).
  destruct HP as [-> | ->]; cbn [fmap list_fmap app replicate length Nat.sub]; do 6 exec; in_range; exec;
    [eapply probe_read_string; [block|block|done|done|lia|lia|lia]| |
     eapply probe_read_string; [block|block|done|done|lia|lia|lia]|];
    replace (Z.to_nat (STRSZ + 1) - 1)%nat with (Z.to_nat STRSZ) by lia; rewrite Hmin; exact Hrun.
Qed.

(** The result is one character. *)
Ltac char_result :=
  pose proof path_wrote as Hw; pose proof (wrote_length _ _ _ _ _ Hw) as Hl1;
  split;
  [ exec; exec; [eapply store_byte; [block|lia]|]; exec;
    [eapply store_byte; [block|rewrite length_insert; lia]|]; exec; [reflexivity|];
    rewrite insert_insert_eq; rewrite Z.add_0_r; by rewrite overwrite_char by lia
  | eapply wrote_again; [exact Hw|done|lia|simpl; lia|by repeat constructor] ].

Lemma basename_char x0 x1 x8 x9 c pc : c = 46 ∧ pc = 36 ∨ c = 47 ∧ pc = 40 →
  runs_to helper funs (dt_basename STRSZ) fb pc
    [x0; x1; None; None; None; None; Some (Ptr b o); Some (Ptr bd od); x8; x9;
     Some (Ptr fb 512)] m1 x0 (<[bd := overwrite ld1 od (zeros [c])]> m1) ∧
  wrote ld (overwrite ld1 od (zeros [c])) od (STRSZ + 1) [c].
Proof. intros [[-> ->]|[-> ->]]; char_result. Qed.

Lemma dirname_char x0 x1 x8 x9 c pc : c = 46 ∧ pc = 38 ∨ c = 47 ∧ pc = 42 →
  runs_to helper funs (dt_dirname STRSZ) fb pc
    [x0; x1; None; None; None; None; Some (Ptr b o); Some (Ptr bd od); x8; x9;
     Some (Ptr fb 512)] m1 x0 (<[bd := overwrite ld1 od (zeros [c])]> m1) ∧
  wrote ld (overwrite ld1 od (zeros [c])) od (STRSZ + 1) [c].
Proof. intros [[-> ->]|[-> ->]]; char_result. Qed.

(** Copying the part [t] of the path over the destination. *)
Lemma path_copy s1 t s2 size os x y :
  s' = s1 ++ t ++ s2 → size = Z.of_nat (length t) + 1 → os = o + Z.of_nat (length s1) →
  ∃ r, helper BPF_FUNC_probe_read_str [Some (Ptr bd od); Some (Int size); Some (Ptr b os); x; y] m1 =
    Some (r, <[bd := overwrite ld1 od (zeros t)]> m1) ∧ wrote ld (overwrite ld1 od (zeros t)) od (STRSZ + 1) t.
Proof.
  intros E -> ->. destruct path_neq as [? ?]. pose proof path_wrote as Hw. pose proof path_length as Hlen.
  pose proof (wrote_length _ _ _ _ _ Hw) as Hl1.
  assert (length s' = length s1 + length t + length s2)%nat as Hlen' by (rewrite E, !length_app; lia).
  assert (s = s1 ++ t ++ (s2 ++ drop (Z.to_nat STRSZ) s)) as Es.
  { rewrite <- (take_drop (Z.to_nat STRSZ) s) at 1. fold s'. rewrite E. by rewrite <- !app_assoc. }
  assert (Forall char t) as Hc.
  { destruct Hstr as (_ & Hc & _). rewrite Es in Hc. by apply Forall_app in Hc as [_ [Hc _]%Forall_app]. }
  eexists. split; [|by eapply wrote_again; [exact Hw|lia|lia|lia|done]].
  erewrite probe_read_string; [|unfold m1; block|unfold m1; block|by eapply string_at_drop; rewrite <- Es|done|lia|lia|lia].
  do 4 f_equal. replace (Z.to_nat (Z.of_nat (length t) + 1) - 1)%nat with (length t) by lia.
  by rewrite take_app_length.
Qed.

Lemma basename_body : ∃ v ld',
  runs_to helper funs (dt_basename STRSZ) fb 7 path_regs m1 v (<[bd := ld']> m1) ∧
  wrote ld ld' od (STRSZ + 1) (basename s').
Proof.
  pose proof path_length as Hlen. destruct path_neq as [? ?].
  assert (m1 !! b = Some l) as Hb1 by (unfold m1; block).
  assert (0 <= o) as Ho by by destruct Hstr.
  destruct (decide (s' = [])) as [E|Hnil].
  { rewrite E. do 2 eexists. split; [|by apply (basename_char None None None None 46 36); auto].
    unfold path_regs. rewrite E. exec. apply basename_char; auto. }
  assert (0 < Z.of_nat (length s')) by (destruct s'; [done|simpl; lia]).
  assert (s' = rev (rev s') ++ []) as Erev by by rewrite app_nil_r, rev_involutive.
  assert (basename s' = match drop_slashes (rev s') with [] => [47] | t => rev (take_name t) end) as ->
    by by destruct s'.
  destruct (drop_slashes (rev s')) as [|c t] eqn:Et.
  - do 2 eexists. split; [|by apply (basename_char None None None None 47 40); auto].
    unfold path_regs. exec. in_range. not_taken. do 2 exec. in_range. rewrite Z.add_simpl_r.
    rewrite <- (length_rev s').
    eapply basename_end; [done|done|apply path_chars|lia|exact Erev| |]; rewrite Et; [|done].
    intros x _. apply basename_char; auto.
  - destruct (drop_slashes_suffix (rev s')) as [k Ek]. rewrite Et in Ek.
    assert (c ≠ 47) as Hc by (by apply (drop_slashes_head (rev s') t)).
    assert (s' = rev (drop_name t) ++ (rev (take_name (c :: t))) ++ rev k) as Es.
    { rewrite <- (rev_involutive s'), Ek, rev_app_distr, (app_assoc (rev (drop_name t))). f_equal.
      rewrite <- rev_app_distr. f_equal. cbn [take_name]. rewrite (proj2 (Z.eqb_neq c 47) Hc).
      simpl. by rewrite <- take_drop_name. }
    destruct (path_copy _ _ _ (Z.of_nat (length (rev (take_name (c :: t)))) + 1)
      (o + Z.of_nat (length (rev (drop_name t)))) None None Es eq_refl eq_refl) as (r & Hcopy & Hw).
    do 2 eexists. split; [|exact Hw].
    unfold path_regs. exec. in_range. not_taken. do 2 exec. in_range. rewrite Z.add_simpl_r.
    rewrite <- (length_rev s').
    eapply basename_end; [done|done|apply path_chars|lia|exact Erev| |]; rewrite Et; [done|].
    intros x c' t' [= <- <-]. exec.
    assert (length t = length (take_name t) + length (drop_name t))%nat as Ht
      by (rewrite <- length_app; by rewrite <- take_drop_name).
    assert (length (rev (take_name (c :: t))) = S (length (take_name t))) as Hlt.
    { cbn [take_name]. rewrite (proj2 (Z.eqb_neq c 47) Hc), length_rev. done. }
    assert (length s' = length t + 1 + length k)%nat as Hls.
    { rewrite <- (length_rev s'), Ek, length_app. simpl. lia. }
    eapply (basename_bgn _ _ _ _ _ _ _ _ _ _ _ Hb1 Ho path_chars) with (tail := c :: rev k); [lia| |lia|].
    { rewrite <- (rev_involutive s'), Ek, rev_app_distr. simpl. by rewrite <- app_assoc. }
    intros x'. exec. autorewrite with wrap. in_range. exec. in_range. taken. exec.
    autorewrite with wrap. in_range. do 5 exec. in_range. exec.
    { etransitivity; [|exact Hcopy]. rewrite Hlt, length_rev. do 4 f_equal; [do 2 f_equal; lia|].
      do 3 f_equal. lia. }
    exec; reflexivity.
Qed.

Lemma suffix_of_path k t : rev s' = k ++ t → s' = rev t ++ rev k.
Proof. intros E. by rewrite <- rev_app_distr, <- E, rev_involutive. Qed.

Lemma dirname_wrote : wrote ld (overwrite ld1 od (zeros (dirname s'))) od (STRSZ + 1) (dirname s').
Proof.
  pose proof path_length. destruct Hstr as (_ & Hc & _).
  destruct (dirname_ok s') as [H1 H2]; [by apply Forall_take|].
  eapply wrote_again; [exact path_wrote|done|lia|lia|done].
Qed.

(** The run from the first loop on. *)
Lemma dirname_loops x : s' ≠ [] → ∃ v,
  runs_to helper funs (dt_dirname STRSZ) fb 10
    [x; None; None; None; None; None; Some (Ptr b o); Some (Ptr bd od); Some (Int (Z.of_nat (length s'))); None;
     Some (Ptr fb 512)] m1 v (<[bd := overwrite ld1 od (zeros (dirname s'))]> m1).
Proof.
  intros Hnil. pose proof path_length as Hlen. destruct path_neq as [? ?].
  assert (m1 !! b = Some l) as Hb1 by (unfold m1; block).
  assert (0 <= o) as Ho by by destruct Hstr.
  assert (Z.of_nat (length s') < 2 ^ 32) as Hlen' by lia.
  assert (s' = rev (rev s') ++ []) as Erev by by rewrite app_nil_r, rev_involutive.
  assert (dirname s' = match drop_slashes (rev s') with [] => [47] | t =>
    match drop_name t with [] => [46] | u => match drop_slashes u with [] => [47] | w => rev w end end end) as ED
    by by destruct s'.
  destruct (drop_slashes_suffix (rev s')) as [k Ek]. rewrite <- (length_rev s').
  eapply (dirname_slashes _ _ _ _ _ _ _ _ _ Hb1 Ho path_chars Hlen' 10 17); [auto|exact Erev| |].
  { intros x' E. rewrite E in ED. rewrite ED. exists x'. apply dirname_char. auto. }
  intros x1 c t Et. rewrite Et in ED, Ek. cbn [drop_name] in ED.
  rewrite (proj2 (Z.eqb_neq c 47) (drop_slashes_head _ _ _ Et)) in ED.
  eapply (dirname_name _ _ _ _ _ _ _ _ _ Hb1 Ho path_chars Hlen' t (c :: rev k)).
  { rewrite (suffix_of_path _ _ Ek). simpl. by rewrite <- app_assoc. }
  { intros x' E. rewrite E in ED. rewrite ED. exists x'. apply dirname_char. auto. }
  intros x2 d u Eu. pose proof (take_drop_name t) as Etu. rewrite Eu in ED, Etu.
  assert (rev s' = (k ++ c :: take_name t) ++ d :: u) as Es by (rewrite Ek, <- app_assoc; simpl; by rewrite <- Etu).
  assert (d = 47) as -> by (by apply (drop_name_head t u)). cbn [drop_slashes Z.eqb Pos.eqb] in ED.
  eapply (dirname_slashes _ _ _ _ _ _ _ _ _ Hb1 Ho path_chars Hlen' 24 31); [auto| | |].
  { rewrite (suffix_of_path _ _ Es). cbn [rev]. by rewrite <- app_assoc. }
  { intros x' E. rewrite E in ED. rewrite ED. exists x'. apply dirname_char. auto. }
  intros x3 e w Ew. destruct (drop_slashes_suffix u) as [k' Ek']. rewrite Ew in ED, Ek'.
  assert (rev s' = ((k ++ c :: take_name t) ++ 47 :: k') ++ e :: w) as Es' by (rewrite Es, <- !app_assoc; simpl; by rewrite <- Ek').
  pose proof (suffix_of_path _ _ Es') as Esuf.
  destruct (path_copy [] (rev (e :: w)) _ (Z.of_nat (length (rev (e :: w))) + 1) (o + 0) None None Esuf eq_refl eq_refl)
    as (r & Hcopy & _). rewrite length_rev in Hcopy. rewrite ED.
  assert (length s' = length (rev (e :: w)) + length (rev ((k ++ c :: take_name t) ++ 47%Z :: k')))%nat as Hls
    by (rewrite Esuf at 1; apply length_app). rewrite length_rev in Hls. cbn [length] in Hls, Hcopy.
  eexists. do 4 exec. in_range. do 2 exec.
  { etransitivity; [|exact Hcopy]. do 4 f_equal; [do 2 f_equal; lia|]. do 3 f_equal. lia. }
  exec; reflexivity.
Qed.

Lemma dirname_body : ∃ v ld',
  runs_to helper funs (dt_dirname STRSZ) fb 7 path_regs m1 v (<[bd := ld']> m1) ∧
  wrote ld ld' od (STRSZ + 1) (dirname s').
Proof.
  pose proof path_length as Hlen. unfold path_regs. destruct (decide (s' = [])) as [E|Hnil].
  { do 2 eexists. split; [|exact dirname_wrote]. rewrite E. exec. apply dirname_char. auto. }
  destruct (dirname_loops (Some (Int (Z.of_nat (length s') + 1))) Hnil) as [v Hv].
  exists v. eexists. split; [|exact dirname_wrote].
  assert (0 < Z.of_nat (length s')) by (destruct s'; [done|simpl; lia]).
  exec. in_range. not_taken. do 2 exec. in_range. rewrite Z.add_simpl_r. exact Hv.
Qed.

End Path.

(** C15: basename() leaves the base name of the path, cut at STRSZ characters,
    in the destination, and changes nothing outside of the destination. *)
Theorem dt_basename_correct (m : mem) fb bd od ld b o l s :
  m !! fb = None → m !! bd = Some ld → 0 <= od → od + STRSZ + 1 <= Z.of_nat (length ld) →
  m !! b = Some l → string_at l o s → bd ≠ b →
  ∃ v ld', calls_to helper funs (dt_basename STRSZ) fb [Ptr b o; Ptr bd od] m v (<[bd := ld']> m) ∧
    wrote ld ld' od (STRSZ + 1) (basename (take (Z.to_nat STRSZ) s)).
Proof. intros. eapply path_start; eauto. by eapply basename_body. Qed.

(** C14: dirname() leaves the directory name of the path, cut at STRSZ
    characters, in the destination, and changes nothing outside of it. *)
Theorem dt_dirname_correct (m : mem) fb bd od ld b o l s :
  m !! fb = None → m !! bd = Some ld → 0 <= od → od + STRSZ + 1 <= Z.of_nat (length ld) →
  m !! b = Some l → string_at l o s → bd ≠ b →
  ∃ v ld', calls_to helper funs (dt_dirname STRSZ) fb [Ptr b o; Ptr bd od] m v (<[bd := ld']> m) ∧
    wrote ld ld' od (STRSZ + 1) (dirname (take (Z.to_nat STRSZ) s)).
Proof. intros. eapply path_start; eauto. by eapply dirname_body. Qed.

End Proofs.

(** The path /usr/lib/ in one block, a destination in another. *)
Definition path_mem : mem :=
  <[1 := zeros [47; 117; 115; 114; 47; 108; 105; 98; 47]]> (<[2 := replicate 20 Undef]> ∅).

Lemma path_mem_string : string_at (zeros [47; 117; 115; 114; 47; 108; 105; 98; 47]) 0 [47; 117; 115; 114; 47; 108; 105; 98; 47].
Proof. split; [done|]. split; [by repeat constructor|]. exists []. by rewrite app_nil_r. Qed.

Lemma dt_basename_correct_witness : ∃ v ld',
  calls_to copy_helper (λ _, None) (dt_basename 16) (-1) [Ptr 1 0; Ptr 2 0] path_mem v (<[2 := ld']> path_mem) ∧
  wrote (replicate 20 Undef) ld' 0 17 [108; 105; 98].
Proof.
  apply (dt_basename_correct copy_helper (λ _, None) 16 ltac:(lia) path_mem (-1) 2 0 (replicate 20 Undef)
    1 0 _ _ eq_refl eq_refl ltac:(lia) ltac:(simpl; lia) eq_refl path_mem_string ltac:(lia)).
Defined.

Lemma dt_dirname_correct_witness : ∃ v ld',
  calls_to copy_helper (λ _, None) (dt_dirname 16) (-1) [Ptr 1 0; Ptr 2 0] path_mem v (<[2 := ld']> path_mem) ∧
  wrote (replicate 20 Undef) ld' 0 17 [47; 117; 115; 114].
Proof.
  apply (dt_dirname_correct copy_helper (λ _, None) 16 ltac:(lia) path_mem (-1) 2 0 (replicate 20 Undef)
    1 0 _ _ eq_refl eq_refl ltac:(lia) ltac:(simpl; lia) eq_refl path_mem_string ltac:(lia)).
Defined.

End BpfPath.
