(* ===== verification/BpfStr.v ===== *)
(** * The string functions that run in the kernel: bpf/*.S

    Each function is its assembly text, instruction by instruction, and a
    theorem that says what memory and result a call of it leaves, on the machine
    of [Bpf].  STRSZ is the constant the loader substitutes for the string size
    option.  Pointers passed to a function point into different blocks, since
    the compiler gives each of them a buffer of its own. *)
From S2P Require Import Prelude Bpf.
Import Bpf.

Module BpfStr.

(** ** The programs *)

Section Programs.
Import Asm.
Variable STRSZ : Z.

(** void dt_strjoin(char *dst, const char *s1, const char *s2) *)
Definition dt_strjoin_text : list item := [
  mov r9 r1;
  mov r7 r2;
  mov r8 r3;
  lddw r6 STRSZ;
  add r6 1;
  mov r2 r6;
  mov r3 r7;
  call BPF_FUNC_probe_read_str;
  jsle r0 0 (Lab ".Lexit");
  mov r7 r0;
  jeq r7 r6 (Lab ".Lexit");
  sub r7 1;
  mov r1 r9;
  add r1 r7;
  mov r2 r6;
  sub r2 r7;
  mov r3 r8;
  call BPF_FUNC_probe_read_str;
  jsle r0 0 (Lab ".Lexit");
  add r7 r0;
  L ".Lexit";
  exit
].

Definition dt_strjoin : list insn := Eval vm_compute in assemble dt_strjoin_text.

(** void dt_substr(char *dst, const char *src, int32_t idx, int32_t cnt, uint64_t argc) *)
Definition dt_substr_text : list item := [
  mov r9 r1;
  stxdw fp (-8) r2;
  lsh r3 32;
  arsh r3 32;
  mov r6 r3;
  lddw r8 STRSZ;
  jgt r5 2 (Lab ".Lhave_cnt");
  mov r7 r8;
  ja (Lab ".Lcnt_set");
  L ".Lhave_cnt";
  lsh r4 32;
  arsh r4 32;
  mov r7 r4;
  L ".Lcnt_set";
  mov r3 r2;
  mov r2 r8;
  add r2 1;
  call BPF_FUNC_probe_read_str;
  jslt r0 1 (Lab ".Lempty");
  sub r0 1;
  mov r4 r8;
  mov r8 r0;
  jsge r6 0 (Lab ".Lcheck_idx");
  add r6 r8;
  jsge r6 0 (Lab ".Lcheck_idx");
  mov r0 0;
  sub r0 r6;
  jsle r7 r0 (Lab ".Lempty");
  add r7 r6;
  mov r6 0;
  L ".Lcheck_idx";
  jsge r6 r8 (Lab ".Lempty");
  jsge r7 0 (Lab ".Lcopy");
  mov r0 r8;
  sub r0 r6;
  add r7 r0;
  jsle r7 0 (Lab ".Lempty");
  L ".Lcopy";
  mov r1 r9;
  mov r2 r7;
  jle r2 r4 (Lab ".Lcnt_ok");
  mov r2 r4;
  L ".Lcnt_ok";
  add r2 1;
  ldxdw r3 fp (-8);
  add r3 r6;
  call BPF_FUNC_probe_read_str;
  exit;
  L ".Lempty";
  stb r9 0 0;
  exit
].

Definition dt_substr : list insn := Eval vm_compute in assemble dt_substr_text.

End Programs.

(** ** Substrings *)

(** The characters of [s] at the positions from [lo] up to [hi]. *)
Definition slice (s : list Z) (lo hi : Z) : list Z :=
  take (Z.to_nat (hi - lo)) (drop (Z.to_nat lo) s).

(** substr(s, idx, cnt): a negative [idx] counts from the end of the string, a
    negative [cnt] is a number of characters to leave out at the end. *)
Definition substr (s : list Z) (idx cnt : Z) : list Z :=
  let len := Z.of_nat (length s) in
  let start := if idx <? 0 then idx + len else idx in
  if (start <? 0) && (cnt <? 0) then []
  else slice s (Z.max 0 start) (if cnt <? 0 then len + cnt else start + cnt).

(** ** Proofs *)

Section Proofs.
Context (helper : Z → list (option val) → mem → option (val * mem)) `{!CopyHelpers helper}.
Variable funs : string → option (list insn).
Variable STRSZ : Z.
Hypothesis STRSZ_ok : 0 < STRSZ < 2 ^ 31.

(** Strjoin() leaves the concatenation of the two strings in the
    destination, cut at STRSZ characters, and changes nothing else. *)
Theorem dt_strjoin_correct (m : mem) fb bd od ld b1 o1 l1 s1 b2 o2 l2 s2 :
  m !! fb = None →
  m !! bd = Some ld → 0 <= od → od + STRSZ + 1 <= Z.of_nat (length ld) →
  m !! b1 = Some l1 → string_at l1 o1 s1 → m !! b2 = Some l2 → string_at l2 o2 s2 → bd ≠ b1 → bd ≠ b2 →
  ∃ v, calls_to helper funs (dt_strjoin STRSZ) fb [Ptr bd od; Ptr b1 o1; Ptr b2 o2] m v
    (<[bd := overwrite ld od (zeros (take (Z.to_nat STRSZ) (s1 ++ s2)))]> m).
Proof.
  intros Hfb Hd Hod Hroom H1 Hs1 H2 Hs2 Hn1 Hn2.
  assert (fb ≠ bd) by (intros ->; congruence). assert (fb ≠ b1) by (intros ->; congruence).
  assert (fb ≠ b2) by (intros ->; congruence).
  destruct (decide (STRSZ <= Z.of_nat (length s1))) as [Hfull|Hfull].
  - do 2 eexists. split.
    { cbn [fmap list_fmap app replicate length Nat.sub]. do 7 exec. in_range. exec.
      { eapply probe_read_string; [block|block|done|done|lia|lia|lia]. }
      exec. in_range. not_taken. do 2 exec. taken. exec; reflexivity. }
    rewrite take_app_le by lia. replace (Z.to_nat (STRSZ + 1) - 1)%nat with (Z.to_nat STRSZ) by lia.
    mem_eq fb bd.
  - do 2 eexists. split.
    { cbn [fmap list_fmap app replicate length Nat.sub]. do 7 exec. in_range. exec.
      { eapply probe_read_string; [block|block|done|done|lia|lia|lia]. }
      exec. in_range. not_taken. do 2 exec. not_taken. rewrite Z.min_l by lia.
      do 6 exec. in_range. rewrite Z.add_simpl_r. rewrite (take_ge s1) by lia. exec.
      { eapply probe_read_string; [block|block|done|done|lia|lia|].
        rewrite overwrite_length; rewrite ?zeros_length; lia. }
      exec. in_range. not_taken. exec. in_range. exec; reflexivity. }
    rewrite overwrite_append by (rewrite ?length_take; lia).
    rewrite take_app_ge by lia.
    replace (Z.to_nat (STRSZ + 1 - Z.of_nat (length s1)) - 1)%nat with (Z.to_nat STRSZ - length s1)%nat by lia.
    mem_eq fb bd.
Qed.

(** *** substr() *)

Section Substr.
Variables (M : mem) (fb bd od b o : Z) (lf ld ld1 l : list memval) (s : list Z).
Hypothesis Hf : M !! fb = Some lf.
Hypothesis Hslot : slot lf 504 (Ptr b o).
Hypothesis Hd : M !! bd = Some ld1.
Hypothesis Hod : 0 <= od.
Hypothesis Hroom : od + STRSZ + 1 <= Z.of_nat (length ld).
Hypothesis Hw : wrote ld ld1 od (STRSZ + 1) s.
Hypothesis Hb : M !! b = Some l.
Hypothesis Hstr : string_at l o s.
Hypothesis Hne : bd ≠ b.
Hypothesis Hlen : Z.of_nat (length s) <= STRSZ.

(** The run from [pc] on leaves the string [t]. *)
Let leaves (pc : Z) (rs : regs) (t : list Z) : Prop :=
  ∃ v ld', runs_to helper funs (dt_substr STRSZ) fb pc rs M v (<[bd := ld']> M) ∧ wrote ld ld' od (STRSZ + 1) t.

Lemma substr_empty x0 x1 x2 x3 x4 x5 x6 x7 x8 :
  leaves 43 [x0; x1; x2; x3; x4; x5; x6; x7; x8; Some (Ptr bd od); Some (Ptr fb 512)] [].
Proof.
  pose proof (wrote_length _ _ _ _ _ Hw) as Hl1. do 2 eexists. split.
  - exec. { eapply store_byte; [exact Hd|lia]. } exec; reflexivity.
  - rewrite Z.add_0_r, <- overwrite_one by lia. change [Byte (u8 0)] with (zeros []).
    eapply wrote_again; [exact Hw|done|lia|simpl; lia|done].
Qed.

Lemma substr_copy x0 idx cnt : 0 <= idx < Z.of_nat (length s) → 0 <= cnt < 2 ^ 63 →
  leaves 34 [x0; None; None; None; Some (Int STRSZ); None; Some (Int idx); Some (Int cnt);
             Some (Int (Z.of_nat (length s))); Some (Ptr bd od); Some (Ptr fb 512)]
    (slice s idx (idx + cnt)).
Proof.
  intros Hidx Hcnt. pose proof (wrote_length _ _ _ _ _ Hw) as Hl1.
  assert (∃ c, c = Z.min cnt STRSZ ∧ 0 <= c <= STRSZ) as (c & Ec & Hc) by (eexists; split; [done|lia]).
  assert (slice s idx (idx + cnt) = take (Z.to_nat c) (drop (Z.to_nat idx) s)) as Hsl.
  { unfold slice. replace (idx + cnt - idx) with cnt by lia. rewrite Ec.
    destruct (Z.min_spec cnt STRSZ) as [[? ->]|[? ->]]; [done|].
    rewrite !take_ge by (rewrite length_drop; lia). done. }
  assert (string_at l (o + idx) (drop (Z.to_nat idx) s)) as Hsub.
  { replace idx with (Z.of_nat (length (take (Z.to_nat idx) s))) at 1 by (rewrite length_take; lia).
    apply string_at_drop. by rewrite take_drop. }
  assert (length (drop (Z.to_nat idx) s) = length s - Z.to_nat idx)%nat as Hdl by apply length_drop.
  assert (Forall char (drop (Z.to_nat idx) s)) as Hch by by destruct Hsub as (_ & ? & _).
  exists (Some (Int (Z.min (Z.of_nat (length (drop (Z.to_nat idx) s)) + 1) (c + 1)))).
  exists (overwrite ld1 od (zeros (take (Z.to_nat c) (drop (Z.to_nat idx) s)))). rewrite Hsl. split.
  2:{ eapply wrote_again; [exact Hw|done|lia|rewrite length_take; lia|by apply Forall_take]. }
  assert (runs_to helper funs (dt_substr STRSZ) fb 38
    [x0; Some (Ptr bd od); Some (Int c); None; Some (Int STRSZ); None; Some (Int idx); Some (Int cnt);
     Some (Int (Z.of_nat (length s))); Some (Ptr bd od); Some (Ptr fb 512)] M
    (Some (Int (Z.min (Z.of_nat (length (drop (Z.to_nat idx) s)) + 1) (c + 1))))
    (<[bd := overwrite ld1 od (zeros (take (Z.to_nat c) (drop (Z.to_nat idx) s)))]> M)) as Hend.
  { exec. in_range. exec. { eapply load_slot; [exact Hf|exact Hslot]. }
    exec. in_range. exec.
    { eapply probe_read_string; [exact Hd|exact Hb|exact Hsub|done|lia|lia|lia]. }
    replace (Z.to_nat (c + 1) - 1)%nat with (Z.to_nat c) by lia. exec; reflexivity. }
  do 3 exec. destruct (Z.leb_spec cnt STRSZ).
  - replace c with cnt in * by lia. exact Hend.
  - exec. replace c with STRSZ in * by lia. exact Hend.
Qed.

Lemma substr_check x0 idx cnt : 0 <= idx < 2 ^ 62 → - 2 ^ 62 <= cnt < 2 ^ 62 →
  leaves 28 [x0; None; None; None; Some (Int STRSZ); None; Some (Int idx); Some (Int (u64 cnt));
             Some (Int (Z.of_nat (length s))); Some (Ptr bd od); Some (Ptr fb 512)]
    (slice s idx (if cnt <? 0 then Z.of_nat (length s) + cnt else idx + cnt)).
Proof.
  intros Hidx Hcnt. set (len := Z.of_nat (length s)) in *.
  destruct (decide (len <= idx)) as [Hge|Hlt].
  { replace (slice s idx _) with ([] : list Z) by (unfold slice; rewrite (drop_ge s) by lia; by rewrite take_nil).
    destruct (substr_empty x0 None None None (Some (Int STRSZ)) None (Some (Int idx)) (Some (Int (u64 cnt)))
      (Some (Int len))) as (v & ld' & Hrun & Hw'). exists v, ld'. split; [|done].
    exec. in_range. taken. exact Hrun. }
  destruct (Z.ltb_spec cnt 0) as [Hneg|Hpos].
  - destruct (decide (cnt + (len - idx) <= 0)) as [Hle|Hgt].
    + replace (slice s idx _) with ([] : list Z)
        by (unfold slice; replace (Z.to_nat (len + cnt - idx)) with 0%nat by lia; done).
      destruct (substr_empty (Some (Int (len - idx))) None None None (Some (Int STRSZ)) None (Some (Int idx))
        (Some (Int (u64 (cnt + (len - idx))))) (Some (Int len))) as (v & ld' & Hrun & Hw'). exists v, ld'. split; [|done].
      exec. in_range. not_taken. exec. autorewrite with wrap. in_range. not_taken. do 3 exec.
      autorewrite with wrap. rewrite (wrap_id 64 (len - idx)) by (unfold urange; lia).
      exec. autorewrite with wrap. in_range. taken. exact Hrun.
    + destruct (substr_copy (Some (Int (len - idx))) idx (cnt + (len - idx))) as (v & ld' & Hrun & Hw'); [lia|lia|].
      exists v, ld'. replace (idx + (cnt + (len - idx))) with (len + cnt) in Hw' by lia. split; [|done].
      exec. in_range. not_taken. exec. autorewrite with wrap. in_range. not_taken. do 3 exec.
      autorewrite with wrap. in_range.
      exec. in_range. not_taken. exact Hrun.
  - destruct (substr_copy x0 idx cnt) as (v & ld' & Hrun & Hw'); [lia|lia|]. exists v, ld'. split; [|done].
    exec. in_range. not_taken. exec. in_range. taken. exact Hrun.
Qed.

Lemma substr_tail x0 idx cnt : - 2 ^ 31 <= idx < 2 ^ 31 → - 2 ^ 31 <= cnt < 2 ^ 31 →
  leaves 20 [x0; None; None; None; Some (Int STRSZ); None; Some (Int (u64 idx)); Some (Int (u64 cnt));
             Some (Int (Z.of_nat (length s))); Some (Ptr bd od); Some (Ptr fb 512)]
    (substr s idx cnt).
Proof.
  intros Hidx Hcnt. unfold substr. cbv zeta. set (len := Z.of_nat (length s)) in *.
  destruct (Z.ltb_spec idx 0) as [Hneg|Hpos].
  2:{ replace (idx <? 0) with false by lia. cbn [andb]. rewrite Z.max_r by lia.
      destruct (substr_check x0 idx cnt) as (v & ld' & Hrun & Hw'); [lia|lia|]. exists v, ld'. split; [|done].
      exec. autorewrite with wrap. in_range. taken. exact Hrun. }
  destruct (Z.ltb_spec (idx + len) 0) as [Hneg'|Hpos']; cbn [andb].
  2:{ rewrite Z.max_r by lia. destruct (substr_check x0 (idx + len) cnt) as (v & ld' & Hrun & Hw'); [lia|lia|].
      exists v, ld'. split; [|done].
      exec. autorewrite with wrap. in_range. not_taken. exec. autorewrite with wrap. in_range.
      exec. in_range. taken. exact Hrun. }
  destruct (decide (cnt <= - (idx + len))) as [Hle|Hgt].
  - replace (if cnt <? 0 then [] else _) with ([] : list Z).
    2:{ destruct (Z.ltb_spec cnt 0); [done|]. unfold slice.
        replace (Z.to_nat (idx + len + cnt - Z.max 0 (idx + len))) with 0%nat by lia. done. }
    destruct (substr_empty (Some (Int (- (idx + len)))) None None None (Some (Int STRSZ)) None
      (Some (Int (u64 (idx + len)))) (Some (Int (u64 cnt))) (Some (Int len))) as (v & ld' & Hrun & Hw').
    exists v, ld'. split; [|done].
    exec. autorewrite with wrap. in_range. not_taken. exec. autorewrite with wrap.
    exec. autorewrite with wrap. in_range. not_taken. do 2 exec. autorewrite with wrap.
    rewrite (wrap_id 64 (0 - (idx + len))) by (unfold urange; lia). exec. autorewrite with wrap. in_range. taken. exact Hrun.
  - replace (cnt <? 0) with false by lia. rewrite Z.max_l by lia.
    destruct (substr_check (Some (Int (- (idx + len)))) 0 (idx + len + cnt)) as (v & ld' & Hrun & Hw'); [lia|lia|].
    replace (idx + len + cnt <? 0) with false in Hw' by lia. exists v, ld'. split; [|done].
    rewrite wrap_id in Hrun by (unfold urange; lia).
    exec. autorewrite with wrap. in_range. not_taken. exec. autorewrite with wrap.
    exec. autorewrite with wrap. in_range. not_taken. do 2 exec. autorewrite with wrap. in_range.
    exec. autorewrite with wrap. in_range. not_taken. exec. autorewrite with wrap. in_range. exec.
    replace (cnt + (idx + len)) with (idx + len + cnt) by lia. exact Hrun.
Qed.

End Substr.

(** C16: substr() leaves the substring that its arguments, taken as 32-bit
    integers, ask for in the destination; without a count the substring goes to
    the end of the string.  Nothing outside of the destination changes. *)
Theorem dt_substr_correct (m : mem) fb bd od ld b o l s zi zc argc :
  m !! fb = None → m !! bd = Some ld → 0 <= od → od + STRSZ + 1 <= Z.of_nat (length ld) →
  m !! b = Some l → string_at l o s → bd ≠ b → Z.of_nat (length s) <= STRSZ →
  ∃ v ld', calls_to helper funs (dt_substr STRSZ) fb [Ptr bd od; Ptr b o; Int zi; Int zc; Int argc] m v
      (<[bd := ld']> m) ∧
    wrote ld ld' od (STRSZ + 1) (substr s (s32 zi) (if 2 <? argc then s32 zc else STRSZ)).
Proof.
  intros Hfb Hd Hod Hroom Hb Hstr Hne Hlen.
  assert (fb ≠ bd) by (intros ->; congruence). assert (fb ≠ b) by (intros ->; congruence).
  destruct (store_slot (<[fb := frame0]> m) fb 504 (frame0) (Ptr b o))
    as (lf & Hst & Hlf & Hslot & _); [block|lia|done|done|].
  set (cnt := if 2 <? argc then s32 zc else STRSZ).
  assert (- 2 ^ 31 <= cnt < 2 ^ 31) as Hcnt.
  { unfold cnt. pose proof (swrap_range 32 zc ltac:(lia)) as Hr. unfold srange in Hr. destruct (2 <? argc); lia. }
  pose proof (swrap_range 32 zi ltac:(lia)) as Hidx. unfold srange in Hidx. change (32 - 1) with 31 in Hidx.
  set (M := <[bd := overwrite ld od (zeros s)]> (<[fb := lf]> (<[fb := frame0]> m))).
  destruct (substr_tail M fb bd od b o lf ld (overwrite ld od (zeros s)) l s) with
    (x0 := Some (Int (Z.of_nat (length s)))) (idx := s32 zi) (cnt := cnt) as (v & ld' & Hrun & Hw); try done.
  { unfold M; block. } { unfold M; block. }
  { destruct Hstr as (_ & Hc & _). apply wrote_once; [done|lia|lia|done]. }
  { unfold M; block. }
  exists v, ld'. split; [|done]. exists (<[bd := ld']> M). split; [|unfold M; mem_eq fb bd].
  cbn [fmap list_fmap app replicate length Nat.sub].
  exec. exec. { exact Hst. }
  do 2 exec. rewrite sign_extend_32. do 2 exec.
  assert (runs_to helper funs (dt_substr STRSZ) fb 12
    [None; Some (Ptr bd od); Some (Ptr b o); Some (Int (u64 (s32 zi))); Some (Int (if 2 <? argc then u64 (s32 zc) else zc)); Some (Int argc);
     Some (Int (u64 (s32 zi))); Some (Int (u64 cnt)); Some (Int STRSZ); Some (Ptr bd od);
     Some (Ptr fb 512)] (<[fb := lf]> (<[fb := frame0]> m)) v (<[bd := ld']> M)) as Hset.
  { do 3 exec. in_range. exec.
    { eapply probe_read_string; [block|block|done|done|lia|lia|lia]. }
    replace (Z.to_nat (STRSZ + 1) - 1)%nat with (Z.to_nat STRSZ) by lia. rewrite (take_ge s) by lia.
    rewrite Z.min_l by lia. exec. in_range. not_taken. exec. in_range. rewrite Z.add_simpl_r. do 2 exec. exact Hrun. }
  exec. unfold cnt in Hset. destruct (2 <? argc).
  - do 3 exec. rewrite sign_extend_32. exact Hset.
  - do 2 exec. rewrite (wrap_id 64 STRSZ) in Hset by (unfold urange; lia). exact Hset.
Qed.

End Proofs.

(** The string abcdef in one block, a destination in another. *)
Definition str_mem : mem :=
  <[1 := zeros [97; 98; 99; 100; 101; 102]]> (<[2 := replicate 20 Undef]> ∅).

Lemma str_mem_string : string_at (zeros [97; 98; 99; 100; 101; 102]) 0 [97; 98; 99; 100; 101; 102].
Proof. split; [done|]. split; [by repeat constructor|]. exists []. by rewrite app_nil_r. Qed.

Lemma dt_strjoin_correct_witness : ∃ v,
  calls_to copy_helper (λ _, None) (dt_strjoin 8) (-1) [Ptr 2 0; Ptr 1 0; Ptr 1 0] str_mem v
    (<[2 := overwrite (replicate 20 Undef) 0 (zeros [97; 98; 99; 100; 101; 102; 97; 98])]> str_mem).
Proof.
  apply (dt_strjoin_correct copy_helper (λ _, None) 8 ltac:(lia) str_mem (-1) 2 0 (replicate 20 Undef) 1 0 _ _ 1 0 _ _
    eq_refl eq_refl ltac:(lia) ltac:(simpl; lia) eq_refl str_mem_string eq_refl str_mem_string ltac:(lia) ltac:(lia)).
Defined.

Lemma dt_substr_correct_witness : ∃ v ld',
  calls_to copy_helper (λ _, None) (dt_substr 16) (-1) [Ptr 2 0; Ptr 1 0; Int (2 ^ 32 - 4); Int 2; Int 3] str_mem v
    (<[2 := ld']> str_mem) ∧ wrote (replicate 20 Undef) ld' 0 17 [99; 100].
Proof.
  apply (dt_substr_correct copy_helper (λ _, None) 16 ltac:(lia) str_mem (-1) 2 0 (replicate 20 Undef) 1 0 _ _
    (2 ^ 32 - 4) 2 3 eq_refl eq_refl ltac:(lia) ltac:(simpl; lia) eq_refl str_mem_string ltac:(lia) ltac:(simpl; lia)).
Defined.

End BpfStr.
