(* ===== verification/BpfChr.v ===== *)
(** * Searching for characters in the kernel

    bpf/strrchr.S and bpf/strchr.S as assembly text, and theorems
    that say what a call of them leaves, on the machine of [Bpf]. *)
From S2P Require Import Prelude Bpf BpfWords.
Import Bpf BpfWords.

Module BpfChr.

(** ** The programs *)

Section Programs.
Import Asm.
Variable STRSZ : Z.

(** uint64_t dt_strrchr(char *src, uint64_t c, char *dst) *)
Definition dt_strrchr_text : list item := [
  lsh r2 56;
  stxdw fp (-8) r1;
  stxdw fp (-16) r2;
  stxdw fp (-24) r3;
  ldxdw r1 fp (-24);
  lddw r2 STRSZ;
  ldxdw r3 fp (-8);
  call BPF_FUNC_probe_read_str;
  jsle r0 0 (Lab ".Lnone");
  mov r6 r0;
  sub r6 1;
  mov r8 r6;
  ldxdw r5 fp (-16);
  jsle r8 0 (Lab ".Lnone");
  L ".Lloop";
  sub r8 1;
  mov r4 r8;
  ldxdw r3 fp (-8);
  add r3 r4;
  ldxb r3 r3 0;
  lsh r3 56;
  jeq r3 r5 (Lab ".Lfound");
  jgt r8 0 (Lab ".Lloop");
  L ".Lnone";
  mov r0 (-1);
  exit;
  L ".Lfound";
  sub r6 r8;
  jsle r6 0 (Lab ".Lnone");
  ldxdw r1 fp (-24);
  mov r2 r6;
  ldxdw r3 fp (-8);
  add r3 r8;
  call BPF_FUNC_probe_read;
  ldxdw r1 fp (-24);
  add r1 r6;
  mov r2 0;
  stxb r1 0 r2;
  mov r0 0;
  exit
].

Definition dt_strrchr : list insn := Eval vm_compute in assemble dt_strrchr_text.

(** uint64_t dt_strchr(char *src, uint64_t c, char *dst, char *tmp) *)
Definition dt_strchr_text : list item := [
  and r2 0xff;
  mov r5 r2;
  lsh r5 8;
  or r2 r5;
  mov r5 r2;
  lsh r5 16;
  or r2 r5;
  mov r5 r2;
  lsh r5 32;
  or r2 r5;
  stxdw fp (-8) r1;
  stxdw fp (-16) r2;
  stxdw fp (-24) r3;
  stxdw fp (-32) r4;
  ldxdw r1 fp (-24);
  lddw r2 STRSZ;
  ldxdw r3 fp (-8);
  call BPF_FUNC_probe_read_str;
  mov r6 r0;
  jsle r6 0 (Lab ".Lerror");
  sub r6 1;
  mov r4 r6;
  add r4 7;
  and r4 (-8);
  ldxdw r1 fp (-16);
  mov r3 0;
  L ".Lloop";
  ldxdw r5 fp (-24);
  add r5 r3;
  ldxdw r0 r5 0;
  xor r0 r1;
  stxdw r5 0 r0;
  add r3 8;
  jlt r3 r4 (Lab ".Lloop");
  ldxdw r2 fp (-24);
  add r2 r6;
  mov r0 0;
  stxb r2 0 r0;
  ldxdw r1 fp (-32);
  mov r2 r6;
  add r2 1;
  ldxdw r3 fp (-24);
  call BPF_FUNC_probe_read_str;
  jsle r0 0 (Lab ".Lerror");
  lsh r0 32;
  arsh r0 32;
  mov r8 r0;
  add r8 (-1);
  sub r6 r8;
  jsle r6 0 (Lab ".Lerror");
  ldxdw r1 fp (-24);
  mov r2 r6;
  ldxdw r3 fp (-8);
  add r3 r8;
  call BPF_FUNC_probe_read;
  ldxdw r1 fp (-24);
  add r1 r6;
  mov r2 0;
  stxb r1 0 r2;
  mov r0 0;
  exit;
  L ".Lerror";
  mov r0 (-1);
  exit
].

Definition dt_strchr : list insn := Eval vm_compute in assemble dt_strchr_text.

End Programs.

(** ** Positions of characters *)

(** The last position of [c] in the reverse of [rl]. *)
Fixpoint last_from (c : Z) (rl : list Z) : option nat :=
  match rl with
  | [] => None
  | x :: rl => if x =? c then Some (length rl) else last_from c rl
  end.

Lemma last_from_lt c rl i : last_from c rl = Some i → (i < length rl)%nat.
Proof.
  induction rl as [|x rl IH]; [done|]. simpl. destruct (x =? c); [intros [= <-]; lia|].
  intros ?%IH. lia.
Qed.

(** The first position of [c]. *)
Fixpoint first_index (c : Z) (s : list Z) : option nat :=
  match s with
  | [] => None
  | x :: s => if x =? c then Some 0%nat else S <$> first_index c s
  end.

(** After [xor] with [c] the first NUL is where the first [c] was. *)
Lemma first_index_xor c s :
  length (until_nul (((λ x, Z.lxor x c) <$> s) ++ [0])) = default (length s) (first_index c s).
Proof.
  induction s as [|x s IH]; [done|]. cbn [fmap list_fmap app until_nul first_index].
  destruct (Z.eqb_spec x c) as [->|Hne].
  - by rewrite Z.lxor_nilpotent.
  - rewrite (proj2 (Z.eqb_neq _ _)).
    + cbn [length]. rewrite IH. by destruct (first_index c s).
    + by rewrite Z.lxor_eq_0_iff.
Qed.

Lemma first_index_lt c s i : first_index c s = Some i → (i < length s)%nat.
Proof.
  revert i. induction s as [|x s IH]; [done|]. intros i. simpl. destruct (x =? c); [intros [= <-]; lia|].
  destruct (first_index c s) as [j|]; [|done]. simpl. intros [= <-]. specialize (IH j eq_refl). lia.
Qed.

Definition last_index (c : Z) (s : list Z) : option nat := last_from c (rev s).

(** ** Proofs *)

Section Proofs.
Context (helper : Z → list (option val) → mem → option (val * mem)) `{!CopyHelpers helper}.
Variable funs : string → option (list insn).
Variable STRSZ : Z.
Hypothesis STRSZ_ok : 0 < STRSZ < 2 ^ 31.

Lemma shl_char c : u64 (Z.shiftl c 56) = c mod 2 ^ 8 * 2 ^ 56.
Proof.
  unfold wrap. rewrite Z.shiftl_mul_pow2 by lia. change (2 ^ 64) with (2 ^ 8 * 2 ^ 56).
  by rewrite Z.mul_mod_distr_r by lia.
Qed.

(** *** strrchr() *)

Section StrrchrLoop.
Variables (M m' : mem) (fb b o : Z) (lf l : list memval) (s : list Z) (c : Z) (v x0 : option val) (len : Z).
Hypothesis Hf : M !! fb = Some lf.
Hypothesis Hslot : slot lf 504 (Ptr b o).
Hypothesis Hb : M !! b = Some l.
Hypothesis Ho : 0 <= o.
Hypothesis Hs : ∀ i x, s !! i = Some x → char x ∧ l !! Z.to_nat (o + Z.of_nat i) = Some (Byte x).
Hypothesis Hlen : Z.of_nat (length s) < 2 ^ 32.

Let chr_regs (x3 x4 : option val) (i : Z) : regs :=
  [x0; None; None; x3; x4; Some (Int (u64 (Z.shiftl c 56))); Some (Int len); None; Some (Int i); None;
   Some (Ptr fb 512)].

Lemma strrchr_loop rl tail x3 x4 : rl ≠ [] → s = rev rl ++ tail →
  (∀ x3 x4 x8, last_from (c mod 2 ^ 8) rl = None →
     runs_to helper funs (dt_strrchr STRSZ) fb 22 (chr_regs x3 x4 x8) M v m') →
  (∀ x3 x4 i, last_from (c mod 2 ^ 8) rl = Some i →
     runs_to helper funs (dt_strrchr STRSZ) fb 24 (chr_regs x3 x4 (Z.of_nat i)) M v m') →
  runs_to helper funs (dt_strrchr STRSZ) fb 14 (chr_regs x3 x4 (Z.of_nat (length rl))) M v m'.
Proof.
  revert tail x3 x4. induction rl as [|x rl IH]; intros tail x3 x4 Hnil E Hnone Hfound; [done|].
  destruct (scan_char s rl x tail E) as [Hx Hlt]. destruct (Hs _ _ Hx) as [Hchar Hl].
  cbn [last_from] in Hnone, Hfound. unfold chr_regs.
  exec. in_range. replace (Z.of_nat (length (x :: rl)) - 1) with (Z.of_nat (length rl)) by (simpl; lia).
  do 2 exec. { eapply load_slot; [exact Hf|exact Hslot]. }
  exec. in_range. exec. { eapply load_byte; [done|lia|]. by rewrite Z.add_0_r. }
  exec. exec. rewrite !(shl_char). 
  rewrite (Z.mod_small x) in * by (unfold char in Hchar; lia).
  destruct (Z.eqb_spec (x * 2 ^ 56) (c mod 2 ^ 8 * 2 ^ 56)) as [Heq|Hneq].
  - rewrite <- shl_char. apply Hfound. by replace (x =? c mod 2 ^ 8) with true by lia.
  - replace (x =? c mod 2 ^ 8) with false in * by lia. exec. rewrite <- shl_char.
    destruct rl as [|y rl].
    + apply (Hnone _ _ 0). done.
    + cbn [length]. taken. eapply (IH (x :: tail)); [done|by rewrite E; simpl; rewrite <- !app_assoc|done|done].
Qed.

End StrrchrLoop.

(** Copying the end of the string, from position [i] on. *)
Lemma strrchr_found (M : mem) fb bd od (ld ld1 : list memval) b o lf l s x0 x3 x4 x5 i L :
  M !! fb = Some lf → slot lf 504 (Ptr b o) → slot lf 488 (Ptr bd od) →
  M !! bd = Some ld1 → 0 <= od → length ld1 = length ld → od + Z.of_nat L < Z.of_nat (length ld) →
  M !! b = Some l → string_at l o s → bd ≠ b → fb ≠ bd → (i < L)%nat → (L <= length s)%nat → Z.of_nat L < 2 ^ 31 →
  runs_to helper funs (dt_strrchr STRSZ) fb 24
    [x0; None; None; x3; x4; x5; Some (Int (Z.of_nat L)); None; Some (Int (Z.of_nat i)); None; Some (Ptr fb 512)]
    M (Some (Int 0)) (<[bd := overwrite ld1 od (zeros (drop i (take L s)))]> M).
Proof.
  intros Hf H504 H488 Hd Hod Hl1 Hroom Hb Hstr Hne Hfbd Hi HL Hb31.
  set (t := take (L - i) (drop i s)).
  assert (drop i (take L s) = t) as Ht by (unfold t; by rewrite skipn_firstn_comm).
  assert (length t = L - i)%nat as Hlt by (unfold t; rewrite length_take, length_drop; lia).
  exec. in_range. exec. in_range. not_taken.
  exec. { eapply load_slot; [exact Hf|exact H488]. }
  do 2 exec. { eapply load_slot; [exact Hf|exact H504]. }
  exec. in_range. exec.
  { eapply probe_read_law; [done|lia| |].
    - replace (Z.to_nat (Z.of_nat L - Z.of_nat i)) with (L - i)%nat by lia.
      eapply load_string; [exact Hb|exact Hstr|lia].
    - eapply storen_at; [exact Hd|done|]. fold t. rewrite length_fmap. lia. }
  exec. { eapply load_slot; [block|exact H488]. }
  do 2 exec. in_range. exec.
  { eapply store_byte; [block|]. fold t. rewrite overwrite_length; rewrite ?length_fmap; lia. }
  exec. exec; [reflexivity|]. rewrite insert_insert_eq, Ht, Z.add_0_r. fold t.
  replace (Z.of_nat L - Z.of_nat i) with (Z.of_nat (length t)) by lia.
  change (u8 0) with 0. by rewrite overwrite_nul by lia.
Qed.

(** Strrchr() looks for the last occurrence of the character in the first
    STRSZ - 1 characters of the string.  If there is one it leaves the string
    from there on in the destination and returns 0, otherwise it returns -1. *)
Theorem dt_strrchr_correct (m : mem) fb bd od ld b o l s c :
  let s' := take (Z.to_nat STRSZ - 1) s in
  m !! fb = None → m !! bd = Some ld → 0 <= od → od + STRSZ <= Z.of_nat (length ld) →
  m !! b = Some l → string_at l o s → bd ≠ b →
  ∃ ld', calls_to helper funs (dt_strrchr STRSZ) fb [Ptr b o; Int c; Ptr bd od] m
      (Some (Int (match last_index (c mod 2 ^ 8) s' with Some _ => 0 | None => 2 ^ 64 - 1 end))) (<[bd := ld']> m) ∧
    wrote ld ld' od STRSZ (match last_index (c mod 2 ^ 8) s' with Some i => drop i s' | None => s' end).
Proof.
  intros s' Hfb Hd Hod Hroom Hb Hstr Hne.
  assert (fb ≠ bd) by (intros ->; congruence). assert (fb ≠ b) by (intros ->; congruence).
  set (lf := spill (spill (spill frame0 504 (Ptr b o)) 496 (Int (u64 (Z.shiftl c 56)))) 488 (Ptr bd od)).
  set (ld1 := overwrite ld od (zeros s')). set (M := <[bd := ld1]> (<[fb := lf]> m)).
  pose proof (wrap_range 64 (Z.shiftl c 56) ltac:(lia)) as Hc56. unfold urange in Hc56.
  assert (slot lf 504 (Ptr b o) ∧ slot lf 496 (Int (u64 (Z.shiftl c 56))) ∧ slot lf 488 (Ptr bd od))
    as (H504 & H496 & H488) by (unfold lf; split_and!; slots).
  assert (Z.of_nat (length s') < STRSZ) as Hlen by (unfold s'; rewrite length_take; lia).
  assert (length ld1 = length ld) as Hl1 by (unfold ld1; rewrite overwrite_length; rewrite ?zeros_length; lia).
  assert (Forall char s') as Hchars by (destruct Hstr as (_ & ? & _); by apply Forall_take).
  assert (wrote ld ld1 od STRSZ s') as Hw1 by (apply wrote_once; [done|lia|lia|done]).
  assert (M !! fb = Some lf) as HMf by (unfold M; block).
  assert (M !! bd = Some ld1) as HMd by (unfold M; block).
  assert (M !! b = Some l) as HMb by (unfold M; block).
  assert (∃ ld', runs_to helper funs (dt_strrchr STRSZ) fb 8
      [Some (Int (Z.of_nat (length s') + 1)); None; None; None; None; None; None; None; None; None;
       Some (Ptr fb 512)] M
      (Some (Int (match last_index (c mod 2 ^ 8) s' with Some _ => 0 | None => 2 ^ 64 - 1 end))) (<[bd := ld']> M) ∧
    wrote ld ld' od STRSZ (match last_index (c mod 2 ^ 8) s' with Some i => drop i s' | None => s' end))
    as (ld' & Hrun & Hw).
  2:{ exists ld'. split; [|done]. exists (<[bd := ld']> M). split; [|unfold M; mem_eq fb bd].
      cbn [fmap list_fmap app replicate length Nat.sub]. exec.
      do 3 (exec; [eapply store_spill; [block|lia|frame_size]|]). rewrite !insert_insert_eq. fold lf.
      exec. { eapply load_slot; [block|exact H488]. }
      exec. exec. { eapply load_slot; [block|exact H504]. }
      exec. { eapply probe_read_string; [block|block|done|done|lia|lia|lia]. }
      fold s' ld1. fold M. replace (Z.min _ _) with (Z.of_nat (length s') + 1); [exact Hrun|].
      unfold s'. rewrite length_take. lia. }
  assert (∀ x0 x3 x4 x5 x6 x8, runs_to helper funs (dt_strrchr STRSZ) fb 22
    [x0; None; None; x3; x4; x5; x6; None; x8; None; Some (Ptr fb 512)] M
    (Some (Int (2 ^ 64 - 1))) (<[bd := ld1]> M)) as Hnone.
  { intros. exec. exec; [reflexivity|]. by rewrite insert_id. }
  destruct (decide (s' = [])) as [E|Hnil].
  { exists ld1. rewrite E in *. split; [|done]. exec. in_range. not_taken. do 3 exec.
    exec. { eapply load_slot; [exact HMf|exact H496]. } exec. apply Hnone. }
  assert (0 < Z.of_nat (length s')) by (destruct s'; [done|simpl; lia]).
  assert (s' = rev (rev s') ++ []) as Erev by by rewrite app_nil_r, rev_involutive.
  assert (∀ i x, s' !! i = Some x → char x ∧ l !! Z.to_nat (o + Z.of_nat i) = Some (Byte x)) as Hlook.
  { intros i x Hi. split; [by eapply Forall_lookup_1|].
    apply lookup_take_Some in Hi as [Hi _]. by eapply string_at_byte. }
  assert (length s' <= length s)%nat by (unfold s'; rewrite length_take; lia).
  assert (s' = take (length s') s) as Hs' .
  { unfold s'. rewrite length_take. destruct (Nat.min_spec (Z.to_nat STRSZ - 1) (length s)) as [[? ->]|[? ->]]; [done|].
    by rewrite !take_ge by lia. }
  assert (∀ ld' v, (∀ x3 x4, runs_to helper funs (dt_strrchr STRSZ) fb 14
      [Some (Int (Z.of_nat (length s') + 1)); None; None; x3; x4; Some (Int (u64 (Z.shiftl c 56)));
       Some (Int (Z.of_nat (length s'))); None; Some (Int (Z.of_nat (length (rev s')))); None; Some (Ptr fb 512)] M v (<[bd := ld']> M)) →
    runs_to helper funs (dt_strrchr STRSZ) fb 8
      [Some (Int (Z.of_nat (length s') + 1)); None; None; None; None; None; None; None; None; None;
       Some (Ptr fb 512)] M v (<[bd := ld']> M)) as Hto.
  { intros ld' v Hrun. exec. in_range. not_taken. do 2 exec. in_range. rewrite Z.add_simpl_r. exec.
    exec. { eapply load_slot; [exact HMf|exact H496]. } exec. in_range. not_taken.
    specialize (Hrun None None). rewrite length_rev in Hrun. exact Hrun. }
  unfold last_index. destruct (last_from (c mod 2 ^ 8) (rev s')) as [i|] eqn:Ei.
  - pose proof (last_from_lt _ _ _ Ei) as Hi. rewrite length_rev in Hi.
    exists (overwrite ld1 od (zeros (drop i s'))). split.
    + apply Hto. intros x3 x4. eapply (strrchr_loop M); [exact HMf|exact H504|exact HMb|by destruct Hstr|exact Hlook|lia| |exact Erev| |].
      * intros En. apply (f_equal length) in En. rewrite length_rev in En. simpl in En. lia.
      * intros ? ? ?. by rewrite Ei.
      * intros ? ? j. rewrite Ei. intros [= <-]. rewrite Hs' at 3.
        eapply strrchr_found; [exact HMf|exact H504|exact H488|exact HMd|done|exact Hl1|lia|exact HMb|exact Hstr|done|done|done|done|lia].
    + eapply wrote_again; [exact Hw1|done|lia|rewrite length_drop; lia|by apply Forall_drop].
  - exists ld1. split; [|done]. apply Hto. intros x3 x4.
    eapply (strrchr_loop M); [exact HMf|exact H504|exact HMb|by destruct Hstr|exact Hlook|lia| |exact Erev| |].
    + intros En. apply (f_equal length) in En. rewrite length_rev in En. simpl in En. lia.
    + intros. apply Hnone.
    + intros ? ? j. by rewrite Ei.
Qed.

(** *** strchr() *)

(** The character in every byte of a word. *)
Lemma replicated c : byte c →
  let x := Z.lor c (u64 (Z.shiftl c 8)) in
  let y := Z.lor x (u64 (Z.shiftl x 16)) in
  Z.lor y (u64 (Z.shiftl y 32)) = le (replicate 8 c).
Proof.
  intros Hc. cbv zeta.
  assert (Forall (λ c, Z.lor (Z.lor (Z.lor c (u64 (Z.shiftl c 8))) (u64 (Z.shiftl (Z.lor c (u64 (Z.shiftl c 8))) 16)))
      (u64 (Z.shiftl (Z.lor (Z.lor c (u64 (Z.shiftl c 8))) (u64 (Z.shiftl (Z.lor c (u64 (Z.shiftl c 8))) 16))) 32)) =
    le (replicate 8 c)) (seqZ 0 256)) as H.
  { apply (bool_decide_unpack _). vm_compute. exact Logic.I. }
  rewrite Forall_forall in H. apply H. apply elem_of_seqZ. unfold byte in Hc. lia.
Qed.

Lemma xor_replicate c w : zip_with Z.lxor w (replicate (length w) c) = (λ x, Z.lxor x c) <$> w.
Proof. induction w as [|x w IH]; [done|]. simpl. by rewrite IH. Qed.

Section StrchrLoop.
Variables (M m' : mem) (fb bd : Z) (lf : list memval) (c od : Z) (v : option val) (r4v : Z).
Hypothesis Hf : M !! fb = Some lf.
Hypothesis Hslot : slot lf 488 (Ptr bd od).
Hypothesis Hc : byte c.
Hypothesis Hod : 0 <= od.
Hypothesis Hne : fb ≠ bd.

Lemma strchr_loop x0 x5 x6 k pre xs post i :
  length xs = (8 * S k)%nat → Forall byte xs → Z.of_nat (length pre) = od + i → 0 <= i →
  i + 8 * Z.of_nat (S k) < 2 ^ 32 → r4v <= i + 8 * Z.of_nat (S k) → (k = 0%nat ∨ i + 8 * Z.of_nat k < r4v) →
  (∀ x0 x3 x5, runs_to helper funs (dt_strchr STRSZ) fb 33
     [x0; Some (Int (le (replicate 8 c))); None; x3; Some (Int r4v); x5; x6; None; None; None; Some (Ptr fb 512)]
     (<[bd := Byte <$> (pre ++ ((λ x, Z.lxor x c) <$> xs) ++ post)]> M) v m') →
  runs_to helper funs (dt_strchr STRSZ) fb 26
    [x0; Some (Int (le (replicate 8 c))); None; Some (Int i); Some (Int r4v); x5; x6; None; None; None; Some (Ptr fb 512)]
    (<[bd := Byte <$> (pre ++ xs ++ post)]> M) v m'.
Proof.
  revert x0 x5 pre xs i. induction k as [|k IH]; intros x0 x5 pre xs i Hl Hb Hpre Hi Hbig Hr4 Hk Hend.
  all: assert (∃ w ws, xs = w ++ ws ∧ length w = 8%nat) as (w & ws & -> & Hw)
    by (exists (take 8 xs), (drop 8 xs); rewrite take_drop, length_take; split; [done|lia]).
  all: apply Forall_app in Hb as [Hbw Hbws]; rewrite length_app in Hl.
  all: assert (Forall byte (replicate 8 c)) as Hbc by (by apply Forall_replicate).
  all: rewrite <- app_assoc.
  all: exec; [eapply load_slot; [block|exact Hslot]|].
  all: exec; in_range; exec;
    [eapply (load_word _ _ _ _ pre w (ws ++ post)); [block|done|lia|done]|].
  all: exec; rewrite le_xor by (rewrite ?length_replicate; done).
  all: rewrite <- Hw at 1; rewrite xor_replicate.
  all: exec; [eapply (store_word _ _ _ _ pre w (ws ++ post)); [block|done|lia|done|by rewrite length_fmap|]|].
  1,3: rewrite <- xor_replicate; apply xor_bytes; [done|by apply Forall_replicate].
  all: rewrite insert_insert_eq; exec; in_range; exec.
  - not_taken. destruct ws; [|simpl in Hl; lia]. rewrite app_nil_r in Hend. apply Hend.
  - taken. rewrite (app_assoc pre).
    eapply IH; [lia|done|rewrite length_app, length_fmap; lia|lia|lia|lia|lia|].
    intros x0' x3' x5'. specialize (Hend x0' x3' x5'). rewrite (fmap_app (λ x, Z.lxor x c)) in Hend.
    rewrite <- !app_assoc in Hend |- *. exact Hend.
Qed.

End StrchrLoop.

(** The string is found or not, from the store of the guard on.  [F] are the
    bytes of the destination. *)
Section StrchrEnd.
Variables (M : mem) (fb bd od bt ot b o : Z) (lf lt l : list memval) (F : list Z) (s s' : list Z) (c : Z).
Hypothesis Hf : M !! fb = Some lf.
Hypothesis H504 : slot lf 504 (Ptr b o).
Hypothesis H488 : slot lf 488 (Ptr bd od).
Hypothesis H480 : slot lf 480 (Ptr bt ot).
Hypothesis Hd : M !! bd = Some (Byte <$> F).
Hypothesis Ht : M !! bt = Some lt.
Hypothesis Hb : M !! b = Some l.
Hypothesis Hstr : string_at l o s.
Hypothesis Hs' : s' = take (length s') s.
Hypothesis Hod : 0 <= od.
Hypothesis Hot : 0 <= ot.
Hypothesis Hroomt : ot + Z.of_nat (length s') + 1 <= Z.of_nat (length lt).
Hypothesis Hroomd : od + Z.of_nat (length s') + 1 <= Z.of_nat (length F).
Hypothesis HF : take (Z.to_nat od + length s') F = take (Z.to_nat od) F ++ ((λ x, Z.lxor x c) <$> s').
Hypothesis Hdist : fb ≠ bd ∧ fb ≠ bt ∧ bd ≠ bt ∧ bd ≠ b ∧ bt ≠ b.
Hypothesis Hlen : Z.of_nat (length s') + 1 < 2 ^ 31.

(** The destination once the guard was stored. *)
Let F' := <[(Z.to_nat od + length s')%nat := 0]> F.

Lemma strchr_guarded : ∃ rest, drop (Z.to_nat od) F' = ((λ x, Z.lxor x c) <$> s') ++ [0] ++ rest.
Proof.
  exists (drop (S (Z.to_nat od + length s')) F). unfold F'. rewrite insert_take_drop by lia. rewrite HF.
  rewrite <- app_assoc. rewrite drop_app_length' by (rewrite length_take; lia). done.
Qed.

Lemma strchr_end :
  ∃ r ld' lt', (∀ x0 x1 x3 x4 x5, runs_to helper funs (dt_strchr STRSZ) fb 33
    [x0; x1; None; x3; x4; x5; Some (Int (Z.of_nat (length s'))); None; None; None; Some (Ptr fb 512)] M
    (Some (Int r)) (<[bd := ld']> (<[bt := lt']> M))) ∧ length ld' = length F ∧ length lt' = length lt ∧
  match first_index c s' with Some i => r = 0 ∧ string_at ld' od (drop i s') | None => r = 2 ^ 64 - 1 end.
Proof.
  destruct Hdist as (? & ? & ? & ? & ?). destruct strchr_guarded as [rest Hg].
  set (u := until_nul (((λ x, Z.lxor x c) <$> s') ++ [0])).
  pose proof (first_index_xor c s') as Hfi. fold u in Hfi.
  set (n := default (length s') (first_index c s')) in *.
  assert (n <= length s')%nat as Hn.
  { unfold n. destruct (first_index c s') as [i|] eqn:Ei; [apply first_index_lt in Ei|]; simpl; lia. }
  assert (read_str (drop (Z.to_nat od) (Byte <$> F')) (Z.to_nat (Z.of_nat (length s') + 1)) = Some u) as Hread.
  { rewrite <- fmap_drop, Hg, app_assoc, fmap_app. apply read_str_bytes.
    - fold u. rewrite Hfi, length_app, length_fmap. simpl. lia.
    - rewrite length_app, length_fmap. simpl. lia. }
  set (ltn := overwrite lt ot (zeros (take (Z.to_nat (Z.of_nat (length s') + 1) - 1) u))).
  assert (length ltn = length lt) as Hltn.
  { unfold ltn. apply overwrite_length; [done|]. rewrite zeros_length, length_take. lia. }
  set (M2 := <[bt := ltn]> (<[bd := Byte <$> F']> M)).
  assert (M2 !! fb = Some lf) as Hf2 by (unfold M2; block).
  assert (M2 !! bd = Some (Byte <$> F')) as Hd2 by (unfold M2; block).
  assert (M2 !! b = Some l) as Hb2 by (unfold M2; block).
  assert (length F' = length F) as HlF by (unfold F'; apply length_insert).
  assert (∀ v m', (∀ x1 x3, runs_to helper funs (dt_strchr STRSZ) fb 47
      [Some (Int (Z.of_nat n + 1)); x1; None; x3; None; None; Some (Int (Z.of_nat (length s'))); None; Some (Int (Z.of_nat n));
       None; Some (Ptr fb 512)] M2 v m') →
    ∀ x0 x1 x3 x4 x5, runs_to helper funs (dt_strchr STRSZ) fb 33
      [x0; x1; None; x3; x4; x5; Some (Int (Z.of_nat (length s'))); None; None; None; Some (Ptr fb 512)] M v m') as Hto.
  { intros v m' Hrun x0 x1 x3 x4 x5. exec. { eapply load_slot; [exact Hf|exact H488]. }
    do 2 exec. in_range. exec. { eapply store_byte; [exact Hd|]. rewrite length_fmap. lia. }
    replace (Z.to_nat (od + Z.of_nat (length s') + 0)) with (Z.to_nat od + length s')%nat by lia.
    change (Byte (u8 0)) with (Byte 0). rewrite <- list_fmap_insert. fold F'.
    exec. { eapply load_slot; [block|exact H480]. }
    do 2 exec. in_range. exec. { eapply load_slot; [block|exact H488]. }
    exec. { eapply probe_read_str_law; [block|done|lia|block|done|done|lia|exact Hread]. }
    fold ltn M2. rewrite Hfi. rewrite Z.min_l by lia.
    exec. in_range. not_taken. do 2 exec. rewrite sign_extend_32.
    rewrite (swrap_id 32) by (first [done|unfold srange; change (32 - 1) with 31; lia]). in_range.
    do 2 exec. replace (u64 (Z.of_nat n + 1 + 18446744073709551615)) with (Z.of_nat n); [apply Hrun|].
    rewrite wrap_sum by lia. destruct (Z.ltb_spec (Z.of_nat n + 1 + 18446744073709551615) (2 ^ 64)); lia. }
  assert (<[bd := Byte <$> F']> (<[bt := ltn]> M) = M2) as HM2 by (unfold M2; by rewrite insert_insert_ne).
  destruct (first_index c s') as [i|] eqn:Ei.
  - pose proof (first_index_lt _ _ _ Ei) as Hi. unfold n in *; clear n. cbn [from_option id] in *.
    set (t := take (length s' - i) (drop i s)).
    assert (drop i s' = t) as Edrop by (rewrite Hs' at 1; unfold t; by rewrite skipn_firstn_comm).
    assert (length s' <= length s)%nat as Hls by (rewrite Hs', length_take; lia).
    assert (length t = length s' - i)%nat as Hlt by (unfold t; rewrite length_take, length_drop; lia).
    assert (Forall char t) as Hct by (destruct Hstr as (_ & ? & _); by apply Forall_take, Forall_drop).
    exists 0, (overwrite (Byte <$> F') od (zeros t)), ltn. split_and!; [|by rewrite overwrite_length, length_fmap by (rewrite ?zeros_length, ?length_fmap; lia)|done| |].
    + apply Hto. intros y1 y3.
      exec. in_range. exec. in_range. not_taken. exec. { eapply load_slot; [exact Hf2|exact H488]. }
      do 2 exec. { eapply load_slot; [exact Hf2|exact H504]. } exec. in_range. exec.
      { eapply probe_read_law; [done|lia| |].
        - replace (Z.to_nat (Z.of_nat (length s') - Z.of_nat i)) with (length s' - i)%nat by lia.
          eapply load_string; [exact Hb2|exact Hstr|lia].
        - eapply storen_at; [exact Hd2|done|]. fold t. rewrite !length_fmap. lia. }
      exec. { eapply load_slot; [block|exact H488]. }
      do 2 exec. in_range. exec.
      { eapply store_byte; [block|]. fold t. rewrite overwrite_length; rewrite ?length_fmap; lia. }
      exec. exec; [reflexivity|]. rewrite insert_insert_eq, Z.add_0_r. fold t.
      replace (Z.of_nat (length s') - Z.of_nat i) with (Z.of_nat (length t)) by lia.
      change (u8 0) with 0. rewrite overwrite_nul by (rewrite ?length_fmap; lia).
      rewrite <- HM2. by rewrite insert_insert_eq.
    + done.
    + rewrite Edrop. apply overwrite_string; [done|done|rewrite length_fmap; lia].
  - unfold n in *; clear n. cbn [from_option id] in *. exists (2 ^ 64 - 1), (Byte <$> F'), ltn.
    split_and!; [|by rewrite length_fmap|done|done]. apply Hto. intros y1 y3.
    exec. rewrite Z.sub_diag. exec. exec. exec; [reflexivity|]. done.
Qed.

End StrchrEnd.

(** C17: strchr() looks for the first occurrence of the character in the first
    STRSZ - 1 characters of the string.  If there is one it leaves the string
    from there on in the destination and returns 0, otherwise it returns -1.
    Only the destination and the temporary buffer are written. *)
Theorem dt_strchr_correct (m : mem) fb bd od dbs bt ot lt b o l s c :
  let s' := take (Z.to_nat STRSZ - 1) s in
  m !! fb = None → m !! bd = Some (Byte <$> dbs) → Forall byte dbs → 0 <= od →
  od + STRSZ + 7 <= Z.of_nat (length dbs) →
  m !! bt = Some lt → 0 <= ot → ot + STRSZ <= Z.of_nat (length lt) →
  m !! b = Some l → string_at l o s → bd ≠ bt → bd ≠ b → bt ≠ b →
  ∃ r ld' lt', calls_to helper funs (dt_strchr STRSZ) fb [Ptr b o; Int c; Ptr bd od; Ptr bt ot] m
      (Some (Int r)) (<[bd := ld']> (<[bt := lt']> m)) ∧
    length ld' = length dbs ∧ length lt' = length lt ∧
    match first_index (c mod 2 ^ 8) s' with Some i => r = 0 ∧ string_at ld' od (drop i s') | None => r = 2 ^ 64 - 1 end.
Proof.
  intros s' Hfb Hd Hbytes Hod Hroom Ht Hot Hroomt Hb Hstr Hn1 Hn2 Hn3.
  assert (fb ≠ bd) by (intros ->; congruence). assert (fb ≠ b) by (intros ->; congruence).
  assert (fb ≠ bt) by (intros ->; congruence).
  set (cc := c mod 2 ^ 8). assert (byte cc) as Hcc by (apply Z.mod_pos_bound; lia).
  set (lf := spill (spill (spill (spill frame0 504 (Ptr b o)) 496 (Int (le (replicate 8 cc)))) 488 (Ptr bd od)) 480 (Ptr bt ot)).
  pose proof (le_range (replicate 8 cc) ltac:(by apply Forall_replicate)) as Hle.
  rewrite length_replicate in Hle. change (8 * Z.of_nat 8) with 64 in Hle.
  assert (slot lf 504 (Ptr b o) ∧ slot lf 496 (Int (le (replicate 8 cc))) ∧ slot lf 488 (Ptr bd od) ∧ slot lf 480 (Ptr bt ot))
    as (H504 & H496 & H488 & H480) by (unfold lf; split_and!; slots).
  assert (Z.of_nat (length s') < STRSZ) as Hlen by (unfold s'; rewrite length_take; lia).
  assert (Forall char s') as Hchars by (destruct Hstr as (_ & ? & _); by apply Forall_take).
  assert (s' = take (length s') s) as Hs'.
  { unfold s'. rewrite length_take. destruct (Nat.min_spec (Z.to_nat STRSZ - 1) (length s)) as [[? ->]|[? ->]]; [done|].
    by rewrite !take_ge by lia. }
  set (pre := take (Z.to_nat od) dbs).
  set (tail := drop (Z.to_nat od + length (s' ++ [0])) dbs).
  set (ws := s' ++ [0] ++ tail).
  assert (overwrite (Byte <$> dbs) od (zeros s') = Byte <$> (pre ++ ws)) as Ed1.
  { unfold zeros. rewrite overwrite_bytes. unfold ws. by rewrite <- app_assoc. }
  assert (length pre = Z.to_nat od) as Hlpre by (unfold pre; rewrite length_take; lia).
  assert (length ws = length dbs - Z.to_nat od)%nat as Hlws.
  { unfold ws, tail. rewrite !length_app, length_drop. cbn [length]. lia. }
  assert (Forall byte ws) as Hbws.
  { unfold ws. apply Forall_app. split; [by apply char_byte|]. constructor; [done|]. by apply Forall_drop. }
  destruct (round_up_8 (Z.of_nat (length s')) ltac:(lia)) as [Hr1 Hr2].
  remember (Z.land (Z.of_nat (length s') + 7) (2 ^ 64 - 8)) as r4v eqn:Er4.
  set (k := Z.to_nat (Z.max 0 (r4v / 8 - 1))).
  assert (r4v <= 8 * Z.of_nat (S k) ∧ (k = 0%nat ∨ 8 * Z.of_nat k < r4v) ∧ 8 * Z.of_nat (S k) <= STRSZ + 7) as (Hk1 & Hk2 & Hk3) by (unfold k; lia).
  clearbody k.
  set (xs := take (8 * S k) ws). set (post := drop (8 * S k) ws).
  assert (length xs = 8 * S k)%nat as Hlxs by (unfold xs; rewrite length_take; lia).
  set (F := pre ++ ((λ x, Z.lxor x cc) <$> xs) ++ post).
  set (M := <[bd := Byte <$> F]> (<[fb := lf]> m)).
  assert (length F = length dbs) as HlF.
  { unfold F, post. rewrite !length_app, length_fmap, length_drop. lia. }
  assert (∀ r ld' lt', (∀ x0 x1 x3 x4 x5, runs_to helper funs (dt_strchr STRSZ) fb 33
      [x0; x1; None; x3; x4; x5; Some (Int (Z.of_nat (length s'))); None; None; None; Some (Ptr fb 512)] M
      (Some (Int r)) (<[bd := ld']> (<[bt := lt']> M))) →
    calls_to helper funs (dt_strchr STRSZ) fb [Ptr b o; Int c; Ptr bd od; Ptr bt ot] m
      (Some (Int r)) (<[bd := ld']> (<[bt := lt']> m))) as Hcall.
  { intros r ld' lt' Hrun. exists (<[bd := ld']> (<[bt := lt']> M)). split.
    2:{ unfold M. rewrite delete_insert_ne, delete_insert_ne, delete_insert_ne by done.
        rewrite delete_insert_eq, delete_id by done. apply map_eq. intros j.
        destruct (decide (j = bd)) as [->|]; [by rewrite !lookup_insert_eq|rewrite !(lookup_insert_ne _ bd) by done].
        destruct (decide (j = bt)) as [->|]; [by rewrite !lookup_insert_eq|].
        by rewrite !lookup_insert_ne by done. }
    cbn [fmap list_fmap app replicate length Nat.sub]. exec.
    replace (Z.land c 255) with cc by (unfold cc; change 255 with (Z.ones 8); by rewrite Z.land_ones).
    do 9 exec. pose proof (replicated cc Hcc) as Hrep. cbv zeta in Hrep. rewrite Hrep.
    do 4 (exec; [eapply store_spill; [block|lia|frame_size]|]). rewrite !insert_insert_eq. fold lf.
    exec. { eapply load_slot; [block|exact H488]. }
    exec. exec. { eapply load_slot; [block|exact H504]. }
    exec. { eapply probe_read_string; [block|block|done|done|lia|lia|rewrite length_fmap; lia]. }
    fold s'. rewrite Ed1. replace (Z.min _ _) with (Z.of_nat (length s') + 1).
    2:{ unfold s'. rewrite length_take. lia. }
    exec. exec. in_range. not_taken. exec. in_range. rewrite Z.add_simpl_r. do 3 exec. in_range.
    exec. { eapply load_slot; [block|exact H496]. }
    change 18446744073709551608 with (2 ^ 64 - 8). rewrite <- Er4. exec.
    rewrite <- (take_drop (8 * S k) ws). fold xs post.
    eapply (strchr_loop (<[fb := lf]> m)); [block|exact H488|done|done|exact Hlxs| |lia|lia|lia|lia| |].
    - by apply Forall_take.
    - destruct Hk2; [by left|right; lia].
    - intros. fold F. fold M. apply Hrun. }
  destruct (strchr_end M fb bd od bt ot b o lf lt l F s s' cc) as (r & ld' & lt' & Hrun & HL1 & HL2 & HL3); try done.
  { unfold M; block. } { unfold M; block. } { unfold M; block. } { unfold M; block. } { lia. } { lia. }
  { unfold F. rewrite (take_app_ge pre), (take_app_length' pre) by lia. f_equal. rewrite Hlpre.
    replace (Z.to_nat od + length s' - Z.to_nat od)%nat with (length s') by lia.
    rewrite take_app_le by (rewrite length_fmap; lia). rewrite <- fmap_take. f_equal.
    unfold xs. rewrite take_take, Nat.min_l by lia. unfold ws. by rewrite take_app_length. }
  { lia. }
  exists r, ld', lt'. split; [by apply Hcall|]. rewrite <- HlF. done.
Qed.

End Proofs.

(** The string banana in one block, a destination and a temporary buffer. *)
Definition chr_mem : mem :=
  <[1 := zeros [98; 97; 110; 97; 110; 97]]> (<[2 := Byte <$> replicate 24 0]> (<[3 := replicate 20 Undef]> ∅)).

Lemma chr_mem_string : string_at (zeros [98; 97; 110; 97; 110; 97]) 0 [98; 97; 110; 97; 110; 97].
Proof. split; [done|]. split; [by repeat constructor|]. exists []. by rewrite app_nil_r. Qed.

Lemma dt_strrchr_correct_witness : ∃ ld',
  calls_to copy_helper (λ _, None) (dt_strrchr 16) (-1) [Ptr 1 0; Int 110; Ptr 2 0] chr_mem (Some (Int 0))
    (<[2 := ld']> chr_mem) ∧ wrote (Byte <$> replicate 24 0) ld' 0 16 [110; 97].
Proof.
  apply (dt_strrchr_correct copy_helper (λ _, None) 16 ltac:(lia) chr_mem (-1) 2 0 (Byte <$> replicate 24 0)
    1 0 _ _ 110 eq_refl eq_refl ltac:(lia) ltac:(simpl; lia) eq_refl chr_mem_string ltac:(lia)).
Defined.

Lemma dt_strchr_correct_witness : ∃ r ld' lt',
  calls_to copy_helper (λ _, None) (dt_strchr 16) (-1) [Ptr 1 0; Int 110; Ptr 2 0; Ptr 3 0] chr_mem (Some (Int r))
    (<[2 := ld']> (<[3 := lt']> chr_mem)) ∧ length ld' = 24%nat ∧ length lt' = 20%nat ∧
  r = 0 ∧ string_at ld' 0 [110; 97; 110; 97].
Proof.
  apply (dt_strchr_correct copy_helper (λ _, None) 16 ltac:(lia) chr_mem (-1) 2 0 (replicate 24 0) 3 0 (replicate 20 Undef)
    1 0 _ _ 110 eq_refl eq_refl ltac:(by repeat constructor) ltac:(lia) ltac:(simpl; lia) eq_refl ltac:(lia) ltac:(simpl; lia)
    eq_refl chr_mem_string ltac:(lia) ltac:(lia) ltac:(lia)).
Defined.

End BpfChr.
