(* ===== verification/DtAs.v ===== *)
(** * Instructions and the assembler of the compiler: include/bpf_asm.h and
    libdtrace/dt_as.c

    The code generator appends instructions to a list, in which a branch names
    a label and an instruction may carry a label and refer to an identifier.
    The assembler makes an array of BPF instructions of it, with branches as
    distances and with a table of relocations.  [decode_prog] says which program
    of the machine of [Bpf] such an array is.

    The list is a Rocq list; [dl_list], [dl_last] and [di_next] are its links.
    [di_extern] is the address of an identifier, 0 for NULL. *)
From S2P Require Import Prelude Bpf.
Import Bpf.

Module DtAs.

(** ** Instructions: linux/bpf.h, include/bpf_asm.h *)

Definition BPF_LD : Z := 0x00.
Definition BPF_LDX : Z := 0x01.
Definition BPF_ST : Z := 0x02.
Definition BPF_STX : Z := 0x03.
Definition BPF_JMP : Z := 0x05.
Definition BPF_ALU64 : Z := 0x07.

Definition BPF_W : Z := 0x00.
Definition BPF_H : Z := 0x08.
Definition BPF_B : Z := 0x10.
Definition BPF_DW : Z := 0x18.
Definition BPF_IMM : Z := 0x00.
Definition BPF_MEM : Z := 0x60.
Definition BPF_K : Z := 0x00.
Definition BPF_X : Z := 0x08.

Definition BPF_ADD : Z := 0x00.
Definition BPF_SUB : Z := 0x10.
Definition BPF_MUL : Z := 0x20.
Definition BPF_DIV : Z := 0x30.
Definition BPF_OR : Z := 0x40.
Definition BPF_AND : Z := 0x50.
Definition BPF_LSH : Z := 0x60.
Definition BPF_RSH : Z := 0x70.
Definition BPF_NEG : Z := 0x80.
Definition BPF_MOD : Z := 0x90.
Definition BPF_XOR : Z := 0xa0.
Definition BPF_MOV : Z := 0xb0.
Definition BPF_ARSH : Z := 0xc0.

Definition BPF_JA : Z := 0x00.
Definition BPF_JEQ : Z := 0x10.
Definition BPF_JGT : Z := 0x20.
Definition BPF_JGE : Z := 0x30.
Definition BPF_JNE : Z := 0x50.
Definition BPF_JSGT : Z := 0x60.
Definition BPF_JSGE : Z := 0x70.
Definition BPF_CALL : Z := 0x80.
Definition BPF_EXIT : Z := 0x90.
Definition BPF_JLT : Z := 0xa0.
Definition BPF_JLE : Z := 0xb0.
Definition BPF_JSLT : Z := 0xc0.
Definition BPF_JSLE : Z := 0xd0.
Definition BPF_PSEUDO_CALL : Z := 1.

Definition BPF_REG_0 : Z := 0.
Definition BPF_REG_1 : Z := 1.
Definition BPF_REG_2 : Z := 2.
Definition BPF_REG_3 : Z := 3.
Definition BPF_REG_4 : Z := 4.
Definition BPF_REG_9 : Z := 9.
Definition BPF_REG_FP : Z := 10.

(** [dst_reg] and [src_reg] are bit-fields of four bits, [off] has 16 bits and
    [imm] 32, both signed. *)
Record bpf_insn := mk_insn { code : Z; dst_reg : Z; src_reg : Z; off : Z; imm : Z }.

#[export] Instance bpf_insn_eq_dec : EqDecision bpf_insn.
Proof. solve_decision. Defined.

Definition insn_of (c d s o i : Z) : bpf_insn := mk_insn c (wrap 4 d) (wrap 4 s) (s16 o) (s32 i).

Definition BPF_ALU64_REG (op dst src : Z) : bpf_insn :=
  insn_of (Z.lor (Z.lor BPF_ALU64 op) BPF_X) dst src 0 0.
Definition BPF_NEG_REG (dst : Z) : bpf_insn := insn_of (Z.lor BPF_ALU64 BPF_NEG) dst 0 0 0.
Definition BPF_ALU64_IMM (op dst val : Z) : bpf_insn :=
  insn_of (Z.lor (Z.lor BPF_ALU64 op) BPF_K) dst 0 0 val.
Definition BPF_MOV_REG (dst src : Z) : bpf_insn := BPF_ALU64_REG BPF_MOV dst src.
Definition BPF_MOV_IMM (dst val : Z) : bpf_insn := BPF_ALU64_IMM BPF_MOV dst val.
Definition BPF_LOAD (sz dst src ofs : Z) : bpf_insn :=
  insn_of (Z.lor (Z.lor BPF_LDX BPF_MEM) sz) dst src ofs 0.
Definition BPF_LDDW (dst val : Z) : bpf_insn * bpf_insn :=
  (insn_of (Z.lor (Z.lor BPF_LD BPF_IMM) BPF_DW) dst 0 0 (u32 val),
   insn_of 0 0 0 0 (u32 (Z.shiftr (u64 val) 32))).
Definition BPF_STORE (sz dst ofs src : Z) : bpf_insn :=
  insn_of (Z.lor (Z.lor BPF_STX BPF_MEM) sz) dst src ofs 0.
Definition BPF_STORE_IMM (sz dst ofs val : Z) : bpf_insn :=
  insn_of (Z.lor (Z.lor BPF_ST BPF_MEM) sz) dst 0 ofs val.
Definition BPF_CALL_HELPER (id : Z) : bpf_insn := insn_of (Z.lor BPF_JMP BPF_CALL) 0 0 0 id.
Definition BPF_CALL_FUNC (val : Z) : bpf_insn :=
  insn_of (Z.lor BPF_JMP BPF_CALL) 0 BPF_PSEUDO_CALL 0 val.
Definition BPF_RETURN : bpf_insn := insn_of (Z.lor BPF_JMP BPF_EXIT) 0 0 0 0.
Definition BPF_BRANCH_REG (op r1 r2 ofs : Z) : bpf_insn :=
  insn_of (Z.lor (Z.lor BPF_JMP op) BPF_X) r1 r2 ofs 0.
Definition BPF_BRANCH_IMM (op r1 val ofs : Z) : bpf_insn :=
  insn_of (Z.lor (Z.lor BPF_JMP op) BPF_K) r1 0 ofs val.
Definition BPF_JUMP (ofs : Z) : bpf_insn := insn_of (Z.lor BPF_JMP BPF_JA) 0 0 ofs 0.
Definition BPF_NOP : bpf_insn := BPF_JUMP 0.

Definition BPF_IS_NOP (x : bpf_insn) : bool := (code x =? Z.lor BPF_JMP BPF_JA) && (off x =? 0).
Definition BPF_CLASS (c : Z) : Z := Z.land c 0x07.
Definition BPF_OP (c : Z) : Z := Z.land c 0xf0.

(** *** The machine's view *)

Definition reg_of (z : Z) : option reg :=
  match z with
  | 0 => Some r0 | 1 => Some r1 | 2 => Some r2 | 3 => Some r3 | 4 => Some r4 | 5 => Some r5
  | 6 => Some r6 | 7 => Some r7 | 8 => Some r8 | 9 => Some r9 | 10 => Some fp
  | _ => None
  end.

Definition alu_of (op : Z) : option alu :=
  match op with
  | 0x00 => Some ADD | 0x10 => Some SUB | 0x20 => Some MUL | 0x30 => Some DIV | 0x40 => Some OR
  | 0x50 => Some AND | 0x60 => Some LSH | 0x70 => Some RSH | 0x80 => Some NEG | 0x90 => Some MOD
  | 0xa0 => Some XOR | 0xb0 => Some MOV | 0xc0 => Some ARSH
  | _ => None
  end.

Definition cond_of (op : Z) : option cond :=
  match op with
  | 0x10 => Some JEQ | 0x20 => Some JGT | 0x30 => Some JGE | 0x50 => Some JNE | 0x60 => Some JSGT
  | 0x70 => Some JSGE | 0xa0 => Some JLT | 0xb0 => Some JLE | 0xc0 => Some JSLT | 0xd0 => Some JSLE
  | _ => None
  end.

(** The number of bytes of a load or store. *)
Definition size_of (c : Z) : nat :=
  match Z.land c 0x18 with 0x00 => 4%nat | 0x08 => 2%nat | 0x10 => 1%nat | _ => 8%nat end.

Definition src_of (x : bpf_insn) : option src :=
  if Z.testbit (code x) 3 then R <$> reg_of (src_reg x) else Some (I (imm x)).

(** The instruction [x] followed by [next].  A 64-bit load has two slots: its
    immediate is in both of them, and the second, which nothing jumps to, does
    nothing.  The functions called are known by the name [sym] gives to their
    number. *)
Definition decode_insn (sym : Z → string) (x next : bpf_insn) : option insn :=
  let c := code x in
  match BPF_CLASS c with
  | 0x07 =>
      op ← alu_of (BPF_OP c); d ← reg_of (dst_reg x); s ← src_of x; Some (Alu op d s)
  | 0x05 =>
      match BPF_OP c with
      | 0x00 => Some (Ja (Rel (off x)))
      | 0x80 => Some (if src_reg x =? BPF_PSEUDO_CALL then CallF (sym (imm x)) else Call (imm x))
      | 0x90 => Some Exit
      | op => op ← cond_of op; d ← reg_of (dst_reg x); s ← src_of x; Some (J op d s (Rel (off x)))
      end
  | 0x01 => d ← reg_of (dst_reg x); s ← reg_of (src_reg x); Some (Ldx (size_of c) d s (off x))
  | 0x02 => d ← reg_of (dst_reg x); Some (St (size_of c) d (off x) (imm x))
  | 0x03 => d ← reg_of (dst_reg x); s ← reg_of (src_reg x); Some (Stx (size_of c) d (off x) s)
  | 0x00 =>
      if c =? 0 then Some (Ja (Rel 0))
      else d ← reg_of (dst_reg x); Some (Lddw d (u32 (imm x) + Z.shiftl (u32 (imm next)) 32))
  | _ => None
  end.

Fixpoint decode_prog (sym : Z → string) (buf : list bpf_insn) : option (list insn) :=
  match buf with
  | [] => Some []
  | x :: buf =>
      i ← decode_insn sym x (default (insn_of 0 0 0 0 0) (head buf));
      P ← decode_prog sym buf;
      Some (i :: P)
  end.

(** ** The instruction list *)

Definition DT_LBL_NONE : Z := 0.

Record dt_irnode := mk_irnode { di_label : Z; di_instr : bpf_insn; di_extern : Z }.

Record dt_irlist := mk_irlist { dl_list : list dt_irnode; dl_len : Z; dl_label : Z }.

Definition dt_irlist_create : dt_irlist := mk_irlist [] 0 1.

(** A label without an instruction. *)
Definition is_label (dip : dt_irnode) : bool :=
  negb ((di_label dip =? DT_LBL_NONE) || negb (BPF_IS_NOP (di_instr dip))).

Definition dt_irlist_append (dlp : dt_irlist) (dip : dt_irnode) : dt_irlist :=
  mk_irlist (dl_list dlp ++ [dip]) (if is_label dip then dl_len dlp else u32 (dl_len dlp + 1))
    (dl_label dlp).

Definition dt_irlist_label (dlp : dt_irlist) : Z * dt_irlist :=
  (dl_label dlp, mk_irlist (dl_list dlp) (dl_len dlp) (u32 (dl_label dlp + 1))).

(** The macros that append an instruction ([malloc] succeeds). *)
Definition emitle (dlp : dt_irlist) (lbl : Z) (instr : bpf_insn) (idp : Z) : dt_irlist :=
  dt_irlist_append dlp (mk_irnode lbl instr idp).
Definition emite (dlp : dt_irlist) (instr : bpf_insn) (idp : Z) : dt_irlist :=
  emitle dlp DT_LBL_NONE instr idp.
Definition emitl (dlp : dt_irlist) (lbl : Z) (instr : bpf_insn) : dt_irlist := emitle dlp lbl instr 0.
Definition emit (dlp : dt_irlist) (instr : bpf_insn) : dt_irlist := emitle dlp DT_LBL_NONE instr 0.

(** ** The passes of the assembler over the instructions *)

(** [a[i] = v]; writing outside the array is [None]. *)
Definition assign {A} (a : list A) (i : Z) (v : A) : option (list A) :=
  if (0 <=? i) && (i <? Z.of_nat (length a)) then Some (<[Z.to_nat i := v]> a) else None.

(** The first pass: the array of instructions and the table of labels. *)
Fixpoint as_fill (dips : list dt_irnode) (i : Z) (labels : list Z) (buf : list bpf_insn) :
    option (Z * list Z * list bpf_insn) :=
  match dips with
  | [] => Some (i, labels, buf)
  | dip :: dips =>
      labels ← (if di_label dip =? DT_LBL_NONE then Some labels else assign labels (di_label dip) i);
      if is_label dip then as_fill dips i labels buf
      else buf ← assign buf i (di_instr dip); as_fill dips (u32 (i + 1)) labels buf
  end.

(** The second pass, for one instruction: the distance of a branch. *)
Definition as_branch (labels : list Z) (nlabels i : Z) (instr : bpf_insn) : option bpf_insn :=
  let op := BPF_OP (code instr) in
  if negb (BPF_CLASS (code instr) =? BPF_JMP) then Some instr
  else if BPF_IS_NOP instr then Some instr
  else if (op =? BPF_CALL) || (op =? BPF_EXIT) then Some instr
  else if negb (u32 (off instr) <? nlabels) then None
  else
    a ← labels !! Z.to_nat (off instr);
    Some (mk_insn (code instr) (dst_reg instr) (src_reg instr) (s16 (u32 (a - i - 1))) (imm instr)).

Fixpoint as_branches (labels : list Z) (nlabels i : Z) (buf : list bpf_insn) : option (list bpf_insn) :=
  match buf with
  | [] => Some []
  | x :: buf =>
      x ← as_branch labels nlabels i x;
      buf ← as_branches labels nlabels (i + 1) buf;
      Some (x :: buf)
  end.

(** Both passes, with the assertion between them. *)
Definition as_code (dlp : dt_irlist) : option (list Z * list bpf_insn) :=
  let zero := insn_of 0 0 0 0 0 in
  '(i, labels, buf) ← as_fill (dl_list dlp) 0 (replicate (Z.to_nat (dl_label dlp)) 0)
                        (replicate (Z.to_nat (dl_len dlp)) zero);
  if negb (i =? dl_len dlp) then None
  else
    buf ← as_branches labels (dl_label dlp) 0 buf;
    Some (labels, buf).

(** ** What the passes achieve *)

(** The number of instructions of a part of the list. *)
Fixpoint size (dips : list dt_irnode) : Z :=
  match dips with [] => 0 | d :: dips => (if is_label d then 0 else 1) + size dips end.

(** The labels a part of the list defines. *)
Definition defined (dips : list dt_irnode) : list Z := filter (λ l, l ≠ DT_LBL_NONE) (di_label <$> dips).

Definition is_branch (x : bpf_insn) : bool :=
  (BPF_CLASS (code x) =? BPF_JMP) && negb (BPF_IS_NOP x) &&
  negb ((BPF_OP (code x) =? BPF_CALL) || (BPF_OP (code x) =? BPF_EXIT)).

(** The call of a function. *)
Definition is_fcall (x : bpf_insn) : bool :=
  (BPF_CLASS (code x) =? BPF_JMP) && (BPF_OP (code x) =? BPF_CALL) && (src_reg x =? BPF_PSEUDO_CALL).

(** The array [buf] has the instructions [dips], changed by [f], at [pc], and
    their labels are where the table says. *)
Fixpoint placed (f : Z → bpf_insn → option bpf_insn) (labels : list Z) (buf : list bpf_insn) (pc : Z)
    (dips : list dt_irnode) : Prop :=
  match dips with
  | [] => True
  | d :: dips =>
      (di_label d ≠ DT_LBL_NONE → labels !! Z.to_nat (di_label d) = Some pc) ∧
      if is_label d then placed f labels buf pc dips
      else
        (∃ x, f pc (di_instr d) = Some x ∧ buf !! Z.to_nat pc = Some x) ∧
        placed f labels buf (pc + 1) dips
  end.

(** ... with the distances of branches that the table gives. *)
Definition code_at (labels : list Z) (buf : list bpf_insn) (pc : Z) (dips : list dt_irnode) : Prop :=
  placed (as_branch labels (Z.of_nat (length labels))) labels buf pc dips.

(** A list that the code generator may hand over: labels are defined once, each
    branch names one that is defined, and the numbers fit their types. *)
Record wf_irlist (dlp : dt_irlist) : Prop := {
  wi_len : dl_len dlp = size (dl_list dlp);
  wi_len_max : dl_len dlp < 2 ^ 31;
  wi_label : 0 < dl_label dlp < 2 ^ 15;
  wi_unique : NoDup (defined (dl_list dlp));
  wi_range : Forall (λ l, 0 < l < dl_label dlp) (defined (dl_list dlp));
  wi_targets : Forall (λ d, is_branch (di_instr d) = true → off (di_instr d) ∈ defined (dl_list dlp))
                 (dl_list dlp)
}.

Lemma size_nonneg dips : 0 <= size dips.
Proof. induction dips as [|d dips IH]; simpl; [lia|]. destruct (is_label d); lia. Qed.

Lemma size_app a b : size (a ++ b) = size a + size b.
Proof. induction a as [|d a IH]; simpl; [done|]. rewrite IH. lia. Qed.

Lemma placed_app f labels buf pc a b :
  placed f labels buf pc (a ++ b) ↔ placed f labels buf pc a ∧ placed f labels buf (pc + size a) b.
Proof.
  revert pc. induction a as [|d a IH]; intros pc; simpl; [rewrite Z.add_0_r; tauto|].
  destruct (is_label d); rewrite IH.
  - rewrite Z.add_0_l. tauto.
  - rewrite Z.add_assoc. tauto.
Qed.

Lemma assign_spec {A} (a : list A) i v :
  0 <= i < Z.of_nat (length a) → assign a i v = Some (<[Z.to_nat i := v]> a).
Proof. intros. unfold assign. by rewrite (proj2 (Z.leb_le 0 i)), (proj2 (Z.ltb_lt _ _)) by lia. Qed.

Lemma defined_cons d dips :
  defined (d :: dips) = if di_label d =? DT_LBL_NONE then defined dips else di_label d :: defined dips.
Proof.
  unfold defined. rewrite fmap_cons, filter_cons. destruct (Z.eqb_spec (di_label d) DT_LBL_NONE).
  - by rewrite decide_False by tauto.
  - by rewrite decide_True by done.
Qed.

Lemma as_fill_spec dips i labels buf :
  0 <= i → i + size dips <= Z.of_nat (length buf) → i + size dips < 2 ^ 32 →
  Forall (λ l, 0 < l < Z.of_nat (length labels)) (defined dips) → NoDup (defined dips) →
  ∃ labels' buf', as_fill dips i labels buf = Some (i + size dips, labels', buf') ∧
    length labels' = length labels ∧ length buf' = length buf ∧
    (∀ k, k ∉ defined dips → 0 <= k → labels' !! Z.to_nat k = labels !! Z.to_nat k) ∧
    (∀ k, 0 <= k < i → buf' !! Z.to_nat k = buf !! Z.to_nat k) ∧
    placed (λ _ x, Some x) labels' buf' i dips.
Proof.
  revert i labels buf. induction dips as [|d dips IH]; intros i labels buf Hi Hb H32 Hr Hn.
  { exists labels, buf. cbn [size]. rewrite Z.add_0_r. done. }
  rewrite defined_cons in Hr, Hn. cbn [as_fill size] in *. pose proof (size_nonneg dips).
  set (labels1 := if di_label d =? DT_LBL_NONE then labels else <[Z.to_nat (di_label d) := i]> labels).
  assert ((if di_label d =? DT_LBL_NONE then Some labels else assign labels (di_label d) i) = Some labels1) as ->.
  { subst labels1. case_match; [done|]. apply Forall_cons in Hr as [? _]. apply assign_spec. lia. }
  assert (length labels1 = length labels) as Hl1 by (subst labels1; case_match; by rewrite ?length_insert).
  cbn [mbind option_bind].
  assert (Forall (λ l, 0 < l < Z.of_nat (length labels1)) (defined dips) ∧ NoDup (defined dips)) as [Hr' Hn'].
  { rewrite Hl1. case_match; [done|]. apply Forall_cons in Hr as [_ ?]. by apply NoDup_cons in Hn as [_ ?]. }
  assert (di_label d ≠ DT_LBL_NONE → labels1 !! Z.to_nat (di_label d) = Some i ∧ (di_label d ∉ defined dips) ∧ 0 <= di_label d)
    as Hd.
  { intros Hne. subst labels1. apply Z.eqb_neq in Hne. rewrite Hne in Hr, Hn |- *.
    apply Forall_cons in Hr as [? _]. apply NoDup_cons in Hn as [? _].
    split_and!; [apply list_lookup_insert_eq; lia|done|lia]. }
  assert (∀ k, k ∉ defined (d :: dips) → 0 <= k → labels1 !! Z.to_nat k = labels !! Z.to_nat k) as Hother.
  { intros k Hk Hk0. subst labels1. rewrite defined_cons in Hk. case_match; [done|].
    apply not_elem_of_cons in Hk as [Hne _]. apply list_lookup_insert_ne.
    apply Forall_cons in Hr as [? _]. lia. }
  assert (∀ k, k ∉ defined (d :: dips) → k ∉ defined dips) as Hsub.
  { intros k Hk. rewrite defined_cons in Hk. case_match; [done|]. by apply not_elem_of_cons in Hk as [_ ?]. }
  destruct (is_label d) eqn:El; cbn [mbind option_bind].
  - destruct (IH i labels1 buf) as (labels' & buf' & -> & Hl & Hb' & Hk & Hj & Hp); [lia..|done|done|].
    exists labels', buf'. rewrite Z.add_0_l. split_and!; [done|lia|done| |done|].
    + intros k Hnk Hk0. rewrite Hk by auto. auto.
    + cbn [placed]. rewrite El. split; [|done]. intros Hne. destruct (Hd Hne) as (H1 & H2 & H3).
      by rewrite Hk by done.
  - rewrite assign_spec by lia. cbn [mbind option_bind]. rewrite (wrap_id 32 (i + 1)) by (unfold urange; lia).
    destruct (IH (i + 1) labels1 (<[Z.to_nat i := di_instr d]> buf)) as (labels' & buf' & -> & Hl & Hb' & Hk & Hj & Hp);
      [lia|rewrite length_insert; lia|lia|done|done|].
    rewrite length_insert in Hb'. exists labels', buf'. split_and!; [do 3 f_equal; lia|lia|done| | |].
    + intros k Hnk Hk0. rewrite Hk by auto. auto.
    + intros k Hki. rewrite Hj by lia. apply list_lookup_insert_ne. lia.
    + cbn [placed]. rewrite El. split_and!; [|exists (di_instr d); split; [done|]|done].
      * intros Hne. destruct (Hd Hne) as (H1 & H2 & H3). by rewrite Hk by done.
      * rewrite Hj by lia. apply list_lookup_insert_eq. lia.
Qed.

Lemma as_branches_spec labels n buf : ∀ i,
  (∀ k x, buf !! k = Some x → ∃ y, as_branch labels n (i + Z.of_nat k) x = Some y) →
  ∃ buf', as_branches labels n i buf = Some buf' ∧ length buf' = length buf ∧
    ∀ k x, buf !! k = Some x → ∃ y, as_branch labels n (i + Z.of_nat k) x = Some y ∧ buf' !! k = Some y.
Proof.
  induction buf as [|x buf IH]; intros i H; [by exists []|]. cbn [as_branches].
  destruct (H 0%nat x) as [y Hy]; [done|]. rewrite Z.add_0_r in Hy. rewrite Hy. cbn [mbind option_bind].
  destruct (IH (i + 1)) as (buf' & -> & Hl & Hb).
  { intros k z Hk. destruct (H (S k) z Hk) as [w Hw]. exists w. rewrite <- Hw. f_equal. lia. }
  cbn [mbind option_bind]. exists (y :: buf'). split_and!; [done|simpl; lia|].
  intros [|k] z; cbn [lookup list_lookup].
  - intros [= ->]. exists y. by rewrite Z.add_0_r.
  - intros Hk. destruct (Hb k z Hk) as (w & Hw & Hk'). exists w. split; [|done]. rewrite <- Hw. f_equal. lia.
Qed.

Lemma placed_impl (f g : Z → bpf_insn → option bpf_insn) labels buf buf' pc dips :
  0 <= pc →
  (∀ k d x, 0 <= k → d ∈ dips → f k (di_instr d) = Some x → buf !! Z.to_nat k = Some x →
     ∃ y, g k (di_instr d) = Some y ∧ buf' !! Z.to_nat k = Some y) →
  placed f labels buf pc dips → placed g labels buf' pc dips.
Proof.
  revert pc. induction dips as [|d dips IH]; intros pc Hpc H; [done|]. cbn [placed].
  intros [H1 H2]. split; [done|]. destruct (is_label d).
  - apply IH; [done| |done]. intros. eapply H; eauto. set_solver.
  - destruct H2 as [(x & Hx & Hb) H2]. split; [eapply H; eauto; set_solver|].
    apply IH; [lia| |done]. intros. eapply H; eauto. set_solver.
Qed.

(** Where an array has come from: every instruction of it is one of the list. *)
Lemma placed_covers f labels buf dips pc k :
  0 <= pc → placed f labels buf pc dips → pc <= k < pc + size dips →
  ∃ d x, d ∈ dips ∧ f k (di_instr d) = Some x ∧ buf !! Z.to_nat k = Some x.
Proof.
  revert pc. induction dips as [|d dips IH]; intros pc Hpc; cbn [placed size]; [lia|].
  intros [_ H] Hk. destruct (is_label d).
  - destruct (IH pc) as (d' & x & ? & ? & ?); [done|done|lia|]. exists d', x. set_solver.
  - destruct H as [(x & Hx & Hb) H]. destruct (decide (k = pc)) as [->|].
    + exists d, x. set_solver.
    + destruct (IH (pc + 1)) as (d' & y & ? & ? & ?); [lia|done|lia|]. exists d', y. set_solver.
Qed.

(** A label that is defined has a position in the array. *)
Lemma placed_label f labels buf dips pc l :
  placed f labels buf pc dips → l ∈ defined dips →
  ∃ a, labels !! Z.to_nat l = Some a ∧ pc <= a <= pc + size dips.
Proof.
  revert pc. induction dips as [|d dips IH]; intros pc; cbn [placed size]; [by intros _ ?%elem_of_nil|].
  rewrite defined_cons. intros [H1 H2]. pose proof (size_nonneg dips).
  assert (l ∈ defined dips → ∃ a, labels !! Z.to_nat l = Some a ∧
            pc <= a <= pc + ((if is_label d then 0 else 1) + size dips)) as Hrec.
  { intros Hl. destruct (is_label d).
    - destruct (IH pc) as (a & ? & ?); [done..|]. exists a. split; [done|lia].
    - destruct (IH (pc + 1)) as (a & ? & ?); [tauto|done|]. exists a. split; [done|lia]. }
  destruct (Z.eqb_spec (di_label d) DT_LBL_NONE); [done|].
  intros [->|Hl]%elem_of_cons; [|auto]. exists pc. split; [auto|]. destruct (is_label d); lia.
Qed.

Lemma as_branch_other labels n pc x : is_branch x = false → as_branch labels n pc x = Some x.
Proof.
  unfold is_branch, as_branch. destruct (BPF_CLASS (code x) =? BPF_JMP); cbn [negb andb]; [|done].
  destruct (BPF_IS_NOP x); cbn [negb andb]; [done|].
  by destruct ((BPF_OP (code x) =? BPF_CALL) || (BPF_OP (code x) =? BPF_EXIT)).
Qed.

Lemma as_branch_label labels n pc x a :
  is_branch x = true → 0 < off x < n → off x < 2 ^ 32 → labels !! Z.to_nat (off x) = Some a →
  as_branch labels n pc x =
    Some (mk_insn (code x) (dst_reg x) (src_reg x) (s16 (a - pc - 1)) (imm x)).
Proof.
  unfold is_branch, as_branch. intros Hx Ho Hn Ha.
  destruct (BPF_CLASS (code x) =? BPF_JMP); [|done]. destruct (BPF_IS_NOP x); [done|].
  destruct ((BPF_OP (code x) =? BPF_CALL) || (BPF_OP (code x) =? BPF_EXIT)); [done|]. cbn [negb].
  rewrite (wrap_id 32 (off x)) by (unfold urange; lia). rewrite (proj2 (Z.ltb_lt _ _)) by lia. cbn [negb].
  rewrite Ha. cbn [mbind option_bind]. do 2 f_equal. apply swrap_wrap_le. lia.
Qed.

(** The array and the table that the passes make of a list. *)
Lemma as_code_spec dlp : wf_irlist dlp →
  ∃ labels buf, as_code dlp = Some (labels, buf) ∧ Z.of_nat (length buf) = dl_len dlp ∧
    Z.of_nat (length labels) = dl_label dlp ∧ code_at labels buf 0 (dl_list dlp).
Proof.
  intros [Hlen Hmax Hlab Hu Hr Ht]. unfold as_code. pose proof (size_nonneg (dl_list dlp)).
  destruct (as_fill_spec (dl_list dlp) 0 (replicate (Z.to_nat (dl_label dlp)) 0)
              (replicate (Z.to_nat (dl_len dlp)) (insn_of 0 0 0 0 0)))
    as (labels & buf & -> & Hll & Hlb & _ & _ & Hp);
    [lia|rewrite length_replicate; lia|lia| |done|].
  { eapply Forall_impl; [done|]. intros l Hl. cbn beta in Hl |- *. rewrite length_replicate. lia. }
  rewrite length_replicate in Hll. rewrite length_replicate in Hlb. cbn [mbind option_bind]. rewrite Z.add_0_l, <- Hlen, Z.eqb_refl.
  cbn [negb]. rewrite Forall_forall in Ht. rewrite Forall_forall in Hr.
  assert (∀ k d x, 0 <= k → d ∈ dl_list dlp → Some (di_instr d) = Some x → buf !! Z.to_nat k = Some x →
            ∃ y, as_branch labels (dl_label dlp) k (di_instr d) = Some y) as Hbr.
  { intros k d x Hk Hd [= <-] _. destruct (is_branch (di_instr d)) eqn:Eb.
    - specialize (Ht d Hd Eb). destruct (placed_label _ _ _ _ _ _ Hp Ht) as (a & Ha & _).
      specialize (Hr _ Ht). eexists. apply (as_branch_label _ _ _ _ a Eb); [lia|lia|done].
    - eexists. by apply as_branch_other. }
  destruct (as_branches_spec labels (dl_label dlp) buf 0) as (buf' & -> & Hl' & Hb').
  { intros k x Hk. pose proof (lookup_lt_Some _ _ _ Hk).
    destruct (placed_covers _ _ _ _ 0 (Z.of_nat k) ltac:(lia) Hp) as (d & y & Hd & Hy & Hky); [lia|].
    rewrite Nat2Z.id in Hky. simplify_eq. apply (Hbr (Z.of_nat k) d (di_instr d)); [lia|done|done|by rewrite Nat2Z.id]. }
  cbn [mbind option_bind]. exists labels, buf'. split_and!; [done|lia|lia|].
  unfold code_at. rewrite Hll, Z2Nat.id by lia. eapply placed_impl; [lia| |exact Hp].
  intros k d x Hk Hd Hx Hkx. cbn beta in Hx. injection Hx as <-. destruct (Hb' _ _ Hkx) as (y & Hy & Hky). exists y.
  by rewrite Z.add_0_l, Z2Nat.id in Hy by lia.
Qed.

(** A label of the list is where the table says. *)
Lemma code_at_label labels buf dips l : code_at labels buf 0 dips → l ∈ defined dips →
  ∃ pre d post, dips = pre ++ d :: post ∧ di_label d = l ∧ labels !! Z.to_nat l = Some (size pre).
Proof.
  intros Hc Hl. unfold defined in Hl. apply list_elem_of_filter in Hl as [Hne (d & -> & Hd)%list_elem_of_fmap].
  apply list_elem_of_split in Hd as (pre & post & ->). exists pre, d, post. split_and!; [done|done|].
  apply placed_app in Hc as [_ [Hd _]]. auto.
Qed.

(** The assembler turns a well-formed list of fewer than 2^15 instructions into
    the array of its instructions, without the labels: each instruction is where
    the number of instructions before it says, unchanged unless it is a branch;
    and a branch has the distance to the place where its label is defined. *)
Theorem as_code_correct dlp : wf_irlist dlp → dl_len dlp < 2 ^ 15 →
  ∃ labels buf, as_code dlp = Some (labels, buf) ∧ Z.of_nat (length buf) = dl_len dlp ∧
    ∀ pre d post, dl_list dlp = pre ++ d :: post → is_label d = false →
    ∃ x, buf !! Z.to_nat (size pre) = Some x ∧
      if is_branch (di_instr d) then
        ∃ pre' d' post', dl_list dlp = pre' ++ d' :: post' ∧ di_label d' = off (di_instr d) ∧
          x = mk_insn (code (di_instr d)) (dst_reg (di_instr d)) (src_reg (di_instr d))
                (size pre' - (size pre + 1)) (imm (di_instr d))
      else x = di_instr d.
Proof.
  intros Hwf Hlen. destruct (as_code_spec dlp Hwf) as (labels & buf & Ha & Hb & Hll & Hc). destruct Hwf.
  exists labels, buf. split_and!; [done|done|]. intros pre d post E El. pose proof Hc as Hc'.
  rewrite E in Hc'. apply placed_app in Hc' as [_ [_ Hd]]. rewrite El, Z.add_0_l in Hd.
  destruct Hd as [(x & Hx & Hbx) _]. exists x. split; [done|]. destruct (is_branch (di_instr d)) eqn:Eb.
  - rewrite Forall_forall in wi_targets0. rewrite Forall_forall in wi_range0. pose proof (wi_targets0 d ltac:(rewrite E; set_solver) Eb) as Ht.
    destruct (code_at_label _ _ _ _ Hc Ht) as (pre' & d' & post' & E' & Hl' & Hp). exists pre', d', post'.
    specialize (wi_range0 _ Ht). rewrite (as_branch_label _ _ _ _ (size pre') Eb) in Hx by (done || lia).
    split_and!; [done|done|]. simplify_eq. f_equal. rewrite swrap_id; [lia|done|].
    assert (size pre < dl_len dlp ∧ size pre' <= dl_len dlp) as [].
    { rewrite wi_len0. split; [rewrite E|rewrite E']; rewrite size_app; cbn [size]; rewrite ?El.
      - pose proof (size_nonneg post). lia.
      - pose proof (size_nonneg post'). destruct (is_label d'); lia. }
    pose proof (size_nonneg pre). pose proof (size_nonneg pre'). unfold srange. change (16 - 1) with 15. lia.
  - rewrite as_branch_other in Hx by done. by simplify_eq.
Qed.

(** A loop and a branch forward: [L1: mov r0, 1; jeq r0, 0, L2; ja L1; L2:; exit]. *)
Definition small_list : dt_irlist :=
  let l := emitl (mk_irlist [] 0 3) 1 (BPF_MOV_IMM BPF_REG_0 1) in
  let l := emit l (BPF_BRANCH_IMM BPF_JEQ BPF_REG_0 0 2) in
  let l := emit l (BPF_JUMP 1) in
  let l := emitl l 2 BPF_NOP in
  emit l BPF_RETURN.

Lemma as_code_correct_witness : ∃ labels buf, as_code small_list = Some (labels, buf) ∧
  off <$> buf = [0; 1; -3; 0].
Proof.
  destruct (as_code_correct small_list) as (labels & buf & Ha & Hb & Hx); [|reflexivity|].
  - constructor; [reflexivity|reflexivity|done| | |].
    + apply (bool_decide_unpack _). vm_compute. reflexivity.
    + repeat constructor.
    + repeat constructor; intros; vm_compute in *; try done; apply (bool_decide_unpack _); vm_compute; reflexivity.
  - exists labels, buf. split; [exact Ha|]. vm_compute in Ha. injection Ha as <- <-. reflexivity.
Defined.

(** *** Running assembled code *)

Lemma decode_prog_fetch sym buf P pc x :
  decode_prog sym buf = Some P → 0 <= pc → buf !! Z.to_nat pc = Some x →
  fetch P pc = decode_insn sym x (default (insn_of 0 0 0 0 0) (buf !! S (Z.to_nat pc))).
Proof.
  intros HP Hpc. unfold fetch. rewrite (proj2 (Z.leb_le 0 pc)) by lia. generalize (Z.to_nat pc) as n. clear pc Hpc.
  revert P HP. induction buf as [|y buf IH]; intros P HP n Hx; [done|]. cbn [decode_prog] in HP.
  destruct (decode_insn sym y _) as [i|] eqn:Ei; [|done]. cbn [mbind option_bind] in HP.
  destruct (decode_prog sym buf) as [Q|] eqn:EQ; [|done]. cbn [mbind option_bind] in HP. simplify_eq.
  destruct n as [|n]; cbn [lookup list_lookup] in *; [|by apply IH].
  simplify_eq. rewrite <- Ei. by destruct buf.
Qed.

End DtAs.
