(* ===== verification/Node.v ===== *)
(** * The nodes of the D parse tree and constant folding: libdtrace/dt_parser.c

    The nodes of expressions, what the compiler asks about their types, the
    promotion of operands and the evaluation of operators on constants while
    the tree is built.

    Types belong to libctf, which is not part of this repository: what it
    answers is the class [Ctf].  A [longjmp] out of the compiler is [Longjmp];
    [None] is a failed assertion or an operation that C leaves undefined. *)
From S2P Require Import Prelude Ident.
Import Ident.

Module Node.

(** ** Computations that may leave the compiler *)

Definition comp (A : Type) : Type := option (outcome A).

#[export] Instance comp_ret : MRet comp := λ A a, Some (Done a).
#[export] Instance comp_bind : MBind comp := λ A B f m,
  match m with
  | Some (Done a) => f a
  | Some (Longjmp c) => Some (Longjmp c)
  | None => None
  end.

Definition throw {A} (c : Z) : comp A := Some (Longjmp c).
Definition assert (b : bool) : comp unit := if b then mret tt else None.
Definition lift {A} (m : option A) : comp A := match m with Some a => mret a | None => None end.

Definition EDT_CTF : Z := 1004.
Definition EDT_COMPILER : Z := 1005.

(** ** Types *)

Record ctf_encoding := mk_encoding { cte_format : Z; cte_offset : Z; cte_bits : Z }.

Definition CTF_K_INTEGER : Z := 1.
Definition CTF_K_FLOAT : Z := 2.
Definition CTF_K_POINTER : Z := 3.
Definition CTF_K_ARRAY : Z := 4.
Definition CTF_K_FUNCTION : Z := 5.
Definition CTF_K_STRUCT : Z := 6.
Definition CTF_K_UNION : Z := 7.
Definition CTF_K_ENUM : Z := 8.
Definition CTF_K_FORWARD : Z := 9.
Definition CTF_INT_SIGNED : Z := 1.
Definition CTF_ERR : Z := -1.
Definition NBBY : Z := 8.

(** The questions put to libctf, about a type of a container.  [None] is
    CTF_ERR; of [ctf_array_info] only the type of the contents is used. *)
Class Ctf := {
  ctf_type_resolve : Z → Z → Z;
  ctf_type_kind : Z → Z → Z;
  ctf_type_size : Z → Z → Z;
  ctf_type_encoding : Z → Z → option ctf_encoding;
  ctf_type_reference : Z → Z → Z;
  ctf_array_info : Z → Z → option Z
}.

(** A type of the handle: container and identifier. *)
Record dt_tid := mk_tid { tid_ctfp : Z; tid_type : Z }.

(** The types the handle knows: strings, dynamic variables, [int], and the
    table [dt_ints] of the integer types with their limits. *)
Record hdl_types := mk_types {
  dt_type_str : dt_tid;
  dt_type_dyn : dt_tid;
  dt_type_int : dt_tid;
  dt_ints : list (dt_tid * Z)
}.

(** ** Nodes *)

Definition DT_NF_SIGNED : Z := 0x01.
Definition DT_NF_COOKED : Z := 0x02.
Definition DT_NF_REF : Z := 0x04.
Definition DT_NF_LVALUE : Z := 0x08.
Definition DT_NF_WRITABLE : Z := 0x10.
Definition DT_NF_BITFIELD : Z := 0x20.
Definition DT_NF_USERLAND : Z := 0x40.

Inductive tok :=
  | DT_TOK_COMMA | DT_TOK_ASGN | DT_TOK_ADD_EQ | DT_TOK_SUB_EQ | DT_TOK_MUL_EQ | DT_TOK_DIV_EQ
  | DT_TOK_MOD_EQ | DT_TOK_AND_EQ | DT_TOK_XOR_EQ | DT_TOK_OR_EQ | DT_TOK_LSH_EQ | DT_TOK_RSH_EQ
  | DT_TOK_LOR | DT_TOK_LXOR | DT_TOK_LAND | DT_TOK_BOR | DT_TOK_XOR | DT_TOK_BAND
  | DT_TOK_EQU | DT_TOK_NEQ | DT_TOK_LT | DT_TOK_LE | DT_TOK_GT | DT_TOK_GE
  | DT_TOK_LSH | DT_TOK_RSH | DT_TOK_ADD | DT_TOK_SUB | DT_TOK_MUL | DT_TOK_DIV | DT_TOK_MOD
  | DT_TOK_LNEG | DT_TOK_BNEG | DT_TOK_PREINC | DT_TOK_POSTINC | DT_TOK_PREDEC | DT_TOK_POSTDEC
  | DT_TOK_IPOS | DT_TOK_INEG | DT_TOK_DEREF | DT_TOK_ADDROF | DT_TOK_SIZEOF | DT_TOK_STRINGOF
  | DT_TOK_LPAR | DT_TOK_PTR.

#[export] Instance tok_eq_dec : EqDecision tok.
Proof. solve_decision. Defined.

(** The fields every node has: its type, its flags and its stability. *)
Record dt_common := mk_common {
  dn_ctfp : Z;
  dn_type : Z;
  dn_flags : Z;
  dn_attr : dtrace_attribute
}.

(** The kinds of nodes that make expressions; [TypeName] is the type of a cast
    (DT_NODE_TYPE), [Id] a name that has not been looked up (DT_NODE_IDENT), [Var]
    a variable, by the address of its identifier. *)
Inductive dt_node :=
  | Const (c : dt_common) (dn_value : Z)
  | Str (c : dt_common) (dn_string : list Z)
  | TypeName (c : dt_common)
  | Id (c : dt_common) (dn_string : list Z)
  | Var (c : dt_common) (dn_ident : Z)
  | Op1 (c : dt_common) (dn_op : tok) (dn_child : dt_node)
  | Op2 (c : dt_common) (dn_op : tok) (dn_left dn_right : dt_node)
  | Op3 (c : dt_common) (dn_expr dn_left dn_right : dt_node).

Definition common (dnp : dt_node) : dt_common :=
  match dnp with
  | Const c _ | Str c _ | TypeName c | Id c _ | Var c _ | Op1 c _ _ | Op2 c _ _ _ | Op3 c _ _ _ => c
  end.

Definition set_common (c : dt_common) (dnp : dt_node) : dt_node :=
  match dnp with
  | Const _ v => Const c v
  | Str _ s => Str c s
  | TypeName _ => TypeName c
  | Id _ s => Id c s
  | Var _ i => Var c i
  | Op1 _ o x => Op1 c o x
  | Op2 _ o l r => Op2 c o l r
  | Op3 _ e l r => Op3 c e l r
  end.

Definition has (flags f : Z) : bool := negb (Z.land flags f =? 0).
Definition has_flag (dnp : dt_node) (f : Z) : bool := has (dn_flags (common dnp)) f.

(** ** Stability attributes: libdtrace/dt_subr.c *)

Definition dt_attr_min (a1 a2 : dtrace_attribute) : dtrace_attribute :=
  mk_attr (Z.min (dtat_name a1) (dtat_name a2)) (Z.min (dtat_data a1) (dtat_data a2))
    (Z.min (dtat_class a1) (dtat_class a2)).

Definition dt_attr_cmp (a1 a2 : dtrace_attribute) : Z :=
  Z.lor (Z.lor (s32 (dtat_name a1 - dtat_name a2)) (s32 (dtat_data a1 - dtat_data a2)))
    (s32 (dtat_class a1 - dtat_class a2)).

Section Types.
Context `{Ctf} (hdl : hdl_types).

(** The flag DTRACE_C_EATTR of the compilation and its minimum attributes. *)
Context (eattr : bool) (pcb_amin : dtrace_attribute).

Definition attr_assign (c : dt_common) (attr : dtrace_attribute) : comp dt_common :=
  if eattr && (dt_attr_cmp attr pcb_amin <? 0) then throw EDT_COMPILER
  else mret (mk_common (dn_ctfp c) (dn_type c) (dn_flags c) attr).

Definition dt_node_attr_assign (dnp : dt_node) (attr : dtrace_attribute) : comp dt_node :=
  c ← attr_assign (common dnp) attr; mret (set_common c dnp).

Definition IS_VOID (e : ctf_encoding) : bool := (cte_offset e =? 0) && (cte_bits e =? 0).

(** The flags a node of a type gets. *)
Definition type_flags (fp type flags : Z) : Z :=
  let base := ctf_type_resolve fp type in
  let kind := ctf_type_kind fp base in
  let flags := Z.land flags
    (Z.lnot (Z.lor (Z.lor DT_NF_SIGNED DT_NF_REF) (Z.lor DT_NF_BITFIELD DT_NF_USERLAND))) in
  let flags :=
    match (if kind =? CTF_K_INTEGER then ctf_type_encoding fp base else None) with
    | Some e =>
        let size := cte_bits e / NBBY in
        let flags := if (8 <? size) || negb (cte_bits e mod NBBY =? 0) ||
                        negb (Z.land size (size - 1) =? 0)
                     then Z.lor flags DT_NF_BITFIELD else flags in
        if has (cte_format e) CTF_INT_SIGNED then Z.lor flags DT_NF_SIGNED else flags
    | None => flags
    end in
  let flags :=
    match (if kind =? CTF_K_FLOAT then ctf_type_encoding fp base else None) with
    | Some e => if 8 <? cte_bits e / NBBY then Z.lor flags DT_NF_REF else flags
    | None => flags
    end in
  let flags :=
    if (kind =? CTF_K_STRUCT) || (kind =? CTF_K_UNION) || (kind =? CTF_K_FORWARD) ||
       (kind =? CTF_K_ARRAY) || (kind =? CTF_K_FUNCTION) ||
       ((fp =? tid_ctfp (dt_type_dyn hdl)) && (type =? tid_type (dt_type_dyn hdl)))
    then Z.lor flags DT_NF_REF else flags in
  Z.lor flags DT_NF_COOKED.

Definition type_assign (c : dt_common) (fp type : Z) : dt_common :=
  mk_common fp type (type_flags fp type (dn_flags c)) (dn_attr c).

Definition dt_node_type_assign (dnp : dt_node) (fp type : Z) : dt_node :=
  set_common (type_assign (common dnp) fp type) dnp.

Definition dt_node_type_propagate (src dst : dt_node) : comp dt_node :=
  assert (has_flag src DT_NF_COOKED);;
  let c := common src in
  mret (set_common (mk_common (dn_ctfp c) (dn_type c) (Z.land (dn_flags c) (Z.lnot DT_NF_LVALUE))
                      (dn_attr (common dst))) dst).

Definition kind_of (dnp : dt_node) : Z :=
  let c := common dnp in ctf_type_kind (dn_ctfp c) (ctf_type_resolve (dn_ctfp c) (dn_type c)).
Definition encoding_of (dnp : dt_node) : option ctf_encoding :=
  let c := common dnp in ctf_type_encoding (dn_ctfp c) (ctf_type_resolve (dn_ctfp c) (dn_type c)).

Definition is_void_encoding (dnp : dt_node) : bool :=
  match encoding_of dnp with Some e => IS_VOID e | None => false end.

Definition dt_node_is_integer (dnp : dt_node) : comp bool :=
  assert (has_flag dnp DT_NF_COOKED);;
  mret (if (kind_of dnp =? CTF_K_INTEGER) && is_void_encoding dnp then false
        else (kind_of dnp =? CTF_K_INTEGER) || (kind_of dnp =? CTF_K_ENUM)).

Definition dt_node_is_scalar (dnp : dt_node) : comp bool :=
  assert (has_flag dnp DT_NF_COOKED);;
  mret (if (kind_of dnp =? CTF_K_INTEGER) && is_void_encoding dnp then false
        else (kind_of dnp =? CTF_K_INTEGER) || (kind_of dnp =? CTF_K_ENUM) ||
             (kind_of dnp =? CTF_K_POINTER)).

Definition dt_node_is_arith (dnp : dt_node) : comp bool :=
  assert (has_flag dnp DT_NF_COOKED);;
  mret (if kind_of dnp =? CTF_K_INTEGER
        then match encoding_of dnp with Some e => negb (IS_VOID e) | None => false end
        else kind_of dnp =? CTF_K_ENUM).

Definition has_type (dnp : dt_node) (t : dt_tid) : bool :=
  (dn_ctfp (common dnp) =? tid_ctfp t) && (dn_type (common dnp) =? tid_type t).

Definition dt_node_is_string (dnp : dt_node) : bool := has_type dnp (dt_type_str hdl).

(** The nodes here are not inlined variables. *)
Definition dt_node_is_dynamic (dnp : dt_node) : bool := has_type dnp (dt_type_dyn hdl).

Definition dt_node_is_pointer (dnp : dt_node) : comp bool :=
  assert (has_flag dnp DT_NF_COOKED);;
  mret (negb (dt_node_is_string dnp) &&
        ((kind_of dnp =? CTF_K_POINTER) || (kind_of dnp =? CTF_K_ARRAY))).

(** The size of a dynamic variable is asked of its identifier, which is outside
    the model. *)
Definition dt_node_type_size (dnp : dt_node) : comp Z :=
  match dnp with
  | Str _ s => mret (Z.of_nat (length s) + 1)
  | _ =>
      assert (negb (dt_node_is_dynamic dnp));;
      mret (u64 (ctf_type_size (dn_ctfp (common dnp)) (dn_type (common dnp))))
  end.

(** ** The usual arithmetic conversions *)

Definition dt_type_promote (lp rp : dt_node) : comp dt_tid :=
  let lkind := kind_of lp in
  let rkind := kind_of rp in
  assert ((lkind =? CTF_K_INTEGER) || (lkind =? CTF_K_ENUM));;
  assert ((rkind =? CTF_K_INTEGER) || (rkind =? CTF_K_ENUM));;
  let resolved (dnp : dt_node) (kind : Z) : Z * Z * Z :=
    let c := common dnp in
    if kind =? CTF_K_ENUM
    then (tid_ctfp (dt_type_int hdl), tid_type (dt_type_int hdl), tid_type (dt_type_int hdl))
    else (dn_ctfp c, dn_type c, ctf_type_resolve (dn_ctfp c) (dn_type c)) in
  let '(lfp, ltype, lbase) := resolved lp lkind in
  let '(rfp, rtype, rbase) := resolved rp rkind in
  match ctf_type_encoding lfp lbase, ctf_type_encoding rfp rbase with
  | Some le, Some re =>
      let rank e := cte_bits e + (if has (cte_format e) CTF_INT_SIGNED then 0 else 1) in
      mret (if rank le =? rank re
            then if lbase - rbase <? 0 then mk_tid rfp rtype else mk_tid lfp ltype
            else if rank re <? rank le then mk_tid lfp ltype
            else mk_tid rfp rtype)
  | _, _ => throw EDT_CTF
  end.

Definition dt_node_promote (lp rp dnp : dt_node) : comp dt_node :=
  t ← dt_type_promote lp rp;
  dt_node_attr_assign (dt_node_type_assign dnp (tid_ctfp t) (tid_type t))
    (dt_attr_min (dn_attr (common lp)) (dn_attr (common rp))).

(** ** Constants *)

(** A node that was just allocated: no type, the default attributes. *)
Context (_dtrace_defattr : dtrace_attribute).
Definition fresh : dt_common := mk_common 0 CTF_ERR 0 _dtrace_defattr.

(** [-v] in a node of an integer type, as [dt_node_op1] computes it. *)
Definition negate_const (c : dt_common) (v : Z) : comp dt_node :=
  let v := u64 (- v) in
  if has (dn_flags c) DT_NF_SIGNED then mret (Const c v)
  else
    size ← dt_node_type_size (Const c v);
    let n := 64 - size * NBBY in
    assert ((0 <=? n) && (n <? 64));;
    mret (Const c (Z.land v (Z.shiftr (u64 (-1)) n))).

(** The type of an integer constant is the first of the table that can hold it;
    [step] is the distance of the candidates. *)
Fixpoint int_type (fuel : nat) (i step : nat) (value : Z) : option dt_tid :=
  match fuel with
  | O => None
  | S fuel =>
      match dt_ints hdl !! i with
      | Some (t, did_limit) => if value <=? did_limit then Some t else int_type fuel (i + step) step value
      | None => None
      end
  end.

(** The lexer's state: a decimal constant, the suffix and the prefix character. *)
Record yyint := mk_yyint { yyintdecimal : bool; yyintsuffix : list Z; yyintprefix : Z }.

Definition suffix_index (s : list Z) : nat :=
  foldl (λ i c, if (c =? 85) || (c =? 117) then (i + 1)%nat
                else if (c =? 76) || (c =? 108) then (i + 2)%nat else i) 0%nat s.

Definition dt_node_int (yy : yyint) (value : Z) : comp dt_node :=
  let n := if yyintdecimal yy || match yyintsuffix yy with 117 :: _ => true | _ => false end
           then 2%nat else 1%nat in
  match int_type (length (dt_ints hdl) + 1) (suffix_index (yyintsuffix yy)) n value with
  | Some t =>
      let c := type_assign fresh (tid_ctfp t) (tid_type t) in
      if yyintprefix yy =? 45 then negate_const c value else mret (Const c value)
  | None => throw EDT_COMPILER
  end.

(** ** Folding *)

Context (yy : yyint) (size_t : dt_tid).

Definition dt_node_op1 (op : tok) (cp : dt_node) : comp dt_node :=
  let node := mret (Op1 fresh op cp) in
  match cp, op with
  | Const c v, DT_TOK_INEG => negate_const c v
  | Const c v, DT_TOK_IPOS => mret cp
  | Const c v, DT_TOK_BNEG => mret (Const c (u64 (Z.lnot v)))
  | Const c v, DT_TOK_LNEG => mret (Const c (if v =? 0 then 1 else 0))
  | (Str c _ | TypeName c), DT_TOK_SIZEOF =>
      size ← dt_node_type_size cp;
      if size =? 0 then throw EDT_COMPILER
      else mret (Const (type_assign c (tid_ctfp size_t) (tid_type size_t)) size)
  | _, _ => node
  end.

Definition set_value (v : Z) (dnp : dt_node) : dt_node :=
  match dnp with Const c _ => Const c v | _ => dnp end.

Definition is_signed (dnp : dt_node) : bool := has_flag dnp DT_NF_SIGNED.

Definition of_bool (b : bool) : Z := if b then 1 else 0.

(** A value of type [int], and one of the promoted type. *)
Definition fold_int (dnp : dt_node) (v : Z) : comp dt_node :=
  mret (dt_node_type_assign (set_value v dnp) (tid_ctfp (dt_type_int hdl)) (tid_type (dt_type_int hdl))).
Definition fold_promoted (lp rp dnp : dt_node) (v : Z) : comp dt_node :=
  dt_node_promote lp rp (set_value v dnp).

(** A comparison of the signed or of the unsigned values. *)
Definition fold_compare (cmp : Z → Z → bool) (lp rp dnp : dt_node) (l r : Z) : comp dt_node :=
  dnp ← dt_node_promote lp rp dnp;
  fold_int dnp (of_bool (if is_signed dnp then cmp (s64 l) (s64 r) else cmp l r)).

(** A shift: the node has the type of the left operand; a count of 64 or more is
    undefined. *)
Definition fold_shift (f : Z → Z → Z) (lp rp dnp : dt_node) (l r : Z) : comp dt_node :=
  assert (r <? 64);;
  dnp ← dt_node_type_propagate lp (set_value (f l r) dnp);
  dt_node_attr_assign rp (dt_attr_min (dn_attr (common lp)) (dn_attr (common rp)));;
  mret dnp.

(** A division: of the least number by -1 it is undefined. *)
Definition fold_div (f g : Z → Z → Z) (lp rp dnp : dt_node) (l r : Z) : comp dt_node :=
  dnp ← dt_node_promote lp rp dnp;
  assert (negb (r =? 0));;
  if is_signed dnp then
    assert (negb ((s64 l =? - 2 ^ 63) && (s64 r =? -1)));;
    mret (set_value (u64 (f (s64 l) (s64 r))) dnp)
  else mret (set_value (g l r) dnp).

(** The operators that are evaluated; the inner [None] is any other one. *)
Definition fold_op2 (op : tok) (lp rp : dt_node) (l r : Z) (dnp : dt_node) : option (comp dt_node) :=
  match op with
  | DT_TOK_LOR => Some (fold_int dnp (of_bool (negb (l =? 0) || negb (r =? 0))))
  | DT_TOK_LXOR => Some (fold_int dnp (of_bool (xorb (negb (l =? 0)) (negb (r =? 0)))))
  | DT_TOK_LAND => Some (fold_int dnp (of_bool (negb (l =? 0) && negb (r =? 0))))
  | DT_TOK_BOR => Some (fold_promoted lp rp dnp (Z.lor l r))
  | DT_TOK_XOR => Some (fold_promoted lp rp dnp (Z.lxor l r))
  | DT_TOK_BAND => Some (fold_promoted lp rp dnp (Z.land l r))
  | DT_TOK_EQU => Some (fold_int dnp (of_bool (l =? r)))
  | DT_TOK_NEQ => Some (fold_int dnp (of_bool (negb (l =? r))))
  | DT_TOK_LT => Some (fold_compare Z.ltb lp rp dnp l r)
  | DT_TOK_LE => Some (fold_compare Z.leb lp rp dnp l r)
  | DT_TOK_GT => Some (fold_compare Z.gtb lp rp dnp l r)
  | DT_TOK_GE => Some (fold_compare Z.geb lp rp dnp l r)
  | DT_TOK_LSH => Some (fold_shift (λ l r, u64 (Z.shiftl l r)) lp rp dnp l r)
  | DT_TOK_RSH => Some (fold_shift Z.shiftr lp rp dnp l r)
  | DT_TOK_ADD => Some (fold_promoted lp rp dnp (u64 (l + r)))
  | DT_TOK_SUB => Some (fold_promoted lp rp dnp (u64 (l - r)))
  | DT_TOK_MUL => Some (fold_promoted lp rp dnp (u64 (l * r)))
  | DT_TOK_DIV => Some (fold_div Z.quot Z.div lp rp dnp l r)
  | DT_TOK_MOD => Some (fold_div Z.rem Z.modulo lp rp dnp l r)
  | _ => None
  end.

(** The cast of a constant to an integer type. *)
Definition fold_cast (lp rp : dt_node) (v : Z) : comp dt_node :=
  srcsize ← dt_node_type_size rp;
  dstsize ← dt_node_type_size lp;
  v ← (if (dstsize <? srcsize) || xorb (is_signed lp) (is_signed rp) then
         let n := if dstsize <? srcsize then 64 - dstsize * NBBY else 64 - srcsize * NBBY in
         assert ((0 <=? n) && (n <? 64));;
         let w := u64 (Z.shiftl v n) in
         mret (if is_signed lp then u64 (Z.shiftr (s64 w) n) else Z.shiftr w n)
       else mret v);
  dnp ← dt_node_type_propagate lp (set_value v rp);
  dt_node_attr_assign dnp (dt_attr_min (dn_attr (common lp)) (dn_attr (common rp))).

Definition is_div (op : tok) : bool :=
  match op with DT_TOK_MOD | DT_TOK_DIV | DT_TOK_MOD_EQ | DT_TOK_DIV_EQ => true | _ => false end.

Definition const_value (dnp : dt_node) : option Z := match dnp with Const _ v => Some v | _ => None end.

Definition dt_node_op2 (op : tok) (lp rp : dt_node) : comp dt_node :=
  if is_div op && bool_decide (const_value rp = Some 0) then throw EDT_COMPILER
  else
    folded ← ((match const_value lp, const_value rp with
              | Some l, Some r =>
                  dnp ← dt_node_int yy 0;
                  match fold_op2 op lp rp l r dnp with
                  | Some m => dnp ← m; mret (Some dnp)
                  | None => mret None
                  end
              | _, _ => mret None
              end) : comp (option dt_node));
    match folded with
    | Some dnp => mret dnp
    | None =>
        match op, const_value rp with
        | DT_TOK_LPAR, Some v =>
            b ← dt_node_is_integer lp;
            if (b : bool) then fold_cast lp rp v else mret (Op2 fresh op lp rp)
        | _, _ => mret (Op2 fresh op lp rp)
        end
    end.

Definition dt_node_op3 (expr lp rp : dt_node) : dt_node :=
  match const_value expr with
  | Some v => if v =? 0 then rp else lp
  | None => Op3 fresh expr lp rp
  end.

End Types.

End Node.
