(* ===== verification/Cg.v ===== *)
(** * The code generator for expressions: libdtrace/dt_cg.c

    The functions that append the BPF code of a D expression to the instruction
    list: constants, variables, the operators of C, casts and assignments, with
    the register set they allocate from and the temporary strings.

    The state is the instruction list, the register set, the identifiers (whose
    flags record that a variable is read or written), the temporary strings and
    the string table.  Function calls, symbols, members, associative arrays,
    translators and inlined variables are outside the model: the nodes of [Node]
    do not have the first ones, and a variable that is an array, a translator or
    inlined has no result here. *)
From S2P Require Import Prelude Bpf Regset Strtab Ident DtAs Node.
Import Bpf Regset Strtab Ident DtAs Node.

Module Cg.

Definition EDT_NOREG : Z := 1006.
Definition EDT_STR2BIG : Z := 1010.
Definition DIF_STROFF_MAX : Z := 0x7fff.
Definition DIF_VAR_OTHER_UBASE : Z := 0x0500.
Definition DTRACEFLT_BADADDR : Z := 1.
Definition DTRACEFLT_DIVZERO : Z := 4.
Definition DT_IDFLG_LOCAL : Z := 0x0002.
Definition DT_IDFLG_INLINE : Z := 0x0008.
Definition DT_IDFLG_DIFR : Z := 0x0040.
Definition DT_IDFLG_DIFW : Z := 0x0080.
Definition DT_IDFLG_CGREG : Z := 0x0100.

(** Offsets in the DTrace context and in the machine state (dt_dctx.h). *)
Definition DCTX_MST : Z := 16.
Definition DCTX_MEM : Z := 32.
Definition DCTX_STRTAB : Z := 40.
Definition DCTX_GVARS : Z := 56.
Definition DCTX_LVARS : Z := 64.
Definition DMST_FAULT : Z := 24.

(** ** The state *)

Record dt_tstring := mk_tstring { ts_offset : Z; ts_in_use : bool }.

Record cg_state := mk_cgs {
  pcb_ir : dt_irlist;
  pcb_regs : dt_regset dt_irlist;
  cg_ids : idheap;
  dt_tstrings : list dt_tstring;
  dt_ccstab : dt_strtab
}.

Definition cg (A : Type) : Type := cg_state → comp (A * cg_state).

#[export] Instance cg_ret : MRet cg := λ A a st, Some (Done (a, st)).
#[export] Instance cg_bind : MBind cg := λ A B f m st,
  match m st with
  | Some (Done (a, st)) => f a st
  | Some (Longjmp c) => Some (Longjmp c)
  | None => None
  end.

Definition cg_lift {A} (m : comp A) : cg A := λ st, a ← m; mret (a, st).
Definition cg_assert (b : bool) : cg unit := cg_lift (assert b).
Definition cg_throw {A} (c : Z) : cg A := λ _, throw c.

Definition set_ir (ir : dt_irlist) (st : cg_state) : cg_state :=
  mk_cgs ir (pcb_regs st) (cg_ids st) (dt_tstrings st) (dt_ccstab st).

(** ** Appending instructions *)

Definition eml (lbl : Z) (i : bpf_insn) : cg unit := λ st, Some (Done (tt, set_ir (emitl (pcb_ir st) lbl i) st)).
Definition em (i : bpf_insn) : cg unit := λ st, Some (Done (tt, set_ir (emit (pcb_ir st) i) st)).
Definition eme (i : bpf_insn) (idp : Z) : cg unit :=
  λ st, Some (Done (tt, set_ir (emite (pcb_ir st) i idp) st)).
Definition label : cg Z := λ st,
  let '(l, ir) := dt_irlist_label (pcb_ir st) in Some (Done (l, set_ir ir st)).

(** The patch of an instruction that was appended before. *)
Definition patch (n : nat) (i : bpf_insn) : cg unit := λ st,
  let ir := pcb_ir st in
  d ← lift (dl_list ir !! n);
  mret (tt, set_ir (mk_irlist (<[n := mk_irnode (di_label d) i (di_extern d)]> (dl_list ir))
                      (dl_len ir) (dl_label ir)) st).

(** The callbacks of the register set (dt_cg_spill_store, dt_cg_spill_load). *)
Definition cg_spill_store (reg : Z) (ir : dt_irlist) : dt_irlist :=
  emit ir (BPF_STORE BPF_DW BPF_REG_FP (DT_STK_SPILL reg) reg).
Definition cg_spill_load (reg : Z) (ir : dt_irlist) : dt_irlist :=
  emit ir (BPF_LOAD BPF_DW reg BPF_REG_FP (DT_STK_SPILL reg)).

(** ** Registers *)

Definition with_regs {A} (f : dt_regset dt_irlist → dt_irlist → option (A * dt_regset dt_irlist * dt_irlist)) :
    cg A := λ st,
  '(a, drp, ir) ← lift (f (pcb_regs st) (pcb_ir st));
  mret (a, mk_cgs ir drp (cg_ids st) (dt_tstrings st) (dt_ccstab st)).

Definition unit_result {S} (r : option (dt_regset S * S)) : option (unit * dt_regset S * S) :=
  '(d, s) ← r; Some (tt, d, s).

Definition regset_alloc : cg Z := with_regs dt_regset_alloc.
Definition regset_free (reg : Z) : cg unit := with_regs (λ d s, unit_result (dt_regset_free d reg s)).
Definition regset_xalloc (reg : Z) : cg Z := with_regs (λ d s, dt_regset_xalloc d reg s).
Definition regset_xalloc_args : cg Z := with_regs dt_regset_xalloc_args.
Definition regset_free_args : cg unit := with_regs (λ d s, unit_result (dt_regset_free_args d s)).

(** [if ((reg = dt_regset_alloc(drp)) == -1) longjmp(..., EDT_NOREG)] *)
Definition alloc_reg : cg Z :=
  reg ← regset_alloc;
  if reg =? -1 then cg_throw EDT_NOREG else mret reg.
Definition alloc_args : cg unit :=
  rc ← regset_xalloc_args;
  if rc =? -1 then cg_throw EDT_NOREG else mret tt.

(** ** Temporary strings *)

Definition set_tstrings (l : list dt_tstring) (st : cg_state) : cg_state :=
  mk_cgs (pcb_ir st) (pcb_regs st) (cg_ids st) l (dt_ccstab st).

Definition dt_cg_tstring_xalloc : cg Z := λ st,
  '(i, ts) ← lift (list_find (λ t, ts_in_use t = false) (dt_tstrings st));
  mret (ts_offset ts, set_tstrings (<[i := mk_tstring (ts_offset ts) true]> (dt_tstrings st)) st).

Definition dt_cg_tstring_xfree (offset : Z) : cg unit := λ st,
  '(i, ts) ← lift (list_find (λ t, ts_offset t = offset) (dt_tstrings st));
  assert (ts_in_use ts);;
  mret (tt, set_tstrings (<[i := mk_tstring (ts_offset ts) false]> (dt_tstrings st)) st).

(** What a node gets: its register [dn_reg] and its temporary string [dn_tstring]. *)
Definition gen : Type := Z * option Z.
Definition dn_reg (g : gen) : Z := fst g.
Definition dn_tstring (g : gen) : option Z := snd g.

Definition has_tstring (dnp : dt_node) : bool :=
  match dnp with Op1 _ _ _ | Op2 _ _ _ _ | Op3 _ _ _ _ => true | _ => false end.

Definition dt_cg_tstring_free (dnp : dt_node) (g : gen) : cg unit :=
  match dn_tstring g with
  | Some off => if has_tstring dnp then dt_cg_tstring_xfree off else mret tt
  | None => mret tt
  end.

Section Generate.
Context `{Ctf} (hdl : hdl_types) (eattr : bool) (pcb_amin : dtrace_attribute).
(** The functions of the BPF library by name (addresses of identifiers), the
    string size option and what the string table needs. *)
Context (dt_dlib_get_func : string → Z) (strsize : Z).
Context (oob : nat → nat → Z) (soob : nat → Z) (mem : chunks).

Definition get_ident (a : Z) : cg dt_ident := λ st, i ← lift (cg_ids st !! a); mret (i, st).

Definition or_flags (a f : Z) : cg unit := λ st,
  i ← lift (cg_ids st !! a);
  mret (tt, mk_cgs (pcb_ir st) (pcb_regs st)
    (<[a := mk_ident (di_name i) (di_kind i) (Z.lor (di_flags i) f) (di_id i) (di_attr i) (di_vers i)
              (di_ops i) (di_iarg i) (di_data i) (di_offset i) (di_size i) (di_gen i) (di_lineno i)]>
       (cg_ids st)) (dt_tstrings st) (dt_ccstab st)).

(** ** Faults *)

(** A call of a function of the BPF library. *)
Definition call_func (name : string) : cg unit :=
  let idp := dt_dlib_get_func name in
  i ← get_ident idp;
  eme (BPF_CALL_FUNC (di_id i)) idp.

Definition dt_cg_probe_error (off fault illval : Z) : cg unit :=
  alloc_args;;
  em (BPF_LOAD BPF_DW BPF_REG_1 BPF_REG_FP DT_STK_DCTX);;
  em (BPF_MOV_IMM BPF_REG_2 off);;
  em (BPF_MOV_IMM BPF_REG_3 fault);;
  em (BPF_MOV_IMM BPF_REG_4 illval);;
  regset_xalloc BPF_REG_0;;
  call_func "dt_probe_error";;
  regset_free_args;;
  regset_free BPF_REG_0;;
  em BPF_RETURN.

Definition dt_cg_check_notnull (reg : Z) : cg unit :=
  lbl_notnull ← label;
  em (BPF_BRANCH_IMM BPF_JNE reg 0 lbl_notnull);;
  dt_cg_probe_error (u32 (-1)) DTRACEFLT_BADADDR 0;;
  eml lbl_notnull BPF_NOP.

Definition dt_cg_check_fault : cg unit :=
  reg ← regset_alloc;
  lbl_ok ← label;
  if reg =? -1 then cg_throw EDT_NOREG else
  em (BPF_LOAD BPF_DW reg BPF_REG_FP DT_STK_DCTX);;
  em (BPF_LOAD BPF_DW reg reg DCTX_MST);;
  em (BPF_LOAD BPF_DW reg reg DMST_FAULT);;
  em (BPF_BRANCH_IMM BPF_JEQ reg 0 lbl_ok);;
  em (BPF_MOV_IMM BPF_REG_0 0);;
  em BPF_RETURN;;
  eml lbl_ok BPF_NOP;;
  regset_free reg.

Definition BPF_FUNC_probe_read : Z := 4.

Definition dt_cg_memcpy (dst src size : Z) : cg unit :=
  alloc_args;;
  em (BPF_MOV_REG BPF_REG_1 dst);;
  em (BPF_MOV_IMM BPF_REG_2 size);;
  em (BPF_MOV_REG BPF_REG_3 src);;
  regset_xalloc BPF_REG_0;;
  em (BPF_CALL_HELPER BPF_FUNC_probe_read);;
  regset_free_args;;
  regset_free BPF_REG_0.

Definition dt_cg_setx (reg x : Z) : cg unit :=
  let '(i0, i1) := BPF_LDDW reg x in em i0;; em i1.

(** ** Loads and stores *)

(** The size field of a load or store, by the number of bytes. *)
Definition ldstw (size : Z) : Z :=
  match size with 1 => BPF_B | 2 => BPF_H | 4 => BPF_W | 8 => BPF_DW | _ => 0 end.

(** [size > 0 && size <= 8 && (size & (size - 1)) == 0] *)
Definition size_ok (size : Z) : bool := (0 <? size) && (size <=? 8) && (Z.land size (size - 1) =? 0).

Definition clp2 (x : Z) : Z :=
  let x := u64 (x - 1) in
  let x := Z.lor x (Z.shiftr x 1) in
  let x := Z.lor x (Z.shiftr x 2) in
  let x := Z.lor x (Z.shiftr x 4) in
  let x := Z.lor x (Z.shiftr x 8) in
  let x := Z.lor x (Z.shiftr x 16) in
  u64 (x + 1).

(** The bytes of a bit-field of [bits] bits. *)
Definition P2ROUNDUP (x align : Z) : Z := u32 (- Z.land (- x) (- align)).
Definition field_bytes (bits : Z) : Z := clp2 (P2ROUNDUP bits NBBY / NBBY).

Definition dt_cg_load (flags ctfp type : Z) : comp Z :=
  let size :=
    match (if has flags DT_NF_BITFIELD then ctf_type_encoding ctfp type else None) with
    | Some e => field_bytes (cte_bits e)
    | None => ctf_type_size ctfp type
    end in
  if size_ok size then mret (ldstw size) else throw EDT_COMPILER.

(** The variables kept in the blocks of global and of local variables. *)
Definition in_block (i : dt_ident) : bool :=
  has (di_flags i) DT_IDFLG_LOCAL ||
  (negb (has (di_flags i) DT_IDFLG_TLS) && (DIF_VAR_OTHER_UBASE <=? di_id i)).

Definition block_offset (i : dt_ident) : Z :=
  if has (di_flags i) DT_IDFLG_LOCAL then DCTX_LVARS else DCTX_GVARS.

(** [flags]: those of the node, with DT_NF_REF for the address of the variable. *)
Definition dt_cg_load_var (dst : dt_node) (flags idp : Z) : cg gen :=
  or_flags idp DT_IDFLG_DIFR;;
  i ← get_ident idp;
  if in_block i then
    reg ← alloc_reg;
    em (BPF_LOAD BPF_DW reg BPF_REG_FP DT_STK_DCTX);;
    em (BPF_LOAD BPF_DW reg reg (block_offset i));;
    (if has flags DT_NF_REF then em (BPF_ALU64_IMM BPF_ADD reg (di_offset i))
     else
       size ← cg_lift (dt_node_type_size hdl dst);
       cg_assert (size_ok size);;
       em (BPF_LOAD (ldstw size) reg reg (di_offset i)));;
    mret (reg, None)
  else if has (di_flags i) DT_IDFLG_TLS then
    let varid := u32 (di_id i - DIF_VAR_OTHER_UBASE) in
    reg ← alloc_reg;
    alloc_args;;
    em (BPF_MOV_IMM BPF_REG_1 varid);;
    em (BPF_MOV_IMM BPF_REG_2 0);;
    em (BPF_MOV_IMM BPF_REG_3 0);;
    regset_xalloc BPF_REG_0;;
    call_func "dt_get_tvar";;
    regset_free_args;;
    if has flags DT_NF_REF then
      em (BPF_MOV_REG reg BPF_REG_0);;
      regset_free BPF_REG_0;;
      mret (reg, None)
    else
      size ← cg_lift (dt_node_type_size hdl dst);
      lbl_notnull ← label;
      lbl_done ← label;
      cg_assert (size_ok size);;
      em (BPF_BRANCH_IMM BPF_JNE BPF_REG_0 0 lbl_notnull);;
      em (BPF_MOV_IMM reg 0);;
      em (BPF_JUMP lbl_done);;
      eml lbl_notnull (BPF_LOAD (ldstw size) reg BPF_REG_0 0);;
      regset_free BPF_REG_0;;
      eml lbl_done BPF_NOP;;
      mret (reg, None)
  else
    alloc_args;;
    em (BPF_LOAD BPF_DW BPF_REG_1 BPF_REG_FP DT_STK_DCTX);;
    em (BPF_MOV_IMM BPF_REG_2 (di_id i));;
    regset_xalloc BPF_REG_0;;
    call_func "dt_get_bvar";;
    regset_free_args;;
    dt_cg_check_fault;;
    reg ← alloc_reg;
    em (BPF_MOV_REG reg BPF_REG_0);;
    regset_free BPF_REG_0;;
    mret (reg, None).

(** The store of the register [reg] of an assignment of type [dnp] (with the
    flags [flags]) to the variable [idp]; [right] is the operand whose size
    limits a copy (none for an increment, where the pointer is NULL). *)
Definition dt_cg_store_var (flags reg0 : Z) (right : option dt_node) (idp : Z) : cg unit :=
  or_flags idp DT_IDFLG_DIFW;;
  i ← get_ident idp;
  let copy (reg : Z) : cg unit :=
    right ← cg_lift (lift right);
    srcsz ← cg_lift (dt_node_type_size hdl right);
    dt_cg_memcpy reg reg0 (Z.min srcsz (di_size i)) in
  if negb (has (di_flags i) DT_IDFLG_TLS) then
    reg ← alloc_reg;
    em (BPF_LOAD BPF_DW reg BPF_REG_FP DT_STK_DCTX);;
    em (BPF_LOAD BPF_DW reg reg (block_offset i));;
    (if has flags DT_NF_REF then
       em (BPF_ALU64_IMM BPF_ADD reg (di_offset i));;
       copy reg
     else
       cg_assert (size_ok (di_size i));;
       em (BPF_STORE (ldstw (di_size i)) reg (di_offset i) reg0));;
    regset_free reg
  else
    let varid := u32 (di_id i - DIF_VAR_OTHER_UBASE) in
    alloc_args;;
    em (BPF_MOV_IMM BPF_REG_1 varid);;
    em (BPF_MOV_IMM BPF_REG_2 1);;
    em (BPF_MOV_REG BPF_REG_3 reg0);;
    regset_xalloc BPF_REG_0;;
    call_func "dt_get_tvar";;
    regset_free_args;;
    lbl_done ← label;
    em (BPF_BRANCH_IMM BPF_JEQ reg0 0 lbl_done);;
    reg ← alloc_reg;
    em (BPF_MOV_REG reg BPF_REG_0);;
    regset_free BPF_REG_0;;
    dt_cg_check_notnull reg;;
    (if has flags DT_NF_REF then copy reg
     else
       cg_assert (size_ok (di_size i));;
       em (BPF_STORE (ldstw (di_size i)) reg 0 reg0));;
    regset_free reg;;
    eml lbl_done BPF_NOP.

(** The store of the register [sreg] to the address in [dreg].  A bit-field is
    only stored through a member, which the nodes here are not. *)
Definition dt_cg_store (sflags sreg : Z) (dst : dt_node) (dreg : Z) : cg unit :=
  let c := common dst in
  size ← (match (if has (dn_flags c) DT_NF_BITFIELD then ctf_type_encoding (dn_ctfp c) (dn_type c) else None) with
          | Some e => mret (field_bytes (cte_bits e))
          | None => cg_lift (dt_node_type_size hdl dst)
          end);
  if has sflags DT_NF_REF then dt_cg_memcpy dreg sreg size
  else
    cg_assert (negb (has (dn_flags c) DT_NF_BITFIELD));;
    cg_assert (size_ok size);;
    em (BPF_STORE (ldstw size) dreg 0 sreg).

(** ** Operators *)

(** The cast of [sreg] to the type of [dst], into [dreg]. *)
Definition dt_cg_typecast (src : dt_node) (sreg : Z) (dst : dt_node) (dreg : Z) : cg unit :=
  if (dn_ctfp (common dst) =? 0) && (dn_type (common dst) =? CTF_ERR) then mret tt
  else
    srcsize ← cg_lift (dt_node_type_size hdl src);
    dstsize ← cg_lift (dt_node_type_size hdl dst);
    let n := s32 (if dstsize <? srcsize then 64 - dstsize * NBBY else 64 - srcsize * NBBY) in
    scalar ← cg_lift (dt_node_is_scalar dst);
    if scalar && negb (n =? 0) && ((dstsize <? srcsize) || xorb (is_signed src) (is_signed dst)) then
      em (BPF_MOV_REG dreg sreg);;
      em (BPF_ALU64_IMM BPF_LSH dreg n);;
      em (BPF_ALU64_IMM (if is_signed dst then BPF_ARSH else BPF_RSH) dreg n)
    else mret tt.

Definition dt_cg_ptrsize (dnp : dt_node) (op dreg : Z) : cg unit :=
  let ctfp := dn_ctfp (common dnp) in
  let type := ctf_type_resolve ctfp (dn_type (common dnp)) in
  let kind := ctf_type_kind ctfp type in
  cg_assert ((kind =? CTF_K_POINTER) || (kind =? CTF_K_ARRAY));;
  type ← (if kind =? CTF_K_ARRAY then
            match ctf_array_info ctfp type with
            | Some contents => mret contents
            | None => cg_throw EDT_CTF
            end
          else mret (ctf_type_reference ctfp type));
  let size := ctf_type_size ctfp type in
  if size =? 1 then mret tt else em (BPF_ALU64_IMM op dreg size).

Definition is_ptr_tok (op : tok) : bool :=
  match op with DT_TOK_ADD | DT_TOK_SUB | DT_TOK_ADD_EQ | DT_TOK_SUB_EQ => true | _ => false end.

(** The division of signed operands, by the unsigned division of the machine. *)
Definition signed_division (op lreg rreg : Z) : cg unit :=
  lbl_L1 ← label;
  lbl_L2 ← label;
  lbl_L3 ← label;
  lbl_L4 ← label;
  lbl_L5 ← label;
  lbl_valid ← label;
  em (BPF_BRANCH_IMM BPF_JNE rreg 0 lbl_valid);;
  dt_cg_probe_error (u32 (-1)) DTRACEFLT_DIVZERO 0;;
  eml lbl_valid BPF_NOP;;
  em (BPF_BRANCH_IMM BPF_JSLT lreg 0 lbl_L3);;
  em (BPF_BRANCH_IMM BPF_JSLT rreg 0 lbl_L1);;
  em (BPF_JUMP lbl_L4);;
  eml lbl_L1 (BPF_NEG_REG rreg);;
  eml lbl_L2 (BPF_ALU64_REG op lreg rreg);;
  em (BPF_NEG_REG lreg);;
  em (BPF_JUMP lbl_L5);;
  eml lbl_L3 (BPF_NEG_REG lreg);;
  em (BPF_BRANCH_IMM BPF_JSGE rreg 0 lbl_L2);;
  em (BPF_NEG_REG rreg);;
  eml lbl_L4 (BPF_ALU64_REG op lreg rreg);;
  eml lbl_L5 BPF_NOP.

(** [dnp] is the node of the operator, [cgl] and [cgr] generate the operands. *)
Definition dt_cg_arithmetic_op (dnp : dt_node) (dn_op : tok) (left right : dt_node) (cgl cgr : cg gen)
    (op : Z) : cg gen :=
  lp_is_ptr ← cg_lift (dt_node_is_pointer hdl left);
  rp_is_ptr ← cg_lift (dt_node_is_pointer hdl right);
  (if lp_is_ptr && rp_is_ptr then cg_assert (bool_decide (dn_op = DT_TOK_SUB)) else mret tt);;
  let is_ptr_op := if lp_is_ptr && rp_is_ptr then false else is_ptr_tok dn_op in
  l ← cgl;
  (if is_ptr_op && rp_is_ptr then dt_cg_ptrsize dnp BPF_MUL (dn_reg l) else mret tt);;
  r ← cgr;
  (if is_ptr_op && lp_is_ptr then dt_cg_ptrsize dnp BPF_MUL (dn_reg r) else mret tt);;
  (if ((op =? BPF_MOD) || (op =? BPF_DIV)) && is_signed dnp
   then signed_division op (dn_reg l) (dn_reg r)
   else em (BPF_ALU64_REG op (dn_reg l) (dn_reg r)));;
  regset_free (dn_reg r);;
  (if lp_is_ptr && rp_is_ptr then dt_cg_ptrsize right BPF_DIV (dn_reg l) else mret tt);;
  mret (dn_reg l, None).

Definition dt_cg_compare_signed (left right : dt_node) : comp bool :=
  if dt_node_is_string hdl left || dt_node_is_string hdl right then mret false
  else
    la ← dt_node_is_arith left;
    ra ← (if la : bool then dt_node_is_arith right else mret false);
    if negb (la && ra) then mret false
    else
      dn ← dt_node_promote hdl eattr pcb_amin left right (Const (mk_common 0 0 0 (mk_attr 0 0 0)) 0);
      mret (is_signed dn).

(** The comparison of two strings with dt_strcmp: the registers get values whose
    unsigned comparison is that of the strings. *)
Definition compare_strings (left right : dt_node) (l r : gen) : cg unit :=
  Lcomp ← label;
  em (BPF_BRANCH_IMM BPF_JEQ (dn_reg l) 0 Lcomp);;
  em (BPF_BRANCH_IMM BPF_JEQ (dn_reg r) 0 Lcomp);;
  off1 ← dt_cg_tstring_xalloc;
  off2 ← dt_cg_tstring_xalloc;
  alloc_args;;
  em (BPF_MOV_REG BPF_REG_1 (dn_reg l));;
  em (BPF_MOV_REG BPF_REG_2 (dn_reg r));;
  em (BPF_LOAD BPF_DW BPF_REG_3 BPF_REG_FP DT_STK_DCTX);;
  em (BPF_LOAD BPF_DW BPF_REG_3 BPF_REG_3 DCTX_MEM);;
  em (BPF_MOV_REG BPF_REG_4 BPF_REG_3);;
  em (BPF_ALU64_IMM BPF_ADD BPF_REG_3 off1);;
  em (BPF_ALU64_IMM BPF_ADD BPF_REG_4 off2);;
  regset_xalloc BPF_REG_0;;
  call_func "dt_strcmp";;
  regset_free_args;;
  em (BPF_ALU64_IMM BPF_ADD BPF_REG_0 1);;
  em (BPF_MOV_REG (dn_reg l) BPF_REG_0);;
  regset_free BPF_REG_0;;
  em (BPF_MOV_IMM (dn_reg r) 1);;
  dt_cg_tstring_xfree off1;;
  dt_cg_tstring_xfree off2;;
  dt_cg_tstring_free left l;;
  dt_cg_tstring_free right r;;
  eml Lcomp BPF_NOP.

Definition dt_cg_compare_op (left right : dt_node) (cgl cgr : cg gen) (op : Z) : cg gen :=
  lbl_true ← label;
  lbl_post ← label;
  l ← cgl;
  r ← cgr;
  (if dt_node_is_string hdl left || dt_node_is_string hdl right
   then compare_strings left right l r else mret tt);;
  em (BPF_BRANCH_REG op (dn_reg l) (dn_reg r) lbl_true);;
  regset_free (dn_reg r);;
  em (BPF_MOV_IMM (dn_reg l) 0);;
  em (BPF_JUMP lbl_post);;
  eml lbl_true (BPF_MOV_IMM (dn_reg l) 1);;
  eml lbl_post BPF_NOP;;
  mret (dn_reg l, None).

(** The number of nodes in the list: where the next one will be. *)
Definition here : cg nat := λ st, mret (length (dl_list (pcb_ir st)), st).

Definition dt_cg_ternary_op (dnp left right : dt_node) (cge cgl cgr : cg gen) : cg gen :=
  lbl_false ← label;
  lbl_post ← label;
  e ← cge;
  em (BPF_BRANCH_IMM BPF_JEQ (dn_reg e) 0 lbl_false);;
  regset_free (dn_reg e);;
  l ← cgl;
  dip ← here;
  em (BPF_MOV_IMM (dn_reg l) 0);;
  regset_free (dn_reg l);;
  em (BPF_JUMP lbl_post);;
  eml lbl_false BPF_NOP;;
  r ← cgr;
  patch dip (BPF_MOV_REG (dn_reg r) (dn_reg l));;
  eml lbl_post BPF_NOP;;
  if dt_node_is_string hdl dnp then
    em (BPF_MOV_REG BPF_REG_0 (dn_reg r));;
    off ← dt_cg_tstring_xalloc;
    em (BPF_LOAD BPF_DW (dn_reg r) BPF_REG_FP DT_STK_DCTX);;
    em (BPF_LOAD BPF_DW (dn_reg r) (dn_reg r) DCTX_MEM);;
    em (BPF_ALU64_IMM BPF_ADD (dn_reg r) off);;
    dt_cg_memcpy (dn_reg r) BPF_REG_0 strsize;;
    dt_cg_tstring_free left l;;
    dt_cg_tstring_free right r;;
    mret (dn_reg r, Some off)
  else mret (dn_reg r, None).

Definition dt_cg_logical_and (cgl cgr : cg gen) : cg gen :=
  lbl_false ← label;
  lbl_post ← label;
  l ← cgl;
  em (BPF_BRANCH_IMM BPF_JEQ (dn_reg l) 0 lbl_false);;
  regset_free (dn_reg l);;
  r ← cgr;
  em (BPF_BRANCH_IMM BPF_JEQ (dn_reg r) 0 lbl_false);;
  dt_cg_setx (dn_reg r) 1;;
  em (BPF_JUMP lbl_post);;
  eml lbl_false (BPF_MOV_IMM (dn_reg r) 0);;
  eml lbl_post BPF_NOP;;
  mret (dn_reg r, None).

Definition dt_cg_logical_xor (cgl cgr : cg gen) : cg gen :=
  lbl_next ← label;
  lbl_tail ← label;
  l ← cgl;
  em (BPF_BRANCH_IMM BPF_JEQ (dn_reg l) 0 lbl_next);;
  dt_cg_setx (dn_reg l) 1;;
  eml lbl_next BPF_NOP;;
  r ← cgr;
  em (BPF_BRANCH_IMM BPF_JEQ (dn_reg r) 0 lbl_tail);;
  dt_cg_setx (dn_reg r) 1;;
  eml lbl_tail (BPF_ALU64_REG BPF_XOR (dn_reg l) (dn_reg r));;
  regset_free (dn_reg r);;
  mret (dn_reg l, None).

Definition dt_cg_logical_or (cgl cgr : cg gen) : cg gen :=
  lbl_true ← label;
  lbl_false ← label;
  lbl_post ← label;
  l ← cgl;
  em (BPF_BRANCH_IMM BPF_JNE (dn_reg l) 0 lbl_true);;
  regset_free (dn_reg l);;
  r ← cgr;
  em (BPF_BRANCH_IMM BPF_JEQ (dn_reg r) 0 lbl_false);;
  eml lbl_true (BPF_MOV_IMM (dn_reg r) 1);;
  em (BPF_JUMP lbl_post);;
  eml lbl_false (BPF_MOV_IMM (dn_reg r) 0);;
  eml lbl_post BPF_NOP;;
  mret (dn_reg r, None).

Definition dt_cg_logical_neg (cgc : cg gen) : cg gen :=
  lbl_zero ← label;
  lbl_post ← label;
  x ← cgc;
  em (BPF_BRANCH_IMM BPF_JEQ (dn_reg x) 0 lbl_zero);;
  em (BPF_MOV_IMM (dn_reg x) 0);;
  em (BPF_JUMP lbl_post);;
  eml lbl_zero (BPF_MOV_IMM (dn_reg x) 1);;
  eml lbl_post BPF_NOP;;
  mret (dn_reg x, None).

(** ** Assignments *)

(** The variable a node names; arrays are outside the model. *)
Definition scalar_var (idp : Z) : cg unit :=
  i ← get_ident idp;
  cg_assert (negb (has (di_flags i) DT_IDFLG_INLINE));;
  cg_assert (negb (di_kind i =? DT_IDENT_ARRAY)).

(** [dt_node_resolve(dnp, DT_IDENT_XLSOU) != NULL] *)
Definition is_xlsou (dnp : dt_node) : cg bool :=
  match dnp with
  | Var _ idp => i ← get_ident idp; mret (di_kind i =? DT_IDENT_XLSOU)
  | _ => cg_assert (negb (dt_node_is_dynamic hdl dnp));; mret false
  end.

Definition is_lvalue (dnp : dt_node) : bool := has_flag dnp DT_NF_WRITABLE && has_flag dnp DT_NF_LVALUE.

(** [reg] holds the value; [cgl] generates the address of the left operand. *)
Definition dt_cg_asgn_op (dnp left right : dt_node) (reg : Z) (r : gen) (cgl : cg gen) : cg gen :=
  xl ← is_xlsou right;
  if (xl : bool) then cg_throw EDT_COMPILER else
  match left with
  | Var _ idp =>
      scalar_var idp;;
      dt_cg_store_var (dn_flags (common dnp)) reg (Some right) idp;;
      mret (reg, dn_tstring r)
  | _ =>
      cg_assert (is_lvalue left);;
      l ← cgl;
      dt_cg_store (dn_flags (common dnp)) reg left (dn_reg l);;
      regset_free (dn_reg l);;
      mret (reg, None)
  end.

(** What [++] and [--] add or subtract. *)
Definition step_size (dnp : dt_node) : comp Z :=
  p ← dt_node_is_pointer hdl dnp;
  if (p : bool) then
    let ctfp := dn_ctfp (common dnp) in
    let type := ctf_type_resolve ctfp (dn_type (common dnp)) in
    assert (ctf_type_kind ctfp type =? CTF_K_POINTER);;
    mret (ctf_type_size ctfp (ctf_type_reference ctfp type))
  else mret 1.

(** The new value in [reg] is stored in the operand. *)
Definition store_operand (dnp child : dt_node) (reg : Z) (cgref : cg gen) : cg unit :=
  match child with
  | Var _ idp => dt_cg_store_var (dn_flags (common dnp)) reg None idp
  | _ =>
      cg_assert (is_lvalue child);;
      c ← cgref;
      dt_cg_store (dn_flags (common dnp)) reg child (dn_reg c);;
      regset_free (dn_reg c)
  end.

Definition dt_cg_prearith_op (dnp child : dt_node) (cgc cgref : cg gen) (op : Z) : cg gen :=
  size ← cg_lift (step_size dnp);
  c ← cgc;
  em (BPF_ALU64_IMM op (dn_reg c) size);;
  store_operand dnp child (dn_reg c) cgref;;
  mret (dn_reg c, None).

Definition dt_cg_postarith_op (dnp child : dt_node) (cgc cgref : cg gen) (op : Z) : cg gen :=
  size ← cg_lift (step_size dnp);
  c ← cgc;
  nreg ← alloc_reg;
  em (BPF_MOV_REG nreg (dn_reg c));;
  em (BPF_ALU64_IMM op nreg size);;
  store_operand dnp child nreg cgref;;
  regset_free nreg;;
  mret (dn_reg c, None).

(** ** Expressions *)

Definition EQ_op (op : tok) (sgn : bool) : option Z :=
  match op with
  | DT_TOK_ADD_EQ => Some BPF_ADD
  | DT_TOK_SUB_EQ => Some BPF_SUB
  | DT_TOK_MUL_EQ => Some BPF_MUL
  | DT_TOK_DIV_EQ => Some BPF_DIV
  | DT_TOK_MOD_EQ => Some BPF_MOD
  | DT_TOK_AND_EQ => Some BPF_AND
  | DT_TOK_XOR_EQ => Some BPF_XOR
  | DT_TOK_OR_EQ => Some BPF_OR
  | DT_TOK_LSH_EQ => Some BPF_LSH
  | DT_TOK_RSH_EQ => Some (if sgn then BPF_ARSH else BPF_RSH)
  | _ => None
  end.

Definition arith_op (op : tok) (sgn : bool) : option Z :=
  match op with
  | DT_TOK_BOR => Some BPF_OR
  | DT_TOK_XOR => Some BPF_XOR
  | DT_TOK_BAND => Some BPF_AND
  | DT_TOK_LSH => Some BPF_LSH
  | DT_TOK_RSH => Some (if sgn then BPF_ARSH else BPF_RSH)
  | DT_TOK_ADD => Some BPF_ADD
  | DT_TOK_SUB => Some BPF_SUB
  | DT_TOK_MUL => Some BPF_MUL
  | DT_TOK_DIV => Some BPF_DIV
  | DT_TOK_MOD => Some BPF_MOD
  | _ => None
  end.

(** The branches of a comparison: with signed and with unsigned operands. *)
Definition compare_op (op : tok) : option (Z * Z) :=
  match op with
  | DT_TOK_EQU => Some (BPF_JEQ, BPF_JEQ)
  | DT_TOK_NEQ => Some (BPF_JNE, BPF_JNE)
  | DT_TOK_LT => Some (BPF_JSLT, BPF_JLT)
  | DT_TOK_LE => Some (BPF_JSLE, BPF_JLE)
  | DT_TOK_GT => Some (BPF_JSGT, BPF_JGT)
  | DT_TOK_GE => Some (BPF_JSGE, BPF_JGE)
  | _ => None
  end.

Definition is_equality (op : tok) : bool := match op with DT_TOK_EQU | DT_TOK_NEQ => true | _ => false end.

Definition cg_const (v : Z) : cg gen :=
  reg ← alloc_reg;
  (if 2 ^ 31 - 1 <? v then dt_cg_setx reg v else em (BPF_MOV_IMM reg v));;
  mret (reg, None).

Definition cg_string (s : list Z) : cg gen :=
  reg ← alloc_reg;
  stroff ← (λ st,
    '(off, tab) ← lift (dt_strtab_insert oob soob mem true true (dt_ccstab st) (Some s));
    mret (off, mk_cgs (pcb_ir st) (pcb_regs st) (cg_ids st) (dt_tstrings st) tab)) : cg Z;
  if stroff =? -1 then cg_throw EDT_NOMEM
  else if DIF_STROFF_MAX <? stroff then cg_throw EDT_STR2BIG
  else
    em (BPF_LOAD BPF_DW reg BPF_REG_FP DT_STK_DCTX);;
    em (BPF_LOAD BPF_DW reg reg DCTX_STRTAB);;
    em (BPF_ALU64_IMM BPF_ADD reg stroff);;
    mret (reg, None).

Definition cg_var (dnp : dt_node) (flags idp : Z) : cg gen :=
  i ← get_ident idp;
  if has (di_flags i) DT_IDFLG_CGREG then
    reg ← alloc_reg;
    em (BPF_MOV_REG reg (di_id i));;
    mret (reg, None)
  else
    scalar_var idp;;
    cg_assert (negb ((di_kind i =? DT_IDENT_XLSOU) || (di_kind i =? DT_IDENT_XLPTR)));;
    dt_cg_load_var dnp flags idp.

(** The dereference of the pointer in [reg]. *)
Definition cg_deref (dnp : dt_node) (flags reg : Z) : cg unit :=
  if has flags DT_NF_REF then mret tt
  else
    dt_cg_check_notnull reg;;
    sz ← cg_lift (dt_cg_load flags (dn_ctfp (common dnp)) (dn_type (common dnp)));
    em (BPF_LOAD sz reg reg 0).

(** [rbit]: DT_NF_REF where the caller sets it on the node for the call. *)
Fixpoint dt_cg_node (dnp : dt_node) (rbit : Z) {struct dnp} : cg gen :=
  let flags := Z.lor (dn_flags (common dnp)) rbit in
  let sgn := is_signed dnp in
  match dnp with
  | Const _ v => cg_const v
  | Str _ s => cg_string s
  | TypeName _ | Id _ _ => cg_throw EDT_COMPILER
  | Var _ idp => cg_var dnp flags idp
  | Op1 _ op child =>
      match op with
      | DT_TOK_LNEG => dt_cg_logical_neg (dt_cg_node child 0)
      | DT_TOK_BNEG =>
          c ← dt_cg_node child 0;
          em (BPF_ALU64_IMM BPF_XOR (dn_reg c) (-1));; mret (dn_reg c, None)
      | DT_TOK_PREINC => dt_cg_prearith_op dnp child (dt_cg_node child 0) (dt_cg_node child DT_NF_REF) BPF_ADD
      | DT_TOK_POSTINC => dt_cg_postarith_op dnp child (dt_cg_node child 0) (dt_cg_node child DT_NF_REF) BPF_ADD
      | DT_TOK_PREDEC => dt_cg_prearith_op dnp child (dt_cg_node child 0) (dt_cg_node child DT_NF_REF) BPF_SUB
      | DT_TOK_POSTDEC => dt_cg_postarith_op dnp child (dt_cg_node child 0) (dt_cg_node child DT_NF_REF) BPF_SUB
      | DT_TOK_IPOS | DT_TOK_STRINGOF => c ← dt_cg_node child 0; mret (dn_reg c, None)
      | DT_TOK_INEG => c ← dt_cg_node child 0; em (BPF_NEG_REG (dn_reg c));; mret (dn_reg c, None)
      | DT_TOK_DEREF => c ← dt_cg_node child 0; cg_deref dnp flags (dn_reg c);; mret (dn_reg c, None)
      | DT_TOK_ADDROF => c ← dt_cg_node child DT_NF_REF; mret (dn_reg c, None)
      | DT_TOK_SIZEOF =>
          size ← cg_lift (dt_node_type_size hdl child);
          reg ← alloc_reg;
          cg_assert (negb (size =? 0));;
          dt_cg_setx reg size;; mret (reg, None)
      | _ => cg_throw EDT_COMPILER
      end
  | Op2 _ op lp rp =>
      let cgl := dt_cg_node lp 0 in
      let cgr := dt_cg_node rp 0 in
      match op, EQ_op op sgn, arith_op op sgn, compare_op op with
      | DT_TOK_COMMA, _, _, _ =>
          l ← cgl; regset_free (dn_reg l);; r ← cgr; mret (dn_reg r, None)
      | DT_TOK_ASGN, _, _, _ =>
          r ← cgr; dt_cg_asgn_op dnp lp rp (dn_reg r) r (dt_cg_node lp DT_NF_REF)
      | DT_TOK_PTR, _, _, _ => λ _, None
      | DT_TOK_LOR, _, _, _ => dt_cg_logical_or cgl cgr
      | DT_TOK_LXOR, _, _, _ => dt_cg_logical_xor cgl cgr
      | DT_TOK_LAND, _, _, _ => dt_cg_logical_and cgl cgr
      | DT_TOK_LPAR, _, _, _ =>
          r ← cgr; dt_cg_typecast rp (dn_reg r) dnp (dn_reg r);; mret (dn_reg r, None)
      | _, Some bop, _, _ =>
          x ← dt_cg_arithmetic_op dnp op lp rp cgl cgr bop;
          dt_cg_asgn_op dnp lp rp (dn_reg x) x (dt_cg_node lp DT_NF_REF)
      | _, _, Some bop, _ => dt_cg_arithmetic_op dnp op lp rp cgl cgr bop
      | _, _, _, Some (sop, uop) =>
          s ← cg_lift (if is_equality op then mret false else dt_cg_compare_signed lp rp);
          dt_cg_compare_op lp rp cgl cgr (if s : bool then sop else uop)
      | _, _, _, _ => cg_throw EDT_COMPILER
      end
  | Op3 _ expr lp rp =>
      dt_cg_ternary_op dnp lp rp (dt_cg_node expr 0) (dt_cg_node lp 0) (dt_cg_node rp 0)
  end.

End Generate.

End Cg.
