(* ===== verification/Cook.v ===== *)
(** * Type checking: the cooking of parse trees in libdtrace/dt_parser.c

    After the parser has built the tree of a clause, [dt_node_cook] goes through
    it: names become variables, which are created where the program assigns to
    them, and every node gets its type and its stability.

    A tree is changed in place.  Cooking may fail half way, and [dt_cook_clause]
    tries again then with what is there, so the result of cooking is a tree in
    any case, with an error or without; the error is what [longjmp] and
    [dt_errtag] tell.  After an error for which there is no second try the tree
    is only freed, and the one that is given then is not to be relied on.

    Of the identifiers' operations there are those of ordinary and of built-in
    variables.  Symbols of modules, aggregations, associative arrays, functions,
    members of structures and translators are outside the model: names with a
    grave accent, [->] after anything but [self] and [this], and identifiers of
    other kinds have no result.  Of the tables on [pcb_globals] there is the first
    one; the others are for the arguments of inlines and translators. *)
From S2P Require Import Prelude CLib Ident Node Cg.
#[local] Open Scope Z_scope.
Import Ident Node Cg.

Module Cook.

(** The operations of built-in variables, as an opaque word. *)
Definition dt_idops_type : Z := 2.

(** ** Errors *)

Inductive err_tag :=
  | D_UNKNOWN | D_TYPE_ERR | D_ATTR_MIN | D_IDENT_UNDEF | D_IDENT_BADREF | D_IDENT_AMBIG | D_ID_OFLOW | D_VAR_UNDEF
  | D_DEREF_NONPTR | D_DEREF_VOID | D_DEREF_FUNC | D_ADDROF_VAR | D_ADDROF_LVAL | D_ADDROF_BITFIELD
  | D_SIZEOF_BITFIELD | D_SIZEOF_TYPE | D_STRINGOF_TYPE | D_CAST_INVAL | D_ARR_BOUNDS | D_PRED_SCALAR
  | D_OP_ARITH | D_OP_INT | D_OP_SCALAR | D_OP_VFPTR | D_OP_LVAL | D_OP_WRITE | D_OP_INCOMPAT | D_OP_ARRFUN | D_OP_DYN.

#[export] Instance err_tag_eq_dec : EqDecision err_tag.
Proof. solve_decision. Defined.

(** The code of the [longjmp]; the tag is that of an EDT_COMPILER. *)
Record error := mk_error { e_code : Z; e_tag : err_tag }.

(** ** The state *)

(** [ck_types] has [di_ctfp] and [di_type] of the identifiers. *)
Record cook_state := mk_ck {
  ck_ids : idheap;
  ck_types : gmap Z (Z * Z);
  ck_php : option dt_idhash;
  ck_globals : dt_idhash;
  ck_tls : dt_idhash;
  ck_locals : dt_idhash;
  dt_maxtlslen : Z
}.

Inductive table := Globals | Tls | Locals.

#[export] Instance table_eq_dec : EqDecision table.
Proof. solve_decision. Defined.

Definition get_tab (t : table) (s : cook_state) : dt_idhash :=
  match t with Globals => ck_globals s | Tls => ck_tls s | Locals => ck_locals s end.

Definition set_tab (t : table) (dhp : dt_idhash) (s : cook_state) : cook_state :=
  match t with
  | Globals => mk_ck (ck_ids s) (ck_types s) (ck_php s) dhp (ck_tls s) (ck_locals s) (dt_maxtlslen s)
  | Tls => mk_ck (ck_ids s) (ck_types s) (ck_php s) (ck_globals s) dhp (ck_locals s) (dt_maxtlslen s)
  | Locals => mk_ck (ck_ids s) (ck_types s) (ck_php s) (ck_globals s) (ck_tls s) dhp (dt_maxtlslen s)
  end.

Definition set_ids (h : idheap) (php : option dt_idhash) (s : cook_state) : cook_state :=
  mk_ck h (ck_types s) php (ck_globals s) (ck_tls s) (ck_locals s) (dt_maxtlslen s).

Definition set_maxtlslen (n : Z) (s : cook_state) : cook_state :=
  mk_ck (ck_ids s) (ck_types s) (ck_php s) (ck_globals s) (ck_tls s) (ck_locals s) n.

(** [dt_ident_type_assign] *)
Definition dt_ident_type_assign (idp fp type : Z) (s : cook_state) : cook_state :=
  mk_ck (ck_ids s) (<[idp := (fp, type)]> (ck_types s)) (ck_php s) (ck_globals s) (ck_tls s) (ck_locals s) (dt_maxtlslen s).

Definition ident_type (s : cook_state) (idp : Z) : Z * Z := default (0, CTF_ERR) (ck_types s !! idp).

(** The table an identifier is in. *)
Definition di_hash (i : dt_ident) : table :=
  if has (di_flags i) DT_IDFLG_LOCAL then Locals else if has (di_flags i) DT_IDFLG_TLS then Tls else Globals.

(** ** Computations *)

Definition ck (A : Type) : Type := cook_state → option (cook_state * (A + error)).

#[export] Instance ck_ret : MRet ck := λ A a s, Some (s, inl a).
#[export] Instance ck_bind : MBind ck := λ A B f m s,
  match m s with
  | Some (s, inl a) => f a s
  | Some (s, inr e) => Some (s, inr e)
  | None => None
  end.

Definition xyerror {A} (tag : err_tag) : ck A := λ s, Some (s, inr (mk_error EDT_COMPILER tag)).
Definition longjmp {A} (code : Z) : ck A := λ s, Some (s, inr (mk_error code D_UNKNOWN)).
Definition outside {A} : ck A := λ _, None.

(** The computations of [Node]; the only EDT_COMPILER there is that of [attr_assign]. *)
Definition ask {A} (m : comp A) : ck A := λ s,
  match m with
  | Some (Done a) => Some (s, inl a)
  | Some (Longjmp c) => Some (s, inr (mk_error c D_ATTR_MIN))
  | None => None
  end.

Definition get_id (idp : Z) : ck dt_ident := λ s, i ← ck_ids s !! idp; Some (s, inl i).
Definition put_id (idp : Z) (i : dt_ident) : ck unit := λ s, Some (set_ids (<[idp := i]> (ck_ids s)) (ck_php s) s, inl tt).
Definition get_type (idp : Z) : ck (Z * Z) := λ s, Some (s, inl (ident_type s idp)).
Definition put_type (idp : Z) (t : dt_tid) : ck unit := λ s,
  Some (dt_ident_type_assign idp (tid_ctfp t) (tid_type t) s, inl tt).

(** [idp->di_flags |= flags] *)
Definition add_flags (idp flags : Z) : ck unit :=
  i ← get_id idp; put_id idp (set_flags i (Z.lor (di_flags i) flags)).

Definition or_flag (c : dt_common) (f : Z) : dt_common :=
  mk_common (dn_ctfp c) (dn_type c) (Z.lor (dn_flags c) f) (dn_attr c).

(** *** Trees *)

(** A tree, changed in place, and the error if there is one. *)
Definition cookn : Type := cook_state → option (cook_state * dt_node * option error).

(** The node [dnp], replaced by the result of [m]. *)
Definition finish (dnp : dt_node) (m : ck dt_node) : cookn := λ s,
  '(s, r) ← m s;
  Some (match r with inl n => (s, n, None) | inr e => (s, dnp, Some e) end).

(** A child: [rebuild] puts it into its parent, [k] goes on after it. *)
Definition child (m : cookn) (rebuild : dt_node → dt_node) (k : dt_node → cookn) : cookn := λ s,
  '(s, n, e) ← m s;
  match e with
  | Some e => Some (s, rebuild n, Some e)
  | None => k n s
  end.

(** ** More questions about types *)

(** What libctf answers beyond [Ctf]: whether two types are compatible, the value
    of an enumerator, the number of elements of an array, pointer types, also new
    ones, and the encoding of [char]. *)
Class CtfCook := {
  ctf_type_compat : Z → Z → Z → Z → bool;
  ctf_enum_value : Z → Z → list Z → option Z;
  ctf_array_nelems : Z → Z → option Z;
  ctf_type_pointer : Z → Z → option Z;
  ctf_parent_file : Z → Z;
  ctf_add_type : Z → Z → Z → option Z;
  ctf_add_pointer : Z → Z → option Z;
  CTF_CHAR : Z
}.

(** The types the handle knows besides those of [hdl_types], and the container of D's types. *)
Record cook_types := mk_cook_types {
  dt_type_stack : dt_tid;
  dt_type_symaddr : dt_tid;
  dt_type_usymaddr : dt_tid;
  dt_size_t : dt_tid;
  dt_ptrdiff_t : dt_tid;
  dt_ddefs : Z
}.

Section Questions.
Context `{Ctf, !CtfCook} (hdl : hdl_types) (hdc : cook_types).

Definition IS_CHAR (e : ctf_encoding) : bool := (Z.land (cte_format e) CTF_CHAR =? CTF_CHAR) && (cte_bits e =? NBBY).

Definition is_void_type (fp type : Z) : bool :=
  match ctf_type_encoding fp type with Some e => IS_VOID e | None => false end.
Definition is_char_type (fp type : Z) : bool :=
  match ctf_type_encoding fp type with Some e => IS_CHAR e | None => false end.

Definition base_of (dnp : dt_node) : Z := ctf_type_resolve (dn_ctfp (common dnp)) (dn_type (common dnp)).

Definition dt_node_is_vfptr (dnp : dt_node) : comp bool :=
  assert (has_flag dnp DT_NF_COOKED);;
  let fp := dn_ctfp (common dnp) in
  mret (if negb (kind_of dnp =? CTF_K_POINTER) then false
        else
          let type := ctf_type_resolve fp (ctf_type_reference fp (base_of dnp)) in
          let kind := ctf_type_kind fp type in
          (kind =? CTF_K_FUNCTION) || ((kind =? CTF_K_INTEGER) && is_void_type fp type)).

Definition dt_node_is_strcompat (dnp : dt_node) : comp bool :=
  assert (has_flag dnp DT_NF_COOKED);;
  let fp := dn_ctfp (common dnp) in
  let ref := ctf_type_reference fp (base_of dnp) in
  mret ((kind_of dnp =? CTF_K_POINTER) && negb (ref =? CTF_ERR) &&
          negb (ctf_type_resolve fp ref =? CTF_ERR) && is_char_type fp (ctf_type_resolve fp ref) ||
        (kind_of dnp =? CTF_K_ARRAY) &&
          match ctf_array_info fp (base_of dnp) with
          | Some t => negb (ctf_type_resolve fp t =? CTF_ERR) && is_char_type fp (ctf_type_resolve fp t)
          | None => false
          end).

Definition dt_node_is_stack (dnp : dt_node) : bool := has_type dnp (dt_type_stack hdc).
Definition dt_node_is_symaddr (dnp : dt_node) : bool := has_type dnp (dt_type_symaddr hdc).
Definition dt_node_is_usymaddr (dnp : dt_node) : bool := has_type dnp (dt_type_usymaddr hdc).

Definition dt_node_is_void (dnp : dt_node) : bool :=
  if dt_node_is_dynamic hdl dnp || dt_node_is_stack dnp || dt_node_is_symaddr dnp || dt_node_is_usymaddr dnp then false
  else (kind_of dnp =? CTF_K_INTEGER) && is_void_encoding dnp.

(** Container, base type, kind and referenced type of an operand that is no integer. *)
Definition pointee (dnp : dt_node) : Z * Z * Z * Z :=
  let fp := dn_ctfp (common dnp) in
  let base := base_of dnp in
  let kind := ctf_type_kind fp base in
  (fp, base, kind,
   if kind =? CTF_K_POINTER then ctf_type_resolve fp (ctf_type_reference fp base)
   else if kind =? CTF_K_ARRAY then
     match ctf_array_info fp base with Some t => ctf_type_resolve fp t | None => CTF_ERR end
   else CTF_ERR).

(** [None] is 0; otherwise the common type. *)
Definition dt_node_is_ptrcompat (lp rp : dt_node) : comp (option dt_tid) :=
  assert (has_flag lp DT_NF_COOKED);;
  assert (has_flag rp DT_NF_COOKED);;
  lp_is_int ← dt_node_is_integer lp;
  rp_is_int ← dt_node_is_integer rp;
  let is_zero dnp := bool_decide (const_value dnp = Some 0) in
  let user dnp := has_flag dnp DT_NF_USERLAND in
  mret (if dt_node_is_dynamic hdl lp || dt_node_is_dynamic hdl rp then None
        else if (lp_is_int : bool) && (rp_is_int : bool) then None
        else if lp_is_int && negb (is_zero lp) then None
        else if rp_is_int && negb (is_zero rp) then None
        else if negb lp_is_int && negb rp_is_int && xorb (user lp) (user rp) then None
        else
          let '(lfp, lbase, lkind, lref) := if lp_is_int then pointee rp else pointee lp in
          let '(rfp, rbase, rkind, rref) := if rp_is_int then pointee lp else pointee rp in
          let lp_is_void := is_void_type lfp lref in
          let rp_is_void := is_void_type rfp rref in
          if ((lkind =? CTF_K_POINTER) || (lkind =? CTF_K_ARRAY)) && ((rkind =? CTF_K_POINTER) || (rkind =? CTF_K_ARRAY)) &&
             (lp_is_void || rp_is_void || ctf_type_compat lfp lref rfp rref)
          then Some (if rp_is_void then mk_tid lfp lbase else mk_tid rfp rbase) else None).

Definition types_compat (lp rp : dt_node) : bool :=
  ctf_type_compat (dn_ctfp (common lp)) (dn_type (common lp)) (dn_ctfp (common rp)) (dn_type (common rp)).

Definition dt_node_is_argcompat (lp rp : dt_node) : comp bool :=
  assert (has_flag lp DT_NF_COOKED);;
  assert (has_flag rp DT_NF_COOKED);;
  li ← dt_node_is_integer lp;
  ri ← dt_node_is_integer rp;
  ls ← dt_node_is_strcompat lp;
  rs ← dt_node_is_strcompat rp;
  if ((li : bool) && (ri : bool)) || ((ls : bool) && (rs : bool)) || (dt_node_is_stack lp && dt_node_is_stack rp) ||
     (dt_node_is_symaddr lp && dt_node_is_symaddr rp) || (dt_node_is_usymaddr lp && dt_node_is_usymaddr rp)
  then mret true
  else if (kind_of lp =? CTF_K_FUNCTION) || (kind_of lp =? CTF_K_STRUCT) || (kind_of lp =? CTF_K_UNION)
  then mret (types_compat lp rp)
  else r ← dt_node_is_ptrcompat lp rp; mret (bool_decide (is_Some r)).

(** A pointer to a type, or to its base; otherwise one is made in D's container.  [None] is -1. *)
Definition dt_type_pointer (ctfp type : Z) : option dt_tid :=
  match ctf_type_pointer ctfp type with
  | Some ptr => Some (mk_tid ctfp ptr)
  | None =>
      match ctf_type_pointer ctfp (ctf_type_resolve ctfp type) with
      | Some ptr => Some (mk_tid ctfp ptr)
      | None =>
          let dm := dt_ddefs hdc in
          t ← (if (ctfp =? dm) || (ctfp =? ctf_parent_file dm) then Some type else ctf_add_type dm ctfp type);
          ptr ← ctf_add_pointer dm t;
          Some (mk_tid dm ptr)
      end
  end.

End Questions.

(** ** Identifiers *)

Section Cooking.
Context `{Ctf, !CtfCook} (hdl : hdl_types) (hdc : cook_types) (eattr : bool) (pcb_amin : dtrace_attribute).
Context (_dtrace_defattr _dtrace_symattr : dtrace_attribute).
(** The allocator, the line and the generation for new identifiers; the search for a type by its name. *)
Context (al : idheap → option Z) (yylineno dt_gen : Z).
Context (dt_type_lookup : list Z → option dt_tid).
(** The names of types that [di_iarg] of built-in variables points to. *)
Context (type_names : Z → list Z).

Definition lookup_in (t : table) (name : list Z) : ck Z := λ s,
  r ← dt_idhash_lookup al yylineno (ck_ids s) (ck_php s) (get_tab t s) name;
  Some (match r with
        | Done (a, h, php, dhp) => (set_tab t dhp (set_ids h php s), inl a)
        | Longjmp c => (s, inr (mk_error c D_UNKNOWN))
        end).

Definition insert_in (t : table) (name : list Z) (kind flags id : Z) : ck Z := λ s,
  r ← dt_idhash_insert al yylineno (ck_ids s) (ck_php s) (get_tab t s) (Some name) kind flags id _dtrace_defattr 0
        dt_idops_thaw 0 dt_gen;
  Some (match r with
        | Done (a, h, php, dhp) => (set_tab t dhp (set_ids h php s), inl a)
        | Longjmp c => (s, inr (mk_error c D_UNKNOWN))
        end).

Definition nextid_of (t : table) : ck (option Z) := λ s,
  let '(id, dhp) := dt_idhash_nextid (get_tab t s) in Some (set_tab t dhp s, inl id).

Definition set_storage_of (idp alignment size : Z) : ck unit := λ s,
  i ← ck_ids s !! idp;
  let t := di_hash i in
  '(h, dhp, n) ← Ident.dt_ident_set_storage (ck_ids s) (get_tab t s) (dt_maxtlslen s) idp alignment size;
  Some (set_maxtlslen n (set_tab t dhp (set_ids h (ck_php s) s)), inl tt).

Definition is_unref (idp : Z) : ck bool := i ← get_id idp; mret (dt_ident_unref i dt_gen).

(** The operation [di_cook] for a node without arguments. *)
Definition di_cook (c : dt_common) (idp : Z) : ck dt_common :=
  i ← get_id idp;
  '(fp, type) ← get_type idp;
  if di_ops i =? dt_idops_thaw then
    mret (if negb (fp =? 0) && negb (type =? CTF_ERR) then type_assign hdl c fp type else c)
  else if di_ops i =? dt_idops_type then
    if type =? CTF_ERR then
      match dt_type_lookup (type_names (di_iarg i)) with
      | None => xyerror D_UNKNOWN
      | Some t => put_type idp t;; mret (type_assign hdl c (tid_ctfp t) (tid_type t))
      end
    else mret (type_assign hdl c fp type)
  else outside.

Definition dt_ident_cook (c : dt_common) (idp : Z) : ck (dt_common * dtrace_attribute) :=
  c ← di_cook c idp;
  i ← get_id idp;
  mret (if has (di_flags i) DT_IDFLG_USER then or_flag c DT_NF_USERLAND else c, dt_attr_min _dtrace_defattr (di_attr i)).

(** The common part of a reference to [idp]: a variable that may be assigned to
    if [writable]. *)
Definition cook_ref (c : dt_common) (idp : Z) (writable : bool) : ck dt_node :=
  i ← get_id idp;
  '(c, attr) ← (if (di_kind i =? DT_IDENT_ARRAY) || (di_kind i =? DT_IDENT_AGG)
                then mret (type_assign hdl c (tid_ctfp (dt_type_dyn hdl)) (tid_type (dt_type_dyn hdl)), di_attr i)
                else dt_ident_cook c idp);
  let c := or_flag c DT_NF_LVALUE in
  c ← ask (attr_assign eattr pcb_amin (if writable then or_flag c DT_NF_WRITABLE else c) attr);
  mret (Var c idp).

(** The name of a symbol of a module has a grave accent, that of an aggregation starts with an at sign. *)
Definition plain_name (name : list Z) : bool := negb (bool_decide (96 ∈ name)) && negb (bool_decide (head name = Some 64)).

Definition dt_xcook_ident (c : dt_common) (name : list Z) (t : table) (idkind : Z) (create : bool) : ck dt_node :=
  if negb (plain_name name) then outside
  else
    idp ← lookup_in t name;
    if negb (idp =? 0) then
      i ← get_id idp;
      if negb (di_kind i =? idkind) && bool_decide (t = Globals) then xyerror D_IDENT_BADREF
      else cook_ref c idp (has (di_flags i) DT_IDFLG_WRITE)
    else if create then
      id ← nextid_of t;
      match id with
      | None => xyerror D_ID_OFLOW
      | Some id =>
          let flags := match t with
                       | Locals => Z.lor DT_IDFLG_WRITE DT_IDFLG_LOCAL
                       | Tls => Z.lor DT_IDFLG_WRITE DT_IDFLG_TLS
                       | Globals => DT_IDFLG_WRITE
                       end in
          idp ← insert_in t name idkind flags id;
          if idp =? 0 then longjmp EDT_NOMEM else cook_ref c idp true
      end
    else xyerror D_IDENT_UNDEF.

Definition dt_cook_var (c : dt_common) (idp idflags : Z) : ck dt_node :=
  u ← is_unref idp;
  if has idflags DT_IDFLG_REF && u then xyerror D_VAR_UNDEF
  else
    '(c, attr) ← dt_ident_cook c idp;
    c ← ask (attr_assign eattr pcb_amin c attr);
    mret (Var c idp).

(** What [dt_node_cook] does with a node that has been cooked. *)
Definition cooked (idflags : Z) (dnp : dt_node) : ck dt_node :=
  let dnp := set_common (or_flag (common dnp) DT_NF_COOKED) dnp in
  match dnp with
  | Var _ idp => add_flags idp idflags;; mret dnp
  | _ => mret dnp
  end.

(** [dt_node_cook] of a variable. *)
Definition cook_variable (idflags : Z) (dnp : dt_node) : cookn :=
  finish dnp
    (match dnp with
     | Var c idp => v ← dt_cook_var c idp idflags; cooked idflags v
     | _ => outside
     end).

(** A name is looked up, and made a variable if [create]; then the variable is cooked. *)
Definition cook_name (c : dt_common) (name : list Z) (t : table) (create : bool) (idflags : Z) : cookn :=
  child (finish (Id c name) (dt_xcook_ident c name t DT_IDENT_SCALAR create)) id (cook_variable idflags).

(** ** Operators *)

(** [dt_node_type_propagate] on the common part of the destination. *)
Definition propagate (src : dt_node) (c : dt_common) : comp dt_common :=
  assert (has_flag src DT_NF_COOKED);;
  mret (mk_common (dn_ctfp (common src)) (dn_type (common src)) (Z.land (dn_flags (common src)) (Z.lnot DT_NF_LVALUE)) (dn_attr c)).

Definition assign_type (c : dt_common) (t : dt_tid) : dt_common := type_assign hdl c (tid_ctfp t) (tid_type t).

(** Go on if [m], and else report [tag]. *)
Definition require (m : comp bool) (tag : err_tag) : ck unit := b ← ask m; if (b : bool) then mret tt else xyerror tag.

Definition both (f : dt_node → comp bool) (lp rp : dt_node) : comp bool :=
  l ← f lp; r ← f rp; mret ((l : bool) && (r : bool)).

(** Attributes of a node: the minimum of those of its operands. *)
Definition assign_attr (c : dt_common) (attr : dtrace_attribute) : ck dt_common := ask (attr_assign eattr pcb_amin c attr).
Definition min_attr (lp rp : dt_node) : dtrace_attribute := dt_attr_min (dn_attr (common lp)) (dn_attr (common rp)).

(** [dt_node_resolve] of nodes that are no variables of translators. *)
Definition not_translated (dnp : dt_node) : ck unit :=
  match dnp with
  | Var _ idp =>
      i ← get_id idp;
      if has (di_flags i) DT_IDFLG_INLINE || (di_kind i =? DT_IDENT_XLSOU) || (di_kind i =? DT_IDENT_XLPTR) then outside else mret tt
  | _ => if dt_node_is_dynamic hdl dnp then outside else mret tt
  end.

(** *** Unary operators *)

(** A variable that was just created gets the type int64_t. *)
Definition give_int64 (cp : dt_node) : ck dt_node :=
  match cp with
  | Var c idp =>
      u ← is_unref idp;
      if (u : bool) then
        match dt_type_lookup [105; 110; 116; 54; 52; 95; 116] with
        | None => xyerror D_TYPE_ERR
        | Some t =>
            let size := u32 (ctf_type_size (tid_ctfp t) (tid_type t)) in
            put_type idp t;; set_storage_of idp size size;; mret (Var (assign_type c t) idp)
        end
      else mret cp
  | _ => mret cp
  end.

Definition is_writable_sum (cp : dt_node) : bool :=
  match cp with Op2 _ DT_TOK_ADD lp _ => has_flag lp DT_NF_WRITABLE | _ => false end.

Definition cook_deref (c : dt_common) (cp : dt_node) : ck dt_common :=
  not_translated cp;;
  let fp := dn_ctfp (common cp) in
  type ← (if kind_of cp =? CTF_K_ARRAY then
            match ctf_array_info fp (base_of cp) with Some t => mret t | None => longjmp EDT_CTF end
          else if kind_of cp =? CTF_K_POINTER then mret (ctf_type_reference fp (base_of cp))
          else xyerror D_DEREF_NONPTR);
  let c := type_assign hdl c fp type in
  let base := ctf_type_resolve fp type in
  let kind := ctf_type_kind fp base in
  if (kind =? CTF_K_INTEGER) && is_void_type fp base then xyerror D_DEREF_VOID
  else if kind =? CTF_K_FUNCTION then xyerror D_DEREF_FUNC
  else
    let c := if negb (kind =? CTF_K_ARRAY) || dt_node_is_string hdl (TypeName c) then or_flag c DT_NF_LVALUE else c in
    let c := if has_flag cp DT_NF_WRITABLE || is_writable_sum cp then or_flag c DT_NF_WRITABLE else c in
    mret (if has_flag cp DT_NF_USERLAND && ((kind =? CTF_K_POINTER) || has (dn_flags c) DT_NF_REF)
          then or_flag c DT_NF_USERLAND else c).

Definition cook_addrof (c : dt_common) (cp : dt_node) : ck dt_common :=
  match cp with
  | Var _ _ => xyerror D_ADDROF_VAR
  | _ =>
      if dt_node_is_dynamic hdl cp then xyerror D_ADDROF_VAR
      else if negb (has_flag cp DT_NF_LVALUE) then xyerror D_ADDROF_LVAL
      else if has_flag cp DT_NF_BITFIELD then xyerror D_ADDROF_BITFIELD
      else match dt_type_pointer hdc (dn_ctfp (common cp)) (dn_type (common cp)) with
           | None => xyerror D_TYPE_ERR
           | Some t =>
               let c := assign_type c t in
               mret (if has_flag cp DT_NF_USERLAND then or_flag c DT_NF_USERLAND else c)
           end
  end.

Definition is_incdec (op : tok) : bool :=
  match op with DT_TOK_PREINC | DT_TOK_POSTINC | DT_TOK_PREDEC | DT_TOK_POSTDEC => true | _ => false end.

(** The type of a unary operator. *)
Definition cook_op1_type (c : dt_common) (op : tok) (cp : dt_node) : ck dt_common :=
  match op with
  | DT_TOK_DEREF => cook_deref c cp
  | DT_TOK_IPOS | DT_TOK_INEG => require (dt_node_is_arith cp) D_OP_ARITH;; ask (propagate cp c)
  | DT_TOK_BNEG => require (dt_node_is_integer cp) D_OP_INT;; ask (propagate cp c)
  | DT_TOK_LNEG => require (dt_node_is_scalar cp) D_OP_SCALAR;; mret (assign_type c (dt_type_int hdl))
  | DT_TOK_ADDROF => cook_addrof c cp
  | DT_TOK_SIZEOF =>
      if has_flag cp DT_NF_BITFIELD then xyerror D_SIZEOF_BITFIELD
      else size ← ask (dt_node_type_size hdl cp);
           if size =? 0 then xyerror D_SIZEOF_TYPE else mret (assign_type c (dt_size_t hdc))
  | DT_TOK_STRINGOF =>
      a ← ask (dt_node_is_scalar cp); p ← ask (dt_node_is_pointer hdl cp); t ← ask (dt_node_is_strcompat cp);
      if (a : bool) || (p : bool) || (t : bool) then mret (assign_type c (dt_type_str hdl)) else xyerror D_STRINGOF_TYPE
  | DT_TOK_PREINC | DT_TOK_POSTINC | DT_TOK_PREDEC | DT_TOK_POSTDEC =>
      require (dt_node_is_scalar cp) D_OP_SCALAR;;
      v ← ask (dt_node_is_vfptr cp);
      if (v : bool) then xyerror D_OP_VFPTR
      else if negb (has_flag cp DT_NF_LVALUE) then xyerror D_OP_LVAL
      else if negb (has_flag cp DT_NF_WRITABLE) then xyerror D_OP_WRITE
      else ask (propagate cp c)
  | _ => xyerror D_UNKNOWN
  end.

(** [cookc] cooks the operand. *)
Definition dt_cook_op1 (c : dt_common) (op : tok) (cp : dt_node) (cookc : Z → cookn) : cookn :=
  let idflags := if is_incdec op then Z.lor DT_IDFLG_REF DT_IDFLG_MOD else DT_IDFLG_REF in
  child (match cp with
         | Id ci name => if is_incdec op then cook_name ci name Globals true 0 else cookc 0
         | _ => cookc 0
         end) (Op1 c op)
    (λ cp, finish (Op1 c op cp)
       (cp ← give_int64 cp;
        (match cp with Var _ idp => add_flags idp idflags | _ => mret tt end);;
        c ← cook_op1_type c op cp;
        c ← assign_attr c (dn_attr (common cp));
        mret (Op1 c op cp))).

(** *** Binary operators *)

Definition is_compare (op : tok) : bool :=
  match op with DT_TOK_LT | DT_TOK_LE | DT_TOK_GT | DT_TOK_GE | DT_TOK_EQU | DT_TOK_NEQ => true | _ => false end.

(** [dt_node_promote] on the common part. *)
Definition promote (lp rp : dt_node) (c : dt_common) : ck dt_common :=
  t ← ask (dt_type_promote hdl lp rp);
  assign_attr (assign_type c t) (min_attr lp rp).

Definition cook_compare_type (c : dt_common) (lp rp : dt_node) : ck dt_common :=
  i ← ask (both dt_node_is_integer lp rp);
  t ← ask (both dt_node_is_strcompat lp rp);
  p ← ask (dt_node_is_ptrcompat hdl lp rp);
  if types_compat lp rp || (i : bool) ||
     ((t : bool) && (dt_node_is_string hdl lp || dt_node_is_string hdl rp)) || bool_decide (is_Some p)
  then assign_attr (assign_type c (dt_type_int hdl)) (min_attr lp rp)
  else xyerror D_OP_INCOMPAT.

(** A string, or a pointer to something of known size. *)
Definition is_ptr (dnp : dt_node) : comp bool :=
  p ← dt_node_is_pointer hdl dnp; v ← dt_node_is_vfptr dnp;
  mret (dt_node_is_string hdl dnp || ((p : bool) && negb v)).

(** The constant index of an array with [type] is not within its bounds. *)
Definition out_of_bounds (lp rp : dt_node) (type : Z) : ck bool :=
  match lp with
  | Var _ idp => i ← get_id idp; mret (negb (di_kind i =? DT_IDENT_ARRAY))
  | _ => mret true
  end ≫= λ checked : bool,
  mret ((kind_of lp =? CTF_K_ARRAY) && checked &&
        match const_value rp, ctf_array_nelems (dn_ctfp (common lp)) type with
        | Some v, Some n => n <=? v
        | _, _ => false
        end).

Definition cook_add_type (c : dt_common) (op : tok) (lp rp : dt_node) : ck dt_common :=
  lp_is_ptr ← ask (is_ptr lp);
  lp_is_int ← ask (dt_node_is_integer lp);
  rp_is_ptr ← ask (is_ptr rp);
  rp_is_int ← ask (dt_node_is_integer rp);
  p ← ask (dt_node_is_ptrcompat hdl lp rp);
  let own dnp : ck (dt_tid * bool) :=
    mret (mk_tid (dn_ctfp (common dnp)) (dn_type (common dnp)), has_flag dnp DT_NF_USERLAND) in
  '(t, uref) ← (if (lp_is_int : bool) && (rp_is_int : bool) then t ← ask (dt_type_promote hdl lp rp); mret (t, false)
                else if (lp_is_ptr : bool) && rp_is_int then own lp
                else if lp_is_int && (rp_is_ptr : bool) && bool_decide (op = DT_TOK_ADD) then own rp
                else if lp_is_ptr && rp_is_ptr && bool_decide (op = DT_TOK_SUB) && bool_decide (is_Some p)
                then mret (dt_ptrdiff_t hdc, false)
                else xyerror D_OP_INCOMPAT) : ck (dt_tid * bool);
  b ← out_of_bounds lp rp (tid_type t);
  if (b : bool) then xyerror D_ARR_BOUNDS
  else
    c ← assign_attr (assign_type c t) (min_attr lp rp);
    mret (if uref : bool then or_flag c DT_NF_USERLAND else c).

(** The end of all assignments. *)
Definition asgn_common (c : dt_common) (lp rp : dt_node) : ck dt_common :=
  if negb (has_flag lp DT_NF_LVALUE) then xyerror D_OP_LVAL
  else if negb (has_flag lp DT_NF_WRITABLE) then xyerror D_OP_WRITE
  else c ← ask (propagate lp c); assign_attr c (min_attr lp rp).

Definition cook_cast_type (c : dt_common) (lp rp : dt_node) : ck dt_common :=
  ls ← ask (dt_node_is_scalar lp);
  rs ← ask (dt_node_is_scalar rp);
  rpt ← ask (dt_node_is_pointer hdl rp);
  rst ← ask (dt_node_is_strcompat rp);
  if types_compat lp rp || ((ls : bool) && ((rs : bool) || (kind_of rp =? CTF_K_FUNCTION))) || dt_node_is_void hdl hdc lp ||
     ((kind_of lp =? CTF_K_POINTER) && (rpt : bool)) || (dt_node_is_string hdl lp && (rs || rpt || (rst : bool)))
  then c ← ask (propagate lp c); assign_attr c (min_attr lp rp)
  else xyerror D_CAST_INVAL.

(** The type of an operator both of whose operands have been cooked. *)
Definition cook_op2_type (c : dt_common) (op : tok) (lp rp : dt_node) : ck dt_common :=
  match op with
  | DT_TOK_BAND | DT_TOK_XOR | DT_TOK_BOR | DT_TOK_MOD => require (both dt_node_is_integer lp rp) D_OP_INT;; promote lp rp c
  | DT_TOK_LSH | DT_TOK_RSH =>
      require (both dt_node_is_integer lp rp) D_OP_INT;; c ← ask (propagate lp c); assign_attr c (min_attr lp rp)
  | DT_TOK_MUL | DT_TOK_DIV => require (both dt_node_is_arith lp rp) D_OP_ARITH;; promote lp rp c
  | DT_TOK_LAND | DT_TOK_LXOR | DT_TOK_LOR =>
      require (both dt_node_is_scalar lp rp) D_OP_SCALAR;; assign_attr (assign_type c (dt_type_int hdl)) (min_attr lp rp)
  | DT_TOK_LT | DT_TOK_LE | DT_TOK_GT | DT_TOK_GE | DT_TOK_EQU | DT_TOK_NEQ => cook_compare_type c lp rp
  | DT_TOK_ADD | DT_TOK_SUB => cook_add_type c op lp rp
  | DT_TOK_OR_EQ | DT_TOK_XOR_EQ | DT_TOK_AND_EQ | DT_TOK_LSH_EQ | DT_TOK_RSH_EQ | DT_TOK_MOD_EQ =>
      require (both dt_node_is_integer lp rp) D_OP_INT;; asgn_common c lp rp
  | DT_TOK_MUL_EQ | DT_TOK_DIV_EQ => require (both dt_node_is_arith lp rp) D_OP_ARITH;; asgn_common c lp rp
  | DT_TOK_ADD_EQ | DT_TOK_SUB_EQ =>
      if dt_node_is_string hdl lp || dt_node_is_string hdl rp then xyerror D_OP_INCOMPAT
      else
        i ← ask (both dt_node_is_integer lp rp);
        if (i : bool) then asgn_common c lp rp
        else
          pl ← ask (dt_node_is_pointer hdl lp); vl ← ask (dt_node_is_vfptr lp);
          if negb pl || (vl : bool) then xyerror D_OP_VFPTR
          else
            ri ← ask (dt_node_is_integer rp); p ← ask (dt_node_is_ptrcompat hdl lp rp);
            if negb ri && negb (bool_decide (is_Some p)) then xyerror D_OP_INCOMPAT else asgn_common c lp rp
  | DT_TOK_COMMA =>
      if dt_node_is_dynamic hdl lp || dt_node_is_dynamic hdl rp then xyerror D_OP_DYN
      else c ← ask (propagate rp c); assign_attr c (min_attr lp rp)
  | _ => xyerror D_UNKNOWN
  end.

(** An enumerator on the right of a comparison with an enumeration becomes a
    constant; one that is a global variable too is ambiguous. *)
Definition cook_enum_tag (lp rp : dt_node) : ck dt_node :=
  match rp with
  | Id c name =>
      if (kind_of lp =? CTF_K_ENUM) && negb (bool_decide (96 ∈ name)) then
        match ctf_enum_value (dn_ctfp (common lp)) (dn_type (common lp)) name with
        | Some val =>
            idp ← lookup_in Globals name;
            if negb (idp =? 0) then xyerror D_IDENT_AMBIG
            else
              c ← assign_attr (type_assign hdl (or_flag c DT_NF_COOKED) (dn_ctfp (common lp)) (dn_type (common lp)))
                    _dtrace_symattr;
              mret (Const c (u64 val))
        | None => mret rp
        end
      else mret rp
  | _ => mret rp
  end.

(** The new variable [lp] gets the type of the value [rp]. *)
Definition give_type (lp rp : dt_node) : ck dt_node :=
  match lp with
  | Var c idp =>
      u ← is_unref idp;
      if (u : bool) then
        let fp := dn_ctfp (common rp) in
        let type := dn_type (common rp) in
        let c := type_assign hdl c fp type in
        let size := u32 (ctf_type_size fp type) in
        sc ← ask (dt_node_is_scalar (Var c idp));
        let alignment := if sc : bool then size else if dt_node_is_string hdl (Var c idp) then 1 else 8 in
        put_type idp (mk_tid fp type);;
        set_storage_of idp alignment size;;
        if has_flag rp DT_NF_USERLAND
        then add_flags idp DT_IDFLG_USER;; mret (Var (or_flag c DT_NF_USERLAND) idp)
        else mret (Var c idp)
      else mret lp
  | _ => mret lp
  end.

(** The assignment of [rp] to [lp].  A new variable that has got its type from [rp]
    already is left without one in the node [lp]: libctf is asked about the type of
    a container that is NULL then. *)
Definition cook_asgn (c : dt_common) (lp rp : dt_node) : ck dt_node :=
  not_translated rp;;
  lp ← give_type lp rp;
  (match lp with Var _ idp => add_flags idp DT_IDFLG_MOD | _ => mret tt end);;
  if dn_ctfp (common lp) =? 0 then outside
  else if negb (dt_node_is_string hdl lp) && ((kind_of lp =? CTF_K_ARRAY) || (kind_of lp =? CTF_K_FUNCTION)) then xyerror D_OP_ARRFUN
  else
    require (dt_node_is_argcompat hdl hdc lp rp) D_OP_INCOMPAT;;
    c ← asgn_common c lp rp;
    mret (Op2 c DT_TOK_ASGN lp rp).

Definition is_asgn (op : tok) : bool :=
  match op with
  | DT_TOK_ASGN | DT_TOK_ADD_EQ | DT_TOK_SUB_EQ | DT_TOK_MUL_EQ | DT_TOK_DIV_EQ | DT_TOK_MOD_EQ | DT_TOK_AND_EQ
  | DT_TOK_XOR_EQ | DT_TOK_OR_EQ | DT_TOK_LSH_EQ | DT_TOK_RSH_EQ => true
  | _ => false
  end.

(** The variable [rp] of [self] or [this]. *)
Definition cook_scoped (c : dt_common) (lp rp : dt_node) (t : table) (idflags : Z) : cookn :=
  child (match rp with
         | Var _ _ => finish rp (mret rp)
         | Id ci name => finish rp (dt_xcook_ident ci name t DT_IDENT_SCALAR true)
         | _ => λ _, None
         end) (Op2 c DT_TOK_PTR lp)
    (λ rp, if idflags =? 0 then finish rp (mret rp)
           else child (cook_variable idflags rp) (Op2 c DT_TOK_PTR lp) (λ rp, finish rp (mret rp))).

Definition is_binary (op : tok) : bool :=
  is_asgn op || is_compare op ||
  match op with
  | DT_TOK_BAND | DT_TOK_XOR | DT_TOK_BOR | DT_TOK_MOD | DT_TOK_LSH | DT_TOK_RSH | DT_TOK_MUL | DT_TOK_DIV
  | DT_TOK_LAND | DT_TOK_LXOR | DT_TOK_LOR | DT_TOK_ADD | DT_TOK_SUB | DT_TOK_COMMA => true
  | _ => false
  end.

Definition self : list Z := [115; 101; 108; 102].
Definition this : list Z := [116; 104; 105; 115].

(** [cookl] and [cookr] cook the operands [lp] and [rp]. *)
Definition dt_cook_op2 (c : dt_common) (op : tok) (lp rp : dt_node) (cookl cookr : Z → cookn) (idflags : Z) : cookn :=
  let left (flags : Z) : cookn :=
    match lp with
    | Id ci name => if is_asgn op then cook_name ci name Globals true flags else cookl flags
    | _ => cookl flags
    end in
  let typed lp rp : cookn := finish (Op2 c op lp rp) (c ← cook_op2_type c op lp rp; mret (Op2 c op lp rp)) in
  match op with
  | DT_TOK_PTR =>
      match lp with
      | Id _ name =>
          if bool_decide (name = self) then cook_scoped c lp rp Tls idflags
          else if bool_decide (name = this) then cook_scoped c lp rp Locals idflags
          else λ _, None
      | _ => λ _, None
      end
  | DT_TOK_LPAR =>
      match lp with
      | TypeName _ =>
          child (cookr DT_IDFLG_REF) (Op2 c op lp)
            (λ rp, finish (Op2 c op lp rp) (c ← cook_cast_type c lp rp; mret (Op2 c op lp rp)))
      | _ => λ _, None
      end
  | DT_TOK_ASGN =>
      child (left 0) (λ lp, Op2 c op lp rp)
        (λ lp, child (cookr DT_IDFLG_REF) (Op2 c op lp) (λ rp, finish (Op2 c op lp rp) (cook_asgn c lp rp)))
  | _ =>
      let flags := if is_asgn op then Z.lor DT_IDFLG_REF DT_IDFLG_MOD else DT_IDFLG_REF in
      if negb (is_binary op) then finish (Op2 c op lp rp) (xyerror D_UNKNOWN)
      else child (left flags) (λ lp, Op2 c op lp rp)
        (λ lp,
           if is_compare op then
             child (finish rp (cook_enum_tag lp rp)) (Op2 c op lp)
               (λ rp', match rp' with
                       | Const _ _ => child (finish rp' (cooked flags rp')) (Op2 c op lp) (typed lp)
                       | _ => child (cookr flags) (Op2 c op lp) (typed lp)
                       end)
           else child (cookr flags) (Op2 c op lp) (typed lp))
  end.

(** *** The conditional operator *)

Definition cook_op3_type (c : dt_common) (expr lp rp : dt_node) : ck dt_common :=
  require (dt_node_is_scalar expr) D_OP_SCALAR;;
  if dt_node_is_dynamic hdl lp || dt_node_is_dynamic hdl rp then xyerror D_OP_DYN
  else
    i ← ask (both dt_node_is_integer lp rp);
    st ← ask (both dt_node_is_strcompat lp rp);
    p ← ask (dt_node_is_ptrcompat hdl lp rp);
    t ← (if types_compat lp rp then mret (mk_tid (dn_ctfp (common lp)) (dn_type (common lp)))
         else if i : bool then ask (dt_type_promote hdl lp rp)
         else if (st : bool) && (dt_node_is_string hdl lp || dt_node_is_string hdl rp) then mret (dt_type_str hdl)
         else match p with Some t => mret t | None => xyerror D_OP_INCOMPAT end : ck dt_tid);
    assign_attr (assign_type c t) (dt_attr_min (dn_attr (common expr)) (min_attr lp rp)).

Definition dt_cook_op3 (c : dt_common) (cooke cookl cookr : Z → cookn) (expr lp rp : dt_node) : cookn :=
  child (cooke DT_IDFLG_REF) (λ expr, Op3 c expr lp rp)
    (λ expr, child (cookl DT_IDFLG_REF) (λ lp, Op3 c expr lp rp)
       (λ lp, child (cookr DT_IDFLG_REF) (λ rp, Op3 c expr lp rp)
          (λ rp, finish (Op3 c expr lp rp) (c ← cook_op3_type c expr lp rp; mret (Op3 c expr lp rp))))).

(** ** Trees *)

Fixpoint dt_node_cook (dnp : dt_node) (idflags : Z) : cookn :=
  child (match dnp with
         | Const _ _ | Str _ _ | TypeName _ => finish dnp (mret dnp)
         | Id c name => cook_name c name Globals false idflags
         | Var c idp => finish dnp (dt_cook_var c idp idflags)
         | Op1 c op cp => dt_cook_op1 c op cp (dt_node_cook cp)
         | Op2 c op lp rp => dt_cook_op2 c op lp rp (dt_node_cook lp) (dt_node_cook rp) idflags
         | Op3 c expr lp rp => dt_cook_op3 c (dt_node_cook expr) (dt_node_cook lp) (dt_node_cook rp) expr lp rp
         end) id (λ n, finish n (cooked idflags n)).

(** ** Clauses *)

(** Statements ([dt_cook_statement]), and the least attributes of them and [attr]. *)
Fixpoint dt_node_list_cook (acts : list dt_node) (idflags : Z) (attr : dtrace_attribute) (s : cook_state) :
    option (cook_state * list dt_node * (dtrace_attribute + error)) :=
  match acts with
  | [] => Some (s, [], inl attr)
  | dnp :: acts =>
      '(s, n, e) ← dt_node_cook dnp idflags s;
      match e with
      | Some e => Some (s, n :: acts, inr e)
      | None =>
          '(s, r) ← assign_attr (common n) (dn_attr (common n)) s;
          match r with
          | inr e => Some (s, n :: acts, inr e)
          | inl _ =>
              '(s, l, r) ← dt_node_list_cook acts idflags (dt_attr_min attr (dn_attr (common n))) s;
              Some (s, n :: l, r)
          end
      end
  end.

Definition no_attr : dt_common := mk_common 0 CTF_ERR 0 (mk_attr 0 0 0).

(** The statements of a clause; the clause gets their attributes. *)
Definition cook_acts (acts : list dt_node) (idflags : Z) (s : cook_state) :
    option (cook_state * list dt_node * (dtrace_attribute + error)) :=
  '(s, acts, r) ← dt_node_list_cook acts idflags _dtrace_defattr s;
  match r with
  | inr e => Some (s, acts, inr e)
  | inl attr =>
      '(s, r) ← assign_attr no_attr attr s;
      Some (s, acts, match r with inl _ => inl attr | inr e => inr e end)
  end.

(** The predicate of a clause that has the attributes [attr]. *)
Definition cook_pred (pred : dt_node) (idflags : Z) (attr : dtrace_attribute) : cookn :=
  child (dt_node_cook pred idflags) id
    (λ p, finish p (assign_attr no_attr (dt_attr_min attr (dn_attr (common p)));;
                    require (dt_node_is_scalar p) D_PRED_SCALAR;; mret p)).

Definition try_again (e : error) : bool :=
  (e_code e =? EDT_COMPILER) && (bool_decide (e_tag e = D_IDENT_UNDEF) || bool_decide (e_tag e = D_VAR_UNDEF)).

(** First the statements, then the predicate; if a name in the statements is not
    known, the predicate, then the statements. *)
Definition dt_cook_clause (dtp_attr : dtrace_attribute) (pred : option dt_node) (acts : list dt_node) (idflags : Z) (s : cook_state) :
    option (cook_state * option dt_node * list dt_node * option error) :=
  '(s, r) ← assign_attr no_attr dtp_attr s;
  match r with
  | inr e => Some (s, pred, acts, Some e)
  | inl _ =>
      '(s, acts, r) ← cook_acts acts idflags s;
      match pred, r with
      | None, inl _ => Some (s, None, acts, None)
      | None, inr e => Some (s, None, acts, Some e)
      | Some p, inl attr =>
          '(s, p, e) ← cook_pred p idflags attr s;
          Some (s, Some p, acts, e)
      | Some p, inr e =>
          if try_again e then
            '(s, p, e) ← cook_pred p idflags dtp_attr s;
            match e with
            | Some e => Some (s, Some p, acts, Some e)
            | None =>
                '(s, acts, r) ← cook_acts acts idflags s;
                Some (s, Some p, acts, match r with inl _ => None | inr e => Some e end)
            end
          else Some (s, Some p, acts, Some e)
      end
  end.

End Cooking.

End Cook.
