(* ===== verification/CookInv.v ===== *)
(** * The variables while a tree is cooked

    The tables of variables hold identifiers of which some have just been created
    and others have a type and storage.  [inv] says what holds of them at any
    time, [grows] how they change, and [wp] that a computation has a result, a
    value or an error, of which something holds. *)
From S2P Require Import Prelude CLib Ident Node Cg Cook.
#[local] Open Scope Z_scope.
Import Ident Node Cg Cook.

Module CookInv.

(** ** Weakest preconditions *)

Definition wp {A} (m : ck A) (Q : cook_state → A → Prop) (E : cook_state → error → Prop) (s : cook_state) : Prop :=
  match m s with Some (s', inl a) => Q s' a | Some (s', inr e) => E s' e | None => False end.

Definition wpn (m : cookn) (Q : cook_state → dt_node → Prop) (E : cook_state → dt_node → error → Prop) (s : cook_state) : Prop :=
  match m s with Some (s', n, None) => Q s' n | Some (s', n, Some e) => E s' n e | None => False end.

Lemma cwp_ret {A} (a : A) (Q : cook_state → A → Prop) E s : Q s a → wp (mret a) Q E s.
Proof. done. Qed.

Lemma cwp_bind {A B} (m : ck A) (f : A → ck B) Q E s : wp m (λ s' a, wp (f a) Q E s') E s → wp (m ≫= f) Q E s.
Proof. unfold wp, mbind, ck_bind. by destruct (m s) as [[s' [a|e]]|]. Qed.

Lemma wp_impl {A} (m : ck A) Q Q' (E E' : cook_state → error → Prop) s : wp m Q E s →
  (∀ s' a, Q s' a → Q' s' a) → (∀ s' e, E s' e → E' s' e) → wp m Q' E' s.
Proof. unfold wp. destruct (m s) as [[s' [a|e]]|]; eauto. Qed.

Lemma wp_error {A} tag (Q : cook_state → A → Prop) E s : E s (mk_error EDT_COMPILER tag) → wp (xyerror tag) Q E s.
Proof. done. Qed.

Lemma wp_longjmp {A} c (Q : cook_state → A → Prop) E s : E s (mk_error c D_UNKNOWN) → wp (longjmp c) Q E s.
Proof. done. Qed.

(** The computations of [Node] do not change the state. *)
Lemma wp_ask {A} (m : comp A) (Q : cook_state → A → Prop) (E : cook_state → error → Prop) s :
  (∃ x, m = Some x) → (∀ a, m = mret a → Q s a) → (∀ e, E s e) → wp (ask m) Q E s.
Proof. intros [[a|c] ->] HQ HE; unfold wp, ask; [by apply HQ|apply HE]. Qed.

Lemma wp_require (m : comp bool) tag (Q : cook_state → unit → Prop) (E : cook_state → error → Prop) s :
  (∃ b, m = mret b) → (m = mret true → Q s tt) → (∀ e, E s e) → wp (require m tag) Q E s.
Proof. intros [[] ->] HQ HE; unfold require; apply cwp_bind; [by apply HQ|apply HE]. Qed.

Lemma wpn_finish dnp (m : ck dt_node) Q E s : wp m Q (λ s', E s' dnp) s → wpn (finish dnp m) Q E s.
Proof. unfold wp, wpn, finish. by destruct (m s) as [[s' [n|e]]|]. Qed.

Lemma wpn_child (m : cookn) rebuild (k : dt_node → cookn) Q E s :
  wpn m (λ s' n, wpn (k n) Q E s') (λ s' n, E s' (rebuild n)) s → wpn (child m rebuild k) Q E s.
Proof. unfold wpn, child. by destruct (m s) as [[[s' n] [e|]]|]. Qed.

Lemma wpn_impl (m : cookn) Q Q' (E E' : cook_state → dt_node → error → Prop) s : wpn m Q E s →
  (∀ s' n, Q s' n → Q' s' n) → (∀ s' n e, E s' n e → E' s' n e) → wpn m Q' E' s.
Proof. unfold wpn. destruct (m s) as [[[s' n] [e|]]|]; eauto. Qed.

(** ** The tables *)

Definition members (t : table) (s : cook_state) : list Z := concat (dh_hash (get_tab t s)).
Definition nextoff (t : table) (s : cook_state) : Z := dh_nextoff (get_tab t s).

(** The name of an identifier, and the table. *)
Definition key (i : dt_ident) : table * list Z := (di_hash i, default [] (di_name i)).

(** [a] is a variable. *)
Definition is_var (s : cook_state) (a : Z) : Prop :=
  ∃ t i, a ∈ members t s ∧ ck_ids s !! a = Some i ∧ di_kind i = DT_IDENT_SCALAR.

Section Growth.
(** Variables stay what they are; only those named by [K] get a type, and at most [n] new
    ones are created and given storage, of at most [U] bytes each. *)
Context (U : Z).
Record grows (K : list (table * list Z)) (n : Z) (s s' : cook_state) : Prop := {
  gr_types : ck_types s ⊆ ck_types s';
  gr_members t a : a ∈ members t s → a ∈ members t s';
  gr_ids t a i : a ∈ members t s → ck_ids s !! a = Some i →
    ∃ i', ck_ids s' !! a = Some i' ∧ di_kind i' = di_kind i ∧ di_ops i' = di_ops i ∧ key i' = key i;
  gr_new t a i : a ∈ members t s → ck_ids s !! a = Some i → di_ops i = dt_idops_thaw → ck_types s !! a = None →
    is_Some (ck_types s' !! a) → key i ∈ K;
  gr_off t : nextoff t s' <= nextoff t s + U * n;
  gr_count t : dh_nelems (get_tab t s') <= dh_nelems (get_tab t s) + n
}.

(** There is room for [n] more variables. *)
Definition room (n : Z) (s : cook_state) : Prop :=
  ∀ t, nextoff t s + U * n < 2 ^ 31 ∧ dh_nelems (get_tab t s) + n < 2 ^ 63.

Hypothesis HU : 0 <= U.

Lemma grows_refl K n s : 0 <= n → grows K n s s.
Proof.
  intros Hn. constructor; [done|done| | | |]; try (intros; lia). { intros t a i _ Hi. by exists i. }
  intros t a i _ _ _ -> [? [=]].
Qed.

Lemma grows_trans K n1 n2 s1 s2 s3 : grows K n1 s1 s2 → grows K n2 s2 s3 → grows K (n1 + n2) s1 s3.
Proof using Type.
  intros [H1 H2 H3 Hn H4 H5] [K1 K2 K3 Kn K4 K5]. constructor; [by etrans|eauto| | | |].
  - intros t a i Ha Hi. destruct (H3 t a i Ha Hi) as (j & Hj & Ek & Eo & Ey). destruct (K3 t a j (H2 t a Ha) Hj) as (k & Hk & Ek' & Eo' & Ey').
    exists k. split_and!; [done|congruence..].
  - intros t a i Ha Hi Ho Ht Ht'. destruct (ck_types s2 !! a) eqn:E; [by eapply Hn|].
    destruct (H3 t a i Ha Hi) as (j & Hj & Ek & Eo & <-). eapply Kn; [by apply H2|done|congruence|done|done].
  - intros t. specialize (H4 t). specialize (K4 t). lia.
  - intros t. specialize (H5 t). specialize (K5 t). lia.
Qed.

Lemma grows_le K K' n m s s' : n <= m → K ⊆ K' → grows K n s s' → grows K' m s s'.
Proof.
  intros Hle HK [H1 H2 H3 Hn H4 H5]. constructor; try done; [eauto|intros t; specialize (H4 t); nia|intros t; specialize (H5 t); lia].
Qed.

Lemma room_grows K n m s s' : room (n + m) s → grows K n s s' → room m s'.
Proof using Type. intros Hr [_ _ _ _ H4 H5] t. specialize (Hr t). specialize (H4 t). specialize (H5 t). split; lia. Qed.

Lemma room_le n m s : m <= n → room n s → room m s.
Proof. intros Hle Hr t. specialize (Hr t). split; nia. Qed.

Lemma is_var_grows K n s s' a : grows K n s s' → is_var s a → is_var s' a.
Proof using Type.
  intros [_ H2 H3 _ _ _] (t & i & Ha & Hi & Hk). destruct (H3 t a i Ha Hi) as (j & Hj & Ek & _).
  exists t, j. split_and!; [eauto|done|congruence].
Qed.

End Growth.

Section Inv.
(** [valid fp type]: the container [fp] has the type [type]. *)
Context `{Ctf} (valid : Z → Z → Prop) (dt_gen : Z).

(** The scalar variable [a] of the table [t].  An ordinary one has no type as long
    as it is new, and then a type and storage within the table's data. *)
Record variable (s : cook_state) (t : table) (a : Z) (i : dt_ident) : Prop := {
  va_kind : di_kind i = DT_IDENT_SCALAR;
  va_hash : di_hash i = t;
  va_ops : di_ops i = dt_idops_thaw ∨ di_ops i = dt_idops_type;
  va_plain : has (di_flags i) DT_IDFLG_INLINE = false ∧ has (di_flags i) DT_IDFLG_CGREG = false;
  va_tls : has (di_flags i) DT_IDFLG_TLS = bool_decide (t = Tls);
  va_id : di_ops i = dt_idops_thaw → t = Globals → DIF_VAR_OTHER_UBASE <= di_id i;
  va_new : di_ops i = dt_idops_thaw → dt_ident_unref i dt_gen = true → ck_types s !! a = None;
  va_typed : di_ops i = dt_idops_thaw → dt_ident_unref i dt_gen = false → is_Some (ck_types s !! a);
  va_valid fp type : ck_types s !! a = Some (fp, type) → valid fp type;
  va_storage fp type : di_ops i = dt_idops_thaw → ck_types s !! a = Some (fp, type) → t ≠ Tls →
    0 <= di_offset i ∧ di_size i = ctf_type_size fp type ∧ di_offset i + di_size i <= nextoff t s;
  va_builtin : di_ops i = dt_idops_type → dt_ident_unref i dt_gen = false
}.

(** The tables have been filled, and there are no pragmas. *)
Record inv (s : cook_state) : Prop := {
  in_wf t : ∃ L, wf (ck_ids s) (get_tab t s) L;
  in_tmpl t : dh_tmpl (get_tab t s) = None;
  in_php : ck_php s = None;
  in_disjoint t t' a : a ∈ members t s → a ∈ members t' s → t = t';
  in_scalar t a i : a ∈ members t s → ck_ids s !! a = Some i → t ≠ Globals → di_kind i = DT_IDENT_SCALAR;
  in_var t a i : a ∈ members t s → ck_ids s !! a = Some i → di_kind i = DT_IDENT_SCALAR → variable s t a i;
  in_unique t a b n : a ∈ members t s → b ∈ members t s → name_of (ck_ids s) a = Some n → name_of (ck_ids s) b = Some n → a = b;
  in_nextid : DIF_VAR_OTHER_UBASE <= dh_nextid (ck_globals s);
  in_ids t : 0 <= dh_nextid (get_tab t s) ∧ dh_maxid (get_tab t s) < 2 ^ 32;
  in_nextoff t : 0 <= nextoff t s;
  in_types a : is_Some (ck_types s !! a) → is_Some (ck_ids s !! a)
}.

Context (U : Z).
Hypothesis HU : 0 <= U.
#[local] Abbreviation grows := (grows U).
#[local] Abbreviation room := (room U).

Lemma is_var_known s a : inv s → is_var s a → ∃ t i, a ∈ members t s ∧ ck_ids s !! a = Some i ∧ variable s t a i.
Proof using valid. intros Hinv (t & i & Ha & Hi & Hk). exists t, i. split_and!; [done|done|]. by apply (in_var _ Hinv). Qed.

(** ** The tables of a new handle *)

Lemma inv_create h names ming mint minl max maxtls g t l :
  DIF_VAR_OTHER_UBASE <= ming <= max → 0 <= mint <= max → 0 <= minl <= max → max < 2 ^ 32 →
  dt_idhash_create true names None ming max = Some (Some g) → dt_idhash_create true names None mint max = Some (Some t) →
  dt_idhash_create true names None minl max = Some (Some l) → inv (mk_ck h ∅ None g t l maxtls).
Proof using Type.
  intros Hg Ht Hl Hmax Eg Et El.
  assert (∀ min dhp, 0 <= min <= max → dt_idhash_create true names None min max = Some (Some dhp) →
    wf h dhp [] ∧ dh_tmpl dhp = None ∧ dh_nextid dhp = min ∧ dh_maxid dhp = max ∧ dh_nextoff dhp = 0) as Hnew.
  { intros min dhp Hm E. destruct (idhash_create_spec true names None min max h) as (r & E' & Hr); [lia|]. rewrite E in E'. injection E' as <-.
    destruct (Hr dhp eq_refl) as ([Hwf _ _ _] & ? & ?). unfold dt_idhash_create in E. destruct (max <? min); [done|]. injection E as <-. done. }
  set (s := mk_ck _ _ _ _ _ _ _).
  assert (∀ x, wf h (get_tab x s) [] ∧ dh_tmpl (get_tab x s) = None ∧ 0 <= dh_nextid (get_tab x s) ∧ dh_maxid (get_tab x s) = max ∧ nextoff x s = 0) as Hs.
  { unfold DIF_VAR_OTHER_UBASE in Hg. intros []; [destruct (Hnew ming g) as (? & ? & E & ?)|destruct (Hnew mint t) as (? & ? & E & ?)|destruct (Hnew minl l) as (? & ? & E & ?)];
      try done; try lia; (split_and!; [done|done|cbn; rewrite E; lia|tauto|unfold nextoff; tauto]). }
  assert (∀ x a, a ∉ members x s) as Hm.
  { intros x a Ha. destruct (Hs x) as [Hwf _]. unfold members in Ha. rewrite (wf_perm _ _ _ Hwf) in Ha. by apply elem_of_nil in Ha. }
  constructor.
  - intros x. exists []. apply Hs.
  - intros x. apply Hs.
  - done.
  - intros x x' a Ha. by apply Hm in Ha.
  - intros x a i Ha. by apply Hm in Ha.
  - intros x a i Ha. by apply Hm in Ha.
  - intros x a b n Ha. by apply Hm in Ha.
  - unfold DIF_VAR_OTHER_UBASE in Hg. destruct (Hnew ming g) as (_ & _ & E & _); [lia|done|]. cbn. rewrite E. unfold DIF_VAR_OTHER_UBASE. lia.
  - intros x. destruct (Hs x) as (_ & _ & ? & -> & _). done.
  - intros x. destruct (Hs x) as (_ & _ & _ & _ & ->). done.
  - intros a. cbn. rewrite lookup_empty. by intros [? ?].
Qed.

(** ** A change of one variable *)

(** A table whose identifiers are the same. *)
Definition same_idents (dhp dhp' : dt_idhash) : Prop :=
  dh_hash dhp' = dh_hash dhp ∧ dh_hashsz dhp' = dh_hashsz dhp ∧ dh_nelems dhp' = dh_nelems dhp ∧
  dh_tmpl dhp' = dh_tmpl dhp ∧ dh_nextid dhp <= dh_nextid dhp' ∧ dh_maxid dhp' = dh_maxid dhp.

Lemma inv_same h dhp dhp' L : same_idents dhp dhp' → wf h dhp L → wf h dhp' L.
Proof using valid.
  intros (E1 & E2 & E3 & _) Hwf. assert (∀ n, chain_of dhp' n = chain_of dhp n) as Ec by (intros; unfold chain_of; by rewrite E2).
  destruct Hwf. constructor; rewrite ?E1, ?E2, ?E3; try done.
  - intros c chain a Hc Ha.
    destruct (wf_chain0 c chain a Hc Ha) as (n & Hn & <-). exists n. by rewrite Ec.
  - intros n chain. rewrite Ec. apply wf_order0.
Qed.

(** [s'] differs from [s] in the variable [a], in its type, and in the storage of the tables. *)
Record changed (s s' : cook_state) (a : Z) (i' : dt_ident) : Prop := {
  ch_ids : ck_ids s' = <[a := i']> (ck_ids s);
  ch_types b : b ≠ a → ck_types s' !! b = ck_types s !! b;
  ch_php : ck_php s' = ck_php s;
  ch_tabs t : same_idents (get_tab t s) (get_tab t s');
  ch_off t : nextoff t s <= nextoff t s'
}.

Lemma changed_members s s' a i' t : changed s s' a i' → members t s' = members t s.
Proof. intros Hch. unfold members. by destruct (ch_tabs _ _ _ _ Hch t) as (-> & _). Qed.

Lemma inv_change s s' t a i i' : inv s → changed s s' a i' → a ∈ members t s → ck_ids s !! a = Some i →
  di_name i' = di_name i → variable s' t a i' → inv s'.
Proof using valid.
  intros Hinv Hch Ha Hi En Hv. pose proof Hch as [Hids Hty Hphp Htabs Hoff].
  assert (∀ b, name_of (ck_ids s') b = name_of (ck_ids s) b) as Hname.
  { intros b. unfold name_of. rewrite Hids. destruct (decide (b = a)) as [->|]; [|by rewrite lookup_insert_ne].
    by rewrite lookup_insert_eq, Hi; cbn; rewrite En. }
  constructor.
  - intros t'. destruct (in_wf _ Hinv t') as [L HL]. exists L. eapply inv_same; [done|]. eapply wf_frame; [|done]. done.
  - intros t'. destruct (Htabs t') as (_ & _ & _ & -> & _). apply Hinv.
  - rewrite Hphp. apply Hinv.
  - intros t1 t2 b. rewrite !(changed_members _ _ _ _ _ Hch). apply (in_disjoint _ Hinv).
  - intros t' b j. rewrite (changed_members _ _ _ _ _ Hch), Hids. destruct (decide (b = a)) as [->|].
    + rewrite lookup_insert_eq. intros _ [= <-] _. apply Hv.
    + rewrite lookup_insert_ne by done. apply (in_scalar _ Hinv).
  - intros t' b j. rewrite (changed_members _ _ _ _ _ Hch), Hids. destruct (decide (b = a)) as [->|Hne].
    + rewrite lookup_insert_eq. intros Hb [= <-] _. by rewrite (in_disjoint _ Hinv t' t a).
    + rewrite lookup_insert_ne by done. intros Hb Hj Hk. destruct (in_var _ Hinv t' b j Hb Hj Hk) as [V1 V2 V3 V4 Vt V5 V6 V7 V8 V9 Vb].
      constructor; try done; rewrite Hty by done; try done. intros fp type H1 H2 H3. specialize (V9 fp type H1 H2 H3).
      specialize (Hoff t'). lia.
  - intros t' b1 b2 n. rewrite !(changed_members _ _ _ _ _ Hch), !Hname. apply (in_unique _ Hinv).
  - destruct (Htabs Globals) as (_ & _ & _ & _ & ? & _). pose proof (in_nextid _ Hinv). cbn [get_tab] in *. lia.
  - intros t'. destruct (Htabs t') as (_ & _ & _ & _ & ? & ->). pose proof (in_ids _ Hinv t'). lia.
  - intros t'. pose proof (in_nextoff _ Hinv t'). specialize (Hoff t'). lia.
  - intros b. rewrite Hids. destruct (decide (b = a)) as [->|]; [by rewrite lookup_insert_eq|].
    rewrite lookup_insert_ne, Hty by done. apply (in_types _ Hinv).
Qed.

Lemma grows_change K n s s' a i i' : changed s s' a i' → ck_ids s !! a = Some i → di_kind i' = di_kind i → di_ops i' = di_ops i →
  key i' = key i → (ck_types s !! a = None ∧ (di_ops i = dt_idops_thaw → key i ∈ K) ∨ ck_types s' !! a = ck_types s !! a) →
  0 <= n → (∀ t, nextoff t s' <= nextoff t s + U * n) → grows K n s s'.
Proof using valid.
  intros Hch Hi Ek Eo Ey Hty Hn Hoff. pose proof Hch as [Hids Htys _ Htabs _]. constructor.
  - apply map_subseteq_spec. intros b x Hb. destruct (decide (b = a)) as [->|]; [|by rewrite Htys].
    destruct Hty as [[E _]|E]; [congruence|by rewrite E].
  - intros t b. by rewrite (changed_members _ _ _ _ _ Hch).
  - intros t b j _ Hj. rewrite Hids. destruct (decide (b = a)) as [->|].
    + rewrite lookup_insert_eq. exists i'. split_and!; [done|congruence..].
    + rewrite lookup_insert_ne by done. by exists j.
  - intros t b j _ Hj Ho Hn1 Hn2. destruct (decide (b = a)) as [->|]; [|rewrite Htys, Hn1 in Hn2 by done; by destruct Hn2].
    rewrite Hi in Hj. injection Hj as <-. destruct Hty as [[_ HK]|E]; [by apply HK|]. rewrite E, Hn1 in Hn2. by destruct Hn2.
  - done.
  - intros t. destruct (Htabs t) as (_ & _ & -> & _). lia.
Qed.

(** ** Flags *)

Lemma has_lor a b m : has (Z.lor a b) m = has a m || has b m.
Proof.
  unfold has. rewrite Z.land_lor_distr_l. destruct (Z.eqb_spec (Z.land a m) 0) as [->|Ha]; [by rewrite Z.lor_0_l|].
  destruct (Z.eqb_spec (Z.lor (Z.land a m) (Z.land b m)) 0) as [E|E]; [|done]. apply Z.lor_eq_0_iff in E as [? _]. done.
Qed.

Lemma unref_has i : dt_ident_unref i dt_gen = (di_gen i =? dt_gen) && negb (has (di_flags i) (Z.lor DT_IDFLG_REF (Z.lor DT_IDFLG_MOD DT_IDFLG_DECL))).
Proof. unfold dt_ident_unref, has. by rewrite negb_involutive. Qed.

(** The flags that are set while cooking do not tell where a variable is. *)
Definition use_flags (f : Z) : Prop := f = 0 ∨ f = DT_IDFLG_REF ∨ f = DT_IDFLG_MOD ∨ f = Z.lor DT_IDFLG_REF DT_IDFLG_MOD ∨ f = DT_IDFLG_USER.

Lemma use_flags_other f m : use_flags f → Z.land m (Z.lor DT_IDFLG_REF (Z.lor DT_IDFLG_MOD DT_IDFLG_USER)) = 0 → has f m = false.
Proof.
  intros Hf Hm. assert (has (Z.lor DT_IDFLG_REF (Z.lor DT_IDFLG_MOD DT_IDFLG_USER)) m = false) as E.
  { unfold has. by rewrite Z.land_comm, Hm. }
  rewrite !has_lor in E. apply orb_false_iff in E as [E1 [E2 E3]%orb_false_iff].
  destruct Hf as [->|[->|[->|[->| ->]]]]; rewrite ?has_lor, ?E1, ?E2; done.
Qed.

Lemma flags_other i f m : use_flags f → Z.land m (Z.lor DT_IDFLG_REF (Z.lor DT_IDFLG_MOD DT_IDFLG_USER)) = 0 →
  has (di_flags (set_flags i (Z.lor (di_flags i) f))) m = has (di_flags i) m.
Proof. intros Hf Hm. cbn [set_flags di_flags]. by rewrite has_lor, (use_flags_other f m), orb_false_r. Qed.

Lemma flags_hash i f : use_flags f → di_hash (set_flags i (Z.lor (di_flags i) f)) = di_hash i.
Proof. intros Hf. unfold di_hash. by rewrite !flags_other. Qed.

Lemma flags_unref i f : dt_ident_unref (set_flags i (Z.lor (di_flags i) f)) dt_gen = true → dt_ident_unref i dt_gen = true.
Proof.
  rewrite !unref_has. cbn [set_flags di_flags di_gen]. rewrite has_lor. intros [-> Hn]%andb_true_iff.
  by apply negb_true_iff, orb_false_iff in Hn as [-> _].
Qed.

Lemma changed_flags s a i f : ck_ids s !! a = Some i →
  changed s (set_ids (<[a := set_flags i (Z.lor (di_flags i) f)]> (ck_ids s)) (ck_php s) s) a (set_flags i (Z.lor (di_flags i) f)).
Proof. intros Hi. constructor; try done; intros []; unfold same_idents; split_and!; try done. Qed.

(** ** Computations *)

Lemma wp_get_id s a (Q : cook_state → dt_ident → Prop) E : inv s → is_var s a →
  (∀ t i, a ∈ members t s → ck_ids s !! a = Some i → variable s t a i → Q s i) → wp (get_id a) Q E s.
Proof using valid.
  intros Hinv Hv HQ. destruct (is_var_known _ _ Hinv Hv) as (t & i & Ha & Hi & Hva). unfold wp, get_id. rewrite Hi. cbn. eauto.
Qed.

(** A variable that has a type is used. *)
Lemma wp_add_flags s a f (Q : cook_state → unit → Prop) E : inv s → is_var s a → use_flags f →
  (∀ i, ck_ids s !! a = Some i → di_ops i = dt_idops_thaw → f = 0 ∨ is_Some (ck_types s !! a)) →
  (∀ s', inv s' → (∀ K, grows K 0 s s') → ck_types s' = ck_types s → Q s' tt) → wp (add_flags a f) Q E s.
Proof using valid.
  intros Hinv Hv Hf Ht HQ. apply cwp_bind, wp_get_id; [done..|]. intros t i Ha Hi Hva. unfold wp, put_id.
  pose proof (changed_flags s a i f Hi) as Hch. destruct Hva as [V1 V2 V3 V4 Vt V5 V6 V7 V8 V9 Vb]. apply HQ; [|intros K; eapply grows_change; try done; [unfold key; by rewrite flags_hash|by right|intros []; cbn; unfold nextoff; cbn; lia]|done].
  eapply inv_change; try done. constructor; try done.
  - by rewrite flags_hash.
  - by rewrite !flags_other.
  - by rewrite flags_other.
  - intros Ho Hu. apply V6; [done|]. by eapply flags_unref.
  - intros Ho Hu. destruct (Ht i Hi Ho) as [->|Hs]; [|done]. apply V7; [done|]. by rewrite <- Hu, unref_has, unref_has, Z.lor_0_r.
  - intros Ho. apply not_true_iff_false. intros Hu%flags_unref. specialize (Vb Ho). congruence.
Qed.

(** ** New variables get a type and storage *)

(** The identifier [i'] is [i] with other storage and more flags. *)
Record placed (i i' : dt_ident) : Prop := {
  pl_name : di_name i' = di_name i;
  pl_kind : di_kind i' = di_kind i;
  pl_ops : di_ops i' = di_ops i;
  pl_id : di_id i' = di_id i;
  pl_flags m : Z.land m (Z.lor DT_IDFLG_REF (Z.lor DT_IDFLG_MOD DT_IDFLG_USER)) = 0 → has (di_flags i') m = has (di_flags i) m
}.

(** The new variable [a] of [s] has the type [fp], [type] in [s'], and storage. *)
Definition adopted (s s' : cook_state) (a fp type : Z) : Prop :=
  ∃ t i i', a ∈ members t s ∧ ck_ids s !! a = Some i ∧ variable s t a i ∧ di_ops i = dt_idops_thaw ∧
    dt_ident_unref i dt_gen = true ∧ placed i i' ∧ changed s s' a i' ∧ ck_types s' !! a = Some (fp, type) ∧
    valid fp type ∧ (t ≠ Tls → 0 <= di_offset i' ∧ di_size i' = ctf_type_size fp type ∧ di_offset i' + di_size i' <= nextoff t s') ∧
    ∀ t', nextoff t' s' <= nextoff t' s + U.

Lemma placed_flags i i' f : placed i i' → use_flags f → placed i (set_flags i' (Z.lor (di_flags i') f)).
Proof. intros [P1 P2 P3 P4 P5] Hf. constructor; try done. intros m Hm. rewrite flags_other by done. by apply P5. Qed.

Lemma adopted_grows K s s' a fp type : adopted s s' a fp type → (∀ i, ck_ids s !! a = Some i → key i ∈ K) → grows K 1 s s'.
Proof using valid.
  intros (t & i & i' & Ha & Hi & Hva & Ho & Hu & Hpl & Hch & _ & _ & _ & Hoff) HK.
  eapply grows_change; [done|done|apply Hpl|apply Hpl| |left; split; [by apply Hva|auto]|lia|].
  - destruct Hpl as [P1 _ _ _ P5]. unfold key, di_hash. by rewrite P1, !P5.
  - intros t'. specialize (Hoff t'). lia.
Qed.

(** When it is used, all is well again. *)
Lemma adopted_inv s s' a fp type i' : inv s → adopted s s' a fp type → ck_ids s' !! a = Some i' → dt_ident_unref i' dt_gen = false → inv s'.
Proof using valid.
  intros Hinv (t & i & j & Ha & Hi & [V1 V2 V3 V4 Vt V5 V6 V7 V8 V9 Vb] & Ho & Hu & [P1 P2 P3 P4 P5] & Hch & Hty & Hreal & Hst & _) Hi' Hu'.
  assert (j = i') as ->. { rewrite (ch_ids _ _ _ _ Hch), lookup_insert_eq in Hi'. congruence. }
  eapply inv_change; [done|done|done|done|done|]. constructor; rewrite ?P2, ?P3, ?P4; try done.
  - unfold di_hash. rewrite !P5 by done. done.
  - by rewrite !P5.
  - by rewrite P5.
  - intros _ Hu2. congruence.
  - intros fp' type'. rewrite Hty. intros [= <- <-]. done.
  - intros fp' type' _. rewrite Hty. intros [= <- <-]. done.
Qed.

Lemma wp_adopted_flags s s' a fp type f (Q : cook_state → unit → Prop) E : adopted s s' a fp type → use_flags f →
  (∀ s'', adopted s s'' a fp type → ck_types s'' = ck_types s' → (inv s → has f (Z.lor DT_IDFLG_REF DT_IDFLG_MOD) = true → inv s'') → Q s'' tt) →
  wp (add_flags a f) Q E s'.
Proof using valid.
  intros Had Hf HQ. pose proof Had as (t & i & i' & Ha & Hi & Hva & Ho & Hu & Hpl & Hch & Hty & Hreal & Hst & Hoff).
  pose proof Hch as [Hids Hty' Hphp Htabs Hmono].
  assert (ck_ids s' !! a = Some i') as Hi' by (by rewrite Hids, lookup_insert_eq).
  unfold wp, add_flags, get_id, put_id, mbind, ck_bind. rewrite Hi'. cbn [option_bind].
  set (i'' := set_flags i' _). set (s'' := set_ids _ _ _).
  assert (adopted s s'' a fp type) as Had''.
  { exists t, i, i''. split_and!; try done; [by apply placed_flags|].
    constructor; [cbn; rewrite Hids; apply insert_insert_eq|done|done|intros t'; specialize (Htabs t'); by destruct t'|intros t'; specialize (Hmono t'); by destruct t']. }
  apply HQ; [done|done|]. intros Hinv Hh. eapply adopted_inv; [done|done|cbn; by rewrite lookup_insert_eq|].
  rewrite unref_has. cbn [i'' set_flags di_flags]. apply andb_false_iff. right. apply negb_false_iff. rewrite has_lor. apply orb_true_iff. right.
  destruct Hf as [->|[->|[->|[->| ->]]]]; by vm_compute in Hh |- *.
Qed.

(** [alignment] is a power of 2. *)
Lemma wp_adopt s t a i fp type k size (Q : cook_state → unit → Prop) E : inv s → room 1 s → a ∈ members t s → ck_ids s !! a = Some i →
  variable s t a i → di_ops i = dt_idops_thaw → dt_ident_unref i dt_gen = true → valid fp type → 0 <= k < 31 →
  0 <= size → ctf_type_size fp type = size → 2 ^ k + size <= U →
  (∀ s', adopted s s' a fp type → Q s' tt) → wp (put_type a (mk_tid fp type);; set_storage_of a (2 ^ k) size) Q E s.
Proof.
  intros Hinv Hroom Ha Hi Hva Ho Hu Hreal Hk Hs0 Hs HU' HQ. pose proof (in_nextoff _ Hinv t) as H0. destruct (Hroom t) as [Hr _].
  assert (di_hash i = t) as Et by apply Hva. apply cwp_bind. unfold wp at 1, put_type. cbn [tid_ctfp tid_type]. unfold wp, set_storage_of, dt_ident_type_assign.
  cbn [ck_ids]. rewrite Hi. cbn [mbind option_bind]. rewrite Et. unfold nextoff in *.
  set (s1 := mk_ck _ _ _ _ _ _ _). assert (get_tab t s1 = get_tab t s) as Etab by by destruct t. rewrite Etab.
  assert (∀ off h dhp n, h = <[a := set_storage i off (s32 size)]> (ck_ids s) → same_idents (get_tab t s) dhp →
    dh_nextoff (get_tab t s) <= dh_nextoff dhp <= dh_nextoff (get_tab t s) + U →
    (t ≠ Tls → 0 <= off ∧ off + size <= dh_nextoff dhp) →
    adopted s (set_maxtlslen n (set_tab t dhp (set_ids h (ck_php s1) s1))) a fp type) as Had.
  { intros off h dhp n -> Hsame Hoff Hst. exists t, i, (set_storage i off (s32 size)). split_and!; try done.
    - constructor; [by destruct t|intros b Hb; destruct t; cbn; by rewrite lookup_insert_ne|by destruct t| |].
      + intros t'. destruct t, t'; try done; unfold same_idents; split_and!; done.
      + intros t'. unfold nextoff in *. destruct t, t'; cbn in *; lia.
    - destruct t; cbn; by rewrite lookup_insert_eq.
    - intros Ht. destruct (Hst Ht). cbn [di_offset di_size set_storage]. rewrite Hs.
      rewrite swrap_id by (done || unfold srange; change (32 - 1) with 31; lia). split_and!; [done|done|].
      unfold nextoff. destruct t; cbn in *; lia.
    - intros t'. unfold nextoff. destruct t, t'; cbn in *; lia. }
  unfold Ident.dt_ident_set_storage. cbn [ck_ids s1]. rewrite Hi. cbn [mbind option_bind].
  destruct (Z.eqb_spec (Z.land (di_flags i) DT_IDFLG_TLS) 0) as [Hf|Hf].
  - destruct (align_up 32 (dh_nextoff (get_tab t s)) k) as [Hal Hr2]; [lia..|].
    set (off := Z.land (u32 (dh_nextoff (get_tab t s) + (2 ^ k - 1))) (u32 (Z.lnot (2 ^ k - 1)))) in *.
    rewrite (swrap_id 32 off) by (done || unfold srange; change (32 - 1) with 31; lia).
    apply HQ, (Had off); [done| | |]; cbn [dh_nextoff].
    + unfold same_idents. cbn. done.
    + rewrite wrap_id by (unfold urange; lia). lia.
    + rewrite wrap_id by (unfold urange; lia). lia.
  - apply HQ, (Had 0); [done|unfold same_idents; done|lia|]. intros Ht. pose proof (va_tls _ _ _ _ Hva) as Htls.
    rewrite bool_decide_false in Htls by done. by apply negb_false_iff, Z.eqb_eq in Htls.
Qed.

(** ** Names *)

Context (al : idheap → option Z) (yylineno : Z).
Hypothesis al_fresh : ∀ h a, al h = Some a → a ≠ 0 ∧ h !! a = None.

Lemma set_same t s : set_tab t (get_tab t s) (set_ids (ck_ids s) (ck_php s) s) = s.
Proof. by destruct s, t. Qed.

Lemma wf_members s t L : wf (ck_ids s) (get_tab t s) L → members t s ≡ₚ L.
Proof. apply wf_perm. Qed.

Lemma wp_lookup s t name (Q : cook_state → Z → Prop) E : inv s →
  ((∀ b, b ∈ members t s → name_of (ck_ids s) b ≠ Some name) → Q s 0) →
  (∀ a, a ≠ 0 → a ∈ members t s → name_of (ck_ids s) a = Some name → Q s a) → wp (lookup_in al yylineno t name) Q E s.
Proof using valid.
  intros Hinv HQ0 HQ. destruct (in_wf _ Hinv t) as [L HL]. unfold wp, lookup_in, dt_idhash_lookup, dt_idhash_populate.
  rewrite (in_tmpl _ Hinv). cbn [mbind option_bind]. rewrite (lookup_filled_spec _ _ _ _ HL). cbn [mbind option_bind].
  rewrite set_same. destruct (head (named (ck_ids s) name L)) as [a|] eqn:Eh; cbn.
  - apply head_Some_elem_of, elem_of_named in Eh as [Hn Ha]. apply HQ; [|by rewrite (wf_members _ _ _ HL)|done].
    intros ->. by apply (wf_null _ _ _ HL).
  - apply HQ0. intros b Hb Hn. rewrite (wf_members _ _ _ HL) in Hb. apply head_None in Eh.
    assert (b ∈ named (ck_ids s) name L) as Hin by by rewrite elem_of_named. rewrite Eh in Hin. by apply elem_of_nil in Hin.
Qed.

(** The address of a member is known to be one. *)
Lemma member_known s t a : inv s → a ∈ members t s → a ≠ 0 ∧ is_Some (ck_ids s !! a).
Proof using valid.
  intros Hinv Ha. destruct (in_wf _ Hinv t) as [L HL]. rewrite (wf_members _ _ _ HL) in Ha. split; [|by eapply live].
  intros ->. by apply (wf_null _ _ _ HL).
Qed.

(** A new identifier of the table [t]. *)
Definition new_flags (t : table) : Z :=
  match t with
  | Locals => Z.lor DT_IDFLG_WRITE DT_IDFLG_LOCAL
  | Tls => Z.lor DT_IDFLG_WRITE DT_IDFLG_TLS
  | Globals => DT_IDFLG_WRITE
  end.

Section New.
Context (s : cook_state) (t : table) (a : Z) (i : dt_ident) (dhp : dt_idhash) (L : list Z) (name : list Z).
Let s' := set_tab t dhp (set_ids (<[a := i]> (ck_ids s)) (ck_php s) s).
Hypothesis Hinv : inv s.
Hypothesis Hwf : wf (<[a := i]> (ck_ids s)) dhp (a :: L).
Hypothesis HL : members t s ≡ₚ L.
Hypothesis Hfresh : ck_ids s !! a = None.
Hypothesis Hnone : ∀ b, b ∈ members t s → name_of (ck_ids s) b ≠ Some name.
Hypothesis Hdhp : dh_maxid dhp = dh_maxid (get_tab t s) ∧ dh_tmpl dhp = None ∧ dh_nextid dhp = dh_nextid (get_tab t s) ∧ dh_nextoff dhp = dh_nextoff (get_tab t s).
Hypothesis Hi : di_name i = Some name ∧ di_kind i = DT_IDENT_SCALAR ∧ di_flags i = new_flags t ∧ di_ops i = dt_idops_thaw ∧
  (t = Globals → DIF_VAR_OTHER_UBASE <= di_id i) ∧ di_gen i = dt_gen.

Lemma new_members t' b : b ∈ members t' s' ↔ b = a ∧ t' = t ∨ b ∈ members t' s.
Proof using All.
  assert (∀ b, b ∈ concat (dh_hash dhp) ↔ b = a ∨ b ∈ members t s) as Hm.
  { intros c. rewrite (wf_perm _ _ _ Hwf), elem_of_cons, <- HL. done. }
  destruct (decide (t' = t)) as [->|Hne].
  - unfold members at 1, s'. destruct t; cbn [get_tab set_tab set_ids ck_globals ck_tls ck_locals]; rewrite Hm; (split; [intros [->|?]; [by left|by right]|intros [[-> _]|?]; [by left|by right]]).
  - assert (get_tab t' s' = get_tab t' s) as E by (unfold s'; by destruct t, t').
    unfold members. rewrite E. split; [by right|intros [[_ ?]|?]; done].
Qed.

Lemma new_off t' : nextoff t' s' = nextoff t' s.
Proof using All. unfold nextoff, s'. destruct Hdhp as (_ & _ & _ & E). by destruct t, t'. Qed.

Lemma new_nelems t' : dh_nelems (get_tab t' s') <= dh_nelems (get_tab t' s) + 1.
Proof using All.
  destruct (decide (t' = t)) as [->|Hne].
  - assert (get_tab t s' = dhp) as -> by (unfold s'; by destruct t). destruct (in_wf _ Hinv t) as [L0 HL0].
    rewrite (wf_nelems _ _ _ Hwf), (wf_nelems _ _ _ HL0). pose proof (wf_members _ _ _ HL0) as E. rewrite HL in E.
    apply Permutation_length in E. cbn [length]. lia.
  - assert (get_tab t' s' = get_tab t' s) as -> by (unfold s'; by destruct t, t'). lia.
Qed.

Lemma new_grows K : grows K 1 s s'.
Proof using All.
  constructor.
  - unfold s'. by destruct t.
  - intros t' b Hb. apply new_members. by right.
  - intros t' b j Hb Hj. exists j. assert (b ≠ a) as Hne by congruence. unfold s'. split_and!; try done.
    destruct t; cbn; by rewrite lookup_insert_ne.
  - intros t' b j _ _ _ Hn [? Hs]. assert (ck_types s' = ck_types s) as E by (unfold s'; by destruct t). congruence.
  - intros t'. rewrite new_off. lia.
  - apply new_nelems.
Qed.

Lemma new_inv : inv s'.
Proof using All.
  assert (ck_ids s' = <[a := i]> (ck_ids s)) as Eids by (unfold s'; by destruct t).
  assert (ck_types s' = ck_types s) as Ety by (unfold s'; by destruct t).
  assert (∀ t', t' ≠ t → get_tab t' s' = get_tab t' s) as Eo by (unfold s'; intros t' ?; by destruct t, t').
  assert (get_tab t s' = dhp) as Es by (unfold s'; by destruct t).
  assert (ck_types s !! a = None) as Hta.
  { destruct (ck_types s !! a) eqn:E; [|done]. destruct (in_types _ Hinv a) as [? ?]; [by eexists|congruence]. }
  assert (∀ t' b, b ∈ members t' s → b ≠ a) as Hne.
  { intros t' b Hb ->. destruct (member_known _ _ _ Hinv Hb) as [_ [? ?]]. congruence. }
  assert (∀ b, b ≠ a → name_of (<[a := i]> (ck_ids s)) b = name_of (ck_ids s) b) as Hname.
  { intros b Hb. unfold name_of. by rewrite lookup_insert_ne. }
  assert (name_of (<[a := i]> (ck_ids s)) a = Some name) as Hna.
  { unfold name_of. rewrite lookup_insert_eq. apply Hi. }
  constructor.
  - intros t'. destruct (decide (t' = t)) as [->|Hd]; [exists (a :: L); by rewrite Eids, Es|].
    destruct (in_wf _ Hinv t') as [L' HL']. exists L'. rewrite Eids, (Eo t' Hd). eapply wf_frame; [|done]. intros b Hb.
    rewrite <- (wf_members _ _ _ HL') in Hb. apply Hname. by eapply Hne.
  - intros t'. destruct (decide (t' = t)) as [->|Hd]; [rewrite Es; apply Hdhp|rewrite (Eo t' Hd); apply Hinv].
  - unfold s'. destruct t; apply (in_php _ Hinv).
  - intros t1 t2 b. rewrite !new_members.
    intros [[E1 ->]|H1] [[E2 ->]|H2]; [done|by apply Hne in H2|by apply Hne in H1|by eapply (in_disjoint _ Hinv)].
  - intros t' b j. rewrite new_members, Eids. intros [[-> ->]|Hb].
    + rewrite lookup_insert_eq. intros [= <-] _. apply Hi.
    + rewrite lookup_insert_ne by (intros <-; by eapply Hne). by apply (in_scalar _ Hinv).
  - intros t' b j. rewrite new_members, Eids. intros [[-> ->]|Hb].
    + rewrite lookup_insert_eq. intros [= <-] Hk. destruct Hi as (_ & _ & Hf & Ho & Hid & Hg).
      constructor; rewrite ?Ety, ?Hta; try done.
      * unfold di_hash. rewrite Hf. by destruct t.
      * by left.
      * rewrite Hf. by destruct t.
      * rewrite Hf. by destruct t.
      * intros _. rewrite unref_has, Hf, Hg, Z.eqb_refl. by destruct t.
      * intros Ho2. rewrite Ho in Ho2. done.
    + rewrite lookup_insert_ne by (intros <-; by eapply Hne). intros Hj Hk.
      destruct (in_var _ Hinv t' b j Hb Hj Hk) as [V1 V2 V3 V4 Vt V5 V6 V7 V8 V9 Vb].
      constructor; rewrite ?Ety, ?new_off; done.
  - intros t' b1 b2 n. rewrite !new_members, !Eids. intros [[-> ->]|H1] [[-> E]|H2]; try done.
    + rewrite Hna, Hname by (by eapply Hne). intros [= <-] Hn. by destruct (Hnone b2).
    + subst t'. rewrite Hna, Hname by (by eapply Hne). intros Hn [= <-]. by destruct (Hnone b1).
    + rewrite !Hname by (by eapply Hne). by apply (in_unique _ Hinv t').
  - destruct (decide (t = Globals)) as [Et|Hd].
    + change (ck_globals s') with (get_tab Globals s'). rewrite <- Et, Es. destruct Hdhp as (_ & _ & -> & _). rewrite Et. apply Hinv.
    + change (ck_globals s') with (get_tab Globals s'). rewrite Eo by done. apply Hinv.
  - intros t'. destruct (decide (t' = t)) as [->|Hd]; [rewrite Es; destruct Hdhp as (-> & _ & -> & _)|rewrite (Eo t' Hd)]; apply Hinv.
  - intros t'. rewrite new_off. apply Hinv.
  - intros b. rewrite Ety, Eids. destruct (decide (b = a)) as [->|]; [by rewrite lookup_insert_eq|].
    rewrite lookup_insert_ne by done. apply (in_types _ Hinv).
Qed.

End New.

(** Another identifier for the next variable. *)
Lemma inv_tabs s s' : inv s → ck_ids s' = ck_ids s → ck_types s' = ck_types s → ck_php s' = ck_php s →
  (∀ t, same_idents (get_tab t s) (get_tab t s')) → (∀ t, nextoff t s' = nextoff t s) → inv s' ∧ ∀ K, grows K 0 s s'.
Proof using valid.
  intros Hinv Eids Ety Ephp Htabs Hoff. assert (∀ t, members t s' = members t s) as Em.
  { intros t. unfold members. by destruct (Htabs t) as (-> & _). }
  split.
  - constructor; rewrite ?Eids, ?Ety.
    + intros t. destruct (in_wf _ Hinv t) as [L HL]. exists L. by eapply inv_same.
    + intros t. destruct (Htabs t) as (_ & _ & _ & -> & _). apply Hinv.
    + rewrite Ephp. apply Hinv.
    + intros t t' a. rewrite !Em. apply (in_disjoint _ Hinv).
    + intros t a i. rewrite Em. apply (in_scalar _ Hinv).
    + intros t a i. rewrite Em. intros Ha Hi Hk. destruct (in_var _ Hinv t a i Ha Hi Hk) as [V1 V2 V3 V4 Vt V5 V6 V7 V8 V9 Vb].
      constructor; rewrite ?Ety, ?Hoff; done.
    + intros t a b n. rewrite Em. apply (in_unique _ Hinv).
    + destruct (Htabs Globals) as (_ & _ & _ & _ & ? & _). pose proof (in_nextid _ Hinv). cbn [get_tab] in *. lia.
    + intros t. destruct (Htabs t) as (_ & _ & _ & _ & ? & ->). pose proof (in_ids _ Hinv t). lia.
    + intros t. rewrite Hoff. apply Hinv.
    + apply (in_types _ Hinv).
  - intros K. constructor; rewrite ?Ety.
    + done.
    + intros t a. by rewrite Em.
    + intros t a i _ Hi. rewrite Eids. by exists i.
    + intros t a i _ _ _ -> [? [=]].
    + intros t. rewrite Hoff. lia.
    + intros t. destruct (Htabs t) as (_ & _ & -> & _). lia.
Qed.

Lemma wp_nextid s t (Q : cook_state → option Z → Prop) E : inv s → Q s None →
  (∀ s' id, inv s' → (∀ K, grows K 0 s s') → ck_ids s' = ck_ids s → (∀ t, members t s' = members t s) →
     (t = Globals → DIF_VAR_OTHER_UBASE <= id) → Q s' (Some id)) → wp (nextid_of t) Q E s.
Proof using valid.
  intros Hinv H0 HQ. unfold wp, nextid_of, dt_idhash_nextid. destruct (Z.leb_spec (dh_maxid (get_tab t s)) (dh_nextid (get_tab t s))) as [Hle|Hlt].
  { assert (set_tab t (get_tab t s) s = s) as -> by (by destruct s, t). done. }
  set (dhp := set_nextid _ _). pose proof (in_ids _ Hinv t) as Hmax.
  assert (∀ t', same_idents (get_tab t' s) (get_tab t' (set_tab t dhp s))) as Hsame.
  { assert (u32 (dh_nextid (get_tab t s) + 1) = dh_nextid (get_tab t s) + 1) as Hu by (apply wrap_id; unfold urange; lia).
    intros t'. unfold same_idents. destruct t, t'; cbn in *; split_and!; try done; lia. }
  destruct (inv_tabs s (set_tab t dhp s)) as [Hinv' Hg]; [done|by destruct t..|done|by intros []; destruct t|].
  apply HQ; [done|done|by destruct t| |].
  - intros t'. unfold members. by destruct (Hsame t') as (-> & _).
  - intros ->. apply (in_nextid _ Hinv).
Qed.

Context (_dtrace_defattr : dtrace_attribute).

Lemma wp_insert s t name id (Q : cook_state → Z → Prop) E : inv s → room 1 s →
  (∀ b, b ∈ members t s → name_of (ck_ids s) b ≠ Some name) → (t = Globals → DIF_VAR_OTHER_UBASE <= id) → Q s 0 →
  (∀ a i s', inv s' → (∀ K, grows K 1 s s') → a ≠ 0 → a ∈ members t s' → ck_ids s' !! a = Some i → di_kind i = DT_IDENT_SCALAR →
     key i = (t, name) → Q s' a) →
  wp (insert_in _dtrace_defattr al yylineno dt_gen t name DT_IDENT_SCALAR (new_flags t) id) Q E s.
Proof.
  intros Hinv Hroom Hnone Hid H0 HQ. destruct (in_wf _ Hinv t) as [L HL]. pose proof (wf_members _ _ _ HL) as Hm.
  unfold wp, insert_in, dt_idhash_insert, dt_idhash_populate. rewrite (in_tmpl _ Hinv). cbn [mbind option_bind].
  unfold insert_filled. destruct (al (ck_ids s)) as [a|] eqn:Hal; cbn [mbind option_bind]; [|by rewrite set_same].
  destruct (al_fresh _ _ Hal) as [Ha0 Hfresh]. set (i := dt_ident_create _ _ _ _ _ _ _ _ _ _).
  assert (∀ b, b ∈ L → b ≠ a) as Hne.
  { intros b Hb ->. destruct (live _ _ _ _ HL Hb). congruence. }
  assert (wf (<[a := i]> (ck_ids s)) (get_tab t s) L) as HL'.
  { eapply wf_frame; [|done]. intros b Hb. unfold name_of. rewrite lookup_insert_ne; [done|]. intros <-. by apply (Hne a). }
  unfold link. destruct (lookup_lt_is_Some_2 _ _ (chain_of_lt _ _ _ (Some name) HL')) as [chain Hc].
  rewrite Hc. cbn [mbind option_bind]. rewrite (in_php _ Hinv). cbn [dt_pragma_apply]. set (dhp := set_hash _ _ _).
  match goal with |- context [if dh_defer dhp then ?x else ?y] =>
    replace (if dh_defer dhp then x else y) with (Some (<[a := i]> (ck_ids s), ck_php s, dhp))
      by (rewrite (in_php _ Hinv); by destruct (dh_defer dhp)) end.
  cbn [mbind option_bind]. destruct (Hroom t) as [_ Hr].
  assert (wf (<[a := i]> (ck_ids s)) dhp (a :: L)) as Hwf.
  { apply wf_link; [done| |done| | |done].
    - intros Hin. by apply (Hne a).
    - unfold name_of. by rewrite lookup_insert_eq.
    - rewrite (wf_nelems _ _ _ HL) in Hr. lia. }
  assert (dh_maxid dhp = dh_maxid (get_tab t s) ∧ dh_tmpl dhp = None ∧ dh_nextid dhp = dh_nextid (get_tab t s) ∧
    dh_nextoff dhp = dh_nextoff (get_tab t s)) as Hdhp by (split_and!; try done; apply (in_tmpl _ Hinv)).
  apply (HQ a i); [by eapply (new_inv s t a i dhp L name)|intros K; by eapply (new_grows s t a i dhp L name)|done| | |done|].
  - eapply (new_members s t a i dhp L name); try done. by left.
  - destruct t; cbn; by rewrite lookup_insert_eq.
  - unfold key, di_hash. destruct t; done.
Qed.

End Inv.

End CookInv.
