(* ===== verification/CookTyped.v ===== *)
(** * What type checking promises

    [typed s e] says that the tree [e] is well typed with the variables of [s]: the
    type of every node follows from those of its operands by the rules of D, its
    flags agree with its type, its stability is the least of its operands', and
    what is assigned to can be.  [raw s e] is a tree that can be cooked. *)
From S2P Require Import Prelude CLib Ident Node Cg Cook CookInv.
#[local] Open Scope Z_scope.
Import Ident Node Cg Cook CookInv.

Module CookTyped.

Section Typed.
Context `{Ctf, !CtfCook} (hdl : hdl_types) (hdc : cook_types) (eattr : bool) (pcb_amin : dtrace_attribute).
Context (valid : Z → Z → Prop).

(** ** Types of nodes *)

Definition type_of (c : dt_common) : dt_tid := mk_tid (dn_ctfp c) (dn_type c).
Definition ty (e : dt_node) : dt_tid := type_of (common e).

(** The type is one, and the flags agree with it. *)
Record agree (c : dt_common) : Prop := {
  ag_valid : valid (dn_ctfp c) (dn_type c);
  ag_cooked : has (dn_flags c) DT_NF_COOKED = true;
  ag_flags m : m ∈ [DT_NF_SIGNED; DT_NF_REF; DT_NF_BITFIELD] →
    has (dn_flags c) m = has (type_flags hdl (dn_ctfp c) (dn_type c) 0) m
}.

(** The stability is not below what was asked for. *)
Definition stable (attr : dtrace_attribute) : Prop := eattr && (dt_attr_cmp attr pcb_amin <? 0) = false.

Definition integer (e : dt_node) : Prop := kind_of e = CTF_K_INTEGER ∧ is_void_encoding e = false ∨ kind_of e = CTF_K_ENUM.
Definition scalar (e : dt_node) : Prop := integer e ∨ kind_of e = CTF_K_POINTER.
Definition arithmetic (e : dt_node) : Prop :=
  kind_of e = CTF_K_INTEGER ∧ (∃ n, encoding_of e = Some n ∧ IS_VOID n = false) ∨ kind_of e = CTF_K_ENUM.
Definition pointer (e : dt_node) : Prop := dt_node_is_string hdl e = false ∧ (kind_of e = CTF_K_POINTER ∨ kind_of e = CTF_K_ARRAY).

(** A pointer to a function or to [void]. *)
Definition vfptr (e : dt_node) : Prop :=
  let fp := dn_ctfp (common e) in
  let to := ctf_type_resolve fp (ctf_type_reference fp (base_of e)) in
  kind_of e = CTF_K_POINTER ∧
    (ctf_type_kind fp to = CTF_K_FUNCTION ∨ ctf_type_kind fp to = CTF_K_INTEGER ∧ is_void_type fp to = true).

(** Something that is a string, a pointer to [char] or an array of [char]. *)
Definition strcompat (e : dt_node) : Prop := dt_node_is_strcompat e = mret true.
Definition addable (e : dt_node) : Prop := dt_node_is_string hdl e = true ∨ pointer e ∧ ¬ vfptr e.

Definition lvalue (e : dt_node) : Prop := match e with Var _ _ | Op1 _ DT_TOK_DEREF _ => True | _ => False end.
Definition modifiable (e : dt_node) : Prop := lvalue e ∧ has_flag e DT_NF_WRITABLE = true.

(** ** The rules *)

Inductive op1_type : tok → dt_node → dt_tid → Prop :=
  | t_deref x t : (kind_of x = CTF_K_POINTER ∧ t = ctf_type_reference (dn_ctfp (common x)) (base_of x) ∨
                   kind_of x = CTF_K_ARRAY ∧ ctf_array_info (dn_ctfp (common x)) (base_of x) = Some t) →
      ctf_type_kind (dn_ctfp (common x)) (ctf_type_resolve (dn_ctfp (common x)) t) ≠ CTF_K_FUNCTION →
      (ctf_type_kind (dn_ctfp (common x)) (ctf_type_resolve (dn_ctfp (common x)) t) = CTF_K_INTEGER →
         is_void_type (dn_ctfp (common x)) (ctf_type_resolve (dn_ctfp (common x)) t) = false) →
      op1_type DT_TOK_DEREF x (mk_tid (dn_ctfp (common x)) t)
  | t_sign op x : op ∈ [DT_TOK_IPOS; DT_TOK_INEG] → arithmetic x → op1_type op x (ty x)
  | t_bneg x : integer x → op1_type DT_TOK_BNEG x (ty x)
  | t_lneg x : scalar x → op1_type DT_TOK_LNEG x (dt_type_int hdl)
  | t_addrof x t : lvalue x → (∀ c a, x ≠ Var c a) → has_flag x DT_NF_BITFIELD = false →
      dt_type_pointer hdc (dn_ctfp (common x)) (dn_type (common x)) = Some t → op1_type DT_TOK_ADDROF x t
  | t_sizeof x n : has_flag x DT_NF_BITFIELD = false → dt_node_type_size hdl x = mret n → n ≠ 0 →
      op1_type DT_TOK_SIZEOF x (dt_size_t hdc)
  | t_stringof x : scalar x ∨ pointer x ∨ strcompat x → op1_type DT_TOK_STRINGOF x (dt_type_str hdl)
  | t_incdec op x : is_incdec op = true → scalar x → ¬ vfptr x → modifiable x → op1_type op x (ty x).

(** Two operands that can be compared. *)
Definition comparable (l r : dt_node) : Prop :=
  types_compat l r = true ∨ integer l ∧ integer r ∨
  strcompat l ∧ strcompat r ∧ (dt_node_is_string hdl l = true ∨ dt_node_is_string hdl r = true) ∨
  ∃ t, dt_node_is_ptrcompat hdl l r = mret (Some t).

(** A constant index is within the bounds of the array [l]. *)
Definition in_bounds (l r : dt_node) (type : Z) : Prop :=
  ∀ v n, kind_of l = CTF_K_ARRAY → const_value r = Some v → ctf_array_nelems (dn_ctfp (common l)) type = Some n → v < n.

Inductive add_type : tok → dt_node → dt_node → dt_tid → Prop :=
  | t_add_ints op l r t : integer l → integer r → dt_type_promote hdl l r = mret t → add_type op l r t
  | t_add_right op l r : addable l → integer r → add_type op l r (ty l)
  | t_add_left l r : integer l → addable r → add_type DT_TOK_ADD l r (ty r)
  | t_sub_ptrs l r t : addable l → addable r → dt_node_is_ptrcompat hdl l r = mret (Some t) →
      add_type DT_TOK_SUB l r (dt_ptrdiff_t hdc).

(** A value of the type of [r] where one of the type of [l] is wanted. *)
Definition castable (l r : dt_node) : Prop :=
  types_compat l r = true ∨ scalar l ∧ (scalar r ∨ kind_of r = CTF_K_FUNCTION) ∨ dt_node_is_void hdl hdc l = true ∨
  kind_of l = CTF_K_POINTER ∧ pointer r ∨ dt_node_is_string hdl l = true ∧ (scalar r ∨ pointer r ∨ strcompat r).

Inductive op2_type : tok → dt_node → dt_node → dt_tid → Prop :=
  | t_bits op l r t : op ∈ [DT_TOK_BAND; DT_TOK_XOR; DT_TOK_BOR; DT_TOK_MOD] → integer l → integer r →
      dt_type_promote hdl l r = mret t → op2_type op l r t
  | t_shift op l r : op ∈ [DT_TOK_LSH; DT_TOK_RSH] → integer l → integer r → op2_type op l r (ty l)
  | t_mul op l r t : op ∈ [DT_TOK_MUL; DT_TOK_DIV] → arithmetic l → arithmetic r → dt_type_promote hdl l r = mret t →
      op2_type op l r t
  | t_logical op l r : op ∈ [DT_TOK_LAND; DT_TOK_LXOR; DT_TOK_LOR] → scalar l → scalar r → op2_type op l r (dt_type_int hdl)
  | t_compare op l r : is_compare op = true → comparable l r → op2_type op l r (dt_type_int hdl)
  | t_add op l r t : op ∈ [DT_TOK_ADD; DT_TOK_SUB] → add_type op l r t → in_bounds l r (tid_type t) → op2_type op l r t
  | t_asgn_bits op l r :
      op ∈ [DT_TOK_OR_EQ; DT_TOK_XOR_EQ; DT_TOK_AND_EQ; DT_TOK_LSH_EQ; DT_TOK_RSH_EQ; DT_TOK_MOD_EQ] →
      integer l → integer r → modifiable l → op2_type op l r (ty l)
  | t_asgn_mul op l r : op ∈ [DT_TOK_MUL_EQ; DT_TOK_DIV_EQ] → arithmetic l → arithmetic r → modifiable l → op2_type op l r (ty l)
  | t_asgn_add op l r : op ∈ [DT_TOK_ADD_EQ; DT_TOK_SUB_EQ] → dt_node_is_string hdl l = false → dt_node_is_string hdl r = false →
      (integer l ∧ integer r ∨ pointer l ∧ ¬ vfptr l ∧ (integer r ∨ ∃ t, dt_node_is_ptrcompat hdl l r = mret (Some t))) →
      modifiable l → op2_type op l r (ty l)
  | t_asgn l r : (dt_node_is_string hdl l = false → kind_of l ≠ CTF_K_ARRAY ∧ kind_of l ≠ CTF_K_FUNCTION) →
      dt_node_is_argcompat hdl hdc l r = mret true → modifiable l → op2_type DT_TOK_ASGN l r (ty l)
  | t_comma l r : op2_type DT_TOK_COMMA l r (ty r)
  | t_cast c r : castable (TypeName c) r → op2_type DT_TOK_LPAR (TypeName c) r (type_of c).

Inductive op3_type (l r : dt_node) : dt_tid → Prop :=
  | t_same : types_compat l r = true → op3_type l r (ty l)
  | t_ints t : integer l → integer r → dt_type_promote hdl l r = mret t → op3_type l r t
  | t_strings : strcompat l → strcompat r → dt_node_is_string hdl l = true ∨ dt_node_is_string hdl r = true →
      op3_type l r (dt_type_str hdl)
  | t_ptrs t : dt_node_is_ptrcompat hdl l r = mret (Some t) → op3_type l r t.

(** No value of an operator but DEREF is an lvalue. *)
Definition plain (c : dt_common) : Prop := has (dn_flags c) DT_NF_LVALUE = false.

Inductive typed (s : cook_state) : dt_node → Prop :=
  | ty_const c v : agree c → plain c → 0 <= v < 2 ^ 64 → typed s (Const c v)
  | ty_str c str : agree c → plain c → typed s (Str c str)
  | ty_name c : agree c → plain c → typed s (TypeName c)
  | ty_var c a : agree c → is_var s a → ck_types s !! a = Some (dn_ctfp c, dn_type c) → typed s (Var c a)
  | ty_op1 c op x : agree c → (op ≠ DT_TOK_DEREF → plain c) → typed s x → op1_type op x (type_of c) →
      dn_attr c = dn_attr (common x) → stable (dn_attr c) → typed s (Op1 c op x)
  | ty_op2 c op l r : agree c → plain c → typed s l → typed s r → op2_type op l r (type_of c) →
      dn_attr c = min_attr l r → stable (dn_attr c) → typed s (Op2 c op l r)
  | ty_op3 c x l r : agree c → plain c → typed s x → typed s l → typed s r → scalar x → op3_type l r (type_of c) →
      dn_attr c = dt_attr_min (dn_attr (common x)) (min_attr l r) → stable (dn_attr c) → typed s (Op3 c x l r).

(** ** Trees to be cooked *)

(** The variable that a node stands for or will stand for. *)
Definition target (s : cook_state) (e : dt_node) : option (table * list Z) :=
  let var a := key <$> ck_ids s !! a in
  match e with
  | Id _ name => Some (Globals, name)
  | Var _ a => var a
  | Op2 _ DT_TOK_PTR (Id _ scope) (Id _ name) => Some (if bool_decide (scope = self) then Tls else Locals, name)
  | Op2 _ DT_TOK_PTR _ (Var _ a) => var a
  | _ => None
  end.

(** The variables that may get a type from their use in [e]. *)
Fixpoint assigns (s : cook_state) (e : dt_node) : list (table * list Z) :=
  match e with
  | Op1 _ _ x => option_list (target s x) ++ assigns s x
  | Op2 _ op l r => (if is_asgn op then option_list (target s l) else []) ++ assigns s l ++ assigns s r
  | Op3 _ x l r => assigns s x ++ assigns s l ++ assigns s r
  | _ => []
  end.

(** A variable that has a type. *)
Definition known (s : cook_state) (k : table * list Z) : Prop :=
  ∃ a t i, a ∈ members t s ∧ ck_ids s !! a = Some i ∧ di_kind i = DT_IDENT_SCALAR ∧ key i = k ∧ is_Some (ck_types s !! a).

Fixpoint nodes (e : dt_node) : Z :=
  match e with
  | Op1 _ _ x => 1 + nodes x
  | Op2 _ _ l r => 1 + nodes l + nodes r
  | Op3 _ x l r => 1 + nodes x + nodes l + nodes r
  | _ => 1
  end.

(** The name after [self] or [this] has been looked up, in a place where the variable
    is read. *)
Definition looked_up (e : dt_node) : bool := match e with Op2 _ DT_TOK_PTR _ (Var _ _) => true | _ => false end.

(** The tree of a program without the features outside the model, and in which no
    assignment of a new variable's first value assigns to the variable itself. *)
Fixpoint raw (s : cook_state) (e : dt_node) : Prop :=
  match e with
  | Const c v => agree c ∧ plain c ∧ 0 <= v < 2 ^ 64
  | Str c _ | TypeName c => agree c ∧ plain c
  | Id c name => plain c ∧ plain_name name = true
  | Var _ a => is_var s a
  | Op1 c op x => raw s x ∧ looked_up x = false ∧ (op ≠ DT_TOK_DEREF → plain c)
  | Op2 c DT_TOK_PTR l r =>
      match l, r with
      | Id _ scope, Id _ name => (scope = self ∨ scope = this) ∧ plain_name name = true
      | Id _ scope, Var _ a => (scope = self ∨ scope = this) ∧ is_var s a
      | _, _ => False
      end
  | Op2 c op l r =>
      raw s l ∧ raw s r ∧ plain c ∧ (op = DT_TOK_LPAR → ∃ ct, l = TypeName ct) ∧
      (op = DT_TOK_ASGN → looked_up l = false ∧ ∀ k, target s l = Some k → k ∈ assigns s r → known s k)
  | Op3 c x l r => raw s x ∧ raw s l ∧ raw s r ∧ plain c
  end.

(** ** What the compiler relies on *)

(** Of libctf: the types it gives are types, and those of scalars have the sizes of
    C's; no type is larger than [U - 16] bytes.  None of the types is that of
    dynamic variables. *)
Record ctf_laws (dt_type_lookup : list Z → option dt_tid) (U : Z) : Prop := {
  law_real fp type : valid fp type → fp ≠ 0 ∧ type ≠ CTF_ERR;
  law_dyn : ¬ valid (tid_ctfp (dt_type_dyn hdl)) (tid_type (dt_type_dyn hdl));
  law_int : valid (tid_ctfp (dt_type_int hdl)) (tid_type (dt_type_int hdl));
  law_str : valid (tid_ctfp (dt_type_str hdl)) (tid_type (dt_type_str hdl));
  law_size_t : valid (tid_ctfp (dt_size_t hdc)) (tid_type (dt_size_t hdc));
  law_ptrdiff_t : valid (tid_ctfp (dt_ptrdiff_t hdc)) (tid_type (dt_ptrdiff_t hdc));
  law_lookup name t : dt_type_lookup name = Some t → valid (tid_ctfp t) (tid_type t);
  law_int64 t : dt_type_lookup [105; 110; 116; 54; 52; 95; 116] = Some t → ctf_type_size (tid_ctfp t) (tid_type t) = 8;
  law_resolve fp type : valid fp type → valid fp (ctf_type_resolve fp type);
  law_reference fp type : valid fp type → ctf_type_kind fp (ctf_type_resolve fp type) = CTF_K_POINTER →
    valid fp (ctf_type_reference fp (ctf_type_resolve fp type));
  law_array fp type t : valid fp type → ctf_array_info fp (ctf_type_resolve fp type) = Some t → valid fp t;
  law_pointer fp type p : valid fp type → ctf_type_pointer fp type = Some p → valid fp p;
  law_add_pointer type p : ctf_add_pointer (dt_ddefs hdc) type = Some p → valid (dt_ddefs hdc) p;
  law_size fp type : valid fp type → 0 <= ctf_type_size fp type <= U - 16;
  law_scalar c a : valid (dn_ctfp c) (dn_type c) → scalar (Var c a) → ∃ k, 0 <= k <= 4 ∧ ctf_type_size (dn_ctfp c) (dn_type c) = 2 ^ k
}.

End Typed.

Lemma nodes_pos e : 1 <= nodes e.
Proof. induction e; cbn; lia. Qed.

End CookTyped.
