(* ===== verification/CookOps.v ===== *)
(** * The types of operators

    The functions of [Cook] that give an operator its type find the one of the rules
    of [CookTyped] for operands that are well typed, or report an error; they have a
    result in any case. *)
From S2P Require Import Prelude CLib Ident Node Cg Cook CookInv CookTyped.
#[local] Open Scope Z_scope.
Import Ident Node Cg Cook CookInv CookTyped.

Module CookOps.

(** One case for each element of a list. *)
Ltac each Hx := repeat (apply elem_of_cons in Hx as [->|Hx]); [..|by apply elem_of_nil in Hx].

Section Types.
Context {ctf : Ctf} {ctfc : CtfCook} (hdl : hdl_types) (hdc : cook_types) (valid : Z → Z → Prop).
#[local] Abbreviation agree := (agree hdl valid).

(** ** Flags and types *)

Lemma type_flags_lor fp type f : type_flags hdl fp type f =
  Z.lor (Z.land f (Z.lnot (Z.lor (Z.lor DT_NF_SIGNED DT_NF_REF) (Z.lor DT_NF_BITFIELD DT_NF_USERLAND)))) (type_flags hdl fp type 0).
Proof.
  unfold type_flags. rewrite Z.land_0_l. set (g := Z.land f _). destruct (if _ =? CTF_K_INTEGER then _ else _) as [n|];
    destruct (if _ =? CTF_K_FLOAT then _ else _) as [m|];
    repeat match goal with |- context [if ?b then _ else _] => destruct b end; rewrite <- ?Z.lor_assoc, ?Z.lor_0_l; done.
Qed.

Lemma has_or c f m : has (dn_flags (or_flag c f)) m = has (dn_flags c) m || has f m.
Proof. apply has_lor. Qed.

Lemma plain_type_flags fp type f : has (type_flags hdl fp type f) DT_NF_LVALUE = has f DT_NF_LVALUE.
Proof.
  rewrite type_flags_lor, has_lor. assert (has (type_flags hdl fp type 0) DT_NF_LVALUE = false) as ->.
  { unfold type_flags. destruct (if _ =? CTF_K_INTEGER then _ else _) as [n|]; destruct (if _ =? CTF_K_FLOAT then _ else _) as [m|];
      repeat match goal with |- context [if ?b then _ else _] => destruct b end; done. }
  rewrite orb_false_r. unfold has. by rewrite <- Z.land_assoc.
Qed.

Lemma agree_assign c fp type : valid fp type → agree (type_assign hdl c fp type).
Proof.
  intros Hv. constructor; cbn [type_assign dn_ctfp dn_type dn_flags]; [done| |].
  - unfold type_flags. by rewrite has_lor, orb_true_r.
  - intros m Hm. rewrite type_flags_lor, has_lor. unfold has at 1. rewrite <- Z.land_assoc.
    each Hm; match goal with |- context [Z.land ?x (Z.land ?y ?z)] => change (Z.land y z) with 0 end; by rewrite Z.land_0_r.
Qed.

Lemma agree_or c f : agree c → f ∈ [DT_NF_LVALUE; DT_NF_WRITABLE; DT_NF_USERLAND; DT_NF_COOKED] → agree (or_flag c f).
Proof.
  intros [A1 A2 A3] Hf. constructor; [done| |].
  - by rewrite has_or, A2.
  - intros m Hm. rewrite has_or, (A3 m Hm). cbn [or_flag dn_ctfp dn_type].
    each Hm; each Hf; by rewrite orb_false_r.
Qed.

Lemma plain_assign c fp type : plain c → plain (type_assign hdl c fp type).
Proof. unfold plain. cbn [type_assign dn_flags]. by rewrite plain_type_flags. Qed.

Lemma plain_or c f : plain c → f ∈ [DT_NF_WRITABLE; DT_NF_USERLAND; DT_NF_COOKED] → plain (or_flag c f).
Proof.
  unfold plain. intros Hp Hf. rewrite has_or, Hp. by each Hf.
Qed.

(** The common part of a node with the type of [src]. *)
Lemma propagate_ok src c : agree (common src) → ∃ c', propagate src c = mret c' ∧ agree c' ∧ plain c' ∧ type_of c' = ty src ∧ dn_attr c' = dn_attr c.
Proof.
  intros [A1 A2 A3]. unfold propagate, has_flag. rewrite A2. eexists. split; [done|].
  assert (∀ m, Z.land (Z.lnot DT_NF_LVALUE) m = m → has (Z.land (dn_flags (common src)) (Z.lnot DT_NF_LVALUE)) m = has (dn_flags (common src)) m) as Hm.
  { intros m E. unfold has. by rewrite <- Z.land_assoc, E. }
  split_and!; [constructor; cbn|..]; try done.
  - by rewrite Hm.
  - intros m Hin. rewrite <- A3 by done. apply Hm. by each Hin.
  - unfold plain, has. cbn. by rewrite <- Z.land_assoc, Z.land_0_r.
Qed.

(** ** The questions *)

(** [m] asks whether [P] holds. *)
Definition asks (m : comp bool) (P : Prop) : Prop := ∃ b, m = mret b ∧ (b = true ↔ P).

Section Asked.
Context (e : dt_node).
Hypothesis Hcooked : has_flag e DT_NF_COOKED = true.

Lemma asks_integer : asks (dt_node_is_integer e) (integer e).
Proof using Hcooked.
  unfold asks, dt_node_is_integer, integer. rewrite Hcooked. eexists. split; [done|].
  destruct (Z.eqb_spec (kind_of e) CTF_K_INTEGER) as [E|E], (is_void_encoding e), (Z.eqb_spec (kind_of e) CTF_K_ENUM) as [E'|E']; cbn;
    try rewrite E in *; naive_solver.
Qed.

Lemma asks_scalar : asks (dt_node_is_scalar e) (scalar e).
Proof using Hcooked.
  unfold asks, dt_node_is_scalar, scalar, integer. rewrite Hcooked. eexists. split; [done|].
  destruct (Z.eqb_spec (kind_of e) CTF_K_INTEGER) as [E|E], (is_void_encoding e), (Z.eqb_spec (kind_of e) CTF_K_ENUM) as [E'|E'],
    (Z.eqb_spec (kind_of e) CTF_K_POINTER) as [E2|E2]; cbn; try rewrite E in *; naive_solver.
Qed.

Lemma asks_arith : asks (dt_node_is_arith e) (arithmetic e).
Proof using Hcooked.
  unfold asks, dt_node_is_arith, arithmetic. rewrite Hcooked. eexists. split; [done|].
  destruct (Z.eqb_spec (kind_of e) CTF_K_INTEGER) as [->|E], (encoding_of e) as [n|]; cbn; try rewrite negb_true_iff; try rewrite Z.eqb_eq; naive_solver.
Qed.

Lemma asks_pointer : asks (dt_node_is_pointer hdl e) (pointer hdl e).
Proof using Hcooked.
  unfold asks, dt_node_is_pointer, pointer. rewrite Hcooked. eexists. split; [done|].
  rewrite andb_true_iff, negb_true_iff, orb_true_iff, !Z.eqb_eq. done.
Qed.

Lemma asks_vfptr : asks (dt_node_is_vfptr e) (vfptr e).
Proof using Hcooked.
  unfold asks, dt_node_is_vfptr, vfptr. rewrite Hcooked. eexists. split; [done|].
  destruct (Z.eqb_spec (kind_of e) CTF_K_POINTER) as [->|E]; cbn [negb]; [|naive_solver].
  rewrite orb_true_iff, andb_true_iff, !Z.eqb_eq. naive_solver.
Qed.

Lemma asks_strcompat : asks (dt_node_is_strcompat e) (strcompat e).
Proof using Hcooked.
  unfold asks, strcompat, dt_node_is_strcompat. rewrite Hcooked. eexists. split; [done|]. split; [by intros ->|by intros [= ->]].
Qed.

End Asked.

Lemma asks_both f P l r : asks (f l) (P l) → asks (f r) (P r) → asks (both f l r) (P l ∧ P r).
Proof. intros (b & E & Hb) (b' & E' & Hb'). exists (b && b'). unfold both. rewrite E, E'. split; [done|]. rewrite andb_true_iff. tauto. Qed.

Lemma asks_addable e : has_flag e DT_NF_COOKED = true → asks (is_ptr hdl e) (addable hdl e).
Proof.
  intros He. destruct (asks_pointer e He) as (p & Ep & Hp), (asks_vfptr e He) as (v & Ev & Hv). unfold asks, is_ptr. rewrite Ep, Ev.
  eexists. split; [done|]. unfold addable. rewrite orb_true_iff, andb_true_iff, negb_true_iff, Hp, <- Hv. by destruct v; naive_solver.
Qed.

(** The common type of two pointers. *)
Lemma ptrcompat_ok l r : has_flag l DT_NF_COOKED = true → has_flag r DT_NF_COOKED = true →
  ∃ o, dt_node_is_ptrcompat hdl l r = mret o ∧ ∀ t, o = Some t → t = mk_tid (dn_ctfp (common l)) (base_of l) ∨ t = mk_tid (dn_ctfp (common r)) (base_of r).
Proof.
  intros Hl Hr. destruct (asks_integer l Hl) as (bl & El & _), (asks_integer r Hr) as (br & Er & _).
  unfold dt_node_is_ptrcompat. rewrite Hl, Hr, El, Er. eexists. split; [done|]. intros t.
  destruct bl, br; unfold pointee; cbn;
    repeat match goal with |- context [if ?b then _ else _] => destruct b end; intros [= <-]; auto.
Qed.

End Types.

Section Ops.
Context {ctf : Ctf} {ctfc : CtfCook} (hdl : hdl_types) (hdc : cook_types) (eattr : bool) (pcb_amin : dtrace_attribute).
Context (dt_gen : Z) (dt_type_lookup : list Z → option dt_tid).
Context (valid : Z → Z → Prop) (U : Z).
Hypothesis laws : ctf_laws hdl hdc valid dt_type_lookup U.

#[local] Abbreviation agree := (agree hdl valid).
#[local] Abbreviation typed := (typed hdl hdc eattr pcb_amin valid).
#[local] Abbreviation raw := (raw hdl valid).
#[local] Abbreviation inv := (inv valid dt_gen).

(** ** Types of operators *)

(** An error that is the end of the compilation; nothing has changed. *)
Definition stays (s : cook_state) : cook_state → error → Prop := λ s' e, s' = s ∧ try_again e = false.

(** The common part [c] with another type and the stability [attr]. *)
Definition retyped (s : cook_state) (c : dt_common) (attr : dtrace_attribute) (P : dt_tid → Prop) : cook_state → dt_common → Prop := λ s' c',
  s' = s ∧ agree c' ∧ (plain c → plain c') ∧ P (type_of c') ∧ dn_attr c' = attr ∧ stable eattr pcb_amin attr.

Lemma wp_yes (m : comp bool) P tag (Q : cook_state → unit → Prop) (E : cook_state → error → Prop) s : asks m P → (P → Q s tt) →
  E s (mk_error EDT_COMPILER tag) → wp (require m tag) Q E s.
Proof using Type. intros (b & -> & Hb) HQ HE. unfold require. apply cwp_bind. destruct b; [by apply HQ, Hb|done]. Qed.

Lemma wp_asks (m : comp bool) P (Q : cook_state → bool → Prop) (E : cook_state → error → Prop) s : asks m P →
  (∀ b, (b = true ↔ P) → Q s b) → wp (ask m) Q E s.
Proof using Type. intros (b & -> & Hb) HQ. by apply HQ. Qed.

Lemma wp_attr c attr (Q : cook_state → dt_common → Prop) E s :
  (stable eattr pcb_amin attr → Q s (mk_common (dn_ctfp c) (dn_type c) (dn_flags c) attr)) →
  E s (mk_error EDT_COMPILER D_ATTR_MIN) → wp (assign_attr eattr pcb_amin c attr) Q E s.
Proof using Type.
  intros HQ HE. unfold wp, assign_attr, ask, attr_assign. unfold stable in HQ. destruct (eattr && (dt_attr_cmp attr pcb_amin <? 0)); [done|by apply HQ].
Qed.

Lemma agree_attr c attr : agree c → agree (mk_common (dn_ctfp c) (dn_type c) (dn_flags c) attr).
Proof using Type. intros [A1 A2 A3]. by constructor. Qed.

Lemma wp_retyped s c c' attr P : agree c' → (plain c → plain c') → P (type_of c') →
  wp (assign_attr eattr pcb_amin c' attr) (retyped s c attr P) (stays s) s.
Proof using Type. intros Ha Hp HP. apply wp_attr; [|done]. intros Hs. split_and!; try done. by apply agree_attr. Qed.

Lemma wp_new_type s c t attr (P : dt_tid → Prop) : valid (tid_ctfp t) (tid_type t) → P t →
  wp (assign_attr eattr pcb_amin (assign_type hdl c t) attr) (retyped s c attr P) (stays s) s.
Proof using Type. intros Hv HP. apply wp_retyped; [by apply agree_assign|apply plain_assign|by destruct t]. Qed.

Lemma wp_propagated s c src attr (P : dt_tid → Prop) : agree (common src) → P (ty src) →
  wp (c ← ask (propagate src c); assign_attr eattr pcb_amin c attr) (retyped s c attr P) (stays s) s.
Proof using Type.
  intros Ha HP. destruct (propagate_ok hdl valid src c Ha) as (c' & E & Ha' & Hp & Ht & _). rewrite E. apply cwp_bind, wp_retyped; [done..|by rewrite Ht].
Qed.

Lemma typed_agree s e : typed s e → agree (common e).
Proof using Type. by destruct 1. Qed.

Lemma typed_cooked s e : typed s e → has_flag e DT_NF_COOKED = true.
Proof using Type. intros He. by destruct (typed_agree s e He). Qed.

Lemma typed_lvalue s e : typed s e → has_flag e DT_NF_LVALUE = true → lvalue e.
Proof using Type.
  unfold has_flag. destruct 1 as [c v _ Hp|c str _ Hp|c _ Hp|c a|c op x _ Hp|c op l r _ Hp|c x l r _ Hp]; cbn; try done; try (rewrite Hp; done).
  intros Hf. destruct (decide (op = DT_TOK_DEREF)) as [->|Hne]; [done|]. by rewrite Hp in Hf.
Qed.

Lemma typed_not_dyn s e : typed s e → dt_node_is_dynamic hdl e = false.
Proof using laws.
  intros [Hv _ _]%typed_agree. unfold dt_node_is_dynamic, has_type. apply andb_false_iff.
  destruct (Z.eqb_spec (dn_ctfp (common e)) (tid_ctfp (dt_type_dyn hdl))) as [E1|]; [|by left].
  destruct (Z.eqb_spec (dn_type (common e)) (tid_type (dt_type_dyn hdl))) as [E2|]; [|by right].
  rewrite E1, E2 in Hv. by destruct (law_dyn _ _ _ _ _ laws).
Qed.

Definition int_kind (e : dt_node) : Prop := kind_of e = CTF_K_INTEGER ∨ kind_of e = CTF_K_ENUM.

Lemma integer_kind e : integer e → int_kind e.
Proof using Type. intros [[? _]|?]; [by left|by right]. Qed.

Lemma arith_kind e : arithmetic e → int_kind e.
Proof using Type. intros [[? _]|?]; [by left|by right]. Qed.

Lemma promote_ok s l r : typed s l → typed s r → int_kind l → int_kind r →
  (∃ c, dt_type_promote hdl l r = throw c) ∨ ∃ t, dt_type_promote hdl l r = mret t ∧ valid (tid_ctfp t) (tid_type t).
Proof using laws.
  intros [Vl _ _]%typed_agree [Vr _ _]%typed_agree Il Ir.
  assert (∀ e, int_kind e → (kind_of e =? CTF_K_INTEGER) || (kind_of e =? CTF_K_ENUM) = true) as Hk.
  { intros e [-> | ->]; done. }
  unfold dt_type_promote. rewrite (Hk l Il), (Hk r Ir). cbn [assert mbind comp_bind mret comp_ret].
  pose proof (law_int _ _ _ _ _ laws) as Hint.
  destruct (kind_of l =? CTF_K_ENUM), (kind_of r =? CTF_K_ENUM);
    repeat match goal with |- context [match ?x with Some _ => _ | None => _ end] => destruct x end; eauto; right;
    repeat match goal with |- context [if ?b then _ else _] => destruct b end; eauto.
Qed.

Section Op2.
Context (s : cook_state) (c : dt_common) (l r : dt_node).
Hypothesis Hl : typed s l.
Hypothesis Hr : typed s r.

Let cl : has_flag l DT_NF_COOKED = true := typed_cooked s l Hl.
Let cr : has_flag r DT_NF_COOKED = true := typed_cooked s r Hr.

Lemma wp_promote (P : dt_tid → Prop) : int_kind l → int_kind r → (∀ t, dt_type_promote hdl l r = mret t → P t) →
  wp (promote hdl eattr pcb_amin l r c) (retyped s c (min_attr l r) P) (stays s) s.
Proof using Hl Hr laws.
  intros Il Ir HP. unfold promote. apply cwp_bind. destruct (promote_ok s l r Hl Hr Il Ir) as [[k E]|(t & E & Hv)]; rewrite E.
  - split; [done|]. unfold try_again. cbn. by destruct (k =? EDT_COMPILER).
  - apply wp_new_type; [done|]. by apply HP.
Qed.

Lemma wp_integers (tag : err_tag) (Q : cook_state → unit → Prop) E : (integer l → integer r → Q s tt) → E s (mk_error EDT_COMPILER tag) →
  wp (require (both dt_node_is_integer l r) tag) Q E s.
Proof using Hl Hr. intros HQ HE. eapply wp_yes; [apply asks_both; by apply asks_integer|intros [? ?]; by apply HQ|done]. Qed.

Lemma asgn_common_ok (P : dt_tid → Prop) : (modifiable l → P (ty l)) →
  wp (asgn_common eattr pcb_amin c l r) (retyped s c (min_attr l r) P) (stays s) s.
Proof using Hl.
  intros HP. unfold asgn_common. destruct (has_flag l DT_NF_LVALUE) eqn:El; [|done]. destruct (has_flag l DT_NF_WRITABLE) eqn:Ew; [|done].
  apply wp_propagated; [by eapply typed_agree|]. apply HP. split; [by eapply typed_lvalue|done].
Qed.

Lemma compare_ok op : is_compare op = true →
  wp (cook_compare_type hdl eattr pcb_amin c l r) (retyped s c (min_attr l r) (op2_type hdl hdc op l r)) (stays s) s.
Proof using All.
  intros Hop. unfold cook_compare_type. eapply cwp_bind, wp_asks; [apply asks_both; by apply asks_integer|]. intros i Hi.
  eapply cwp_bind, wp_asks; [apply asks_both; by apply asks_strcompat|]. intros st Hst.
  destruct (ptrcompat_ok hdl l r cl cr) as (o & Eo & _). apply cwp_bind. rewrite Eo. cbn.
  destruct (types_compat l r || i || st && _ || bool_decide (is_Some o)) eqn:Ec; [|done].
  apply wp_new_type; [apply laws|]. apply t_compare; [done|]. unfold comparable.
  rewrite !orb_true_iff, andb_true_iff, orb_true_iff, bool_decide_eq_true in Ec. rewrite Eo.
  destruct Ec as [[[?|?%Hi]|[?%Hst ?]]|[t ->]]; [by left|by right; left|right; right; left; tauto|]. right. right. right. by exists t.
Qed.

(** The index of an array is within its bounds. *)
Lemma wp_bounds type (Q : cook_state → bool → Prop) E : inv s → (∀ b, (b = false → in_bounds l r type) → Q s b) →
  wp (out_of_bounds l r type) Q E s.
Proof using Hl.
  intros Hinv HQ. unfold out_of_bounds. apply cwp_bind.
  assert (∀ checked : bool, checked = true → wp (mret ((kind_of l =? CTF_K_ARRAY) && checked &&
    match const_value r, ctf_array_nelems (dn_ctfp (common l)) type with Some v, Some n => n <=? v | _, _ => false end)) Q E s) as Hgo.
  { intros ? ->. apply cwp_ret, HQ. intros Hb v n Hk Hv Hn. rewrite Hk, Hv, Hn in Hb. cbn in Hb. by apply Z.leb_gt in Hb. }
  destruct l; try (by apply cwp_ret, Hgo). inversion Hl; subst. eapply cwp_bind, wp_get_id; [done|done|].
  intros t i _ _ Hva. apply cwp_ret, Hgo. by rewrite (va_kind _ _ _ _ _ _ Hva).
Qed.

(** The type of a sum, and whether it is a pointer to user space. *)
Lemma add_type_ok op (lb li rb ri : bool) o (Q : cook_state → dt_tid * bool → Prop) : op ∈ [DT_TOK_ADD; DT_TOK_SUB] →
  (lb = true ↔ addable hdl l) → (li = true ↔ integer l) → (rb = true ↔ addable hdl r) → (ri = true ↔ integer r) →
  dt_node_is_ptrcompat hdl l r = mret o →
  (∀ t u, valid (tid_ctfp t) (tid_type t) → add_type hdl hdc op l r t → Q s (t, u)) →
  wp ((if li && ri then t ← ask (dt_type_promote hdl l r); mret (t, false)
       else if lb && ri then mret (mk_tid (dn_ctfp (common l)) (dn_type (common l)), has_flag l DT_NF_USERLAND)
       else if li && rb && bool_decide (op = DT_TOK_ADD) then mret (mk_tid (dn_ctfp (common r)) (dn_type (common r)), has_flag r DT_NF_USERLAND)
       else if lb && rb && bool_decide (op = DT_TOK_SUB) && bool_decide (is_Some o) then mret (dt_ptrdiff_t hdc, false)
       else xyerror D_OP_INCOMPAT) : ck (dt_tid * bool)) Q (stays s) s.
Proof using Hl Hr laws.
  intros Hop Hlb Hli Hrb Hri Ho HQ. destruct (typed_agree _ _ Hl) as [Vl _ _], (typed_agree _ _ Hr) as [Vr _ _].
  destruct (li && ri) eqn:E1.
  { apply andb_true_iff in E1 as [Il%Hli Ir%Hri]. apply cwp_bind.
    destruct (promote_ok s l r Hl Hr (integer_kind _ Il) (integer_kind _ Ir)) as [[k E]|(t & E & Hv)]; rewrite E.
    - split; [done|]. unfold try_again. cbn. by destruct (k =? EDT_COMPILER).
    - apply cwp_ret, HQ; [done|by constructor]. }
  destruct (lb && ri) eqn:E2.
  { apply andb_true_iff in E2 as [Il%Hlb Ir%Hri]. apply cwp_ret, HQ; [done|by constructor]. }
  destruct (li && rb && bool_decide (op = DT_TOK_ADD)) eqn:E3.
  { rewrite !andb_true_iff, bool_decide_eq_true in E3. destruct E3 as [[Il%Hli Ir%Hrb] ->]. apply cwp_ret, HQ; [done|by constructor]. }
  destruct (lb && rb && bool_decide (op = DT_TOK_SUB) && bool_decide (is_Some o)) eqn:E4; [|done].
  rewrite !andb_true_iff, !bool_decide_eq_true in E4. destruct E4 as [[[Il%Hlb Ir%Hrb] ->] [t ->]].
  apply cwp_ret, HQ; [apply laws|by econstructor].
Qed.

Lemma add_ok op : inv s → op ∈ [DT_TOK_ADD; DT_TOK_SUB] →
  wp (cook_add_type hdl hdc eattr pcb_amin c op l r) (retyped s c (min_attr l r) (op2_type hdl hdc op l r)) (stays s) s.
Proof using All.
  intros Hinv Hop. unfold cook_add_type. eapply cwp_bind, wp_asks; [by apply asks_addable|]. intros lb Hlb.
  eapply cwp_bind, wp_asks; [by apply asks_integer|]. intros li Hli. eapply cwp_bind, wp_asks; [by apply asks_addable|]. intros rb Hrb.
  eapply cwp_bind, wp_asks; [by apply asks_integer|]. intros ri Hri.
  destruct (ptrcompat_ok hdl l r cl cr) as (o & Eo & _). apply cwp_bind. rewrite Eo. unfold wp at 1. cbn [ask mret comp_ret].
  apply cwp_bind. eapply add_type_ok; [done..|]. intros t u Hv Ht. apply cwp_bind, wp_bounds; [done|]. intros b Hb. destruct b; [done|].
  apply cwp_bind, wp_attr; [|done]. intros Hs. apply cwp_ret. set (c1 := mk_common _ _ _ _).
  assert (agree c1) as Ha by by apply agree_attr, agree_assign. assert (plain c → plain c1) as Hp by by apply plain_assign.
  assert (op2_type hdl hdc op l r (type_of c1)) as Ht1.
  { replace (type_of c1) with t by by destruct t. apply t_add; [done|done|by apply Hb]. }
  destruct u; split_and!; try done; [apply agree_or; [done|set_solver]|]. intros Hpc. apply plain_or; [by apply Hp|set_solver].
Qed.

Lemma asgn_add_ok op : op ∈ [DT_TOK_ADD_EQ; DT_TOK_SUB_EQ] →
  wp (if dt_node_is_string hdl l || dt_node_is_string hdl r then xyerror D_OP_INCOMPAT
      else
        i ← ask (both dt_node_is_integer l r);
        if (i : bool) then asgn_common eattr pcb_amin c l r
        else
          pl ← ask (dt_node_is_pointer hdl l); vl ← ask (dt_node_is_vfptr l);
          if negb pl || (vl : bool) then xyerror D_OP_VFPTR
          else
            ri ← ask (dt_node_is_integer r); p ← ask (dt_node_is_ptrcompat hdl l r);
            if negb ri && negb (bool_decide (is_Some p)) then xyerror D_OP_INCOMPAT else asgn_common eattr pcb_amin c l r)
    (retyped s c (min_attr l r) (op2_type hdl hdc op l r)) (stays s) s.
Proof using All.
  intros Hop. destruct (dt_node_is_string hdl l) eqn:Sl; [done|]. destruct (dt_node_is_string hdl r) eqn:Sr; [done|]. cbn [orb].
  eapply cwp_bind, wp_asks; [apply asks_both; by apply asks_integer|]. intros i Hi. destruct i.
  { apply asgn_common_ok. intros Hm. eapply t_asgn_add; [done..| |done]. left. by apply Hi. }
  eapply cwp_bind, wp_asks; [by apply asks_pointer|]. intros pl Hpl. eapply cwp_bind, wp_asks; [by apply asks_vfptr|]. intros vl Hvl.
  destruct pl, vl; try done. cbn [negb orb]. eapply cwp_bind, wp_asks; [by apply asks_integer|]. intros ri Hri.
  destruct (ptrcompat_ok hdl l r cl cr) as (o & Eo & _). apply cwp_bind. rewrite Eo. unfold wp at 1. cbn [ask mret comp_ret].
  destruct (negb ri && negb (bool_decide (is_Some o))) eqn:Eb; [done|]. apply asgn_common_ok. intros Hm.
  eapply t_asgn_add; [done..| |done]. right. split_and!; [by apply Hpl|intros Hv; by apply Hvl in Hv|].
  destruct ri; [left; by apply Hri|]. right. cbn [negb andb] in Eb. apply negb_false_iff, bool_decide_eq_true in Eb as [t ->]. by exists t.
Qed.

Lemma cook_op2_type_ok op : inv s →
  wp (cook_op2_type hdl hdc eattr pcb_amin c op l r) (retyped s c (min_attr l r) (op2_type hdl hdc op l r)) (stays s) s.
Proof using All.
  intros Hinv. unfold cook_op2_type. pose proof (typed_agree _ _ Hl) as Al. pose proof (typed_agree _ _ Hr) as Ar.
  destruct op; lazymatch goal with
    | |- wp (xyerror _) _ _ _ => done
    | |- wp (cook_compare_type _ _ _ _ _ _) _ _ _ => by apply compare_ok
    | |- wp (cook_add_type _ _ _ _ _ _ _ _) _ _ _ => apply add_ok; [done|repeat constructor]
    | |- wp (if _ || _ then xyerror D_OP_INCOMPAT else _) _ _ _ => apply asgn_add_ok; repeat constructor
    | |- context [both dt_node_is_integer] => eapply cwp_bind, wp_integers; [intros Il Ir|done]
    | |- context [both dt_node_is_arith] => eapply cwp_bind, wp_yes; [apply asks_both; by apply asks_arith|intros [Il Ir]|done]
    | |- context [both dt_node_is_scalar] => eapply cwp_bind, wp_yes; [apply asks_both; by apply asks_scalar|intros [Il Ir]|done]
    | _ => idtac
    end; lazymatch goal with
    | |- wp (promote _ _ _ _ _ _) _ _ _ => apply wp_promote; [first [by apply integer_kind|by apply arith_kind]..|intros t Ht]
    | |- wp (asgn_common _ _ _ _ _) _ _ _ => apply asgn_common_ok; intros Hm
    | |- wp (assign_attr _ _ _ _) _ _ _ => apply wp_new_type; [apply laws|]
    | |- wp (mbind _ _) _ _ _ => apply wp_propagated; [done|]
    | _ => idtac
    end; try (econstructor; [solve [repeat constructor]|done..]).
  rewrite (typed_not_dyn _ _ Hl), (typed_not_dyn _ _ Hr). apply wp_propagated; [done|apply t_comma].
Qed.

Lemma cook_op3_type_ok x : typed s x →
  wp (cook_op3_type hdl eattr pcb_amin c x l r)
    (λ s' c', retyped s c (dt_attr_min (dn_attr (common x)) (min_attr l r)) (op3_type hdl l r) s' c' ∧ scalar x) (stays s) s.
Proof using All.
  intros Hx. unfold cook_op3_type. eapply cwp_bind, wp_yes; [apply asks_scalar; by eapply typed_cooked|intros Hsc|done].
  rewrite (typed_not_dyn _ _ Hl), (typed_not_dyn _ _ Hr). cbn [orb].
  eapply cwp_bind, wp_asks; [apply asks_both; by apply asks_integer|]. intros i Hi.
  eapply cwp_bind, wp_asks; [apply asks_both; by apply asks_strcompat|]. intros st Hst.
  destruct (ptrcompat_ok hdl l r cl cr) as (o & Eo & Ho). apply cwp_bind. rewrite Eo. unfold wp at 1. cbn [ask mret comp_ret].
  destruct (typed_agree _ _ Hl) as [Vl _ _], (typed_agree _ _ Hr) as [Vr _ _].
  apply cwp_bind, wp_impl with (Q := λ s' t, s' = s ∧ valid (tid_ctfp t) (tid_type t) ∧ op3_type hdl l r t) (E := stays s); [|intros s' t (-> & Hv & Ht)|done].
  - destruct (types_compat l r) eqn:Et; [by split_and!; [..|constructor]|]. destruct i.
    { destruct Hi as [[Il Ir] _]; [done|].
      destruct (promote_ok s l r Hl Hr (integer_kind _ Il) (integer_kind _ Ir)) as [[k E]|(t & E & Hv)]; rewrite E.
      - split; [done|]. unfold try_again. cbn. by destruct (k =? EDT_COMPILER).
      - split_and!; [done|done|by apply t_ints]. }
    destruct (st && _) eqn:Es.
    { apply andb_true_iff in Es as [[Sl Sr]%Hst Hs%orb_true_iff]. split_and!; [done|apply laws|by apply t_strings]. }
    destruct o as [t|]; [|done]. split_and!; [done| |by apply t_ptrs].
    destruct (Ho t eq_refl) as [-> | ->]; by apply (law_resolve _ _ _ _ _ laws).
  - eapply wp_impl; [apply wp_new_type; [exact Hv|exact Ht]| |done]. by intros s' c' HQ.
Qed.

End Op2.

(** A cast to the type [l]. *)
Lemma cook_cast_type_ok s c cl r : agree cl → typed s r →
  wp (cook_cast_type hdl hdc eattr pcb_amin c (TypeName cl) r)
    (retyped s c (min_attr (TypeName cl) r) (op2_type hdl hdc DT_TOK_LPAR (TypeName cl) r)) (stays s) s.
Proof using laws.
  intros Ha Hr. pose proof (typed_cooked _ _ Hr) as cr. assert (has_flag (TypeName cl) DT_NF_COOKED = true) as Hc by apply Ha.
  unfold cook_cast_type. eapply cwp_bind, wp_asks; [by apply asks_scalar|]. intros ls Hls.
  eapply cwp_bind, wp_asks; [by apply asks_scalar|]. intros rs Hrs. eapply cwp_bind, wp_asks; [by apply asks_pointer|]. intros rp Hrp.
  eapply cwp_bind, wp_asks; [by apply asks_strcompat|]. intros rst Hrst. match goal with |- wp (if ?b then _ else _) _ _ _ => destruct b eqn:Eb end; [|done].
  apply (wp_propagated _ _ (TypeName cl)); [done|]. apply t_cast. unfold castable.
  rewrite !orb_true_iff, !andb_true_iff, !orb_true_iff, !Z.eqb_eq in Eb. rewrite Hls, Hrs, Hrp, Hrst in Eb.
  destruct Eb as [[[[?|?]|?]|?]|[? [[?|?]|?]]]; auto 12.
Qed.

Lemma wp_not_translated s e (Q : cook_state → unit → Prop) E : inv s → typed s e → Q s tt → wp (not_translated hdl e) Q E s.
Proof using laws.
  intros Hinv He HQ. pose proof (typed_not_dyn _ _ He) as Hd. unfold not_translated. destruct e; rewrite ?Hd; try (by apply cwp_ret).
  inversion He; subst. eapply cwp_bind, wp_get_id; [done|done|]. intros t i _ _ Hva. destruct (va_plain _ _ _ _ _ _ Hva) as [-> _].
  rewrite (va_kind _ _ _ _ _ _ Hva). by apply cwp_ret.
Qed.

(** The common part [c] of a unary operator with its type. *)
Definition retyped1 (s : cook_state) (c : dt_common) (op : tok) (x : dt_node) : cook_state → dt_common → Prop := λ s' c',
  s' = s ∧ agree c' ∧ (op ≠ DT_TOK_DEREF → plain c → plain c') ∧ op1_type hdl hdc op x (type_of c').

Section Op1.
Context (s : cook_state) (c : dt_common) (x : dt_node).
Hypothesis Hinv : inv s.
Hypothesis Hx : typed s x.

Let cx : has_flag x DT_NF_COOKED = true := typed_cooked s x Hx.

Lemma op1_new_type op t : valid (tid_ctfp t) (tid_type t) → op1_type hdl hdc op x t → retyped1 s c op x s (assign_type hdl c t).
Proof using Type. intros Hv Ht. split_and!; [done|by apply agree_assign|intros _; apply plain_assign|by destruct t]. Qed.

Lemma op1_propagated op : op1_type hdl hdc op x (ty x) → wp (ask (propagate x c)) (retyped1 s c op x) (stays s) s.
Proof using Hx.
  intros Ht. destruct (propagate_ok hdl valid x c (typed_agree _ _ Hx)) as (c' & E & Ha & Hp & Et & _). rewrite E.
  split_and!; [done|done|done|by rewrite Et].
Qed.

Lemma cook_deref_ok : wp (cook_deref hdl c x) (retyped1 s c DT_TOK_DEREF x) (stays s) s.
Proof using All.
  destruct (typed_agree _ _ Hx) as [Vx _ _]. unfold cook_deref. apply cwp_bind, wp_not_translated; [done..|]. set (fp := dn_ctfp (common x)) in *.
  apply cwp_bind, wp_impl with (E := stays s) (Q := λ s' t, s' = s ∧ valid fp t ∧
    (kind_of x = CTF_K_POINTER ∧ t = ctf_type_reference fp (base_of x) ∨ kind_of x = CTF_K_ARRAY ∧ ctf_array_info fp (base_of x) = Some t)).
  - destruct (Z.eqb_spec (kind_of x) CTF_K_ARRAY) as [Ek|_].
    + destruct (ctf_array_info fp (base_of x)) as [t|] eqn:Ei; [|done]. split_and!; [done|by eapply (law_array _ _ _ _ _ laws)|by right].
    + destruct (Z.eqb_spec (kind_of x) CTF_K_POINTER) as [Ek|_]; [|done].
      split_and!; [done|by apply (law_reference _ _ _ _ _ laws)|by left].
  - intros s' t (-> & Hv & Ht). set (k := ctf_type_kind fp (ctf_type_resolve fp t)).
    destruct ((k =? CTF_K_INTEGER) && is_void_type fp (ctf_type_resolve fp t)) eqn:Ev; [done|].
    destruct (Z.eqb_spec k CTF_K_FUNCTION) as [Ef|Ef]; [done|]. apply cwp_ret.
    assert (op1_type hdl hdc DT_TOK_DEREF x (mk_tid fp t)) as Hty.
    { apply t_deref; [done|done|]. intros Ek. fold fp k in Ek. rewrite Ek in Ev. done. }
    set (c1 := type_assign hdl c fp t). assert (agree c1) as Ha by by apply agree_assign.
    assert (∀ (b : bool) f c', f ∈ [DT_NF_LVALUE; DT_NF_WRITABLE; DT_NF_USERLAND; DT_NF_COOKED] → agree c' → agree (if b then or_flag c' f else c')) as Hor.
    { intros [] f c' Hf Hc; [by apply agree_or|done]. }
    assert (∀ (b : bool) f c', type_of (if b then or_flag c' f else c') = type_of c') as Hto by by intros [].
    split_and!; [done| |done|].
    + apply Hor; [by repeat constructor|]. apply Hor; [by repeat constructor|]. apply Hor; [by repeat constructor|done].
    + by rewrite !Hto.
  - done.
Qed.

Lemma dt_type_pointer_valid fp type t : valid fp type → dt_type_pointer hdc fp type = Some t → valid (tid_ctfp t) (tid_type t).
Proof using laws.
  intros Hv. unfold dt_type_pointer. destruct (ctf_type_pointer fp type) eqn:E1.
  { intros [= <-]. by eapply (law_pointer _ _ _ _ _ laws). }
  destruct (ctf_type_pointer fp (ctf_type_resolve fp type)) eqn:E2.
  { intros [= <-]. eapply (law_pointer _ _ _ _ _ laws); [|done]. by apply (law_resolve _ _ _ _ _ laws). }
  intros (t1 & _ & Hb)%bind_Some. apply bind_Some in Hb as (p & Hp & [= <-]). by eapply (law_add_pointer _ _ _ _ _ laws).
Qed.

Lemma cook_addrof_ok : wp (cook_addrof hdl hdc c x) (retyped1 s c DT_TOK_ADDROF x) (stays s) s.
Proof using All.
  destruct (typed_agree _ _ Hx) as [Vx _ _]. pose proof (typed_lvalue s x Hx) as Hlv. pose proof (typed_not_dyn _ _ Hx) as Hd.
  assert ((∀ c a, x ≠ Var c a) → wp (if dt_node_is_dynamic hdl x then xyerror D_ADDROF_VAR
      else if negb (has_flag x DT_NF_LVALUE) then xyerror D_ADDROF_LVAL
      else if has_flag x DT_NF_BITFIELD then xyerror D_ADDROF_BITFIELD
      else match dt_type_pointer hdc (dn_ctfp (common x)) (dn_type (common x)) with
           | None => xyerror D_TYPE_ERR
           | Some t =>
               let c := assign_type hdl c t in
               mret (if has_flag x DT_NF_USERLAND then or_flag c DT_NF_USERLAND else c)
           end) (retyped1 s c DT_TOK_ADDROF x) (stays s) s) as Hgo.
  { intros Hnv. rewrite Hd. destruct (has_flag x DT_NF_LVALUE) eqn:El; [|done]. destruct (has_flag x DT_NF_BITFIELD) eqn:Eb; [done|]. cbn [negb].
    destruct (dt_type_pointer hdc _ _) as [t|] eqn:Ep; [|done]. apply cwp_ret.
    destruct (op1_new_type DT_TOK_ADDROF t) as (_ & Ha & Hp & Ht).
    { by eapply dt_type_pointer_valid. }
    { apply t_addrof; [by apply Hlv|done|done|done]. }
    destruct (has_flag x DT_NF_USERLAND); split_and!; try done; [apply agree_or; [done|repeat constructor]|].
    intros Hne Hpc. apply plain_or; [by apply Hp|repeat constructor]. }
  unfold cook_addrof. destruct x; try (apply Hgo; intros ? ?; discriminate). done.
Qed.

Lemma cook_incdec_ok op : is_incdec op = true →
  wp (require (dt_node_is_scalar x) D_OP_SCALAR;;
      v ← ask (dt_node_is_vfptr x);
      if (v : bool) then xyerror D_OP_VFPTR
      else if negb (has_flag x DT_NF_LVALUE) then xyerror D_OP_LVAL
      else if negb (has_flag x DT_NF_WRITABLE) then xyerror D_OP_WRITE
      else ask (propagate x c)) (retyped1 s c op x) (stays s) s.
Proof using All.
  intros Hop. eapply cwp_bind, wp_yes; [by apply asks_scalar|intros Hs|done]. eapply cwp_bind, wp_asks; [by apply asks_vfptr|]. intros v Hv.
  destruct v; [done|]. destruct (has_flag x DT_NF_LVALUE) eqn:El; [|done]. destruct (has_flag x DT_NF_WRITABLE) eqn:Ew; [|done].
  apply op1_propagated, t_incdec; [done|done|intros H; by apply Hv in H|]. split; [by eapply typed_lvalue|done].
Qed.

Lemma cook_sizeof_ok :
  wp (if has_flag x DT_NF_BITFIELD then xyerror D_SIZEOF_BITFIELD
      else size ← ask (dt_node_type_size hdl x);
           if size =? 0 then xyerror D_SIZEOF_TYPE else mret (assign_type hdl c (dt_size_t hdc))) (retyped1 s c DT_TOK_SIZEOF x) (stays s) s.
Proof using All.
  destruct (has_flag x DT_NF_BITFIELD) eqn:Eb; [done|]. pose proof (typed_not_dyn _ _ Hx) as Hd.
  assert (∃ n, dt_node_type_size hdl x = mret n) as [n En].
  { unfold dt_node_type_size. rewrite Hd. by destruct x; eexists. }
  apply cwp_bind. rewrite En. unfold wp at 1. cbn [ask mret comp_ret]. destruct (Z.eqb_spec n 0) as [|Hn]; [done|].
  apply op1_new_type; [apply laws|by eapply t_sizeof].
Qed.

Lemma cook_stringof_ok :
  wp (a ← ask (dt_node_is_scalar x); p ← ask (dt_node_is_pointer hdl x); t ← ask (dt_node_is_strcompat x);
      if (a : bool) || (p : bool) || (t : bool) then mret (assign_type hdl c (dt_type_str hdl)) else xyerror D_STRINGOF_TYPE)
    (retyped1 s c DT_TOK_STRINGOF x) (stays s) s.
Proof using All.
  eapply cwp_bind, wp_asks; [by apply asks_scalar|]. intros a Ha. eapply cwp_bind, wp_asks; [by apply asks_pointer|]. intros p Hp.
  eapply cwp_bind, wp_asks; [by apply asks_strcompat|]. intros t Ht. destruct (a || p || t) eqn:Eb; [|done].
  rewrite !orb_true_iff in Eb. apply op1_new_type; [apply laws|]. apply t_stringof.
  destruct Eb as [[?%Ha|?%Hp]|?%Ht]; auto.
Qed.

Lemma cook_op1_type_ok op : wp (cook_op1_type hdl hdc c op x) (retyped1 s c op x) (stays s) s.
Proof using All.
  destruct op; try done; cbn [cook_op1_type]; try (by apply cook_incdec_ok).
  - eapply cwp_bind, wp_yes; [by apply asks_scalar|intros Hs|done]. apply op1_new_type; [apply laws|by apply t_lneg].
  - eapply cwp_bind, wp_yes; [by apply asks_integer|intros Hs|done]. by apply op1_propagated, t_bneg.
  - eapply cwp_bind, wp_yes; [by apply asks_arith|intros Hs|done]. apply op1_propagated, t_sign; [repeat constructor|done].
  - eapply cwp_bind, wp_yes; [by apply asks_arith|intros Hs|done]. apply op1_propagated, t_sign; [repeat constructor|done].
  - apply cook_deref_ok.
  - apply cook_addrof_ok.
  - apply cook_sizeof_ok.
  - apply cook_stringof_ok.
Qed.

End Op1.

End Ops.

End CookOps.
