(* ===== verification/CookTree.v ===== *)
(** * Type checking of trees is sound

    Cooking a tree that can be cooked always has a result: a well-typed tree, or an
    error; the tables of variables are in order again in both cases.  After an
    error about a name that is not known the tree can be cooked again. *)
From S2P Require Import Prelude CLib Ident Node Cg Cook CookInv CookTyped CookOps.
#[local] Open Scope Z_scope.
Import Ident Node Cg Cook CookInv CookTyped CookOps.

Module CookTree.

(** An operator that is not in a list. *)
Ltac absent := match goal with Hin : _ ∈ _ |- _ =>
  repeat (apply elem_of_cons in Hin as [Hin|Hin]; [discriminate Hin|]); by apply elem_of_nil in Hin end.

Section Tree.
Context {ctf : Ctf} {ctfc : CtfCook} (hdl : hdl_types) (hdc : cook_types) (eattr : bool) (pcb_amin : dtrace_attribute).
Context (_dtrace_defattr _dtrace_symattr : dtrace_attribute).
Context (al : idheap → option Z) (yylineno dt_gen : Z).
Context (dt_type_lookup : list Z → option dt_tid) (type_names : Z → list Z).
Context (valid : Z → Z → Prop) (U : Z).
Hypothesis laws : ctf_laws hdl hdc valid dt_type_lookup U.
Hypothesis al_fresh : ∀ h a, al h = Some a → a ≠ 0 ∧ h !! a = None.

#[local] Abbreviation agree := (agree hdl valid).
#[local] Abbreviation typed := (typed hdl hdc eattr pcb_amin valid).
#[local] Abbreviation raw := (raw hdl valid).
#[local] Abbreviation inv := (inv valid dt_gen).
#[local] Abbreviation grows := (grows U).
#[local] Abbreviation room := (room U).

(** ** Trees while variables are created *)

Lemma raw_op2 s c op l r : op ≠ DT_TOK_PTR → raw s (Op2 c op l r) ↔
  raw s l ∧ raw s r ∧ plain c ∧ (op = DT_TOK_LPAR → ∃ ct, l = TypeName ct) ∧
  (op = DT_TOK_ASGN → looked_up l = false ∧ ∀ k, target s l = Some k → k ∈ assigns s r → known s k).
Proof using Type. by destruct op. Qed.

Lemma raw_ptr s c l r : raw s (Op2 c DT_TOK_PTR l r) → ∃ cl scope, l = Id cl scope ∧ (scope = self ∨ scope = this) ∧
  ((∃ cr name, r = Id cr name ∧ plain_name name = true) ∨ ∃ cr a, r = Var cr a ∧ is_var s a).
Proof using Type. destruct l as [| | |cl scope| | | |], r as [| | |cr name|cr a| | |]; try done; intros [? ?]; exists cl, scope; (split_and!; [done|done|]); [left; by exists cr, name|right; by exists cr, a]. Qed.

Section Grows.
Context (K : list (table * list Z)) (n : Z) (s s' : cook_state).
Hypothesis Hg : grows K n s s'.

Lemma var_grows a : is_var s a → is_var s' a.
Proof using Hg. by eapply is_var_grows. Qed.

Lemma key_grows a : is_var s a → key <$> ck_ids s' !! a = key <$> ck_ids s !! a.
Proof using Hg. intros (t & i & Ha & Hi & _). destruct (gr_ids _ _ _ _ _ Hg t a i Ha Hi) as (j & -> & _ & _ & E). rewrite Hi. cbn. by rewrite E. Qed.

Lemma target_grows e : raw s e → target s' e = target s e.
Proof using Hg.
  intros Hr. destruct e as [| | | |c a| |c op l r|]; try done; [by apply key_grows|].
  destruct (decide (op = DT_TOK_PTR)) as [->|Hop]; [|by destruct op].
  apply raw_ptr in Hr as (cl & scope & -> & _ & [(cr & name & -> & _)|(cr & a & -> & Ha)]); [done|]. by apply key_grows.
Qed.

Lemma assigns_grows e : raw s e → assigns s' e = assigns s e.
Proof using Hg.
  induction e as [| | | | |c op x IH|c op l IHl r IHr|c x IHx l IHl r IHr]; try done.
  - intros (Hx & _). cbn. by rewrite IH, target_grows.
  - destruct (decide (op = DT_TOK_PTR)) as [->|Hop].
    + intros (cl & scope & -> & _ & [(cr & name & -> & _)|(cr & a & -> & Ha)])%raw_ptr; done.
    + rewrite raw_op2 by done. intros (Hl & Hr & _). cbn. by rewrite IHl, IHr, target_grows.
  - intros (Hx & Hl & Hr & _). cbn. by rewrite IHx, IHl, IHr.
Qed.

Lemma known_grows k : known s k → known s' k.
Proof using Hg.
  intros (a & t & i & Ha & Hi & Hk & <- & [ty Ht]). destruct (gr_ids _ _ _ _ _ Hg t a i Ha Hi) as (j & Hj & Ek & _ & E).
  exists a, t, j. split_and!; [by apply (gr_members _ _ _ _ _ Hg)|done|congruence|done|]. exists ty. by eapply lookup_weaken, (gr_types _ _ _ _ _ Hg).
Qed.

Lemma raw_grows e : raw s e → raw s' e.
Proof using Hg.
  induction e as [| | | |c a|c op x IH|c op l IHl r IHr|c x IHx l IHl r IHr]; try done.
  - by apply var_grows.
  - intros (Hx & Hu & Hp). split_and!; [by apply IH|done|done].
  - destruct (decide (op = DT_TOK_PTR)) as [->|Hop].
    + intros (cl & scope & -> & Hs & [(cr & name & -> & ?)|(cr & a & -> & Ha)])%raw_ptr; [done|].
      split; [done|]. by apply var_grows.
    + rewrite !raw_op2 by done. intros (Hl & Hr & Hp & Hc & Ha). split_and!; [by apply IHl|by apply IHr|done|done|].
      intros Ho. destruct (Ha Ho) as [Hu Hk]. split; [done|]. intros k. rewrite target_grows, assigns_grows by done. intros Hk1 Hin.
      by eapply known_grows, Hk.
  - intros (Hx & Hl & Hr & Hp). split_and!; [by apply IHx|by apply IHl|by apply IHr|done].
Qed.

Lemma typed_grows e : typed s e → typed s' e.
Proof using Hg.
  induction 1; try (by constructor). constructor; [done|by apply var_grows|].
  by eapply lookup_weaken, (gr_types _ _ _ _ _ Hg).
Qed.

End Grows.

Lemma ptr_type l r t : ¬ op2_type hdl hdc DT_TOK_PTR l r t.
Proof using Type. intros Ht. inversion Ht; subst; try done; absent. Qed.

Lemma cast_type l r t : op2_type hdl hdc DT_TOK_LPAR l r t → ∃ ct, l = TypeName ct.
Proof using Type. intros Ht. inversion Ht; subst; try done; try (by eexists); absent. Qed.

Lemma typed_target s e : typed s e → ∀ k, target s e = Some k → known s k.
Proof using Type.
  destruct 1 as [| | |c a Ha (t & i & Hm & Hi & Hk) Ht| |c op l r _ _ Hl _ Ht|]; try done.
  - intros k. cbn. rewrite Hi. intros [= <-]. exists a, t, i. by split_and!.
  - intros k. destruct op; try done. by apply ptr_type in Ht.
Qed.

Lemma typed_looked_up s e : typed s e → looked_up e = false.
Proof using Type. destruct 1 as [| | | | |c op l r _ _ Hl _ Ht|]; try done. destruct op; try done. by apply ptr_type in Ht. Qed.

(** A well-typed tree can be cooked again. *)
Lemma typed_raw s e : typed s e → raw s e.
Proof using Type.
  induction 1 as [| | | |c op x Ha Hp Hx IHx Ht|c op l r Ha Hp Hl IHl Hr IHr Ht|]; try done.
  { split_and!; [done|by eapply typed_looked_up|done]. }
  destruct (decide (op = DT_TOK_PTR)) as [->|Hop]; [by apply ptr_type in Ht|].
  rewrite raw_op2 by done. split_and!; try done.
  - intros ->. by eapply cast_type.
  - intros _. split; [by eapply typed_looked_up|]. intros k Hk _. eapply typed_target; [exact Hl|exact Hk].
Qed.

(** ** Variables *)

(** The common part of a node for the variable [a]. *)
Definition untyped (s : cook_state) (a : Z) : Prop := ck_types s !! a = None ∧ ∀ i, ck_ids s !! a = Some i → di_ops i = dt_idops_thaw.
Definition cooked_var (s : cook_state) (c : dt_common) (a : Z) : Prop :=
  is_var s a ∧ (agree c ∧ ck_types s !! a = Some (dn_ctfp c, dn_type c) ∨ untyped s a).

Lemma U_pos : 0 <= U.
Proof. pose proof (law_size _ _ _ _ _ laws _ _ (law_int _ _ _ _ _ laws)). lia. Qed.

Lemma same_grows K s : grows K 0 s s.
Proof. apply grows_refl; [apply U_pos|done]. Qed.

Lemma cooked_var_or s c a (b : bool) f : f ∈ [DT_NF_LVALUE; DT_NF_WRITABLE; DT_NF_USERLAND; DT_NF_COOKED] → cooked_var s c a →
  cooked_var s (if b then or_flag c f else c) a.
Proof. intros Hf [Hv [[Ha Ht]|Hu]]; destruct b; split; try done; [left|by left|by right|by right]. split; [by apply agree_or|done]. Qed.

Lemma cooked_var_attr s c a attr : cooked_var s c a → cooked_var s (mk_common (dn_ctfp c) (dn_type c) (dn_flags c) attr) a.
Proof. intros [Hv [[Ha Ht]|Hu]]; split; try done; [left|by right]. split; [by apply agree_attr|done]. Qed.

(** A built-in variable gets its type when it is used. *)
Lemma builtin_type s t a i fp type : inv s → a ∈ members t s → ck_ids s !! a = Some i → variable valid dt_gen s t a i →
  di_ops i = dt_idops_type → ck_types s !! a = None → valid fp type →
  inv (dt_ident_type_assign a fp type s) ∧ ∀ K, grows K 0 s (dt_ident_type_assign a fp type s).
Proof.
  intros Hinv Ha Hi [V1 V2 V3 V4 Vt V5 V6 V7 V8 V9 Vb] Ho Hn Hv. set (s' := dt_ident_type_assign a fp type s).
  assert (changed s s' a i) as Hch.
  { constructor; try done; [cbn; by rewrite insert_id|intros b Hb; cbn; by rewrite lookup_insert_ne]. }
  split.
  - eapply (inv_change valid); try done. constructor; try done; try (intros Ho'; rewrite Ho in Ho'; done).
    + intros fp' type'. cbn. rewrite lookup_insert_eq. by intros [= <- <-].
    + intros fp' type' Ho'. rewrite Ho in Ho'. done.
  - intros K. eapply (grows_change valid); try done; [left; split; [done|]; intros Ho'; rewrite Ho in Ho'; done|]. intros []; cbn; unfold nextoff; cbn; lia.
Qed.

Lemma di_cook_ok s c a (Q : cook_state → dt_common → Prop) (E : cook_state → error → Prop) : inv s → is_var s a →
  (∀ s' c', inv s' → (∀ K, grows K 0 s s') → ck_ids s' = ck_ids s → cooked_var s' c' a → Q s' c') →
  (∀ e, try_again e = false → E s e) → wp (di_cook hdl dt_type_lookup type_names c a) Q E s.
Proof.
  intros Hinv Hv HQ HE. pose proof (λ K, same_grows K s) as Hg.
  unfold di_cook. eapply cwp_bind, (wp_get_id valid dt_gen); [done|done|]. intros t i Ha Hi Hva.
  pose proof Hva as [V1 V2 V3 V4 Vt V5 V6 V7 V8 V9 Vb]. apply cwp_bind. unfold wp at 1, get_type. cbn.
  destruct (ck_types s !! a) as [[fp type]|] eqn:Et; unfold ident_type; rewrite Et; cbn.
  - pose proof (V8 _ _ eq_refl) as Hval. destruct (law_real _ _ _ _ _ laws _ _ Hval) as [H1 H2].
    assert (wp (mret (type_assign hdl c fp type)) Q E s) as Hgo.
    { apply cwp_ret, HQ; [done|done|done|]. split; [done|]. left. split; [by apply agree_assign|done]. }
    destruct (Z.eqb_spec fp 0) as [|_]; [done|]. destruct (Z.eqb_spec type CTF_ERR) as [|_]; [done|]. cbn.
    destruct V3 as [-> | ->]; done.
  - destruct V3 as [Ho|Ho]; rewrite Ho; cbn.
    + apply HQ; [done|done|done|]. split; [done|]. right. split; [done|]. intros j Hj. congruence.
    + destruct (dt_type_lookup _) as [ty|] eqn:El; [|by apply HE]. apply cwp_bind. unfold wp at 1, put_type.
      pose proof (law_lookup _ _ _ _ _ laws _ _ El) as Hval. destruct (builtin_type s t a i _ _ Hinv Ha Hi Hva Ho Et Hval) as [Hinv' Hg'].
      apply cwp_ret, HQ; [done|done|done|]. split; [by apply (var_grows [] 0 s)|]. left. split; [by apply agree_assign|].
      cbn. by rewrite lookup_insert_eq.
Qed.

Lemma ident_cook_ok s c a (Q : cook_state → dt_common * dtrace_attribute → Prop) (E : cook_state → error → Prop) : inv s → is_var s a →
  (∀ s' c' attr, inv s' → (∀ K, grows K 0 s s') → ck_ids s' = ck_ids s → cooked_var s' c' a → Q s' (c', attr)) →
  (∀ e, try_again e = false → E s e) → wp (dt_ident_cook hdl _dtrace_defattr dt_type_lookup type_names c a) Q E s.
Proof.
  intros Hinv Hv HQ HE. unfold dt_ident_cook. apply cwp_bind, di_cook_ok; [done|done| |done]. intros s' c' Hinv' Hg Eids Hc.
  eapply cwp_bind, (wp_get_id valid dt_gen); [done|by destruct Hc|]. intros t i _ _ _. apply cwp_ret, HQ; [done|done|done|].
  apply cooked_var_or; [repeat constructor|done].
Qed.

Lemma attr_var_ok s c a attr (Q : cook_state → dt_node → Prop) (E : cook_state → error → Prop) : cooked_var s c a →
  (∀ c', cooked_var s c' a → Q s (Var c' a)) → (∀ e, try_again e = false → E s e) →
  wp (c ← ask (attr_assign eattr pcb_amin c attr); mret (Var c a)) Q E s.
Proof.
  intros Hc HQ HE. apply cwp_bind. change (ask (attr_assign eattr pcb_amin c attr)) with (assign_attr eattr pcb_amin c attr).
  apply wp_attr; [|by apply HE]. intros _. apply cwp_ret, HQ. by apply cooked_var_attr.
Qed.

(** What is known of the node of a variable that was looked up: it is [k]. *)
Definition found (s : cook_state) (n : dt_node) (k : table * list Z) : Prop :=
  ∃ c a i, n = Var c a ∧ ck_ids s !! a = Some i ∧ key i = k ∧ cooked_var s c a.

Lemma cook_ref_ok s c t a i w (Q : cook_state → dt_node → Prop) (E : cook_state → error → Prop) : inv s → a ∈ members t s →
  ck_ids s !! a = Some i → di_kind i = DT_IDENT_SCALAR →
  (∀ s' n, inv s' → (∀ K, grows K 0 s s') → found s' n (key i) → Q s' n) →
  (∀ s' e, inv s' → (∀ K, grows K 0 s s') → try_again e = false → E s' e) →
  wp (cook_ref hdl eattr pcb_amin _dtrace_defattr dt_type_lookup type_names c a w) Q E s.
Proof.
  intros Hinv Ha Hi Hk HQ HE. assert (is_var s a) as Hv by by exists t, i. unfold cook_ref. apply cwp_bind. unfold wp at 1, get_id. rewrite Hi. cbn [mbind option_bind].
  rewrite Hk. cbn [Z.eqb orb]. apply cwp_bind. apply ident_cook_ok; [done|done| |intros e He; apply HE; [done|intros; apply same_grows|done]].
  intros s' c' attr Hinv' Hg Eids Hc. apply attr_var_ok.
  - apply cooked_var_or; [repeat constructor|]. apply (cooked_var_or _ _ _ true); [repeat constructor|done].
  - intros c2 Hc2. apply HQ; [done|done|]. exists c2, a, i. split_and!; [done|by rewrite Eids|done|done].
  - intros e He. by apply HE.
Qed.

Lemma xcook_ident_ok s c name t create (Q : cook_state → dt_node → Prop) (E : cook_state → error → Prop) : inv s → room 1 s → plain_name name = true →
  (∀ s' n, inv s' → (∀ K, grows K 1 s s') → found s' n (t, name) → Q s' n) →
  (∀ s' e, inv s' → (∀ K, grows K 1 s s') → E s' e) →
  wp (dt_xcook_ident hdl eattr pcb_amin _dtrace_defattr al yylineno dt_gen dt_type_lookup type_names c name t DT_IDENT_SCALAR create) Q E s.
Proof.
  intros Hinv Hroom Hname HQ HE. assert (∀ s1 s2 n, (∀ K, grows K n s1 s2) → n <= 1 → ∀ K, grows K 1 s1 s2) as Hle.
  { intros s1 s2 n Hg Hn K. eapply grows_le; [apply U_pos|exact Hn|done|apply Hg]. }
  unfold dt_xcook_ident. rewrite Hname. cbn [negb]. eapply cwp_bind, (wp_lookup valid dt_gen); [done|intros Hnone|intros a Ha0 Ha Hn].
  - cbn [Z.eqb negb]. destruct create; [|apply HE; [done|intros K; apply (Hle s s 0); [intros; apply same_grows|lia]]].
    eapply cwp_bind, (wp_nextid valid dt_gen U); [done|apply HE; [done|intros K; apply (Hle s s 0); [intros; apply same_grows|lia]]|].
    intros s1 id Hinv1 Hg1 Eids Hmem Hid. apply cwp_bind.
    eapply (wp_insert valid dt_gen U U_pos al yylineno al_fresh _dtrace_defattr s1 t name id); [done| | |done| |].
    + eapply (room_grows U [] 0 1 s); [by rewrite Z.add_0_l|apply Hg1].
    + intros b. rewrite Hmem, Eids. apply Hnone.
    + cbn [Z.eqb]. apply HE; [done|]. by apply (Hle s s1 0).
    + intros a i s2 Hinv2 Hg2 Ha0 Ha Hi Hk Ekey. destruct (Z.eqb_spec a 0) as [|_]; [done|].
      assert (∀ K, grows K 1 s s2) as Hg by (intros K; eapply (grows_trans U K 0 1); [apply Hg1|apply Hg2]).
      assert (∀ s3 K, (∀ K, grows K 0 s2 s3) → grows K 1 s s3) as Hg3.
      { intros s3 K Hg3. eapply (grows_trans U K 1 0); [apply Hg|apply Hg3]. }
      eapply cook_ref_ok; [done|exact Ha|exact Hi|done| |].
      * intros s3 n Hinv3 Hg4 Hf. apply HQ; [done|intros K; by apply Hg3|by rewrite <- Ekey].
      * intros s3 e Hinv3 Hg4 _. apply HE; [done|intros K; by apply Hg3].
  - destruct (Z.eqb_spec a 0) as [|_]; [done|]. cbn [negb]. destruct (member_known valid dt_gen _ _ _ Hinv Ha) as [_ [i Hi]].
    apply cwp_bind. unfold wp at 1, get_id. rewrite Hi. cbn [mbind option_bind].
    destruct (negb (di_kind i =? DT_IDENT_SCALAR) && bool_decide (t = Globals)) eqn:Ek.
    { apply HE; [done|intros K; apply (Hle s s 0); [intros; apply same_grows|lia]]. }
    assert (di_kind i = DT_IDENT_SCALAR) as Hk.
    { destruct (Z.eqb_spec (di_kind i) DT_IDENT_SCALAR) as [|Hne]; [done|]. cbn [negb andb] in Ek. apply bool_decide_eq_false in Ek.
      by apply (in_scalar _ _ _ Hinv t a). }
    assert (key i = (t, name)) as Ekey.
    { unfold key. rewrite (va_hash _ _ _ _ _ _ (in_var _ _ _ Hinv t a i Ha Hi Hk)). unfold name_of in Hn. rewrite Hi in Hn. cbn in Hn. by rewrite Hn. }
    eapply cook_ref_ok; [done|exact Ha|exact Hi|done| |].
    + intros s3 n Hinv3 Hg4 Hf. apply HQ; [done|by apply (Hle s s3 0)|by rewrite <- Ekey].
    + intros s3 e Hinv3 Hg4 _. apply HE; [done|by apply (Hle s s3 0)].
Qed.

(** ** Results *)

(** How a variable is used: not at all yet, read, or read and written. *)
Definition mode (f : Z) : Prop := f = 0 ∨ f = DT_IDFLG_REF ∨ f = Z.lor DT_IDFLG_REF DT_IDFLG_MOD.

(** A well-typed tree, or a variable that is not used yet. *)
Definition result (s : cook_state) (f : Z) (n : dt_node) : Prop :=
  typed s n ∨ f = 0 ∧ ∃ c a, n = Var c a ∧ is_var s a ∧ untyped s a.

(** The tree [e] has become [n]. *)
Record becomes (s : cook_state) (e : dt_node) (s' : cook_state) (n : dt_node) : Prop := {
  be_target : target s' n = target s e;
  be_assigns : assigns s' n ⊆ assigns s e;
  be_nodes : nodes n <= nodes e
}.

(** The variables are in order, and at most [m] new ones were created or given storage. *)
Definition after (K : list (table * list Z)) (m : Z) (s : cook_state) (e : dt_node) (s' : cook_state) (n : dt_node) : Prop :=
  inv s' ∧ grows K m s s' ∧ becomes s e s' n.

Lemma becomes_trans s1 e1 s2 e2 s3 e3 : becomes s1 e1 s2 e2 → becomes s2 e2 s3 e3 → becomes s1 e1 s3 e3.
Proof. intros [H1 H2 H3] [K1 K2 K3]. constructor; [by rewrite K1|by etrans|lia]. Qed.

Lemma becomes_grows K n s s' e : raw s e → grows K n s s' → becomes s e s' e.
Proof. intros Hr Hg. constructor; [by eapply target_grows|by erewrite assigns_grows|done]. Qed.

Lemma after_trans K m1 m2 s1 e1 s2 e2 s3 e3 : after K m1 s1 e1 s2 e2 → after K m2 s2 e2 s3 e3 → after K (m1 + m2) s1 e1 s3 e3.
Proof.
  intros (_ & Hg1 & Hb1) (Hinv & Hg2 & Hb2). split_and!; [done|by eapply grows_trans|by eapply becomes_trans].
Qed.

Lemma after_le K K' m m' s e s' n : m <= m' → K ⊆ K' → after K m s e s' n → after K' m' s e s' n.
Proof. intros Hm HK (Hinv & Hg & Hb). split_and!; [done| |done]. eapply grows_le; [apply U_pos|exact Hm|exact HK|done]. Qed.

Lemma result_raw s f n : result s f n → raw s n.
Proof. intros [Ht|(_ & c & a & -> & Hv & _)]; [by apply typed_raw|done]. Qed.

Lemma result_looked_up s f n : result s f n → looked_up n = false.
Proof. intros [Ht|(_ & c & a & -> & _)]; [by eapply typed_looked_up|done]. Qed.

Lemma result_typed s f n : result s f n → f ≠ 0 → typed s n.
Proof. by intros [Ht|[-> _]]. Qed.

Lemma typed_set_cooked s e : typed s e → typed s (set_common (or_flag (common e) DT_NF_COOKED) e).
Proof.
  assert (∀ c, agree c → agree (or_flag c DT_NF_COOKED)) as Ha by (intros c Hc; apply agree_or; [done|repeat constructor]).
  assert (∀ c, plain c → plain (or_flag c DT_NF_COOKED)) as Hp by (intros c Hc; apply plain_or; [done|repeat constructor]).
  destruct 1; cbn; constructor; auto.
Qed.

(** The end of [dt_node_cook]. *)
Lemma cooked_ok s f n : inv s → mode f → result s f n →
  wp (cooked f n) (λ s' n', (∀ K, after K 0 s n s' n') ∧ result s' f n') (λ _ _, False) s.
Proof.
  intros Hinv Hf Hres.
  assert (∀ c a, n = Var c a → wp (cooked f n) (λ s' n', (∀ K, after K 0 s n s' n') ∧ result s' f n') (λ _ _, False) s) as Hvar.
  { intros c a ->. assert (is_var s a) as Hv by (destruct Hres as [Ht|(_ & ? & ? & [= <- <-] & ? & _)]; [by inversion Ht|done]).
    apply cwp_bind. eapply (wp_add_flags valid dt_gen U); [done|done| | |].
    - destruct Hf as [->|[->| ->]]; unfold use_flags; auto.
    - intros i Hi Ho. destruct Hres as [Ht|[-> _]]; [|by left]. right. inversion Ht; subst. by eexists.
    - intros s' Hinv' Hg Ety. apply cwp_ret. split.
      + intros K. split_and!; [done|apply Hg|]. constructor; [|done..]. by apply (key_grows [] 0).
      + destruct Hres as [Ht|(-> & c' & a' & [= <- <-] & _ & Hn & Ho)].
        * left. eapply (typed_grows [] 0) in Ht; [|apply Hg]. by apply typed_set_cooked in Ht.
        * right. split; [done|]. eexists _, _. split; [done|]. split; [by apply (var_grows [] 0 s)|]. split; [by rewrite Ety|].
          intros j Hj. destruct Hv as (t & i & Ha & Hi & _). destruct (gr_ids _ _ _ _ _ (Hg []) t a i Ha Hi) as (j' & Hj' & _ & Eo & _).
          rewrite Hj in Hj'. injection Hj' as <-. rewrite Eo. by apply Ho. }
  destruct Hres as [Ht|(_ & c & a & En & _)]; [|by eapply Hvar].
  destruct n as [| | | |c a| | |]; try (by eapply Hvar); apply cwp_ret;
    (split; [intros K; split_and!; [done|apply same_grows|by constructor]|left; by apply (typed_set_cooked _ _ Ht)]).
Qed.

(** ** Names *)

#[local] Abbreviation cook_var := (dt_cook_var hdl eattr pcb_amin _dtrace_defattr dt_gen dt_type_lookup type_names).
#[local] Abbreviation variable_node := (cook_variable hdl eattr pcb_amin _dtrace_defattr dt_gen dt_type_lookup type_names).
#[local] Abbreviation name_node := (cook_name hdl eattr pcb_amin _dtrace_defattr al yylineno dt_gen dt_type_lookup type_names).
#[local] Abbreviation xcook := (dt_xcook_ident hdl eattr pcb_amin _dtrace_defattr al yylineno dt_gen dt_type_lookup type_names).

Lemma cooked_var_result s c a f : inv s → cooked_var s c a →
  (f ≠ 0 → ∀ i, ck_ids s !! a = Some i → dt_ident_unref i dt_gen = false) → result s f (Var c a).
Proof.
  intros Hinv [Hv [[Ha Ht]|Hu]] Hf; [left; by constructor|]. destruct (decide (f = 0)) as [->|Hne].
  { right. split; [done|]. by exists c, a. }
  destruct (is_var_known valid dt_gen _ _ Hinv Hv) as (t & i & Hm & Hi & Hva). destruct Hu as [Hn Ho].
  destruct (va_typed _ _ _ _ _ _ Hva (Ho i Hi) (Hf Hne i Hi)) as [x Hx]. congruence.
Qed.

Lemma cook_var_ok s c a f : inv s → is_var s a → mode f →
  wp (cook_var c a f) (λ s' n, (∀ K, after K 0 s (Var c a) s' n) ∧ result s' f n) (λ s' e, ∀ K, after K 0 s (Var c a) s' (Var c a)) s.
Proof.
  intros Hinv Hv Hf. assert (∀ s', inv s' → (∀ K, grows K 0 s s') → ∀ c' K, after K 0 s (Var c a) s' (Var c' a)) as Haft.
  { intros s' Hinv' Hg c' K. split_and!; [done|apply Hg|]. constructor; [|done..]. by apply (key_grows [] 0). }
  unfold dt_cook_var, is_unref. apply cwp_bind, cwp_bind. eapply (wp_get_id valid dt_gen); [done|done|]. intros t i Ha Hi Hva. apply cwp_ret.
  destruct (has f DT_IDFLG_REF && dt_ident_unref i dt_gen) eqn:Eu; [intros K; apply Haft; [done|intros K0; apply same_grows]|].
  apply cwp_bind, ident_cook_ok; [done|done| |intros e _; apply Haft; [done|intros K; apply same_grows]].
  intros s' c' attr Hinv' Hg Eids Hc. apply attr_var_ok; [done| |intros e _; by apply Haft].
  intros c2 Hc2. split; [by apply Haft|]. apply cooked_var_result; [done|done|]. intros Hne j. rewrite Eids, Hi. intros [= <-].
  destruct Hf as [->|[->| ->]]; done.
Qed.

Lemma cook_variable_ok s c a f : inv s → is_var s a → mode f →
  wpn (variable_node f (Var c a)) (λ s' n, (∀ K, after K 0 s (Var c a) s' n) ∧ result s' f n)
    (λ s' n _, n = Var c a ∧ ∀ K, after K 0 s (Var c a) s' n) s.
Proof.
  intros Hinv Hv Hf. apply wpn_finish, cwp_bind. eapply wp_impl; [by apply cook_var_ok| |].
  - intros s' n [Haft Hres]. destruct (Haft []) as (Hinv' & _). eapply wp_impl; [by apply cooked_ok| |done].
    intros s2 n2 [Haft2 Hres2]. split; [|done]. intros K. by apply (after_trans K 0 0 _ _ s' n).
  - done.
Qed.

(** A node of a variable that has been found stands for its name. *)
Lemma found_becomes s s' e k n : found s' n k → target s e = Some k → 1 <= nodes e → becomes s e s' n.
Proof.
  intros (c & a & i & -> & Hi & <- & _) Ht Hn. constructor; [cbn; by rewrite Hi, Ht|intros x Hx; by apply elem_of_nil in Hx|done].
Qed.

Lemma found_var s n k : found s n k → ∃ c a, n = Var c a ∧ is_var s a.
Proof. intros (c & a & i & -> & _ & _ & Hv & _). by exists c, a. Qed.

Lemma cook_name_ok s c name t create f e : inv s → room 1 s → plain_name name = true → mode f → target s e = Some (t, name) → 1 <= nodes e →
  wpn (child (finish (Id c name) (xcook c name t DT_IDENT_SCALAR create)) id (variable_node f))
    (λ s' n, (∀ K, after K 1 s e s' n) ∧ result s' f n)
    (λ s' n _, (∀ K, grows K 1 s s') ∧ inv s' ∧ (n = Id c name ∨ (∃ c' a, n = Var c' a ∧ is_var s' a) ∧ becomes s e s' n)) s.
Proof.
  intros Hinv Hroom Hname Hf Ht Hn. apply wpn_child, wpn_finish, xcook_ident_ok; [done..| |].
  - intros s1 n1 Hinv1 Hg1 Hfound. pose proof (found_becomes s s1 e _ _ Hfound Ht Hn) as Hb.
    destruct (found_var _ _ _ Hfound) as (c1 & a & -> & Hv). assert (∀ K, after K 1 s e s1 (Var c1 a)) as Haft1 by done.
    eapply wpn_impl; [by apply cook_variable_ok| |].
    + intros s2 n2 [Haft2 Hres]. split; [|done]. intros K. eapply (after_trans K 1 0); [apply Haft1|apply Haft2].
    + intros s2 n2 er [-> Haft2]. assert (∀ K, after K 1 s e s2 (Var c1 a)) as Haft by (intros K; eapply (after_trans K 1 0); [apply Haft1|apply Haft2]).
      destruct (Haft []) as (Hinv2 & _ & Hb2). split_and!; [intros K; apply Haft|done|]. right. split; [|done].
      exists c1, a. split; [done|]. destruct (Haft2 []) as (_ & Hg2 & _). by apply (var_grows [] 0 s1).
  - intros s1 e1 Hinv1 Hg1. split_and!; [done|done|by left].
Qed.

(** ** New variables *)

Lemma wp_seq {A B C} (m1 : ck A) (m2 : ck B) (m3 : ck C) Q E s : wp (m1;; m2) (λ s' _, wp m3 Q E s') E s → wp (m1;; m2;; m3) Q E s.
Proof. unfold wp, mbind, ck_bind. destruct (m1 s) as [[s1 [x|e]]|]; [|done..]. by destruct (m2 s1) as [[s2 [y|e]]|]. Qed.

(** The new variable [a] of [s] has got a type and is used in [s']. *)
Definition got (s s' : cook_state) (a fp type : Z) : Prop :=
  inv s' ∧ (∀ K, (∀ k, key <$> ck_ids s !! a = Some k → k ∈ K) → grows K 1 s s') ∧ is_var s' a ∧ ck_types s' !! a = Some (fp, type).

Lemma adopt_ok {A} s a fp type alignment k (m : ck A) Q E : inv s → room 1 s → is_var s a → untyped s a → valid fp type → 0 <= k <= 4 →
  alignment = 2 ^ k →
  (∀ s', adopted valid dt_gen U s s' a fp type → wp m Q E s') →
  wp (put_type a (mk_tid fp type);; set_storage_of a alignment (u32 (ctf_type_size fp type));; m) Q E s.
Proof.
  intros Hinv Hroom Hv [Hn Ho] Hval Hk -> HQ. destruct (is_var_known valid dt_gen _ _ Hinv Hv) as (t & i & Ha & Hi & Hva).
  pose proof (law_size _ _ _ _ _ laws _ _ Hval) as Hs. destruct (Hroom t) as [Hr _]. pose proof (in_nextoff _ _ _ Hinv t).
  assert (2 ^ k <= 16) as Hk2 by (change 16 with (2 ^ 4); apply Z.pow_le_mono_r; lia).
  rewrite wrap_id by (unfold urange; lia). apply wp_seq. eapply (wp_adopt valid dt_gen U U_pos s t a i); try done; try lia; [by apply Ho|].
  destruct (dt_ident_unref i dt_gen) eqn:Eu; [done|]. destruct (va_typed _ _ _ _ _ _ Hva (Ho i Hi) Eu) as [x Hx]. congruence.
Qed.

Lemma adopted_got s s' a fp type : adopted valid dt_gen U s s' a fp type → inv s' → got s s' a fp type.
Proof.
  intros Had Hinv. pose proof Had as (t & i & i' & Ha & Hi & Hva & Ho & Hu & Hpl & Hch & Hty & _). split_and!; [done| | |done].
  - intros K HK. eapply (adopted_grows valid); [done|]. intros j Hj. apply HK. by rewrite Hj.
  - exists t, i'. rewrite (changed_members _ _ _ _ _ Hch), (ch_ids _ _ _ _ Hch), lookup_insert_eq. split_and!; [done|done|].
    rewrite (pl_kind _ _ Hpl). apply Hva.
Qed.

Lemma got_flags {A} s s' a fp type f (m : ck A) Q E : inv s → adopted valid dt_gen U s s' a fp type → use_flags f →
  has f (Z.lor DT_IDFLG_REF DT_IDFLG_MOD) = true → (∀ s'', got s s'' a fp type → wp m Q E s'') → wp (add_flags a f;; m) Q E s'.
Proof.
  intros Hinv Had Hf Hh HQ. apply cwp_bind. eapply (wp_adopted_flags valid dt_gen U); [done|done|].
  intros s'' Had' _ Hi. apply HQ, adopted_got; [done|by apply Hi].
Qed.

(** The variables without a type are those that are new. *)
Lemma wp_unref s a (Q : cook_state → bool → Prop) E : inv s → is_var s a → (∀ u : bool, (u = true ↔ untyped s a) → Q s u) → wp (is_unref dt_gen a) Q E s.
Proof.
  intros Hinv Hv HQ. unfold is_unref. eapply cwp_bind, (wp_get_id valid dt_gen); [done|done|]. intros t i Ha Hi Hva. apply cwp_ret, HQ.
  destruct Hva as [V1 V2 V3 V4 Vt V5 V6 V7 V8 V9 Vb]. split.
  - intros Hu. assert (di_ops i = dt_idops_thaw) as Ho by (destruct V3 as [|Ho]; [done|]; specialize (Vb Ho); congruence).
    split; [by apply V6|]. intros j Hj. congruence.
  - intros [Hn Ho]. destruct (dt_ident_unref i dt_gen) eqn:Eu; [done|]. destruct (V7 (Ho i Hi) eq_refl) as [x Hx]. congruence.
Qed.

Lemma got_becomes s s' c c' a fp type : is_var s a → got s s' a fp type → becomes s (Var c a) s' (Var c' a).
Proof.
  intros Hv (_ & Hg & _). constructor; [|done..]. destruct (ck_ids s !! a) as [i|] eqn:Hi; [|by destruct Hv as (? & ? & _ & ? & _); congruence].
  apply (key_grows [key i] 1); [|done]. apply Hg. cbn. intros k [= <-]. apply list_elem_of_singleton. done.
Qed.

Lemma got_grows s s' c a fp type : got s s' a fp type → grows (option_list (target s (Var c a))) 1 s s'.
Proof. intros (_ & Hg & _). apply Hg. cbn. intros k ->. apply list_elem_of_singleton. done. Qed.

(** What is well typed is used as an operand. *)
Lemma use_ok {A} s cp f (k : ck A) Q (E : cook_state → error → Prop) : inv s → typed s cp → use_flags f →
  (∀ s', inv s' → (∀ K, grows K 1 s s') → typed s' cp → becomes s cp s' cp → wp k Q E s') →
  wp ((match cp with Var _ idp => add_flags idp f | _ => mret tt end);; k) Q E s.
Proof.
  intros Hinv Ht Hf HQ. assert (∀ s', (∀ K, grows K 0 s s') → ∀ K, grows K 1 s s') as Hle.
  { intros s' Hg K. eapply grows_le; [apply U_pos| |done|apply (Hg K)]. lia. }
  destruct cp as [| | | |c a| | |];
    try (apply cwp_bind, cwp_ret, HQ; [done|apply Hle; intros; apply same_grows|done|by constructor]).
  apply cwp_bind. eapply (wp_add_flags valid dt_gen U); [done|by inversion Ht|done| |].
  { intros i _ _. right. inversion Ht; subst. by eexists. }
  intros s' Hinv' Hg Ety. apply HQ; [done|by apply Hle|by apply (typed_grows [] 0 s)|]. apply (becomes_grows [] 0); [by apply typed_raw|done].
Qed.

Lemma result_var s c a : result s 0 (Var c a) → is_var s a ∧ (typed s (Var c a) ∨ untyped s a).
Proof. intros [Ht|(_ & ? & ? & [= <- <-] & Hv & Hu)]; [|by auto]. inversion Ht; subst. auto. Qed.

Lemma typed_known s c a : typed s (Var c a) → ¬ untyped s a.
Proof. intros Ht [Hn _]. inversion Ht; subst. congruence. Qed.

Lemma operand_ok {A} s cp f (k : dt_node → ck A) Q (E : cook_state → error → Prop) : inv s → room 1 s → result s 0 cp →
  f ∈ [DT_IDFLG_REF; Z.lor DT_IDFLG_REF DT_IDFLG_MOD] →
  (∀ s' cp', inv s' → grows (option_list (target s cp)) 1 s s' → typed s' cp' → becomes s cp s' cp' → wp (k cp') Q E s') →
  (∀ e, try_again e = false → E s e) →
  wp (cp ← give_int64 hdl dt_gen dt_type_lookup cp; (match cp with Var _ idp => add_flags idp f | _ => mret tt end);; k cp) Q E s.
Proof.
  intros Hinv Hroom Hres Hf HQ HE. assert (use_flags f ∧ has f (Z.lor DT_IDFLG_REF DT_IDFLG_MOD) = true) as [Hu Hh].
  { unfold use_flags. each Hf; split; auto 8. }
  assert (typed s cp → wp ((match cp with Var _ idp => add_flags idp f | _ => mret tt end);; k cp) Q E s) as Huse.
  { intros Ht. apply use_ok; [done|done|done|]. intros; by apply HQ. }
  destruct cp as [c v|c str|c|c name|c a|c op x|c op l r|c x l r];
    try (destruct Hres as [Ht|(_ & ? & ? & [=] & _)]; apply cwp_bind, cwp_ret; by apply Huse).
  apply result_var in Hres as [Hv Hcase]. cbn [give_int64]. apply cwp_bind, cwp_bind, wp_unref; [done|done|]. intros u Hun. destruct u.
  - destruct (dt_type_lookup _) as [ty|] eqn:El; [|by apply HE]. pose proof (law_lookup _ _ _ _ _ laws _ _ El) as Hval.
    pose proof (law_int64 _ _ _ _ _ laws _ El) as H8. destruct ty as [fp type]. cbn [tid_ctfp tid_type] in *.
    apply (adopt_ok _ _ _ _ _ 3); [done|done|done|by apply Hun|done|lia|by rewrite H8|]. intros s' Had. apply cwp_ret. cbn [tid_ctfp tid_type].
    eapply got_flags; [done|done|done|done|]. intros s2 Hgot. pose proof Hgot as (Hinv2 & Hg & Hv2 & Hty).
    apply HQ; [done|by eapply got_grows| |by eapply got_becomes]. constructor; [by apply agree_assign|done|done].
  - apply cwp_ret. destruct Hcase as [Ht|Hut]; [|by apply Hun in Hut]. by apply Huse.
Qed.

(** The target [lp] of an assignment of [rp]. *)
Lemma asgn_target_ok {A} s lp rp (k : dt_node → ck A) Q (E : cook_state → error → Prop) : inv s → room 1 s → result s 0 lp → typed s rp →
  (∀ s' lp', inv s' → grows (option_list (target s lp)) 1 s s' → typed s' lp' → becomes s lp s' lp' → wp (k lp') Q E s') →
  wp (lp ← give_type hdl dt_gen lp rp; (match lp with Var _ idp => add_flags idp DT_IDFLG_MOD | _ => mret tt end);; k lp) Q E s.
Proof.
  intros Hinv Hroom Hres Hrp HQ. assert (use_flags DT_IDFLG_MOD) as Hu by (unfold use_flags; auto).
  assert (typed s lp → wp ((match lp with Var _ idp => add_flags idp DT_IDFLG_MOD | _ => mret tt end);; k lp) Q E s) as Huse.
  { intros Ht. apply use_ok; [done|done|done|]. intros; by apply HQ. }
  destruct lp as [c v|c str|c|c name|c a|c op x|c op l r|c x l r];
    try (destruct Hres as [Ht|(_ & ? & ? & [=] & _)]; apply cwp_bind, cwp_ret; by apply Huse).
  apply result_var in Hres as [Hv Hcase]. cbn [give_type]. apply cwp_bind, cwp_bind, wp_unref; [done|done|]. intros u Hun. destruct u.
  - destruct (typed_agree _ _ _ _ _ _ _ Hrp) as [Hval _ _]. set (fp := dn_ctfp (common rp)) in *. set (type := dn_type (common rp)) in *.
    set (c1 := type_assign hdl c fp type). assert (agree c1) as Ha1 by by apply agree_assign.
    eapply cwp_bind, wp_asks; [apply asks_scalar; apply Ha1|]. intros sc Hsc.
    assert (∃ n, 0 <= n <= 4 ∧ (if sc then u32 (ctf_type_size fp type) else if dt_node_is_string hdl (Var c1 a) then 1 else 8) = 2 ^ n) as (n & Hn & Hal).
    { destruct sc; [|destruct (dt_node_is_string hdl (Var c1 a)); [by exists 0|by exists 3]].
      destruct (law_scalar _ _ _ _ _ laws c1 a Hval) as (n & Hn & E2); [by apply Hsc|]. exists n. split; [done|]. cbn in E2. rewrite E2.
      apply wrap_id. unfold urange. assert (2 ^ n <= 2 ^ 4) by (apply Z.pow_le_mono_r; lia). lia. }
    apply (adopt_ok _ _ _ _ _ n); [done|done|done|by apply Hun|done|done|done|]. intros s1 Had.
    assert (∀ s2 c2, adopted valid dt_gen U s s2 a fp type → agree c2 → type_of c2 = mk_tid fp type →
      wp (add_flags a DT_IDFLG_MOD;; k (Var c2 a)) Q E s2) as Hgo.
    { intros s2 c2 Had2 Ha2 E2. eapply got_flags; [done|done|done|done|]. intros s3 Hgot. pose proof Hgot as (Hinv3 & Hg & Hv3 & Hty).
      apply HQ; [done|by eapply got_grows| |by eapply got_becomes]. injection E2 as E2 E3. constructor; [done|done|by rewrite E2, E3]. }
    destruct (has_flag rp DT_NF_USERLAND).
    + apply cwp_bind. eapply (wp_adopted_flags valid dt_gen U); [done|unfold use_flags; auto 8|]. intros s2 Had2 _ _. apply cwp_ret, Hgo; [done| |done].
      apply agree_or; [done|repeat constructor].
    + apply cwp_ret. by apply Hgo.
  - apply cwp_ret. destruct Hcase as [Ht|Hut]; [|by apply Hun in Hut]. by apply Huse.
Qed.

(** ** Operators *)

(** After an error. *)
Definition bad (f : Z) (K : list (table * list Z)) (m : Z) (s : cook_state) (e : dt_node) (s' : cook_state) (n : dt_node) (er : error) : Prop :=
  inv s' ∧ grows K m s s' ∧ (try_again er = true → raw s' n ∧ becomes s e s' n ∧ (f = 0 → looked_up n = false)).

(** [m] cooks the tree [e], whose variables are used as [f] says. *)
Definition cooks (s : cook_state) (e : dt_node) (f : Z) (m : cookn) : Prop :=
  wpn m (λ s' n, after (assigns s e) (nodes e) s e s' n ∧ result s' f n) (bad f (assigns s e) (nodes e) s e) s.

Definition cooker (e : dt_node) (cook : Z → cookn) : Prop :=
  ∀ s f, inv s → raw s e → (f = 0 → looked_up e = false) → room (nodes e) s → mode f → cooks s e f (cook f).

Lemma mode_0 : mode 0.
Proof. by left. Qed.
Lemma mode_ref : mode DT_IDFLG_REF.
Proof. by right; left. Qed.

Lemma cook_id_ok s c name create f : inv s → plain c → plain_name name = true → room 1 s → mode f →
  cooks s (Id c name) f (name_node c name Globals create f).
Proof.
  intros Hinv Hp Hname Hroom Hf. eapply wpn_impl; [by apply (cook_name_ok _ _ _ _ _ _ (Id c name))|..].
  - intros s' n [Haft Hres]. split; [apply Haft|done].
  - intros s' n er (Hg & Hinv' & Hcase). split_and!; [done|apply Hg|]. intros _. destruct Hcase as [->|[(c' & a & -> & Hv) Hb]]; [|done].
    split_and!; [done|by constructor|done].
Qed.

(** The operand of an assignment or of an increment. *)
Lemma cook_target_ok s e f (b : bool) cook : inv s → raw s e → (f = 0 → looked_up e = false) → room (nodes e) s → mode f → cooker e cook →
  cooks s e f (match e with Id c name => if b then name_node c name Globals true f else cook f | _ => cook f end).
Proof.
  intros Hinv Hraw Hlu Hroom Hf Hc. destruct e; try (by apply Hc). destruct b; [|by apply Hc]. destruct Hraw. by apply cook_id_ok.
Qed.

Lemma becomes_op1 s x s' x' c c' op : becomes s x s' x' → becomes s (Op1 c op x) s' (Op1 c' op x').
Proof.
  intros [H1 H2 H3]. constructor; [done| |cbn; lia]. cbn. rewrite H1. intros k. rewrite !elem_of_app. intros [?|?]; [by left|right; by apply H2].
Qed.

Lemma cook_op1_ok s c op x f cook : inv s → raw s (Op1 c op x) → room (1 + nodes x) s → mode f → cooker x cook →
  cooks s (Op1 c op x) f (dt_cook_op1 hdl hdc eattr pcb_amin _dtrace_defattr al yylineno dt_gen dt_type_lookup type_names c op x cook).
Proof.
  intros Hinv (Hraw & Hlu & Hp) Hroom Hf Hc. unfold dt_cook_op1. apply wpn_child.
  assert (room (nodes x) s) as Hroom0 by (eapply room_le; [apply U_pos| |exact Hroom]; lia).
  assert (assigns s x ⊆ assigns s (Op1 c op x)) as HK by (intros k Hk; cbn; apply elem_of_app; by right).
  assert (∀ m s', m <= 1 + nodes x → grows (assigns s x) m s s' → grows (assigns s (Op1 c op x)) (1 + nodes x) s s') as Hle.
  { intros m s' Hm Hg. eapply grows_le; [apply U_pos|exact Hm|exact HK|exact Hg]. }
  eapply wpn_impl; [by apply cook_target_ok; [..|apply mode_0|]| |].
  2:{ intros s1 n1 er (Hinv1 & Hg1 & Hre). split_and!; [done|by apply (Hle (nodes x)); [lia|]|]. intros Her. destruct (Hre Her) as (Hr & Hb & Hlu1).
      split_and!; [split_and!; [done|by apply Hlu1|done]|by apply becomes_op1|done]. }
  intros s1 n1 [(Hinv1 & Hg1 & Hb1) Hres1]. apply wpn_finish.
  assert (room 1 s1) as Hroom1 by (eapply (room_grows U (assigns s x) (nodes x)); [by rewrite Z.add_comm|done]).
  apply operand_ok; [done|done|done|by destruct (is_incdec op); repeat constructor| |].
  - intros s2 cp Hinv2 Hg2 Ht2 Hb2.
    assert (grows (assigns s (Op1 c op x)) (1 + nodes x) s s2) as Hg.
    { rewrite Z.add_comm. eapply grows_trans; [by eapply grows_le; [apply U_pos|..|exact Hg1]|].
      eapply grows_le; [apply U_pos|done| |exact Hg2]. rewrite (be_target _ _ _ _ Hb1). intros k Hk. cbn. apply elem_of_app. by left. }
    apply cwp_bind. eapply wp_impl; [by eapply cook_op1_type_ok| |].
    + intros s3 c1 (-> & Ha & Hp1 & Hty). apply cwp_bind, wp_attr; [|by split_and!]. intros Hst. apply cwp_ret. split.
      * split_and!; [done|exact Hg|]. eapply becomes_op1, becomes_trans; [exact Hb1|exact Hb2].
      * left. constructor; [by apply agree_attr|intros Hop; by apply (Hp1 Hop), Hp|done|done|done|done].
    + intros s3 er [-> Her]. split_and!; [done|exact Hg|by rewrite Her].
  - intros er Her. split_and!; [done|by apply (Hle (nodes x)); [lia|]|by rewrite Her].
Qed.

(** *** Binary operators *)

Lemma becomes_op2 s l r s' l' r' c c' op : op ≠ DT_TOK_PTR → becomes s l s' l' → assigns s' r' ⊆ assigns s r → nodes r' <= nodes r →
  becomes s (Op2 c op l r) s' (Op2 c' op l' r').
Proof.
  intros Hop [H1 H2 H3] H4 H5. constructor; [by destruct op| |cbn; lia]. cbn. rewrite H1. intros k. rewrite !elem_of_app.
  intros [?|[?|?]]; [by left|right; left; by apply H2|right; right; by apply H4].
Qed.

Lemma raw_op2_step K m s l r s' l' r' c op : op ≠ DT_TOK_PTR → raw s (Op2 c op l r) → grows K m s s' → raw s' l' → raw s' r' →
  (op = DT_TOK_LPAR → l' = l) → (op = DT_TOK_ASGN → looked_up l' = false) → target s' l' = target s l → assigns s' r' ⊆ assigns s r →
  raw s' (Op2 c op l' r').
Proof.
  intros Hop. rewrite !raw_op2 by done. intros (Hl & Hr & Hp & Hc & Hk) Hg Hl' Hr' HL Hlu Ht Ha. split_and!; [done|done|done|..].
  - intros Ho. rewrite (HL Ho). by apply Hc.
  - intros Ho. split; [by apply Hlu|]. destruct (Hk Ho) as [_ Hk0]. intros k. rewrite Ht. intros Hk1 Hk2.
    eapply known_grows; [exact Hg|]. apply Hk0; [done|by apply Ha].
Qed.

Section Op2.
Context (s : cook_state) (c : dt_common) (op : tok) (l r : dt_node).
Let e := Op2 c op l r.
Let K := assigns s e.
Hypothesis Hop : op ≠ DT_TOK_PTR.
Hypothesis Hraw : raw s e.
Hypothesis Hroom : room (nodes e) s.

Lemma left_in : assigns s l ⊆ K.
Proof. intros k Hk. unfold K, e. cbn. rewrite !elem_of_app. auto. Qed.
Lemma right_in : assigns s r ⊆ K.
Proof. intros k Hk. unfold K, e. cbn. rewrite !elem_of_app. auto. Qed.

Lemma op2_left f f0 ml k Q : op ≠ DT_TOK_LPAR → (op = DT_TOK_ASGN → f = 0) → cooks s l f ml →
  (∀ s1 l1, inv s1 → grows K (nodes l) s s1 → becomes s l s1 l1 → result s1 f l1 → wpn (k l1) Q (bad f0 K (nodes e) s e) s1) →
  wpn (child ml (λ l, Op2 c op l r) k) Q (bad f0 K (nodes e) s e) s.
Proof.
  intros HL HA Hm Hk. apply wpn_child. pose proof (nodes_pos r). eapply wpn_impl; [exact Hm| |].
  - intros s1 l1 [(Hinv1 & Hg1 & Hb1) Hres]. apply Hk; [done| |done|done].
    eapply grows_le; [apply U_pos|reflexivity|apply left_in|exact Hg1].
  - intros s1 l1 er (Hinv1 & Hg1 & Hre). split_and!; [done|eapply grows_le; [apply U_pos| |apply left_in|exact Hg1]; unfold e; cbn; lia|].
    intros Her. destruct (Hre Her) as (Hr1 & Hb1 & Hlu). pose proof Hraw as Hr0. unfold e in Hr0. rewrite raw_op2 in Hr0 by done.
    destruct Hr0 as (_ & Hrr & _). split_and!; [| |by destruct op].
    + eapply raw_op2_step; try done; [by eapply raw_grows|intros Ho; by apply Hlu, HA|apply Hb1|]. by erewrite assigns_grows.
    + eapply becomes_op2; [done|done| |done]. by erewrite assigns_grows.
Qed.

Lemma op2_right f f0 s1 l1 mr k Q : (op = DT_TOK_LPAR → l1 = l) → (op = DT_TOK_ASGN → looked_up l1 = false) → grows K (nodes l) s s1 → becomes s l s1 l1 → raw s1 l1 →
  cooks s1 r f mr →
  (∀ s2 r2, inv s2 → grows (assigns s r) (nodes r) s1 s2 → becomes s1 r s2 r2 → result s2 f r2 → wpn (k r2) Q (bad f0 K (nodes e) s e) s2) →
  wpn (child mr (Op2 c op l1) k) Q (bad f0 K (nodes e) s e) s1.
Proof.
  intros HL HA Hg1 Hb1 Hl1 Hm Hk. apply wpn_child. pose proof Hraw as Hr0. unfold e in Hr0. rewrite raw_op2 in Hr0 by done.
  destruct Hr0 as (_ & Hrr & _). assert (assigns s1 r = assigns s r) as Er by by eapply assigns_grows.
  unfold cooks in Hm. rewrite Er in Hm. eapply wpn_impl; [exact Hm| |].
  - intros s2 r2 [(Hinv2 & Hg2 & Hb2) Hres]. by apply Hk.
  - intros s2 r2 er (Hinv2 & Hg2 & Hre).
    assert (grows K (nodes e) s s2) as Hg.
    { eapply grows_le; [apply U_pos| |reflexivity|eapply grows_trans; [exact Hg1|eapply grows_le; [apply U_pos|reflexivity|apply right_in|exact Hg2]]].
      unfold e. cbn. lia. }
    split_and!; [done|done|]. intros Her. destruct (Hre Her) as (Hr2 & Hb2 & _).
    assert (assigns s2 r2 ⊆ assigns s r) as Ha2 by (rewrite <- Er; apply Hb2).
    assert (becomes s l s2 l1) as Hbl by (eapply becomes_trans; [exact Hb1|by eapply becomes_grows]).
    split_and!; [| |by destruct op].
    + eapply raw_op2_step; try done; [eapply raw_grows; [exact Hg2|done]|apply Hbl].
    + eapply becomes_op2; [done|done|done|]. apply Hb2.
Qed.

(** Both operands have been cooked. *)
Lemma op2_after s1 l1 s2 r2 c' : inv s2 → grows K (nodes l) s s1 → becomes s l s1 l1 → raw s1 l1 → grows (assigns s r) (nodes r) s1 s2 →
  assigns s2 r2 ⊆ assigns s r → nodes r2 <= nodes r → after K (nodes l + nodes r) s e s2 (Op2 c' op l1 r2).
Proof.
  intros Hinv2 Hg1 Hb1 Hl1 Hg2 Ha Hn. split_and!; [done| |].
  - eapply grows_trans; [exact Hg1|eapply grows_le; [apply U_pos|reflexivity|apply right_in|exact Hg2]].
  - eapply becomes_op2; [done| |done|done]. eapply becomes_trans; [exact Hb1|by eapply becomes_grows].
Qed.

(** The type of the operator. *)
Lemma op2_finish f f0 m n0 s2 l1 r2 : typed s2 l1 → typed s2 r2 → (∀ c', after K (nodes l + nodes r) s e s2 (Op2 c' op l1 r2)) →
  wp m (retyped hdl eattr pcb_amin valid s2 c (min_attr l1 r2) (op2_type hdl hdc op l1 r2)) (stays s2) s2 →
  wpn (finish n0 (c ← m; mret (Op2 c op l1 r2))) (λ s' n, after K (nodes e) s e s' n ∧ result s' f n) (bad f0 K (nodes e) s e) s2.
Proof.
  intros Hl1 Hr2 Haft Hm. pose proof Hraw as Hr0. unfold e in Hr0. rewrite raw_op2 in Hr0 by done. destruct Hr0 as (_ & _ & Hp & _).
  assert (∀ c', after K (nodes e) s e s2 (Op2 c' op l1 r2)) as Haft2.
  { intros c'. eapply after_le; [|reflexivity|apply Haft]. unfold e. cbn. lia. }
  apply wpn_finish, cwp_bind. eapply wp_impl; [exact Hm| |].
  - intros s3 c' (-> & Ha & Hp' & Hty & Hat & Hst). apply cwp_ret. split; [apply Haft2|]. left. rewrite <- Hat in Hst. by constructor; auto.
  - intros s3 er [-> Her]. destruct (Haft2 c) as (? & ? & _). split_and!; [done|done|by rewrite Her].
Qed.

End Op2.

(** The name of an enumerator. *)
Lemma enum_tag_ok s l r : inv s → typed s l → raw s r →
  wp (cook_enum_tag hdl eattr pcb_amin _dtrace_symattr al yylineno l r)
    (λ s' r', s' = s ∧ ((∃ c v, r' = Const c v ∧ typed s r') ∨ r' = r ∧ ∀ c v, r ≠ Const c v)) (stays s) s.
Proof.
  intros Hinv Hl Hraw. unfold cook_enum_tag. destruct r as [c v|c str|c|c name|c a|c o x|c o l1 r1|c x l1 r1];
    try (apply cwp_ret; split; [done|]; right; split; [done|]; discriminate).
  - apply cwp_ret. split; [done|]. left. exists c, v. split; [done|]. destruct Hraw as (? & ? & ?). by constructor.
  - assert (wp (mret (Id c name)) (λ s' r', s' = s ∧ ((∃ c v, r' = Const c v ∧ typed s r') ∨ r' = Id c name ∧ ∀ c0 v, Id c name ≠ Const c0 v)) (stays s) s) as Hgo.
    { apply cwp_ret. split; [done|]. right. split; [done|]. discriminate. }
    destruct (_ && _); [|done]. destruct (ctf_enum_value _ _ _) as [v|]; [|done].
    eapply cwp_bind, (wp_lookup valid dt_gen); [done|intros _|intros a Ha _ _].
    + cbn [Z.eqb negb]. apply cwp_bind, wp_attr; [|done]. intros _. apply cwp_ret. split; [done|]. left. eexists _, _. split; [done|].
      destruct (typed_agree _ _ _ _ _ _ _ Hl) as [Hv _ _]. constructor; [by apply agree_attr, agree_assign| |apply wrap_range; lia].
      destruct Hraw as [Hp _]. apply plain_assign, plain_or; [done|repeat constructor].
    + destruct (Z.eqb_spec a 0); [done|]. done.
Qed.

(** *** Assignments *)

(** There is one variable of a name. *)
Lemma known_one s a i : inv s → is_var s a → ck_ids s !! a = Some i → known s (key i) → is_Some (ck_types s !! a).
Proof.
  intros Hinv Hv Hi (b & t' & j & Hb & Hj & Hk & Ekey & Hty). destruct (is_var_known valid dt_gen _ _ Hinv Hv) as (t & i' & Ha & Hi' & Hva).
  rewrite Hi in Hi'. injection Hi' as <-. pose proof (in_var _ _ _ Hinv t' b j Hb Hj Hk) as Hvb.
  assert (∀ t a i, a ∈ members t s → ck_ids s !! a = Some i → name_of (ck_ids s) a = Some (default [] (di_name i))) as Hname.
  { intros t0 a0 i0 Ha0 Hi0. destruct (in_wf _ _ _ Hinv t0) as [L HL]. unfold members in Ha0. apply elem_of_concat in Ha0 as (n & chain & Hc & Hin).
    destruct (wf_chain _ _ _ HL _ _ _ Hc Hin) as (nm & Hnm & _). unfold name_of in *. rewrite Hi0 in *. cbn in *. by rewrite Hnm. }
  injection Ekey as E1 E2. rewrite (va_hash _ _ _ _ _ _ Hvb), (va_hash _ _ _ _ _ _ Hva) in E1. subst t'.
  assert (b = a) as ->; [|done]. eapply (in_unique _ _ _ Hinv t b a (default [] (di_name i))); [done|done| |by apply (Hname t)].
  rewrite <- E2. by apply (Hname t).
Qed.

(** The target of an assignment while the value is cooked. *)
Lemma result_stays s s1 s2 l r l1 m : inv s1 → raw s r → (∀ k, target s l = Some k → k ∈ assigns s r → known s k) → (∀ k, known s k → known s1 k) →
  becomes s l s1 l1 → result s1 0 l1 → grows (assigns s r) m s1 s2 → result s2 0 l1.
Proof.
  intros Hinv Hraw Hk Hkg Hb [Ht|(_ & c & a & -> & Hv & Hn & Ho)] Hg; [left; by eapply typed_grows|]. right. split; [done|]. exists c, a. split; [done|].
  split; [by eapply var_grows|]. pose proof Hv as (t & i & Ha & Hi & Hkind). split.
  - destruct (ck_types s2 !! a) as [x|] eqn:Ex; [|done]. exfalso.
    assert (key i ∈ assigns s r) as Hin by (eapply (gr_new _ _ _ _ _ Hg); [done|done|by apply Ho|done|by eexists]).
    destruct (known_one s1 a i Hinv Hv Hi) as [y Hy]; [|congruence]. apply Hkg, Hk; [|done].
    rewrite <- (be_target _ _ _ _ Hb). cbn. by rewrite Hi.
  - intros j Hj. destruct (gr_ids _ _ _ _ _ Hg t a i Ha Hi) as (j' & Hj' & _ & Eo & _). rewrite Hj in Hj'. injection Hj' as <-. rewrite Eo. by apply Ho.
Qed.

Lemma asks_argcompat l r : has_flag l DT_NF_COOKED = true → has_flag r DT_NF_COOKED = true →
  asks (dt_node_is_argcompat hdl hdc l r) (dt_node_is_argcompat hdl hdc l r = mret true).
Proof.
  intros Hl Hr. assert (∃ b, dt_node_is_argcompat hdl hdc l r = mret b) as [b Eb].
  { unfold dt_node_is_argcompat. rewrite Hl, Hr. cbn [assert mbind comp_bind mret comp_ret].
    destruct (asks_integer l Hl) as (li & -> & _), (asks_integer r Hr) as (ri & -> & _).
    destruct (asks_strcompat l Hl) as (ls & -> & _), (asks_strcompat r Hr) as (rs & -> & _).
    destruct (ptrcompat_ok hdl l r Hl Hr) as (o & -> & _). cbn [mbind comp_bind mret comp_ret].
    repeat match goal with |- context [if ?b then _ else _] => destruct b end; by eexists. }
  exists b. split; [done|]. rewrite Eb. split; [by intros ->|by intros [= ->]].
Qed.

Lemma cook_asgn_ok s c l r f f0 s1 l1 s2 r2 : raw s (Op2 c DT_TOK_ASGN l r) → room (nodes (Op2 c DT_TOK_ASGN l r)) s →
  grows (assigns s (Op2 c DT_TOK_ASGN l r)) (nodes l) s s1 → becomes s l s1 l1 → inv s1 → result s1 0 l1 →
  inv s2 → grows (assigns s r) (nodes r) s1 s2 → becomes s1 r s2 r2 → typed s2 r2 →
  wpn (finish (Op2 c DT_TOK_ASGN l1 r2) (cook_asgn hdl hdc eattr pcb_amin dt_gen c l1 r2))
    (λ s' n, after (assigns s (Op2 c DT_TOK_ASGN l r)) (nodes (Op2 c DT_TOK_ASGN l r)) s (Op2 c DT_TOK_ASGN l r) s' n ∧ result s' f n)
    (bad f0 (assigns s (Op2 c DT_TOK_ASGN l r)) (nodes (Op2 c DT_TOK_ASGN l r)) s (Op2 c DT_TOK_ASGN l r)) s2.
Proof.
  intros Hraw Hroom Hg1 Hb1 Hinv1 Hl1 Hinv2 Hg2 Hb2 Hr2. pose proof Hraw as Hr0. rewrite raw_op2 in Hr0 by done.
  destruct Hr0 as (_ & Hrr & Hp & _ & Hk). destruct (Hk eq_refl) as [_ Hk1].
  assert (result s2 0 l1) as Hl2 by (eapply (result_stays s s1 s2); try done; by eapply known_grows).
  set (e := Op2 c DT_TOK_ASGN l r) in *. set (K := assigns s e) in *.
  assert (grows K (nodes l + nodes r) s s2) as Hgs2.
  { eapply grows_trans; [exact Hg1|eapply grows_le; [apply U_pos|reflexivity|apply right_in|exact Hg2]]. }
  assert (room 1 s2) as Hroom2 by (eapply (room_grows U K (nodes l + nodes r)); [|exact Hgs2]; eapply room_le; [apply U_pos| |exact Hroom]; unfold e; cbn; lia).
  apply wpn_finish. unfold cook_asgn. eapply cwp_bind, wp_not_translated; [done..|]. apply asgn_target_ok; [done..|].
  intros s3 l3 Hinv3 Hg3 Hl3 Hb3. pose proof (typed_grows _ _ _ _ Hg3 _ Hr2) as Hr3.
  assert (∀ c', after K (nodes e) s e s3 (Op2 c' DT_TOK_ASGN l3 r2)) as Haft.
  { intros c'. split_and!; [done| |].
    - replace (nodes e) with (nodes l + nodes r + 1) by (unfold e; cbn; lia). eapply grows_trans; [exact Hgs2|].
      eapply grows_le; [apply U_pos|reflexivity| |exact Hg3]. rewrite (target_grows _ _ _ _ Hg2 l1), (be_target _ _ _ _ Hb1) by (by eapply result_raw).
      intros k Hin. unfold K, e. cbn [assigns is_asgn]. apply elem_of_app. by left.
    - eapply becomes_op2; [done| |..].
      + eapply becomes_trans; [exact Hb1|]. eapply becomes_trans; [|exact Hb3]. eapply becomes_grows; [by eapply result_raw|exact Hg2].
      + rewrite <- (assigns_grows _ _ _ _ Hg1 r) by done. rewrite (assigns_grows _ _ _ _ Hg3 r2) by by apply typed_raw. apply Hb2.
      + apply Hb2. }
  destruct (typed_agree _ _ _ _ _ _ _ Hl3) as [Hv3 Hc3 _]. destruct (law_real _ _ _ _ _ laws _ _ Hv3) as [H0 _].
  destruct (Z.eqb_spec (dn_ctfp (common l3)) 0) as [|_]; [done|].
  assert (∀ er, try_again er = false → bad f0 K (nodes e) s e s3 (Op2 c DT_TOK_ASGN l1 r2) er) as Hbad.
  { intros er Her. destruct (Haft c) as (_ & Hg & _). split_and!; [done|done|by rewrite Her]. }
  destruct (negb (dt_node_is_string hdl l3) && _) eqn:Earr; [by apply Hbad|].
  eapply cwp_bind, wp_yes; [apply asks_argcompat; [by eapply typed_cooked|by eapply typed_cooked]|intros Hac|by apply Hbad].
  apply cwp_bind. eapply wp_impl; [eapply (asgn_common_ok hdl hdc eattr pcb_amin valid s3 c l3 r2 Hl3 (op2_type hdl hdc DT_TOK_ASGN l3 r2))| |].
  - intros Hm. apply t_asgn; [|done|done]. intros Es. rewrite Es in Earr. cbn [negb andb] in Earr. apply orb_false_iff in Earr as [E1%Z.eqb_neq E2%Z.eqb_neq]. done.
  - intros s4 c' (-> & Ha & Hp' & Hty & Hat & Hst). apply cwp_ret. split; [apply Haft|]. left. rewrite <- Hat in Hst. by constructor; auto.
  - intros s4 er [-> Her]. by apply Hbad.
Qed.

(** *** Variables of [self] and [this] *)

#[local] Abbreviation scoped_node := (cook_scoped hdl eattr pcb_amin _dtrace_defattr al yylineno dt_gen dt_type_lookup type_names).

Lemma after_nil m e s s' n : (∀ K, after K 1 s e s' n) → 1 <= m → after (assigns s e) m s e s' n.
Proof. intros Haft Hm. eapply after_le; [exact Hm|reflexivity|apply Haft]. Qed.

(** A variable that has been found is cooked, if it is used. *)
Lemma scoped_variable s c cl scope r f s1 c1 a : (scope = self ∨ scope = this) → inv s1 → mode f → f ≠ 0 → is_var s1 a →
  (∀ K, grows K 1 s s1) → becomes s (Op2 c DT_TOK_PTR (Id cl scope) r) s1 (Var c1 a) →
  assigns s (Op2 c DT_TOK_PTR (Id cl scope) r) = [] → nodes (Op2 c DT_TOK_PTR (Id cl scope) r) = 3 →
  wpn (child (variable_node f (Var c1 a)) (Op2 c DT_TOK_PTR (Id cl scope)) (λ rp, finish rp (mret rp)))
    (λ s' n, after (assigns s (Op2 c DT_TOK_PTR (Id cl scope) r)) (nodes (Op2 c DT_TOK_PTR (Id cl scope) r)) s (Op2 c DT_TOK_PTR (Id cl scope) r) s' n ∧ result s' f n)
    (bad f (assigns s (Op2 c DT_TOK_PTR (Id cl scope) r)) (nodes (Op2 c DT_TOK_PTR (Id cl scope) r)) s (Op2 c DT_TOK_PTR (Id cl scope) r)) s1.
Proof.
  intros Hsc Hinv1 Hf Hf0 Hv Hg1 Hb1 Has Hn. set (e := Op2 c DT_TOK_PTR (Id cl scope) r) in *.
  assert (∀ s2 n, (∀ K, after K 0 s1 (Var c1 a) s2 n) → after (assigns s e) (nodes e) s e s2 n) as Haft.
  { intros s2 n Haft2. apply after_nil; [|lia]. intros K. apply (after_trans K 1 0 _ _ s1 (Var c1 a)); [by split_and!|apply Haft2]. }
  apply wpn_child. eapply wpn_impl; [by apply cook_variable_ok|..].
  - intros s2 n2 [Haft2 Hres]. apply wpn_finish, cwp_ret. split; [by apply Haft|done].
  - intros s2 n2 er [-> Haft2]. pose proof (Haft s2 _ Haft2) as (Hinv2 & Hg2 & Hb2). split_and!; [done|done|]. intros _.
    destruct Hb2 as [B1 B2 B3]. split_and!; [|constructor|done].
    + split; [done|]. destruct (Haft2 []) as (_ & Hg & _). by eapply var_grows.
    + rewrite <- B1. done.
    + rewrite Has. done.
    + rewrite Hn. cbn. lia.
Qed.

Lemma cook_scoped_ok s c cl scope r t f : inv s → raw s (Op2 c DT_TOK_PTR (Id cl scope) r) → t = (if bool_decide (scope = self) then Tls else Locals) →
  (f = 0 → looked_up (Op2 c DT_TOK_PTR (Id cl scope) r) = false) → room 3 s → mode f →
  cooks s (Op2 c DT_TOK_PTR (Id cl scope) r) f (scoped_node c (Id cl scope) r t f).
Proof.
  intros Hinv Hraw Ht Hlu Hroom Hf. pose proof Hraw as (cl' & scope' & [= <- <-] & Hsc & Hr)%raw_ptr. unfold cook_scoped.
  destruct Hr as [(cr & name & -> & Hname)|(cr & a & -> & Hv)]; apply wpn_child, wpn_finish.
  - apply xcook_ident_ok; [done|eapply room_le; [apply U_pos| |exact Hroom]; lia|done| |].
    + intros s1 n1 Hinv1 Hg1 Hfound. assert (becomes s (Op2 c DT_TOK_PTR (Id cl scope) (Id cr name)) s1 n1) as Hb1.
      { eapply found_becomes; [exact Hfound|by rewrite Ht|done]. }
      destruct Hfound as (c1 & a & i & -> & Hi & Hkey & Hcv). destruct (Z.eqb_spec f 0) as [->|Hf0].
      * apply wpn_finish, cwp_ret. split; [apply after_nil; [intros K; by split_and!|done]|]. by apply cooked_var_result.
      * apply scoped_variable; [done|done|done|done|apply Hcv|done|done|done|done].
    + intros s1 er Hinv1 Hg1. split_and!; [done| |].
      * eapply grows_le; [apply U_pos| |reflexivity|apply Hg1]. done.
      * intros _. split_and!; [|eapply becomes_grows; [done|apply (Hg1 [])]|done]. by apply (raw_grows [] 1 s).
  - apply cwp_ret. assert (f ≠ 0) as Hf0 by (intros ->; by specialize (Hlu eq_refl)). destruct (Z.eqb_spec f 0) as [|_]; [done|].
    assert (∀ K, grows K 1 s s) as Hg. { intros K. eapply grows_le; [apply U_pos| |reflexivity|apply same_grows]. done. }
    apply scoped_variable; [done|done|done|done|done|done| |done|done]. by constructor.
Qed.

(** *** All of them *)

Lemma match_not_const {A} (r : dt_node) (x y : A) : (∀ c v, r ≠ Const c v) → match r with Const _ _ => y | _ => x end = x.
Proof. intros Hnc. destruct r as [c v| | | | | | |]; try done. by destruct (Hnc c v). Qed.

Section Binary.
Context (s : cook_state) (c : dt_common) (op : tok) (l r : dt_node) (cookl cookr : Z → cookn) (f : Z).
Let e := Op2 c op l r.
Hypothesis Hinv : inv s.
Hypothesis Hop : op ≠ DT_TOK_PTR.
Hypothesis Hraw : raw s e.
Hypothesis Hroom : room (nodes e) s.
Hypothesis Hl : cooker l cookl.
Hypothesis Hr : cooker r cookr.

Let left (flags : Z) : cookn :=
  match l with
  | Id ci name => if is_asgn op then name_node ci name Globals true flags else cookl flags
  | _ => cookl flags
  end.
Let typed_stage l1 r1 : cookn :=
  finish (Op2 c op l1 r1) (c ← cook_op2_type hdl hdc eattr pcb_amin c op l1 r1; mret (Op2 c op l1 r1)).
Let good : cook_state → dt_node → Prop := λ s' n, after (assigns s e) (nodes e) s e s' n ∧ result s' f n.
Let wrong := bad f (assigns s e) (nodes e) s e.

Lemma operands_raw : raw s l ∧ raw s r ∧ (op = DT_TOK_ASGN → looked_up l = false).
Proof. pose proof Hraw as Hr0. unfold e in Hr0. rewrite raw_op2 in Hr0 by done. destruct Hr0 as (? & ? & _ & _ & Ha). split_and!; [done..|]. apply Ha. Qed.

Lemma left_ok flags : mode flags → (op = DT_TOK_ASGN ↔ flags = 0) → cooks s l flags (left flags).
Proof.
  intros Hm Hi. destruct operands_raw as (Hrl & Hrr & Ha). pose proof (nodes_pos r).
  apply cook_target_ok; [done|done|intros ->; by apply Ha, Hi| |done|done].
  eapply room_le; [apply U_pos| |exact Hroom]. unfold e. cbn. lia.
Qed.

(** The right operand after the left one. *)
Lemma right_ok s1 flags : inv s1 → grows (assigns s e) (nodes l) s s1 → mode flags → flags ≠ 0 → cooks s1 r flags (cookr flags).
Proof.
  intros Hinv1 Hg1 Hm Hf. destruct operands_raw as (Hrl & Hrr & Ha). apply Hr; [done|by eapply raw_grows|done| |done].
  eapply (room_grows U (assigns s e) (nodes l)); [|exact Hg1]. eapply room_le; [apply U_pos| |exact Hroom]. unfold e. cbn. lia.
Qed.

Lemma typed_stage_ok s1 l1 s2 r2 : typed s1 l1 → grows (assigns s e) (nodes l) s s1 → becomes s l s1 l1 →
  inv s2 → grows (assigns s r) (nodes r) s1 s2 → typed s2 r2 → assigns s2 r2 ⊆ assigns s r → nodes r2 <= nodes r →
  wpn (typed_stage l1 r2) good wrong s2.
Proof.
  intros Hl1 Hg1 Hb1 Hinv2 Hg2 Hr2 Ha Hn. pose proof (typed_grows _ _ _ _ Hg2 _ Hl1) as Hl2. apply op2_finish; [done|done|done|done| |].
  - intros c'. eapply op2_after; try done. by eapply typed_raw.
  - by eapply cook_op2_type_ok.
Qed.

Lemma right_stage_ok s1 l1 flags : mode flags → flags ≠ 0 → typed s1 l1 → inv s1 → grows (assigns s e) (nodes l) s s1 → becomes s l s1 l1 →
  op ≠ DT_TOK_ASGN → op ≠ DT_TOK_LPAR → wpn (child (cookr flags) (Op2 c op l1) (typed_stage l1)) good wrong s1.
Proof.
  intros Hm Hf Hl1 Hinv1 Hg1 Hb1 Hna Hnl. destruct operands_raw as (_ & Hrr & _).
  eapply (op2_right s c op l r Hop Hraw Hroom flags); [done|done|exact Hg1|exact Hb1|by eapply typed_raw|by apply right_ok|].
  intros s2 r2 Hinv2 Hg2 Hb2 Hres2. eapply typed_stage_ok; [exact Hl1|exact Hg1|exact Hb1|done|exact Hg2|by eapply result_typed| |apply Hb2].
  rewrite <- (assigns_grows _ _ _ _ Hg1 r) by done. apply Hb2.
Qed.

(** A comparison. *)
Lemma compare_stage_ok s1 l1 flags : mode flags → flags ≠ 0 → typed s1 l1 → inv s1 → grows (assigns s e) (nodes l) s s1 → becomes s l s1 l1 →
  op ≠ DT_TOK_ASGN → op ≠ DT_TOK_LPAR →
  wpn (child (finish r (cook_enum_tag hdl eattr pcb_amin _dtrace_symattr al yylineno l1 r)) (Op2 c op l1)
         (λ rp', match rp' with
                 | Const _ _ => child (finish rp' (cooked flags rp')) (Op2 c op l1) (typed_stage l1)
                 | _ => child (cookr flags) (Op2 c op l1) (typed_stage l1)
                 end)) good wrong s1.
Proof.
  intros Hm Hf Hl1 Hinv1 Hg1 Hb1 Hna Hnl. destruct operands_raw as (_ & Hrr & _). pose proof (raw_grows _ _ _ _ Hg1 _ Hrr) as Hrr1.
  apply wpn_child, wpn_finish. eapply wp_impl; [by apply enum_tag_ok|..].
  - intros s2 r' (-> & [(cc & v & -> & Ht)|[-> Hnc]]).
    + apply wpn_child, wpn_finish. eapply wp_impl; [apply cooked_ok; [done|done|by left]| |done]. intros s2 n2 [Haft2 Hres2].
      destruct (Haft2 (assigns s r)) as (Hinv2 & Hg2 & Hb2). pose proof (nodes_pos r).
      assert (grows (assigns s r) (nodes r) s1 s2) as Hg2' by (eapply grows_le; [apply U_pos| |reflexivity|exact Hg2]; lia).
      eapply typed_stage_ok; [exact Hl1|exact Hg1|exact Hb1|done|exact Hg2'|by eapply result_typed| |].
      * intros k Hk. apply (be_assigns _ _ _ _ Hb2) in Hk. by apply elem_of_nil in Hk.
      * pose proof (be_nodes _ _ _ _ Hb2) as Hn. cbn in Hn. lia.
    + rewrite match_not_const by done. by apply right_stage_ok.
  - intros s2 er [-> Her]. split_and!; [done| |by rewrite Her]. pose proof (nodes_pos r).
    eapply grows_le; [apply U_pos| |reflexivity|exact Hg1]. unfold e. cbn. lia.
Qed.

Let flags := if is_asgn op then Z.lor DT_IDFLG_REF DT_IDFLG_MOD else DT_IDFLG_REF.

Lemma flags_mode : mode flags ∧ flags ≠ 0.
Proof. unfold flags, mode. destruct (is_asgn op); auto. Qed.

Lemma default_ok : op ≠ DT_TOK_ASGN → op ≠ DT_TOK_LPAR →
  cooks s e f
    (if negb (is_binary op) then finish (Op2 c op l r) (xyerror D_UNKNOWN)
     else child (left flags) (λ lp, Op2 c op lp r)
       (λ lp,
          if is_compare op then
            child (finish r (cook_enum_tag hdl eattr pcb_amin _dtrace_symattr al yylineno lp r)) (Op2 c op lp)
              (λ rp', match rp' with
                      | Const _ _ => child (finish rp' (cooked flags rp')) (Op2 c op lp) (typed_stage lp)
                      | _ => child (cookr flags) (Op2 c op lp) (typed_stage lp)
                      end)
          else child (cookr flags) (Op2 c op lp) (typed_stage lp))).
Proof.
  intros Hna Hnl. destruct flags_mode as [Hm Hf]. destruct (is_binary op); cbn [negb].
  - eapply (op2_left s c op l r Hop Hraw Hroom flags); [done|done|by apply left_ok|]. intros s1 l1 Hinv1 Hg1 Hb1 Hres1.
    pose proof (result_typed _ _ _ Hres1 Hf) as Hl1. destruct (is_compare op); [by apply compare_stage_ok|by apply right_stage_ok].
  - apply wpn_finish. split_and!; [done| |done]. pose proof (nodes_pos e). eapply grows_le; [apply U_pos| |reflexivity|apply same_grows]. lia.
Qed.

Lemma asgn_ok : op = DT_TOK_ASGN →
  cooks s e f
    (child (left 0) (λ lp, Op2 c op lp r)
       (λ lp, child (cookr DT_IDFLG_REF) (Op2 c op lp) (λ rp, finish (Op2 c op lp rp) (cook_asgn hdl hdc eattr pcb_amin dt_gen c lp rp)))).
Proof.
  intros Ho. destruct operands_raw as (_ & Hrr & _).
  eapply (op2_left s c op l r Hop Hraw Hroom 0); [by rewrite Ho|done|by apply left_ok; [apply mode_0|]|]. intros s1 l1 Hinv1 Hg1 Hb1 Hres1.
  eapply (op2_right s c op l r Hop Hraw Hroom DT_IDFLG_REF); [by rewrite Ho|intros _; by eapply result_looked_up|exact Hg1|exact Hb1|by eapply result_raw| |].
  { apply right_ok; [done|done|apply mode_ref|done]. }
  intros s2 r2 Hinv2 Hg2 Hb2 Hres2. unfold e in *. clear e left typed_stage good wrong flags. subst op.
  eapply cook_asgn_ok; [done|done|exact Hg1|exact Hb1|done|done|done|exact Hg2|exact Hb2|by eapply result_typed].
Qed.

Lemma cast_ok : op = DT_TOK_LPAR → ∀ cl, l = TypeName cl →
  cooks s e f
    (child (cookr DT_IDFLG_REF) (Op2 c op l)
       (λ rp, finish (Op2 c op l rp) (c ← cook_cast_type hdl hdc eattr pcb_amin c l rp; mret (Op2 c op l rp)))).
Proof.
  intros Ho cl El. destruct operands_raw as (Hrl & Hrr & _).
  assert (grows (assigns s e) (nodes l) s s) as Hg0. { eapply grows_le; [apply U_pos| |reflexivity|apply same_grows]. by rewrite El. }
  assert (typed s l) as Htl by (rewrite El in *; destruct Hrl; by constructor).
  eapply (op2_right s c op l r Hop Hraw Hroom DT_IDFLG_REF); [done|by rewrite Ho|exact Hg0|by constructor|done| |].
  { apply right_ok; [done|done|apply mode_ref|done]. }
  intros s2 r2 Hinv2 Hg2 Hb2 Hres2. pose proof (result_typed _ _ _ Hres2 ltac:(done)) as Hr2. pose proof (typed_grows _ _ _ _ Hg2 _ Htl) as Hl2.
  apply op2_finish; [done|done|done|done| |].
  - intros c'. assert (becomes s l s l) as Hb0 by by constructor. eapply op2_after; try done; apply Hb2.
  - rewrite El, Ho in *. eapply cook_cast_type_ok; [done| |done]. by apply (typed_agree _ _ _ _ _ _ _ Htl).
Qed.

End Binary.

Lemma cook_op2_ok s c op l r f cookl cookr : inv s → raw s (Op2 c op l r) → (f = 0 → looked_up (Op2 c op l r) = false) →
  room (nodes (Op2 c op l r)) s → mode f → cooker l cookl → cooker r cookr →
  cooks s (Op2 c op l r) f (dt_cook_op2 hdl hdc eattr pcb_amin _dtrace_defattr _dtrace_symattr al yylineno dt_gen dt_type_lookup type_names c op l r cookl cookr f).
Proof.
  intros Hinv Hraw Hlu Hroom Hf Hl Hr. destruct (decide (op = DT_TOK_PTR)) as [->|Hop].
  { pose proof Hraw as (cl & scope & -> & Hsc & Hcase)%raw_ptr. assert (room 3 s) as Hroom3.
    { eapply room_le; [apply U_pos| |exact Hroom]. cbn. pose proof (nodes_pos r). lia. }
    cbn [dt_cook_op2]. destruct Hsc as [->| ->]; cbn [bool_decide decide]; (eapply cook_scoped_ok; [done|done|done|done|done|done]). }
  destruct (decide (op = DT_TOK_LPAR)) as [->|Hnl].
  { pose proof Hraw as Hr0. rewrite raw_op2 in Hr0 by done. destruct Hr0 as (_ & _ & _ & Hc & _). destruct (Hc eq_refl) as [ct ->]. by eapply cast_ok. }
  destruct (decide (op = DT_TOK_ASGN)) as [->|Hna]; [by apply asgn_ok|].
  pose proof (default_ok s c op l r cookl cookr f Hinv Hop Hraw Hroom Hl Hr Hna Hnl) as Hd. by destruct op.
Qed.

(** *** The conditional operator *)

Lemma becomes_op3 s x l r s' x' l' r' c c' : becomes s x s' x' → becomes s l s' l' → becomes s r s' r' →
  becomes s (Op3 c x l r) s' (Op3 c' x' l' r').
Proof.
  intros [_ H1 N1] [_ H2 N2] [_ H3 N3]. constructor; [done| |cbn; lia]. cbn. intros k. rewrite !elem_of_app.
  intros [?|[?|?]]; [left; by apply H1|right; left; by apply H2|right; right; by apply H3].
Qed.

(** One of the operands of [Op3], which [rebuild] puts into its place. *)
Lemma op3_operand s c x l r f s1 y m (rebuild : dt_node → dt_node) (k : dt_node → cookn) Q (n1 : Z) :
  grows (assigns s (Op3 c x l r)) n1 s s1 → raw s y → assigns s y ⊆ assigns s (Op3 c x l r) → n1 + nodes y <= nodes (Op3 c x l r) →
  cooks s1 y DT_IDFLG_REF m →
  (∀ s2 y2, grows (assigns s (Op3 c x l r)) (n1 + nodes y) s s2 → grows (assigns s (Op3 c x l r)) (nodes y) s1 s2 → raw s2 y2 → becomes s y s2 y2 →
     raw s2 (rebuild y2) ∧ becomes s (Op3 c x l r) s2 (rebuild y2) ∧ looked_up (rebuild y2) = false) →
  (∀ s2 y2, inv s2 → grows (assigns s (Op3 c x l r)) (n1 + nodes y) s s2 → grows (assigns s (Op3 c x l r)) (nodes y) s1 s2 → typed s2 y2 → becomes s y s2 y2 →
     wpn (k y2) Q (bad f (assigns s (Op3 c x l r)) (nodes (Op3 c x l r)) s (Op3 c x l r)) s2) →
  wpn (child m rebuild k) Q (bad f (assigns s (Op3 c x l r)) (nodes (Op3 c x l r)) s (Op3 c x l r)) s1.
Proof.
  intros Hg1 Hry HK Hn Hm Hbad Hk. set (e := Op3 c x l r) in *. apply wpn_child. pose proof (becomes_grows _ _ _ _ _ Hry Hg1) as Hb1.
  unfold cooks in Hm. rewrite (assigns_grows _ _ _ _ Hg1 y Hry) in Hm.
  assert (∀ s2, grows (assigns s y) (nodes y) s1 s2 → grows (assigns s e) (n1 + nodes y) s s2 ∧ grows (assigns s e) (nodes y) s1 s2) as Hgg.
  { intros s2 Hg2. assert (grows (assigns s e) (nodes y) s1 s2) as Hg2' by (eapply grows_le; [apply U_pos|reflexivity|exact HK|exact Hg2]).
    split; [by eapply grows_trans|done]. }
  eapply wpn_impl; [exact Hm|..].
  - intros s2 y2 [(Hinv2 & Hg2 & Hb2) Hres]. destruct (Hgg s2 Hg2). apply Hk; [done|done|done|by eapply result_typed|by eapply becomes_trans].
  - intros s2 y2 er (Hinv2 & Hg2 & Hre). destruct (Hgg s2 Hg2) as [Hga Hgb]. split_and!; [done|eapply grows_le; [apply U_pos|exact Hn|reflexivity|done]|].
    intros Her. destruct (Hre Her) as (Hr2 & Hb2 & _). destruct (Hbad s2 y2) as (? & ? & ?); [done|done|done|by eapply becomes_trans|]. done.
Qed.

Lemma cook_op3_ok s c x l r f cookx cookl cookr : inv s → raw s (Op3 c x l r) → room (nodes (Op3 c x l r)) s →
  cooker x cookx → cooker l cookl → cooker r cookr →
  cooks s (Op3 c x l r) f (dt_cook_op3 hdl eattr pcb_amin c cookx cookl cookr x l r).
Proof.
  intros Hinv (Hx & Hl & Hr & Hp) Hroom Cx Cl Cr. unfold dt_cook_op3, cooks. pose proof (nodes_pos x). pose proof (nodes_pos l). pose proof (nodes_pos r).
  assert (assigns s x ⊆ assigns s (Op3 c x l r) ∧ assigns s l ⊆ assigns s (Op3 c x l r) ∧ assigns s r ⊆ assigns s (Op3 c x l r)) as (Kx & Kl & Kr).
  { cbn. split_and!; intros k Hk; rewrite !elem_of_app; auto. }
  set (K := assigns s (Op3 c x l r)) in *. assert (nodes (Op3 c x l r) = 1 + nodes x + nodes l + nodes r) as En by done.
  assert (∀ n s', grows K n s s' → ∀ m, n + m <= nodes (Op3 c x l r) → room m s') as Hrm.
  { intros n s' Hg m Hle. eapply (room_grows U K n); [|exact Hg]. eapply room_le; [apply U_pos|exact Hle|exact Hroom]. }
  apply (op3_operand s c x l r f s x _ _ _ _ 0); [apply same_grows|done|done|lia|apply Cx; [done|done|done|apply (Hrm 0); [apply same_grows|lia]|apply mode_ref]|..].
  { intros s1 x1 Hg Hg' Hrx Hb. split_and!; [split_and!; [done|by eapply (raw_grows _ _ s); [exact Hg|]|by eapply (raw_grows _ _ s); [exact Hg|]|done]| |done].
    apply becomes_op3; [done|by eapply becomes_grows; [|exact Hg]|by eapply becomes_grows; [|exact Hg]]. }
  intros s1 x1 Hinv1 Hg1 _ Hx1 Hb1. rewrite Z.add_0_l in Hg1.
  apply (op3_operand s c x l r f s1 l _ _ _ _ (nodes x)); [done|done|done|lia|apply Cl; [done|by eapply (raw_grows _ _ s); [exact Hg1|]|done|apply (Hrm (nodes x)); [done|lia]|apply mode_ref]|..].
  { intros s2 l2 Hg Hg' Hrl Hb. pose proof (typed_raw _ _ (typed_grows _ _ _ _ Hg' _ Hx1)). split_and!; [split_and!; [done|done|by eapply (raw_grows _ _ s); [exact Hg|]|done]| |done].
    apply becomes_op3; [eapply becomes_trans; [exact Hb1|eapply becomes_grows; [by apply typed_raw|exact Hg']]|done|by eapply becomes_grows; [|exact Hg]]. }
  intros s2 l2 Hinv2 Hg2 Hg12 Hl2 Hb2. pose proof (typed_grows _ _ _ _ Hg12 _ Hx1) as Hx2.
  assert (becomes s x s2 x1) as Hbx2 by (eapply becomes_trans; [exact Hb1|eapply becomes_grows; [by apply typed_raw|exact Hg12]]).
  apply (op3_operand s c x l r f s2 r _ _ _ _ (nodes x + nodes l)); [done|done|done|lia|apply Cr; [done|by eapply (raw_grows _ _ s); [exact Hg2|]|done|apply (Hrm (nodes x + nodes l)); [done|lia]|apply mode_ref]|..].
  { intros s3 r3 Hg Hg' Hrr Hb. pose proof (typed_raw _ _ (typed_grows _ _ _ _ Hg' _ Hx2)). pose proof (typed_raw _ _ (typed_grows _ _ _ _ Hg' _ Hl2)).
    split_and!; [by split_and!| |done].
    apply becomes_op3; [eapply becomes_trans; [exact Hbx2|eapply becomes_grows; [by apply typed_raw|exact Hg']]
      |eapply becomes_trans; [exact Hb2|eapply becomes_grows; [by apply typed_raw|exact Hg']]|done]. }
  intros s3 r3 Hinv3 Hg3 Hg23 Hr3 Hb3. pose proof (typed_grows _ _ _ _ Hg23 _ Hx2) as Hx3. pose proof (typed_grows _ _ _ _ Hg23 _ Hl2) as Hl3.
  assert (grows K (nodes (Op3 c x l r)) s s3) as Hg by (eapply grows_le; [apply U_pos| |reflexivity|exact Hg3]; lia).
  apply wpn_finish, cwp_bind. eapply wp_impl; [by eapply cook_op3_type_ok|..].
  - intros s4 c' [(-> & Ha & Hp' & Hty & Hat & Hst) Hsc]. apply cwp_ret. split; [split_and!; [done|done|]|left; rewrite <- Hat in Hst; by constructor; auto].
    apply becomes_op3; [eapply becomes_trans; [exact Hbx2|eapply becomes_grows; [by apply typed_raw|exact Hg23]]
      |eapply becomes_trans; [exact Hb2|eapply becomes_grows; [by apply typed_raw|exact Hg23]]|done].
  - intros s4 er [-> Her]. split_and!; [done|done|by rewrite Her].
Qed.

#[local] Abbreviation node_cook :=
  (dt_node_cook hdl hdc eattr pcb_amin _dtrace_defattr _dtrace_symattr al yylineno dt_gen dt_type_lookup type_names).

(** What is cooked is marked. *)
Lemma cooked_cooks s e f m : inv s → mode f → cooks s e f m → cooks s e f (child m id (λ n, finish n (cooked f n))).
Proof.
  intros Hinv Hf Hm. apply wpn_child. eapply wpn_impl; [exact Hm| |done]. intros s1 n1 [Haft Hres]. apply wpn_finish. pose proof Haft as (Hinv1 & _).
  eapply wp_impl; [by apply cooked_ok| |done]. intros s2 n2 [Haft2 Hres2]. split; [|done]. rewrite <- (Z.add_0_r (nodes e)). by eapply after_trans.
Qed.

Lemma leaf_cooks s e f : inv s → typed s e → cooks s e f (finish e (mret e)).
Proof.
  intros Hinv Ht. apply wpn_finish, cwp_ret. split; [|by left]. split_and!; [done| |by constructor]. pose proof (nodes_pos e).
  eapply grows_le; [apply U_pos| |reflexivity|apply same_grows]. lia.
Qed.

(** Cooking a tree has a result: the variables are in order, and the tree is well
    typed, or there is an error. *)
Lemma node_cook_ok e : cooker e (node_cook e).
Proof.
  induction e as [c v|c str|c|c name|c a|c op x IH|c op l IHl r IHr|c x IHx l IHl r IHr]; intros s f Hinv Hraw Hlu Hroom Hf;
    cbn [dt_node_cook]; (apply cooked_cooks; [done|done|]).
  - destruct Hraw as (? & ? & ?). apply leaf_cooks; [done|by constructor].
  - destruct Hraw as [? ?]. apply leaf_cooks; [done|by constructor].
  - destruct Hraw as [? ?]. apply leaf_cooks; [done|by constructor].
  - destruct Hraw as [? ?]. by apply cook_id_ok.
  - apply wpn_finish. assert (∀ s' n, (∀ K, after K 0 s (Var c a) s' n) → after [] 1 s (Var c a) s' n) as Hle.
    { intros s' n Haft. eapply after_le; [|reflexivity|apply Haft]. lia. }
    eapply wp_impl; [by apply cook_var_ok|..].
    + intros s' n [Haft Hres]. split; [by apply Hle|done].
    + intros s' er Haft. destruct (Hle _ _ Haft) as (Hinv' & Hg & Hb). split_and!; [done|done|]. intros _. split_and!; [by eapply var_grows|done|done].
  - by apply cook_op1_ok.
  - by apply cook_op2_ok.
  - by apply cook_op3_ok.
Qed.

End Tree.

End CookTree.
