(* ===== verification/CookClause.v ===== *)
(** * Type checking of clauses is sound

    [dt_cook_clause] cooks the statements of a clause and its predicate, in the other
    order if a name was not known, and always has a result: if there is no error the
    clause is well typed. *)
From S2P Require Import Prelude CLib Ident Node Cg Cook CookInv CookTyped CookOps CookTree.
#[local] Open Scope Z_scope.
Import Ident Node Cg Cook CookInv CookTyped CookOps CookTree.

Module CookClause.

Definition list_nodes (acts : list dt_node) : Z := foldr (λ e n, nodes e + n) 0 acts.

(** Variables stay what they are, and at most [n] are created or get storage. *)
Definition extends (U n : Z) (s s' : cook_state) : Prop := ∃ K, grows U K n s s'.

Section Clause.
Context {ctf : Ctf} {ctfc : CtfCook} (hdl : hdl_types) (hdc : cook_types) (eattr : bool) (pcb_amin : dtrace_attribute).
Context (_dtrace_defattr _dtrace_symattr : dtrace_attribute).
Context (al : idheap → option Z) (yylineno dt_gen : Z).
Context (dt_type_lookup : list Z → option dt_tid) (type_names : Z → list Z).
Context (valid : Z → Z → Prop) (U : Z).
Hypothesis laws : ctf_laws hdl hdc valid dt_type_lookup U.
Hypothesis al_fresh : ∀ h a, al h = Some a → a ≠ 0 ∧ h !! a = None.

#[local] Abbreviation typed := (typed hdl hdc eattr pcb_amin valid).
#[local] Abbreviation raw := (raw hdl valid).
#[local] Abbreviation inv := (inv valid dt_gen).
#[local] Abbreviation extends := (extends U).
#[local] Abbreviation room := (room U).
#[local] Abbreviation stable := (stable eattr pcb_amin).
#[local] Abbreviation node_cook :=
  (dt_node_cook hdl hdc eattr pcb_amin _dtrace_defattr _dtrace_symattr al yylineno dt_gen dt_type_lookup type_names).
#[local] Abbreviation list_cook :=
  (dt_node_list_cook hdl hdc eattr pcb_amin _dtrace_defattr _dtrace_symattr al yylineno dt_gen dt_type_lookup type_names).

Lemma U_nonneg : 0 <= U.
Proof. pose proof (law_size _ _ _ _ _ laws _ _ (law_int _ _ _ _ _ laws)). lia. Qed.

Lemma extends_trans n m s1 s2 s3 : extends n s1 s2 → extends m s2 s3 → extends (n + m) s1 s3.
Proof.
  intros [K1 H1] [K2 H2]. exists (K1 ++ K2). eapply grows_trans; eapply grows_le; [apply U_nonneg|reflexivity| |exact H1|apply U_nonneg|reflexivity| |exact H2].
  - intros k Hk. apply elem_of_app. by left.
  - intros k Hk. apply elem_of_app. by right.
Qed.

Lemma extends_le n m s s' : n <= m → extends n s s' → extends m s s'.
Proof. intros Hle [K Hg]. exists K. eapply grows_le; [apply U_nonneg|exact Hle|reflexivity|exact Hg]. Qed.

Lemma extends_refl n s : 0 <= n → extends n s s.
Proof. intros Hn. exists []. apply grows_refl; [apply U_nonneg|done]. Qed.

Lemma room_extends n m s s' : room (n + m) s → extends n s s' → room m s'.
Proof. intros Hr [K Hg]. by eapply room_grows. Qed.

Lemma list_nodes_pos acts : 0 <= list_nodes acts.
Proof. induction acts as [|e acts IH]; cbn; [done|]. pose proof (nodes_pos e). unfold list_nodes in IH. lia. Qed.

(** One tree. *)
Lemma tree_ok e f s : inv s → raw s e → room (nodes e) s → mode f → f ≠ 0 →
  ∃ s' n er, node_cook e f s = Some (s', n, er) ∧ inv s' ∧ extends (nodes e) s s' ∧
    match er with None => typed s' n ∧ nodes n <= nodes e | Some er => try_again er = true → raw s' n ∧ nodes n <= nodes e end.
Proof.
  intros Hinv Hraw Hroom Hf Hf0.
  pose proof (node_cook_ok hdl hdc eattr pcb_amin _dtrace_defattr _dtrace_symattr al yylineno dt_gen dt_type_lookup type_names valid U laws al_fresh e s f
    Hinv Hraw ltac:(done) Hroom Hf) as Hc.
  unfold cooks, wpn in Hc. destruct (node_cook e f s) as [[[s' n] [er|]]|]; [| |done]; eexists _, _, _; (split; [done|]).
  - destruct Hc as (Hinv' & Hg & Hre). split_and!; [done|by eexists|]. intros Her. destruct (Hre Her) as (? & [_ _ ?] & _). done.
  - destruct Hc as [(Hinv' & Hg & [_ _ Hn]) Hres]. split_and!; [done|by eexists|by eapply result_typed|done].
Qed.

(** The attributes of a clause. *)
Definition attr_of (attr : dtrace_attribute) (acts : list dt_node) : dtrace_attribute :=
  foldl (λ a n, dt_attr_min a (dn_attr (common n))) attr acts.

Lemma attr_check c attr s : (∃ c', assign_attr eattr pcb_amin c attr s = Some (s, inl c') ∧ stable attr) ∨
  assign_attr eattr pcb_amin c attr s = Some (s, inr (mk_error EDT_COMPILER D_ATTR_MIN)).
Proof. unfold assign_attr, ask, attr_assign, stable. destruct (eattr && _); [by right|left; by eexists]. Qed.

Lemma raw_extends n s s' e : extends n s s' → raw s e → raw s' e.
Proof. intros [K Hg]. by eapply raw_grows. Qed.

Lemma typed_extends n s s' e : extends n s s' → typed s e → typed s' e.
Proof. intros [K Hg]. by eapply typed_grows. Qed.

Lemma list_cook_ok acts f : mode f → f ≠ 0 → ∀ s attr, inv s → Forall (raw s) acts → room (list_nodes acts) s →
  ∃ s' l r, list_cook acts f attr s = Some (s', l, r) ∧ inv s' ∧ extends (list_nodes acts) s s' ∧ length l = length acts ∧
    match r with
    | inl a => Forall (typed s') l ∧ Forall (λ n, stable (dn_attr (common n))) l ∧ a = attr_of attr l
    | inr er => try_again er = true → Forall (raw s') l ∧ list_nodes l <= list_nodes acts
    end.
Proof.
  intros Hf Hf0. induction acts as [|e acts IH]; intros s attr Hinv Hraw Hroom; cbn [dt_node_list_cook].
  { exists s, [], (inl attr). split_and!; try done. by apply extends_refl. }
  apply Forall_cons in Hraw as [Hre Hra]. change (list_nodes (e :: acts)) with (nodes e + list_nodes acts) in *.
  pose proof (list_nodes_pos acts) as Hpos. pose proof (nodes_pos e) as Hpe.
  destruct (tree_ok e f s) as (s1 & n & er & -> & Hinv1 & Hg1 & Her); [done|done|eapply room_le; [apply U_nonneg| |exact Hroom]; lia|done|done|].
  cbn [mbind option_bind]. assert (extends (nodes e + list_nodes acts) s s1) as Hg1' by (eapply extends_le; [|exact Hg1]; lia).
  assert (Forall (raw s1) acts) as Hra1 by (eapply Forall_impl; [exact Hra|]; intros x; by apply (raw_extends (nodes e))).
  destruct er as [er|].
  { eexists _, _, _. split; [done|]. split_and!; [done|done|done|]. intros Hre'. destruct (Her Hre') as [? ?]. split; [by constructor|]. change (nodes n + list_nodes acts <= nodes e + list_nodes acts). lia. }
  destruct (attr_check (common n) (dn_attr (common n)) s1) as [(c' & -> & Hst)| ->]; cbn [mbind option_bind]; last first.
  { eexists _, _, _. split; [done|]. split_and!; [done|done|done|]. done. }
  destruct (IH s1 (dt_attr_min attr (dn_attr (common n)))) as (s2 & l & r & -> & Hinv2 & Hg2 & Hlen & Hr); [done|done|by eapply room_extends|].
  cbn [mbind option_bind]. eexists _, _, _. split; [done|]. split_and!; [done|by eapply extends_trans|cbn; by rewrite Hlen|].
  destruct r as [a|er].
  - destruct Hr as (Ht & Hs & ->), Her as [Hte _]. split_and!; [constructor; [by eapply typed_extends|done]|by constructor|done].
  - intros Hre'. destruct (Hr Hre') as [? ?]. destruct Her as [Ht Hn]. split; [|change (nodes n + list_nodes l <= nodes e + list_nodes acts); lia].
    constructor; [by eapply typed_raw, typed_extends|done].
Qed.

#[local] Abbreviation acts_cook :=
  (cook_acts hdl hdc eattr pcb_amin _dtrace_defattr _dtrace_symattr al yylineno dt_gen dt_type_lookup type_names).
#[local] Abbreviation pred_cook :=
  (cook_pred hdl hdc eattr pcb_amin _dtrace_defattr _dtrace_symattr al yylineno dt_gen dt_type_lookup type_names).

Lemma acts_ok acts f s : mode f → f ≠ 0 → inv s → Forall (raw s) acts → room (list_nodes acts) s →
  ∃ s' l r, acts_cook acts f s = Some (s', l, r) ∧ inv s' ∧ extends (list_nodes acts) s s' ∧ length l = length acts ∧
    match r with
    | inl a => Forall (typed s') l ∧ Forall (λ n, stable (dn_attr (common n))) l ∧ a = attr_of _dtrace_defattr l ∧ stable a
    | inr er => try_again er = true → Forall (raw s') l ∧ list_nodes l <= list_nodes acts
    end.
Proof.
  intros Hf Hf0 Hinv Hraw Hroom. unfold cook_acts. destruct (list_cook_ok acts f Hf Hf0 s _dtrace_defattr Hinv Hraw Hroom) as (s' & l & r & -> & Hinv' & Hg & Hl & Hr).
  cbn [mbind option_bind]. destruct r as [a|er]; [|by exists s', l, (inr er)]. destruct Hr as (Ht & Hs & Ea).
  destruct (attr_check no_attr a s') as [(c' & -> & Hst)| ->]; cbn [mbind option_bind]; eexists _, _, _; (split; [done|]); split_and!; done.
Qed.

Lemma pred_ok p f attr s : mode f → f ≠ 0 → inv s → raw s p → room (nodes p) s →
  ∃ s' n er, pred_cook p f attr s = Some (s', n, er) ∧ inv s' ∧ extends (nodes p) s s' ∧
    match er with
    | None => typed s' n ∧ scalar n ∧ stable (dt_attr_min attr (dn_attr (common n)))
    | Some er => try_again er = true → raw s' n
    end.
Proof.
  intros Hf Hf0 Hinv Hraw Hroom. unfold cook_pred, child. destruct (tree_ok p f s Hinv Hraw Hroom Hf Hf0) as (s' & n & er & -> & Hinv' & Hg & Her).
  cbn [mbind option_bind]. destruct er as [er|].
  { exists s', n, (Some er). split_and!; [done|done|done|]. intros Hre. by apply Her. }
  destruct Her as [Ht _]. assert (wpn (finish n (assign_attr eattr pcb_amin no_attr (dt_attr_min attr (dn_attr (common n)));;
      require (dt_node_is_scalar n) D_PRED_SCALAR;; mret n))
    (λ s2 n2, s2 = s' ∧ n2 = n ∧ scalar n ∧ stable (dt_attr_min attr (dn_attr (common n)))) (λ s2 n2 er, s2 = s' ∧ try_again er = false) s') as Hw.
  { apply wpn_finish, cwp_bind, wp_attr; [|done]. intros Hst. eapply cwp_bind, wp_yes; [apply asks_scalar; by eapply typed_cooked|intros Hsc|done].
    apply cwp_ret. done. }
  unfold wpn in Hw. destruct (finish n _ s') as [[[s2 n2] [er|]]|]; [| |done].
  - destruct Hw as [-> Hre]. exists s', n2, (Some er). split_and!; [done|done|done|]. by rewrite Hre.
  - destruct Hw as (-> & -> & Hsc & Hst). by exists s', n, None.
Qed.

#[local] Abbreviation clause_cook :=
  (dt_cook_clause hdl hdc eattr pcb_amin _dtrace_defattr _dtrace_symattr al yylineno dt_gen dt_type_lookup type_names).

Definition pred_nodes (pred : option dt_node) : Z := from_option nodes 0 pred.

(** What the type checker has made of a clause. *)
Record clause_typed (s : cook_state) (pred : option dt_node) (acts : list dt_node) : Prop := {
  ct_acts : Forall (typed s) acts;
  ct_pred : ∀ p, pred = Some p → typed s p ∧ scalar p;
  ct_stable : Forall (λ n, stable (dn_attr (common n))) acts ∧ stable (attr_of _dtrace_defattr acts)
}.

Lemma clause_sound dtp_attr pred acts f s : mode f → f ≠ 0 → inv s → (∀ p, pred = Some p → raw s p) → Forall (raw s) acts →
  room (2 * list_nodes acts + pred_nodes pred) s →
  ∃ s' pred' acts' er, clause_cook dtp_attr pred acts f s = Some (s', pred', acts', er) ∧
    inv s' ∧ extends (2 * list_nodes acts + pred_nodes pred) s s' ∧ length acts' = length acts ∧ (is_Some pred' ↔ is_Some pred) ∧
    (er = None → clause_typed s' pred' acts').
Proof.
  intros Hf Hf0 Hinv Hp Ha Hroom. pose proof (list_nodes_pos acts) as Hpos.
  assert (0 <= pred_nodes pred) as Hpp by (destruct pred as [p|]; [cbn; pose proof (nodes_pos p); lia|done]).
  unfold dt_cook_clause. destruct (attr_check no_attr dtp_attr s) as [(c0 & -> & _)| ->]; cbn [mbind option_bind]; last first.
  { eexists _, _, _, _. split; [done|]. split_and!; [done|apply extends_refl; lia|done|done|done]. }
  destruct (acts_ok acts f s) as (s1 & l1 & r1 & -> & Hinv1 & Hg1 & Hl1 & Hr1); [done|done|done|done|eapply room_le; [apply U_nonneg| |exact Hroom]; lia|].
  cbn [mbind option_bind]. assert (∀ n s2, extends n s1 s2 → list_nodes acts + n <= 2 * list_nodes acts + pred_nodes pred →
    extends (2 * list_nodes acts + pred_nodes pred) s s2) as Hgo.
  { intros n s2 Hg Hle. eapply extends_le; [exact Hle|by eapply extends_trans]. }
  assert (extends (2 * list_nodes acts + pred_nodes pred) s s1) as Hg1' by (apply (Hgo 0); [by apply extends_refl|lia]).
  assert (room (list_nodes acts + pred_nodes pred) s1) as Hroom1 by (eapply (room_extends (list_nodes acts)); [|exact Hg1]; eapply room_le; [apply U_nonneg| |exact Hroom]; lia).
  destruct pred as [p|]; cbn [pred_nodes from_option] in *; last first.
  { destruct r1 as [a|er]; (eexists _, _, _, _; split; [done|]); split_and!; try done. destruct Hr1 as (? & ? & -> & ?). constructor; done. }
  pose proof (raw_extends _ _ _ _ Hg1 (Hp p eq_refl)) as Hrp.
  assert (room (nodes p) s1) as Hroomp by (eapply room_le; [apply U_nonneg| |exact Hroom1]; lia).
  destruct r1 as [a|er].
  - destruct Hr1 as (Ht & Hs & -> & Hst). destruct (pred_ok p f (attr_of _dtrace_defattr l1) s1) as (s2 & n & er & -> & Hinv2 & Hg2 & Her); [done..|].
    cbn [mbind option_bind]. eexists _, _, _, _. split; [done|]. split_and!; [done|apply (Hgo (nodes p)); [done|lia]|done|done|]. intros ->. destruct Her as (Htp & Hsc & _).
    constructor; [eapply Forall_impl; [exact Ht|]; intros x; by apply typed_extends with (nodes p)|by intros ? [= <-]|done].
  - destruct (try_again er) eqn:Etry; last first.
    { eexists _, _, _, _. split; [done|]. split_and!; done. }
    destruct (Hr1 eq_refl) as [Hra Hn1].
    destruct (pred_ok p f dtp_attr s1) as (s2 & n & er2 & -> & Hinv2 & Hg2 & Her2); [done..|]. cbn [mbind option_bind].
    assert (extends (2 * list_nodes acts + nodes p) s s2) as Hg2' by (apply (Hgo (nodes p)); [done|lia]).
    destruct er2 as [er2|]. { eexists _, _, _, _. split; [done|]. split_and!; done. }
    destruct Her2 as (Htp & Hsc & _). pose proof (list_nodes_pos l1).
    assert (room (list_nodes l1) s2) as Hroom2 by (eapply (room_extends (nodes p)); [|exact Hg2]; eapply room_le; [apply U_nonneg| |exact Hroom1]; lia).
    destruct (acts_ok l1 f s2) as (s3 & l3 & r3 & -> & Hinv3 & Hg3 & Hl3 & Hr3);
      [done|done|done|eapply Forall_impl; [exact Hra|]; intros x; by apply raw_extends with (nodes p)|done|].
    cbn [mbind option_bind]. eexists _, _, _, _. split; [done|]. split_and!; [done| |congruence|done|].
    + apply (Hgo (nodes p + list_nodes l1)); [by eapply extends_trans|lia].
    + destruct r3 as [a|er3]; [|done]. intros _. destruct Hr3 as (Ht & Hs & -> & Hst).
      constructor; [done| |done]. intros ? [= <-]. split; [by eapply typed_extends|done].
Qed.


End Clause.

End CookClause.
