(* ===== verification/CgSem.v ===== *)
(** * What D expressions mean

    The meaning of the expressions that the code generator handles without
    calling a function: constants, global and clause-local variables, the
    operators of C on integers, casts, assignments and increments.

    A value has 64 bits.  The variables are the bytes of two blocks, one for
    the globals and one for the locals.  An expression may end in a fault (the
    division of signed numbers by zero).

    [supported] says which expressions are covered, and [fits n] which ones the
    code generator has the registers for when [n] values are held. *)
From stdpp Require Import list_numbers.
From S2P Require Import Prelude Ident Node Cg.
#[local] Open Scope Z_scope.
Import Ident Node Cg.

Module CgSem.

(** ** Variables *)

Record venv := mk_venv { gvars : list Z; lvars : list Z }.

(** The computation of a value: the variables afterwards, and the value or
    [None] for a fault. *)
Definition ev (A : Type) : Type := venv → venv * option A.

#[export] Instance ev_ret : MRet ev := λ A a s, (s, Some a).
#[export] Instance ev_bind : MBind ev := λ A B f m s,
  match m s with (s, Some a) => f a s | (s, None) => (s, None) end.

Definition fault {A} : ev A := λ s, (s, None).

(** [n] bytes of a block, as a number. *)
Definition read_le (blk : list Z) (off n : Z) : Z :=
  little_endian_to_Z 8 (take (Z.to_nat n) (drop (Z.to_nat off) blk)).
Definition write_le (blk : list Z) (off n v : Z) : list Z :=
  take (Z.to_nat off) blk ++ Z_to_little_endian n 8 v ++ drop (Z.to_nat off + Z.to_nat n) blk.

Definition is_local (i : dt_ident) : bool := has (di_flags i) DT_IDFLG_LOCAL.

Definition read_var (i : dt_ident) (n : Z) : ev Z := λ s,
  (s, Some (read_le (if is_local i then lvars s else gvars s) (di_offset i) n)).
Definition write_var (i : dt_ident) (v : Z) : ev unit := λ s,
  (if is_local i
   then mk_venv (gvars s) (write_le (lvars s) (di_offset i) (di_size i) v)
   else mk_venv (write_le (gvars s) (di_offset i) (di_size i) v) (lvars s), Some tt).

(** ** Operators *)

(** A division of signed numbers truncates.  The remainder has the sign of the
    product of the operands, and not, as in C, that of the dividend. *)
Definition arith (op : tok) (sgn : bool) (a b : Z) : option Z :=
  match op with
  | DT_TOK_ADD | DT_TOK_ADD_EQ => Some (u64 (a + b))
  | DT_TOK_SUB | DT_TOK_SUB_EQ => Some (u64 (a - b))
  | DT_TOK_MUL | DT_TOK_MUL_EQ => Some (u64 (a * b))
  | DT_TOK_BOR | DT_TOK_OR_EQ => Some (Z.lor a b)
  | DT_TOK_XOR | DT_TOK_XOR_EQ => Some (Z.lxor a b)
  | DT_TOK_BAND | DT_TOK_AND_EQ => Some (Z.land a b)
  | DT_TOK_LSH | DT_TOK_LSH_EQ => Some (u64 (Z.shiftl a (b mod 64)))
  | DT_TOK_RSH | DT_TOK_RSH_EQ =>
      Some (if sgn then u64 (Z.shiftr (s64 a) (b mod 64)) else Z.shiftr a (b mod 64))
  | DT_TOK_DIV | DT_TOK_DIV_EQ =>
      if sgn then if b =? 0 then None else Some (u64 (Z.quot (s64 a) (s64 b)))
      else Some (if b =? 0 then 0 else a / b)
  | DT_TOK_MOD | DT_TOK_MOD_EQ =>
      if sgn then if b =? 0 then None else Some (u64 (Z.sgn (s64 b) * Z.rem (s64 a) (s64 b)))
      else Some (if b =? 0 then a else a mod b)
  | _ => None
  end.

Definition compare (op : tok) (sgn : bool) (a b : Z) : bool :=
  let x := if sgn then s64 a else a in
  let y := if sgn then s64 b else b in
  match op with
  | DT_TOK_EQU => a =? b
  | DT_TOK_NEQ => negb (a =? b)
  | DT_TOK_LT => x <? y
  | DT_TOK_LE => x <=? y
  | DT_TOK_GT => y <? x
  | DT_TOK_GE => y <=? x
  | _ => false
  end.

(** A value cut to [w] bits and read as a signed or unsigned number. *)
Definition cast (w : Z) (sgn : bool) (v : Z) : Z := if sgn then u64 (swrap w v) else wrap w v.

Section Eval.
Context `{Ctf} (hdl : hdl_types) (eattr : bool) (pcb_amin : dtrace_attribute).
(** The identifiers of the program. *)
Context (ids : idheap).

(** The answer of a computation of the compiler, where there is one. *)
Definition answer {A} (d : A) (m : comp A) : A := match m with Some (Done a) => a | _ => d end.

Definition var_of (idp : Z) : dt_ident :=
  default (mk_ident None 0 0 0 (mk_attr 0 0 0) 0 0 0 0 0 0 0 0) (ids !! idp).

Definition node_size (dnp : dt_node) : Z := answer 0 (dt_node_type_size hdl dnp).

Definition cast_to (src dst : dt_node) (v : Z) : Z :=
  let ss := node_size src in
  let ds := node_size dst in
  if (dn_ctfp (common dst) =? 0) && (dn_type (common dst) =? CTF_ERR) then v
  else if answer false (dt_node_is_scalar dst) && ((ds <? ss) || xorb (is_signed src) (is_signed dst))
  then cast (8 * Z.min ss ds) (is_signed dst) v else v.

Definition set_var (lp : dt_node) (v : Z) : ev unit :=
  match lp with Var _ idp => write_var (var_of idp) v | _ => mret tt end.

Definition lift_arith (r : option Z) : ev Z := match r with Some v => mret v | None => fault end.

Fixpoint eval (e : dt_node) : ev Z :=
  match e with
  | Const _ v => mret v
  | Str _ _ | TypeName _ | Id _ _ => mret 0
  | Var _ idp => read_var (var_of idp) (node_size e)
  | Op1 _ op x =>
      match op with
      | DT_TOK_LNEG => v ← eval x; mret (of_bool (v =? 0))
      | DT_TOK_BNEG => v ← eval x; mret (u64 (Z.lnot v))
      | DT_TOK_INEG => v ← eval x; mret (u64 (- v))
      | DT_TOK_PREINC => v ← eval x; let v := u64 (v + 1) in set_var x v;; mret v
      | DT_TOK_PREDEC => v ← eval x; let v := u64 (v - 1) in set_var x v;; mret v
      | DT_TOK_POSTINC => v ← eval x; set_var x (u64 (v + 1));; mret v
      | DT_TOK_POSTDEC => v ← eval x; set_var x (u64 (v - 1));; mret v
      | DT_TOK_SIZEOF => mret (node_size x)
      | _ => eval x
      end
  | Op2 _ op lp rp =>
      match op with
      | DT_TOK_COMMA => eval lp;; eval rp
      | DT_TOK_ASGN => v ← eval rp; set_var lp v;; mret v
      | DT_TOK_LAND =>
          a ← eval lp; if a =? 0 then mret 0 else b ← eval rp; mret (of_bool (negb (b =? 0)))
      | DT_TOK_LOR =>
          a ← eval lp; if a =? 0 then b ← eval rp; mret (of_bool (negb (b =? 0))) else mret 1
      | DT_TOK_LXOR =>
          a ← eval lp; b ← eval rp; mret (of_bool (xorb (negb (a =? 0)) (negb (b =? 0))))
      | DT_TOK_LPAR => v ← eval rp; mret (cast_to rp e v)
      | DT_TOK_EQU | DT_TOK_NEQ | DT_TOK_LT | DT_TOK_LE | DT_TOK_GT | DT_TOK_GE =>
          a ← eval lp; b ← eval rp;
          let sgn := answer false (dt_cg_compare_signed hdl eattr pcb_amin lp rp) in
          mret (of_bool (compare op sgn a b))
      | _ =>
          a ← eval lp; b ← eval rp; v ← lift_arith (arith op (is_signed e) a b);
          match EQ_op op false with Some _ => set_var lp v;; mret v | None => mret v end
      end
  | Op3 _ x lp rp => c ← eval x; if c =? 0 then eval rp else eval lp
  end.

(** ** The expressions covered *)

Definition answers {A} (m : comp A) : bool := match m with Some (Done _) => true | _ => false end.

(** A variable of one of the blocks, of [gsize] and [lsize] bytes, whose bytes
    [off .. off + n) are inside its block. *)
Context (gsize lsize : Z).

Definition ident_ok (i : dt_ident) (n : Z) : bool :=
  in_block i && negb (has (di_flags i) DT_IDFLG_CGREG) && negb (has (di_flags i) DT_IDFLG_INLINE) &&
  negb (has (di_flags i) DT_IDFLG_TLS) &&
  negb ((di_kind i =? DT_IDENT_ARRAY) || (di_kind i =? DT_IDENT_XLSOU) || (di_kind i =? DT_IDENT_XLPTR)) &&
  size_ok n && (0 <=? di_offset i) && (di_offset i <? 2 ^ 15) &&
  (di_offset i + n <=? (if is_local i then lsize else gsize)).

Definition var_ok (idp n : Z) : bool :=
  match ids !! idp with Some i => ident_ok i n | None => false end.

Definition not_ref (e : dt_node) : bool := negb (has_flag e DT_NF_REF).

Definition not_pointer (e : dt_node) : bool := negb (answer true (dt_node_is_pointer hdl e)).

(** The target of an assignment [e]. *)
Definition target_ok (e lp : dt_node) : bool :=
  match lp with
  | Var _ idp => not_ref e && var_ok idp (di_size (var_of idp))
  | _ => false
  end.

(** What [is_xlsou] asks of the right operand. *)
Definition source_ok (rp : dt_node) : bool :=
  match rp with Var _ _ => true | _ => negb (dt_node_is_dynamic hdl rp) end.

Definition cast_ok (src dst : dt_node) : bool :=
  answers (dt_node_type_size hdl src) && answers (dt_node_type_size hdl dst) &&
  answers (dt_node_is_scalar dst) && (0 <? Z.min (node_size src) (node_size dst)) &&
  (Z.min (node_size src) (node_size dst) <=? 8).

Definition compare_ok (lp rp : dt_node) : bool :=
  negb (dt_node_is_string hdl lp) && negb (dt_node_is_string hdl rp) &&
  answers (dt_cg_compare_signed hdl eattr pcb_amin lp rp).

Fixpoint supported (e : dt_node) : bool :=
  match e with
  | Const _ v => (0 <=? v) && (v <? 2 ^ 64)
  | Str _ _ | TypeName _ | Id _ _ => false
  | Var _ idp => not_ref e && answers (dt_node_type_size hdl e) && var_ok idp (node_size e)
  | Op1 _ op x =>
      match op with
      | DT_TOK_LNEG | DT_TOK_BNEG | DT_TOK_IPOS | DT_TOK_INEG => supported x
      | DT_TOK_PREINC | DT_TOK_PREDEC | DT_TOK_POSTINC | DT_TOK_POSTDEC =>
          supported x && target_ok e x && not_pointer e
      | DT_TOK_SIZEOF => answers (dt_node_type_size hdl x) && (0 <? node_size x) && (node_size x <? 2 ^ 64)
      | _ => false
      end
  | Op2 _ op lp rp =>
      match op with
      | DT_TOK_COMMA | DT_TOK_LAND | DT_TOK_LOR | DT_TOK_LXOR => supported lp && supported rp
      | DT_TOK_ASGN => supported rp && target_ok e lp && source_ok rp
      | DT_TOK_LPAR => supported rp && cast_ok rp e
      | DT_TOK_EQU | DT_TOK_NEQ | DT_TOK_LT | DT_TOK_LE | DT_TOK_GT | DT_TOK_GE =>
          supported lp && supported rp && compare_ok lp rp
      | _ =>
          supported lp && supported rp && not_pointer lp && not_pointer rp &&
          match EQ_op op false, arith_op op false with
          | Some _, _ => target_ok e lp && source_ok rp
          | _, Some _ => true
          | _, _ => false
          end
      end
  | Op3 _ x lp rp => supported x && supported lp && supported rp && negb (dt_node_is_string hdl e)
  end.

(** ** Registers *)

Definition is_division (op : tok) : bool :=
  match op with DT_TOK_DIV | DT_TOK_MOD | DT_TOK_DIV_EQ | DT_TOK_MOD_EQ => true | _ => false end.

(** There are nine registers, and nine more values can be kept on the stack.  A
    division of signed numbers may call a function, for which registers 1 to 5
    must not hold a value above a spilled one.

    A comparison and a conditional branch over the load that restores a spilled
    value: they work as long as nothing is spilled. *)
Fixpoint fits (n : nat) (e : dt_node) : bool :=
  match e with
  | Op1 _ op x =>
      match op with
      | DT_TOK_SIZEOF => (n <? 18)%nat
      | DT_TOK_PREINC | DT_TOK_PREDEC => fits n x && (n + 1 <? 18)%nat
      | DT_TOK_POSTINC | DT_TOK_POSTDEC => fits n x && (n + 2 <? 18)%nat
      | _ => fits n x
      end
  | Op2 _ op lp rp =>
      match op with
      | DT_TOK_COMMA | DT_TOK_LAND | DT_TOK_LOR => fits n lp && fits n rp
      | DT_TOK_ASGN => fits n rp && (n + 1 <? 18)%nat
      | DT_TOK_LPAR => fits n rp
      | DT_TOK_EQU | DT_TOK_NEQ | DT_TOK_LT | DT_TOK_LE | DT_TOK_GT | DT_TOK_GE =>
          fits n lp && fits (n + 1) rp && (n + 1 <? 9)%nat
      | _ =>
          fits n lp && fits (n + 1) rp && (negb (is_division op && is_signed e) || (n + 2 <=? 12)%nat)
      end
  | Op3 _ x lp rp => fits n x && fits n lp && fits n rp && (n <? 9)%nat
  | _ => (n <? 18)%nat
  end.

(** The number of operations of an expression; a compound assignment is two.
    The code generator needs at most 6 labels and 32 instructions for each. *)
Fixpoint weight (e : dt_node) : Z :=
  match e with
  | Op1 _ _ x => 1 + weight x
  | Op2 _ op lp rp => (match EQ_op op false with Some _ => 2 | None => 1 end) + weight lp + weight rp
  | Op3 _ x lp rp => 1 + weight x + weight lp + weight rp
  | _ => 1
  end.

End Eval.

End CgSem.
