(* ===== verification/CgRegs.v ===== *)
(** * Register allocation and the shape of generated code

    The register set that the code generator uses is a stack of values: nine
    registers and nine slots for values that had to be spilled.  [stacked d n]
    says that [d] holds [n] values this way.  [makes] says what a piece of the
    code generator appends to the instruction list. *)
From S2P Require Import Prelude Bpf Bitmap Regset Strtab Ident DtAs Node Cg.
Import Bpf Regset Strtab Ident DtAs Node Cg.

Module CgRegs.

(** ** The register set as a stack *)

Definition rnum (r : reg) : Z := Z.of_nat (reg_idx r).

(** The register of the [k]-th value. *)
Definition sreg (k : nat) : reg :=
  match (k mod 9)%nat with
  | 0 => r8 | 1 => r7 | 2 => r6 | 3 => r5 | 4 => r4 | 5 => r3 | 6 => r2 | 7 => r1 | _ => r0
  end%nat.

(** Arithmetic about [lev]. *)
Ltac levs :=
  repeat match goal with
  | |- context [if ?a <? ?b then _ else _] => destruct (Z.ltb_spec a b)
  | H : context [if ?a <? ?b then _ else _] |- _ => destruct (Z.ltb_spec a b)
  end; lia.

(** How many of the first [n] values are in register [q]. *)
Definition lev (n : nat) (q : Z) : Z :=
  (if 8 - q <? Z.of_nat n then 1 else 0) + (if 17 - q <? Z.of_nat n then 1 else 0).

Record levels (d : dt_regset dt_irlist) (L : Z → Z) : Prop := {
  lv_wf : Regset.wf d;
  lv_size : dr_size d = 9;
  lv_store : dr_spill_store d = cg_spill_store;
  lv_load : dr_spill_load d = cg_spill_load;
  lv_level : ∀ q, 0 <= q < 9 → level d q = L q
}.

Definition stacked (d : dt_regset dt_irlist) (n : nat) : Prop := (n <= 18)%nat ∧ levels d (lev n).

Lemma sreg_num k : rnum (sreg k) = 8 - Z.of_nat k mod 9.
Proof.
  unfold sreg. pose proof (Nat.mod_upper_bound k 9 ltac:(lia)).
  change 9 with (Z.of_nat 9). rewrite <- (Nat2Z.inj_mod k 9). destruct (k mod 9)%nat as [|[|[|[|[|[|[|[|[|?]]]]]]]]]; first [done|exfalso; lia].
Qed.

Lemma levels_frame d d' L L' : levels d L → same_frame d d' → Regset.wf d' →
  (∀ q, 0 <= q < 9 → level d' q = L' q) → levels d' L'.
Proof. intros [? ? ? ? ?] (? & ? & ?) ? ?. constructor; [done|congruence..|done]. Qed.

Lemma stacked_alloc d n s : stacked d n → (n < 18)%nat →
  ∃ d', dt_regset_alloc d s = Some (rnum (sreg n), d',
          if (n <? 9)%nat then s else cg_spill_store (rnum (sreg n)) s) ∧ stacked d' (n + 1).
Proof.
  intros [Hn HL] Hn'. destruct (alloc_ok d s (lv_wf _ _ HL)) as (r & d' & s' & E & Hs). rewrite E.
  assert (∀ q, 0 <= q < 9 → level d q = lev n q) as Hl by (apply lv_level; done).
  pose proof (lv_size _ _ HL) as Hsz. pose proof (sreg_num n) as Hr.
  destruct Hs as [r d' Hreg H0 Habove Hf Hw Hq|r d' Hreg H1 Hall Habove Hf Hw Hq|Hall];
    unfold is_reg in *; rewrite Hsz in *.
  - rewrite Hl in H0 by lia. assert (r = 8 - Z.of_nat n ∧ Z.of_nat n <= 8) as [Er Hn8].
    { destruct (decide (r = 8)) as [->|]; [unfold lev in H0; levs|].
      specialize (Habove (r + 1) ltac:(lia)). rewrite Hl in Habove by lia. unfold lev in *; levs. }
    rewrite (proj2 (Nat.ltb_lt n 9)) by lia. exists d'. split; [do 3 f_equal; lia|]. split; [lia|].
    eapply levels_frame; [done..|]. intros q Hq9. rewrite Hq by lia. case_decide.
    + unfold lev; levs.
    + rewrite Hl by lia. unfold lev; levs.
  - rewrite Hl in H1 by lia. assert (r = 17 - Z.of_nat n ∧ 9 <= Z.of_nat n) as [Er Hn9].
    { specialize (Hall 0 ltac:(lia)). rewrite Hl in Hall by lia.
      destruct (decide (r = 8)) as [->|]; [unfold lev in *; levs|].
      specialize (Habove (r + 1) ltac:(lia)). rewrite Hl in Habove by lia. unfold lev in *; levs. }
    rewrite (proj2 (Nat.ltb_ge n 9)) by lia. rewrite (lv_store _ _ HL). exists d'.
    assert (r = rnum (sreg n)) as <- by lia. split; [done|]. split; [lia|].
    eapply levels_frame; [done..|]. intros q Hq9. rewrite Hq by lia. case_decide.
    + unfold lev; levs.
    + rewrite Hl by lia. unfold lev; levs.
  - exfalso. specialize (Hall 0 ltac:(lia)). rewrite Hl in Hall by lia. unfold lev in Hall; levs.
Qed.

Lemma stacked_alloc_none d s : stacked d 18 → dt_regset_alloc d s = Some (-1, d, s).
Proof.
  intros [_ HL]. destruct (alloc_ok d s (lv_wf _ _ HL)) as (r & d' & s' & E & Hs). rewrite E.
  assert (∀ q, 0 <= q < 9 → level d q = lev 18 q) as Hl by (apply lv_level; done).
  pose proof (lv_size _ _ HL) as Hsz.
  destruct Hs as [r d' Hreg H0 Habove Hf Hw Hq|r d' Hreg H1 Hall Habove Hf Hw Hq|Hall]; [..|done];
    unfold is_reg in *; rewrite Hsz in *; exfalso; rewrite Hl in * by lia; unfold lev in *; levs.
Qed.

Lemma stacked_free d n s : stacked d (n + 1) →
  ∃ d', dt_regset_free d (rnum (sreg n)) s = Some (d',
          if (n <? 9)%nat then s else cg_spill_load (rnum (sreg n)) s) ∧ stacked d' n.
Proof.
  intros [Hn HL]. pose proof (lv_size _ _ HL) as Hsz. pose proof (sreg_num n) as Hr.
  assert (∀ q, 0 <= q < 9 → level d q = lev (n + 1) q) as Hl by (apply lv_level; done).
  destruct (free_ok d (rnum (sreg n)) s (lv_wf _ _ HL)) as (d' & s' & -> & Hs).
  { unfold is_reg. lia. }
  { rewrite Hl by lia. unfold lev; levs. }
  exists d'. destruct Hs as [d' H1 Hf Hw Hq|d' H2 Hf Hw Hq].
  - rewrite Hl in H1 by lia. unfold lev in H1. rewrite (proj2 (Nat.ltb_lt n 9)) by levs.
    split; [done|]. split; [lia|]. eapply levels_frame; [done..|]. intros q Hq9. rewrite Hq by lia.
    case_decide; [unfold lev; levs|]. rewrite Hl by lia. unfold lev; levs.
  - rewrite Hl in H2 by lia. unfold lev in H2. rewrite (proj2 (Nat.ltb_ge n 9)) by levs.
    rewrite (lv_load _ _ HL). split; [done|]. split; [lia|]. eapply levels_frame; [done..|].
    intros q Hq9. rewrite Hq by lia. case_decide; [unfold lev; levs|]. rewrite Hl by lia. unfold lev; levs.
Qed.

(** ** What a piece of the generator appends *)

(** Project out of the states. *)
Ltac fields :=
  cbn [pcb_ir pcb_regs cg_ids dt_tstrings dt_ccstab dl_list dl_len dl_label size mbind comp_bind mret comp_ret
       lift app option_bind].


(** The state after [frag] was appended, [k] labels were handed out, and the
    register set and the identifiers became [drp] and [ids]. *)
Definition put (st : cg_state) (frag : list dt_irnode) (k : Z) (drp : dt_regset dt_irlist) (ids : idheap) :
    cg_state :=
  let ir := pcb_ir st in
  mk_cgs (mk_irlist (dl_list ir ++ frag) (u32 (dl_len ir + size frag)) (u32 (dl_label ir + k))) drp ids
    (dt_tstrings st) (dt_ccstab st).

Record ok (st : cg_state) : Prop := {
  ok_len : urange 32 (dl_len (pcb_ir st));
  ok_label : urange 32 (dl_label (pcb_ir st))
}.

Lemma put_ok st frag k drp ids : ok (put st frag k drp ids).
Proof. constructor; apply wrap_range; lia. Qed.
#[export] Hint Resolve put_ok : core.

Lemma put_put st f1 k1 d1 i1 f2 k2 d2 i2 :
  put (put st f1 k1 d1 i1) f2 k2 d2 i2 = put st (f1 ++ f2) (k1 + k2) d2 i2.
Proof.
  unfold put. fields. f_equal. f_equal; [by rewrite app_assoc|..].
  - rewrite size_app, wrap_add_l. f_equal. lia.
  - rewrite wrap_add_l. f_equal. lia.
Qed.

Lemma put_nil st : ok st → put st [] 0 (pcb_regs st) (cg_ids st) = st.
Proof.
  intros [H1 H2]. destruct st as [[l n k] d i t c]. unfold put. cbn [pcb_ir pcb_regs cg_ids dt_tstrings dt_ccstab dl_list dl_len dl_label] in *. fields.
  rewrite app_nil_r, !Z.add_0_r, !wrap_id by done. done.
Qed.

Definition makes {A} (m : cg A) (st : cg_state) (a : A) (frag : list dt_irnode) (k : Z)
    (drp : dt_regset dt_irlist) (ids : idheap) : Prop :=
  m st = Some (Done (a, put st frag k drp ids)).

Lemma makes_bind {A B} (m : cg A) (f : A → cg B) st a f1 k1 d1 i1 b f2 k2 d2 i2 :
  makes m st a f1 k1 d1 i1 → makes (f a) (put st f1 k1 d1 i1) b f2 k2 d2 i2 →
  makes (m ≫= f) st b (f1 ++ f2) (k1 + k2) d2 i2.
Proof. unfold makes, mbind, cg_bind. intros -> ->. by rewrite put_put. Qed.

Lemma makes_ret {A} (a : A) st d ids : ok st → pcb_regs st = d → cg_ids st = ids →
  makes (mret a) st a [] 0 d ids.
Proof. intros H <- <-. unfold makes, mret, cg_ret. by rewrite put_nil. Qed.

Lemma makes_lift {A} (m : comp A) (a : A) st d ids : ok st → pcb_regs st = d → cg_ids st = ids → m = Some (Done a) →
  makes (cg_lift m) st a [] 0 d ids.
Proof. intros H <- <- ->. unfold makes, cg_lift. fields. by rewrite put_nil. Qed.

Lemma makes_assert (b : bool) st d ids : ok st → pcb_regs st = d → cg_ids st = ids → b = true →
  makes (cg_assert b) st tt [] 0 d ids.
Proof. intros H <- <- ->. by apply makes_lift. Qed.

Lemma makes_eml l i st d ids : ok st → pcb_regs st = d → cg_ids st = ids →
  makes (eml l i) st tt [mk_irnode l i 0] 0 d ids.
Proof.
  intros [H1 H2] <- <-. unfold makes, eml, put, set_ir, emitl, emitle, dt_irlist_append. fields.
  rewrite !Z.add_0_r, (wrap_id 32 (dl_label _)) by done. do 4 f_equal. f_equal.
  destruct (is_label (mk_irnode l i 0)); rewrite ?Z.add_0_r, ?Z.add_0_l; [by rewrite wrap_id|done].
Qed.

Lemma makes_em i st d ids : ok st → pcb_regs st = d → cg_ids st = ids →
  makes (em i) st tt [mk_irnode 0 i 0] 0 d ids.
Proof. apply makes_eml. Qed.

Lemma makes_eme i x st d ids : ok st → pcb_regs st = d → cg_ids st = ids →
  makes (eme i x) st tt [mk_irnode 0 i x] 0 d ids.
Proof.
  intros [H1 H2] <- <-. unfold makes, eme, put, set_ir, emite, emitle, dt_irlist_append. fields.
  rewrite !Z.add_0_r, (wrap_id 32 (dl_label _)) by done. done.
Qed.

Lemma makes_label st d ids : ok st → pcb_regs st = d → cg_ids st = ids →
  makes label st (dl_label (pcb_ir st)) [] 1 d ids.
Proof.
  intros [H1 H2] <- <-. unfold makes, label, put. fields. rewrite app_nil_r, Z.add_0_r, (wrap_id 32 (dl_len _)) by done.
  done.
Qed.

(** *** Registers *)

Definition spill_code (n : nat) : list dt_irnode :=
  if (n <? 9)%nat then []
  else [mk_irnode 0 (BPF_STORE BPF_DW BPF_REG_FP (DT_STK_SPILL (rnum (sreg n))) (rnum (sreg n))) 0].
Definition unspill_code (n : nat) : list dt_irnode :=
  if (n <? 9)%nat then []
  else [mk_irnode 0 (BPF_LOAD BPF_DW (rnum (sreg n)) BPF_REG_FP (DT_STK_SPILL (rnum (sreg n)))) 0].

Lemma emit_put st i drp : ok st →
  mk_cgs (emit (pcb_ir st) i) drp (cg_ids st) (dt_tstrings st) (dt_ccstab st) =
  put st [mk_irnode 0 i 0] 0 drp (cg_ids st).
Proof.
  intros [H1 H2]. unfold put, emit, emitle, dt_irlist_append. fields.
  rewrite !Z.add_0_r, (wrap_id 32 (dl_label _)) by done. done.
Qed.

Lemma keep_put st drp : ok st →
  mk_cgs (pcb_ir st) drp (cg_ids st) (dt_tstrings st) (dt_ccstab st) = put st [] 0 drp (cg_ids st).
Proof.
  intros [H1 H2]. destruct st as [[l n k] d i t c]. unfold put. cbn [pcb_ir pcb_regs cg_ids dt_tstrings dt_ccstab dl_list dl_len dl_label] in *. fields.
  by rewrite app_nil_r, !Z.add_0_r, !wrap_id by done.
Qed.

Lemma makes_alloc st n ids : ok st → cg_ids st = ids → stacked (pcb_regs st) n → (n < 18)%nat →
  ∃ d', makes alloc_reg st (rnum (sreg n)) (spill_code n) 0 d' ids ∧ stacked d' (n + 1).
Proof.
  intros Hok <- Hs Hn. destruct (stacked_alloc _ _ (pcb_ir st) Hs Hn) as (d' & E & Hs'). exists d'. split; [|done].
  unfold makes, alloc_reg, regset_alloc, with_regs, mbind, cg_bind. rewrite E. fields.
  rewrite (proj2 (Z.eqb_neq _ _)) by (rewrite sreg_num; lia). unfold spill_code.
  destruct (n <? 9)%nat; [by rewrite keep_put|]. unfold cg_spill_store. by rewrite emit_put.
Qed.

Lemma makes_free st n ids : ok st → cg_ids st = ids → stacked (pcb_regs st) (n + 1) →
  ∃ d', makes (regset_free (rnum (sreg n))) st tt (unspill_code n) 0 d' ids ∧ stacked d' n.
Proof.
  intros Hok <- Hs. destruct (stacked_free _ _ (pcb_ir st) Hs) as (d' & E & Hs'). exists d'. split; [|done].
  unfold makes, regset_free, with_regs, unit_result. rewrite E. fields. unfold unspill_code.
  destruct (n <? 9)%nat; [by rewrite keep_put|]. unfold cg_spill_load. by rewrite emit_put.
Qed.

(** *** Registers for the arguments of a call *)

Definition store_node (q : Z) : dt_irnode :=
  mk_irnode 0 (BPF_STORE BPF_DW BPF_REG_FP (DT_STK_SPILL q) q) 0.
Definition load_node (q : Z) : dt_irnode :=
  mk_irnode 0 (BPF_LOAD BPF_DW q BPF_REG_FP (DT_STK_SPILL q)) 0.

Definition upd (L : Z → Z) (q v : Z) : Z → Z := λ x, if x =? q then v else L x.

Lemma levels_xalloc d L q s : levels d L → 0 <= q < 9 → 0 <= L q < 2 →
  ∃ d', dt_regset_xalloc d q s = Some (0, d', if L q =? 1 then cg_spill_store q s else s) ∧
    levels d' (upd L q (L q + 1)).
Proof.
  intros HL Hq Hlq. destruct (xalloc_ok d q s (lv_wf _ _ HL)) as (rc & d' & s' & E & Hs).
  { unfold is_reg. rewrite (lv_size _ _ HL). lia. }
  rewrite E. pose proof (lv_level _ _ HL q Hq) as Hl.
  destruct Hs as [d' H0 Hf Hw Hx|d' H1 Hf Hw Hx|H2]; [..|lia]; rewrite Hl in *.
  - rewrite (proj2 (Z.eqb_neq (L q) 1)) by lia. exists d'. split; [done|]. eapply levels_frame; [done..|].
    intros x Hx9. rewrite Hx by lia. unfold upd. case_decide; destruct (Z.eqb_spec x q); try lia.
    by apply lv_level.
  - rewrite (proj2 (Z.eqb_eq (L q) 1)) by lia. rewrite (lv_store _ _ HL). exists d'. split; [done|].
    eapply levels_frame; [done..|].
    intros x Hx9. rewrite Hx by lia. unfold upd. case_decide; destruct (Z.eqb_spec x q); try lia.
    by apply lv_level.
Qed.

Lemma levels_free d L q s : levels d L → 0 <= q < 9 → 0 < L q →
  ∃ d', dt_regset_free d q s = Some (d', if L q =? 2 then cg_spill_load q s else s) ∧
    levels d' (upd L q (L q - 1)).
Proof.
  intros HL Hq Hlq. pose proof (lv_level _ _ HL q Hq) as Hl.
  destruct (free_ok d q s (lv_wf _ _ HL)) as (d' & s' & E & Hs).
  { unfold is_reg. rewrite (lv_size _ _ HL). lia. }
  { lia. }
  rewrite E. destruct Hs as [d' H0 Hf Hw Hx|d' H1 Hf Hw Hx]; rewrite Hl in *.
  - rewrite (proj2 (Z.eqb_neq (L q) 2)) by lia. exists d'. split; [done|]. eapply levels_frame; [done..|].
    intros x Hx9. rewrite Hx by lia. unfold upd. case_decide; destruct (Z.eqb_spec x q); try lia.
    by apply lv_level.
  - rewrite (proj2 (Z.eqb_eq (L q) 2)) by lia. rewrite (lv_load _ _ HL). exists d'. split; [done|].
    eapply levels_frame; [done..|].
    intros x Hx9. rewrite Hx by lia. unfold upd. case_decide; destruct (Z.eqb_spec x q); try lia.
    by apply lv_level.
Qed.

(** The list [s] with instructions appended. *)
Definition add_ir (s : dt_irlist) (frag : list dt_irnode) : dt_irlist :=
  mk_irlist (dl_list s ++ frag) (u32 (dl_len s + size frag)) (dl_label s).

Lemma add_ir_nil s : urange 32 (dl_len s) → add_ir s [] = s.
Proof.
  intros. destruct s. unfold add_ir. cbn [dl_list dl_len dl_label size].
  by rewrite app_nil_r, Z.add_0_r, wrap_id.
Qed.

Lemma add_ir_add s f g : add_ir (add_ir s f) g = add_ir s (f ++ g).
Proof.
  unfold add_ir. cbn [dl_list dl_len dl_label].
  by rewrite <- app_assoc, size_app, wrap_add_l, Z.add_assoc.
Qed.

Lemma add_ir_len s f : urange 32 (dl_len (add_ir s f)).
Proof. apply wrap_range. lia. Qed.

Lemma emit_add s i : emit s i = add_ir s [mk_irnode 0 i 0].
Proof. done. Qed.

(** The registers of [r .. r + k) that hold a value are stored, or loaded again. *)
Fixpoint stores (L : Z → Z) (k r : nat) : list dt_irnode :=
  match k with
  | O => []
  | S k => (if L (Z.of_nat r) =? 1 then [store_node (Z.of_nat r)] else []) ++ stores L k (S r)
  end.
Fixpoint loads (L : Z → Z) (k r : nat) : list dt_irnode :=
  match k with
  | O => []
  | S k => (if L (Z.of_nat r) =? 1 then [load_node (Z.of_nat r)] else []) ++ loads L k (S r)
  end.

Definition bump (L : Z → Z) (a b : Z) : Z → Z := λ q, L q + (if (a <=? q) && (q <? b) then 1 else 0).

Lemma levels_ext d L L' : levels d L → (∀ q, 0 <= q < 9 → L q = L' q) → levels d L'.
Proof. intros [? ? ? ? H] E. constructor; [done..|]. intros. rewrite H by done. by apply E. Qed.

Lemma stores_ext L L' k r : (∀ q, Z.of_nat r <= q < Z.of_nat (r + k) → L q = L' q) → stores L k r = stores L' k r.
Proof.
  revert r. induction k as [|k IH]; intros r H; [done|]. cbn [stores].
  rewrite (H (Z.of_nat r)) by lia. by rewrite (IH (S r)) by (intros; apply H; lia).
Qed.

Lemma xalloc_args_levels k : ∀ r d L s, levels d L → urange 32 (dl_len s) → (r + k <= 9)%nat →
  (∀ q, Z.of_nat r <= q < Z.of_nat (r + k) → 0 <= L q < 2) →
  ∃ d', xalloc_args_loop k r d s = Some (0, d', add_ir s (stores L k r)) ∧
    levels d' (bump L (Z.of_nat r) (Z.of_nat (r + k))).
Proof.
  induction k as [|k IH]; intros r d L s HL Hs Hr Hq; cbn [xalloc_args_loop stores].
  { exists d. rewrite add_ir_nil by done. split; [done|]. eapply levels_ext; [done|].
    intros q _. unfold bump. destruct (Z.leb_spec (Z.of_nat r) q), (Z.ltb_spec q (Z.of_nat (r + 0))); cbn [andb]; lia. }
  destruct (levels_xalloc d L (Z.of_nat r) s HL) as (d1 & -> & HL1); [lia|apply Hq; lia|].
  cbn [mbind option_bind]. change (0 =? -1) with false. cbn iota.
  assert ((if L (Z.of_nat r) =? 1 then cg_spill_store (Z.of_nat r) s else s) =
          add_ir s (if L (Z.of_nat r) =? 1 then [store_node (Z.of_nat r)] else [])) as ->
    by (case_match; [done|by rewrite add_ir_nil]).
  destruct (IH (S r) d1 _ (add_ir s (if L (Z.of_nat r) =? 1 then [store_node (Z.of_nat r)] else [])) HL1)
    as (d2 & -> & HL2); [apply add_ir_len|lia| |].
  { intros q Hq'. unfold upd. rewrite (proj2 (Z.eqb_neq _ _)) by lia. apply Hq. lia. }
  exists d2. rewrite add_ir_add. split.
  - do 4 f_equal. apply stores_ext. intros q Hq'. unfold upd. by rewrite (proj2 (Z.eqb_neq _ _)) by lia.
  - eapply levels_ext; [done|]. intros q _. unfold bump, upd.
    destruct (Z.eqb_spec q (Z.of_nat r)), (Z.leb_spec (Z.of_nat r) q), (Z.leb_spec (Z.of_nat (S r)) q),
      (Z.ltb_spec q (Z.of_nat (S r + k))), (Z.ltb_spec q (Z.of_nat (r + S k))); cbn [andb]; subst; lia.
Qed.

Lemma loads_ext L L' k r : (∀ q, Z.of_nat r <= q < Z.of_nat (r + k) → L q = L' q) → loads L k r = loads L' k r.
Proof.
  revert r. induction k as [|k IH]; intros r H; [done|]. cbn [loads].
  rewrite (H (Z.of_nat r)) by lia. by rewrite (IH (S r)) by (intros; apply H; lia).
Qed.

Lemma free_args_levels k : ∀ r d L s, levels d (bump L (Z.of_nat r) (Z.of_nat (r + k))) → urange 32 (dl_len s) →
  (r + k <= 9)%nat → (∀ q, Z.of_nat r <= q < Z.of_nat (r + k) → 0 <= L q < 2) →
  ∃ d', free_args_loop k r d s = Some (d', add_ir s (loads L k r)) ∧ levels d' L.
Proof.
  induction k as [|k IH]; intros r d L s HL Hs Hr Hq; cbn [free_args_loop loads].
  { exists d. rewrite add_ir_nil by done. split; [done|]. eapply levels_ext; [done|].
    intros q _. unfold bump. destruct (Z.leb_spec (Z.of_nat r) q), (Z.ltb_spec q (Z.of_nat (r + 0))); cbn [andb]; lia. }
  pose proof (Hq (Z.of_nat r) ltac:(lia)) as Hlr.
  assert (bump L (Z.of_nat r) (Z.of_nat (r + S k)) (Z.of_nat r) = L (Z.of_nat r) + 1) as Eb.
  { unfold bump. rewrite (proj2 (Z.leb_le _ _)), (proj2 (Z.ltb_lt _ _)) by lia. done. }
  destruct (levels_free _ _ (Z.of_nat r) s HL) as (d1 & -> & HL1); [lia|lia|].
  rewrite Eb in HL1 |- *. cbn [mbind option_bind].
  replace (L (Z.of_nat r) + 1 =? 2) with (L (Z.of_nat r) =? 1)
    by (destruct (Z.eqb_spec (L (Z.of_nat r)) 1), (Z.eqb_spec (L (Z.of_nat r) + 1) 2); lia).
  assert ((if L (Z.of_nat r) =? 1 then cg_spill_load (Z.of_nat r) s else s) =
          add_ir s (if L (Z.of_nat r) =? 1 then [load_node (Z.of_nat r)] else [])) as ->
    by (case_match; [done|by rewrite add_ir_nil]).
  destruct (IH (S r) d1 L (add_ir s (if L (Z.of_nat r) =? 1 then [load_node (Z.of_nat r)] else [])))
    as (d2 & -> & HL2); [|apply add_ir_len|lia|intros; apply Hq; lia|].
  { eapply levels_ext; [done|]. intros q _. unfold bump, upd.
    destruct (Z.eqb_spec q (Z.of_nat r)), (Z.leb_spec (Z.of_nat r) q), (Z.leb_spec (Z.of_nat (S r)) q),
      (Z.ltb_spec q (Z.of_nat (S r + k))), (Z.ltb_spec q (Z.of_nat (r + S k))); cbn [andb]; subst; lia. }
  exists d2. by rewrite add_ir_add.
Qed.

(** [put] of code that hands out no label. *)
Lemma add_put st frag drp : ok st →
  mk_cgs (add_ir (pcb_ir st) frag) drp (cg_ids st) (dt_tstrings st) (dt_ccstab st) =
  put st frag 0 drp (cg_ids st).
Proof.
  intros [H1 H2]. unfold put, add_ir. by rewrite Z.add_0_r, (wrap_id 32 (dl_label _)) by done.
Qed.

Lemma makes_alloc_args st L ids : ok st → cg_ids st = ids → levels (pcb_regs st) L → (∀ q, 1 <= q < 6 → 0 <= L q < 2) →
  ∃ d', makes alloc_args st tt (stores L 5 1) 0 d' ids ∧ levels d' (bump L 1 6).
Proof.
  intros Hok <- HL Hq. destruct (xalloc_args_levels 5 1 _ _ (pcb_ir st) HL) as (d' & E & HL');
    [apply Hok|lia|intros; apply Hq; lia|]. exists d'. split; [|done].
  unfold makes, alloc_args, regset_xalloc_args, with_regs, dt_regset_xalloc_args, mbind, cg_bind. rewrite E.
  fields. change (0 =? -1) with false. cbn iota. unfold mret, cg_ret. by rewrite add_put.
Qed.

Lemma makes_free_args st L ids : ok st → cg_ids st = ids → levels (pcb_regs st) (bump L 1 6) → (∀ q, 1 <= q < 6 → 0 <= L q < 2) →
  ∃ d', makes regset_free_args st tt (loads L 5 1) 0 d' ids ∧ levels d' L.
Proof.
  intros Hok <- HL Hq. destruct (free_args_levels 5 1 _ L (pcb_ir st) HL) as (d' & E & HL');
    [apply Hok|lia|intros; apply Hq; lia|]. exists d'. split; [|done].
  unfold makes, regset_free_args, with_regs, unit_result, dt_regset_free_args. rewrite E. fields.
  by rewrite add_put.
Qed.

Lemma makes_xalloc0 st L ids : ok st → cg_ids st = ids → levels (pcb_regs st) L → 0 <= L 0 < 2 →
  ∃ d', makes (regset_xalloc BPF_REG_0) st 0 (stores L 1 0) 0 d' ids ∧ levels d' (upd L 0 (L 0 + 1)).
Proof.
  intros Hok <- HL Hq. destruct (levels_xalloc _ _ 0 (pcb_ir st) HL) as (d' & E & HL'); [lia|done|].
  exists d'. split; [|done]. unfold makes, regset_xalloc, with_regs. unfold BPF_REG_0. rewrite E. fields.
  cbn [stores]. change (Z.of_nat 0) with 0. rewrite app_nil_r.
  destruct (L 0 =? 1); [by rewrite <- add_put|by rewrite keep_put].
Qed.

Lemma makes_free0 st L ids : ok st → cg_ids st = ids → levels (pcb_regs st) (upd L 0 (L 0 + 1)) → 0 <= L 0 < 2 →
  ∃ d', makes (regset_free BPF_REG_0) st tt (loads L 1 0) 0 d' ids ∧ levels d' L.
Proof.
  intros Hok <- HL Hq. destruct (levels_free _ _ 0 (pcb_ir st) HL) as (d' & E & HL'); [lia|unfold upd; cbn; lia|].
  exists d'. split.
  - unfold makes, regset_free, with_regs, unit_result. unfold BPF_REG_0. rewrite E. fields.
    cbn [loads]. change (Z.of_nat 0) with 0. rewrite app_nil_r. unfold upd at 1. change (0 =? 0) with true. cbn iota.
    replace (L 0 + 1 =? 2) with (L 0 =? 1) by (destruct (Z.eqb_spec (L 0) 1), (Z.eqb_spec (L 0 + 1) 2); lia).
    destruct (L 0 =? 1); [by rewrite <- add_put|by rewrite keep_put].
  - eapply levels_ext; [done|]. intros q _. unfold upd. change (0 =? 0) with true. cbn iota.
    destruct (Z.eqb_spec q 0); subst; lia.
Qed.

End CgRegs.
