(* ===== verification/CgRun.v ===== *)
(** * Running generated code

    Rules for running, on the machine of [Bpf], the instructions that the code
    generator emits, after the assembler has placed them; and what the machine's
    state is when the generated code holds a stack of values ([ms]). *)
From S2P Require Import Prelude Bpf BpfWords Regset Strtab Ident DtAs Node Cg CgSem CgRegs.
#[local] Open Scope Z_scope.
Import Bpf BpfWords Ident DtAs Node Cg CgSem CgRegs.

Module CgRun.

(** ** Decoding *)

Definition alu_code (a : alu) : Z :=
  match a with
  | MOV => BPF_MOV | ADD => BPF_ADD | SUB => BPF_SUB | MUL => BPF_MUL | DIV => BPF_DIV | MOD => BPF_MOD
  | OR => BPF_OR | AND => BPF_AND | LSH => BPF_LSH | RSH => BPF_RSH | ARSH => BPF_ARSH | XOR => BPF_XOR
  | NEG => BPF_NEG
  end.

Definition cond_code (c : cond) : Z :=
  match c with
  | JEQ => BPF_JEQ | JNE => BPF_JNE | JGT => BPF_JGT | JGE => BPF_JGE | JLT => BPF_JLT | JLE => BPF_JLE
  | JSGT => BPF_JSGT | JSGE => BPF_JSGE | JSLT => BPF_JSLT | JSLE => BPF_JSLE
  end.

Lemma reg_of_rnum r : reg_of (wrap 4 (rnum r)) = Some r.
Proof. by destruct r. Qed.

Lemma decode_alu_reg sym a d s nx :
  decode_insn sym (BPF_ALU64_REG (alu_code a) (rnum d) (rnum s)) nx = Some (Alu a d (R s)).
Proof.
  transitivity (d ← reg_of (wrap 4 (rnum d)); s ← R <$> reg_of (wrap 4 (rnum s)); Some (Alu a d s)); [by destruct a|].
  by rewrite !reg_of_rnum.
Qed.

Lemma decode_alu_imm sym a d v nx :
  decode_insn sym (BPF_ALU64_IMM (alu_code a) (rnum d) v) nx = Some (Alu a d (I (s32 v))).
Proof.
  transitivity (d ← reg_of (wrap 4 (rnum d)); Some (Alu a d (I (s32 v)))); [by destruct a|].
  by rewrite reg_of_rnum.
Qed.

Lemma decode_neg sym d nx : decode_insn sym (BPF_NEG_REG (rnum d)) nx = Some (Alu NEG d (I 0)).
Proof.
  transitivity (d ← reg_of (wrap 4 (rnum d)); Some (Alu NEG d (I 0))); [done|]. by rewrite reg_of_rnum.
Qed.

(** Case analysis over the sizes of loads and stores. *)
Ltac sizes H := repeat (apply elem_of_cons in H as [->|H]; [|]); [..|by apply elem_of_nil in H].

Lemma decode_load sym n d s o nx : n ∈ [1; 2; 4; 8] →
  decode_insn sym (BPF_LOAD (ldstw n) (rnum d) (rnum s) o) nx = Some (Ldx (Z.to_nat n) d s (s16 o)).
Proof.
  intros Hn. transitivity (d ← reg_of (wrap 4 (rnum d)); s ← reg_of (wrap 4 (rnum s));
    Some (Ldx (Z.to_nat n) d s (s16 o))); [|by rewrite !reg_of_rnum].
  by sizes Hn.
Qed.

Lemma decode_store sym n d s o nx : n ∈ [1; 2; 4; 8] →
  decode_insn sym (BPF_STORE (ldstw n) (rnum d) o (rnum s)) nx = Some (Stx (Z.to_nat n) d (s16 o) s).
Proof.
  intros Hn. transitivity (d ← reg_of (wrap 4 (rnum d)); s ← reg_of (wrap 4 (rnum s));
    Some (Stx (Z.to_nat n) d (s16 o) s)); [|by rewrite !reg_of_rnum].
  by sizes Hn.
Qed.

Lemma decode_store_imm sym n d o v nx : n ∈ [1; 2; 4; 8] →
  decode_insn sym (BPF_STORE_IMM (ldstw n) (rnum d) o v) nx = Some (St (Z.to_nat n) d (s16 o) (s32 v)).
Proof.
  intros Hn. transitivity (d ← reg_of (wrap 4 (rnum d)); Some (St (Z.to_nat n) d (s16 o) (s32 v)));
    [|by rewrite !reg_of_rnum].
  by sizes Hn.
Qed.

(** A branch with another distance. *)
Definition with_off (x : bpf_insn) (o : Z) : bpf_insn := mk_insn (code x) (dst_reg x) (src_reg x) o (imm x).

Lemma decode_branch_imm sym c d k lbl o nx :
  decode_insn sym (with_off (BPF_BRANCH_IMM (cond_code c) (rnum d) k lbl) o) nx = Some (J c d (I (s32 k)) (Rel o)).
Proof.
  transitivity (d ← reg_of (wrap 4 (rnum d)); Some (J c d (I (s32 k)) (Rel o))); [by destruct c|].
  by rewrite reg_of_rnum.
Qed.

Lemma decode_branch_reg sym c d s lbl o nx :
  decode_insn sym (with_off (BPF_BRANCH_REG (cond_code c) (rnum d) (rnum s) lbl) o) nx = Some (J c d (R s) (Rel o)).
Proof.
  transitivity (d ← reg_of (wrap 4 (rnum d)); s ← R <$> reg_of (wrap 4 (rnum s)); Some (J c d s (Rel o)));
    [by destruct c|]. by rewrite !reg_of_rnum.
Qed.

Lemma decode_lddw sym d v nx : urange 64 v →
  decode_insn sym (fst (BPF_LDDW (rnum d) v)) (snd (BPF_LDDW nx v)) = Some (Lddw d v).
Proof.
  intros Hv. transitivity (d ← reg_of (wrap 4 (rnum d));
    Some (Lddw d (u32 (s32 (u32 v)) + Z.shiftl (u32 (s32 (u32 (Z.shiftr (u64 v) 32)))) 32))); [done|].
  rewrite reg_of_rnum. cbn [mbind option_bind]. do 2 f_equal. unfold urange in Hv.
  rewrite Z.shiftl_mul_pow2, Z.shiftr_div_pow2 by lia. unfold swrap, wrap.
  change (2 ^ (32 - 1)) with (2 ^ 31). lia.
Qed.

Lemma size_ok_cases n : size_ok n = true → n ∈ [1; 2; 4; 8].
Proof.
  unfold size_ok. intros H. apply andb_true_iff in H as [[H1 H2]%andb_true_iff H3].
  assert (n = 1 ∨ n = 2 ∨ n = 3 ∨ n = 4 ∨ n = 5 ∨ n = 6 ∨ n = 7 ∨ n = 8) as Hc by lia.
  destruct Hc as [->|[->|[->|[->|[->|[->|[->| ->]]]]]]]; try done; set_solver.
Qed.

Lemma s16_label l : 0 < l < 2 ^ 15 → s16 l = l.
Proof. intros. apply swrap_id; [done|]. unfold srange. change (16 - 1) with 15. lia. Qed.

Lemma jump_not_nop lbl : 0 < lbl < 2 ^ 15 → BPF_IS_NOP (BPF_JUMP lbl) = false ∧ is_branch (BPF_JUMP lbl) = true.
Proof.
  intros H. assert (BPF_IS_NOP (BPF_JUMP lbl) = false) as E.
  { change (BPF_IS_NOP (BPF_JUMP lbl)) with (s16 lbl =? 0). rewrite s16_label by done. by apply Z.eqb_neq; lia. }
  split; [done|]. unfold is_branch. rewrite E. done.
Qed.

Lemma is_label_nop l : l ≠ 0 → is_label (mk_irnode l BPF_NOP 0) = true.
Proof. intros Hl. unfold is_label. cbn [di_label di_instr]. by rewrite (proj2 (Z.eqb_neq l _)). Qed.

Lemma is_label_insn l i x : BPF_IS_NOP i = false → is_label (mk_irnode l i x) = false.
Proof. intros Hi. unfold is_label. cbn [di_label di_instr]. rewrite Hi. by rewrite orb_true_r. Qed.

Definition setx_code (d : reg) (v : Z) : list dt_irnode :=
  [mk_irnode 0 (fst (BPF_LDDW (rnum d) v)) 0; mk_irnode 0 (snd (BPF_LDDW (rnum d) v)) 0].

(** ** Registers *)

Lemma rget_rset_eq rs d v : length rs = 11%nat → rget (rset rs d v) d = Some v.
Proof. intros Hl. unfold rget, rset, regs in *. rewrite list_lookup_insert_eq; [done|]. rewrite Hl. destruct d; cbn; lia. Qed.

Lemma rget_rset_ne rs d e v : d ≠ e → rget (rset rs d v) e = rget rs e.
Proof.
  intros Hne. unfold rget, rset, regs in *. rewrite list_lookup_insert_ne; [done|].
  intros E. apply Hne. destruct d, e; done.
Qed.

Lemma rset_length rs d v : length (rset rs d v) = length rs.
Proof. apply length_insert. Qed.

Lemma rget_after_call rs v r : (6 <= reg_idx r)%nat → length rs = 11%nat →
  rget (after_call rs v) r = rget rs r.
Proof.
  intros Hr Hl. unfold rget. cbn [after_call].
  do 11 (destruct rs as [|? rs]; [done|]). by destruct r; cbn in Hr |- *; try lia.
Qed.

Lemma sreg_inj j k : sreg j = sreg k → (j mod 9 = k mod 9)%nat.
Proof.
  intros E. apply (f_equal rnum) in E. rewrite !sreg_num in E.
  apply Nat2Z.inj. rewrite !Nat2Z.inj_mod. change (Z.of_nat 9) with 9. lia.
Qed.

Lemma sreg_ne j k : (j < k < j + 9)%nat → sreg j ≠ sreg k.
Proof.
  intros H E. apply sreg_inj in E. assert (Z.of_nat j mod 9 = Z.of_nat k mod 9) as E'.
  { change 9 with (Z.of_nat 9). by rewrite <- !Nat2Z.inj_mod, E. }
  lia.
Qed.

Lemma sreg_not_fp k : sreg k ≠ fp ∧ sreg k ≠ r9.
Proof.
  pose proof (sreg_num k) as H. split; intros E; rewrite E in H; unfold rnum in H; cbn in H; lia.
Qed.

Lemma sreg_9 k : sreg (k + 9) = sreg k.
Proof. unfold sreg. by rewrite <- (Nat.mul_1_l 9) at 1; rewrite Nat.Div0.mod_add. Qed.

(** *** Spilled values *)

Definition spill_slot (k : nat) : Z := 512 + Regset.DT_STK_SPILL (rnum (sreg k)).

Lemma spill_slot_range k : 0 <= spill_slot k ∧ spill_slot k + 8 <= 512 + Regset.DT_STK_DCTX.
Proof.
  unfold spill_slot, Regset.DT_STK_SPILL, Regset.DT_STK_SPILL_BASE, Regset.DT_STK_DCTX, Regset.DCTX_SIZE,
    Regset.DT_STK_SLOT_SZ. pose proof (sreg_num k). lia.
Qed.

Lemma spill_slot_apart j k : (j < 9)%nat → (k < 9)%nat → j ≠ k →
  spill_slot j + 8 <= spill_slot k ∨ spill_slot k + 8 <= spill_slot j.
Proof.
  intros. unfold spill_slot, Regset.DT_STK_SPILL, Regset.DT_STK_SLOT_SZ.
  pose proof (sreg_num j). pose proof (sreg_num k). lia.
Qed.

Lemma spill_srange k : srange 16 (Regset.DT_STK_SPILL (rnum (sreg k))).
Proof.
  pose proof (spill_slot_range k) as H. unfold spill_slot, Regset.DT_STK_DCTX, Regset.DCTX_SIZE in H.
  unfold srange. change (16 - 1) with 15. lia.
Qed.

(** *** Bytes of a block *)

Lemma load_bytes (m : mem) b o n bs : m !! b = Some (Byte <$> bs) → 0 <= o → o + n <= Z.of_nat (length bs) → 0 <= n →
  load m b o (Z.to_nat n) = Some (Int (read_le bs o n)).
Proof.
  intros Hm Ho Hn Hn0. unfold load, loadn. rewrite Hm. cbn [mbind option_bind].
  rewrite decide_True by (rewrite length_fmap; lia). cbn [mbind option_bind].
  rewrite <- fmap_drop, <- fmap_take. apply decode_bytes.
Qed.

Lemma store_bytes (m : mem) b o n bs v : m !! b = Some (Byte <$> bs) → 0 <= o → o + n <= Z.of_nat (length bs) → 0 <= n →
  store m b o (Z.to_nat n) (Int v) = Some (<[b := Byte <$> write_le bs o n v]> m).
Proof.
  intros Hm Ho Hn Hn0. unfold store, encode. cbn [mbind option_bind]. rewrite Z2Nat.id by lia.
  assert (length (Z_to_little_endian n 8 v) = Z.to_nat n) as Hl.
  { pose proof (length_Z_to_little_endian n 8 v ltac:(lia)). lia. }
  unfold storen. rewrite Hm. cbn [mbind option_bind].
  rewrite decide_True by (rewrite !length_fmap, Hl; lia). rewrite overwrite_bytes. unfold write_le. by rewrite Hl.
Qed.

Lemma write_le_length bs o n v : 0 <= o → 0 <= n → o + n <= Z.of_nat (length bs) →
  length (write_le bs o n v) = length bs.
Proof.
  intros. unfold write_le. pose proof (length_Z_to_little_endian n 8 v ltac:(lia)).
  rewrite !length_app, length_take, length_drop. lia.
Qed.

Lemma write_le_bytes bs o n v : Forall byte bs → 0 <= n → Forall byte (write_le bs o n v).
Proof.
  intros H Hn. unfold write_le. apply Forall_app_2; [by apply Forall_take|]. apply Forall_app_2; [|by apply Forall_drop].
  apply (Z_to_little_endian_bound n 8 v); lia.
Qed.

Lemma read_le_range bs o n : Forall byte bs → 0 <= n <= 8 → urange 64 (read_le bs o n).
Proof.
  intros H Hn. unfold read_le. set (w := take (Z.to_nat n) (drop (Z.to_nat o) bs)).
  assert (Forall byte w) as Hw by by apply Forall_take, Forall_drop.
  pose proof (le_range w Hw) as Hr. assert (Z.of_nat (length w) <= 8) by (unfold w; rewrite length_take; lia).
  assert (2 ^ (8 * Z.of_nat (length w)) <= 2 ^ 64) by (apply Z.pow_le_mono_r; lia).
  unfold urange. lia.
Qed.

(** ** Placed code *)

(** The machine on which the code runs: the helpers, the functions of the BPF
    library and their names; the program [c_P] that the array [c_buf] is, with
    the table of its labels; the blocks of the stack frame, of the DTrace
    context, of the global and of the local variables (of [gsize] and [lsize]
    bytes); the memory when the clause began and the register that is reserved;
    and the function [dt_probe_error(dctx, -1, fault, 0)], of number [err_id],
    with what it does to a memory in which only the stack and the variables
    changed: it leaves the stack of its caller alone. *)
Record ctx (err_id gsize lsize : Z) := mk_ctx {
  c_helper : Z → list (option val) → mem → option (val * mem);
  c_funs : string → option (list insn);
  c_sym : Z → string;
  c_labels : list Z;
  c_buf : list bpf_insn;
  c_P : list insn;
  c_fb : Z;
  c_bd : Z;
  c_bg : Z;
  c_bl : Z;
  c_m0 : mem;
  c_v9 : option val;
  c_dd : list memval;
  c_err : Z → mem → mem;
  c_err_code : list insn;
  c_prog : decode_prog c_sym c_buf = Some c_P;
  c_small : Z.of_nat (length c_buf) < 2 ^ 15;
  c_distinct : NoDup [c_fb; c_bd; c_bg; c_bl];
  c_dctx : c_m0 !! c_bd = Some c_dd;
  c_gv : slot c_dd DCTX_GVARS (Ptr c_bg 0);
  c_lv : slot c_dd DCTX_LVARS (Ptr c_bl 0);
  c_err_fun : c_funs (c_sym err_id) = Some c_err_code;
  c_err_run : ∀ fault (m : mem) x5,
    (∀ b, b ≠ c_fb → b ≠ c_bg → b ≠ c_bl → m !! b = c_m0 !! b) → ∃ w m',
    runs_to c_helper c_funs c_err_code (c_fb - 1) 0
      [None; Some (Ptr c_bd 0); Some (Int (2 ^ 64 - 1)); Some (Int fault); Some (Int 0); x5;
       None; None; None; None; Some (Ptr (c_fb - 1) 512)] (<[c_fb - 1 := frame0]> m) w m' ∧
    delete (c_fb - 1) m' = c_err fault m;
  c_err_frame : ∀ fault (m : mem), c_err fault m !! c_fb = m !! c_fb
}.
Arguments c_helper {_ _ _}. Arguments c_funs {_ _ _}. Arguments c_sym {_ _ _}. Arguments c_labels {_ _ _}.
Arguments c_buf {_ _ _}. Arguments c_P {_ _ _}. Arguments c_fb {_ _ _}. Arguments c_bd {_ _ _}.
Arguments c_bg {_ _ _}. Arguments c_bl {_ _ _}. Arguments c_m0 {_ _ _}. Arguments c_v9 {_ _ _}.
Arguments c_dd {_ _ _}. Arguments c_err {_ _ _}. Arguments c_err_code {_ _ _}. Arguments c_prog {_ _ _}.
Arguments c_small {_ _ _}. Arguments c_distinct {_ _ _}. Arguments c_dctx {_ _ _}. Arguments c_gv {_ _ _}.
Arguments c_lv {_ _ _}. Arguments c_err_fun {_ _ _}. Arguments c_err_run {_ _ _}. Arguments c_err_frame {_ _ _}.

Section Run.
Context {err_id gsize lsize : Z} (C : ctx err_id gsize lsize).
#[local] Abbreviation helper := (c_helper C).
#[local] Abbreviation funs := (c_funs C).
#[local] Abbreviation sym := (c_sym C).
#[local] Abbreviation labels := (c_labels C).
#[local] Abbreviation buf := (c_buf C).
#[local] Abbreviation P := (c_P C).
#[local] Abbreviation fb := (c_fb C).
#[local] Abbreviation bd := (c_bd C).
#[local] Abbreviation bg := (c_bg C).
#[local] Abbreviation bl := (c_bl C).
#[local] Abbreviation m0 := (c_m0 C).
#[local] Abbreviation v9 := (c_v9 C).
#[local] Abbreviation dd := (c_dd C).

(** The code [dips] is at [pc]. *)
Definition at_pc (pc : Z) (dips : list dt_irnode) : Prop :=
  0 <= pc ∧ pc + size dips <= Z.of_nat (length buf) ∧ code_at labels buf pc dips.

Lemma at_app pc a b : at_pc pc (a ++ b) → at_pc pc a ∧ at_pc (pc + size a) b.
Proof.
  unfold at_pc, code_at. rewrite size_app, placed_app. intros (H1 & H2 & H3 & H4).
  pose proof (size_nonneg a). pose proof (size_nonneg b). split_and!; try done; lia.
Qed.

(** A step from one state to another, with any end of the run. *)
Definition goes (pc : Z) (rs : regs) (m : mem) (pc' : Z) (rs' : regs) (m' : mem) : Prop :=
  ∀ v mf, runs_to helper funs P fb pc' rs' m' v mf → runs_to helper funs P fb pc rs m v mf.

Lemma goes_refl pc rs m : goes pc rs m pc rs m.
Proof. by intros v mf. Qed.

Lemma goes_trans pc rs m pc1 rs1 m1 pc2 rs2 m2 :
  goes pc rs m pc1 rs1 m1 → goes pc1 rs1 m1 pc2 rs2 m2 → goes pc rs m pc2 rs2 m2.
Proof. intros H1 H2 v mf H. apply H1, H2, H. Qed.

Lemma at_label pc l rest : l ≠ 0 → at_pc pc (mk_irnode l BPF_NOP 0 :: rest) →
  labels !! Z.to_nat l = Some pc ∧ at_pc pc rest.
Proof.
  intros Hl. unfold at_pc, code_at. cbn [placed size]. rewrite is_label_nop by done. cbn [di_label].
  unfold DT_LBL_NONE. intros (H1 & H2 & H3 & H4). split_and!; try done; auto; lia.
Qed.

(** An instruction, its label and what follows. *)
Lemma at_insn pc l i x rest : BPF_IS_NOP i = false → at_pc pc (mk_irnode l i x :: rest) →
  (l ≠ 0 → labels !! Z.to_nat l = Some pc) ∧ at_pc (pc + 1) rest ∧
  ∃ y, as_branch labels (Z.of_nat (length labels)) pc i = Some y ∧
       fetch P pc = decode_insn sym y (default (insn_of 0 0 0 0 0) (buf !! S (Z.to_nat pc))).
Proof.
  intros Hi. unfold at_pc, code_at. cbn [placed size]. rewrite is_label_insn by done. cbn [di_label di_instr].
  unfold DT_LBL_NONE. intros (H1 & H2 & H3 & (y & Hy & Hb) & H4).
  split_and!; try done; try lia. exists y. split; [done|]. apply decode_prog_fetch; [apply c_prog|done..].
Qed.

Lemma at_plain pc l i x rest : at_pc pc (mk_irnode l i x :: rest) → BPF_IS_NOP i = false → is_branch i = false →
  fetch P pc = decode_insn sym i (default (insn_of 0 0 0 0 0) (buf !! S (Z.to_nat pc))).
Proof.
  intros Ha Hi Hb. destruct (at_insn _ _ _ _ _ Hi Ha) as (_ & _ & y & Hy & ->).
  rewrite as_branch_other in Hy by done. by simplify_eq.
Qed.

(** What follows an instruction. *)
Lemma at_next pc l i x rest : at_pc pc (mk_irnode l i x :: rest) → BPF_IS_NOP i = false → at_pc (pc + 1) rest.
Proof. intros Ha Hi. by apply at_insn in Ha as (_ & ? & _). Qed.

Lemma goes_alu_reg pc l a d s x rest rs rs' m :
  at_pc pc (mk_irnode l (BPF_ALU64_REG (alu_code a) (rnum d) (rnum s)) x :: rest) →
  alu_step rs a d (R s) = Some rs' → goes pc rs m (pc + 1) rs' m.
Proof.
  intros Ha Hs v mf. apply runs_alu with a d (R s); [|done].
  rewrite (at_plain _ _ _ _ _ Ha) by (by destruct a). apply decode_alu_reg.
Qed.

Lemma goes_alu_imm pc l a d k x rest rs rs' m :
  at_pc pc (mk_irnode l (BPF_ALU64_IMM (alu_code a) (rnum d) k) x :: rest) →
  alu_step rs a d (I (s32 k)) = Some rs' → goes pc rs m (pc + 1) rs' m.
Proof.
  intros Ha Hs v mf. apply runs_alu with a d (I (s32 k)); [|done].
  rewrite (at_plain _ _ _ _ _ Ha) by (by destruct a). apply decode_alu_imm.
Qed.

Lemma goes_neg pc l d x rest rs rs' m :
  at_pc pc (mk_irnode l (BPF_NEG_REG (rnum d)) x :: rest) →
  alu_step rs NEG d (I 0) = Some rs' → goes pc rs m (pc + 1) rs' m.
Proof.
  intros Ha Hs v mf. apply runs_alu with NEG d (I 0); [|done].
  rewrite (at_plain _ _ _ _ _ Ha) by done. apply decode_neg.
Qed.

Lemma goes_load pc l n d s o x rest rs m b k w : n ∈ [1; 2; 4; 8] → srange 16 o →
  at_pc pc (mk_irnode l (BPF_LOAD (ldstw n) (rnum d) (rnum s) o) x :: rest) →
  rget rs s = Some (Ptr b k) → load m b (k + o) (Z.to_nat n) = Some w →
  goes pc rs m (pc + 1) (rset rs d w) m.
Proof.
  intros Hn Ho Ha Hs Hl v mf. apply runs_ldx with (Z.to_nat n) s o b (k + o); [|by unfold addr; rewrite Hs|done].
  rewrite (at_plain _ _ _ _ _ Ha) by (by sizes Hn).
  rewrite decode_load by done. by rewrite swrap_id.
Qed.

Lemma goes_store pc l n d s o x rest rs m b k w m' : n ∈ [1; 2; 4; 8] → srange 16 o →
  at_pc pc (mk_irnode l (BPF_STORE (ldstw n) (rnum d) o (rnum s)) x :: rest) →
  rget rs d = Some (Ptr b k) → rget rs s = Some w → store m b (k + o) (Z.to_nat n) w = Some m' →
  goes pc rs m (pc + 1) rs m'.
Proof.
  intros Hn Ho Ha Hd Hs Hl v mf. apply runs_stx with (Z.to_nat n) d o s b (k + o) w; [|by unfold addr; rewrite Hd|done..].
  rewrite (at_plain _ _ _ _ _ Ha) by (by sizes Hn).
  rewrite decode_store by done. by rewrite swrap_id.
Qed.

Lemma goes_store_imm pc l n d o c x rest rs m b k m' : n ∈ [1; 2; 4; 8] → srange 16 o →
  at_pc pc (mk_irnode l (BPF_STORE_IMM (ldstw n) (rnum d) o c) x :: rest) →
  rget rs d = Some (Ptr b k) → store m b (k + o) (Z.to_nat n) (Int (imm64 (s32 c))) = Some m' →
  goes pc rs m (pc + 1) rs m'.
Proof.
  intros Hn Ho Ha Hd Hl v mf. apply runs_st with (Z.to_nat n) d o (s32 c) b (k + o); [|by unfold addr; rewrite Hd|done..].
  rewrite (at_plain _ _ _ _ _ Ha) by (by sizes Hn).
  rewrite decode_store_imm by done. by rewrite (swrap_id 16).
Qed.

(** The distance that takes a branch at [pc] to its label. *)
Lemma at_branch pc l i x rest a : at_pc pc (mk_irnode l i x :: rest) → BPF_IS_NOP i = false → is_branch i = true →
  0 < off i < 2 ^ 15 → labels !! Z.to_nat (off i) = Some a → 0 <= a <= Z.of_nat (length buf) →
  fetch P pc = decode_insn sym (with_off i (a - pc - 1)) (default (insn_of 0 0 0 0 0) (buf !! S (Z.to_nat pc))).
Proof.
  intros Ha Hi Hb Ho Hl Hr. pose proof (lookup_lt_Some _ _ _ Hl). pose proof (c_small C).
  assert (pc < Z.of_nat (length buf)) as Hpc.
  { destruct Ha as (_ & Hs & _). cbn [size] in Hs. rewrite is_label_insn in Hs by done.
    pose proof (size_nonneg rest). lia. }
  destruct (at_insn _ _ _ _ _ Hi Ha) as (_ & _ & y & Hy & ->). destruct Ha as (Hpc0 & _ & _).
  rewrite (as_branch_label _ _ _ _ a Hb) in Hy by (done || lia). injection Hy as <-.
  unfold with_off. rewrite swrap_id by (unfold srange; change (16 - 1) with 15; lia). done.
Qed.

Lemma goes_branch_imm pc l c d k lbl x rest rs m a z :
  at_pc pc (mk_irnode l (BPF_BRANCH_IMM (cond_code c) (rnum d) k lbl) x :: rest) → 0 < lbl < 2 ^ 15 →
  labels !! Z.to_nat lbl = Some a → 0 <= a <= Z.of_nat (length buf) → rget rs d = Some (Int z) →
  goes pc rs m (if cond_int c z (imm64 (s32 k)) then a else pc + 1) rs m.
Proof.
  intros Ha Hl Hlab Hr Hd v mf H.
  apply runs_j with (c := c) (d := d) (s := I (s32 k)) (n := a - pc - 1) (a := Int z) (b := Int (imm64 (s32 k)))
    (t := cond_int c z (imm64 (s32 k))); [|exact Hd|done|by destruct c|].
  - rewrite (at_branch _ _ _ _ _ a Ha); [apply decode_branch_imm|by destruct c|by destruct c| | |done].
    + change (0 < s16 lbl < 2 ^ 15). by rewrite s16_label.
    + change (labels !! Z.to_nat (s16 lbl) = Some a). by rewrite s16_label.
  - replace (pc + 1 + (a - pc - 1)) with a by lia. done.
Qed.

Lemma goes_branch_reg pc l c d s lbl x rest rs m a z w :
  at_pc pc (mk_irnode l (BPF_BRANCH_REG (cond_code c) (rnum d) (rnum s) lbl) x :: rest) → 0 < lbl < 2 ^ 15 →
  labels !! Z.to_nat lbl = Some a → 0 <= a <= Z.of_nat (length buf) →
  rget rs d = Some (Int z) → rget rs s = Some (Int w) →
  goes pc rs m (if cond_int c z w then a else pc + 1) rs m.
Proof.
  intros Ha Hl Hlab Hr Hd Hs v mf H.
  apply runs_j with (c := c) (d := d) (s := R s) (n := a - pc - 1) (a := Int z) (b := Int w)
    (t := cond_int c z w); [|exact Hd|exact Hs|by destruct c|].
  - rewrite (at_branch _ _ _ _ _ a Ha); [apply decode_branch_reg|by destruct c|by destruct c| | |done].
    + change (0 < s16 lbl < 2 ^ 15). by rewrite s16_label.
    + change (labels !! Z.to_nat (s16 lbl) = Some a). by rewrite s16_label.
  - replace (pc + 1 + (a - pc - 1)) with a by lia. done.
Qed.

Lemma goes_jump pc l lbl x rest rs m a :
  at_pc pc (mk_irnode l (BPF_JUMP lbl) x :: rest) → 0 < lbl < 2 ^ 15 →
  labels !! Z.to_nat lbl = Some a → 0 <= a <= Z.of_nat (length buf) → goes pc rs m a rs m.
Proof.
  intros Ha Hl Hlab Hr v mf H. destruct (jump_not_nop lbl Hl) as [Hn Hb].
  apply runs_ja with (n := a - pc - 1); [|by replace (pc + 1 + (a - pc - 1)) with a by lia].
  rewrite (at_branch _ _ _ _ _ a Ha); [done|done|done| | |done].
  - change (0 < s16 lbl < 2 ^ 15). by rewrite s16_label.
  - change (labels !! Z.to_nat (s16 lbl) = Some a). by rewrite s16_label.
Qed.

Lemma at_buf pc l i x rest : at_pc pc (mk_irnode l i x :: rest) → BPF_IS_NOP i = false → is_branch i = false →
  buf !! Z.to_nat pc = Some i.
Proof.
  unfold at_pc, code_at. intros Ha Hi Hb. cbn [placed size] in Ha. rewrite is_label_insn in Ha by done.
  destruct Ha as (_ & _ & _ & (y & Hy & ->) & _). cbn [di_instr] in Hy. by rewrite as_branch_other in Hy by done.
Qed.

Lemma goes_setx pc d v rs m :
  at_pc pc (setx_code d v) → urange 64 v → goes pc rs m (pc + 2) (rset rs d (Int v)) m.
Proof.
  intros Ha Hv. pose proof (at_next _ _ _ _ _ Ha eq_refl) as Ha1. assert (0 <= pc) by apply Ha.
  eapply goes_trans with (pc1 := pc + 1).
  - intros w mf. apply runs_lddw. rewrite (at_plain _ _ _ _ _ Ha) by done.
    replace (S (Z.to_nat pc)) with (Z.to_nat (pc + 1)) by lia. rewrite (at_buf _ _ _ _ _ Ha1) by done.
    apply (decode_lddw sym d v (rnum d)). done.
  - intros w mf Hr. apply runs_ja with (n := 0); [by rewrite (at_plain _ _ _ _ _ Ha1)|].
    by replace (pc + 1 + 1 + 0) with (pc + 2) by lia.
Qed.

(** ** The machine while an expression is evaluated *)

(** The values [vs] are held: the last nine of [n] in registers, those before
    them on the stack; [s] are the variables. *)
Record ms (n : nat) (vs : list Z) (s : venv) (rs : regs) (m : mem) : Prop := {
  ms_len : length rs = 11%nat;
  ms_fp : rget rs fp = Some (Ptr fb 512);
  ms_r9 : rget rs r9 = v9;
  ms_frame : ∃ fr, m !! fb = Some fr ∧ length fr = 512%nat ∧ slot fr (512 + Regset.DT_STK_DCTX) (Ptr bd 0) ∧
    ∀ k v, vs !! k = Some v → (k + 9 < n)%nat → slot fr (spill_slot k) (Int v);
  ms_regs : ∀ k v, vs !! k = Some v → (n <= k + 9)%nat → rget rs (sreg k) = Some (Int v);
  ms_vals : Forall (urange 64) vs;
  ms_g : m !! bg = Some (Byte <$> gvars s);
  ms_l : m !! bl = Some (Byte <$> lvars s);
  ms_gbytes : Forall byte (gvars s);
  ms_lbytes : Forall byte (lvars s);
  ms_gsize : Z.of_nat (length (gvars s)) = gsize;
  ms_lsize : Z.of_nat (length (lvars s)) = lsize;
  ms_rest : ∀ b, b ≠ fb → b ≠ bg → b ≠ bl → m !! b = m0 !! b
}.

Lemma ms_prefix n vs v s rs m : ms n (vs ++ [v]) s rs m → ms n vs s rs m.
Proof.
  intros []. constructor; try done.
  - destruct ms_frame0 as (fr & ? & ? & ? & H). exists fr. split_and!; try done.
    intros k w Hk. apply H. by apply lookup_app_l_Some.
  - intros k w Hk. apply ms_regs0. by apply lookup_app_l_Some.
  - by apply Forall_app in ms_vals0 as [? _].
Qed.

(** The value in the register on top. *)
Lemma ms_top n vs v s rs m : length vs = n → ms (n + 1) (vs ++ [v]) s rs m → rget rs (sreg n) = Some (Int v).
Proof.
  intros Hn H. apply (ms_regs _ _ _ _ _ H); [|lia]. subst. apply list_lookup_middle. done.
Qed.

(** Setting the top register. *)
Lemma ms_set n vs v s rs m : length vs = n → urange 64 v → ms (n + 1) vs s rs m →
  ms (n + 1) (vs ++ [v]) s (rset rs (sreg n) (Int v)) m.
Proof.
  intros Hn Hv []. destruct (sreg_not_fp n) as [Hfp H9]. constructor; try done.
  - by rewrite rset_length.
  - by rewrite rget_rset_ne.
  - by rewrite rget_rset_ne.
  - destruct ms_frame0 as (fr & ? & ? & ? & H). exists fr. split_and!; try done.
    intros k w Hk Hkn. apply H; [|done]. rewrite lookup_app_l in Hk by lia. done.
  - intros k w Hk Hkn. destruct (decide (k = n)) as [->|Hne].
    + rewrite rget_rset_eq by done. rewrite <- Hn, list_lookup_middle in Hk by done. congruence.
    + pose proof (lookup_lt_Some _ _ _ Hk) as Hlt. rewrite length_app in Hlt. cbn in Hlt.
      rewrite rget_rset_ne by (intros E; apply (sreg_ne k n); [lia|done]). apply ms_regs0; [|done].
      by rewrite lookup_app_l in Hk by lia.
  - apply Forall_app_2; [done|by constructor].
Qed.

(** Another value for the top register. *)
Lemma ms_reset n vs v w s rs m : length vs = n → urange 64 w → ms (n + 1) (vs ++ [v]) s rs m →
  ms (n + 1) (vs ++ [w]) s (rset rs (sreg n) (Int w)) m.
Proof. intros Hn Hw H. apply ms_set; [done..|]. by eapply ms_prefix. Qed.

(** Any other value in the register above the stack. *)
Lemma ms_scratch n vs v s rs m : length vs = n → ms (n + 1) vs s rs m →
  ms (n + 1) vs s (rset rs (sreg n) v) m.
Proof.
  intros Hn []. destruct (sreg_not_fp n) as [Hfp H9]. constructor; try done.
  - by rewrite rset_length.
  - by rewrite rget_rset_ne.
  - by rewrite rget_rset_ne.
  - intros k w Hk Hkn. pose proof (lookup_lt_Some _ _ _ Hk) as Hlt.
    rewrite rget_rset_ne by (intros E; apply (sreg_ne k n); [lia|done]). by apply ms_regs0.
Qed.

(** *** Spilled values *)

(** A register is allocated: the value it held is stored. *)
Lemma goes_spill n vs s pc rs m : length vs = n → (n < 18)%nat → at_pc pc (spill_code n) → ms n vs s rs m →
  ∃ m', goes pc rs m (pc + size (spill_code n)) rs m' ∧ ms (n + 1) vs s rs m'.
Proof.
  intros Hn Hn18 Ha Hm. unfold spill_code in *. destruct (Nat.ltb_spec n 9) as [H9|H9].
  { exists m. rewrite Z.add_0_r. split; [apply goes_refl|]. destruct Hm. constructor; try done.
    - destruct ms_frame0 as (fr & ? & ? & ? & H). exists fr. split_and!; try done. intros; lia.
    - intros k v Hk Hkn. apply ms_regs0; [done|lia]. }
  pose proof Hm as Hm1. destruct Hm. destruct ms_frame0 as (fr & Hfr & Hlen & Hdc & Hsl).
  destruct (lookup_lt_is_Some_2 vs (n - 9)) as [v Hv]; [lia|].
  assert (rget rs (sreg n) = Some (Int v)) as Hrv.
  { replace n with (n - 9 + 9)%nat at 1 by lia. rewrite sreg_9. apply ms_regs0; [done|lia]. }
  assert (urange 64 v) as Hvr by (eapply Forall_lookup_1 in ms_vals0; done).
  pose proof (spill_slot_range n) as Hss.
  destruct (store_slot m fb (spill_slot n) fr (Int v) Hfr) as (fr' & Hst & Hl' & Hnew & Hold); [lia| |done|].
  { rewrite Hlen. unfold Regset.DT_STK_DCTX, Regset.DCTX_SIZE in Hss. lia. }
  exists (<[fb := fr']> m). split.
  { eapply (goes_store pc 0 8 fp (sreg n) (Regset.DT_STK_SPILL (rnum (sreg n)))); [set_solver|apply spill_srange|exact Ha|exact ms_fp0|exact Hrv|exact Hst]. }
  assert (spill_slot n = spill_slot (n - 9)) as Es.
  { unfold spill_slot. replace n with (n - 9 + 9)%nat at 1 by lia. by rewrite sreg_9. }
  assert (fb ≠ bd ∧ fb ≠ bg ∧ fb ≠ bl) as (? & ? & ?).
  { pose proof (c_distinct C) as Hdistinct; apply NoDup_cons in Hdistinct as [Hni _]. set_solver. }
  constructor; try done.
  - exists fr'. rewrite lookup_insert_eq. split_and!; [done|lia|apply Hold; [done|right; lia]|].
    intros k w Hk Hkn. destruct (decide (k = n - 9)%nat) as [->|Hne].
    + assert (w = v) as -> by congruence. by rewrite <- Es.
    + apply Hold; [apply Hsl; [done|lia]|]. rewrite Es. apply spill_slot_apart; lia.
  - intros k w Hk Hkn. apply ms_regs0; [done|lia].
  - by rewrite lookup_insert_ne.
  - by rewrite lookup_insert_ne.
  - intros b Hb Hbg Hbl. rewrite lookup_insert_ne by done. auto.
Qed.

(** The top register is freed: the value it held before is loaded again. *)
Lemma goes_unspill n vs s pc rs m : length vs = n → at_pc pc (unspill_code n) → (n < 18)%nat →
  ms (n + 1) vs s rs m → ∃ rs', goes pc rs m (pc + size (unspill_code n)) rs' m ∧ ms n vs s rs' m.
Proof.
  intros Hn Ha Hn18 Hm. unfold unspill_code in *. destruct (Nat.ltb_spec n 9) as [H9|H9].
  { exists rs. rewrite Z.add_0_r. split; [apply goes_refl|]. destruct Hm. constructor; try done.
    - destruct ms_frame0 as (fr & ? & ? & ? & H). exists fr. split_and!; try done. intros; lia.
    - intros k v Hk Hkn. pose proof (lookup_lt_Some _ _ _ Hk). apply ms_regs0; [done|lia]. }
  destruct Hm. destruct ms_frame0 as (fr & Hfr & Hlen & Hdc & Hsl).
  destruct (lookup_lt_is_Some_2 vs (n - 9)) as [v Hv]; [lia|].
  assert (spill_slot n = spill_slot (n - 9)) as Es.
  { unfold spill_slot. replace n with (n - 9 + 9)%nat at 1 by lia. by rewrite sreg_9. }
  assert (sreg n = sreg (n - 9)) as Er by (replace n with (n - 9 + 9)%nat at 1 by lia; apply sreg_9).
  exists (rset rs (sreg n) (Int v)). destruct (sreg_not_fp n) as [Hnfp Hn9]. split.
  { eapply (goes_load pc 0 8 (sreg n) fp (Regset.DT_STK_SPILL (rnum (sreg n)))); [set_solver|apply spill_srange|exact Ha|exact ms_fp0|].
    eapply load_slot; [done|]. fold (spill_slot n). rewrite Es. apply Hsl; [done|lia]. }
  constructor; try done.
  - by rewrite rset_length.
  - by rewrite rget_rset_ne.
  - by rewrite rget_rset_ne.
  - exists fr. split_and!; try done. intros k w Hk Hkn. apply Hsl; [done|lia].
  - intros k w Hk Hkn. pose proof (lookup_lt_Some _ _ _ Hk). destruct (decide (k = n - 9)%nat) as [->|Hne].
    + rewrite <- Er, rget_rset_eq by done. congruence.
    + rewrite rget_rset_ne by (intros E; apply (sreg_ne k n); [lia|done]). apply ms_regs0; [done|lia].
Qed.

(** *** Variables *)

Definition block_of (i : dt_ident) : Z := if is_local i then bl else bg.
Definition block_vars (i : dt_ident) (s : venv) : list Z := if is_local i then lvars s else gvars s.

Lemma ms_block n vs s rs m i : ms n vs s rs m →
  m !! block_of i = Some (Byte <$> block_vars i s) ∧ Forall byte (block_vars i s) ∧
  Z.of_nat (length (block_vars i s)) = (if is_local i then lsize else gsize).
Proof. intros []. unfold block_of, block_vars. by destruct (is_local i). Qed.

(** The address of the block of a variable. *)
Lemma goes_block n vs s pc rs m i rest : length vs = n → ms (n + 1) vs s rs m →
  at_pc pc (mk_irnode 0 (BPF_LOAD BPF_DW (rnum (sreg n)) BPF_REG_FP Regset.DT_STK_DCTX) 0 ::
            mk_irnode 0 (BPF_LOAD BPF_DW (rnum (sreg n)) (rnum (sreg n)) (block_offset i)) 0 :: rest) →
  ∃ rs', goes pc rs m (pc + 2) rs' m ∧ ms (n + 1) vs s rs' m ∧
    rget rs' (sreg n) = Some (Ptr (block_of i) 0) ∧ at_pc (pc + 2) rest.
Proof.
  intros Hn Hm Ha. set (rs1 := rset rs (sreg n) (Ptr bd 0)).
  exists (rset rs1 (sreg n) (Ptr (block_of i) 0)).
  assert (length rs1 = 11%nat) as Hl1 by (unfold rs1; rewrite rset_length; apply Hm).
  pose proof (at_next _ _ _ _ _ Ha eq_refl) as Ha1. pose proof (at_next _ _ _ _ _ Ha1 eq_refl) as Ha2.
  split_and!.
  - apply goes_trans with (pc + 1) rs1 m.
    + destruct (ms_frame _ _ _ _ _ Hm) as (fr & Hfr & Hlen & Hdc & _).
      eapply (goes_load pc 0 8 (sreg n) fp Regset.DT_STK_DCTX); [set_solver|done|exact Ha|apply Hm|].
      by eapply load_slot.
    + replace (pc + 2) with (pc + 1 + 1) by lia.
      eapply (goes_load (pc + 1) 0 8 (sreg n) (sreg n) (block_offset i)) with (b := bd) (k := 0);
        [set_solver|unfold block_offset; by case_match|exact Ha1|by apply rget_rset_eq; apply Hm|].
      pose proof (c_distinct C) as Hdistinct; apply NoDup_cons in Hdistinct as [Hn1 [Hn2 _]%NoDup_cons].
      eapply load_slot; [rewrite (ms_rest _ _ _ _ _ Hm) by set_solver; apply c_dctx|].
      unfold block_offset, block_of, is_local. case_match; [apply c_lv|apply c_gv].
  - apply ms_scratch; [done|]. by apply ms_scratch.
  - by apply rget_rset_eq.
  - by replace (pc + 2) with (pc + 1 + 1) by lia.
Qed.

(** The store of a value into a variable. *)
Lemma ms_write n vs s rs m i v : ms n vs s rs m → 0 <= di_offset i → 0 <= di_size i →
  di_offset i + di_size i <= (if is_local i then lsize else gsize) →
  ∃ m', store m (block_of i) (di_offset i) (Z.to_nat (di_size i)) (Int v) = Some m' ∧
    ms n vs (write_var i v s).1 rs m'.
Proof.
  intros Hm Ho Hs Hb. destruct (ms_block _ _ _ _ _ i Hm) as (Hblk & Hby & Hlen).
  eexists. split; [apply store_bytes; [done|lia|lia|done]|].
  assert (fb ≠ bg ∧ fb ≠ bl ∧ bg ≠ bl) as (? & ? & ?).
  { pose proof (c_distinct C) as Hdistinct; apply NoDup_cons in Hdistinct as [Hn1 [_ [Hn2 _]%NoDup_cons]%NoDup_cons]. set_solver. }
  destruct Hm. unfold block_of, block_vars, write_var in *. destruct (is_local i); cbn [fst gvars lvars];
    (constructor; cbn [gvars lvars]; try done).
  all: try (by rewrite lookup_insert_eq).
  all: try (by rewrite lookup_insert_ne by congruence).
  all: try (by apply write_le_bytes).
  all: try (by rewrite write_le_length by lia).
  all: try (intros b ? ? ?; rewrite lookup_insert_ne by congruence; by auto).
  all: destruct ms_frame0 as (fr & ? & ? & ? & ?); exists fr; split_and!; try done;
    by rewrite lookup_insert_ne by congruence.
Qed.

End Run.

End CgRun.
