(* ===== verification/CgWp.v ===== *)
(** * Reasoning about the code generator and about its code

    [wp m l d ids Q]: the generator [m], started with next label [l], registers
    [d] and identifiers [ids], appends code and ends so that [Q] holds.  The rules
    follow the structure of the generator.

    [step] and [ex]: the code runs from one place to another, with the values
    that are held and the variables; the rules follow the code.

    [closed]: the labels of a piece of code are its own. *)
From S2P Require Import Prelude Bpf BpfWords Bitmap Regset Strtab Ident DtAs Node Cg CgSem CgRegs CgRun.
#[local] Open Scope Z_scope.
Import Bpf BpfWords Strtab Ident DtAs Node Cg CgSem CgRegs CgRun.

Module CgWp.

(** ** Labels *)

(** The labels of a piece of code are in [lo .. hi), are defined once, and its
    branches stay inside it. *)
Record closed (lo hi : Z) (frag : list dt_irnode) : Prop := {
  cl_range : ∀ l, l ∈ defined frag → lo <= l < hi;
  cl_nodup : NoDup (defined frag);
  cl_targets : ∀ d, d ∈ frag → is_branch (di_instr d) = true → off (di_instr d) ∈ defined frag
}.

Lemma defined_app a b : defined (a ++ b) = defined a ++ defined b.
Proof. unfold defined. by rewrite fmap_app, filter_app. Qed.

Lemma defined_node i x rest : defined (mk_irnode 0 i x :: rest) = defined rest.
Proof. by rewrite defined_cons. Qed.

Lemma defined_label l i x rest : l ≠ 0 → defined (mk_irnode l i x :: rest) = l :: defined rest.
Proof. intros. rewrite defined_cons. cbn [di_label]. by rewrite (proj2 (Z.eqb_neq l _)). Qed.

Create HintDb straight.

(** Code without labels and without branches. *)
Definition straight (frag : list dt_irnode) : Prop :=
  Forall (λ d, di_label d = 0 ∧ is_branch (di_instr d) = false) frag.

Lemma straight_defined frag : straight frag → defined frag = [].
Proof.
  induction 1 as [|[l i x] frag [Hl _] _ IH]; [done|]. cbn [di_label] in Hl. subst. by rewrite defined_node.
Qed.

Lemma straight_app a b : straight a → straight b → straight (a ++ b).
Proof. apply Forall_app_2. Qed.

Lemma straight_closed lo hi frag : straight frag → closed lo hi frag.
Proof.
  intros H. pose proof (straight_defined _ H) as E. constructor; rewrite E; [set_solver|constructor|].
  intros d Hd Hb. eapply Forall_forall in H as [_ H]; [|done]. congruence.
Qed.

Lemma spill_straight n : straight (spill_code n).
Proof. unfold spill_code. destruct (n <? 9)%nat; repeat constructor. Qed.
Lemma unspill_straight n : straight (unspill_code n).
Proof. unfold unspill_code. destruct (n <? 9)%nat; repeat constructor. Qed.
Lemma stores_straight L k r : straight (stores L k r).
Proof.
  revert r. induction k as [|k IH]; intros r; cbn [stores]; [constructor|].
  apply straight_app; [|done]. case_match; repeat constructor.
Qed.
Lemma loads_straight L k r : straight (loads L k r).
Proof.
  revert r. induction k as [|k IH]; intros r; cbn [loads]; [constructor|].
  apply straight_app; [|done]. case_match; repeat constructor.
Qed.
Lemma setx_straight d v : straight (setx_code d v).
Proof. repeat constructor. Qed.
#[export] Hint Resolve spill_straight unspill_straight stores_straight loads_straight setx_straight : straight.

Lemma spill_size n : 0 <= size (spill_code n) <= 1.
Proof. unfold spill_code. destruct (n <? 9)%nat; cbn; lia. Qed.
Lemma unspill_size n : 0 <= size (unspill_code n) <= 1.
Proof. unfold unspill_code. destruct (n <? 9)%nat; cbn; lia. Qed.
Lemma stores_size L k r : 0 <= size (stores L k r) <= Z.of_nat k.
Proof.
  revert r. induction k as [|k IH]; intros r; cbn [stores]; [cbn; lia|]. rewrite size_app.
  specialize (IH (S r)). case_match; cbn; lia.
Qed.
Lemma loads_size L k r : 0 <= size (loads L k r) <= Z.of_nat k.
Proof.
  revert r. induction k as [|k IH]; intros r; cbn [loads]; [cbn; lia|]. rewrite size_app.
  specialize (IH (S r)). case_match; cbn; lia.
Qed.

(** A branch of a node list, and the label it names. *)
Lemma off_branch_imm op r v l : 0 < l < 2 ^ 15 → off (BPF_BRANCH_IMM op r v l) = l.
Proof. intros. by apply s16_label. Qed.
Lemma off_branch_reg op r v l : 0 < l < 2 ^ 15 → off (BPF_BRANCH_REG op r v l) = l.
Proof. intros. by apply s16_label. Qed.
Lemma off_jump l : 0 < l < 2 ^ 15 → off (BPF_JUMP l) = l.
Proof. intros. by apply s16_label. Qed.

Ltac split_in H :=
  repeat first [ apply elem_of_app in H as [H|H] | apply elem_of_cons in H as [H|H]
               | by apply elem_of_nil in H ].

(** The labels of a list of pieces. *)
Ltac labels_of :=
  repeat first
    [ rewrite defined_app | rewrite defined_node | rewrite defined_label by lia
    | match goal with |- context [defined ?f] =>
        let E := fresh in assert (defined f = []) as E by (apply straight_defined; auto with straight);
        rewrite E; clear E
      end
    | progress change (defined []) with (@nil Z) ];
  cbn [app]; rewrite ?app_nil_r.

Ltac use_range H :=
  match goal with
  | C : closed _ _ ?f |- _ => match type of H with ?l ∈ defined f => apply (cl_range _ _ _ C) in H end
  end.

Ltac member := rewrite ?elem_of_app, ?elem_of_cons, ?elem_of_app, ?elem_of_cons; tauto.

(** [closed] of code made of closed pieces, straight pieces and nodes. *)
Ltac nodup :=
  repeat first
    [ apply NoDup_nil_2
    | match goal with C : closed _ _ ?f |- NoDup (defined ?f) => exact (cl_nodup _ _ _ C) end
    | apply NoDup_app; split_and!
    | apply NoDup_cons; split ];
  try (let x := fresh "x" in let H1 := fresh in let H2 := fresh in
       first [ intros x H1 H2 | intros H2 ]; split_in H2; try split_in H1; try use_range H1; try use_range H2; subst; lia).

Ltac targets :=
  let d := fresh "d" in let Hd := fresh "Hd" in let Hb := fresh "Hb" in
  intros d Hd Hb; split_in Hd;
  first
    [ match goal with C : closed _ _ ?f |- _ =>
        match type of Hd with d ∈ f => pose proof (cl_targets _ _ _ C d Hd Hb); member end
      end
    | exfalso; match type of Hd with d ∈ ?f =>
        let S := fresh in assert (straight f) as S by auto with straight;
        eapply Forall_forall in S as [_ S]; [|exact Hd]; congruence
      end
    | subst d; cbn [di_instr] in Hb |- *;
      first [ discriminate Hb
            | rewrite ?off_branch_imm, ?off_branch_reg, ?off_jump by lia; member
            | exfalso; match type of Hb with context [alu_code ?a] => destruct a; discriminate Hb end ] ].

Ltac solve_closed :=
  constructor;
  [ let l := fresh in let Hl := fresh in labels_of; intros l Hl; split_in Hl; try use_range Hl; subst; lia
  | labels_of; nodup
  | labels_of; targets ].

(** ** Instructions of the machine *)

(** The operation codes the machine has. *)
Definition code_ok (c : Z) : bool :=
  match BPF_CLASS c with
  | 0x07 => bool_decide (is_Some (DtAs.alu_of (BPF_OP c)))
  | 0x05 => match BPF_OP c with
            | 0x00 | 0x80 | 0x90 => true
            | op => bool_decide (is_Some (DtAs.cond_of op))
            end
  | 0x00 | 0x01 | 0x02 | 0x03 => true
  | _ => false
  end.

(** An instruction that the machine has, whatever its distance. *)
Record decodes (x : bpf_insn) : Prop := {
  dc_code : code_ok (code x) = true;
  dc_dst : is_Some (reg_of (dst_reg x));
  dc_src : is_Some (reg_of (src_reg x))
}.

Lemma src_of_some x : is_Some (reg_of (src_reg x)) → is_Some (src_of x).
Proof. intros [r Hr]. unfold src_of. rewrite Hr. case_match; eauto. Qed.

Lemma decodes_insn sym x nx : decodes x → is_Some (decode_insn sym x nx).
Proof.
  intros [Hc [d Hd] Hs]. destruct (src_of_some x Hs) as [sr Hsr]. destruct Hs as [s Hs].
  unfold code_ok, decode_insn in *. rewrite Hd, Hs, Hsr.
  repeat (case_match; try done); cbn [mbind option_bind]; eauto;
    try (apply bool_decide_eq_true in Hc as [? ->]); cbn [mbind option_bind]; eauto.
Qed.

Lemma rnum_some r : is_Some (reg_of (wrap 4 (rnum r))).
Proof. rewrite reg_of_rnum. eauto. Qed.

Create HintDb decodes.

(** A node whose instruction, of one slot, the machine has; calls of functions,
    and nothing else, refer to an identifier, that of [ext]. *)
Record node_decodes (ext : Z) (d : dt_irnode) : Prop := {
  nd_instr : decodes (di_instr d);
  nd_slot : (BPF_CLASS (code (di_instr d)) =? BPF_LD) = false;
  nd_extern : di_extern d = (if is_fcall (di_instr d) then ext else 0);
  nd_call : implb (is_fcall (di_instr d)) (code (di_instr d) =? Z.lor BPF_JMP BPF_CALL) = true
}.

(** Such code, in which a 64-bit constant has both of its slots. *)
Inductive decoding (ext : Z) : list dt_irnode → Prop :=
  | decoding_nil : decoding ext []
  | decoding_node d l : node_decodes ext d → decoding ext l → decoding ext (d :: l)
  | decoding_setx r v l : decoding ext l → decoding ext (setx_code r v ++ l).

Lemma decoding_app ext l1 l2 : decoding ext l1 → decoding ext l2 → decoding ext (l1 ++ l2).
Proof. induction 1; intros ?; cbn [app]; [done|constructor; auto|]. rewrite <- app_assoc. apply decoding_setx. auto. Qed.

Lemma setx_decoding ext r v : decoding ext (setx_code r v).
Proof. rewrite <- (app_nil_r (setx_code r v)). apply decoding_setx, decoding_nil. Qed.

Lemma decoding_decodes ext l : decoding ext l → Forall (λ d, decodes (di_instr d)) l.
Proof.
  induction 1 as [|d l [] ? IH|r v l ? IH]; [constructor|by constructor|]. apply Forall_app. split; [|done].
  repeat constructor; cbn [di_instr]; try done; try apply rnum_some; by eexists.
Qed.

Lemma decoding_extern ext l d : decoding ext l → d ∈ l →
  (di_extern d = if is_fcall (di_instr d) then ext else 0) ∧
  (is_fcall (di_instr d) = true → code (di_instr d) = Z.lor BPF_JMP BPF_CALL).
Proof.
  intros H Hd. induction H as [|d' l [] ? IH|r v l ? IH]; [by apply not_elem_of_nil in Hd|..].
  - apply elem_of_cons in Hd as [->|Hd]; [|auto]. split; [done|]. intros E. rewrite E in nd_call0. by apply Z.eqb_eq.
  - apply elem_of_app in Hd as [Hd|Hd]; [|auto]. unfold setx_code in Hd.
    repeat (apply elem_of_cons in Hd as [->|Hd]; [done|]). by apply not_elem_of_nil in Hd.
Qed.

(** One instruction, and code made of pieces. *)
Ltac by_code :=
  first [ reflexivity
        | match goal with |- context [alu_code ?a] => by destruct a end
        | match goal with |- context [cond_code ?c] => by destruct c end
        | match goal with Hw : ?w ∈ [1; 2; 4; 8] |- context [ldstw ?w] => clear -Hw; by sizes Hw end ].
Ltac decode1 :=
  constructor; cbn [di_instr di_extern];
  [ constructor;
    [ by_code | first [ apply rnum_some | by eexists ] | first [ apply rnum_some | by eexists ] ]
  | by_code | by_code | by_code ].
Ltac solve_decodes :=
  repeat first
    [ assumption | apply decoding_nil | solve [auto with decodes] | apply decoding_app
    | apply decoding_node; [decode1|] ].

Lemma spill_decodes ext n : decoding ext (spill_code n).
Proof. unfold spill_code. case_match; solve_decodes. Qed.
Lemma unspill_decodes ext n : decoding ext (unspill_code n).
Proof. unfold unspill_code. case_match; solve_decodes. Qed.
#[export] Hint Resolve spill_decodes unspill_decodes setx_decoding : decodes.

(** ** The generator *)

Definition post (A : Type) : Type := A → list dt_irnode → Z → Regset.dt_regset dt_irlist → idheap → Prop.

Definition wp {A} (m : cg A) (l : Z) (d : Regset.dt_regset dt_irlist) (ids : idheap) (Q : post A) : Prop :=
  ∀ st, ok st → dl_label (pcb_ir st) = l → pcb_regs st = d → cg_ids st = ids →
  ∃ a frag l' d' ids', makes m st a frag (l' - l) d' ids' ∧ l <= l' < 2 ^ 32 ∧ Q a frag l' d' ids'.

Lemma put_label st frag k d ids : urange 32 (dl_label (pcb_ir st) + k) →
  dl_label (pcb_ir (put st frag k d ids)) = dl_label (pcb_ir st) + k.
Proof. intros. unfold put. cbn [pcb_ir dl_label]. by rewrite wrap_id. Qed.

Lemma wp_bind {A B} (m : cg A) (f : A → cg B) l d ids Q :
  wp m l d ids (λ a f1 l1 d1 i1, wp (f a) l1 d1 i1 (λ b f2, Q b (f1 ++ f2))) → wp (m ≫= f) l d ids Q.
Proof.
  intros Hm st Hok Hl Hd Hi. destruct (Hm st Hok Hl Hd Hi) as (a & f1 & l1 & d1 & i1 & H1 & Hl1 & H2).
  pose proof (ok_label _ Hok) as Hr. unfold urange in Hr.
  destruct (H2 (put st f1 (l1 - l) d1 i1)) as (b & f2 & l2 & d2 & i2 & Hm2 & Hl2 & HQ); [apply put_ok| |done|done|].
  { rewrite put_label by (unfold urange; lia). lia. }
  exists b, (f1 ++ f2), l2, d2, i2. split_and!; [|lia|lia|done].
  replace (l2 - l) with ((l1 - l) + (l2 - l1)) by lia. by eapply makes_bind.
Qed.

Lemma wp_of {A} (m : cg A) a frag l d ids (P : Regset.dt_regset dt_irlist → Prop) ids' (Q : post A) : l < 2 ^ 32 →
  (∀ st, ok st → pcb_regs st = d → cg_ids st = ids → ∃ d', makes m st a frag 0 d' ids' ∧ P d') →
  (∀ d', P d' → Q a frag l d' ids') → wp m l d ids Q.
Proof.
  intros Hl H HQ st Hok _ Hd Hi. destruct (H st Hok Hd Hi) as (d' & Hm & HP). exists a, frag, l, d', ids'.
  rewrite Z.sub_diag. split_and!; [done|lia|lia|auto].
Qed.

Lemma wp_ret {A} (a : A) l d ids (Q : post A) : l < 2 ^ 32 → Q a [] l d ids → wp (mret a) l d ids Q.
Proof. intros. eapply (wp_of _ _ _ _ _ _ (λ d', d' = d)); [done|intros st Hok Hd Hi; exists d; split; [by apply makes_ret|done]|by intros ? ->]. Qed.

Lemma wp_lift {A} (m : comp A) (a : A) l d ids (Q : post A) : l < 2 ^ 32 → m = Some (Done a) →
  Q a [] l d ids → wp (cg_lift m) l d ids Q.
Proof. intros. eapply (wp_of _ _ _ _ _ _ (λ d', d' = d)); [done|intros st Hok Hd Hi; exists d; split; [by apply makes_lift|done]|by intros ? ->]. Qed.

Lemma wp_assert (b : bool) l d ids (Q : post unit) : l < 2 ^ 32 → b = true → Q tt [] l d ids →
  wp (cg_assert b) l d ids Q.
Proof. intros. eapply (wp_of _ _ _ _ _ _ (λ d', d' = d)); [done|intros st Hok Hd Hi; exists d; split; [by apply makes_assert|done]|by intros ? ->]. Qed.

Lemma wp_em i l d ids (Q : post unit) : l < 2 ^ 32 → Q tt [mk_irnode 0 i 0] l d ids → wp (em i) l d ids Q.
Proof. intros. eapply (wp_of _ _ _ _ _ _ (λ d', d' = d)); [done|intros st Hok Hd Hi; exists d; split; [by apply makes_em|done]|by intros ? ->]. Qed.

Lemma wp_eml lbl i l d ids (Q : post unit) : l < 2 ^ 32 → Q tt [mk_irnode lbl i 0] l d ids →
  wp (eml lbl i) l d ids Q.
Proof. intros. eapply (wp_of _ _ _ _ _ _ (λ d', d' = d)); [done|intros st Hok Hd Hi; exists d; split; [by apply makes_eml|done]|by intros ? ->]. Qed.

Lemma wp_eme i x l d ids (Q : post unit) : l < 2 ^ 32 → Q tt [mk_irnode 0 i x] l d ids →
  wp (eme i x) l d ids Q.
Proof. intros. eapply (wp_of _ _ _ _ _ _ (λ d', d' = d)); [done|intros st Hok Hd Hi; exists d; split; [by apply makes_eme|done]|by intros ? ->]. Qed.

Lemma wp_label l d ids (Q : post Z) : l + 1 < 2 ^ 32 → Q l [] (l + 1) d ids → wp label l d ids Q.
Proof.
  intros Hl HQ st Hok <- Hd Hi. exists (dl_label (pcb_ir st)), [], (dl_label (pcb_ir st) + 1), d, ids.
  rewrite Z.add_simpl_l. split_and!; [by apply makes_label|lia|lia|done].
Qed.

Lemma wp_alloc n l d ids (Q : post Z) : l < 2 ^ 32 → stacked d n → (n < 18)%nat →
  (∀ d', stacked d' (n + 1) → Q (rnum (sreg n)) (spill_code n) l d' ids) → wp alloc_reg l d ids Q.
Proof.
  intros Hl Hs Hn HQ. eapply wp_of; [done| |exact HQ]. intros st Hok <- Hi. by apply makes_alloc.
Qed.

Lemma wp_free n l d ids (Q : post unit) : l < 2 ^ 32 → stacked d (n + 1) →
  (∀ d', stacked d' n → Q tt (unspill_code n) l d' ids) → wp (regset_free (rnum (sreg n))) l d ids Q.
Proof.
  intros Hl Hs HQ. eapply wp_of; [done| |exact HQ]. intros st Hok <- Hi. by apply makes_free.
Qed.

Lemma wp_alloc_args L l d ids (Q : post unit) : l < 2 ^ 32 → levels d L → (∀ q, 1 <= q < 6 → 0 <= L q < 2) →
  (∀ d', levels d' (bump L 1 6) → Q tt (stores L 5 1) l d' ids) → wp alloc_args l d ids Q.
Proof.
  intros Hl HL Hq HQ. eapply wp_of; [done| |exact HQ]. intros st Hok <- Hi. by apply makes_alloc_args.
Qed.

Lemma wp_free_args L l d ids (Q : post unit) : l < 2 ^ 32 → levels d (bump L 1 6) →
  (∀ q, 1 <= q < 6 → 0 <= L q < 2) → (∀ d', levels d' L → Q tt (loads L 5 1) l d' ids) →
  wp regset_free_args l d ids Q.
Proof.
  intros Hl HL Hq HQ. eapply wp_of; [done| |exact HQ]. intros st Hok <- Hi. by apply makes_free_args.
Qed.

Lemma wp_xalloc0 L l d ids (Q : post Z) : l < 2 ^ 32 → levels d L → 0 <= L 0 < 2 →
  (∀ d', levels d' (upd L 0 (L 0 + 1)) → Q 0 (stores L 1 0) l d' ids) → wp (regset_xalloc BPF_REG_0) l d ids Q.
Proof.
  intros Hl HL Hq HQ. eapply wp_of; [done| |exact HQ]. intros st Hok <- Hi. by apply makes_xalloc0.
Qed.

Lemma wp_free0 L l d ids (Q : post unit) : l < 2 ^ 32 → levels d (upd L 0 (L 0 + 1)) → 0 <= L 0 < 2 →
  (∀ d', levels d' L → Q tt (loads L 1 0) l d' ids) → wp (regset_free BPF_REG_0) l d ids Q.
Proof.
  intros Hl HL Hq HQ. eapply wp_of; [done| |exact HQ]. intros st Hok <- Hi. by apply makes_free0.
Qed.

Lemma wp_setx r v l d ids (Q : post unit) : l < 2 ^ 32 → Q tt (setx_code r v) l d ids →
  wp (dt_cg_setx (rnum r) v) l d ids Q.
Proof. intros Hl HQ. apply wp_bind, wp_em; [done|]. by apply wp_em. Qed.

Lemma wp_get_ident a i l d ids (Q : post dt_ident) : l < 2 ^ 32 → ids !! a = Some i → Q i [] l d ids →
  wp (get_ident a) l d ids Q.
Proof.
  intros Hl Hi HQ. apply (wp_of _ i [] _ _ _ (λ d', d' = d) ids); [done| |by intros ? ->].
  intros st Hok <- <-. exists (pcb_regs st). split; [|done]. unfold makes, get_ident. rewrite Hi.
  fields. by rewrite put_nil.
Qed.

Lemma wp_equiv {A} (m m' : cg A) l d ids (Q : post A) : (∀ st, m st = m' st) → wp m' l d ids Q → wp m l d ids Q.
Proof.
  intros E H st Hok Hl Hd Hi. destruct (H st Hok Hl Hd Hi) as (a & f & l' & d' & i' & Hm & ?).
  exists a, f, l', d', i'. split; [|done]. unfold makes. by rewrite E.
Qed.

(** The instruction [i0] is appended, then what [m] appends; then [i0] is
    replaced by [i1]. *)
Lemma wp_patch {A B} (m : cg A) i0 (i1 : A → bpf_insn) (f : A → cg B) l d ids (Q : post B) :
  BPF_IS_NOP i0 = false → (∀ a, BPF_IS_NOP (i1 a) = false) → l < 2 ^ 32 →
  wp m l d ids (λ a rest l' d' ids', wp (f a) l' d' ids' (λ b f2, Q b (mk_irnode 0 (i1 a) 0 :: rest ++ f2))) →
  wp (dip ← here; em i0;; a ← m; patch dip (i1 a);; f a) l d ids Q.
Proof.
  intros Hi0 Hi1 Hl H st Hok Hst Hd Hi. pose proof (makes_em i0 st d ids Hok Hd Hi) as Hem. unfold makes in Hem.
  set (st1 := put st [mk_irnode 0 i0 0] 0 d ids) in Hem. pose proof (ok_label _ Hok) as Hr. unfold urange in Hr.
  assert (dl_label (pcb_ir st1) = l) as Hl1.
  { unfold st1. rewrite put_label by (unfold urange; lia). lia. }
  destruct (H st1 (put_ok _ _ _ _ _) Hl1 eq_refl eq_refl) as (a & rest & l2 & d2 & i2 & Hm & Hl2 & Hf).
  unfold st1 in Hm. unfold makes in Hm. rewrite put_put in Hm.
  set (st2 := put st (mk_irnode 0 (i1 a) 0 :: rest) (0 + (l2 - l)) d2 i2).
  destruct (Hf st2) as (b & f2 & l3 & d3 & i3 & Hm3 & Hl3 & HQ); [apply put_ok| |done|done|].
  { unfold st2. rewrite put_label by (unfold urange; lia). lia. }
  exists b, ((mk_irnode 0 (i1 a) 0 :: rest) ++ f2), l3, d3, i3. split_and!; [|lia|lia|done].
  unfold makes, mbind, cg_bind, here. cbn [mret comp_ret]. unfold mret, comp_ret. rewrite Hem. unfold st1. rewrite Hm.
  assert (patch (length (dl_list (pcb_ir st))) (i1 a) (put st ([mk_irnode 0 i0 0] ++ rest) (0 + (l2 - l)) d2 i2) =
          Some (Done (tt, st2))) as ->.
  { unfold patch, put. fields. rewrite list_lookup_middle by done. fields. unfold st2, put, set_ir. fields.
    rewrite insert_app_r_alt, Nat.sub_diag by done. cbn [list_insert insert di_label di_extern].
    unfold is_label. cbn [di_label di_instr]. by rewrite Hi0, Hi1. }
  unfold makes in Hm3. rewrite Hm3. unfold st2. rewrite put_put. do 4 f_equal. lia.
Qed.

(** The identifier with more flags. *)
Definition flagged (i : dt_ident) (f : Z) : dt_ident :=
  mk_ident (di_name i) (di_kind i) (Z.lor (di_flags i) f) (di_id i) (di_attr i) (di_vers i)
    (di_ops i) (di_iarg i) (di_data i) (di_offset i) (di_size i) (di_gen i) (di_lineno i).

Lemma wp_or_flags a i f l d ids (Q : post unit) : l < 2 ^ 32 → ids !! a = Some i →
  Q tt [] l d (<[a := flagged i f]> ids) → wp (or_flags a f) l d ids Q.
Proof.
  intros Hl Hi HQ. apply (wp_of _ tt [] _ _ _ (λ d', d' = d) (<[a := flagged i f]> ids)); [done| |by intros ? ->].
  intros st [H1 H2] <- <-. exists (pcb_regs st). split; [|done]. unfold makes, or_flags. rewrite Hi. fields.
  destruct st as [[? ? ?] ? ? ? ?]. unfold put. cbn [pcb_ir pcb_regs cg_ids dt_tstrings dt_ccstab dl_list dl_len dl_label] in *.
  fields. by rewrite app_nil_r, !Z.add_0_r, !wrap_id.
Qed.

(** ** The code *)

(** Instructions that are not the label of nothing. *)
Lemma nop_alu_reg a d s : BPF_IS_NOP (BPF_ALU64_REG (alu_code a) d s) = false.
Proof. by destruct a. Qed.
Lemma nop_alu_imm a d k : BPF_IS_NOP (BPF_ALU64_IMM (alu_code a) d k) = false.
Proof. by destruct a. Qed.
Lemma nop_branch_reg c d s l : BPF_IS_NOP (BPF_BRANCH_REG (cond_code c) d s l) = false.
Proof. by destruct c. Qed.
Lemma nop_load n d s o : n ∈ [1; 2; 4; 8] → BPF_IS_NOP (BPF_LOAD (ldstw n) d s o) = false.
Proof. intros Hn. by sizes Hn. Qed.
Lemma nop_store n d s o : n ∈ [1; 2; 4; 8] → BPF_IS_NOP (BPF_STORE (ldstw n) d o s) = false.
Proof. intros Hn. by sizes Hn. Qed.

Ltac insn :=
  first [ reflexivity | apply nop_alu_reg | apply nop_alu_imm | apply nop_branch_reg
        | by apply nop_load | by apply nop_store | by apply jump_not_nop; lia ].

Lemma size_insn l i x rest : BPF_IS_NOP i = false → size (mk_irnode l i x :: rest) = 1 + size rest.
Proof. intros. cbn [size]. by rewrite is_label_insn. Qed.
Lemma size_label l rest : l ≠ 0 → size (mk_irnode l BPF_NOP 0 :: rest) = size rest.
Proof. intros. cbn [size]. by rewrite is_label_nop. Qed.

(** The size of code made of pieces and nodes. *)
Ltac sizes_of :=
  repeat first [ rewrite size_app | rewrite size_label by lia | rewrite size_insn by insn
               | progress change (size []) with 0
               | match goal with |- context [setx_code ?r ?v] => progress change (size (setx_code r v)) with 2 end ].

Lemma imm_small v : 0 <= v < 2 ^ 31 → imm64 (s32 v) = v.
Proof.
  intros Hv. unfold imm64. assert (s32 v = v) as E.
  { apply swrap_id; [done|]. unfold srange. change (32 - 1) with 31. lia. }
  rewrite !E. apply wrap_id. unfold urange. lia.
Qed.

Section Code.
Context {err_id gsize lsize : Z} (C : ctx err_id gsize lsize).

(** The label [l] is at [p]. *)
Definition lab (l p : Z) : Prop :=
  c_labels C !! Z.to_nat l = Some p ∧ 0 <= p <= Z.of_nat (length (c_buf C)).

Lemma at_bounds pc frag : at_pc C pc frag → 0 <= pc <= Z.of_nat (length (c_buf C)).
Proof. intros (H1 & H2 & _). pose proof (size_nonneg frag). lia. Qed.

Lemma at_lab pc l rest : at_pc C pc (mk_irnode l BPF_NOP 0 :: rest) → l ≠ 0 → lab l pc ∧ at_pc C pc rest.
Proof.
  intros Ha Hl. pose proof (at_bounds _ _ Ha). destruct (at_label C _ _ _ Hl Ha) as [H1 H2]. by split.
Qed.

Lemma at_lab_insn pc l i x rest : at_pc C pc (mk_irnode l i x :: rest) → l ≠ 0 → BPF_IS_NOP i = false →
  lab l pc ∧ at_pc C (pc + 1) rest.
Proof.
  intros Ha Hl Hi. pose proof (at_bounds _ _ Ha). destruct (at_insn C _ _ _ _ _ Hi Ha) as (H1 & H2 & _).
  split; [|done]. split; [by apply H1|done].
Qed.

(** From [pc], with [k] places of the register set in use for the values [vs],
    to [pc']. *)
Definition step (pc : Z) (k : nat) (vs : list Z) (s : venv) (pc' : Z) (k' : nat) (vs' : list Z) (s' : venv) : Prop :=
  ∀ rs m, ms C k vs s rs m → ∃ rs' m', goes C pc rs m pc' rs' m' ∧ ms C k' vs' s' rs' m'.

(** A run that ends because of a division by zero, with the variables [s]. *)
Definition faults (s : venv) (pc : Z) (rs : regs) (m : mem) : Prop :=
  ∃ rs1 m1 w, ms C 0 [] s rs1 m1 ∧
    runs_to (c_helper C) (c_funs C) (c_P C) (c_fb C) pc rs m w (c_err C DTRACEFLT_DIVZERO m1).

(** From [pc] to the end [fin] of the code of an expression that was begun with
    the [n] values [vs0] and has the outcome [out]. *)
Definition ex (fin : Z) (n : nat) (vs0 : list Z) (out : venv * option Z) (pc : Z) (k : nat) (vs : list Z)
    (s : venv) : Prop :=
  ∀ rs m, ms C k vs s rs m →
  match out with
  | (s', Some v) => ∃ rs' m', goes C pc rs m fin rs' m' ∧ ms C (n + 1) (vs0 ++ [v]) s' rs' m'
  | (s', None) => faults s' pc rs m
  end.

Lemma ex_done fin n vs v s pc : pc = fin → ex fin n vs (s, Some v) pc (n + 1) (vs ++ [v]) s.
Proof. intros -> rs m Hm. exists rs, m. split; [apply goes_refl|done]. Qed.

Lemma goes_faults s pc rs m pc' rs' m' : goes C pc rs m pc' rs' m' → faults s pc' rs' m' → faults s pc rs m.
Proof. intros Hg (rs1 & m1 & w & Hm & Hr). exists rs1, m1, w. split; [done|]. by apply Hg. Qed.

Lemma ex_step fin n vs0 out pc k vs s pc' k' vs' s' :
  step pc k vs s pc' k' vs' s' → ex fin n vs0 out pc' k' vs' s' → ex fin n vs0 out pc k vs s.
Proof.
  intros Hs He rs m Hm. destruct (Hs rs m Hm) as (rs1 & m1 & Hg & Hm1). specialize (He rs1 m1 Hm1).
  destruct out as [s2 [v|]]; [|by eapply goes_faults].
  destruct He as (rs2 & m2 & Hg2 & Hm2). exists rs2, m2. split; [by eapply goes_trans|done].
Qed.

(** The code of an operand runs, with the outcome [x s]. *)
Lemma ex_operand fin n vs0 pc k vs s pc' (x : ev Z) (f : Z → ev Z) :
  ex pc' k vs (x s) pc k vs s →
  (∀ s' v, x s = (s', Some v) → ex fin n vs0 (f v s') pc' (k + 1) (vs ++ [v]) s') →
  ex fin n vs0 ((v ← x; f v) s) pc k vs s.
Proof.
  intros Hx Hf. unfold mbind, ev_bind. destruct (x s) as [s' [v|]] eqn:E.
  - eapply ex_step; [exact Hx|by apply Hf].
  - exact Hx.
Qed.

(** *** Registers *)

Lemma step_spill pc n vs s : at_pc C pc (spill_code n) → length vs = n → (n < 18)%nat →
  step pc n vs s (pc + size (spill_code n)) (n + 1) vs s.
Proof. intros Ha Hn H rs m Hm. destruct (goes_spill C n vs s pc rs m) as (m' & ? & ?); eauto. Qed.

Lemma step_unspill pc n vs v s : at_pc C pc (unspill_code n) → length vs = n → (n < 18)%nat →
  step pc (n + 1) (vs ++ [v]) s (pc + size (unspill_code n)) n vs s.
Proof.
  intros Ha Hn H rs m Hm%ms_prefix. destruct (goes_unspill C n vs s pc rs m) as (m' & ? & ?); eauto.
Qed.

(** The value [j] is replaced, in its register. *)
Lemma ms_insert k vs j w s rs m : ms C k vs s rs m → (length vs <= k)%nat → (j < length vs)%nat → (k <= j + 9)%nat →
  urange 64 w → ms C k (<[j := w]> vs) s (rset rs (sreg j) (Int w)) m.
Proof.
  intros [] Hk Hj Hjk Hw. destruct (sreg_not_fp j) as [Hfp H9]. constructor; try done.
  - by rewrite rset_length.
  - by rewrite rget_rset_ne.
  - by rewrite rget_rset_ne.
  - destruct ms_frame0 as (fr & ? & ? & ? & H). exists fr. split_and!; try done.
    intros i x Hi Hin. apply H; [|done]. rewrite list_lookup_insert_ne in Hi by lia. done.
  - intros i x Hi Hin. destruct (decide (i = j)) as [->|Hne].
    + rewrite rget_rset_eq by done. rewrite list_lookup_insert_eq in Hi by done. congruence.
    + rewrite list_lookup_insert_ne in Hi by done. pose proof (lookup_lt_Some _ _ _ Hi).
      rewrite rget_rset_ne; [by apply ms_regs0|].
      destruct (Nat.lt_total i j) as [?|[?|?]]; [|done|apply sreg_ne; lia].
      intros E. symmetry in E. revert E. apply sreg_ne. lia.
  - by apply Forall_insert.
Qed.

Lemma bits_range x y (f : Z → Z → Z) (g : bool → bool → bool) : urange 64 x → urange 64 y → 0 <= f x y →
  (∀ i, Z.testbit (f x y) i = g (Z.testbit x i) (Z.testbit y i)) → g false false = false → urange 64 (f x y).
Proof.
  intros Hx Hy Hf Hb Hg. split; [done|]. apply testbit_range; [lia|done|]. intros i Hi.
  by rewrite Hb, (testbit_high x 64), (testbit_high y 64).
Qed.

Lemma alu_int_range a x y : urange 64 x → urange 64 y → urange 64 (alu_int a x y).
Proof.
  intros Hx Hy. destruct a; cbn [alu_int]; try (apply wrap_range; lia); try done.
  - unfold urange in *. destruct (Z.eqb_spec y 0); [lia|]. split; [apply Z.div_pos; lia|].
    apply Z.le_lt_trans with x; [|lia]. apply Z.div_le_upper_bound; nia.
  - unfold urange in *. destruct (Z.eqb_spec y 0); [lia|]. pose proof (Z.mod_pos_bound x y ltac:(lia)). lia.
  - apply (bits_range _ _ _ orb Hx Hy); [apply Z.lor_nonneg; unfold urange in *; lia|intros; apply Z.lor_spec|done].
  - apply (bits_range _ _ _ andb Hx Hy); [apply Z.land_nonneg; unfold urange in *; lia|intros; apply Z.land_spec|done].
  - apply shiftr_range; [|done]. apply Z.land_nonneg. lia.
  - apply (bits_range _ _ _ xorb Hx Hy); [apply Z.lxor_nonneg; unfold urange in *; lia|intros; apply Z.lxor_spec|done].
Qed.

Lemma imm_range k : urange 64 (imm64 k).
Proof. apply wrap_range. lia. Qed.

(** The value of register [j], one of the last nine. *)
Lemma ms_get k vs j v s rs m : ms C k vs s rs m → vs !! j = Some v → (k <= j + 9)%nat →
  rget rs (sreg j) = Some (Int v) ∧ urange 64 v.
Proof.
  intros [] Hj Hk. split; [by apply ms_regs0|]. by eapply Forall_lookup_1 in ms_vals0.
Qed.

(** An instruction on the values [j] and [i]. *)
Lemma step_alu_reg pc l a j i x rest k vs u w s :
  at_pc C pc (mk_irnode l (BPF_ALU64_REG (alu_code a) (rnum (sreg j)) (rnum (sreg i))) x :: rest) →
  vs !! j = Some u → vs !! i = Some w → (length vs <= k)%nat → (k <= j + 9)%nat → (k <= i + 9)%nat →
  step pc k vs s (pc + 1) k (<[j := alu_int a u w]> vs) s.
Proof.
  intros Ha Hu Hw Hk Hj Hi rs m Hm. destruct (ms_get _ _ _ _ _ _ _ Hm Hu Hj) as [Hru Hu64].
  destruct (ms_get _ _ _ _ _ _ _ Hm Hw Hi) as [Hrw Hw64]. pose proof (lookup_lt_Some _ _ _ Hu).
  eexists _, m. split; [|apply ms_insert; eauto using alu_int_range].
  eapply goes_alu_reg; [exact Ha|]. unfold alu_step. cbn [sget]. rewrite Hrw, Hru. by destruct a.
Qed.

Lemma step_alu_imm pc l a j c x rest k vs u s :
  at_pc C pc (mk_irnode l (BPF_ALU64_IMM (alu_code a) (rnum (sreg j)) c) x :: rest) →
  vs !! j = Some u → (length vs <= k)%nat → (k <= j + 9)%nat →
  step pc k vs s (pc + 1) k (<[j := alu_int a u (imm64 (s32 c))]> vs) s.
Proof.
  intros Ha Hu Hk Hj rs m Hm. destruct (ms_get _ _ _ _ _ _ _ Hm Hu Hj) as [Hru Hu64].
  pose proof (lookup_lt_Some _ _ _ Hu).
  eexists _, m. split; [|apply ms_insert; eauto using alu_int_range, imm_range].
  eapply goes_alu_imm; [exact Ha|]. unfold alu_step. cbn [sget mbind option_bind]. rewrite Hru. by destruct a.
Qed.

Lemma step_neg pc l j x rest k vs u s :
  at_pc C pc (mk_irnode l (BPF_NEG_REG (rnum (sreg j))) x :: rest) →
  vs !! j = Some u → (length vs <= k)%nat → (k <= j + 9)%nat →
  step pc k vs s (pc + 1) k (<[j := u64 (- u)]> vs) s.
Proof.
  intros Ha Hu Hk Hj rs m Hm. destruct (ms_get _ _ _ _ _ _ _ Hm Hu Hj) as [Hru Hu64].
  pose proof (lookup_lt_Some _ _ _ Hu).
  eexists _, m. split; [|apply ms_insert; [eauto..|apply wrap_range; lia]].
  eapply goes_neg; [exact Ha|]. unfold alu_step. cbn [sget mbind option_bind]. by rewrite Hru.
Qed.

(** A register above the values gets one. *)
Lemma step_new_imm pc l n c x rest vs s :
  at_pc C pc (mk_irnode l (BPF_MOV_IMM (rnum (sreg n)) c) x :: rest) → length vs = n →
  step pc (n + 1) vs s (pc + 1) (n + 1) (vs ++ [imm64 (s32 c)]) s.
Proof.
  intros Ha Hn rs m Hm. eexists _, m. split; [|apply ms_set; eauto using imm_range].
  eapply (goes_alu_imm _ _ _ MOV); [exact Ha|done].
Qed.

Lemma step_new_setx pc n c vs s : at_pc C pc (setx_code (sreg n) c) → length vs = n → urange 64 c →
  step pc (n + 1) vs s (pc + size (setx_code (sreg n) c)) (n + 1) (vs ++ [c]) s.
Proof.
  intros Ha Hn Hc rs m Hm. eexists _, m. split; [|by apply ms_set]. by apply goes_setx.
Qed.

Lemma step_setx pc n c vs v s : at_pc C pc (setx_code (sreg n) c) → length vs = n → urange 64 c →
  step pc (n + 1) (vs ++ [v]) s (pc + size (setx_code (sreg n) c)) (n + 1) (vs ++ [c]) s.
Proof.
  intros Ha Hn Hc rs m Hm%ms_prefix. eexists _, m. split; [|by apply ms_set]. by apply goes_setx.
Qed.

Lemma step_new_mov pc l n j x rest vs u s :
  at_pc C pc (mk_irnode l (BPF_MOV_REG (rnum (sreg n)) (rnum (sreg j))) x :: rest) → length vs = n →
  vs !! j = Some u → (n + 1 <= j + 9)%nat → step pc (n + 1) vs s (pc + 1) (n + 1) (vs ++ [u]) s.
Proof.
  intros Ha Hn Hu Hj rs m Hm. destruct (ms_get _ _ _ _ _ _ _ Hm Hu Hj) as [Hru Hu64].
  eexists _, m. split; [|by apply ms_set].
  eapply (goes_alu_reg _ _ _ MOV); [exact Ha|]. unfold alu_step. cbn [sget]. by rewrite Hru.
Qed.

(** *** Branches *)

Lemma step_branch_imm pc l c j k0 lbl x rest p k vs u s :
  at_pc C pc (mk_irnode l (BPF_BRANCH_IMM (cond_code c) (rnum (sreg j)) k0 lbl) x :: rest) → 0 < lbl < 2 ^ 15 →
  lab lbl p → vs !! j = Some u → (k <= j + 9)%nat →
  step pc k vs s (if cond_int c u (imm64 (s32 k0)) then p else pc + 1) k vs s.
Proof.
  intros Ha Hl [Hp Hb] Hu Hj rs m Hm. destruct (ms_get _ _ _ _ _ _ _ Hm Hu Hj) as [Hru _].
  exists rs, m. split; [|done]. by eapply goes_branch_imm.
Qed.

Lemma step_branch_reg pc l c j i lbl x rest p k vs u w s :
  at_pc C pc (mk_irnode l (BPF_BRANCH_REG (cond_code c) (rnum (sreg j)) (rnum (sreg i)) lbl) x :: rest) →
  0 < lbl < 2 ^ 15 → lab lbl p → vs !! j = Some u → vs !! i = Some w → (k <= j + 9)%nat → (k <= i + 9)%nat →
  step pc k vs s (if cond_int c u w then p else pc + 1) k vs s.
Proof.
  intros Ha Hl [Hp Hb] Hu Hw Hj Hi rs m Hm. destruct (ms_get _ _ _ _ _ _ _ Hm Hu Hj) as [Hru _].
  destruct (ms_get _ _ _ _ _ _ _ Hm Hw Hi) as [Hrw _]. exists rs, m. split; [|done]. by eapply goes_branch_reg.
Qed.

Lemma step_jump pc l lbl x rest p k vs s :
  at_pc C pc (mk_irnode l (BPF_JUMP lbl) x :: rest) → 0 < lbl < 2 ^ 15 → lab lbl p → step pc k vs s p k vs s.
Proof. intros Ha Hl [Hp Hb] rs m Hm. exists rs, m. split; [|done]. by eapply goes_jump. Qed.

(** *** Variables *)

(** The address of the block of [i] in the register above the values. *)
Definition block_code (n : nat) (i : dt_ident) : list dt_irnode :=
  [mk_irnode 0 (BPF_LOAD BPF_DW (rnum (sreg n)) BPF_REG_FP Regset.DT_STK_DCTX) 0;
   mk_irnode 0 (BPF_LOAD BPF_DW (rnum (sreg n)) (rnum (sreg n)) (block_offset i)) 0].

Lemma step_load_var pc n i w rest vs s :
  at_pc C pc (block_code n i ++ mk_irnode 0 (BPF_LOAD (ldstw w) (rnum (sreg n)) (rnum (sreg n)) (di_offset i)) 0 :: rest) →
  length vs = n → w ∈ [1; 2; 4; 8] → 0 <= di_offset i < 2 ^ 15 →
  di_offset i + w <= (if is_local i then lsize else gsize) →
  step pc (n + 1) vs s (pc + 3) (n + 1) (vs ++ [read_le (block_vars i s) (di_offset i) w]) s.
Proof.
  intros Ha Hn Hw Ho Hb rs m Hm. destruct (goes_block C n vs s pc rs m i _ Hn Hm Ha) as (rs1 & Hg & Hm1 & Hr & Ha1).
  destruct (ms_block C _ _ _ _ _ i Hm) as (Hblk & Hby & Hlen).
  assert (0 <= w <= 8) as Hw8 by (clear -Hw; sizes Hw; lia).
  eexists _, m. split; [|apply ms_set; [done|by apply read_le_range|exact Hm1]].
  eapply goes_trans; [exact Hg|]. replace (pc + 3) with (pc + 2 + 1) by lia.
  eapply goes_load; [done| |exact Ha1|exact Hr|].
  - unfold srange. change (16 - 1) with 15. lia.
  - rewrite Z.add_0_l. apply load_bytes; [done|lia..].
Qed.

Lemma step_store_var pc n i j v rest vs s :
  at_pc C pc (block_code n i ++
              mk_irnode 0 (BPF_STORE (ldstw (di_size i)) (rnum (sreg n)) (di_offset i) (rnum (sreg j))) 0 :: rest) →
  length vs = n → vs !! j = Some v → (n + 1 <= j + 9)%nat → di_size i ∈ [1; 2; 4; 8] → 0 <= di_offset i < 2 ^ 15 →
  di_offset i + di_size i <= (if is_local i then lsize else gsize) →
  step pc (n + 1) vs s (pc + 3) (n + 1) vs (write_var i v s).1.
Proof.
  intros Ha Hn Hv Hj Hw Ho Hb rs m Hm.
  destruct (goes_block C n vs s pc rs m i _ Hn Hm Ha) as (rs1 & Hg & Hm1 & Hr & Ha1).
  assert (0 <= di_size i <= 8) as Hw8.
  { clear -Hw. revert Hw. generalize (di_size i). intros w Hw. sizes Hw; lia. }
  destruct (ms_get _ _ _ _ _ _ _ Hm1 Hv Hj) as [Hrv _].
  destruct (ms_write C _ _ _ _ _ i v Hm1) as (m2 & Hst & Hm2); [lia..|].
  exists rs1, m2. split; [|done].
  eapply goes_trans; [exact Hg|]. replace (pc + 3) with (pc + 2 + 1) by lia.
  eapply goes_store; [done| |exact Ha1|exact Hr|exact Hrv|by rewrite Z.add_0_l].
  unfold srange. change (16 - 1) with 15. lia.
Qed.

(** With a register to spare, nothing has to be loaded when the top is dropped. *)
Lemma unspill_low n : (n < 9)%nat → unspill_code n = [].
Proof. intros. unfold unspill_code. by rewrite (proj2 (Nat.ltb_lt n 9)). Qed.

Lemma step_drop pc n vs v s frag : at_pc C pc frag → length vs = n → (n < 9)%nat →
  step pc (n + 1) (vs ++ [v]) s pc n vs s.
Proof.
  intros Ha Hn H9. destruct (at_app C pc [] frag Ha) as [Ha1 _].
  pose proof (step_unspill pc n vs v s) as Hs. rewrite unspill_low, Z.add_0_r in Hs by done. apply Hs; [done|done|lia].
Qed.

Lemma step_restore pc n vs s : at_pc C pc (unspill_code n) → length vs = n → (n < 18)%nat →
  step pc (n + 1) vs s (pc + size (unspill_code n)) n vs s.
Proof. intros Ha Hn H rs m Hm. destruct (goes_unspill C n vs s pc rs m) as (m' & ? & ?); eauto. Qed.

End Code.

End CgWp.
