(* ===== verification/CgFault.v ===== *)
(** * The code that reports a fault

    The call of [dt_probe_error] that the code generator emits: the registers
    for the arguments and the result are saved if they hold a value, the function
    is called, the registers are restored, and the program ends. *)
From S2P Require Import Prelude Bpf BpfWords Bitmap Regset Strtab Ident DtAs Node Cg CgSem CgRegs CgRun CgWp.
#[local] Open Scope Z_scope.
Import Bpf BpfWords Strtab Ident DtAs Node Cg CgSem CgRegs CgRun CgWp.

Module CgFault.

(** The register of number [q]. *)
Definition qreg (q : nat) : reg := sreg (8 - q).

Lemma qreg_num q : (q < 9)%nat → rnum (qreg q) = Z.of_nat q.
Proof. intros. unfold qreg. rewrite sreg_num, Z.mod_small by lia. lia. Qed.

Section Fault.
Context {err_id gsize lsize : Z} (C : ctx err_id gsize lsize).

(** The slot where register [q] is saved holds a number. *)
Definition holds (m : mem) (q : nat) : Prop :=
  ∃ fr v, m !! c_fb C = Some fr ∧ slot fr (spill_slot (8 - q)) (Int v).

Lemma goes_save pc q rest s rs m v : at_pc C pc (store_node (Z.of_nat q) :: rest) → (q < 9)%nat →
  ms C 0 [] s rs m → rget rs (qreg q) = Some (Int v) → urange 64 v →
  ∃ m', goes C pc rs m (pc + 1) rs m' ∧ ms C 0 [] s rs m' ∧ holds m' q ∧
    ∀ q', (q' < 9)%nat → holds m q' → holds m' q'.
Proof.
  intros Ha Hq Hm Hr Hv. pose proof Hm as []. destruct ms_frame0 as (fr & Hfr & Hlen & Hdc & _).
  pose proof (spill_slot_range (8 - q)) as Hss. unfold Regset.DT_STK_DCTX, Regset.DCTX_SIZE in Hss.
  destruct (store_slot m (c_fb C) (spill_slot (8 - q)) fr (Int v) Hfr) as (fr' & Hst & Hl' & Hnew & Hold); [lia|lia|done|].
  exists (<[c_fb C := fr']> m). split_and!.
  - unfold store_node in Ha. rewrite <- (qreg_num q Hq) in Ha.
    eapply (goes_store C pc 0 8 fp (qreg q)); [set_solver|apply spill_srange|exact Ha|done|exact Hr|exact Hst].
  - assert (c_fb C ≠ c_bg C ∧ c_fb C ≠ c_bl C) as [Hg Hl].
    { pose proof (c_distinct C) as Hd. apply NoDup_cons in Hd as [Hd _]. set_solver. }
    constructor; try done; [|by rewrite lookup_insert_ne..|].
    + exists fr'. rewrite lookup_insert_eq. split_and!; [done|lia| |done]. apply Hold; [done|].
      unfold Regset.DT_STK_DCTX, Regset.DCTX_SIZE. lia.
    + intros b Hb1 Hb2 Hb3. rewrite lookup_insert_ne by done. auto.
  - exists fr', v. by rewrite lookup_insert_eq.
  - intros q' Hq' (fr0 & w & E & Hs). rewrite Hfr in E. simplify_eq. unfold holds. rewrite lookup_insert_eq.
    destruct (decide (q' = q)) as [->|Hne]; [eauto|]. exists fr', w. split; [done|]. apply Hold; [done|].
    apply spill_slot_apart; lia.
Qed.

Lemma goes_saves L k : ∀ r pc s rs m, at_pc C pc (stores L k r) → (r + k <= 9)%nat → ms C 0 [] s rs m →
  (∀ q, (r <= q < r + k)%nat → L (Z.of_nat q) = 1 → ∃ v, rget rs (qreg q) = Some (Int v) ∧ urange 64 v) →
  ∃ m', goes C pc rs m (pc + size (stores L k r)) rs m' ∧ ms C 0 [] s rs m' ∧
    (∀ q, (r <= q < r + k)%nat → L (Z.of_nat q) = 1 → holds m' q) ∧
    ∀ q', (q' < 9)%nat → holds m q' → holds m' q'.
Proof.
  induction k as [|k IH]; intros r pc s rs m Ha Hr Hm Hv; cbn [stores] in Ha |- *.
  { exists m. rewrite Z.add_0_r. split_and!; [apply goes_refl|done|intros; lia|done]. }
  destruct (at_app _ _ _ _ Ha) as [Ha1 Ha2]. rewrite size_app, Z.add_assoc.
  destruct (Z.eqb_spec (L (Z.of_nat r)) 1) as [E|E].
  - destruct (Hv r ltac:(lia) E) as (v & Hrv & Hv64).
    destruct (goes_save pc r [] s rs m v Ha1 ltac:(lia) Hm Hrv Hv64) as (m1 & Hg1 & Hm1 & Hh1 & Hk1).
    destruct (IH (S r) _ s rs m1 Ha2) as (m2 & Hg2 & Hm2 & Hh2 & Hk2); [lia|done|intros; apply Hv; lia|].
    exists m2. split_and!; [by eapply goes_trans|done| |].
    + intros q Hq Eq. destruct (decide (q = r)) as [->|]; [apply Hk2; [lia|done]|apply Hh2; [lia|done]].
    + intros q' Hq' H. by apply Hk2, Hk1.
  - destruct (IH (S r) _ s rs m Ha2) as (m2 & Hg2 & Hm2 & Hh2 & Hk2); [lia|done|intros; apply Hv; lia|].
    exists m2. split_and!; [by rewrite !Z.add_0_r in *|done| |done].
    intros q Hq Eq. destruct (decide (q = r)) as [->|]; [done|]. apply Hh2; [lia|done].
Qed.

Lemma goes_loads L k : ∀ r pc rs m, at_pc C pc (loads L k r) → (r + k <= 9)%nat →
  length rs = 11%nat → rget rs fp = Some (Ptr (c_fb C) 512) →
  (∀ q, (r <= q < r + k)%nat → L (Z.of_nat q) = 1 → holds m q) →
  ∃ rs', goes C pc rs m (pc + size (loads L k r)) rs' m ∧ length rs' = 11%nat ∧ rget rs' fp = Some (Ptr (c_fb C) 512).
Proof.
  induction k as [|k IH]; intros r pc rs m Ha Hr Hl Hfp Hh; cbn [loads] in Ha |- *.
  { exists rs. rewrite Z.add_0_r. split_and!; [apply goes_refl|done|done]. }
  destruct (at_app _ _ _ _ Ha) as [Ha1 Ha2]. rewrite size_app, Z.add_assoc.
  destruct (Z.eqb_spec (L (Z.of_nat r)) 1) as [E|E].
  - destruct (Hh r ltac:(lia) E) as (fr & v & Hfr & Hs). unfold load_node in *.
    rewrite <- (qreg_num r ltac:(lia)) in Ha1.
    destruct (IH (S r) _ (rset rs (qreg r) (Int v)) m Ha2) as (rs2 & Hg2 & ? & ?);
      [lia|by rewrite rset_length|rewrite rget_rset_ne; [done|apply sreg_not_fp]|intros; apply Hh; [lia|done]|].
    exists rs2. split_and!; [|done|done]. eapply goes_trans; [|exact Hg2].
    eapply (goes_load C pc 0 8 (qreg r) fp); [set_solver|apply spill_srange|exact Ha1|done|].
    by eapply load_slot.
  - destruct (IH (S r) _ rs m Ha2) as (rs2 & Hg2 & ? & ?); [lia|done|done|intros; apply Hh; [lia|done]|].
    exists rs2. split_and!; [by rewrite !Z.add_0_r in *|done|done].
Qed.

(** ** The report *)

(** [dt_cg_probe_error(-1, fault, 0)] with the registers in use that [L] says. *)
Definition report_code (L : Z → Z) (ext fault : Z) : list dt_irnode :=
  stores L 5 1 ++
  mk_irnode 0 (BPF_LOAD BPF_DW BPF_REG_1 BPF_REG_FP Regset.DT_STK_DCTX) 0 ::
  mk_irnode 0 (BPF_MOV_IMM BPF_REG_2 (u32 (-1))) 0 ::
  mk_irnode 0 (BPF_MOV_IMM BPF_REG_3 fault) 0 ::
  mk_irnode 0 (BPF_MOV_IMM BPF_REG_4 0) 0 ::
  stores L 1 0 ++
  mk_irnode 0 (BPF_CALL_FUNC err_id) ext ::
  loads L 5 1 ++ loads L 1 0 ++ [mk_irnode 0 BPF_RETURN 0].

Lemma report_straight L ext fault : straight (report_code L ext fault).
Proof.
  unfold report_code. apply straight_app; [auto with straight|]. do 4 (apply Forall_cons; split; [done|]).
  apply straight_app; [auto with straight|]. apply Forall_cons; split; [done|].
  apply straight_app; [auto with straight|]. apply straight_app; [auto with straight|repeat constructor].
Qed.

Lemma stores_decodes ext L k r : (r + k <= 9)%nat → decoding ext (stores L k r).
Proof.
  revert r. induction k as [|k IH]; intros r Hr; cbn [stores]; [constructor|]. apply decoding_app; [|apply IH; lia].
  unfold store_node. rewrite <- qreg_num by lia. case_match; solve_decodes.
Qed.

Lemma loads_decodes ext L k r : (r + k <= 9)%nat → decoding ext (loads L k r).
Proof.
  revert r. induction k as [|k IH]; intros r Hr; cbn [loads]; [constructor|]. apply decoding_app; [|apply IH; lia].
  unfold load_node. rewrite <- qreg_num by lia. case_match; solve_decodes.
Qed.

Lemma report_decodes L ext fault : decoding ext (report_code L ext fault).
Proof.
  unfold report_code. pose proof (stores_decodes ext L 5 1 ltac:(lia)). pose proof (stores_decodes ext L 1 0 ltac:(lia)).
  pose proof (loads_decodes ext L 5 1 ltac:(lia)). pose proof (loads_decodes ext L 1 0 ltac:(lia)). solve_decodes.
Qed.

Lemma report_size L ext fault : 0 <= size (report_code L ext fault) <= 18.
Proof.
  unfold report_code. sizes_of. pose proof (stores_size L 5 1). pose proof (stores_size L 1 0).
  pose proof (loads_size L 5 1). pose proof (loads_size L 1 0). lia.
Qed.

Lemma ms_base k vs s rs m : ms C k vs s rs m → ms C 0 [] s rs m.
Proof.
  intros []. constructor; try done. destruct ms_frame0 as (fr & ? & ? & ? & _). exists fr. split_and!; done.
Qed.

Lemma ms_base_set s rs m r v : r ≠ fp → r ≠ r9 → ms C 0 [] s rs m → ms C 0 [] s (rset rs r v) m.
Proof.
  intros H1 H2 []. constructor; try done; [by rewrite rset_length|by rewrite rget_rset_ne..].
Qed.

Lemma goes_mov_base pc d c x rest s rs m : at_pc C pc (mk_irnode 0 (BPF_MOV_IMM (rnum d) c) x :: rest) →
  d ≠ fp → d ≠ r9 → ms C 0 [] s rs m → let rs' := rset rs d (Int (imm64 (s32 c))) in
  goes C pc rs m (pc + 1) rs' m ∧ ms C 0 [] s rs' m.
Proof.
  intros Ha H1 H2 Hm. split; [|by apply ms_base_set]. by eapply (goes_alu_imm C pc 0 MOV d c); [exact Ha|].
Qed.

(** The arguments in their registers. *)
Definition with_args (rs : regs) (fault : Z) : regs :=
  rset (rset (rset (rset rs r1 (Ptr (c_bd C) 0)) r2 (Int (2 ^ 64 - 1))) r3 (Int fault)) r4 (Int 0).

Lemma goes_args pc fault rest s rs m : 0 <= fault < 2 ^ 31 →
  at_pc C pc (mk_irnode 0 (BPF_LOAD BPF_DW BPF_REG_1 BPF_REG_FP Regset.DT_STK_DCTX) 0 ::
    mk_irnode 0 (BPF_MOV_IMM BPF_REG_2 (u32 (-1))) 0 :: mk_irnode 0 (BPF_MOV_IMM BPF_REG_3 fault) 0 ::
    mk_irnode 0 (BPF_MOV_IMM BPF_REG_4 0) 0 :: rest) → ms C 0 [] s rs m →
  goes C pc rs m (pc + 4) (with_args rs fault) m ∧ ms C 0 [] s (with_args rs fault) m ∧ at_pc C (pc + 4) rest.
Proof.
  intros Hf Ha Hm. pose proof (at_next _ _ _ _ _ _ Ha eq_refl) as Ha1. pose proof (at_next _ _ _ _ _ _ Ha1 eq_refl) as Ha2.
  pose proof (at_next _ _ _ _ _ _ Ha2 eq_refl) as Ha3. pose proof (at_next _ _ _ _ _ _ Ha3 eq_refl) as Ha4.
  assert (ms C 0 [] s (rset rs r1 (Ptr (c_bd C) 0)) m) as Hm1 by (by apply ms_base_set).
  destruct (goes_mov_base _ r2 _ _ _ _ _ _ Ha1 ltac:(done) ltac:(done) Hm1) as [Hg2 Hm2].
  destruct (goes_mov_base _ r3 _ _ _ _ _ _ Ha2 ltac:(done) ltac:(done) Hm2) as [Hg3 Hm3].
  destruct (goes_mov_base _ r4 _ _ _ _ _ _ Ha3 ltac:(done) ltac:(done) Hm3) as [Hg4 Hm4].
  change (imm64 (s32 (u32 (-1)))) with (2 ^ 64 - 1) in *. change (imm64 (s32 0)) with 0 in *.
  rewrite imm_small in * by done. replace (pc + 4) with (pc + 1 + 1 + 1 + 1) by lia. split_and!; [|done|done].
  eapply goes_trans; [|eapply goes_trans; [exact Hg2|eapply goes_trans; [exact Hg3|exact Hg4]]].
  destruct (ms_frame _ _ _ _ _ _ Hm) as (fr & Hfr & _ & Hdc & _).
  eapply (goes_load C pc 0 8 r1 fp Regset.DT_STK_DCTX); [set_solver|done|exact Ha|apply Hm|].
  by eapply load_slot.
Qed.

Lemma with_args_take rs fault : length rs = 11%nat →
  take 5 (drop 1 (with_args rs fault)) =
  [Some (Ptr (c_bd C) 0); Some (Int (2 ^ 64 - 1)); Some (Int fault); Some (Int 0); rget rs r5].
Proof. intros H. do 11 (destruct rs as [|? rs]; [done|]). by destruct rs. Qed.

Lemma decode_call sym nx : srange 32 err_id → decode_insn sym (BPF_CALL_FUNC err_id) nx = Some (CallF (sym err_id)).
Proof.
  intros H. transitivity (Some (CallF (sym (s32 err_id)))); [done|]. by rewrite swrap_id.
Qed.

Lemma runs_report pc ext fault rest s rs m : srange 32 err_id →
  at_pc C pc (mk_irnode 0 (BPF_CALL_FUNC err_id) ext :: rest) → ms C 0 [] s (with_args rs fault) m →
  length rs = 11%nat →
  ∃ w, goes C pc (with_args rs fault) m (pc + 1) (after_call (with_args rs fault) w) (c_err C fault m).
Proof.
  intros He Ha Hm Hl.
  destruct (c_err_run C fault m (rget rs r5) (ms_rest _ _ _ _ _ _ Hm)) as (w & m' & Hr & E). exists w.
  intros v mf Hcont. eapply runs_callf; [|apply c_err_fun| |].
  - rewrite (at_plain _ _ _ _ _ _ Ha) by done. by apply decode_call.
  - rewrite with_args_take by done. exact Hr.
  - by rewrite E.
Qed.

(** The report ends the run, with what [dt_probe_error] does to the memory. *)
Lemma report_runs pc L ext fault s rs m : srange 32 err_id → 0 <= fault < 2 ^ 31 →
  at_pc C pc (report_code L ext fault) → ms C 0 [] s rs m →
  (∀ q, (q < 6)%nat → L (Z.of_nat q) = 1 → ∃ v, rget rs (qreg q) = Some (Int v) ∧ urange 64 v) →
  ∃ rs1 m1 w, ms C 0 [] s rs1 m1 ∧
    runs_to (c_helper C) (c_funs C) (c_P C) (c_fb C) pc rs m w (c_err C fault m1).
Proof.
  intros He Hf Ha Hm Hv. unfold report_code in Ha. destruct (at_app _ _ _ _ Ha) as [Ha1 Ha2].
  destruct (goes_saves L 5 1 pc s rs m Ha1) as (m1 & Hg1 & Hm1 & Hh1 & _); [lia|done|intros; apply Hv; [lia|done]|].
  destruct (goes_args _ fault _ s rs m1 Hf Ha2 Hm1) as (Hg2 & Hm2 & Ha3).
  destruct (at_app _ _ _ _ Ha3) as [Ha4 Ha5].
  destruct (goes_saves L 1 0 _ s (with_args rs fault) m1 Ha4) as (m3 & Hg3 & Hm3 & Hh3 & Hk3); [lia|done| |].
  { intros q Hq E. assert (q = 0%nat) as -> by lia. destruct (Hv 0%nat ltac:(lia) E) as (v & Hr & Hv64).
    exists v. split; [|done]. unfold with_args. change (qreg 0) with r0 in *. by rewrite !rget_rset_ne. }
  pose proof (ms_len _ _ _ _ _ _ Hm) as Hlen.
  destruct (runs_report _ ext fault _ s rs m3 He Ha5 Hm3 Hlen) as (w & Hg4).
  pose proof (at_next _ _ _ _ _ _ Ha5 eq_refl) as Ha6. destruct (at_app _ _ _ _ Ha6) as [Ha7 Ha8].
  destruct (at_app _ _ _ _ Ha8) as [Ha9 Ha10].
  set (rs4 := after_call (with_args rs fault) w) in *.
  assert (length rs4 = 11%nat ∧ rget rs4 fp = Some (Ptr (c_fb C) 512)) as [Hl4 Hfp4].
  { assert (length (with_args rs fault) = 11%nat) as Hwl by (unfold with_args; by rewrite !rset_length). split.
    - unfold rs4, after_call. cbn [length]. rewrite length_drop. unfold regs in *. lia.
    - unfold rs4. rewrite rget_after_call; [apply Hm2|cbn; lia|done]. }
  assert (∀ q, (q < 6)%nat → L (Z.of_nat q) = 1 → holds (c_err C fault m3) q) as Hh4.
  { intros q Hq E. unfold holds. rewrite c_err_frame. destruct q as [|q]; [apply Hh3; [lia|done]|].
    apply Hk3; [lia|]. apply Hh1; [lia|done]. }
  destruct (goes_loads L 5 1 _ rs4 (c_err C fault m3) Ha7) as (rs5 & Hg5 & Hl5 & Hfp5); [lia|done|done|intros; apply Hh4; [lia|done]|].
  destruct (goes_loads L 1 0 _ rs5 (c_err C fault m3) Ha9) as (rs6 & Hg6 & Hl6 & Hfp6); [lia|done|done|intros; apply Hh4; [lia|done]|].
  exists (with_args rs fault), m3, (rget rs6 r0). split; [done|].
  apply Hg1, Hg2, Hg3, Hg4, Hg5, Hg6. eapply runs_exit; [|done|done]. by rewrite (at_plain _ _ _ _ _ _ Ha10).
Qed.

End Fault.

End CgFault.
