(* ===== verification/CgCorrect.v ===== *)
(** * The code generator is correct

    The code that the generator emits for an expression, once it is assembled,
    computes the value of the expression: in the register that the allocator
    gives first, with every value held in other registers kept, in a register or
    on the stack, and with the variables changed as the expression says. *)
From S2P Require Import Prelude Bpf BpfWords Bitmap Regset Strtab Ident DtAs Node Cg CgSem CgRegs CgRun CgWp CgFault.
#[local] Open Scope Z_scope.
Import Bpf BpfWords Strtab Ident DtAs Node Cg CgSem CgRegs CgRun CgWp CgFault.

Module CgCorrect.

(** ** Arithmetic *)

Lemma imm_m1 : imm64 (s32 (-1)) = 2 ^ 64 - 1.
Proof. done. Qed.

Lemma xor_ones v : urange 64 v → Z.lxor v (2 ^ 64 - 1) = u64 (Z.lnot v).
Proof.
  intros Hv. apply Z.bits_inj'. intros i Hi. unfold wrap. rewrite <- Z.land_ones by lia.
  change (2 ^ 64 - 1) with (Z.ones 64). rewrite Z.lxor_spec, Z.land_spec, Z.lnot_spec by lia.
  destruct (Z.ltb_spec i 64).
  - rewrite Z.ones_spec_low by lia. by destruct (Z.testbit v i).
  - rewrite Z.ones_spec_high by lia. rewrite (testbit_high v 64) by (unfold urange in Hv; lia). done.
Qed.

(** A value shifted left by [64 - w] bits and back is cut to [w] bits. *)
Lemma cut_shl w v : 0 < w <= 64 → u64 (Z.shiftl v (64 - w)) = wrap w v * 2 ^ (64 - w).
Proof.
  intros Hw. rewrite Z.shiftl_mul_pow2 by lia. unfold wrap.
  replace (2 ^ 64) with (2 ^ w * 2 ^ (64 - w)) by (rewrite <- Z.pow_add_r by lia; f_equal; lia).
  rewrite Z.mul_mod_distr_r; [done|..]; apply Z.pow_nonzero; lia.
Qed.

Lemma cut_shr w v : 0 < w <= 64 → Z.shiftr (u64 (Z.shiftl v (64 - w))) (64 - w) = wrap w v.
Proof.
  intros Hw. rewrite cut_shl, Z.shiftr_div_pow2 by lia. apply Z.div_mul. apply Z.pow_nonzero; lia.
Qed.

Lemma cut_ashr w v : 0 < w <= 64 → Z.shiftr (s64 (u64 (Z.shiftl v (64 - w)))) (64 - w) = swrap w v.
Proof.
  intros Hw. rewrite swrap_wrap_le by lia. rewrite Z.shiftl_mul_pow2, Z.shiftr_div_pow2 by lia.
  unfold swrap. assert (2 ^ 64 = 2 ^ w * 2 ^ (64 - w)) as E by (rewrite <- Z.pow_add_r by lia; f_equal; lia).
  assert (2 ^ (64 - 1) = 2 ^ (w - 1) * 2 ^ (64 - w)) as E' by (rewrite <- Z.pow_add_r by lia; f_equal; lia).
  rewrite E, E', <- Z.mul_add_distr_r, Z.mul_mod_distr_r, <- Z.mul_sub_distr_r by (apply Z.pow_nonzero; lia).
  apply Z.div_mul. apply Z.pow_nonzero; lia.
Qed.

Lemma land_63 n : 0 <= n < 64 → Z.land n 63 = n.
Proof. intros. change 63 with (Z.ones 6). rewrite Z.land_ones by lia. apply Z.mod_small. lia. Qed.

(** The division of absolute values. *)
Lemma neg_abs x : urange 64 x → u64 (- x) = if s64 x <? 0 then - s64 x else u64 (- s64 x).
Proof.
  intros Hx. assert (u64 (- x) = u64 (- s64 x)) as ->.
  { pose proof (wrap_sub_r 64 0 x) as E1. pose proof (wrap_sub_r 64 0 (s64 x)) as E2.
    rewrite wrap_swrap in E2 by lia. rewrite E1 in E2. exact E2. }
  destruct (Z.ltb_spec (s64 x) 0); [|done]. pose proof (swrap_range 64 x ltac:(lia)) as Hr. unfold srange in Hr.
  change (64 - 1) with 63 in Hr. apply wrap_id. unfold urange. lia.
Qed.

Lemma s64_pos x : urange 64 x → 0 <= s64 x → s64 x = x.
Proof.
  intros Hx Hp. rewrite <- (wrap_id 64 x Hx) at 2. rewrite <- (wrap_swrap 64 x) by lia.
  pose proof (swrap_range 64 x ltac:(lia)) as Hr. unfold srange in Hr. change (64 - 1) with 63 in Hr.
  symmetry. apply wrap_id. unfold urange. lia.
Qed.

Lemma s64_nonzero x : urange 64 x → x ≠ 0 → s64 x ≠ 0.
Proof.
  intros Hx H0 E. apply H0. rewrite <- (wrap_id 64 x Hx), <- (wrap_swrap 64 x) by lia. by rewrite E.
Qed.

(** The result of a division whose operands were made positive; its sign is
    changed if the operands had different signs. *)
Definition div_abs (a : alu) (x y : Z) : Z :=
  let q := alu_int a (if s64 x <? 0 then u64 (- x) else x) (if s64 y <? 0 then u64 (- y) else y) in
  if xorb (s64 x <? 0) (s64 y <? 0) then u64 (- q) else q.

Lemma alu_quot (m : bool) p q : 0 <= p <= 2 ^ 63 → 0 < q →
  alu_int (if m then MOD else DIV) p q = (if m then Z.rem p q else Z.quot p q) ∧
  0 <= (if m then Z.rem p q else Z.quot p q) <= 2 ^ 63.
Proof.
  intros Hp Hq. rewrite Z.rem_mod_nonneg, Z.quot_div_nonneg by lia.
  destruct m; cbn [alu_int]; rewrite (proj2 (Z.eqb_neq q 0)) by lia; (split; [done|]).
  - pose proof (Z.mod_pos_bound p q Hq). pose proof (Z.mod_le p q). lia.
  - split; [apply Z.div_pos; lia|]. apply Z.div_le_upper_bound; nia.
Qed.

Lemma div_abs_spec (m : bool) x y : urange 64 x → urange 64 y → y ≠ 0 →
  div_abs (if m then MOD else DIV) x y =
  u64 (if m then Z.sgn (s64 y) * Z.rem (s64 x) (s64 y) else Z.quot (s64 x) (s64 y)).
Proof.
  intros Hx Hy Hy0. pose proof (s64_nonzero y Hy Hy0) as Hs0. unfold div_abs.
  rewrite (neg_abs x), (neg_abs y) by done.
  pose proof (swrap_range 64 x ltac:(lia)) as Hrx. pose proof (swrap_range 64 y ltac:(lia)) as Hry.
  unfold srange in Hrx, Hry. change (64 - 1) with 63 in *. pose proof (s64_pos x Hx) as Ex. pose proof (s64_pos y Hy) as Ey.
  set (X := s64 x) in *. set (Y := s64 y) in *. clearbody X Y.
  destruct (Z.ltb_spec X 0) as [Hnx|Hnx]; [|rewrite <- Ex by done];
    (destruct (Z.ltb_spec Y 0) as [Hny|Hny]; [|rewrite <- Ey by done]); cbn [xorb].
  - destruct (alu_quot m (- X) (- Y)) as [-> Hb]; [lia..|].
    rewrite Z.rem_opp_opp, Z.quot_opp_opp in * by lia. rewrite Z.sgn_neg by done.
    rewrite <- (wrap_id 64) at 1 by (unfold urange; lia). f_equal; destruct m; lia.
  - destruct (alu_quot m (- X) Y) as [-> Hb]; [lia..|].
    rewrite Z.rem_opp_l, Z.quot_opp_l by lia. rewrite Z.sgn_pos by lia. f_equal; destruct m; lia.
  - destruct (alu_quot m X (- Y)) as [-> Hb]; [lia..|].
    rewrite Z.rem_opp_r, Z.quot_opp_r by lia. rewrite Z.sgn_neg by lia. f_equal; destruct m; lia.
  - destruct (alu_quot m X Y) as [-> Hb]; [lia..|].
    rewrite Z.sgn_pos by lia. rewrite <- (wrap_id 64) at 1 by (unfold urange; lia). f_equal; destruct m; lia.
Qed.

(** ** The statement *)

Section Correct.
Context `{Ctf} (hdl : hdl_types) (eattr : bool) (pcb_amin : dtrace_attribute).
Context (dt_dlib_get_func : string → Z) (strsize : Z).

(** The identifiers at the start; later ones differ in the flags that say that
    a variable is read or written. *)
Context (ids0 : idheap).

Definition same_ident (i j : dt_ident) : Prop :=
  di_kind i = di_kind j ∧ di_id i = di_id j ∧ di_offset i = di_offset j ∧ di_size i = di_size j ∧
  Z.land (di_flags i) (Z.lnot 0xc0) = Z.land (di_flags j) (Z.lnot 0xc0) ∧ di_name i = di_name j.

Definition ids_ok (ids : idheap) : Prop := ∀ a, option_Forall2 same_ident (ids0 !! a) (ids !! a).

Lemma ids_there ids a i : ids_ok ids → ids0 !! a = Some i → ∃ j, ids !! a = Some j ∧ same_ident i j.
Proof. intros Hids Hi. specialize (Hids a). rewrite Hi in Hids. inversion Hids as [? j Hs E1 E2|]; subst. eauto. Qed.

(** The number of [dt_probe_error], and the sizes of the blocks of variables. *)
Context (err_id gsize lsize : Z).
Hypothesis Herr_id : ∃ i, ids0 !! dt_dlib_get_func "dt_probe_error" = Some i ∧ s32 (di_id i) = err_id.
#[local] Abbreviation ctx := (ctx err_id gsize lsize).
#[local] Abbreviation err_fun := (dt_dlib_get_func "dt_probe_error").

(** The code [frag] computes [x] when [n] values are held. *)
Definition does (n : nat) (frag : list dt_irnode) (x : ev Z) : Prop :=
  ∀ (C : ctx) pc vs s, length vs = n → at_pc C pc frag → ex C (pc + size frag) n vs (x s) pc n vs s.

Record gen_ok (lo hi : Z) (n : nat) (b : Z) (frag : list dt_irnode) (d : Regset.dt_regset dt_irlist)
    (ids : idheap) (x : ev Z) : Prop := {
  go_regs : stacked d (n + 1);
  go_ids : ids_ok ids;
  go_labels : lo <= hi <= lo + 6 * b;
  go_size : size frag <= 32 * b;
  go_decodes : decoding err_fun frag;
  go_closed : closed lo hi frag;
  go_does : does n frag x
}.

(** The generator [m] emits code for [x] when [n] values are held; [b] bounds
    the labels and instructions it needs. *)
Definition compiles (m : cg gen) (n : nat) (b : Z) (x : ev Z) : Prop :=
  ∀ l d ids, stacked d n → ids_ok ids → 0 < l → l + 6 * b < 2 ^ 15 →
  wp m l d ids (λ g frag l' d' ids', g = (rnum (sreg n), None) ∧ gen_ok l l' n b frag d' ids' x).

Lemma wp_compiles m n b x l d ids (Q : post gen) : compiles m n b x → stacked d n → ids_ok ids → 0 < l →
  l + 6 * b < 2 ^ 15 →
  (∀ frag l' d' ids', gen_ok l l' n b frag d' ids' x → l <= l' <= l + 6 * b →
     Q (rnum (sreg n), None) frag l' d' ids') → wp m l d ids Q.
Proof.
  intros Hc Hs Hi Hl Hb HQ st Hok Hst Hd Hids.
  destruct (Hc l d ids Hs Hi Hl Hb st Hok Hst Hd Hids) as (g & f & l' & d' & i' & Hm & Hl' & -> & G).
  exists (rnum (sreg n), None), f, l', d', i'. split_and!; [done|lia|lia|]. apply HQ; [done|]. apply G.
Qed.

Lemma stacked_le d n : stacked d n → (n <= 18)%nat.
Proof. by intros []. Qed.

(** A step of the generator. *)
Ltac gen1 :=
  lazymatch goal with
  | |- wp (here ≫= _) _ _ _ _ => fail
  | |- wp (_ ≫= _) _ _ _ _ => apply wp_bind
  | |- wp label _ _ _ _ => apply wp_label; [lia|]
  | |- wp (em _) _ _ _ _ => apply wp_em; [lia|]
  | |- wp (eml _ _) _ _ _ _ => apply wp_eml; [lia|]
  | |- wp (mret _) _ _ _ _ => apply wp_ret; [lia|]
  | |- wp (dt_cg_setx _ _) _ _ _ _ => apply wp_setx; [lia|]
  | |- wp alloc_reg _ _ _ _ =>
      let d := fresh "d" in let Hd := fresh "Hd" in
      eapply wp_alloc; [lia|eassumption|lia|intros d Hd]
  | |- wp (regset_free _) _ _ _ _ =>
      let d := fresh "d" in let Hd := fresh "Hd" in
      eapply wp_free; [lia|eassumption|intros d Hd]
  | Hc : compiles ?m _ _ _ |- wp ?m _ _ _ _ =>
      let f := fresh "f" in let l := fresh "l" in let d := fresh "d" in let i := fresh "i" in
      let G := fresh "G" in let Hl := fresh "Hl" in
      eapply (wp_compiles _ _ _ _ _ _ _ _ Hc); [eassumption|eassumption|lia|lia|intros f l d i G Hl;
        pose proof (go_regs _ _ _ _ _ _ _ _ G); pose proof (go_ids _ _ _ _ _ _ _ _ G)]
  end; cbn [dn_reg dn_tstring fst snd].
Ltac gens := repeat gen1.

(** The facts about the pieces of code at hand. *)
Ltac pieces :=
  repeat match goal with
  | G : gen_ok _ _ _ _ ?f _ _ _ |- _ =>
      lazymatch goal with
      | H : closed _ _ f |- _ => fail
      | _ => pose proof (go_closed _ _ _ _ _ _ _ _ G); pose proof (go_size _ _ _ _ _ _ _ _ G);
             pose proof (go_decodes _ _ _ _ _ _ _ _ G);
             pose proof (go_does _ _ _ _ _ _ _ _ G)
      end
  end.

Ltac pose_size t lem := lazymatch goal with H : 0 <= size t <= _ |- _ => fail | _ => pose proof lem end.
Ltac piece_sizes :=
  repeat match goal with
  | |- context [spill_code ?n] => pose_size (spill_code n) (spill_size n)
  | |- context [unspill_code ?n] => pose_size (unspill_code n) (unspill_size n)
  | |- context [stores ?L ?k ?r] => pose_size (stores L k r) (stores_size L k r)
  | |- context [loads ?L ?k ?r] => pose_size (loads L k r) (loads_size L k r)
  end.

(** The obligations about a piece of code but the last. *)
Ltac shape :=
  split; [done|]; cbn [app]; rewrite ?app_nil_r; repeat (rewrite <- app_assoc; cbn [app]); pieces;
  constructor; [assumption|assumption|lia|piece_sizes; sizes_of; lia|solve_decodes|solve_closed|].

(** Where the pieces of code are, and where the labels are. *)
Ltac at_split H :=
  lazymatch type of H with
  | at_pc _ _ [] => clear H
  | at_pc _ _ (_ ++ _) =>
      let H1 := fresh "Hat" in let H2 := fresh "Hat" in
      destruct (at_app _ _ _ _ H) as [H1 H2]; clear H; at_split H2
  | at_pc _ _ (mk_irnode 0 ?i _ :: _) =>
      let E := fresh in let H2 := fresh "Hat" in
      assert (BPF_IS_NOP i = false) as E by insn;
      pose proof (at_next _ _ _ _ _ _ H E) as H2; clear E; at_split H2
  | at_pc _ _ (mk_irnode ?l BPF_NOP 0 :: _) =>
      let E := fresh in let H1 := fresh "Hlab" in let H2 := fresh "Hat" in
      assert (l ≠ 0) as E by lia; destruct (at_lab _ _ _ _ H E) as [H1 H2]; clear H E; at_split H2
  | at_pc _ _ (mk_irnode ?l ?i _ :: _) =>
      let E := fresh in let E1 := fresh in let H1 := fresh "Hlab" in let H2 := fresh "Hat" in
      assert (l ≠ 0) as E by lia; assert (BPF_IS_NOP i = false) as E1 by insn;
      destruct (at_lab_insn _ _ _ _ _ _ H E E1) as [H1 H2]; clear E E1; at_split H2
  | _ => idtac
  end.

(** *** The values *)

Lemma top_lookup (vs : list Z) n v : length vs = n → (vs ++ [v]) !! n = Some v.
Proof. intros <-. by apply list_lookup_middle. Qed.
Lemma top_insert (vs : list Z) n v w : length vs = n → <[n := w]> (vs ++ [v]) = vs ++ [w].
Proof. intros <-. by rewrite insert_app_r_alt, Nat.sub_diag by done. Qed.
Lemma next_lookup (vs : list Z) n v w : length vs = n → ((vs ++ [v]) ++ [w]) !! n = Some v.
Proof. intros <-. rewrite <- app_assoc. by apply list_lookup_middle. Qed.
Lemma next_insert (vs : list Z) n v w u : length vs = n → <[n := u]> ((vs ++ [v]) ++ [w]) = (vs ++ [u]) ++ [w].
Proof. intros <-. rewrite <- !app_assoc. by rewrite insert_app_r_alt, Nat.sub_diag by done. Qed.
Lemma snoc_length (vs : list Z) n v : length vs = n → length (vs ++ [v]) = (n + 1)%nat.
Proof. intros <-. by rewrite length_app. Qed.

Ltac len := rewrite ?length_app, ?length_insert; cbn [length]; lia.
Ltac look := first [eassumption | apply top_lookup; len | apply next_lookup; len].

(** The operator of an instruction. *)
Ltac cond_of op :=
  lazymatch op with
  | BPF_JEQ => constr:(JEQ) | BPF_JNE => constr:(JNE) | BPF_JSLT => constr:(JSLT) | BPF_JSGE => constr:(JSGE)
  | cond_code ?c => c
  end.
Ltac alu_of op :=
  lazymatch op with
  | BPF_MOV => constr:(MOV) | BPF_ADD => constr:(ADD) | BPF_SUB => constr:(SUB) | BPF_XOR => constr:(XOR)
  | BPF_LSH => constr:(LSH) | BPF_RSH => constr:(RSH) | BPF_ARSH => constr:(ARSH)
  | alu_code ?a => a
  end.

Lemma imm_0 : imm64 (s32 0) = 0.
Proof. done. Qed.
Lemma imm_1 : imm64 (s32 1) = 1.
Proof. done. Qed.

(** A step of the code. *)
Ltac tidy := cbn [alu_int cond_int]; rewrite ?imm_0, ?imm_1, ?top_insert, ?next_insert by len.
Ltac run1 :=
  lazymatch goal with |- ex ?C _ _ _ _ ?pc ?k _ _ =>
    lazymatch goal with
    | H : at_pc C pc (spill_code _) |- _ => eapply ex_step; [apply (step_spill _ _ _ _ _ H); [len|lia]|]
    | H : at_pc C pc (unspill_code ?n) |- _ =>
        eapply ex_step; [first [apply (step_unspill _ _ _ _ _ _ H); [len|lia]
                               |apply (step_restore _ _ _ _ _ H); [len|lia]]|]
    | H : at_pc C pc (setx_code _ _) |- _ =>
        eapply ex_step; [first [apply (step_setx _ _ _ _ _ _ _ H); [len|done]
                               |apply (step_new_setx _ _ _ _ _ _ H); [len|done]]|]
    | H : at_pc C pc (mk_irnode _ (BPF_BRANCH_IMM ?op _ _ ?l) _ :: _), Hl : lab C ?l _ |- _ =>
        let c := cond_of op in
        eapply ex_step; [eapply (step_branch_imm _ _ _ c _ _ _ _ _ _ _ _ _ _ H); [lia|exact Hl|look|len]|]
    | H : at_pc C pc (mk_irnode _ (BPF_BRANCH_REG ?op _ _ ?l) _ :: _), Hl : lab C ?l _ |- _ =>
        let c := cond_of op in
        eapply ex_step; [eapply (step_branch_reg _ _ _ c _ _ _ _ _ _ _ _ _ _ _ H); [lia|exact Hl|look|look|len|len]|]
    | H : at_pc C pc (mk_irnode _ (BPF_JUMP ?l) _ :: _), Hl : lab C ?l _ |- _ =>
        eapply ex_step; [eapply (step_jump _ _ _ _ _ _ _ _ _ _ H); [lia|exact Hl]|]
    | H : at_pc C pc (mk_irnode _ (BPF_MOV_IMM _ _) _ :: _) |- _ =>
        eapply ex_step; [first [eapply (step_alu_imm _ _ _ MOV _ _ _ _ _ _ _ _ H); [look|len|len]
                               |eapply (step_new_imm _ _ _ _ _ _ _ _ _ H); len]|]
    | H : at_pc C pc (mk_irnode _ (BPF_ALU64_IMM ?op _ _) _ :: _) |- _ =>
        let a := alu_of op in
        eapply ex_step; [eapply (step_alu_imm _ _ _ a _ _ _ _ _ _ _ _ H); [look|len|len]|]
    | H : at_pc C pc (mk_irnode _ (BPF_MOV_REG _ _) _ :: _) |- _ =>
        eapply ex_step; [first [eapply (step_alu_reg _ _ _ MOV _ _ _ _ _ _ _ _ _ H); [look|look|len|len|len]
                               |eapply (step_new_mov _ _ _ _ _ _ _ _ _ _ H); [len|look|len]]|]
    | H : at_pc C pc (mk_irnode _ (BPF_ALU64_REG ?op _ _) _ :: _) |- _ =>
        let a := alu_of op in
        eapply ex_step; [eapply (step_alu_reg _ _ _ a _ _ _ _ _ _ _ _ _ H); [look|look|len|len|len]|]
    | H : at_pc C pc (mk_irnode _ (BPF_NEG_REG _) _ :: _) |- _ =>
        eapply ex_step; [eapply (step_neg _ _ _ _ _ _ _ _ _ _ H); [look|len|len]|]
    end
  end; tidy.
Ltac finish := apply ex_done; piece_sizes; sizes_of; lia.

(** ** The operators *)

(** The value of an operand is in range. *)
Lemma ex_range (C : ctx) fin n vs0 out pc k vs s :
  (Forall (urange 64) vs → ex C fin n vs0 out pc k vs s) → ex C fin n vs0 out pc k vs s.
Proof. intros H' rs m Hm. apply H'; [|done]. apply Hm. Qed.

Lemma const_compiles n v : (n < 18)%nat → urange 64 v → compiles (cg_const v) n 1 (mret v).
Proof.
  intros Hn Hv l d ids Hs Hi Hl Hlb. unfold cg_const. gens.
  destruct (Z.ltb_spec (2 ^ 31 - 1) v) as [Hbig|Hbig]; gens; shape; intros C pc vs s Hlen Hat; at_split Hat;
    run1; run1.
  - finish.
  - rewrite imm_small by (unfold urange in Hv; lia). finish.
Qed.

Lemma sizeof_compiles n (m : comp Z) v : (n < 18)%nat → m = Some (Done v) → urange 64 v → v ≠ 0 →
  compiles (size ← cg_lift m; reg ← alloc_reg; cg_assert (negb (size =? 0));; dt_cg_setx reg size;; mret (reg, None))
    n 1 (mret v).
Proof.
  intros Hn Hm Hv Hv0 l d ids Hs Hi Hl Hlb. apply wp_bind. eapply wp_lift; [lia|exact Hm|]. gens.
  apply wp_assert; [lia|by rewrite (proj2 (Z.eqb_neq v 0))|]. gens. shape.
  intros C pc vs s Hlen Hat. at_split Hat. run1. run1. finish.
Qed.

Lemma lneg_compiles m n b x : compiles m n b x → 0 <= b →
  compiles (dt_cg_logical_neg m) n (1 + b) (v ← x; mret (of_bool (v =? 0))).
Proof.
  intros Hm Hb l d ids Hs Hi Hl Hlb. unfold dt_cg_logical_neg. gens. shape.
  intros C pc vs s Hlen Hat. at_split Hat. eapply ex_operand; [eauto|]. intros s' v _. run1.
  destruct (Z.eqb_spec v 0); run1; [finish|]. run1. finish.
Qed.

Lemma bneg_compiles m n b x : compiles m n b x → 0 <= b →
  compiles (c ← m; em (BPF_ALU64_IMM BPF_XOR (dn_reg c) (-1));; mret (dn_reg c, None)) n (1 + b)
    (v ← x; mret (u64 (Z.lnot v))).
Proof.
  intros Hm Hb l d ids Hs Hi Hl Hlb. gens. shape.
  intros C pc vs s Hlen Hat. at_split Hat. eapply ex_operand; [eauto|]. intros s' v _.
  apply ex_range. intros [_ [Hv _]%Forall_cons]%Forall_app.
  run1. rewrite imm_m1, xor_ones by done. finish.
Qed.

Lemma ineg_compiles m n b x : compiles m n b x → 0 <= b →
  compiles (c ← m; em (BPF_NEG_REG (dn_reg c));; mret (dn_reg c, None)) n (1 + b) (v ← x; mret (u64 (- v))).
Proof.
  intros Hm Hb l d ids Hs Hi Hl Hlb. gens. shape.
  intros C pc vs s Hlen Hat. at_split Hat. eapply ex_operand; [eauto|]. intros s' v _. run1. finish.
Qed.

Lemma ev_id (x : ev Z) s : (v ← x; mret v) s = x s.
Proof. unfold mbind, ev_bind. by destruct (x s) as [? []]. Qed.

Lemma same_compiles m n b x : compiles m n b x → 0 <= b →
  compiles (c ← m; mret (dn_reg c, None)) n (1 + b) x.
Proof.
  intros Hm Hb l d ids Hs Hi Hl Hlb. gens. shape.
  intros C pc vs s Hlen Hat. eauto.
Qed.

Lemma comma_compiles m1 m2 n b1 b2 x y : compiles m1 n b1 x → compiles m2 n b2 y → 0 <= b1 → 0 <= b2 → (n < 18)%nat →
  compiles (l ← m1; regset_free (dn_reg l);; r ← m2; mret (dn_reg r, None)) n (1 + b1 + b2) (x;; y).
Proof.
  intros Hm1 Hm2 Hb1 Hb2 Hn l d ids Hs Hi Hl Hlb. gens. shape.
  intros C pc vs s Hlen Hat. at_split Hat. eapply ex_operand; [eauto|]. intros s' v _. run1.
  sizes_of. rewrite !Z.add_assoc. eauto.
Qed.

Lemma land_compiles m1 m2 n b1 b2 x y : compiles m1 n b1 x → compiles m2 n b2 y → 0 <= b1 → 0 <= b2 → (n < 18)%nat →
  compiles (dt_cg_logical_and m1 m2) n (1 + b1 + b2)
    (a ← x; if a =? 0 then mret 0 else b ← y; mret (of_bool (negb (b =? 0)))).
Proof.
  intros Hm1 Hm2 Hb1 Hb2 Hn l d ids Hs Hi Hl Hlb. unfold dt_cg_logical_and. gens. shape.
  intros C pc vs s Hlen Hat. at_split Hat. eapply ex_operand; [eauto|]. intros s1 v _. run1.
  destruct (Z.eqb_spec v 0); [run1; finish|]. run1. eapply ex_operand; [eauto|]. intros s2 w _. run1.
  destruct (Z.eqb_spec w 0); run1; [finish|]. run1. finish.
Qed.

Lemma lor_compiles m1 m2 n b1 b2 x y : compiles m1 n b1 x → compiles m2 n b2 y → 0 <= b1 → 0 <= b2 → (n < 18)%nat →
  compiles (dt_cg_logical_or m1 m2) n (1 + b1 + b2)
    (a ← x; if a =? 0 then b ← y; mret (of_bool (negb (b =? 0))) else mret 1).
Proof.
  intros Hm1 Hm2 Hb1 Hb2 Hn l d ids Hs Hi Hl Hlb. unfold dt_cg_logical_or. gens. shape.
  intros C pc vs s Hlen Hat. at_split Hat. eapply ex_operand; [eauto|]. intros s1 v _. run1.
  destruct (Z.eqb_spec v 0); cbn [negb]; [|run1; run1; finish].
  run1. eapply ex_operand; [eauto|]. intros s2 w _. run1.
  destruct (Z.eqb_spec w 0); run1; [finish|]. run1. finish.
Qed.

Lemma lxor_compiles m1 m2 n b1 b2 x y : compiles m1 n b1 x → compiles m2 (n + 1) b2 y → 0 <= b1 → 0 <= b2 → (n + 1 < 18)%nat →
  compiles (dt_cg_logical_xor m1 m2) n (1 + b1 + b2)
    (a ← x; b ← y; mret (of_bool (xorb (negb (a =? 0)) (negb (b =? 0))))).
Proof.
  intros Hm1 Hm2 Hb1 Hb2 Hn l d ids Hs Hi Hl Hlb. unfold dt_cg_logical_xor. gens. shape.
  intros C pc vs s Hlen Hat. at_split Hat. eapply ex_operand; [eauto|]. intros s1 v _. run1.
  destruct (Z.eqb_spec v 0); [subst v|run1];
    (eapply ex_operand; [eapply go_does; [eassumption|len|eassumption]|]); intros s2 w _; run1;
    (destruct (Z.eqb_spec w 0); [subst w|run1]; run1; run1; finish).
Qed.

Ltac drop_top :=
  match goal with H : at_pc ?C ?pc ?f |- ex ?C _ _ _ _ ?pc _ _ _ =>
    eapply ex_step; [eapply (step_drop _ _ _ _ _ _ _ H); [len|lia]|]
  end.

Lemma compare_compiles left right m1 m2 c n b1 b2 x y :
  dt_node_is_string hdl left = false → dt_node_is_string hdl right = false →
  compiles m1 n b1 x → compiles m2 (n + 1) b2 y → 0 <= b1 → 0 <= b2 → (n + 1 < 9)%nat →
  compiles (dt_cg_compare_op hdl dt_dlib_get_func left right m1 m2 (cond_code c)) n (1 + b1 + b2)
    (u ← x; w ← y; mret (of_bool (cond_int c u w))).
Proof.
  intros Hsl Hsr Hm1 Hm2 Hb1 Hb2 Hn l d ids Hs Hi Hl Hlb. unfold dt_cg_compare_op. rewrite Hsl, Hsr. cbn [orb].
  gens. rewrite unspill_low by lia. shape.
  intros C pc vs s Hlen Hat. at_split Hat. eapply ex_operand; [eauto|]. intros s1 u _.
  eapply ex_operand; [eapply go_does; [eassumption|len|eassumption]|]. intros s2 w _. run1.
  destruct (cond_int c u w); drop_top; run1; [|run1]; finish.
Qed.

Lemma ternary_compiles dnp left right m1 m2 m3 n b1 b2 b3 x y z : dt_node_is_string hdl dnp = false →
  compiles m1 n b1 x → compiles m2 n b2 y → compiles m3 n b3 z → 0 <= b1 → 0 <= b2 → 0 <= b3 → (n < 9)%nat →
  compiles (dt_cg_ternary_op hdl strsize dnp left right m1 m2 m3) n (1 + b1 + b2 + b3)
    (c ← x; if c =? 0 then z else y).
Proof.
  intros Hstr Hm1 Hm2 Hm3 Hb1 Hb2 Hb3 Hn l d ids Hs Hi Hl Hlb. unfold dt_cg_ternary_op. rewrite Hstr.
  gens. eapply wp_equiv; cycle 1.
  { eapply (wp_patch (regset_free (rnum (sreg n));; em (BPF_JUMP (l + 1));; eml l BPF_NOP;; m3)
      (BPF_MOV_IMM (rnum (sreg n)) 0) (λ r, BPF_MOV_REG (dn_reg r) (rnum (sreg n)))
      (λ r, eml (l + 1) BPF_NOP;; mret (dn_reg r, None))); [done|done|lia|].
    gens. rewrite unspill_low by lia. shape.
    intros C pc vs s Hlen Hat. at_split Hat. eapply ex_operand; [eauto|]. intros s1 c _. run1.
    destruct (Z.eqb_spec c 0); drop_top.
    - rewrite <- ev_id. eapply ex_operand; [eauto|]. intros s2 w _. finish.
    - rewrite <- ev_id. eapply ex_operand; [eauto|]. intros s2 w _. run1. run1. finish. }
  intros st. unfold mbind, cg_bind. repeat (case_match; simplify_eq; try done).
Qed.

Lemma arith_compiles dnp op left right m1 m2 a n b1 b2 x y :
  dt_node_is_pointer hdl left = Some (Done false) → dt_node_is_pointer hdl right = Some (Done false) →
  ((alu_code a =? BPF_MOD) || (alu_code a =? BPF_DIV)) && is_signed dnp = false →
  compiles m1 n b1 x → compiles m2 (n + 1) b2 y → 0 <= b1 → 0 <= b2 → (n + 1 < 18)%nat →
  compiles (dt_cg_arithmetic_op hdl dt_dlib_get_func dnp op left right m1 m2 (alu_code a)) n (1 + b1 + b2)
    (u ← x; w ← y; mret (alu_int a u w)).
Proof.
  intros Hpl Hpr Hdiv Hm1 Hm2 Hb1 Hb2 Hn l d ids Hs Hi Hl Hlb. unfold dt_cg_arithmetic_op. rewrite Hdiv.
  apply wp_bind. eapply wp_lift; [lia|exact Hpl|]. apply wp_bind. eapply wp_lift; [lia|exact Hpr|].
  cbn [andb]. rewrite andb_false_r. gens. shape.
  intros C pc vs s Hlen Hat. at_split Hat. eapply ex_operand; [eauto|]. intros s1 u _.
  eapply ex_operand; [eapply go_does; [eassumption|len|eassumption]|]. intros s2 w _. run1. run1. finish.
Qed.

Lemma cast_compiles src dst m n b x : cast_ok hdl src dst = true → compiles m n b x → 0 <= b →
  compiles (r ← m; dt_cg_typecast hdl src (dn_reg r) dst (dn_reg r);; mret (dn_reg r, None)) n (1 + b)
    (v ← x; mret (cast_to hdl src dst v)).
Proof.
  intros Hok Hm Hb l d ids Hs Hi Hl Hlb.
  unfold cast_ok, cast_to, node_size, answers, answer in *. unfold dt_cg_typecast.
  destruct (dt_node_type_size hdl src) as [[ss|]|] eqn:Es; try (by destruct (dt_node_type_size hdl dst) as [[]|]).
  destruct (dt_node_type_size hdl dst) as [[ds|]|] eqn:Ed; try done.
  destruct (dt_node_is_scalar dst) as [[sc|]|] eqn:Ec; try done.
  cbn [andb] in Hok. apply andb_true_iff in Hok as [Hok1%Z.ltb_lt Hok2%Z.leb_le].
  set (w := 8 * Z.min ss ds) in *. assert (8 <= w <= 64) as Hw by lia.
  assert (s32 (if ds <? ss then 64 - ds * NBBY else 64 - ss * NBBY) = 64 - w) as En.
  { assert ((if ds <? ss then 64 - ds * NBBY else 64 - ss * NBBY) = 64 - w) as ->.
    { unfold NBBY. destruct (Z.ltb_spec ds ss); lia. }
    apply swrap_id; [done|]. unfold srange. change (32 - 1) with 31. lia. }
  gens. destruct ((dn_ctfp (common dst) =? 0) && (dn_type (common dst) =? CTF_ERR)).
  { gens. shape. intros C pc vs s Hlen Hat. eapply ex_operand; [eauto|]. intros s1 v _. finish. }
  apply wp_bind. eapply wp_lift; [lia|done|]. apply wp_bind. eapply wp_lift; [lia|done|]. rewrite En.
  apply wp_bind. eapply wp_lift; [lia|done|]. rewrite (andb_comm sc), <- andb_assoc.
  destruct (sc && ((ds <? ss) || xorb (is_signed src) (is_signed dst))).
  2: { rewrite andb_false_r. gens. shape. intros C pc vs s Hlen Hat. eapply ex_operand; [eauto|]. intros s1 v _. finish. }
  rewrite andb_true_r. destruct (Z.eqb_spec (64 - w) 0) as [E0|E0]; cbn [negb]; gens.
  { shape. intros C pc vs s Hlen Hat. eapply ex_operand; [eauto|]. intros s1 v _.
    apply ex_range. intros [_ [Hv _]%Forall_cons]%Forall_app. replace w with 64 by lia.
    replace (cast 64 (is_signed dst) v) with v; [finish|].
    unfold cast. destruct (is_signed dst); [by rewrite wrap_swrap, wrap_id|by rewrite wrap_id]. }
  replace (if is_signed dst then BPF_ARSH else BPF_RSH) with (alu_code (if is_signed dst then ARSH else RSH))
    by (by destruct (is_signed dst)).
  shape. intros C pc vs s Hlen Hat. at_split Hat. eapply ex_operand; [eauto|]. intros s1 v _. run1. run1. run1.
  rewrite imm_small, land_63 by lia.
  replace (alu_int _ _ _) with (cast w (is_signed dst) v); [finish|].
  unfold cast. destruct (is_signed dst); cbn [alu_int]; rewrite land_63 by lia;
    [by rewrite cut_ashr by lia|by rewrite cut_shr by lia].
Qed.

(** *** Variables *)

Lemma same_has i j f : same_ident i j → Z.land (Z.lnot 0xc0) f = f → has (di_flags i) f = has (di_flags j) f.
Proof.
  intros (_ & _ & _ & _ & E & _) Hf. unfold has. rewrite <- Hf, !Z.land_assoc. by rewrite E.
Qed.

Lemma same_local i j : same_ident i j → is_local i = is_local j.
Proof. intros E. by apply (same_has i j). Qed.

Lemma same_ok i j w : same_ident i j → ident_ok gsize lsize i w = ident_ok gsize lsize j w.
Proof.
  intros E. pose proof E as (E1 & E2 & E3 & _ & _). unfold ident_ok, in_block. rewrite (same_local i j E), E1, E2, E3.
  by rewrite !(λ f, same_has i j f E).
Qed.

Lemma same_flagged i j f : same_ident i j → Z.land f (Z.lnot 0xc0) = 0 → same_ident i (flagged j f).
Proof.
  intros (E1 & E2 & E3 & E4 & E5 & E6) Hf. split_and!; [done..| |done]. cbn [flagged di_flags].
  by rewrite Z.land_lor_distr_l, Hf, Z.lor_0_r.
Qed.

Lemma ids_flagged ids a j f : ids_ok ids → ids !! a = Some j → Z.land f (Z.lnot 0xc0) = 0 →
  ids_ok (<[a := flagged j f]> ids).
Proof.
  intros Hids Hj Hf b. specialize (Hids b). destruct (decide (a = b)) as [->|Hne]; [|by rewrite lookup_insert_ne].
  rewrite Hj in Hids. rewrite lookup_insert_eq. inversion Hids as [i ? Hs E1 E2|]; subst. constructor. by apply same_flagged.
Qed.

Lemma var_ok_spec idp w ids : var_ok ids0 gsize lsize idp w = true → ids_ok ids →
  ∃ j, ids !! idp = Some j ∧ same_ident (var_of ids0 idp) j ∧ ident_ok gsize lsize j w = true.
Proof.
  unfold var_ok, var_of. destruct (ids0 !! idp) as [i|] eqn:Ei; [|done]. intros Hi Hids.
  destruct (ids_there _ _ _ Hids Ei) as (j & Hj & E). exists j. split_and!; [done|done|]. by rewrite <- (same_ok i j).
Qed.

Record var_facts (j : dt_ident) (w : Z) : Prop := {
  vf_block : in_block j = true;
  vf_cgreg : has (di_flags j) DT_IDFLG_CGREG = false;
  vf_inline : has (di_flags j) DT_IDFLG_INLINE = false;
  vf_tls : has (di_flags j) DT_IDFLG_TLS = false;
  vf_kind : (di_kind j =? DT_IDENT_ARRAY) = false ∧
            (di_kind j =? DT_IDENT_XLSOU) || (di_kind j =? DT_IDENT_XLPTR) = false;
  vf_size : size_ok w = true;
  vf_off : 0 <= di_offset j < 2 ^ 15;
  vf_end : di_offset j + w <= (if is_local j then lsize else gsize)
}.

Lemma ident_facts j w : ident_ok gsize lsize j w = true → var_facts j w.
Proof.
  unfold ident_ok. rewrite !andb_true_iff, !negb_true_iff, !orb_false_iff. intros H'. destruct_and! H'.
  constructor; rewrite ?orb_false_iff; try done; [lia|]. by apply Z.leb_le.
Qed.

Lemma var_compiles c idp n : let e := Var c idp in
  not_ref e = true → answers (dt_node_type_size hdl e) = true → var_ok ids0 gsize lsize idp (node_size hdl e) = true →
  (n < 18)%nat →
  compiles (cg_var hdl dt_dlib_get_func e (Z.lor (dn_flags c) 0) idp) n 1
    (read_var (var_of ids0 idp) (node_size hdl e)).
Proof.
  intros e Href Hans Hok Hn l d ids Hs Hi Hl Hlb. rewrite Z.lor_0_r.
  destruct (var_ok_spec _ _ _ Hok Hi) as (j & Hj & E & Hjok). pose proof (ident_facts _ _ Hjok) as F.
  pose proof E as (E1 & E2 & E3 & E4 & _).
  set (j' := flagged j DT_IDFLG_DIFR). assert (same_ident (var_of ids0 idp) j') as E' by (by apply same_flagged).
  assert (var_facts j' (node_size hdl e)) as F' by (apply ident_facts; rewrite <- (same_ok _ _ _ E'), (same_ok _ _ _ E); done).
  pose proof (ids_flagged _ _ _ DT_IDFLG_DIFR Hi Hj eq_refl) as Hi'. fold j' in Hi'.
  unfold cg_var, scalar_var, dt_cg_load_var. apply wp_bind. eapply wp_get_ident; [lia|exact Hj|].
  rewrite (vf_cgreg _ _ F). apply wp_bind, wp_bind. eapply wp_get_ident; [lia|exact Hj|].
  apply wp_bind. apply wp_assert; [lia|by rewrite (vf_inline _ _ F)|].
  destruct (vf_kind _ _ F) as [Hk1 Hk2]. apply wp_assert; [lia|by rewrite Hk1|].
  apply wp_bind. apply wp_assert; [lia|by rewrite Hk2|].
  apply wp_bind. eapply wp_or_flags; [lia|exact Hj|]. fold j'.
  apply wp_bind. eapply wp_get_ident; [lia|apply lookup_insert_eq|]. rewrite (vf_block _ _ F').
  gens. apply negb_true_iff in Href. unfold has_flag in Href. cbn [common e] in Href. rewrite Href.
  unfold answers in Hans. destruct (dt_node_type_size hdl e) as [[w|]|] eqn:Ew; try done.
  assert (node_size hdl e = w) as Hw by (unfold node_size; by rewrite Ew). rewrite Hw in *.
  apply wp_bind. eapply wp_lift; [lia|done|]. apply wp_bind. apply wp_assert; [lia|apply F'|]. gens.
  pose proof (size_ok_cases _ (vf_size _ _ F')) as Hw8.
  split; [done|]; cbn [app]; rewrite ?app_nil_r. constructor; [done|done|lia|piece_sizes; sizes_of; lia|solve_decodes| |].
  { apply straight_closed. apply straight_app; auto with straight. repeat constructor. by sizes Hw8. }
  intros C pc vs s Hlen Hat. destruct (at_app _ _ _ _ Hat) as [Ha1 Ha2]. run1.
  eapply ex_step; [eapply (step_load_var C _ n j' w [] vs s Ha2); [done|done|apply F'|apply F']|].
  unfold read_var, block_vars. rewrite E3, (same_local _ _ E'). fold (block_vars j' s).
  apply ex_done. piece_sizes. sizes_of. lia.
Qed.

(** The value on top is stored in a variable. *)
Definition store_code (n : nat) (j : dt_ident) : list dt_irnode :=
  spill_code (n + 1) ++ block_code (n + 1) j ++
  mk_irnode 0 (BPF_STORE (ldstw (di_size j)) (rnum (sreg (n + 1))) (di_offset j) (rnum (sreg n))) 0 ::
  unspill_code (n + 1).

Lemma store_straight n j : ident_ok gsize lsize j (di_size j) = true → straight (store_code n j).
Proof.
  intros Hj%ident_facts. pose proof (size_ok_cases _ (vf_size _ _ Hj)) as Hw. unfold store_code.
  apply straight_app; [auto with straight|]. apply straight_app; [repeat constructor|].
  apply Forall_cons; split; [|apply unspill_straight]. split; [done|]. cbn [di_instr]. revert Hw. generalize (di_size j).
  intros w Hw. by sizes Hw.
Qed.

Lemma store_size n j : ident_ok gsize lsize j (di_size j) = true → 0 <= size (store_code n j) <= 5.
Proof.
  intros Hj%ident_facts. pose proof (size_ok_cases _ (vf_size _ _ Hj)) as Hw. unfold store_code.
  piece_sizes. change (block_code (n + 1) j) with ([] ++ block_code (n + 1) j). unfold block_code. cbn [app].
  sizes_of. lia.
Qed.

Lemma store_decodes n j : ident_ok gsize lsize j (di_size j) = true → decoding err_fun (store_code n j).
Proof.
  intros Hj%ident_facts. pose proof (size_ok_cases _ (vf_size _ _ Hj)) as Hw. unfold store_code, block_code. cbn [app].
  solve_decodes.
Qed.

Lemma step_store (C : ctx) pc n j vs v s : at_pc C pc (store_code n j) → length vs = n →
  ident_ok gsize lsize j (di_size j) = true → (n + 1 < 18)%nat →
  step C pc (n + 1) (vs ++ [v]) s (pc + size (store_code n j)) (n + 1) (vs ++ [v]) (write_var j v s).1.
Proof.
  intros Ha Hn Hj Hn18. pose proof (ident_facts _ _ Hj) as F. pose proof (size_ok_cases _ (vf_size _ _ F)) as Hw.
  unfold store_code in *. destruct (at_app _ _ _ _ Ha) as [Ha1 Ha2]. destruct (at_app _ _ _ _ Ha2) as [_ Ha3].
  pose proof (at_next _ _ _ _ _ _ Ha3 (nop_store _ _ _ _ Hw)) as Ha4.
  intros rs m Hm. destruct (step_spill C _ _ _ s Ha1 (snoc_length vs n v Hn) Hn18 _ _ Hm) as (rs1 & m1 & Hg1 & Hm1).
  destruct (step_store_var C _ (n + 1) j n v _ (vs ++ [v]) s Ha2) with rs1 m1 as (rs2 & m2 & Hg2 & Hm2);
    [by apply snoc_length|by apply top_lookup|lia|done|apply F|apply F|done|].
  destruct (step_restore C _ _ (vs ++ [v]) (write_var j v s).1 Ha4) with rs2 m2 as (rs3 & m3 & Hg3 & Hm3);
    [by apply snoc_length|done|done|].
  exists rs3, m3. split; [|done]. eapply goes_trans; [exact Hg1|]. eapply goes_trans; [exact Hg2|].
  rewrite !size_app, size_insn by (by apply nop_store). change (size (block_code (n + 1) j)) with 2 in *.
  replace (pc + size (spill_code (n + 1)) + 3) with (pc + size (spill_code (n + 1)) + 2 + 1) by lia.
  by replace (pc + (size (spill_code (n + 1)) + (2 + (1 + size (unspill_code (n + 1))))))
    with (pc + size (spill_code (n + 1)) + 2 + 1 + size (unspill_code (n + 1))) by lia.
Qed.

Lemma same_write i j v s : same_ident i j → write_var i v s = write_var j v s.
Proof. intros E. pose proof E as (_ & _ & E3 & E4 & _). unfold write_var. by rewrite (same_local _ _ E), E3, E4. Qed.

Lemma wp_store_var flags n right idp l d ids (Q : post unit) : has flags DT_NF_REF = false →
  var_ok ids0 gsize lsize idp (di_size (var_of ids0 idp)) = true → stacked d (n + 1) → ids_ok ids →
  (n + 1 < 18)%nat → l < 2 ^ 32 →
  (∀ d' ids' j, stacked d' (n + 1) → ids_ok ids' → ident_ok gsize lsize j (di_size j) = true →
     same_ident (var_of ids0 idp) j → Q tt (store_code n j) l d' ids') →
  wp (dt_cg_store_var hdl dt_dlib_get_func flags (rnum (sreg n)) right idp) l d ids Q.
Proof.
  intros Href Hok Hs Hi Hn Hl HQ.
  destruct (var_ok_spec _ _ _ Hok Hi) as (j & Hj & E & Hjok).
  set (j' := flagged j DT_IDFLG_DIFW). assert (same_ident (var_of ids0 idp) j') as E' by (by apply same_flagged).
  assert (ident_ok gsize lsize j' (di_size j') = true) as Hjok'.
  { rewrite <- (same_ok _ _ _ E'), (same_ok _ _ _ E). destruct E as (_ & _ & _ & E4 & _). cbn [j' flagged di_size].
    by rewrite <- E4. }
  pose proof (ident_facts _ _ Hjok') as F'. pose proof (ids_flagged _ _ _ DT_IDFLG_DIFW Hi Hj eq_refl) as Hi'.
  fold j' in Hi'. unfold dt_cg_store_var. apply wp_bind. eapply wp_or_flags; [lia|exact Hj|]. fold j'.
  apply wp_bind. eapply wp_get_ident; [lia|apply lookup_insert_eq|]. rewrite (vf_tls _ _ F'), Href. cbn [negb].
  gens. apply wp_assert; [lia|apply F'|]. gens. cbn [app]. by apply HQ.
Qed.

#[local] Opaque store_code.

(** *** Division of signed numbers *)

(** The number of the function has 32 bits. *)
Lemma call_func_s32 id : BPF_CALL_FUNC (s32 id) = BPF_CALL_FUNC id.
Proof. unfold BPF_CALL_FUNC, insn_of. by rewrite (swrap_id 32 (s32 id)) by (by try apply swrap_range). Qed.

Lemma wp_report k l d ids (Q : post unit) : stacked d k → (k <= 12)%nat → ids_ok ids → l < 2 ^ 32 →
  (∀ d', stacked d' k →
     Q tt (report_code (err_id := err_id) (lev k) (dt_dlib_get_func "dt_probe_error") DTRACEFLT_DIVZERO) l d' ids) →
  wp (dt_cg_probe_error dt_dlib_get_func (u32 (-1)) DTRACEFLT_DIVZERO 0) l d ids Q.
Proof.
  intros [Hk HL] Hk12 Hids Hl HQ. destruct Herr_id as (i & Hi & Hid).
  destruct (ids_there _ _ _ Hids Hi) as (j & Hj & E). destruct E as (_ & E2 & _).
  assert (∀ q, 0 <= q < 6 → 0 <= lev k q < 2) as Hlev by (intros q Hq; unfold lev; levs).
  unfold dt_cg_probe_error. apply wp_bind. eapply wp_alloc_args; [lia|exact HL|intros; apply Hlev; lia|]. intros d1 H1.
  gens. assert (∀ q, q < 1 → bump (lev k) 1 6 q = lev k q) as Eb.
  { intros q Hq. unfold bump. rewrite (proj2 (Z.leb_gt 1 q)) by lia. apply Z.add_0_r. }
  assert (∀ q, 1 <= q → upd (lev k) 0 (lev k 0 + 1) q = lev k q) as Eu.
  { intros q Hq. unfold upd. by rewrite (proj2 (Z.eqb_neq q 0)) by lia. }
  eapply wp_xalloc0; [lia|exact H1|rewrite Eb by lia; apply Hlev; lia|]. intros d2 H2.
  rewrite (stores_ext (bump (lev k) 1 6) (lev k)) by (intros; apply Eb; lia).
  unfold call_func. gens. eapply wp_get_ident; [lia|exact Hj|]. apply wp_eme; [lia|]. gens.
  eapply (wp_free_args (upd (lev k) 0 (lev k 0 + 1))); [lia| |intros q Hq; rewrite Eu by lia; apply Hlev; lia|].
  { eapply levels_ext; [exact H2|]. intros q Hq. unfold bump, upd.
    destruct (Z.eqb_spec q 0), (Z.leb_spec 1 q), (Z.ltb_spec q 6); subst; cbn [andb Z.leb Z.compare Z.ltb]; lia. }
  intros d3 H3. rewrite (loads_ext _ (lev k)) by (intros; apply Eu; lia).
  gens. eapply (wp_free0 (lev k)); [lia|exact H3|apply Hlev; lia|]. intros d4 H4. gens.
  rewrite <- E2, <- call_func_s32, Hid. cbn [app]. apply HQ. by split.
Qed.

Lemma ex_report (C : ctx) fin n vs0 pc k vs ext s :
  at_pc C pc (report_code (err_id := err_id) (lev k) ext DTRACEFLT_DIVZERO) → length vs = k → (k <= 12)%nat →
  ex C fin n vs0 (s, None) pc k vs s.
Proof.
  intros Ha Hlen Hk rs m Hm. assert (srange 32 err_id) as Hr by (destruct Herr_id as (i & _ & <-); by apply swrap_range).
  eapply report_runs; [exact Hr|done|exact Ha|by eapply ms_base|]. intros q Hq E.
  assert (8 - Z.of_nat q < Z.of_nat k) as Hqk by (unfold lev in E; levs).
  destruct (lookup_lt_is_Some_2 vs (8 - q)) as [v Hv]; [lia|]. exists v.
  apply (ms_get C _ _ _ _ _ _ _ Hm Hv). lia.
Qed.

Lemma div_compiles dnp op left right m1 m2 (m : bool) n b1 b2 x y :
  dt_node_is_pointer hdl left = Some (Done false) → dt_node_is_pointer hdl right = Some (Done false) →
  is_signed dnp = true →
  compiles m1 n b1 x → compiles m2 (n + 1) b2 y → 0 <= b1 → 0 <= b2 → (n + 2 <= 12)%nat →
  compiles (dt_cg_arithmetic_op hdl dt_dlib_get_func dnp op left right m1 m2 (alu_code (if m then MOD else DIV)))
    n (1 + b1 + b2)
    (u ← x; w ← y; if w =? 0 then fault else
     mret (u64 (if m then Z.sgn (s64 w) * Z.rem (s64 u) (s64 w) else Z.quot (s64 u) (s64 w)))).
Proof.
  intros Hpl Hpr Hsgn Hm1 Hm2 Hb1 Hb2 Hn l d ids Hs Hi Hl Hlb. unfold dt_cg_arithmetic_op, signed_division.
  apply wp_bind. eapply wp_lift; [lia|exact Hpl|]. apply wp_bind. eapply wp_lift; [lia|exact Hpr|].
  cbn [andb]. rewrite andb_false_r, Hsgn. remember (if m then MOD else DIV) as a eqn:Ea.
  replace (((alu_code a =? BPF_MOD) || (alu_code a =? BPF_DIV)) && true) with true by (subst; by destruct m).
  gens. eapply (wp_report (n + 1 + 1)); [eassumption|lia|eassumption|lia|]. intros d2 Hd2. gens.
  remember (report_code _ _ _) as rep eqn:Erep. assert (straight rep) as Hrep by (subst; apply report_straight).
  assert (0 <= size rep <= 18) as Hrsz by (subst; apply report_size).
  assert (decoding err_fun rep) by (subst; apply report_decodes). shape.
  intros C pc vs s Hlen Hat. at_split Hat. eapply ex_operand; [eauto|]. intros s1 u _.
  eapply ex_operand; [eapply go_does; [eassumption|len|eassumption]|]. intros s2 w _.
  apply ex_range. intros [[_ [Hu _]%Forall_cons]%Forall_app [Hw _]%Forall_cons]%Forall_app.
  run1.
  destruct (Z.eqb_spec w 0) as [Hw0|Hw0]; cbn [negb].
  { rewrite Erep in *. eapply ex_report; [eassumption|len|lia]. }
  rewrite <- div_abs_spec, <- Ea by done. unfold div_abs.
  run1. change (s64 0) with 0.
  destruct (s64 u <? 0); run1; [run1|]; change (s64 0) with 0; rewrite ?Z.leb_antisym;
    destruct (s64 w <? 0); cbn [negb xorb]; do 5 try run1; finish.
Qed.

(** *** Assignments *)

Lemma ev_set c idp (v w : Z) s :
  (set_var ids0 (Var c idp) v;; (mret w : ev Z)) s = ((write_var (var_of ids0 idp) v s).1, Some w).
Proof. done. Qed.

(** What an assignment to [idp] by the node [e] needs. *)
Definition stores_to (e : dt_node) (idp : Z) : Prop :=
  not_ref e = true ∧ var_ok ids0 gsize lsize idp (di_size (var_of ids0 idp)) = true.

(** The right operand is not a translator. *)
Definition plain_source (right : dt_node) : Prop :=
  match right with
  | Var _ idp => ∃ i, ids0 !! idp = Some i ∧ (di_kind i =? DT_IDENT_XLSOU) = false
  | _ => dt_node_is_dynamic hdl right = false
  end.

Lemma wp_store_to e idp right n l d ids (Q : post unit) : stores_to e idp → stacked d (n + 1) → ids_ok ids →
  (n + 1 < 18)%nat → l < 2 ^ 32 →
  (∀ d' ids' j, stacked d' (n + 1) → ids_ok ids' → ident_ok gsize lsize j (di_size j) = true →
     same_ident (var_of ids0 idp) j → straight (store_code n j) → 0 <= size (store_code n j) <= 5 → decoding err_fun (store_code n j) →
     Q tt (store_code n j) l d' ids') →
  wp (dt_cg_store_var hdl dt_dlib_get_func (dn_flags (common e)) (rnum (sreg n)) right idp) l d ids Q.
Proof.
  intros [Hr%negb_true_iff Hok] Hs Hi Hn Hl HQ. apply wp_store_var; [done..|].
  intros d' ids' j Hd Hids Hj E. apply HQ; [done..|by apply store_straight|by apply store_size|by apply store_decodes].
Qed.

Ltac run_store :=
  lazymatch goal with
  | H : at_pc ?C ?pc (store_code _ ?j), Hj : ident_ok _ _ ?j _ = true, E : same_ident _ ?j |- ex ?C _ _ _ _ ?pc _ _ _ =>
      eapply ex_step; [eapply (step_store _ _ _ _ _ _ _ H); [len|exact Hj|lia]|]; rewrite <- (same_write _ _ _ _ E)
  end.

Lemma wp_is_xlsou right l d ids (Q : post bool) : plain_source right → ids_ok ids → l < 2 ^ 32 →
  Q false [] l d ids → wp (is_xlsou hdl right) l d ids Q.
Proof.
  intros Hp Hi Hl HQ. unfold plain_source, is_xlsou in *. destruct right;
    try (apply wp_bind, wp_assert; [done|by rewrite Hp|]; by apply wp_ret).
  destruct Hp as (i & Hi0 & Hk). destruct (ids_there _ _ _ Hi Hi0) as (j & Hj & Ek & _).
  apply wp_bind. eapply wp_get_ident; [done|exact Hj|]. rewrite <- Ek, Hk. by apply wp_ret.
Qed.

Lemma wp_scalar_var idp w l d ids (Q : post unit) : var_ok ids0 gsize lsize idp w = true → ids_ok ids → l < 2 ^ 32 →
  Q tt [] l d ids → wp (scalar_var idp) l d ids Q.
Proof.
  intros Hok Hi Hl HQ. destruct (var_ok_spec _ _ _ Hok Hi) as (j & Hj & _ & F%ident_facts).
  unfold scalar_var. apply wp_bind. eapply wp_get_ident; [done|exact Hj|].
  apply wp_bind, wp_assert; [done|by rewrite (vf_inline _ _ F)|].
  destruct (vf_kind _ _ F) as [-> _]. by apply wp_assert.
Qed.

Lemma asgn_compiles e c idp right cgl m n b x : stores_to e idp → plain_source right → compiles m n b x → 0 <= b →
  (n + 1 < 18)%nat →
  compiles (r ← m; dt_cg_asgn_op hdl dt_dlib_get_func e (Var c idp) right (dn_reg r) r cgl) n (1 + b)
    (v ← x; set_var ids0 (Var c idp) v;; mret v).
Proof.
  intros Hst Hsrc Hm Hb Hn l d ids Hs Hi Hl Hlb. unfold dt_cg_asgn_op. gens.
  apply wp_is_xlsou; [done|done|lia|]. gens. eapply wp_scalar_var; [apply Hst|done|lia|]. gens.
  eapply wp_store_to; [exact Hst|done|done|done|lia|]. intros d2 i2 j ? ? ? ? ? ? ?. gens. shape.
  intros C pc vs s Hlen Hat. at_split Hat. eapply ex_operand; [eauto|]. intros s1 v _. rewrite ev_set. run_store. finish.
Qed.

Lemma preop_compiles e c idp cgref m a n b x : stores_to e idp → dt_node_is_pointer hdl e = Some (Done false) →
  compiles m n b x → 0 <= b → (n + 1 < 18)%nat →
  compiles (dt_cg_prearith_op hdl dt_dlib_get_func e (Var c idp) m cgref (alu_code a)) n (1 + b)
    (v ← x; set_var ids0 (Var c idp) (alu_int a v 1);; mret (alu_int a v 1)).
Proof.
  intros Hst Hp Hm Hb Hn l d ids Hs Hi Hl Hlb. unfold dt_cg_prearith_op, step_size. apply wp_bind.
  eapply wp_lift; [lia|by rewrite Hp|]. gens.
  eapply wp_store_to; [exact Hst|done|done|done|lia|]. intros d2 i2 j ? ? ? ? ? ? ?. gens. shape.
  intros C pc vs s Hlen Hat. at_split Hat. eapply ex_operand; [eauto|]. intros s1 v _. rewrite ev_set.
  run1. run_store. finish.
Qed.

Lemma postop_compiles e c idp cgref m a n b x : stores_to e idp → dt_node_is_pointer hdl e = Some (Done false) →
  compiles m n b x → 0 <= b → (n + 2 < 18)%nat →
  compiles (dt_cg_postarith_op hdl dt_dlib_get_func e (Var c idp) m cgref (alu_code a)) n (1 + b)
    (v ← x; set_var ids0 (Var c idp) (alu_int a v 1);; mret v).
Proof.
  intros Hst Hp Hm Hb Hn l d ids Hs Hi Hl Hlb. unfold dt_cg_postarith_op, step_size. apply wp_bind.
  eapply wp_lift; [lia|by rewrite Hp|]. gens.
  eapply wp_store_to; [exact Hst|done|done|lia|lia|]. intros d2 i2 j ? ? ? ? ? ? ?. gens. shape.
  intros C pc vs s Hlen Hat. at_split Hat. eapply ex_operand; [eauto|]. intros s1 v _. rewrite ev_set.
  run1. run1. run1. run_store. run1. finish.
Qed.

(** ** Expressions *)

Lemma weight_pos e : 0 < weight e.
Proof. induction e; cbn [weight]; repeat case_match; lia. Qed.

Lemma fits_lt n e : fits n e = true → (n < 18)%nat.
Proof.
  revert n. induction e as [| | | | |? op ? IH|? op ? IH1 ? IH2|? ? IH1 ? IH2 ? IH3]; intros n Hf; cbn [fits] in Hf;
    try (by apply Nat.ltb_lt).
  3: rewrite !andb_true_iff in Hf; destruct_and? Hf; by apply IH1.
  all: destruct op; rewrite ?andb_true_iff in Hf; destruct_and? Hf;
    first [by apply Nat.ltb_lt|by apply IH|by apply IH1|by apply IH2].
Qed.

Lemma compiles_ext m n b x y : compiles m n b x → (∀ s, x s = y s) → compiles m n b y.
Proof.
  intros Hc E l d ids Hs Hi Hl Hb. eapply wp_compiles; [exact Hc|done..|]. intros f l' d' i' [] _. split; [done|].
  constructor; try done. intros C pc vs s Hlen Hat. rewrite <- E. by apply go_does0.
Qed.

(** The instruction of an arithmetic operator. *)
Lemma alu_for op sgn bop : EQ_op op sgn = Some bop ∨ arith_op op sgn = Some bop →
  ∃ a, alu_code a = bop ∧ ((bop =? BPF_MOD) || (bop =? BPF_DIV)) = is_division op ∧
    if is_division op && sgn then
      ∃ m : bool, a = (if m then MOD else DIV) ∧
        ∀ u w, arith op sgn u w =
          if w =? 0 then None
          else Some (u64 (if m then Z.sgn (s64 w) * Z.rem (s64 u) (s64 w) else Z.quot (s64 u) (s64 w)))
    else ∀ u w, arith op sgn u w = Some (alu_int a u w).
Proof.
  assert (∀ b : Z, b mod 64 = Z.land b 63) as Em.
  { intros. change 63 with (Z.ones 6). by rewrite Z.land_ones. }
  intros Hop. destruct op; destruct Hop as [Hop|Hop]; try done; destruct sgn; injection Hop as <-;
    cbn [is_division andb];
    first [ exists ADD; by split_and! | exists SUB; by split_and! | exists MUL; by split_and!
          | exists OR; by split_and! | exists XOR; by split_and! | exists AND; by split_and!
          | exists DIV; by split_and! | exists MOD; by split_and!
          | exists LSH; split_and!; [done..|intros; unfold arith, alu_int; by rewrite Em]
          | exists RSH; split_and!; [done..|intros; unfold arith, alu_int; by rewrite Em]
          | exists ARSH; split_and!; [done..|intros; unfold arith, alu_int; by rewrite Em]
          | exists DIV; split_and!; [done..|exists false; by split] | exists MOD; split_and!; [done..|exists true; by split] ].
Qed.

Lemma ev_bind_ext {A B} (x : ev A) (f g : A → ev B) s : (∀ a s, f a s = g a s) → (x ≫= f) s = (x ≫= g) s.
Proof. intros E. unfold mbind, ev_bind. destruct (x s) as [s' [a|]]; [apply E|done]. Qed.

Lemma ev_assoc {A B D} (x : ev A) (f : A → ev B) (g : B → ev D) s :
  ((a ← x; f a) ≫= g) s = (a ← x; f a ≫= g) s.
Proof. unfold mbind, ev_bind. by destruct (x s) as [s' [a|]]. Qed.

Lemma arith_node dnp op left right m1 m2 bop n b1 b2 x y :
  EQ_op op (is_signed dnp) = Some bop ∨ arith_op op (is_signed dnp) = Some bop →
  dt_node_is_pointer hdl left = Some (Done false) → dt_node_is_pointer hdl right = Some (Done false) →
  compiles m1 n b1 x → compiles m2 (n + 1) b2 y → 0 <= b1 → 0 <= b2 → (n + 1 < 18)%nat →
  negb (is_division op && is_signed dnp) || (n + 2 <=? 12)%nat = true →
  compiles (dt_cg_arithmetic_op hdl dt_dlib_get_func dnp op left right m1 m2 bop) n (1 + b1 + b2)
    (u ← x; w ← y; lift_arith (arith op (is_signed dnp) u w)).
Proof.
  intros Hop Hpl Hpr Hm1 Hm2 Hb1 Hb2 Hn Hdiv. destruct (alu_for _ _ _ Hop) as (a & <- & Ed & Ha).
  destruct (is_division op && is_signed dnp) eqn:Ediv.
  - destruct Ha as (m & -> & Ha). cbn [negb orb] in Hdiv. apply Nat.leb_le in Hdiv.
    apply andb_true_iff in Ediv as [_ Hsgn].
    eapply compiles_ext; [by apply div_compiles|]. intros s. apply ev_bind_ext. intros u s1. apply ev_bind_ext.
    intros w s2. rewrite Ha. by destruct (w =? 0).
  - eapply compiles_ext; [apply arith_compiles; try done; by rewrite Ed|].
    intros s. apply ev_bind_ext. intros u s1. apply ev_bind_ext. intros w s2. by rewrite Ha.
Qed.

(** The branch of a comparison. *)
Lemma cond_for op sop uop (sgn : bool) : compare_op op = Some (sop, uop) →
  ∃ c, cond_code c = (if (if is_equality op then false else sgn) then sop else uop) ∧
    ∀ a b, cond_int c a b = compare op sgn a b.
Proof.
  intros E. destruct op; try done; injection E as <- <-; destruct sgn; cbn [is_equality];
    first [ by exists JEQ | by exists JNE | by exists JLT | by exists JLE | by exists JGT | by exists JGE
          | by exists JSLT | by exists JSLE | by exists JSGT | by exists JSGE ].
Qed.

Lemma target_stores e lp : target_ok ids0 gsize lsize e lp = true → ∃ c idp, lp = Var c idp ∧ stores_to e idp.
Proof.
  destruct lp; try done. cbn [target_ok]. intros [? ?]%andb_true_iff. by eexists _, _.
Qed.

Lemma source_plain rp : supported hdl eattr pcb_amin ids0 gsize lsize rp = true → source_ok hdl rp = true → plain_source rp.
Proof.
  intros Hs Hr. destruct rp as [| | | |c idp| | |]; cbn [source_ok plain_source] in *; try (by apply negb_true_iff).
  cbn [supported] in Hs. rewrite !andb_true_iff in Hs. destruct Hs as [_ Hv]. unfold var_ok in Hv.
  destruct (ids0 !! idp) as [i|]; [|done]. exists i. split; [done|]. apply ident_facts in Hv.
  destruct (vf_kind _ _ Hv) as [_ [? _]%orb_false_iff]. done.
Qed.

Lemma not_pointer_false e : not_pointer hdl e = true → dt_node_is_pointer hdl e = Some (Done false).
Proof. unfold not_pointer, answer. by destruct (dt_node_is_pointer hdl e) as [[[]|]|]. Qed.

Section Nodes.
Context (oob : nat → nat → Z) (soob : nat → Z) (smem : chunks).
#[local] Abbreviation node e := (dt_cg_node hdl eattr pcb_amin dt_dlib_get_func strsize oob soob smem e 0).
#[local] Abbreviation sup := (supported hdl eattr pcb_amin ids0 gsize lsize).
#[local] Abbreviation value := (eval hdl eattr pcb_amin ids0).

(** An expression the generator handles. *)
Definition handled (e : dt_node) : Prop :=
  ∀ n, sup e = true → fits n e = true → compiles (node e) n (weight e) (value e).

Lemma compiles_weaken m n b b' x : compiles m n b x → b <= b' → compiles m n b' x.
Proof.
  intros Hc Hb l d ids Hs Hi Hl Hlb. eapply wp_compiles; [exact Hc|done|done|done|lia|].
  intros f l' d' i' [] _. split; [done|]. constructor; try done; lia.
Qed.

(** The facts of a conjunction of tests. *)
Ltac tests H := rewrite ?andb_true_iff in H; destruct_and? H.

Lemma op1_handled c op x : handled x → handled (Op1 c op x).
Proof.
  intros IH n Hs Hf. pose proof (weight_pos x) as Hw. cbn [weight dt_cg_node eval]. cbn [supported] in Hs. cbn [fits] in Hf.
  destruct op; try done; tests Hs; tests Hf;
    try (destruct (target_stores _ x ltac:(eassumption)) as (c' & idp & -> & Hst)).
  - apply lneg_compiles; [by apply IH|lia].
  - apply bneg_compiles; [by apply IH|lia].
  - apply (preop_compiles _ _ _ _ _ ADD); [done|by apply not_pointer_false|by apply IH|lia|by apply Nat.ltb_lt].
  - apply (postop_compiles _ _ _ _ _ ADD); [done|by apply not_pointer_false|by apply IH|lia|by apply Nat.ltb_lt].
  - apply (preop_compiles _ _ _ _ _ SUB); [done|by apply not_pointer_false|by apply IH|lia|by apply Nat.ltb_lt].
  - apply (postop_compiles _ _ _ _ _ SUB); [done|by apply not_pointer_false|by apply IH|lia|by apply Nat.ltb_lt].
  - apply same_compiles; [by apply IH|lia].
  - apply ineg_compiles; [by apply IH|lia].
  - apply compiles_weaken with 1; [|lia]. unfold node_size, answer, answers in *.
    destruct (dt_node_type_size hdl x) as [[v|]|] eqn:E; try done.
    apply sizeof_compiles; [by apply Nat.ltb_lt|done|unfold urange; lia|lia].
Qed.

Lemma op2_arith c op lp rp n bop (e := Op2 c op lp rp) : handled lp → handled rp →
  EQ_op op (is_signed e) = Some bop ∨ arith_op op (is_signed e) = Some bop →
  sup lp && sup rp && not_pointer hdl lp && not_pointer hdl rp = true →
  fits n lp && fits (n + 1) rp && (negb (is_division op && is_signed e) || (n + 2 <=? 12)%nat) = true →
  compiles (dt_cg_arithmetic_op hdl dt_dlib_get_func e op lp rp (node lp) (node rp) bop) n (1 + weight lp + weight rp)
    (u ← value lp; w ← value rp; lift_arith (arith op (is_signed e) u w)).
Proof.
  intros IH1 IH2 Hop Hs Hf. tests Hs. tests Hf. pose proof (weight_pos lp). pose proof (weight_pos rp).
  pose proof (fits_lt (n + 1) rp ltac:(done)).
  apply arith_node; [done|by apply not_pointer_false|by apply not_pointer_false|by apply IH1|by apply IH2|lia|lia|lia|done].
Qed.

(** The assignment of the value of an operator. *)
Lemma op2_assign c op lp rp n bop (e := Op2 c op lp rp) : handled lp → handled rp →
  EQ_op op (is_signed e) = Some bop →
  sup lp && sup rp && not_pointer hdl lp && not_pointer hdl rp &&
    (target_ok ids0 gsize lsize e lp && source_ok hdl rp) = true →
  fits n lp && fits (n + 1) rp && (negb (is_division op && is_signed e) || (n + 2 <=? 12)%nat) = true →
  compiles (x ← dt_cg_arithmetic_op hdl dt_dlib_get_func e op lp rp (node lp) (node rp) bop;
            dt_cg_asgn_op hdl dt_dlib_get_func e lp rp (dn_reg x) x
              (dt_cg_node hdl eattr pcb_amin dt_dlib_get_func strsize oob soob smem lp DT_NF_REF))
    n (2 + weight lp + weight rp)
    (u ← value lp; w ← value rp; v ← lift_arith (arith op (is_signed e) u w); set_var ids0 lp v;; mret v).
Proof.
  intros IH1 IH2 Hop Hs Hf. apply andb_true_iff in Hs as [Hs Ht]. tests Ht.
  pose proof (op2_arith c op lp rp n bop IH1 IH2 (or_introl Hop) Hs Hf) as Ha. tests Hs. tests Hf.
  pose proof (weight_pos lp). pose proof (weight_pos rp). pose proof (fits_lt (n + 1) rp ltac:(done)).
  destruct (target_stores _ lp ltac:(eassumption)) as (c' & idp & -> & Hst).
  eapply compiles_ext.
  - apply (compiles_weaken _ _ (1 + (1 + weight (Var c' idp) + weight rp))); [|lia].
    apply asgn_compiles; [done|by apply source_plain|exact Ha|lia|lia].
  - intros s. rewrite ev_assoc. apply ev_bind_ext. intros u s1. by rewrite ev_assoc.
Qed.

Lemma lift_compiles {A} (m : comp A) (a : A) f n b x : m = Some (Done a) → compiles (f a) n b x → 0 <= b →
  compiles (a ← cg_lift m; f a) n b x.
Proof. intros Hm Hc Hb l d ids Hs Hi Hl Hlb. apply wp_bind. eapply wp_lift; [lia|done|]. by apply Hc. Qed.

Lemma op2_compare c op lp rp n sop uop (e := Op2 c op lp rp) : handled lp → handled rp →
  compare_op op = Some (sop, uop) → sup lp && sup rp && compare_ok hdl eattr pcb_amin lp rp = true →
  fits n lp && fits (n + 1) rp && (n + 1 <? 9)%nat = true →
  compiles (s ← cg_lift (if is_equality op then mret false else dt_cg_compare_signed hdl eattr pcb_amin lp rp);
            dt_cg_compare_op hdl dt_dlib_get_func lp rp (node lp) (node rp) (if s : bool then sop else uop))
    n (1 + weight lp + weight rp)
    (a ← value lp; b ← value rp;
     mret (of_bool (compare op (answer false (dt_cg_compare_signed hdl eattr pcb_amin lp rp)) a b))).
Proof.
  intros IH1 IH2 Hop Hs Hf. tests Hs. tests Hf. pose proof (weight_pos lp). pose proof (weight_pos rp).
  unfold compare_ok in *. repeat match goal with H : _ && _ = true |- _ => tests H end.
  set (m := dt_cg_compare_signed _ _ _ _ _) in *. unfold answers in *. destruct m as [[sgn|]|] eqn:Em; try done.
  destruct (cond_for op sop uop sgn Hop) as (cc & Ec & Hcc).
  apply (lift_compiles _ (if is_equality op then false else sgn)); [by destruct (is_equality op)| |lia].
  rewrite <- Ec. eapply compiles_ext.
  - apply compare_compiles; [by apply negb_true_iff|by apply negb_true_iff|by apply IH1|by apply IH2|lia|lia|by apply Nat.ltb_lt].
  - intros s. apply ev_bind_ext. intros u s1. apply ev_bind_ext. intros w s2. by rewrite Hcc.
Qed.

Lemma op2_handled c op lp rp : handled lp → handled rp → handled (Op2 c op lp rp).
Proof.
  intros IH1 IH2 n Hs Hf. pose proof (weight_pos lp) as Hw1. pose proof (weight_pos rp) as Hw2.
  cbn [weight dt_cg_node eval]. cbn [supported] in Hs. cbn [fits] in Hf.
  destruct op; cbn [EQ_op arith_op compare_op] in Hs |- *; try (by rewrite andb_false_r in Hs).
  all: try (by eapply op2_assign; [done|done|reflexivity|exact Hs|exact Hf]).
  all: try (by eapply op2_compare).
  all: try (by eapply compiles_ext; [eapply op2_arith; [done|done|right; reflexivity|by rewrite andb_true_r in Hs|exact Hf]|];
            intros s; do 2 (apply ev_bind_ext; intros ? ?); by rewrite ev_id).
  all: tests Hs; tests Hf.
  - apply comma_compiles; [by apply IH1|by apply IH2|lia|lia|eapply fits_lt; eassumption].
  - destruct (target_stores _ lp ltac:(eassumption)) as (c' & idp & -> & Hst).
    apply compiles_weaken with (1 + weight rp); [|lia].
    apply asgn_compiles; [done|by apply source_plain|by apply IH2|lia|by apply Nat.ltb_lt].
  - apply lor_compiles; [by apply IH1|by apply IH2|lia|lia|eapply fits_lt; eassumption].
  - apply lxor_compiles; [by apply IH1|by apply IH2|lia|lia|eapply fits_lt; eassumption].
  - apply land_compiles; [by apply IH1|by apply IH2|lia|lia|eapply fits_lt; eassumption].
  - apply compiles_weaken with (1 + weight rp); [|lia]. apply cast_compiles; [done|by apply IH2|lia].
Qed.

Lemma op3_handled c x lp rp : handled x → handled lp → handled rp → handled (Op3 c x lp rp).
Proof.
  intros IH IH1 IH2 n Hs Hf. cbn [supported] in Hs. cbn [fits] in Hf. tests Hs. tests Hf.
  pose proof (weight_pos x). pose proof (weight_pos lp). pose proof (weight_pos rp).
  cbn [weight dt_cg_node eval]. apply ternary_compiles; [by apply negb_true_iff|by apply IH|by apply IH1|by apply IH2|lia|lia|lia|by apply Nat.ltb_lt].
Qed.

Lemma node_handled e : handled e.
Proof.
  induction e as [c v|c s|c|c n|c idp|c op x IH|c op lp IH1 rp IH2|c x IH lp IH1 rp IH2]; try done.
  - intros n Hs Hf. cbn [supported] in Hs. tests Hs. apply const_compiles; [by apply Nat.ltb_lt|unfold urange; lia].
  - intros n Hs Hf. cbn [supported] in Hs. tests Hs. apply var_compiles; [done|done|done|by apply Nat.ltb_lt].
  - by apply op1_handled.
  - by apply op2_handled.
  - by apply op3_handled.
Qed.

End Nodes.

End Correct.

End CgCorrect.
