(* ===== verification/CgClause.v ===== *)
(** * The program of a clause: dt_cg.c

    [dt_cg_prologue], [dt_cg_epilogue] and [dt_cg] for a clause whose statements
    are expressions, and the theorem about the whole of it: the code generator
    and the assembler succeed, and a call of the program with a DTrace context
    evaluates the predicate and then the statements, one after the other, on the
    global and local variables.

    The fields of the program that a relocation fills in (the identifiers of the
    probe and of the clause) still have the value the code generator gave them. *)
From S2P Require Import Prelude Bpf BpfWords Bitmap Regset Strtab Ident DtAs Node Cg CgSem CgRegs CgRun CgWp CgFault CgCorrect.
#[local] Open Scope Z_scope.
Import Bpf BpfWords Strtab Ident DtAs Node Cg CgSem CgRegs CgRun CgWp CgFault CgCorrect.

Module CgClause.

Definition DCTX_CTX : Z := 0.
Definition DCTX_BUF : Z := 24.
Definition DMST_EPID : Z := 0.
Definition DMST_CLID : Z := 8.
Definition DMST_TSTAMP : Z := 32.
Definition BPF_REG_5 : Z := 5.
Definition BPF_F_CURRENT_CPU : Z := 0xffffffff.
Definition BPF_FUNC_perf_event_output : Z := 25.
Definition DT_TSTRING_SLOTS : nat := 4.

Definition dt_cg_xsetx (idp lbl reg x : Z) : cg unit := λ st,
  Some (Done (tt, set_ir (emit (emitle (pcb_ir st) lbl (fst (BPF_LDDW reg x)) idp) (snd (BPF_LDDW reg x))) st)).

Section Clause.
Context `{Ctf} (hdl : hdl_types) (eattr : bool) (pcb_amin : dtrace_attribute).
Context (dt_dlib_get_func dt_dlib_get_var dt_dlib_get_map : string → Z) (strsize : Z).
Context (oob : nat → nat → Z) (soob : nat → Z) (smem : chunks).

#[local] Abbreviation node e := (dt_cg_node hdl eattr pcb_amin dt_dlib_get_func strsize oob soob smem e 0).

(** The start of the function and the predicate; the result is [pcb_bufoff]. *)
Definition dt_cg_prologue (pcb_exitlbl : Z) (pred : option dt_node) : cg Z :=
  let epid := dt_dlib_get_var "EPID" in
  let clid := dt_dlib_get_var "CLID" in
  em (BPF_STORE BPF_DW BPF_REG_FP Regset.DT_STK_DCTX BPF_REG_1);;
  em (BPF_LOAD BPF_DW BPF_REG_0 BPF_REG_FP Regset.DT_STK_DCTX);;
  em (BPF_LOAD BPF_DW BPF_REG_9 BPF_REG_0 DCTX_BUF);;
  em (BPF_LOAD BPF_DW BPF_REG_0 BPF_REG_0 DCTX_MST);;
  em (BPF_STORE_IMM BPF_DW BPF_REG_0 DMST_FAULT 0);;
  em (BPF_STORE_IMM BPF_DW BPF_REG_0 DMST_TSTAMP 0);;
  eme (BPF_STORE_IMM BPF_W BPF_REG_0 DMST_EPID (-1)) epid;;
  eme (BPF_STORE_IMM BPF_W BPF_REG_0 DMST_CLID (-1)) clid;;
  eme (BPF_STORE_IMM BPF_W BPF_REG_9 0 (-1)) epid;;
  em (BPF_STORE_IMM BPF_W BPF_REG_9 4 0);;
  (match pred with
   | Some pred =>
       p ← node pred;
       em (BPF_BRANCH_IMM BPF_JEQ (dn_reg p) 0 pcb_exitlbl);;
       regset_free (dn_reg p)
   | None => mret tt
   end);;
  mret (0 + 2 * 4).

(** The end of the function; [datarec] if the clause records data. *)
Definition dt_cg_epilogue (pcb_exitlbl pcb_bufoff : Z) (datarec : bool) : cg unit :=
  (if datarec then
     let buffers := dt_dlib_get_map "buffers" in
     i ← get_ident buffers;
     em (BPF_LOAD BPF_DW BPF_REG_1 BPF_REG_FP Regset.DT_STK_DCTX);;
     em (BPF_LOAD BPF_DW BPF_REG_1 BPF_REG_1 DCTX_CTX);;
     dt_cg_xsetx buffers DT_LBL_NONE BPF_REG_2 (di_id i);;
     dt_cg_xsetx 0 DT_LBL_NONE BPF_REG_3 BPF_F_CURRENT_CPU;;
     em (BPF_MOV_REG BPF_REG_4 BPF_REG_9);;
     em (BPF_ALU64_IMM BPF_ADD BPF_REG_4 (-4));;
     em (BPF_MOV_IMM BPF_REG_5 pcb_bufoff);;
     em (BPF_ALU64_IMM BPF_ADD BPF_REG_5 4);;
     em (BPF_CALL_HELPER BPF_FUNC_perf_event_output)
   else mret tt);;
  eml pcb_exitlbl (BPF_MOV_IMM BPF_REG_0 0);;
  em BPF_RETURN.

(** The statements of a clause. *)
Fixpoint dt_cg_acts (acts : list dt_node) : cg unit :=
  match acts with
  | [] => mret tt
  | enp :: acts =>
      r ← node enp;
      (if negb (dn_reg r =? -1) then regset_free (dn_reg r);; dt_cg_tstring_free enp r else mret tt);;
      dt_cg_acts acts
  end.

(** [dt_cg] of a clause with the predicate [pred] and the statements [acts]; the
    default action, that of a clause without statements, records data. *)
Definition dt_cg_clause (pred : option dt_node) (acts : list dt_node) : cg unit :=
  pcb_exitlbl ← label;
  pcb_bufoff ← dt_cg_prologue pcb_exitlbl pred;
  dt_cg_acts acts;;
  dt_cg_epilogue pcb_exitlbl pcb_bufoff (match acts with [] => true | _ => false end).

(** ... in the state that [dt_cg] starts with; [active] and [spilled] are what
    the new bitmaps of the register set contain. *)
Definition dt_cg (active spilled : list Z) (ids : idheap) (tab : dt_strtab) (pred : option dt_node)
    (acts : list dt_node) : comp (unit * cg_state) :=
  drp ← lift (Regset.dt_regset_create true (Some active) (Some spilled) 8 cg_spill_store cg_spill_load);
  let size := (strsize + 1 + 7) / 8 * 8 in
  let ts := (λ i, mk_tstring (Z.of_nat i * size) false) <$> seq 0 DT_TSTRING_SLOTS in
  dt_cg_clause pred acts (mk_cgs dt_irlist_create (Regset.dt_regset_reset drp) ids ts tab).

(** ** What a clause means *)

(** The identifiers of the program. *)
Context (ids0 : idheap).
#[local] Abbreviation value := (eval hdl eattr pcb_amin ids0).

Fixpoint run_acts (acts : list dt_node) : ev unit :=
  match acts with
  | [] => mret tt
  | e :: acts => value e;; run_acts acts
  end.

Definition run_clause (pred : option dt_node) (acts : list dt_node) : ev unit :=
  match pred with
  | Some p => v ← value p; if v =? 0 then mret tt else run_acts acts
  | None => run_acts acts
  end.

(** ** The code of the statements *)

Context (err_id gsize lsize : Z).
Hypothesis Herr_id : ∃ i, ids0 !! dt_dlib_get_func "dt_probe_error" = Some i ∧ s32 (di_id i) = err_id.
#[local] Abbreviation ctx := (ctx err_id gsize lsize).
#[local] Abbreviation sup := (supported hdl eattr pcb_amin ids0 gsize lsize).
#[local] Abbreviation ids_ok := (ids_ok ids0).
#[local] Abbreviation err_fun := (dt_dlib_get_func "dt_probe_error").

(** From [pc] to [pc'], between statements, the code does [x]. *)
Definition stmt (C : ctx) (pc pc' : Z) (x : ev unit) : Prop :=
  ∀ s rs m, ms C 0 [] s rs m →
  match x s with
  | (s', Some _) => ∃ rs' m', goes C pc rs m pc' rs' m' ∧ ms C 0 [] s' rs' m'
  | (s', None) => faults C s' pc rs m
  end.

Definition acts_weight (acts : list dt_node) : Z := foldr (λ e w, weight e + w) 0 acts.

Record acts_ok (lo hi : Z) (frag : list dt_irnode) (d : Regset.dt_regset dt_irlist) (ids : idheap)
    (acts : list dt_node) : Prop := {
  ao_regs : stacked d 0;
  ao_ids : ids_ok ids;
  ao_labels : lo <= hi <= lo + 6 * acts_weight acts;
  ao_size : size frag <= 32 * acts_weight acts;
  ao_decodes : decoding err_fun frag;
  ao_closed : closed lo hi frag;
  ao_does : ∀ (C : ctx) pc, at_pc C pc frag → stmt C pc (pc + size frag) (run_acts acts)
}.

Lemma acts_weight_nonneg acts : 0 <= acts_weight acts.
Proof. induction acts as [|e acts IH]; cbn; [done|]. pose proof (weight_pos e). unfold acts_weight in IH. lia. Qed.

(** A statement: the value is dropped. *)
Lemma stmt_node (C : ctx) pc f e acts pc' : does err_id gsize lsize 0 f (value e) → at_pc C pc f →
  stmt C (pc + size f) pc' (run_acts acts) → stmt C pc pc' (value e;; run_acts acts).
Proof.
  intros Hd Ha Hs s rs m Hm. pose proof (Hd C pc [] s eq_refl Ha rs m Hm) as Hv. unfold mbind, ev_bind.
  destruct (value e s) as [s1 [v|]]; [|done]. destruct Hv as (rs1 & m1 & Hg & Hm1%ms_base).
  specialize (Hs s1 rs1 m1 Hm1). destruct (run_acts acts s1) as [s2 [?|]].
  - destruct Hs as (rs2 & m2 & Hg2 & Hm2). exists rs2, m2. split; [by eapply goes_trans|done].
  - by eapply goes_faults.
Qed.

Lemma acts_wp acts : ∀ l d ids (Q : post unit), forallb (λ e, sup e && fits 0 e) acts = true →
  stacked d 0 → ids_ok ids → 0 < l → l + 6 * acts_weight acts < 2 ^ 15 →
  (∀ frag l' d' ids', acts_ok l l' frag d' ids' acts → Q tt frag l' d' ids') →
  wp (dt_cg_acts acts) l d ids Q.
Proof.
  induction acts as [|e acts IH]; intros l d ids Q Hs Hd Hi Hl Hb HQ; cbn [dt_cg_acts].
  - change (acts_weight []) with 0 in Hb. apply wp_ret; [lia|]. apply HQ. constructor; try done.
    + cbn. lia.
    + constructor.
    + apply straight_closed. constructor.
    + intros C pc _ s rs m Hm. cbn. exists rs, m. rewrite Z.add_0_r. split; [apply goes_refl|done].
  - cbn [forallb] in Hs. apply andb_true_iff in Hs as [[He Hf]%andb_true_iff Hs].
    change (acts_weight (e :: acts)) with (weight e + acts_weight acts) in *.
    pose proof (acts_weight_nonneg acts) as Hw. pose proof (weight_pos e) as Hwe.
    apply wp_bind. eapply wp_compiles; [by apply (node_handled _ _ _ _ _ _ _ _ _ Herr_id)|done|done|lia|lia|].
    intros f l1 d1 i1 G Hl1. pose proof (go_regs _ _ _ _ _ _ _ _ _ _ _ _ _ G) as Hd1.
    pose proof (go_ids _ _ _ _ _ _ _ _ _ _ _ _ _ G) as Hi1. cbn [dn_reg fst]. change (negb (_ =? -1)) with true. cbn iota.
    apply wp_bind, wp_bind. eapply (wp_free 0); [lia|exact Hd1|]. intros d2 Hd2. cbn [dt_cg_tstring_free dn_tstring snd].
    apply wp_ret; [lia|]. apply IH; [done|done|done|lia|lia|]. intros f2 l2 d3 i3 [].
    apply HQ. change (unspill_code 0) with (@nil dt_irnode). cbn [app]. destruct G. constructor; try done.
    + change (acts_weight (e :: acts)) with (weight e + acts_weight acts). lia.
    + change (acts_weight (e :: acts)) with (weight e + acts_weight acts). rewrite size_app. lia.
    + by apply decoding_app.
    + solve_closed.
    + intros C pc [Ha1 Ha2]%at_app. rewrite size_app, Z.add_assoc. by eapply stmt_node; [..|apply ao_does0].
Qed.

(** ** The code of a clause *)

(** The start, with the values that are stored as the identifiers of the enabled
    probe and of the clause. *)
Definition prologue_code (epidv clidv : Z) : list dt_irnode :=
  let epid := dt_dlib_get_var "EPID" in
  let clid := dt_dlib_get_var "CLID" in
  [mk_irnode 0 (BPF_STORE BPF_DW BPF_REG_FP Regset.DT_STK_DCTX BPF_REG_1) 0;
   mk_irnode 0 (BPF_LOAD BPF_DW BPF_REG_0 BPF_REG_FP Regset.DT_STK_DCTX) 0;
   mk_irnode 0 (BPF_LOAD BPF_DW BPF_REG_9 BPF_REG_0 DCTX_BUF) 0;
   mk_irnode 0 (BPF_LOAD BPF_DW BPF_REG_0 BPF_REG_0 DCTX_MST) 0;
   mk_irnode 0 (BPF_STORE_IMM BPF_DW BPF_REG_0 DMST_FAULT 0) 0;
   mk_irnode 0 (BPF_STORE_IMM BPF_DW BPF_REG_0 DMST_TSTAMP 0) 0;
   mk_irnode 0 (BPF_STORE_IMM BPF_W BPF_REG_0 DMST_EPID epidv) epid;
   mk_irnode 0 (BPF_STORE_IMM BPF_W BPF_REG_0 DMST_CLID clidv) clid;
   mk_irnode 0 (BPF_STORE_IMM BPF_W BPF_REG_9 0 epidv) epid;
   mk_irnode 0 (BPF_STORE_IMM BPF_W BPF_REG_9 4 0) 0].

Definition epilogue_code (exitlbl : Z) : list dt_irnode :=
  [mk_irnode exitlbl (BPF_MOV_IMM BPF_REG_0 0) 0; mk_irnode 0 BPF_RETURN 0].

Definition clause_nodes (epidv clidv : Z) (body : list dt_irnode) : list dt_irnode :=
  prologue_code epidv clidv ++ body ++ epilogue_code 1.

Definition clause_weight (pred : option dt_node) (acts : list dt_node) : Z :=
  from_option weight 0 pred + acts_weight acts.

(** The clauses covered. *)
Definition clause_ok (pred : option dt_node) (acts : list dt_node) : bool :=
  match acts with [] => false | _ => true end &&
  from_option (λ p, sup p && fits 0 p) true pred && forallb (λ e, sup e && fits 0 e) acts &&
  (32 * clause_weight pred acts + 13 <? 2 ^ 15).

(** The code between the two ends. *)
Definition body_does (body : list dt_irnode) (x : ev unit) : Prop :=
  ∀ (C : ctx) pc, at_pc C pc body → lab C 1 (pc + size body) → stmt C pc (pc + size body) x.

Record clause_code (hi : Z) (body : list dt_irnode) (x : ev unit) (w : Z) : Prop := {
  cc_does : body_does body x;
  cc_labels : 1 < hi <= 2 + 6 * w;
  cc_size : size body <= 32 * w + 1;
  cc_decodes : decoding err_fun body;
  cc_closed : ∀ epidv clidv, closed 1 hi (clause_nodes epidv clidv body)
}.

(** The statements after the predicate [p]. *)
Lemma stmt_pred (C : ctx) pc f lbl x rest f2 acts p exitpc :
  does err_id gsize lsize 0 f (value p) → at_pc C pc f →
  at_pc C (pc + size f) (mk_irnode 0 (BPF_BRANCH_IMM BPF_JEQ (rnum (sreg 0)) 0 lbl) x :: rest) →
  0 < lbl < 2 ^ 15 → lab C lbl exitpc → exitpc = pc + size f + 1 + size f2 →
  stmt C (pc + size f + 1) exitpc (run_acts acts) → stmt C pc exitpc (run_clause (Some p) acts).
Proof.
  intros Hd Ha Hj Hlbl Hlab Hexit Hs s rs m Hm. pose proof (Hd C pc [] s eq_refl Ha rs m Hm) as Hv.
  unfold run_clause, mbind, ev_bind. destruct (value p s) as [s1 [v|]]; [|done].
  destruct Hv as (rs1 & m1 & Hg & Hm1).
  destruct (step_branch_imm C _ _ JEQ 0 _ _ _ _ _ (0 + 1) ([] ++ [v]) v s1 Hj Hlbl Hlab eq_refl) with rs1 m1
    as (rs2 & m2 & Hg2 & Hm2); [lia|done|]. cbn [cond_int] in Hg2. change (imm64 (s32 0)) with 0 in Hg2.
  apply ms_base in Hm2. destruct (v =? 0).
  { exists rs2, m2. split; [by eapply goes_trans|done]. }
  specialize (Hs s1 rs2 m2 Hm2). destruct (run_acts acts s1) as [s2 [?|]].
  - destruct Hs as (rs3 & m3 & Hg3 & Hm3). exists rs3, m3. split; [|done].
    eapply goes_trans; [exact Hg|]. by eapply goes_trans.
  - eapply goes_faults; [exact Hg|]. by eapply goes_faults.
Qed.

Ltac emits :=
  repeat first [ apply wp_bind | apply wp_em; [lia|] | apply wp_eme; [lia|] | apply wp_eml; [lia|]
               | apply wp_ret; [lia|] ].

Lemma clause_wp pred acts d ids (Q : post unit) : clause_ok pred acts = true → stacked d 0 → ids_ok ids →
  (∀ body l' d' ids', clause_code l' body (run_clause pred acts) (clause_weight pred acts) → ids_ok ids' →
     Q tt (clause_nodes (-1) (-1) body) l' d' ids') →
  wp (dt_cg_clause pred acts) 1 d ids Q.
Proof.
  unfold clause_ok. rewrite !andb_true_iff. intros [[[Hne Hp] Ha] Hw%Z.ltb_lt] Hd Hi HQ.
  pose proof (acts_weight_nonneg acts) as Hwa. unfold clause_weight in *.
  unfold dt_cg_clause, dt_cg_prologue, dt_cg_epilogue. destruct acts as [|e0 acts0]; [done|].
  remember (e0 :: acts0) as acts eqn:Eacts. clear Eacts Hne e0 acts0.
  apply wp_bind, wp_label; [lia|]. change (1 + 1) with 2. emits. destruct pred as [p|]; cbn [from_option] in *.
  - apply andb_true_iff in Hp as [Hsp Hfp]. pose proof (weight_pos p) as Hwp.
    apply wp_bind. eapply wp_compiles; [by apply (node_handled _ _ _ _ _ _ _ _ _ Herr_id)|done|done|lia|lia|].
    intros f l1 d1 i1 G Hl1. destruct G. cbn [dn_reg fst]. emits. eapply (wp_free 0); [lia|exact go_regs0|]. intros d2 Hd2.
    emits. eapply acts_wp; [done|done|done|lia|lia|]. intros f2 l2 d3 i3 []. emits.
    change (unspill_code 0) with (@nil dt_irnode). cbn [app]. rewrite ?app_nil_r. repeat (rewrite <- app_assoc; cbn [app]).
    set (body := f ++ mk_irnode 0 (BPF_BRANCH_IMM BPF_JEQ (rnum (sreg 0)) 0 1) 0 :: f2).
    match goal with |- Q tt ?l _ _ _ => replace l with (clause_nodes (-1) (-1) body)
      by (unfold clause_nodes, body, prologue_code, epilogue_code; cbn [app]; by rewrite <- !app_assoc) end.
    apply HQ; [|done]. unfold body. constructor; [|lia|sizes_of; lia|solve_decodes|].
    2:{ intros epidv clidv. unfold clause_nodes, prologue_code, epilogue_code. cbn [app].
        repeat (rewrite <- app_assoc; cbn [app]). solve_closed. }
    intros C pc Hat Hlab. destruct (at_app _ _ _ _ Hat) as [Ha1 Ha2].
    pose proof (at_next _ _ _ _ _ _ Ha2 eq_refl) as Ha3.
    assert (pc + size (f ++ mk_irnode 0 (BPF_BRANCH_IMM BPF_JEQ (rnum (sreg 0)) 0 1) 0 :: f2) =
            pc + size f + 1 + size f2) as Es by (sizes_of; lia).
    rewrite Es in *. eapply stmt_pred; [exact go_does0|done|exact Ha2|lia|exact Hlab|done|by apply ao_does0].
  - emits. eapply acts_wp; [done|done|done|lia|lia|]. intros f2 l2 d3 i3 []. emits.
    cbn [app]. rewrite ?app_nil_r.
    match goal with |- Q tt ?l _ _ _ => change l with (clause_nodes (-1) (-1) f2) end.
    apply HQ; [|done]. constructor; [|lia|lia|done|].
    2:{ intros epidv clidv. unfold clause_nodes, prologue_code, epilogue_code. cbn [app]. solve_closed. }
    intros C pc Hat Hlab. by apply ao_does0.
Qed.

End Clause.

End CgClause.
