(* ===== verification/CgProgram.v ===== *)
(** * A clause, compiled and run

    [dt_cg] and the two passes of [dt_as] turn a clause into a program; the
    program, called with a DTrace context, does what the clause says. *)
From S2P Require Import Prelude Bpf BpfWords Bitmap Regset Strtab Ident DtAs Node Cg CgSem CgRegs CgRun CgWp CgFault CgCorrect CgClause.
#[local] Open Scope Z_scope.
Import Bpf BpfWords Strtab Ident DtAs Node Cg CgSem CgRegs CgRun CgWp CgFault CgCorrect CgClause.

Module CgProgram.

(** ** The assembled program is one of the machine *)

Lemma as_branch_decodes labels n pc x y : decodes x → as_branch labels n pc x = Some y → decodes y.
Proof.
  intros [H1 H2 H3]. unfold as_branch. repeat (case_match; [by intros ?; simplify_eq|]).
  destruct (labels !! _); cbn [mbind option_bind]; intros ?; simplify_eq. by constructor.
Qed.

Lemma decode_prog_all sym buf : Forall decodes buf → ∃ P, decode_prog sym buf = Some P.
Proof.
  induction 1 as [|x buf Hx _ [P IH]]; cbn [decode_prog]; [eauto|].
  destruct (decodes_insn sym x (default (insn_of 0 0 0 0 0) (head buf)) Hx) as [i ->].
  cbn [mbind option_bind]. rewrite IH. eauto.
Qed.

Lemma code_at_decodes labels buf dips : code_at labels buf 0 dips → Z.of_nat (length buf) = size dips →
  Forall (λ d, decodes (di_instr d)) dips → Forall decodes buf.
Proof.
  intros Hc Hl Hd. apply Forall_lookup. intros k x Hx. pose proof (lookup_lt_Some _ _ _ Hx).
  destruct (placed_covers _ labels buf dips 0 (Z.of_nat k) ltac:(lia) Hc ltac:(lia)) as (d & y & Hin & Hy & Hb).
  rewrite Nat2Z.id in Hb. simplify_eq. eapply as_branch_decodes; [|exact Hy].
  by eapply Forall_forall in Hd.
Qed.

(** A list of nodes whose labels are its own, assembled. *)
Lemma closed_wf dlp hi : closed 1 hi (dl_list dlp) → dl_len dlp = size (dl_list dlp) → dl_label dlp = hi → 1 < hi < 2 ^ 15 →
  size (dl_list dlp) < 2 ^ 15 → wf_irlist dlp.
Proof.
  intros [Hr Hn Ht] Hlen Hlab Hhi Hsz. constructor; [done|lia|lia|done| |].
  - apply Forall_forall. intros l Hl. rewrite Hlab. specialize (Hr l Hl). lia.
  - apply Forall_forall. intros d Hin Hb. by apply Ht.
Qed.

Lemma assembles dlp hi : closed 1 hi (dl_list dlp) → Forall (λ d, decodes (di_instr d)) (dl_list dlp) →
  dl_len dlp = size (dl_list dlp) → dl_label dlp = hi → 1 < hi < 2 ^ 15 → size (dl_list dlp) < 2 ^ 15 →
  ∃ labels buf, as_code dlp = Some (labels, buf) ∧ Z.of_nat (length buf) = size (dl_list dlp) ∧
    Z.of_nat (length labels) = hi ∧ code_at labels buf 0 (dl_list dlp) ∧ Forall decodes buf.
Proof.
  intros Hcl Hd Hlen Hlab Hhi Hsz.
  destruct (as_code_spec dlp) as (labels & buf & Ha & Hb & Hll & Hc); [by eapply closed_wf|].
  exists labels, buf. split_and!; [done|lia|lia|done|]. eapply code_at_decodes; [done|lia|done].
Qed.

(** ** The start of a clause *)

(** The machine state [mst] and the buffer [buf] as a clause begins: no fault, no timestamp,
    and the identifiers of the enabled probe and of the clause. *)
Definition begun (epid clid : Z) (mst buf : Z * Z) (m : mem) : option mem :=
  let '(b, o) := mst in
  let '(c, p) := buf in
  m ← store m b (o + DMST_FAULT) 8 (Int 0);
  m ← store m b (o + DMST_TSTAMP) 8 (Int 0);
  m ← store m b (o + DMST_EPID) 4 (Int (imm64 (s32 epid)));
  m ← store m b (o + DMST_CLID) 4 (Int (imm64 (s32 clid)));
  m ← store m c (p + 0) 4 (Int (imm64 (s32 epid)));
  store m c (p + 4) 4 (Int 0).

Lemma store_keeps (m : mem) b o n v m' : store m b o n v = Some m' → ∀ c, c ≠ b → m' !! c = m !! c.
Proof.
  unfold store, storen. intros E c Hc. destruct (encode n v) as [vs|]; [|done]. cbn [mbind option_bind] in E.
  destruct (m !! b) as [l|]; [|done]. cbn [mbind option_bind] in E. case_decide; [|done]. simplify_eq.
  by rewrite lookup_insert_ne.
Qed.

Lemma store_beside (m : mem) b o n v m' f fr : store m b o n v = Some m' → b ≠ f →
  store (<[f := fr]> m) b o n v = Some (<[f := fr]> m').
Proof.
  unfold store, storen. intros E Hb. destruct (encode n v) as [vs|]; [|done]. cbn [mbind option_bind] in E |- *.
  rewrite lookup_insert_ne by done. destruct (m !! b) as [l|]; [|done]. cbn [mbind option_bind] in E |- *.
  case_decide; [|done]. simplify_eq. by rewrite insert_insert_ne.
Qed.

Lemma begun_keeps epid clid mst buf m m1 : begun epid clid mst buf m = Some m1 →
  ∀ b, b ≠ mst.1 → b ≠ buf.1 → m1 !! b = m !! b.
Proof.
  unfold begun. destruct mst as [b o], buf as [c p]. cbn [fst]. intros E x Hb Hc.
  repeat match type of E with
  | (store ?m ?b ?o ?n ?v ≫= _) = _ =>
      let E1 := fresh in destruct (store m b o n v) eqn:E1; [|done]; cbn [mbind option_bind] in E;
      apply store_keeps with (c := x) in E1; [|done]
  end.
  apply store_keeps with (c := x) in E; [|done]. congruence.
Qed.

(** The registers when the program is called with the DTrace context. *)
Definition entry_regs (bd fb : Z) : regs :=
  None :: (Some <$> [Ptr bd 0]) ++ replicate (9 - length [Ptr bd 0]) None ++ [Some (Ptr fb 512)].

(** ** The machine *)

(** The machine on which programs run: the helpers, the functions of the BPF
    library, the blocks of the stack frame, of the DTrace context and of the
    variables, and where the context says that the machine state and the output
    buffer are; and what [dt_probe_error] needs of the memory and does to it. *)
Record machine (err_id : Z) := mk_machine {
  k_helper : Z → list (option val) → mem → option (val * mem);
  k_funs : string → option (list insn);
  k_sym : Z → string;
  k_fb : Z;
  k_bd : Z;
  k_bg : Z;
  k_bl : Z;
  k_mst : Z * Z;
  k_buf : Z * Z;
  k_dd : list memval;
  k_err : Z → mem → mem;
  k_err_needs : mem → Prop;
  k_err_code : list insn;
  k_distinct : NoDup [k_fb; k_bd; k_bg; k_bl];
  k_apart : (k_mst.1 ∉ [k_fb; k_bd; k_bg; k_bl]) ∧ (k_buf.1 ∉ [k_fb; k_bd; k_bg; k_bl]);
  k_gvars : slot k_dd DCTX_GVARS (Ptr k_bg 0);
  k_lvars : slot k_dd DCTX_LVARS (Ptr k_bl 0);
  k_mstp : slot k_dd DCTX_MST (Ptr k_mst.1 k_mst.2);
  k_bufp : slot k_dd DCTX_BUF (Ptr k_buf.1 k_buf.2);
  k_err_fun : k_funs (k_sym err_id) = Some k_err_code;
  k_err_run : ∀ fault (m : mem) x5, k_err_needs m → ∃ w m',
    runs_to k_helper k_funs k_err_code (k_fb - 1) 0
      [None; Some (Ptr k_bd 0); Some (Int (2 ^ 64 - 1)); Some (Int fault); Some (Int 0); x5;
       None; None; None; None; Some (Ptr (k_fb - 1) 512)] (<[k_fb - 1 := frame0]> m) w m' ∧
    delete (k_fb - 1) m' = k_err fault m;
  k_err_frame : ∀ fault (m : mem), k_err fault m !! k_fb = m !! k_fb
}.
Arguments k_helper {_}. Arguments k_funs {_}. Arguments k_sym {_}. Arguments k_fb {_}. Arguments k_bd {_}.
Arguments k_bg {_}. Arguments k_bl {_}. Arguments k_mst {_}. Arguments k_buf {_}. Arguments k_dd {_}.
Arguments k_err {_}. Arguments k_err_needs {_}. Arguments k_err_code {_}. Arguments k_distinct {_}. Arguments k_apart {_}.
Arguments k_gvars {_}. Arguments k_lvars {_}. Arguments k_mstp {_}. Arguments k_bufp {_}.
Arguments k_err_fun {_}. Arguments k_err_run {_}. Arguments k_err_frame {_}.

Section Machine.
Context {err_id : Z} (M : machine err_id).

(** The memory has the DTrace context and the variables [s], in blocks of
    [gsize] and [lsize] bytes. *)
Record holds_vars (gsize lsize : Z) (s : venv) (m : mem) : Prop := {
  hv_g : m !! k_bg M = Some (Byte <$> gvars s);
  hv_l : m !! k_bl M = Some (Byte <$> lvars s);
  hv_gbytes : Forall byte (gvars s);
  hv_lbytes : Forall byte (lvars s);
  hv_gsize : Z.of_nat (length (gvars s)) = gsize;
  hv_lsize : Z.of_nat (length (lvars s)) = lsize
}.

(** Blocks other than the stack frame and the variables are as they were. *)
Definition rest_as (m0 m : mem) : Prop :=
  ∀ b, b ≠ k_fb M → b ≠ k_bg M → b ≠ k_bl M → m !! b = m0 !! b.

End Machine.

Section Program.
Context `{Ctf} (hdl : hdl_types) (eattr : bool) (pcb_amin : dtrace_attribute).
Context (dt_dlib_get_func dt_dlib_get_var dt_dlib_get_map : string → Z) (strsize : Z).
Context (oob : nat → nat → Z) (soob : nat → Z) (smem : chunks).
Context (ids0 : idheap) (err_id gsize lsize : Z).
#[local] Abbreviation ctx := (ctx err_id gsize lsize).
#[local] Abbreviation clause := (run_clause hdl eattr pcb_amin ids0).
#[local] Abbreviation ok_clause := (clause_ok hdl eattr pcb_amin ids0 gsize lsize).
#[local] Abbreviation compile :=
  (dt_cg hdl eattr pcb_amin dt_dlib_get_func dt_dlib_get_var dt_dlib_get_map strsize oob soob smem).

(** The identifier of the function that reports faults. *)
Definition err_known : Prop :=
  ∃ i, ids0 !! dt_dlib_get_func "dt_probe_error" = Some i ∧ s32 (di_id i) = err_id.

Lemma create_stacked active spilled : length active = 1%nat → length spilled = 1%nat →
  ∃ d, Regset.dt_regset_create true (Some active) (Some spilled) 8 cg_spill_store cg_spill_load = Some d ∧
    stacked (Regset.dt_regset_reset d) 0.
Proof.
  intros Ha Hs. eexists. split; [done|]. split; [lia|].
  set (d0 := {| Regset.dr_size := u64 (8 + 1); Regset.dr_spill_store := cg_spill_store;
                Regset.dr_spill_load := cg_spill_load; Regset.dr_active := active; Regset.dr_spilled := spilled |}).
  destruct (Regset.reset_wf d0) as ([] & Hf0 & _); [done|by cbn [Regset.dr_active d0]; rewrite Ha|by cbn [Regset.dr_spilled d0]; rewrite Hs|].
  destruct (Regset.reset_wf (Regset.dt_regset_reset d0)) as (Hwf & Hf & Hl); [done|done|done|].
  constructor; [done|done|done|done|]. intros q Hq. rewrite Hl. unfold lev. levs.
Qed.

Lemma ids_ok_refl : ids_ok ids0 ids0.
Proof. intros a. destruct (ids0 !! a); by constructor. Qed.

#[local] Abbreviation code_of := (clause_code dt_dlib_get_func dt_dlib_get_var err_id gsize lsize).

(** The numbers of instructions and labels fit. *)
Lemma clause_sizes hi body pred acts epid clid : code_of hi body (clause pred acts) (clause_weight pred acts) →
  ok_clause pred acts = true →
  size (clause_nodes dt_dlib_get_var epid clid body) = size body + 12 ∧ 0 <= size body < 2 ^ 15 - 12 ∧ 1 < hi < 2 ^ 15.
Proof.
  intros [_ Hl Hs _ _] Hok.
  assert (32 * clause_weight pred acts + 13 < 2 ^ 15) as Hw.
  { unfold clause_ok in Hok. rewrite !andb_true_iff in Hok. apply Z.ltb_lt, Hok. }
  pose proof (size_nonneg body). split_and!; try lia. unfold clause_nodes. rewrite !size_app.
  change (size (prologue_code _ _ _)) with 10. change (size (epilogue_code 1)) with 2. lia.
Qed.

Lemma clause_decodes ext epid clid body : decoding ext body →
  Forall (λ d, decodes (di_instr d)) (clause_nodes dt_dlib_get_var epid clid body).
Proof.
  intros Hb. apply Forall_app. split; [|apply Forall_app; split; [by eapply decoding_decodes|]];
    repeat (apply Forall_cons; split; [constructor; first [reflexivity|by eexists]|]); constructor.
Qed.

(** The code generator succeeds. *)
Lemma compile_ok pred acts active spilled tab : err_known → ok_clause pred acts = true →
  length active = 1%nat → length spilled = 1%nat →
  ∃ st hi body, compile active spilled ids0 tab pred acts = Some (Done (tt, st)) ∧
    code_of hi body (clause pred acts) (clause_weight pred acts) ∧
    dl_list (pcb_ir st) = clause_nodes dt_dlib_get_var (-1) (-1) body ∧
    dl_len (pcb_ir st) = size (dl_list (pcb_ir st)) ∧ dl_label (pcb_ir st) = hi ∧
    ids_ok ids0 (cg_ids st) ∧ dt_ccstab st = tab.
Proof.
  intros He Hok Ha Hs. destruct (create_stacked active spilled Ha Hs) as (d & Hd & Hst). unfold compile. rewrite Hd.
  cbn [lift mbind comp_bind mret comp_ret].
  set (st0 := mk_cgs _ _ _ _ _).
  destruct (clause_wp hdl eattr pcb_amin dt_dlib_get_func dt_dlib_get_var dt_dlib_get_map strsize oob soob smem ids0
              err_id gsize lsize He pred acts (pcb_regs st0) ids0
              (λ _ frag l' _ ids', ∃ body, frag = clause_nodes dt_dlib_get_var (-1) (-1) body ∧
                 code_of l' body (clause pred acts) (clause_weight pred acts) ∧ ids_ok ids0 ids') Hok Hst ids_ok_refl
              ltac:(intros body ? ? ? Hcc Hi; exists body; split_and!; [done|exact Hcc|exact Hi]) st0)
    as ([] & frag & l' & d' & ids' & Hm & Hl' & body & -> & Hc & Hi); [by constructor|done|done|done|].
  exists (put st0 (clause_nodes dt_dlib_get_var (-1) (-1) body) (l' - 1) d' ids'), l', body. split; [exact Hm|].
  pose proof (clause_sizes _ _ _ _ (-1) (-1) Hc Hok) as (Hsz & Hb & Hlab).
  unfold put. cbn [pcb_ir dl_list dl_len dl_label st0 dt_irlist_create app].
  split_and!; [done|done|rewrite wrap_id; [lia|unfold urange; lia]| |done|done].
  replace (1 + (l' - 1)) with l' by lia. apply wrap_id. unfold urange. lia.
Qed.

(** ** The prologue *)

(** The loads of the prologue: the context is stored in the frame, register 9
    has the buffer and register 0 the machine state. *)
Lemma prologue_loads (C : ctx) epid clid pc (b o c p : Z) rest (m : mem) :
  slot (c_dd C) DCTX_MST (Ptr b o) → slot (c_dd C) DCTX_BUF (Ptr c p) → m !! c_bd C = Some (c_dd C) →
  at_pc C pc (prologue_code dt_dlib_get_var epid clid ++ rest) →
  ∃ fr, length fr = 512%nat ∧ slot fr (512 + Regset.DT_STK_DCTX) (Ptr (c_bd C) 0) ∧
    goes C pc (entry_regs (c_bd C) (c_fb C)) (<[c_fb C := frame0]> m) (pc + 4)
      (rset (rset (entry_regs (c_bd C) (c_fb C)) r9 (Ptr c p)) r0 (Ptr b o)) (<[c_fb C := fr]> m).
Proof.
  intros Hmst Hbuf Hbd Ha. cbn [prologue_code app] in Ha.
  pose proof (at_next _ _ _ _ _ _ Ha eq_refl) as Ha1. pose proof (at_next _ _ _ _ _ _ Ha1 eq_refl) as Ha2.
  pose proof (at_next _ _ _ _ _ _ Ha2 eq_refl) as Ha3. set (rs := entry_regs _ _).
  destruct (store_slot (<[c_fb C := frame0]> m) (c_fb C) (512 + Regset.DT_STK_DCTX) frame0 (Ptr (c_bd C) 0))
    as (fr & Hst & Hl & Hs & _); [apply lookup_insert_eq|done|done|done|].
  rewrite insert_insert_eq in Hst. exists fr. split_and!; [done|done|].
  assert (c_fb C ≠ c_bd C) as Hne.
  { pose proof (c_distinct C) as Hd. apply NoDup_cons in Hd as [Hd _]. set_solver. }
  set (m1 := <[c_fb C := fr]> m) in *.
  assert (m1 !! c_bd C = Some (c_dd C)) as Hbd1 by (unfold m1; by rewrite lookup_insert_ne).
  replace (pc + 4) with (pc + 1 + 1 + 1 + 1) by lia.
  change (rset (rset rs r9 (Ptr c p)) r0 (Ptr b o))
    with (rset (rset (rset rs r0 (Ptr (c_bd C) 0)) r9 (Ptr c p)) r0 (Ptr b o)).
  eapply goes_trans; [eapply (goes_store C pc 0 8 fp r1 Regset.DT_STK_DCTX); [set_solver|done|exact Ha|done|done|exact Hst]|].
  eapply goes_trans; [eapply (goes_load C _ 0 8 r0 fp Regset.DT_STK_DCTX); [set_solver|done|exact Ha1|done|]|].
  { eapply load_slot; [apply lookup_insert_eq|exact Hs]. }
  eapply goes_trans; [eapply (goes_load C _ 0 8 r9 r0 DCTX_BUF); [set_solver|done|exact Ha2|done|]|].
  { by eapply load_slot. }
  eapply (goes_load C _ 0 8 r0 r0 DCTX_MST) with (b := c_bd C) (k := 0); [set_solver|done|exact Ha3|done|].
  by eapply load_slot.
Qed.

Lemma goes_begun (C : ctx) epid clid pc mst buf rest (m m1 : mem) fr rs :
  at_pc C pc (drop 4 (prologue_code dt_dlib_get_var epid clid) ++ rest) → begun epid clid mst buf m = Some m1 →
  mst.1 ≠ c_fb C → buf.1 ≠ c_fb C → rget rs r0 = Some (Ptr mst.1 mst.2) → rget rs r9 = Some (Ptr buf.1 buf.2) →
  goes C pc rs (<[c_fb C := fr]> m) (pc + 6) rs (<[c_fb C := fr]> m1).
Proof.
  intros Ha0 Hb Hn1 Hn2 Hr0 Hr9. cbn [prologue_code drop app] in Ha0.
  pose proof (at_next _ _ _ _ _ _ Ha0 eq_refl) as Ha1. pose proof (at_next _ _ _ _ _ _ Ha1 eq_refl) as Ha2.
  pose proof (at_next _ _ _ _ _ _ Ha2 eq_refl) as Ha3. pose proof (at_next _ _ _ _ _ _ Ha3 eq_refl) as Ha4.
  pose proof (at_next _ _ _ _ _ _ Ha4 eq_refl) as Ha5. unfold begun in Hb. destruct mst as [b o], buf as [c p].
  cbn [fst snd] in *.
  repeat match type of Hb with
  | (store ?m ?b ?o ?n ?v ≫= _) = _ =>
      let E := fresh "E" in destruct (store m b o n v) eqn:E; [|done]; cbn [mbind option_bind] in Hb;
      apply store_beside with (f := c_fb C) (fr := fr) in E; [|done]
  end.
  apply store_beside with (f := c_fb C) (fr := fr) in Hb; [|done].
  replace (pc + 6) with (pc + 1 + 1 + 1 + 1 + 1 + 1) by lia.
  eapply goes_trans; [eapply (goes_store_imm C pc 0 8 r0 DMST_FAULT); [set_solver|done|exact Ha0|done|eassumption]|].
  eapply goes_trans; [eapply (goes_store_imm C _ 0 8 r0 DMST_TSTAMP); [set_solver|done|exact Ha1|done|eassumption]|].
  eapply goes_trans; [eapply (goes_store_imm C _ 0 4 r0 DMST_EPID); [set_solver|done|exact Ha2|done|eassumption]|].
  eapply goes_trans; [eapply (goes_store_imm C _ 0 4 r0 DMST_CLID); [set_solver|done|exact Ha3|done|eassumption]|].
  eapply goes_trans; [eapply (goes_store_imm C _ 0 4 r9 0); [set_solver|done|exact Ha4|done|eassumption]|].
  eapply (goes_store_imm C _ 0 4 r9 4); [set_solver|done|exact Ha5|done|eassumption].
Qed.

(** ** The whole program *)

(** What the call of a program with the variables [s] does, if the clause means
    [x]: the program returns 0 with the variables changed as [x] says, or it ends
    after it reported the division by zero.  The rest of the memory is as [m0].
    [calls] are the results and memories that the call may end with. *)
Definition does_clause (M : machine err_id) (calls : option val → mem → Prop) (s : venv) (x : ev unit) (m0 : mem) : Prop :=
  match x s with
  | (s', Some _) => ∃ m', calls (Some (Int 0)) m' ∧ holds_vars M gsize lsize s' m' ∧ rest_as M m0 m'
  | (s', None) => ∃ w m2, calls w (delete (k_fb M) (k_err M DTRACEFLT_DIVZERO m2)) ∧
      holds_vars M gsize lsize s' m2 ∧ rest_as M m0 m2
  end.

(** ... of the program [P] with the memory [m]. *)
Definition call_result (M : machine err_id) (P : list insn) (m : mem) : venv → ev unit → mem → Prop :=
  does_clause M (calls_to (k_helper M) (k_funs M) P (k_fb M) [Ptr (k_bd M) 0] m).

Lemma does_clause_impl (M : machine err_id) (calls calls' : option val → mem → Prop) s x m0 :
  (∀ v m, calls v m → calls' v m) → does_clause M calls s x m0 → does_clause M calls' s x m0.
Proof.
  intros Hc. unfold does_clause. destruct (x s) as [s' [[]|]].
  - intros (m' & ? & ?). exists m'. auto.
  - intros (w & m2 & ? & ?). exists w, m2. auto.
Qed.

Section Call.
Context (M : machine err_id) (C : ctx) (epid clid : Z) (m : mem) (s : venv).
Hypothesis HC : c_helper C = k_helper M ∧ c_funs C = k_funs M ∧ c_fb C = k_fb M ∧ c_bd C = k_bd M ∧
  c_bg C = k_bg M ∧ c_bl C = k_bl M ∧ c_dd C = k_dd M ∧ c_err C = k_err M ∧
  c_v9 C = Some (Ptr (k_buf M).1 (k_buf M).2).
Hypothesis Hdd : m !! k_bd M = Some (k_dd M).
Hypothesis Hvars : holds_vars M gsize lsize s m.
Hypothesis Hbegun : begun epid clid (k_mst M) (k_buf M) m = Some (c_m0 C).

Lemma prologue_ms rest : at_pc C 0 (prologue_code dt_dlib_get_var epid clid ++ rest) →
  ∃ rs1 m1, goes C 0 (entry_regs (k_bd M) (k_fb M)) (<[k_fb M := frame0]> m) 10 rs1 m1 ∧ ms C 0 [] s rs1 m1.
Proof.
  intros Ha. destruct HC as (_ & _ & Ef & Ed & Eg & El & Edd & _ & E9). destruct (k_apart M) as [Hm1 Hm2].
  destruct (prologue_loads C epid clid 0 (k_mst M).1 (k_mst M).2 (k_buf M).1 (k_buf M).2 rest m) as (fr & Hl & Hs & Hg);
    [rewrite Edd; apply k_mstp|rewrite Edd; apply k_bufp|by rewrite Ed, Edd|done|].
  rewrite Ef, Ed in Hg. set (rs1 := rset _ r0 _) in Hg.
  assert (at_pc C 4 (drop 4 (prologue_code dt_dlib_get_var epid clid) ++ rest)) as Ha4.
  { change (prologue_code dt_dlib_get_var epid clid ++ rest)
      with (take 4 (prologue_code dt_dlib_get_var epid clid) ++ drop 4 (prologue_code dt_dlib_get_var epid clid) ++ rest) in Ha.
    by apply at_app in Ha as [_ Ha]. }
  pose proof (goes_begun C epid clid 4 (k_mst M) (k_buf M) rest m (c_m0 C) fr rs1 Ha4 Hbegun) as Hg2. rewrite Ef in Hg2.
  specialize (Hg2 ltac:(set_solver) ltac:(set_solver) eq_refl eq_refl).
  exists rs1, (<[k_fb M := fr]> (c_m0 C)). split; [by eapply goes_trans|].
  pose proof (k_distinct M) as Hd. apply NoDup_cons in Hd as [Hd1 [Hd2 _]%NoDup_cons].
  assert (∀ b, b ∈ [k_bd M; k_bg M; k_bl M] → c_m0 C !! b = m !! b) as Hk.
  { intros b Hb. eapply begun_keeps; [exact Hbegun|set_solver..]. }
  destruct Hvars. constructor; rewrite ?Ef, ?Ed, ?Eg, ?El; try done.
  - exists fr. rewrite lookup_insert_eq. split_and!; [done|done|by rewrite <- Ed|done].
  - rewrite lookup_insert_ne by set_solver. rewrite Hk by set_solver. done.
  - rewrite lookup_insert_ne by set_solver. rewrite Hk by set_solver. done.
  - intros b Hb _ _. by rewrite lookup_insert_ne.
Qed.

Lemma ms_holds s' rs' m' : ms C 0 [] s' rs' m' → holds_vars M gsize lsize s' m' ∧ rest_as M (c_m0 C) m'.
Proof.
  destruct HC as (_ & _ & Ef & _ & Eg & El & _). intros []. rewrite Ef, Eg, El in *. by split.
Qed.

Lemma epilogue_runs pc rs1 m1 : at_pc C pc (epilogue_code 1) → length rs1 = 11%nat →
  runs_to (c_helper C) (c_funs C) (c_P C) (c_fb C) pc rs1 m1 (Some (Int 0)) m1.
Proof.
  intros Ha Hl. destruct (at_lab_insn _ _ _ _ _ _ Ha ltac:(done) eq_refl) as [_ Ha1].
  apply (goes_alu_imm C pc 1 MOV r0 0 0 _ rs1 (rset rs1 r0 (Int 0)) m1 Ha); [done|].
  eapply runs_exit; [by rewrite (at_plain _ _ _ _ _ _ Ha1)|by rewrite rget_rset_eq|done].
Qed.

Lemma holds_vars_delete s' m' : holds_vars M gsize lsize s' m' → holds_vars M gsize lsize s' (delete (k_fb M) m').
Proof.
  pose proof (k_distinct M) as Hd. apply NoDup_cons in Hd as [Hd _].
  intros []. constructor; try done; by rewrite lookup_delete_ne by set_solver.
Qed.

Lemma rest_as_delete m0 m' : rest_as M m0 m' → rest_as M m0 (delete (k_fb M) m').
Proof. intros Hr b Hb ? ?. rewrite lookup_delete_ne by done. by apply Hr. Qed.

Lemma program_runs body x : body_does err_id gsize lsize body x →
  at_pc C 0 (clause_nodes dt_dlib_get_var epid clid body) → call_result M (c_P C) m s x (c_m0 C).
Proof.
  intros Hbody Ha. unfold clause_nodes in Ha.
  destruct (prologue_ms _ Ha) as (rs1 & m1 & Hg1 & Hm1). apply at_app in Ha as [_ Ha]. change (0 + size _) with 10 in Ha.
  destruct (at_app _ _ _ _ Ha) as [Ha1 Ha2]. destruct (at_lab_insn _ _ _ _ _ _ Ha2 ltac:(done) eq_refl) as [Hlab Ha3].
  specialize (Hbody C 10 Ha1 Hlab s rs1 m1 Hm1). unfold call_result, does_clause.
  pose proof (ms_holds) as Hh. destruct HC as (Eh & Efn & Ef & Ed & Eg & El & _ & Ee & _).
  destruct (x s) as [s' [[]|]].
  - destruct Hbody as (rs2 & m2 & Hg2 & Hm2). exists (delete (k_fb M) m2).
    pose proof (epilogue_runs _ rs2 m2 Ha2 (ms_len _ _ _ _ _ _ Hm2)) as He.
    destruct (Hh _ _ _ Hm2) as [Hv Hr]. split_and!; [|by apply holds_vars_delete|by apply rest_as_delete].
    exists m2. split; [|done]. pose proof (Hg1 _ _ (Hg2 _ _ He)) as Hrun. by rewrite Eh, Efn, Ef in Hrun.
  - destruct Hbody as (rs2 & m2 & w' & Hm2 & Hr). destruct (Hh _ _ _ Hm2) as [Hv Hrest].
    exists w', m2. split_and!; [|done|done]. pose proof (Hg1 _ _ Hr) as Hrun. rewrite Eh, Efn, Ef, Ee in Hrun.
    by eexists.
Qed.

End Call.

(** An array with the code of a clause is a program that does what the clause means. *)
Lemma clause_program (M : machine err_id) epid clid body x labels buf P m m1 s :
  body_does err_id gsize lsize body x → code_at labels buf 0 (clause_nodes dt_dlib_get_var epid clid body) →
  Z.of_nat (length buf) = size (clause_nodes dt_dlib_get_var epid clid body) → Z.of_nat (length buf) < 2 ^ 15 →
  decode_prog (k_sym M) buf = Some P →
  m !! k_bd M = Some (k_dd M) → holds_vars M gsize lsize s m → begun epid clid (k_mst M) (k_buf M) m = Some m1 →
  (∀ m2, rest_as M m1 m2 → k_err_needs M m2) → call_result M P m s x m1.
Proof.
  intros Hbody Hcode Hbl Hlen HP Hdd Hv Hb Hneeds.
  assert (m1 !! k_bd M = Some (k_dd M)) as Hdd1.
  { destruct (k_apart M). rewrite (begun_keeps _ _ _ _ _ _ Hb); [done|set_solver..]. }
  set (C := mk_ctx err_id gsize lsize (k_helper M) (k_funs M) (k_sym M) labels buf P (k_fb M) (k_bd M) (k_bg M)
              (k_bl M) m1 (Some (Ptr (k_buf M).1 (k_buf M).2)) (k_dd M) (k_err M) (k_err_code M) HP Hlen
              (k_distinct M) Hdd1 (k_gvars M) (k_lvars M) (k_err_fun M)
              (λ fault m2 x5 Hm2, k_err_run M fault m2 x5 (Hneeds m2 Hm2)) (k_err_frame M)).
  apply (program_runs M C epid clid m s ltac:(done) Hdd Hv Hb body); [done|].
  split_and!; [done|cbn [c_buf C]; lia|done].
Qed.

(** The two stages and the call together. *)
Lemma clause_compiles pred acts active spilled tab :
  err_known → ok_clause pred acts = true → length active = 1%nat → length spilled = 1%nat →
  ∃ st labels buf,
    compile active spilled ids0 tab pred acts = Some (Done (tt, st)) ∧
    as_code (pcb_ir st) = Some (labels, buf) ∧
    ∀ (M : machine err_id) m m1 s, m !! k_bd M = Some (k_dd M) → holds_vars M gsize lsize s m →
      begun (-1) (-1) (k_mst M) (k_buf M) m = Some m1 → (∀ m2, rest_as M m1 m2 → k_err_needs M m2) →
      ∃ P, decode_prog (k_sym M) buf = Some P ∧ call_result M P m s (clause pred acts) m1.
Proof.
  intros He Hok Ha Hs. destruct (compile_ok pred acts active spilled tab He Hok Ha Hs) as (st & hi & body & Hc & Hcc & Hl & Hlen & Hlab & _).
  destruct (clause_sizes _ _ _ _ (-1) (-1) Hcc Hok) as (Hsz & Hb & Hhi).
  destruct (assembles (pcb_ir st) hi) as (labels & buf & Has & Hbl & _ & Hcode & HP); rewrite ?Hl;
    [apply Hcc|eapply clause_decodes, Hcc|by rewrite <- Hl|done|lia|lia|]. rewrite Hl in Hcode, Hbl.
  exists st, labels, buf. split_and!; [done|done|]. intros M m m1 s Hdd Hv Hm Hneeds.
  destruct (decode_prog_all (k_sym M) buf HP) as [P HP'].
  exists P. split; [done|]. eapply clause_program; [apply Hcc|done|done|lia|done..].
Qed.

(** C4: a clause with a predicate and expression statements that the generator
    handles and has the registers for compiles and assembles, and a call of
    the program with a DTrace context evaluates the predicate and then, if it is
    not zero, the statements: the global and local variables are those that the
    meaning of the D expressions gives, all else in memory but the machine state
    and the buffer is untouched, and the call returns 0; a division of signed
    numbers by zero ends the program by a report through dt_probe_error. *)
Theorem dt_cg_clause_correct pred acts active spilled tab :
  err_known → ok_clause pred acts = true → length active = 1%nat → length spilled = 1%nat →
  ∃ st labels buf,
    compile active spilled ids0 tab pred acts = Some (Done (tt, st)) ∧
    as_code (pcb_ir st) = Some (labels, buf) ∧
    ∀ (M : machine err_id) m m1 s, m !! k_bd M = Some (k_dd M) → holds_vars M gsize lsize s m →
      begun (-1) (-1) (k_mst M) (k_buf M) m = Some m1 → (∀ m2, rest_as M m1 m2 → k_err_needs M m2) →
      ∃ P, decode_prog (k_sym M) buf = Some P ∧ call_result M P m s (clause pred acts) m1.
Proof. apply clause_compiles. Qed.

End Program.

End CgProgram.
