(* ===== verification/CgExample.v ===== *)
(** * A clause

    A small world in which the code generator runs: five integer types, four
    variables, a machine with a [dt_probe_error] that records the fault.  The
    clause [/x < 10/ { x = x + 1; this->t = x > 3 ? x * 2 : -x; y = x / z; }]
    is compiled and run, once so that it ends and once so that it divides by
    zero. *)
From S2P Require Import Prelude Bpf BpfWords Bitmap Regset Strtab Ident DtAs Node Cg CgSem CgRegs CgRun CgWp CgFault CgCorrect CgClause CgProgram.
#[local] Open Scope Z_scope.
Import Bpf BpfWords Strtab Ident DtAs Node Cg CgSem CgRegs CgRun CgWp CgFault CgCorrect CgClause CgProgram.

Module CgExample.

(** ** Types: long, unsigned long, int, unsigned int, unsigned char *)

Definition int_size (t : Z) : Z :=
  match t with 1 | 2 => 8 | 3 | 4 => 4 | 5 => 1 | _ => 0 end.
Definition int_format (t : Z) : Z := match t with 1 | 3 => CTF_INT_SIGNED | _ => 0 end.

#[export] Instance ctf : Ctf := {|
  ctf_type_resolve := λ _ t, t;
  ctf_type_kind := λ _ t, if (1 <=? t) && (t <=? 5) then CTF_K_INTEGER else CTF_K_STRUCT;
  ctf_type_size := λ _ t, int_size t;
  ctf_type_encoding := λ _ t,
    if (1 <=? t) && (t <=? 5) then Some (mk_encoding (int_format t) 0 (8 * int_size t)) else None;
  ctf_type_reference := λ _ t, t;
  ctf_array_info := λ _ _, None
|}.

Definition types : hdl_types :=
  mk_types (mk_tid 1 6) (mk_tid 1 7) (mk_tid 1 3)
    [(mk_tid 1 3, 2 ^ 31 - 1); (mk_tid 1 4, 2 ^ 32 - 1); (mk_tid 1 1, 2 ^ 63 - 1); (mk_tid 1 2, 2 ^ 64 - 1)].

Definition attr : dtrace_attribute := mk_attr 5 5 5.

(** What a node of a type has. *)
Definition of_type (t : Z) : dt_common := type_assign types (mk_common 0 0 0 attr) 1 t.
Definition lit (t v : Z) : dt_node := Const (of_type t) v.
Definition var (t idp : Z) : dt_node := Var (of_type t) idp.
Definition op2 (t : Z) (op : tok) (l r : dt_node) : dt_node := Op2 (of_type t) op l r.

(** ** Identifiers *)

Definition ident (kind flags id offset size : Z) : dt_ident :=
  mk_ident None kind flags id attr 0 0 0 0 offset size 0 0.

Definition x : Z := 1.
Definition y : Z := 2.
Definition z : Z := 3.
Definition t : Z := 4.
Definition probe_error : Z := 9.

Definition idents : idheap :=
  list_to_map [(x, ident DT_IDENT_SCALAR 0 0x500 0 8); (y, ident DT_IDENT_SCALAR 0 0x501 8 8); (z, ident DT_IDENT_SCALAR 0 0x502 16 8);
               (t, ident DT_IDENT_SCALAR DT_IDFLG_LOCAL 0x503 0 8); (probe_error, ident DT_IDENT_SYMBOL 0x1000 0xffffffff 0 0)].

Definition get_func (name : string) : Z := if decide (name = "dt_probe_error"%string) then probe_error else 0.

(** ** The clause *)

Definition pred : dt_node := op2 3 DT_TOK_LT (var 1 x) (lit 1 10).

Definition acts : list dt_node :=
  [op2 1 DT_TOK_ASGN (var 1 x) (op2 1 DT_TOK_ADD (var 1 x) (lit 1 1));
   op2 1 DT_TOK_ASGN (var 1 t)
     (Op3 (of_type 1) (op2 3 DT_TOK_GT (var 1 x) (lit 1 3)) (op2 1 DT_TOK_MUL (var 1 x) (lit 1 2))
        (Op1 (of_type 1) DT_TOK_INEG (var 1 x)));
   op2 1 DT_TOK_ASGN (var 1 y) (op2 1 DT_TOK_DIV (var 1 x) (var 1 z))].

(** ** The machine *)

(** The DTrace context: machine state, buffer and variables are in blocks 4, 5, 2 and 3. *)
Definition context : list memval :=
  frags (Ptr 6 0) ++ frags (Ptr 6 8) ++ frags (Ptr 4 0) ++ frags (Ptr 5 0) ++ frags (Ptr 6 16) ++
  frags (Ptr 6 24) ++ frags (Ptr 6 32) ++ frags (Ptr 2 0) ++ frags (Ptr 3 0).

(** [dt_probe_error] records the fault in the machine state. *)
Definition probe_error_code : list insn :=
  [Ldx 8 r1 r1 DCTX_MST; Stx 8 r1 DMST_FAULT r3; Alu MOV r0 (I 0); Exit].

Definition record_fault (fault : Z) (m : mem) : mem :=
  default m (store (delete 9 m) 4 DMST_FAULT 8 (Int fault)).

Definition needs (m : mem) : Prop := m !! 1 = Some context ∧ ∃ l, m !! 4 = Some l ∧ length l = 48%nat.

Lemma store_fault m l fault : m !! 4 = Some l → length l = 48%nat →
  store m 4 (0 + DMST_FAULT) 8 (Int fault) =
    Some (<[4 := overwrite l (0 + DMST_FAULT) (Byte <$> Z_to_little_endian 8 8 fault)]> m).
Proof.
  intros Hl H48. unfold store, storen. cbn [encode mbind option_bind]. rewrite Hl. cbn [mbind option_bind].
  rewrite decide_True; [done|]. rewrite length_fmap, length_Z_to_little_endian, H48 by done. done.
Qed.

Lemma probe_error_runs helper funs fault (m : mem) x5 : needs m → ∃ w m',
  runs_to helper funs probe_error_code (10 - 1) 0
    [None; Some (Ptr 1 0); Some (Int (2 ^ 64 - 1)); Some (Int fault); Some (Int 0); x5;
     None; None; None; None; Some (Ptr (10 - 1) 512)] (<[10 - 1 := frame0]> m) w m' ∧
  delete (10 - 1) m' = record_fault fault m.
Proof.
  intros (Hc & l & Hl & H48). set (m1 := <[10 - 1 := frame0]> m).
  assert (m1 !! 1 = Some context ∧ m1 !! 4 = Some l) as [Hc1 Hl1] by (unfold m1; by rewrite !lookup_insert_ne).
  eexists _, (<[4 := overwrite l (0 + DMST_FAULT) (Byte <$> Z_to_little_endian 8 8 fault)]> m1). split.
  - eapply runs_ldx with (b := 1) (o := 16); [done|done|by eapply load_slot|].
    eapply runs_stx with (b := 4) (o := 0 + DMST_FAULT); [done|done|done|by apply store_fault|].
    eapply runs_alu; [done|done|]. by eapply runs_exit.
  - unfold m1, record_fault. rewrite (store_fault (delete 9 m) l) by (by rewrite ?lookup_delete_ne).
    cbn [default from_option id]. rewrite delete_insert_ne by done. by rewrite delete_insert_eq.
Qed.

Lemma record_fault_frame fault m : record_fault fault m !! 10 = m !! 10.
Proof.
  unfold record_fault. destruct (store _ _ _ _ _) as [m'|] eqn:E; [|done]. cbn [default from_option].
  rewrite (store_keeps _ _ _ _ _ _ E) by done. by rewrite lookup_delete_ne.
Qed.

Definition no_helper (h : Z) (args : list (option val)) (m : mem) : option (val * mem) := None.
Definition functions (name : string) : option (list insn) :=
  if decide (name = "dt_probe_error"%string) then Some probe_error_code else None.

Definition world : machine (-1) :=
  mk_machine (-1) no_helper functions (λ _, "dt_probe_error"%string) 10 1 2 3 (4, 0) (5, 0) context record_fault
    needs probe_error_code ltac:(by apply (bool_decide_unpack _)) ltac:(by apply (bool_decide_unpack _)) ltac:(by repeat split) ltac:(by repeat split)
    ltac:(by repeat split) ltac:(by repeat split) eq_refl (probe_error_runs no_helper functions) record_fault_frame.

(** The memory when the clause is called: the values of x, y, z and t. *)
Definition word (v : Z) : list Z := Z_to_little_endian 8 8 v.
Definition vars (vx vy vz vt : Z) : venv := mk_venv (word vx ++ word vy ++ word vz) (word vt).

Definition memory (s : venv) : mem :=
  list_to_map [(1, context); (2, Byte <$> gvars s); (3, Byte <$> lvars s); (4, replicate 48 (Byte 0));
               (5, replicate 16 (Byte 0))].

Definition compiled : comp (unit * cg_state) :=
  dt_cg types false attr get_func get_func get_func 256 (λ _ _, 0) (λ _, 0) (λ _, None) [12345] [678] idents
    (mk_strtab [] 0 [] (0%nat, 0%nat) 0 0 0 0) (Some pred) acts.

Definition started (s : venv) : mem := default ∅ (begun (-1) (-1) (4, 0) (5, 0) (memory s)).

Lemma started_needs s m : rest_as world (started s) m → needs m.
Proof.
  intros Hr. split; [by rewrite (Hr 1)|]. eexists. by rewrite (Hr 4).
Qed.

Lemma memory_vars err_id (M : machine err_id) vx vy vz vt : k_bg M = 2 → k_bl M = 3 →
  holds_vars M 24 8 (vars vx vy vz vt) (memory (vars vx vy vz vt)).
Proof.
  intros Hg Hl.
  assert (∀ v, Forall byte (word v) ∧ length (word v) = 8%nat) as Hw.
  { intros v. split; [by apply (Z_to_little_endian_bound 8 8 v)|].
    apply Nat2Z.inj. unfold word. by rewrite length_Z_to_little_endian. }
  constructor; rewrite ?Hg, ?Hl; try done; cbn [vars gvars lvars].
  - rewrite !Forall_app. split_and!; apply Hw.
  - apply Hw.
Qed.

Lemma clause_fits : clause_ok types false attr idents 24 8 (Some pred) acts = true.
Proof. vm_compute. reflexivity. Qed.

Lemma error_known : err_known get_func idents (-1).
Proof. eexists. split; [vm_compute; reflexivity|reflexivity]. Qed.

Lemma dt_cg_clause_correct_witness : ∃ st labels buf P m',
  compiled = Some (Done (tt, st)) ∧ as_code (pcb_ir st) = Some (labels, buf) ∧
  decode_prog (k_sym world) buf = Some P ∧
  calls_to no_helper functions P 10 [Ptr 1 0] (memory (vars 5 0 2 0)) (Some (Int 0)) m' ∧
  m' !! 2 = Some (Byte <$> word 6 ++ word 3 ++ word 2) ∧ m' !! 3 = Some (Byte <$> word 12).
Proof.
  destruct (dt_cg_clause_correct types false attr get_func get_func get_func 256 (λ _ _, 0) (λ _, 0) (λ _, None) idents
              (-1) 24 8 (Some pred) acts [12345] [678] (mk_strtab [] 0 [] (0%nat, 0%nat) 0 0 0 0) error_known clause_fits
              eq_refl eq_refl) as (st & labels & buf & Hc & Ha & Hrun).
  exists st, labels, buf.
  destruct (Hrun world (memory (vars 5 0 2 0)) (started (vars 5 0 2 0)) (vars 5 0 2 0)) as (P & HP & Hr);
    [reflexivity|by apply memory_vars|vm_compute; reflexivity|apply started_needs|].
  unfold call_result, does_clause in Hr.
  assert (run_clause types false attr idents (Some pred) acts (vars 5 0 2 0) = (vars 6 3 2 12, Some tt)) as E
    by (vm_compute; reflexivity).
  rewrite E in Hr. destruct Hr as (m' & Hcall & Hv & _). exists P, m'.
  split_and!; [exact Hc|exact Ha|exact HP|exact Hcall|apply Hv|apply Hv].
Defined.

End CgExample.
