(* ===== verification/CgPressure.v ===== *)
(** * Code that needs more registers than there are

    When all registers hold a value the register set stores one of them on the
    stack, and loads it again when its register is freed.  In the code of a
    comparison and in that of the conditional operator a branch goes past that
    load: these are the expressions that [fits] leaves out.  Two programs show
    that their results are wrong. *)
From S2P Require Import Prelude Bpf BpfWords Bitmap Regset Strtab Ident DtAs Node Cg CgSem CgRegs CgRun CgWp CgFault CgCorrect CgClause CgProgram CgExample.
#[local] Open Scope Z_scope.
Import Bpf BpfWords Strtab Ident DtAs Node Cg CgSem CgRegs CgRun CgWp CgFault CgCorrect CgClause CgProgram CgExample.

Module CgPressure.

(** [x + (x + ... (x + e))], with [k] additions. *)
Definition nested (k : nat) (e : dt_node) : dt_node := Nat.iter k (op2 1 DT_TOK_ADD (var 1 x)) e.

(** The clause [{ y = e; }]. *)
Definition assign_y (e : dt_node) : list dt_node := [op2 1 DT_TOK_ASGN (var 1 y) e].

Definition program (acts : list dt_node) : option (list insn) :=
  match dt_cg types false attr get_func get_func get_func 256 (λ _ _, 0) (λ _, 0) (λ _, None) [12345] [678] idents
          (mk_strtab [] 0 [] (0%nat, 0%nat) 0 0 0 0) None acts with
  | Some (Done (_, st)) => '(_, buf) ← as_code (pcb_ir st); decode_prog (k_sym world) buf
  | _ => None
  end.

(** The variable [y], as the machine leaves it and as the clause says. *)
Definition y_in (m : mem) : option val := load m 2 8 8.
Definition y_run (fuel : nat) (acts : list dt_node) (s : venv) : option val :=
  P ← program acts;
  '(_, m) ← run no_helper functions fuel P 10 0 (entry_regs 1 10) (<[10 := frame0]> (memory s));
  y_in m.
Definition y_meant (acts : list dt_node) (s : venv) : Z :=
  read_le (gvars (fst (run_clause types false attr idents None acts s))) 8 8.

Lemma y_run_calls fuel acts s v : y_run fuel acts s = Some v →
  ∃ P w m', program acts = Some P ∧ calls_to no_helper functions P 10 [Ptr 1 0] (memory s) w m' ∧ y_in m' = Some v.
Proof.
  unfold y_run. intros E. destruct (program acts) as [P|]; [|done]. cbn [mbind option_bind] in E.
  destruct (run _ _ _ _ _ _ _ _) as [[w m]|] eqn:Er; [|done]. cbn [mbind option_bind] in E.
  exists P, w, (delete 10 m). split_and!; [done|exists m; split; [by exists fuel|done]|].
  unfold y_in, load, loadn in *. by rewrite lookup_delete_ne.
Qed.

(** The comparison [x < z] with eight values held: for x = 5 and z = 7 the sum of
    eight times x and 1 is 41; the program computes 43. *)
Definition compare_pressed : list dt_node := assign_y (nested 8 (op2 3 DT_TOK_LT (var 1 x) (var 1 z))).

(** [x ? 100 : 1000] with nine values held: for x = 5 the sum is 145; the program
    computes 50. *)
Definition ternary_pressed : list dt_node :=
  assign_y (nested 9 (Op3 (of_type 1) (var 1 x) (lit 1 100) (lit 1 1000))).

(** C35: Under register pressure the code of a comparison and of the conditional
    operator is wrong: expressions that the code generator accepts and whose
    subexpressions are all covered get a program that leaves a value other than
    that of the expression. *)
Theorem dt_cg_spilled_branches_wrong :
  (supported types false attr idents 24 8 <$> compare_pressed ++ ternary_pressed) = [true; true] ∧
  (∃ P w m', program compare_pressed = Some P ∧
     calls_to no_helper functions P 10 [Ptr 1 0] (memory (vars 5 0 7 0)) w m' ∧
     y_in m' = Some (Int 43) ∧ y_meant compare_pressed (vars 5 0 7 0) = 41) ∧
  (∃ P w m', program ternary_pressed = Some P ∧
     calls_to no_helper functions P 10 [Ptr 1 0] (memory (vars 5 0 7 0)) w m' ∧
     y_in m' = Some (Int 50) ∧ y_meant ternary_pressed (vars 5 0 7 0) = 145).
Proof.
  split; [vm_compute; reflexivity|]. split.
  - destruct (y_run_calls 200 compare_pressed (vars 5 0 7 0) (Int 43)) as (P & w & m' & HP & Hc & Hy);
      [vm_compute; reflexivity|].
    exists P, w, m'. repeat (split; [assumption|]). vm_compute. reflexivity.
  - destruct (y_run_calls 200 ternary_pressed (vars 5 0 7 0) (Int 50)) as (P & w & m' & HP & Hc & Hy);
      [vm_compute; reflexivity|].
    exists P, w, m'. repeat (split; [assumption|]). vm_compute. reflexivity.
Qed.

End CgPressure.
