(* ===== verification/Fold.v ===== *)
(** * Constant folding agrees with the generated code

    Operators on constants are evaluated while the parse tree is built
    (dt_node_op1, dt_node_op2 and dt_node_op3 of dt_parser.c).  The result is
    the value that the code generated for the operator would compute, with
    exceptions that are shown to be ones: a shift of a negative number to the
    right, a remainder with a negative divisor, and the negation of an unsigned
    number shorter than 64 bits. *)
From S2P Require Import Prelude Ident Node Cg CgSem CgCorrect CgExample.
#[local] Open Scope Z_scope.
Import Ident Node Cg CgSem CgCorrect.

Module Fold.

Section Fold.
Context `{Ctf} (hdl : hdl_types) (eattr : bool) (pcb_amin defattr : dtrace_attribute).
Context (yy : yyint) (size_t : dt_tid) (ids : idheap).
#[local] Abbreviation value := (eval hdl eattr pcb_amin ids).
#[local] Abbreviation op2 := (dt_node_op2 hdl eattr pcb_amin defattr yy).
#[local] Abbreviation op1 := (dt_node_op1 hdl defattr size_t).

(** A constant of an arithmetic type. *)
Definition arith_const (e : dt_node) : Prop :=
  ∃ c v, e = Const c v ∧ urange 64 v ∧ dt_node_is_arith e = mret true ∧ dt_node_is_string hdl e = false.

(** Where folding and the generated code differ. *)
Definition exception2 (op : tok) (d lp rp : dt_node) : bool :=
  match op, const_value lp, const_value rp with
  | DT_TOK_RSH, Some l, _ => is_signed d && (s64 l <? 0)
  | DT_TOK_MOD, _, Some r => is_signed d && (s64 r <? 0)
  | _, _, _ => false
  end.

(** ** The type of a promoted node *)

Lemma has_bit0 f : has f DT_NF_SIGNED = Z.testbit f 0.
Proof.
  unfold has, DT_NF_SIGNED. change 1 with (Z.ones 1) at 1. rewrite Z.land_ones by lia. rewrite Z.bit0_eqb.
  change (2 ^ 1) with 2. pose proof (Z.mod_pos_bound f 2). destruct (Z.eqb_spec (f mod 2) 0), (Z.eqb_spec (f mod 2) 1); lia.
Qed.

(** Whether a type is signed does not depend on the flags the node had. *)
Lemma type_flags_signed fp t fl :
  has (type_flags hdl fp t fl) DT_NF_SIGNED =
  match (if ctf_type_kind fp (ctf_type_resolve fp t) =? CTF_K_INTEGER
         then ctf_type_encoding fp (ctf_type_resolve fp t) else None) with
  | Some e => has (cte_format e) CTF_INT_SIGNED
  | None => false
  end.
Proof.
  rewrite has_bit0. unfold type_flags.
  repeat case_match; rewrite ?Z.lor_spec, ?Z.land_spec, ?Z.lnot_spec, ?orb_false_r by lia;
    cbn; rewrite ?andb_false_r; done.
Qed.

Lemma promote_inv lp rp c v d : dt_node_promote hdl eattr pcb_amin lp rp (Const c v) = mret d →
  ∃ t a, dt_type_promote hdl lp rp = mret t ∧
    d = Const (mk_common (tid_ctfp t) (tid_type t) (type_flags hdl (tid_ctfp t) (tid_type t) (dn_flags c)) a) v ∧
    ∀ c2 v2, ∃ d2, dt_node_promote hdl eattr pcb_amin lp rp (Const c2 v2) = mret d2 ∧ is_signed d2 = is_signed d.
Proof.
  intros E. unfold dt_node_promote in *. destruct (dt_type_promote hdl lp rp) as [[t|]|]; [|done|done].
  cbn [mbind comp_bind] in *. unfold dt_node_attr_assign, attr_assign in *. case_match; [done|].
  cbn in E. simplify_eq. eexists _, _. split; [done|]. split; [done|]. intros c2 v2. eexists. split; [done|].
  unfold is_signed, has_flag. cbn. by rewrite !type_flags_signed.
Qed.

Lemma negate_inv c v d : negate_const hdl c v = mret d → ∃ v', d = Const c v' ∧
  (is_signed d = true ∨ dt_node_type_size hdl d = mret 8 → v' = u64 (- v)).
Proof.
  unfold negate_const. destruct (has _ _) eqn:Es; [intros; simplify_eq; eauto|].
  destruct (dt_node_type_size hdl _) as [[size|]|] eqn:Esz; cbn [mbind comp_bind]; [|done|done].
  unfold assert. destruct (_ && _); [|done]. cbn [mbind comp_bind mret comp_ret]. intros; simplify_eq. eexists.
  split; [done|]. intros [Hs|Hs]; [unfold is_signed, has_flag in Hs; cbn [common] in Hs; congruence|].
  change (dt_node_type_size hdl (Const c (u64 (- v))) = mret 8) in Hs. rewrite Esz in Hs. injection Hs as ->.
  change (Z.shiftr _ _) with (Z.ones 64). rewrite Z.land_ones by lia. apply wrap_wrap.
Qed.

Lemma int_node c : dt_node_int hdl defattr yy 0 = mret c → ∃ c' v, c = Const c' v.
Proof.
  unfold dt_node_int. destruct (int_type _ _ _ _ _); [|done].
  destruct (_ =? 45); [intros (v & -> & _)%negate_inv; eauto|]. intros; simplify_eq; eauto.
Qed.

(** The comparison of the generated code is signed when the promoted type is. *)
Lemma compare_signed_promoted lp rp c v d : arith_const lp → arith_const rp →
  dt_node_promote hdl eattr pcb_amin lp rp (Const c v) = mret d →
  answer false (dt_cg_compare_signed hdl eattr pcb_amin lp rp) = is_signed d.
Proof.
  intros (? & ? & _ & _ & Hl & Hls) (? & ? & _ & _ & Hr & Hrs) E. unfold dt_cg_compare_signed.
  rewrite Hls, Hrs, Hl. cbn [orb mbind comp_bind mret comp_ret]. rewrite Hr. cbn [mbind comp_bind mret comp_ret andb negb].
  destruct (promote_inv _ _ _ _ _ E) as (t & a & _ & _ & Hs).
  destruct (Hs (mk_common 0 0 0 (mk_attr 0 0 0)) 0) as (d2 & E2 & Hd2). unfold mret, comp_ret in E2. rewrite E2. done.
Qed.

(** ** Operators with two operands *)

(** The folds whose result has the promoted type, the type [int], and a
    comparison. *)
Lemma fold_promoted_inv lp rp c0 v0 w d : fold_promoted hdl eattr pcb_amin lp rp (Const c0 v0) w = mret d →
  ∃ c, d = Const c w.
Proof. intros (t & a & _ & -> & _)%promote_inv. eauto. Qed.

Lemma fold_int_inv c0 v0 w d : fold_int hdl (Const c0 v0) w = mret d → ∃ c, d = Const c w.
Proof. unfold fold_int. intros; simplify_eq. eauto. Qed.

Lemma fold_compare_inv cmp lp rp c0 v0 l r d : arith_const lp → arith_const rp →
  fold_compare hdl eattr pcb_amin cmp lp rp (Const c0 v0) l r = mret d →
  let sgn := answer false (dt_cg_compare_signed hdl eattr pcb_amin lp rp) in
  ∃ c, d = Const c (of_bool (if sgn then cmp (s64 l) (s64 r) else cmp l r)).
Proof.
  intros Hl Hr E. unfold fold_compare in E.
  destruct (dt_node_promote _ _ _ _ _ _) as [[d1|]|] eqn:E1; [|done|done]. cbn [mbind comp_bind] in E.
  rewrite (compare_signed_promoted _ _ _ _ _ Hl Hr E1). apply promote_inv in E1 as (t & a & _ & -> & _).
  apply fold_int_inv in E as [c ->]. eauto.
Qed.

Lemma fold_shift_inv f lp rp c0 v0 l r d : fold_shift eattr pcb_amin f lp rp (Const c0 v0) l r = mret d →
  r < 64 ∧ ∃ c, d = Const c (f l r) ∧ is_signed d = is_signed lp.
Proof.
  unfold fold_shift, assert. destruct (Z.ltb_spec r 64); [|done]. cbn [mbind comp_bind mret comp_ret].
  unfold dt_node_type_propagate, assert. destruct (has_flag lp DT_NF_COOKED); [|done].
  cbn [mbind comp_bind mret comp_ret set_value set_common]. unfold dt_node_attr_assign, attr_assign.
  case_match; [done|]. cbn. intros; simplify_eq. split; [done|]. eexists. split; [done|].
  unfold is_signed, has_flag. cbn. by rewrite !has_bit0, Z.land_spec, Z.lnot_spec, andb_true_r by done.
Qed.

Lemma fold_div_inv f g lp rp c0 v0 l r d : fold_div hdl eattr pcb_amin f g lp rp (Const c0 v0) l r = mret d →
  r ≠ 0 ∧ ∃ c, d = Const c (if has (dn_flags c) DT_NF_SIGNED then u64 (f (s64 l) (s64 r)) else g l r).
Proof.
  unfold fold_div. destruct (dt_node_promote _ _ _ _ _ _) as [[d1|]|] eqn:E1; [|done|done].
  cbn [mbind comp_bind]. apply promote_inv in E1 as (t & a & _ & -> & _).
  unfold assert. destruct (Z.eqb_spec r 0); [done|]. cbn [negb mbind comp_bind mret comp_ret].
  destruct (is_signed _) eqn:Es; [case_match; [|done]|]; cbn; intros; simplify_eq; (split; [done|]);
    eexists; unfold is_signed, has_flag in Es; cbn [common] in Es; cbn; rewrite Es; done.
Qed.

(** An operator on two values. *)
Ltac op2_value Vl Vr :=
  eexists _, _; split; [reflexivity|]; cbn [eval]; unfold mbind, ev_bind; rewrite Vl; cbn beta iota; rewrite ?Vr.

Lemma s64_nonneg z : urange 64 z → 0 <= s64 z → s64 z = z.
Proof. unfold urange, swrap. change (2 ^ (64 - 1)) with (2 ^ 63). lia. Qed.

Lemma s64_eq_zero z : urange 64 z → s64 z = 0 → z = 0.
Proof. intros Hz E. rewrite <- (wrap_id 64 z Hz), <- wrap_swrap, E by lia. done. Qed.

Lemma fold_op2_value op lp rp l r c0 v0 m d s : arith_const lp → arith_const rp →
  const_value lp = Some l → const_value rp = Some r →
  fold_op2 hdl eattr pcb_amin op lp rp l r (Const c0 v0) = Some m → m = mret d →
  exception2 op d lp rp = false →
  ∃ c v, d = Const c v ∧ value (Op2 c op lp rp) s = (s, Some v).
Proof.
  intros Hl Hr El Er E -> Hex.
  assert (value lp s = (s, Some l) ∧ value rp s = (s, Some r) ∧ urange 64 l ∧ urange 64 r) as (Vl & Vr & Ul & Ur).
  { destruct Hl as (? & ? & -> & ? & _), Hr as (? & ? & -> & ? & _). cbn in El, Er. by simplify_eq. }
  unfold exception2 in Hex. rewrite El, Er in Hex.
  destruct op; cbn [fold_op2] in E; try done; apply (inj Some) in E;
    first [apply fold_int_inv in E as [c ->] | apply fold_promoted_inv in E as [c ->]
          | apply (fold_compare_inv _ _ _ _ _ _ _ _ Hl Hr) in E as [c ->]
          | apply fold_shift_inv in E as (Hlt & c & -> & Hs) | apply fold_div_inv in E as (Hnz & c & ->)].
  1: op2_value Vl Vr. destruct (l =? 0); [|done]. by rewrite Vr.
  1: by op2_value Vl Vr.
  1: op2_value Vl Vr. destruct (l =? 0); [done|]. by rewrite Vr.
  all: try solve [op2_value Vl Vr; cbn; unfold mret, ev_ret; repeat f_equal; rewrite ?Z.gtb_ltb, ?Z.geb_leb; by case_match].
  - op2_value Vl Vr. cbn. rewrite Z.mod_small by (unfold urange in Ur; lia). done.
  - op2_value Vl Vr. cbn. rewrite Z.mod_small by (unfold urange in Ur; lia). unfold is_signed, has_flag in *.
    cbn [common] in *. destruct (has _ _); [|done]. apply Z.ltb_ge in Hex.
    rewrite (s64_nonneg l) by done. by rewrite wrap_id by (apply shiftr_range; [apply Ur|done]).
  - op2_value Vl Vr. cbn [mret ev_ret arith lift_arith]. apply Z.eqb_neq in Hnz. rewrite Hnz.
    unfold is_signed, has_flag. cbn [common]. by destruct (has _ _).
  - op2_value Vl Vr. cbn [mret ev_ret arith lift_arith]. rewrite (proj2 (Z.eqb_neq r 0) Hnz).
    unfold is_signed, has_flag in *. cbn [common] in *. destruct (has _ _); [|done].
    apply Z.ltb_ge in Hex. cbn [lift_arith]. rewrite Z.sgn_pos, Z.mul_1_l; [done|].
    destruct (Z.eq_dec (s64 r) 0) as [E|]; [by apply s64_eq_zero in E|lia].
Qed.


(** ** Casts *)

(** The name of a type other than that of a parameter of any type. *)
Definition cast_type (lp : dt_node) : Prop :=
  ∃ c, lp = TypeName c ∧ (dn_ctfp c =? 0) && (dn_type c =? CTF_ERR) = false.

(** An integer is a scalar, also without being an l-value. *)
Lemma integer_scalar c fl e : dt_node_is_integer (TypeName c) = mret true →
  common e = mk_common (dn_ctfp c) (dn_type c) (Z.land (dn_flags c) (Z.lnot DT_NF_LVALUE)) fl →
  dt_node_is_scalar e = mret true.
Proof.
  unfold dt_node_is_integer, dt_node_is_scalar, assert, kind_of, is_void_encoding, encoding_of, has_flag. intros Hi ->.
  cbn [common dn_ctfp dn_type dn_flags] in *. unfold has in *. rewrite <- Z.land_assoc.
  change (Z.land (Z.lnot DT_NF_LVALUE) DT_NF_COOKED) with DT_NF_COOKED.
  destruct (negb _); [|done]. cbn [mbind comp_bind mret comp_ret] in *. injection Hi as Hi.
  destruct ((_ =? CTF_K_INTEGER) && _); [done|]. by rewrite Hi.
Qed.

(** The shifts of a folded cast. *)
Lemma cast_shifts ss ds (sgn : bool) v :
  let n := if ds <? ss then 64 - ds * NBBY else 64 - ss * NBBY in
  (0 <=? n) && (n <? 64) = true →
  (if sgn then u64 (Z.shiftr (s64 (u64 (Z.shiftl v n))) n) else Z.shiftr (u64 (Z.shiftl v n)) n) =
  cast (8 * Z.min ss ds) sgn v.
Proof.
  intros n [Hn1%Z.leb_le Hn2%Z.ltb_lt]%andb_true_iff. set (w := 8 * Z.min ss ds).
  assert (n = 64 - w) as -> by (unfold n, w, NBBY; destruct (Z.ltb_spec ds ss); lia).
  unfold cast. destruct sgn; [by rewrite cut_ashr by lia|by rewrite cut_shr by lia].
Qed.

(** A constant with the type of a type name. *)
Definition typed_as (c : dt_common) (a : dtrace_attribute) : dt_common :=
  mk_common (dn_ctfp c) (dn_type c) (Z.land (dn_flags c) (Z.lnot DT_NF_LVALUE)) a.

Lemma typed_as_signed c a e : common e = typed_as c a → is_signed e = is_signed (TypeName c).
Proof.
  intros He. unfold is_signed, has_flag. rewrite He. cbn. by rewrite !has_bit0, Z.land_spec, Z.lnot_spec, andb_true_r by done.
Qed.

Lemma cast_to_typed c a cr v lp rp ss ds : (dn_ctfp c =? 0) && (dn_type c =? CTF_ERR) = false →
  dt_node_is_integer (TypeName c) = mret true → dt_node_type_size hdl (Const cr v) = mret ss →
  dt_node_type_size hdl (TypeName c) = mret ds →
  cast_to hdl (Const cr v) (Op2 (typed_as c a) DT_TOK_LPAR lp rp) v =
    if (ds <? ss) || xorb (is_signed (TypeName c)) (is_signed (Const cr v))
    then cast (8 * Z.min ss ds) (is_signed (TypeName c)) v else v.
Proof.
  intros Hc Hi Hs Hd. set (e := Op2 _ _ _ _). unfold cast_to. change (common e) with (typed_as c a).
  cbn [typed_as dn_ctfp dn_type]. rewrite Hc, (typed_as_signed c a e) by done.
  rewrite (integer_scalar c a e) by done. cbn [answer mret comp_ret andb]. unfold node_size. rewrite Hs.
  change (dt_node_type_size hdl e) with (dt_node_type_size hdl (TypeName c)). rewrite Hd. cbn [answer mret comp_ret].
  by rewrite xorb_comm.
Qed.

Lemma fold_cast_value lp rp v d s : cast_type lp → arith_const rp → const_value rp = Some v →
  dt_node_is_integer lp = mret true → fold_cast hdl eattr pcb_amin lp rp v = mret d →
  ∃ c w, d = Const c w ∧ value (Op2 c DT_TOK_LPAR lp rp) s = (s, Some w).
Proof.
  intros (c & -> & Hc) (cr & v' & -> & Hv & _ & _) [= ->] Hint E. unfold fold_cast in E.
  destruct (dt_node_type_size hdl (Const cr v)) as [[ss|]|] eqn:Es; [|done|done]. cbn [mbind comp_bind] in E.
  destruct (dt_node_type_size hdl (TypeName c)) as [[ds|]|] eqn:Ed; [|done|done]. cbn [mbind comp_bind] in E.
  assert (∀ w, (w' ← mret w; dnp ← dt_node_type_propagate (TypeName c) (set_value w' (Const cr v));
     dt_node_attr_assign eattr pcb_amin dnp (dt_attr_min (dn_attr c) (dn_attr cr)) : comp dt_node) = mret d →
     ∃ a, d = Const (typed_as c a) w) as Htail.
  { intros w. unfold dt_node_type_propagate, assert. destruct (has_flag _ _); [|done].
    cbn [mbind comp_bind mret comp_ret set_value set_common]. unfold dt_node_attr_assign, attr_assign.
    destruct (eattr && _); [done|]. cbn. intros [= <-]. eexists. reflexivity. }
  pose proof (λ a, cast_to_typed c a cr v (TypeName c) (Const cr v) ss ds Hc Hint Es Ed) as Hcast.
  destruct ((ds <? ss) || _).
  - unfold assert in E. destruct (_ && _) eqn:En in E; [|done]. cbn [mbind comp_bind mret comp_ret] in E.
    apply Htail in E as [a ->]. eexists _, _. split; [done|]. cbn [eval]. unfold mbind, ev_bind. cbn [eval mret ev_ret].
    rewrite Hcast. by rewrite cast_shifts.
  - apply Htail in E as [a ->]. eexists _, _. split; [done|]. cbn [eval]. unfold mbind, ev_bind. cbn [eval mret ev_ret].
    by rewrite Hcast.
Qed.

(** ** Folding *)

(** C10: Folding a binary operator or a cast gives the constant that the generated code
    would compute for the operator at a node of the resulting type, in every state
    of the variables, apart from the exceptions. *)
Theorem dt_node_op2_folds op lp rp c v s : arith_const rp →
  (op ≠ DT_TOK_LPAR ∧ arith_const lp ∨ op = DT_TOK_LPAR ∧ cast_type lp) →
  op2 op lp rp = mret (Const c v) → exception2 op (Const c v) lp rp = false →
  value (Op2 c op lp rp) s = (s, Some v).
Proof.
  intros Hr Hl E Hex. pose proof Hr as (cr & r & -> & Hur & Har & _). unfold dt_node_op2 in E.
  destruct (is_div op && _); [done|]. cbn [const_value] in E.
  destruct Hl as [[Hop Hl]|[-> Hl]].
  - pose proof Hl as (cl & l & -> & _ & _). cbn [const_value] in E.
    destruct (dt_node_int _ _ _ _) as [[n|]|] eqn:En; [|done|done]. cbn [mbind comp_bind] in E.
    apply int_node in En as (c0 & v0 & ->).
    destruct (fold_op2 _ _ _ _ _ _ _ _ _) as [m|] eqn:Ef.
    + destruct m as [[d|]|]; [|done|done]. cbn in E. injection E as ->.
      destruct (fold_op2_value _ _ _ _ _ _ _ _ _ s Hl Hr eq_refl eq_refl Ef eq_refl Hex) as (? & ? & [= <- <-] & ?). done.
    + cbn [mbind comp_bind mret comp_ret] in E. by destruct op.
  - pose proof Hl as (cl & -> & _). cbn [const_value mbind comp_bind mret comp_ret] in E.
    destruct (dt_node_is_integer _) as [[[|]|]|] eqn:Ei; [|done|done|done]. cbn [mbind comp_bind] in E.
    destruct (fold_cast_value _ _ _ _ s Hl Hr eq_refl Ei E) as (? & ? & [= <- <-] & ?). done.
Qed.

(** Where folding an operator with one operand differs. *)
Definition exception1 (op : tok) (cp : dt_node) : bool :=
  match op with
  | DT_TOK_INEG => negb (is_signed cp) && negb (node_size hdl cp =? 8)
  | _ => false
  end.

(** C36: Folding a unary operator, also the size of a string or of a type, gives the
    constant that the generated code would compute, apart from the exception; and
    a conditional operator on a constant is replaced by the operand whose value
    it has. *)
Theorem dt_node_op1_op3_fold op cp c v e lp rp s :
  (op1 op cp = mret (Const c v) → exception1 op cp = false → value (Op1 c op cp) s = (s, Some v)) ∧
  (arith_const e → value (Op3 c e lp rp) s = value (dt_node_op3 defattr e lp rp) s).
Proof.
  split.
  - intros E Hex. destruct op; destruct cp as [cc w|cc w|cc|cc nm|cc i|cc o x|cc o x y|cc x y z]; cbn [dt_node_op1] in E; try done.
    + by injection E as <- <-.
    + by injection E as <- <-.
    + by injection E as <- <-.
    + cbn [exception1] in Hex. apply negate_inv in E as (v' & [= <- <-] & Hv). cbn [eval]. unfold mbind, ev_bind.
      cbn [eval mret ev_ret]. rewrite Hv; [done|]. apply andb_false_iff in Hex as [Hs%negb_false_iff|Hs%negb_false_iff]; [by left|right].
      unfold node_size in Hs. change (dt_node_type_size hdl (Const c v)) with (dt_node_type_size hdl (Const c w)).
      destruct (dt_node_type_size hdl (Const c w)) as [[]|]; cbn in Hs; try done. apply Z.eqb_eq in Hs. by subst.
    + destruct (dt_node_type_size _ _) as [[size|]|] eqn:Es; [|done|done]. cbn [mbind comp_bind] in E.
      destruct (size =? 0); [done|]. injection E as <- <-. cbn [eval]. unfold node_size. by rewrite Es.
    + destruct (dt_node_type_size _ _) as [[size|]|] eqn:Es; [|done|done]. cbn [mbind comp_bind] in E.
      destruct (size =? 0); [done|]. injection E as <- <-. cbn [eval]. unfold node_size. by rewrite Es.
  - intros (ce & w & -> & _). cbn [eval dt_node_op3 const_value]. unfold mbind, ev_bind. cbn. by destruct (w =? 0).
Qed.

End Fold.

(** ** Examples *)

Import CgExample.

Definition decimal : yyint := mk_yyint true [] 0.
Definition fold2 (op : tok) (lp rp : dt_node) : comp dt_node := dt_node_op2 types false attr attr decimal op lp rp.
Definition fold1 (op : tok) (cp : dt_node) : comp dt_node := dt_node_op1 types attr (mk_tid 1 2) op cp.
Definition computed (e : dt_node) (s : venv) : venv * option Z := eval types false attr idents e s.

Lemma lit_arith t v : 1 <= t <= 5 → urange 64 v → arith_const types (lit t v).
Proof.
  intros Ht Hv. exists (of_type t), v. split_and!; [done|done| |];
    assert (t = 1 ∨ t = 2 ∨ t = 3 ∨ t = 4 ∨ t = 5) as Hc by lia;
    repeat destruct Hc as [->|Hc]; subst; vm_compute; reflexivity.
Qed.

Lemma dt_node_op2_folds_witness :
  fold2 DT_TOK_SUB (lit 1 3) (lit 3 10) = mret (lit 1 (2 ^ 64 - 7)) ∧
  computed (op2 1 DT_TOK_SUB (lit 1 3) (lit 3 10)) (vars 0 0 0 0) = (vars 0 0 0 0, Some (2 ^ 64 - 7)).
Proof.
  split; [vm_compute; reflexivity|].
  apply (dt_node_op2_folds types false attr attr decimal idents);
    [by apply lit_arith|left; split; [done|by apply lit_arith]|vm_compute; reflexivity|reflexivity].
Defined.

Lemma dt_node_op1_op3_fold_witness :
  fold1 DT_TOK_BNEG (lit 2 5) = mret (lit 2 (2 ^ 64 - 6)) ∧
  computed (Op1 (of_type 2) DT_TOK_BNEG (lit 2 5)) (vars 0 0 0 0) = (vars 0 0 0 0, Some (2 ^ 64 - 6)) ∧
  computed (Op3 (of_type 2) (lit 1 0) (lit 2 5) (lit 2 7)) (vars 0 0 0 0) = computed (lit 2 7) (vars 0 0 0 0).
Proof.
  destruct (dt_node_op1_op3_fold types false attr attr (mk_tid 1 2) idents DT_TOK_BNEG (lit 2 5) (of_type 2) (2 ^ 64 - 6)
              (lit 1 0) (lit 2 5) (lit 2 7) (vars 0 0 0 0)) as [H1 H3].
  split; [vm_compute; reflexivity|]. split; [apply H1; vm_compute; reflexivity|by apply H3, lit_arith].
Defined.


End Fold.
