(* ===== verification/DtLink.v ===== *)
(** * The linker: dt_link() of libdtrace/dt_cc.c

    A compiled function is a DIFO: instructions, relocations, variables and a
    string table for their names.  [dt_link] adds to the code for a probe all
    the functions that it needs, and the functions that those need, and
    resolves the relocations.  The identifiers of the BPF symbols tell which
    functions have been seen and where they are; they live in the heap of
    [Ident], and the compiled functions at the addresses [di_data].

    An array and its length are one list; the fields of a DIFO that the linker
    leaves alone are not here.  A failed assertion and an access outside an
    array is [None]. *)
From S2P Require Import Prelude CLib StrTable Ident DtMap DtAs.
#[local] Open Scope Z_scope.
Import Ident DtMap DtAs.

Module DtLink.

(** ** Data *)

Definition DT_IDFLG_CGREG : Z := 0x0100.
Definition DT_IDFLG_BPF : Z := 0x1000.
Definition DT_IDENT_UNDEF : Z := 2 ^ 32 - 1.
Definition EDT_COMPILER : Z := 1005.
Definition DIFOFLG_DESTRUCTIVE : Z := 1.

Definition R_BPF_NONE : Z := 0.
Definition R_BPF_64_64 : Z := 1.
Definition R_BPF_64_32 : Z := 10.

Definition DT_CONST_EPID : Z := 1.
Definition DT_CONST_PRID : Z := 2.
Definition DT_CONST_CLID : Z := 3.
Definition DT_CONST_ARGC : Z := 4.
Definition DT_CONST_STBSZ : Z := 5.
Definition DT_CONST_STRSZ : Z := 6.
Definition DT_CONST_STKSIZ : Z := 7.
Definition DT_CONST_BOOTTM : Z := 8.
Definition DT_CONST_NSPEC : Z := 9.
Definition DT_CONST_NCPUS : Z := 10.

Record dof_relodesc := mk_relo {
  dofr_name : Z;
  dofr_type : Z;
  dofr_offset : Z;
  dofr_data : Z
}.

Record dtrace_diftype := mk_diftype {
  dtdt_kind : Z;
  dtdt_ckind : Z;
  dtdt_flags : Z;
  dtdt_pad : Z;
  dtdt_size : Z
}.

Record dtrace_difv := mk_difv {
  dtdv_name : Z;
  dtdv_id : Z;
  dtdv_offset : Z;
  dtdv_kind : Z;
  dtdv_scope : Z;
  dtdv_insn_from : Z;
  dtdv_insn_to : Z;
  dtdv_flags : Z;
  dtdv_type : dtrace_diftype
}.

Record dtrace_difo := mk_difo {
  dtdo_buf : list bpf_insn;
  dtdo_strtab : list Z;
  dtdo_vartab : list dtrace_difv;
  dtdo_flags : Z;
  dtdo_breltab : list dof_relodesc;
  dtdo_ddesc : Z
}.

Definition dtdo_len (dp : dtrace_difo) : Z := Z.of_nat (length (dtdo_buf dp)).
Definition dtdo_strlen (dp : dtrace_difo) : Z := Z.of_nat (length (dtdo_strtab dp)).
Definition dtdo_varlen (dp : dtrace_difo) : Z := Z.of_nat (length (dtdo_vartab dp)).
Definition dtdo_brelen (dp : dtrace_difo) : Z := Z.of_nat (length (dtdo_breltab dp)).

(** The string that the pointer [dt_difo_getstr] returns is the start of. *)
Definition dt_difo_getstr (dp : dtrace_difo) (idx : Z) : option (list Z) :=
  if (0 <=? idx) && (idx <? dtdo_strlen dp) then cstr (drop (Z.to_nat idx) (dtdo_strtab dp)) else None.

(** ** The library of BPF functions: libdtrace/dt_dlibs.c *)

(** The address of the identifier, 0 for NULL.  [syms] is [dt_bpfsyms]. *)
Definition dt_dlib_get_sym (syms : dt_idhash) (ids : idheap) (name : list Z) : option Z :=
  idp ← lookup_filled ids syms name;
  if idp =? 0 then Some 0
  else
    i ← ids !! idp;
    Some (if Z.land (di_flags i) DT_IDFLG_BPF =? 0 then 0 else idp).

Definition dt_dlib_get_xsym (syms : dt_idhash) (ids : idheap) (name : list Z) (kind : Z) : option Z :=
  idp ← dt_dlib_get_sym syms ids name;
  if idp =? 0 then Some 0
  else
    i ← ids !! idp;
    Some (if negb (di_kind i =? kind) then 0 else idp).

Definition dt_dlib_get_func (syms : dt_idhash) (ids : idheap) (name : list Z) : option Z :=
  idp ← dt_dlib_get_xsym syms ids name DT_IDENT_FUNC;
  if negb (idp =? 0) then Some idp
  else dt_dlib_get_xsym syms ids name DT_IDENT_SYMBOL.

Definition set_errno (dtp : dtrace_hdl) (err : Z) : dtrace_hdl :=
  mk_hdl err (dt_nextepid dtp) (dt_maxprobe dtp) (dt_ddesc dtp) (dt_pdesc dtp) (dt_probes dtp) (dt_maxagg dtp)
    (dt_adesc dtp).

(** The address of the compiled function, 0 for NULL. *)
Definition dt_dlib_get_func_difo (dtp : dtrace_hdl) (i : dt_ident) : option (Z * dtrace_hdl) :=
  if negb (di_kind i =? DT_IDENT_SYMBOL) then None
  else if di_data i =? 0 then Some (0, set_errno dtp EDT_COMPILER)
  else Some (di_data i, dtp).

Definition set_id (i : dt_ident) (id : Z) : dt_ident :=
  mk_ident (di_name i) (di_kind i) (di_flags i) id (di_attr i) (di_vers i) (di_ops i)
    (di_iarg i) (di_data i) (di_offset i) (di_size i) (di_gen i) (di_lineno i).

Definition dt_dlib_idreset (ref_only : bool) (i : dt_ident) : dt_ident :=
  if di_kind i =? DT_IDENT_SYMBOL then
    let i := set_flags i (Z.ldiff (di_flags i) DT_IDFLG_REF) in
    if negb ref_only then set_id i DT_IDENT_UNDEF else i
  else i.

(** The order in which the identifiers of the table are reset does not matter. *)
Definition dt_dlib_reset (syms : dt_idhash) (ids : idheap) (ref_only : bool) : idheap :=
  foldl (λ h a, alter (dt_dlib_idreset ref_only) a h) ids (concat (dh_hash syms)).

(** ** The layout *)

(** What the linker reads: the table of symbols, the compiled functions, the
    probe's id, whether memory for enabled probe ids can be allocated, and the
    values of constants; the clocks are seconds and nanoseconds, [None] if
    they cannot be read. *)
Record link_env := mk_env {
  le_syms : dt_idhash;
  le_difos : gmap Z dtrace_difo;
  le_prid : Z;
  le_mem : dtrace_hdl → bool;
  le_strlen : Z;
  le_strsize : Z;
  le_nspec : Z;
  le_maxframes : Z;
  le_max_cpuid : Z;
  le_realtime : option (Z * Z);
  le_monotonic : option (Z * Z)
}.

(** The identifiers, the handle, and the numbers of instructions, relocations
    and variables so far. *)
Record layout := mk_layout {
  ly_ids : idheap;
  ly_hdl : dtrace_hdl;
  ly_pc : Z;
  ly_rc : Z;
  ly_vc : Z
}.

(** The start of a function whose identifier is [idp], which may be NULL: is it
    linked without its dependencies? *)
Definition enter (ids : idheap) (idp : Z) : option (idheap * bool) :=
  if idp =? 0 then Some (ids, false)
  else
    i ← ids !! idp;
    let i := set_flags i (Z.lor (di_flags i) DT_IDFLG_REF) in
    Some (<[idp := i]> ids, negb (Z.land (di_flags i) DT_IDFLG_CGREG =? 0)).

Section Layout.
Context (env : link_env).
#[local] Abbreviation get_func := (dt_dlib_get_func (le_syms env)).

(** The loop over the relocations; [rec] is the recursive call. *)
Fixpoint layout_deps (rec : dtrace_difo → Z → layout → option (Z * layout)) (dp : dtrace_difo) (pc : Z)
    (rps : list dof_relodesc) (st : layout) : option (Z * layout) :=
  match rps with
  | [] => Some (s32 pc, st)
  | rp :: rps =>
      name ← dt_difo_getstr dp (dofr_name rp);
      idp ← get_func (ly_ids st) name;
      if idp =? 0 then layout_deps rec dp pc rps st
      else
        i ← ly_ids st !! idp;
        if negb (di_kind i =? DT_IDENT_SYMBOL) || negb (Z.land (di_flags i) DT_IDFLG_REF =? 0)
        then layout_deps rec dp pc rps st
        else
          '(rdp, hdl) ← dt_dlib_get_func_difo (ly_hdl st) i;
          let st := mk_layout (ly_ids st) hdl (ly_pc st) (ly_rc st) (ly_vc st) in
          if rdp =? 0 then Some (-1, st)
          else
            rd ← le_difos env !! rdp;
            '(ipc, st) ← rec rd idp st;
            if ipc =? -1 then Some (-1, st)
            else
              i ← ly_ids st !! idp;
              layout_deps rec dp pc rps
                (mk_layout (<[idp := set_id i (u32 ipc)]> (ly_ids st)) (ly_hdl st) (ly_pc st) (ly_rc st) (ly_vc st))
  end.

Fixpoint dt_link_layout (fuel : nat) (dp : dtrace_difo) (idp : Z) (st : layout) : option (Z * layout) :=
  match fuel with
  | O => None
  | S fuel =>
      '(ids, no_deps) ← enter (ly_ids st) idp;
      let pc := ly_pc st in
      let st := mk_layout ids (ly_hdl st) (u32 (pc + dtdo_len dp)) (u32 (ly_rc st + dtdo_brelen dp))
                  (u32 (ly_vc st + dtdo_varlen dp)) in
      if no_deps : bool then Some (s32 pc, st)
      else layout_deps (dt_link_layout fuel) dp pc (dtdo_breltab dp) st
  end.

End Layout.

(** ** The construction *)

(** The result code and [boottime]. *)
Definition get_boottime (env : link_env) (boottime : Z) : Z * Z :=
  match le_realtime env, le_monotonic env with
  | Some (rs, rn), Some (bs, bn) =>
      let boottime := u64 (rs - bs) in
      let boottime := u64 (boottime * 1000000000) in
      (0, u64 (boottime + (rn - bn)))
  | _, _ => (-1, boottime)
  end.

Section Construct.
Context {T : Type} `{!StringTable T} (env : link_env).

(** The parts of the final DIFO, the identifiers, the data descriptions and
    the handle, the string table, [boottime], and the counters. *)
Record link := mk_link {
  lk_ids : idheap;
  lk_dd : ddheap;
  lk_hdl : dtrace_hdl;
  lk_boot : Z;
  lk_stab : T;
  lk_buf : list bpf_insn;
  lk_vartab : list dtrace_difv;
  lk_breltab : list dof_relodesc;
  lk_flags : Z;
  lk_pc : Z;
  lk_rc : Z;
  lk_vc : Z
}.

Definition set_ids (st : link) (ids : idheap) : link :=
  mk_link ids (lk_dd st) (lk_hdl st) (lk_boot st) (lk_stab st) (lk_buf st) (lk_vartab st) (lk_breltab st)
    (lk_flags st) (lk_pc st) (lk_rc st) (lk_vc st).
Definition set_hdl (st : link) (dd : ddheap) (hdl : dtrace_hdl) : link :=
  mk_link (lk_ids st) dd hdl (lk_boot st) (lk_stab st) (lk_buf st) (lk_vartab st) (lk_breltab st)
    (lk_flags st) (lk_pc st) (lk_rc st) (lk_vc st).
Definition set_boot (st : link) (boot : Z) : link :=
  mk_link (lk_ids st) (lk_dd st) (lk_hdl st) boot (lk_stab st) (lk_buf st) (lk_vartab st) (lk_breltab st)
    (lk_flags st) (lk_pc st) (lk_rc st) (lk_vc st).
Definition set_vartab (st : link) (tab : T) (vars : list dtrace_difv) : link :=
  mk_link (lk_ids st) (lk_dd st) (lk_hdl st) (lk_boot st) tab (lk_buf st) vars (lk_breltab st)
    (lk_flags st) (lk_pc st) (lk_rc st) (lk_vc st).
Definition set_breltab (st : link) (tab : T) (rels : list dof_relodesc) : link :=
  mk_link (lk_ids st) (lk_dd st) (lk_hdl st) (lk_boot st) tab (lk_buf st) (lk_vartab st) rels
    (lk_flags st) (lk_pc st) (lk_rc st) (lk_vc st).
Definition set_dtdo_flags (st : link) (flags : Z) : link :=
  mk_link (lk_ids st) (lk_dd st) (lk_hdl st) (lk_boot st) (lk_stab st) (lk_buf st) (lk_vartab st) (lk_breltab st)
    flags (lk_pc st) (lk_rc st) (lk_vc st).

(** The code is copied and the counters are increased. *)
Definition copy_code (st : link) (sdp : dtrace_difo) : option link :=
  let pc := lk_pc st in
  if u32 (pc + dtdo_len sdp) <=? Z.of_nat (length (lk_buf st)) then
    if (Z.to_nat pc + length (dtdo_buf sdp) <=? length (lk_buf st))%nat then
      Some (mk_link (lk_ids st) (lk_dd st) (lk_hdl st) (lk_boot st) (lk_stab st)
              (take (Z.to_nat pc) (lk_buf st) ++ dtdo_buf sdp ++
               drop (Z.to_nat pc + length (dtdo_buf sdp)) (lk_buf st))
              (lk_vartab st) (lk_breltab st) (lk_flags st)
              (u32 (pc + dtdo_len sdp)) (u32 (lk_rc st + dtdo_brelen sdp)) (u32 (lk_vc st + dtdo_varlen sdp)))
    else None
  else None.

(** The variables [vps], stored from index [vc] on. *)
Fixpoint copy_vars (sdp : dtrace_difo) (pc : Z) (vps : list dtrace_difv) (vc : Z) (st : link) : option link :=
  match vps with
  | [] => Some st
  | vp :: vps =>
      name ← dt_difo_getstr sdp (dtdv_name vp);
      '(off, tab) ← tab_insert (lk_stab st) name;
      vars ← assign (lk_vartab st) vc
        (mk_difv (u32 off) (dtdv_id vp) (dtdv_offset vp) (dtdv_kind vp) (dtdv_scope vp)
           (u32 (dtdv_insn_from vp + pc)) (u32 (dtdv_insn_to vp + pc)) (dtdv_flags vp) (dtdv_type vp));
      copy_vars sdp pc vps (vc + 1) (set_vartab st tab vars)
  end.

(** The relocations [rps], stored from index [rc] on. *)
Fixpoint copy_relocs (sdp : dtrace_difo) (pc : Z) (rps : list dof_relodesc) (rc : Z) (st : link) : option link :=
  match rps with
  | [] => Some st
  | rp :: rps =>
      name ← dt_difo_getstr sdp (dofr_name rp);
      idp ← dt_dlib_get_func (le_syms env) (lk_ids st) name;
      '(off, tab) ← tab_insert (lk_stab st) name;
      data ← (if idp =? 0 then Some (dofr_data rp)
              else i ← lk_ids st !! idp;
                   Some (if negb (di_kind i =? DT_IDENT_SYMBOL) then dofr_data rp else di_id i));
      rels ← assign (lk_breltab st) rc
        (mk_relo (u32 off) (dofr_type rp) (u64 (dofr_offset rp + u64 (pc * 8))) data);
      copy_relocs sdp pc rps (rc + 1) (set_breltab st tab rels)
  end.

(** [nrp->dofr_data = data], [nrp->dofr_type = type] for the relocation [n]. *)
Definition set_data (st : link) (n data : Z) : option link :=
  nrp ← lk_breltab st !! Z.to_nat n;
  rels ← assign (lk_breltab st) n (mk_relo (dofr_name nrp) (dofr_type nrp) (dofr_offset nrp) (u64 data));
  Some (set_breltab st (lk_stab st) rels).
Definition set_type (st : link) (n type : Z) : option link :=
  nrp ← lk_breltab st !! Z.to_nat n;
  rels ← assign (lk_breltab st) n (mk_relo (dofr_name nrp) type (dofr_offset nrp) (dofr_data nrp));
  Some (set_breltab st (lk_stab st) rels).

(** The value of a constant, [None] for the boot time and for other names. *)
Definition const_value (epid clid id : Z) : option Z :=
  if id =? DT_CONST_EPID then Some epid
  else if id =? DT_CONST_PRID then Some (le_prid env)
  else if id =? DT_CONST_CLID then Some clid
  else if id =? DT_CONST_ARGC then Some 0
  else if id =? DT_CONST_STBSZ then Some (le_strlen env)
  else if id =? DT_CONST_STRSZ then Some (le_strsize env)
  else if id =? DT_CONST_NSPEC then Some (le_nspec env)
  else if id =? DT_CONST_NCPUS then Some (u32 (le_max_cpuid env + 1))
  else if id =? DT_CONST_STKSIZ then Some (u64 (8 * le_maxframes env))
  else None.

(** A relocation for a constant, with the identifier [i].  The result is the
    probe id for the next function; [None] if the boot time is not known. *)
Definition construct_const (i : dt_ident) (rp : dof_relodesc) (n epid clid prid : Z) (st : link) :
    option (option Z * link) :=
  match const_value epid clid (di_id i) with
  | Some v => st ← set_data st n v; Some (Some prid, st)
  | None =>
      if di_id i =? DT_CONST_BOOTTM then
        let '(rc, boot) := if lk_boot st =? 0 then get_boottime env (lk_boot st) else (0, lk_boot st) in
        let st := set_boot st boot in
        if negb (rc =? 0) then Some (None, st)
        else st ← set_data st n boot; Some (Some prid, st)
      else
        name ← di_name i;
        Some (Some (if bool_decide (58 ∈ name) then u32 (dofr_data rp) else prid), st)
  end.

(** The second loop over the relocations; [n] is the index of the new one. *)
Fixpoint construct_deps (rec : dtrace_difo → Z → Z → Z → link → option (Z * link)) (no_deps : bool)
    (sdp : dtrace_difo) (pc epid : Z) (rps : list dof_relodesc) (n clid prid : Z) (st : link) :
    option (Z * link) :=
  match rps with
  | [] => Some (s32 pc, st)
  | rp :: rps =>
      name ← dt_difo_getstr sdp (dofr_name rp);
      idp ← dt_dlib_get_sym (le_syms env) (lk_ids st) name;
      let next := construct_deps rec no_deps sdp pc epid rps (n + 1) in
      if idp =? 0 then next clid prid st
      else
        i ← lk_ids st !! idp;
        if di_kind i =? DT_IDENT_SCALAR then
          if no_deps then st ← set_type st n R_BPF_NONE; next clid prid st
          else
            '(prid, st) ← construct_const i rp n epid clid prid st;
            match prid with
            | None => Some (-1, st)
            | Some prid => next clid prid st
            end
        else if di_kind i =? DT_IDENT_SYMBOL then
          if no_deps then st ← set_data st n (dofr_data rp + pc); next clid prid st
          else if negb (Z.land (di_flags i) DT_IDFLG_REF =? 0) then next clid prid st
          else
            '(rdp, hdl) ← dt_dlib_get_func_difo (lk_hdl st) i;
            let st := set_hdl st (lk_dd st) hdl in
            if rdp =? 0 then Some (-1, st)
            else
              rd ← le_difos env !! rdp;
              '(nepid, dd, hdl) ←
                (if negb (dtdo_ddesc rd =? 0)
                 then dt_epid_add (le_mem env (lk_hdl st)) (lk_dd st) (lk_hdl st) (dtdo_ddesc rd) prid
                 else Some (0, lk_dd st, lk_hdl st));
              let clid := if negb (dtdo_ddesc rd =? 0) then u32 (clid + 1) else clid in
              '(ipc, st) ← rec rd idp nepid clid (set_hdl st dd hdl);
              if ipc =? -1 then Some (-1, st)
              else
                i ← lk_ids st !! idp;
                st ← set_data (set_ids st (<[idp := set_id i (u32 ipc)]> (lk_ids st))) n (u32 ipc);
                let st := if negb (Z.land (dtdo_flags rd) DIFOFLG_DESTRUCTIVE =? 0)
                          then set_dtdo_flags st (Z.lor (lk_flags st) DIFOFLG_DESTRUCTIVE) else st in
                next clid prid st
        else next clid prid st
  end.

Fixpoint dt_link_construct (fuel : nat) (sdp : dtrace_difo) (idp epid clid : Z) (st : link) :
    option (Z * link) :=
  match fuel with
  | O => None
  | S fuel =>
      '(ids, no_deps) ← enter (lk_ids st) idp;
      let st := set_ids st ids in
      let pc := lk_pc st in
      let rc := lk_rc st in
      let vc := lk_vc st in
      st ← copy_code st sdp;
      st ← copy_vars sdp pc (dtdo_vartab sdp) vc st;
      st ← copy_relocs sdp pc (dtdo_breltab sdp) rc st;
      construct_deps (dt_link_construct fuel) no_deps sdp pc epid (dtdo_breltab sdp) rc clid (le_prid env) st
  end.

(** ** The resolution of relocations *)

Definition set_imm (x : bpf_insn) (v : Z) : bpf_insn := mk_insn (code x) (dst_reg x) (src_reg x) (off x) (s32 v).

Definition BPF_IS_CALL (x : bpf_insn) : bool := code x =? Z.lor BPF_JMP BPF_CALL.

(** [buf[k].imm = v] *)
Definition patch_imm (buf : list bpf_insn) (k v : Z) : option (list bpf_insn) :=
  x ← buf !! Z.to_nat k; assign buf k (set_imm x v).

Definition resolve_one (buf : list bpf_insn) (rp : dof_relodesc) (ioff val : Z) : option (list bpf_insn) :=
  if dofr_type rp =? R_BPF_64_64 then
    buf ← patch_imm buf ioff (Z.land val 0xffffffff);
    patch_imm buf (u32 (ioff + 1)) (Z.shiftr val 32)
  else if dofr_type rp =? R_BPF_64_32 then patch_imm buf ioff (u32 val)
  else Some buf.

Fixpoint resolve_loop (dp : dtrace_difo) (ids : idheap) (rps : list dof_relodesc) (buf : list bpf_insn) :
    option (list bpf_insn) :=
  match rps with
  | [] => Some buf
  | rp :: rps =>
      name ← dt_difo_getstr dp (dofr_name rp);
      idp ← dt_dlib_get_sym (le_syms env) ids name;
      let ioff := u32 (dofr_offset rp / 8) in
      if idp =? 0 then resolve_loop dp ids rps buf
      else
        i ← ids !! idp;
        if di_kind i =? DT_IDENT_SCALAR then
          buf ← resolve_one buf rp ioff (dofr_data rp); resolve_loop dp ids rps buf
        else if di_kind i =? DT_IDENT_SYMBOL then
          x ← buf !! Z.to_nat ioff;
          if negb (BPF_IS_CALL x) then None
          else
            buf ← resolve_one buf rp ioff (u64 (dofr_data rp - ioff - 1)); resolve_loop dp ids rps buf
        else resolve_loop dp ids rps buf
  end.

Definition set_buf (dp : dtrace_difo) (buf : list bpf_insn) : dtrace_difo :=
  mk_difo buf (dtdo_strtab dp) (dtdo_vartab dp) (dtdo_flags dp) (dtdo_breltab dp) (dtdo_ddesc dp).

Definition dt_link_resolve (dp : dtrace_difo) (ids : idheap) : option dtrace_difo :=
  buf ← resolve_loop dp ids (dtdo_breltab dp) (dtdo_buf dp); Some (set_buf dp buf).

(** ** Linking *)

(** Which of the allocations succeed. *)
Record link_mem := mk_link_mem {
  m_fdp : bool;
  m_buf : bool;
  m_breltab : bool;
  m_vartab : bool;
  m_stab : bool;
  m_strtab : bool
}.

(** The result code, what is left of the state, and the DIFO; [lr_dangling]
    says that the arrays of the DIFO have been freed. *)
Record link_result := mk_result {
  lr_rc : Z;
  lr_ids : idheap;
  lr_dd : ddheap;
  lr_hdl : dtrace_hdl;
  lr_boot : Z;
  lr_dp : dtrace_difo;
  lr_dangling : bool
}.

Definition zero_insn : bpf_insn := insn_of 0 0 0 0 0.
Definition zero_relo : dof_relodesc := mk_relo 0 0 0 0.
Definition zero_difv : dtrace_difv := mk_difv 0 0 0 0 0 0 0 0 (mk_diftype 0 0 0 0 0).

(** The allocations of the final DIFO, for [insc] instructions, [relc]
    relocations and [varc] variables. *)
Definition link_alloc (mm : link_mem) (relc varc : Z) : bool :=
  m_fdp mm && m_buf mm && ((relc =? 0) || m_breltab mm) && ((varc =? 0) || m_vartab mm) && m_stab mm.

Definition dt_link (fuel : nat) (mm : link_mem) (ids : idheap) (dd : ddheap) (hdl : dtrace_hdl) (boot : Z)
    (dp : dtrace_difo) (idp : Z) : option link_result :=
  '(rc, ly) ← dt_link_layout env fuel dp idp (mk_layout ids hdl 0 0 0);
  let ids := dt_dlib_reset (le_syms env) (ly_ids ly) true in
  if rc =? -1 then Some (mk_result rc ids dd (ly_hdl ly) boot dp false)
  else if negb (link_alloc mm (ly_rc ly) (ly_vc ly))
  then Some (mk_result (-1) ids dd (set_errno (ly_hdl ly) EDT_NOMEM) boot dp false)
  else
    stab ← tab_new;
    '(rc, st) ← dt_link_construct fuel dp idp 0 0
      (mk_link ids dd (ly_hdl ly) boot stab (replicate (Z.to_nat (ly_pc ly)) zero_insn)
         (replicate (Z.to_nat (ly_vc ly)) zero_difv) (replicate (Z.to_nat (ly_rc ly)) zero_relo) 0 0 0 0);
    let ids := dt_dlib_reset (le_syms env) (lk_ids st) false in
    if rc =? -1 then Some (mk_result rc ids (lk_dd st) (lk_hdl st) (lk_boot st) dp false)
    else
      strtab ← tab_bytes (lk_stab st);
      let dp := mk_difo (lk_buf st) (if m_strtab mm then strtab else []) (lk_vartab st) (lk_flags st)
                  (lk_breltab st) (dtdo_ddesc dp) in
      if (0 <? Z.of_nat (length strtab)) && negb (m_strtab mm)
      then Some (mk_result (-1) ids (lk_dd st) (set_errno (lk_hdl st) EDT_NOMEM) (lk_boot st) dp true)
      else
        dp ← dt_link_resolve dp ids;
        Some (mk_result 0 ids (lk_dd st) (lk_hdl st) (lk_boot st) dp false).

End Construct.

(** A string of the table is found in a DIFO that has the table's bytes. *)
Lemma stored_getstr {T} `{!StringTable T, !StringTableLaws T} (tab : T) d off n :
  tab_ok tab → tab_bytes tab = Some (dtdo_strtab d) → tab_stored tab off n → cstring n → dt_difo_getstr d off = Some n.
Proof.
  intros Ht Hb Hst Hn. destruct (tab_bytes_spec tab Ht) as (b & Hb' & Hlen & Hstr). rewrite Hb in Hb'. injection Hb' as <-.
  pose proof (tab_stored_range _ _ _ Ht Hst). unfold dt_difo_getstr, dtdo_strlen.
  rewrite (proj2 (Z.leb_le _ _)), (proj2 (Z.ltb_lt _ _)) by lia. by apply Hstr.
Qed.

End DtLink.
