(* ===== verification/Assemble.v ===== *)
(** * The assembler: libdtrace/dt_as.c, dt_idhash_iter() of dt_ident.c

    [dt_as] makes a DIFO of the list of instructions: the array of instructions
    with the distances of branches (the passes of [DtAs]), the table of the
    variables that the code uses, the relocations of the instructions that refer
    to an identifier, and the string table that has the names of both.

    A call of [longjmp] is [Longjmp]; [None] is a failed assertion, an access
    outside an array or a NULL pointer.  Of the compiler's state, [dt_as] gets
    the identifiers and their tables, the string table and what is in
    [as_env].  The code under FIXME is not compiled. *)
From S2P Require Import Prelude CLib CSort StrTable Ident DtMap DtAs Node DtLink.
#[local] Open Scope Z_scope.
Import Ident DtMap DtAs Node DtLink.

Module Assemble.

Definition DT_LINK_KERNEL : Z := 0.
Definition DT_LINK_DYNAMIC : Z := 1.
Definition DT_LINK_STATIC : Z := 2.
Definition DTRACE_C_KNODEF : Z := 0x0020.
Definition DTRACE_C_UNODEF : Z := 0x0040.
Definition DT_IDFLG_LOCAL : Z := 0x0002.
Definition DT_IDFLG_DIFR : Z := 0x0040.
Definition DT_IDFLG_DIFW : Z := 0x0080.
Definition DIF_STROFF_MAX : Z := 0x7fff.
Definition EDT_STR2BIG : Z := 1010.
Definition CTF_K_UNKNOWN : Z := 0.
Definition DIF_TYPE_CTF : Z := 0.
Definition DIF_TYPE_STRING : Z := 1.
Definition DIF_TF_BYREF : Z := 1.
Definition DIFV_KIND_ARRAY : Z := 0.
Definition DIFV_KIND_SCALAR : Z := 1.
Definition DIFV_KIND_AGGREGATE : Z := 2.
Definition DIFV_SCOPE_GLOBAL : Z := 0.
Definition DIFV_SCOPE_THREAD : Z := 1.
Definition DIFV_SCOPE_LOCAL : Z := 2.
Definition DIFV_F_REF : Z := 1.
Definition DIFV_F_MOD : Z := 2.

(** ** Going through the identifiers of a table *)

(** The identifiers in the order of the visits; the array for them has [dh_nelems] elements. *)
Definition gather (h : idheap) (dhp : dt_idhash) : option (list Z) :=
  let l := concat (take (dh_hashsz dhp) (dh_hash dhp)) in
  if negb (Z.of_nat (length l) =? dh_nelems dhp) then None
  else if bool_decide (Forall (λ a, is_Some (h !! a)) l) then
    Some (qsort (λ a b, match h !! a, h !! b with Some l, Some r => dt_idhash_comp l r | _, _ => 0 end) l)
  else None.

Section Iter.
Context {D : Type} (func : Z → idheap → D → comp (Z * idheap * D)).

Fixpoint iter_loop (ids : list Z) (h : idheap) (s : D) : comp (Z * idheap * D) :=
  match ids with
  | [] => mret (0, h, s)
  | idp :: ids =>
      '(rv, h, s) ← func idp h s;
      if negb (rv =? 0) then mret (rv, h, s) else iter_loop ids h s
  end.

(** [func] is called with the data [s]; [al] and [yylineno] are for the
    identifiers that are created if the table has not been filled. *)
Definition dt_idhash_iter (al : idheap → option Z) (yylineno : Z) (h : idheap) (php : option dt_idhash)
    (dhp : dt_idhash) (s : D) : comp (Z * idheap * option dt_idhash * dt_idhash * D) :=
  '(h, php, dhp) ← (dt_idhash_populate al yylineno h php dhp : comp _);
  ids ← lift (gather h dhp);
  '(rv, h, s) ← iter_loop ids h s;
  mret (rv, h, php, dhp, s).

End Iter.

(** ** Types of variables *)

Definition dt_node_diftype `{Ctf} (hdl : hdl_types) (c : dt_common) : dtrace_diftype :=
  let str := (dn_ctfp c =? tid_ctfp (dt_type_str hdl)) && (dn_type c =? tid_type (dt_type_str hdl)) in
  mk_diftype (if str then DIF_TYPE_STRING else DIF_TYPE_CTF)
    (if str then CTF_K_UNKNOWN else u8 (ctf_type_kind (dn_ctfp c) (ctf_type_resolve (dn_ctfp c) (dn_type c))))
    (if has (dn_flags c) DT_NF_REF then DIF_TF_BYREF else 0) 0
    (u32 (ctf_type_size (dn_ctfp c) (dn_type c))).

(** A DIFO with the fields that the linker does not use. *)
Record full_difo := mk_full {
  fd_difo : dtrace_difo;
  fd_kreltab : list dof_relodesc;
  fd_ureltab : list dof_relodesc;
  fd_reclen : Z
}.

(** ** What the assembler is given *)

(** Which of the allocations succeed. *)
Record as_mem := mk_as_mem {
  ma_difo : bool;
  ma_buf : bool;
  ma_labels : bool;
  ma_vartab : bool;
  ma_breltab : bool;
  ma_kreltab : bool;
  ma_ureltab : bool;
  ma_strtab : bool
}.

(** The linking policy, the flags of the compilation, whether the clause is
    destructive, [di_ctfp] and [di_type] of the identifiers, the ids of the
    symbols that [di_data] points to, and the size of the trace record. *)
Record as_env := mk_as_env {
  ae_mem : as_mem;
  ae_linkmode : Z;
  ae_cflags : Z;
  ae_destructive : bool;
  ae_type : Z → Z * Z;
  ae_syminfo : Z → option Z;
  ae_bufoff : Z
}.

Record as_tabs := mk_tabs {
  at_php : option dt_idhash;
  at_tls : dt_idhash;
  at_aggs : dt_idhash;
  at_globals : dt_idhash;
  at_locals : dt_idhash
}.

(** The bits that tell which symbols have relocations. *)
Record masks := mk_masks { kmask : Z; kbits : Z; umask : Z; ubits : Z }.

Definition link_masks (dt_linkmode : Z) : comp masks :=
  let none := 2 ^ 32 - 1 in
  if dt_linkmode =? DT_LINK_KERNEL then mret (mk_masks 0 none DT_IDFLG_USER DT_IDFLG_USER)
  else if dt_linkmode =? DT_LINK_DYNAMIC then mret (mk_masks DT_IDFLG_USER 0 DT_IDFLG_USER DT_IDFLG_USER)
  else if dt_linkmode =? DT_LINK_STATIC then mret (mk_masks 0 none 0 none)
  else throw EDT_COMPILER.

Definition longjmp_unless (b : bool) : comp unit := if b then mret tt else throw EDT_NOMEM.

(** ** The first pass *)

(** The table that the relocation of a symbol goes to. *)
Inductive reltab := BREL | KREL | UREL.

Definition rel_table (mk : masks) (i : dt_ident) : option reltab :=
  if has (di_flags i) DT_IDFLG_BPF then Some BREL
  else if Z.land (di_flags i) (kmask mk) =? kbits mk then Some KREL
  else if Z.land (di_flags i) (umask mk) =? ubits mk then Some UREL
  else None.

Definition STW : Z := Z.lor (Z.lor BPF_ST BPF_MEM) BPF_W.
Definition STDW : Z := Z.lor (Z.lor BPF_ST BPF_MEM) BPF_DW.
Definition MOVK : Z := Z.lor (Z.lor BPF_ALU64 BPF_MOV) BPF_K.
Definition LDDW : Z := Z.lor (Z.lor BPF_LD BPF_IMM) BPF_DW.
Definition CALL : Z := Z.lor BPF_JMP BPF_CALL.

(** The relocation that an instruction which refers to [i] will have. *)
Definition count_one (mk : masks) (instr : bpf_insn) (i : dt_ident) : comp (option reltab) :=
  let c := code instr in
  let bpf := has (di_flags i) DT_IDFLG_BPF in
  if (c =? STW) || (c =? STDW) || (c =? MOVK) then
    if bpf then mret (Some BREL) else throw EDT_COMPILER
  else if c =? LDDW then mret (rel_table mk i)
  else if c =? CALL then
    if (src_reg instr =? BPF_PSEUDO_CALL) && bpf then mret (Some BREL) else throw EDT_COMPILER
  else throw EDT_COMPILER.

Record counts := mk_counts { brel : Z; krel : Z; urel : Z }.

Definition count (n : counts) (t : option reltab) : counts :=
  match t with
  | Some BREL => mk_counts (u32 (brel n + 1)) (krel n) (urel n)
  | Some KREL => mk_counts (brel n) (u32 (krel n + 1)) (urel n)
  | Some UREL => mk_counts (brel n) (krel n) (u32 (urel n + 1))
  | None => n
  end.

(** As [as_fill], and the numbers of relocations. *)
Fixpoint as_pass1 (mk : masks) (ids : idheap) (dips : list dt_irnode) (i : Z) (labels : list Z) (buf : list bpf_insn)
    (n : counts) : comp (Z * list Z * list bpf_insn * counts) :=
  match dips with
  | [] => mret (i, labels, buf, n)
  | dip :: dips =>
      labels ← lift (if di_label dip =? DT_LBL_NONE then Some labels else assign labels (di_label dip) i);
      '(i, buf) ← lift (if is_label dip then Some (i, buf)
                        else buf ← assign buf i (di_instr dip); Some (u32 (i + 1), buf));
      if di_extern dip =? 0 then as_pass1 mk ids dips i labels buf n
      else
        idp ← lift (ids !! di_extern dip);
        t ← count_one mk (di_instr dip) idp;
        as_pass1 mk ids dips i labels buf (count n t)
  end.

(** ** The variables *)

Definition in_vartab (i : dt_ident) : bool :=
  has (di_flags i) (Z.lor DT_IDFLG_DIFR DT_IDFLG_DIFW) || (di_kind i =? DT_IDENT_AGG).

Definition dt_countvar (idp : Z) (h : idheap) (n : Z) : comp (Z * idheap * Z) :=
  i ← lift (h !! idp);
  mret (0, h, if in_vartab i then u64 (n + 1) else n).

Section Assembler.
Context {T : Type} `{!StringTable T} `{Ctf} (hdl : hdl_types) (env : as_env).
Context (al : idheap → option Z) (yylineno : Z).

(** The offset of the name of an identifier in the string table. *)
Definition insert_name (tab : T) (i : dt_ident) : comp (Z * T) :=
  '(off, tab) ← (match di_name i with
                 | Some n => lift (tab_insert tab n)
                 | None => mret (0, tab)
                 end : comp (Z * T));
  if off =? -1 then throw EDT_NOMEM
  else if DIF_STROFF_MAX <? off then throw EDT_STR2BIG
  else mret (off, tab).

(** The record of the variable [i] at the address [idp]; [dl_len] is the number of instructions. *)
Definition var_record (dl_len off idp : Z) (i : dt_ident) : dtrace_difv :=
  let kind := if di_kind i =? DT_IDENT_AGG then DIFV_KIND_AGGREGATE
              else if di_kind i =? DT_IDENT_ARRAY then DIFV_KIND_ARRAY else DIFV_KIND_SCALAR in
  let scope := if has (di_flags i) DT_IDFLG_LOCAL then DIFV_SCOPE_LOCAL
               else if has (di_flags i) DT_IDFLG_TLS then DIFV_SCOPE_THREAD else DIFV_SCOPE_GLOBAL in
  let flags := Z.lor (if has (di_flags i) DT_IDFLG_DIFR then DIFV_F_REF else 0)
                 (if has (di_flags i) DT_IDFLG_DIFW then DIFV_F_MOD else 0) in
  let dn := type_assign hdl (mk_common 0 0 0 (mk_attr 0 0 0)) (fst (ae_type env idp)) (snd (ae_type env idp)) in
  mk_difv (u32 off) (di_id i) (u32 (di_offset i)) kind scope 0 (u32 (dl_len - 1)) flags (dt_node_diftype hdl dn).

(** [pcb_asvidx], the string table and the variables. *)
Record as_vars := mk_vars { av_idx : Z; av_tab : T; av_vartab : list dtrace_difv }.

Definition unused (i : dt_ident) : dt_ident :=
  set_flags i (Z.land (di_flags i) (Z.lnot (Z.lor DT_IDFLG_DIFR DT_IDFLG_DIFW))).

Definition dt_copyvar (dl_len : Z) (idp : Z) (h : idheap) (s : as_vars) : comp (Z * idheap * as_vars) :=
  i ← lift (h !! idp);
  if negb (in_vartab i) then mret (0, h, s)
  else
    '(off, tab) ← insert_name (av_tab s) i;
    vartab ← lift (assign (av_vartab s) (av_idx s) (var_record dl_len off idp i));
    mret (0, <[idp := unused i]> h, mk_vars (u32 (av_idx s + 1)) tab vartab).

(** [func] on all tables of variables. *)
Definition iter_tables {D} (func : Z → idheap → D → comp (Z * idheap * D)) (h : idheap) (tabs : as_tabs) (s : D) :
    comp (idheap * as_tabs * D) :=
  '(_, h, php, tls, s) ← dt_idhash_iter func al yylineno h (at_php tabs) (at_tls tabs) s;
  '(_, h, php, aggs, s) ← dt_idhash_iter func al yylineno h php (at_aggs tabs) s;
  '(_, h, php, globals, s) ← dt_idhash_iter func al yylineno h php (at_globals tabs) s;
  '(_, h, php, locals, s) ← dt_idhash_iter func al yylineno h php (at_locals tabs) s;
  mret (h, mk_tabs php tls aggs globals locals, s).

Definition as_variables (dl_len : Z) (h : idheap) (tabs : as_tabs) (tab : T) :
    comp (idheap * as_tabs * T * list dtrace_difv) :=
  '(h, tabs, n) ← iter_tables dt_countvar h tabs 0;
  if n =? 0 then mret (h, tabs, tab, [])
  else
    longjmp_unless (ma_vartab (ae_mem env));;
    '(h, tabs, s) ← iter_tables (dt_copyvar dl_len) h tabs (mk_vars 0 tab (replicate (Z.to_nat n) zero_difv));
    mret (h, tabs, av_tab s, av_vartab s).

(** ** The relocations *)

(** The tables, and the next index of each. *)
Record as_rels := mk_rels {
  ar_tab : T;
  ar_buf : list bpf_insn;
  ar_brp : Z;
  ar_krp : Z;
  ar_urp : Z;
  ar_breltab : list dof_relodesc;
  ar_kreltab : list dof_relodesc;
  ar_ureltab : list dof_relodesc
}.

Definition add_rel (t : reltab) (r : dof_relodesc) (tab : T) (buf : list bpf_insn) (s : as_rels) : option as_rels :=
  match t with
  | BREL =>
      l ← assign (ar_breltab s) (ar_brp s) r;
      Some (mk_rels tab buf (ar_brp s + 1) (ar_krp s) (ar_urp s) l (ar_kreltab s) (ar_ureltab s))
  | KREL =>
      l ← assign (ar_kreltab s) (ar_krp s) r;
      Some (mk_rels tab buf (ar_brp s) (ar_krp s + 1) (ar_urp s) (ar_breltab s) l (ar_ureltab s))
  | UREL =>
      l ← assign (ar_ureltab s) (ar_urp s) r;
      Some (mk_rels tab buf (ar_brp s) (ar_krp s) (ar_urp s + 1) (ar_breltab s) (ar_kreltab s) l)
  end.

Definition reloc_type (instr : bpf_insn) : comp Z :=
  let c := code instr in
  if c =? LDDW then mret R_BPF_64_64
  else if c =? STW then mret R_BPF_64_32
  else if c =? STDW then mret R_BPF_64_32
  else if c =? MOVK then mret R_BPF_64_32
  else if (c =? CALL) && (src_reg instr =? BPF_PSEUDO_CALL) then mret R_BPF_64_32
  else throw EDT_COMPILER.

(** A relocation that is left is an error unless the flags allow it. *)
Definition dt_as_undef {A} (i : dt_ident) : comp A :=
  if di_data i =? 0 then None else throw EDT_COMPILER.

(** The relocation of the instruction before [i] that refers to [idp]. *)
Definition reloc_one (mk : masks) (labels : list Z) (nlabels : Z) (instr : bpf_insn) (idp : dt_ident) (i : Z)
    (s : as_rels) : comp as_rels :=
  match rel_table mk idp with
  | None => mret s
  | Some t =>
      let nodef := match t with
                   | BREL => true
                   | KREL => has (ae_cflags env) DTRACE_C_KNODEF
                   | UREL => has (ae_cflags env) DTRACE_C_UNODEF
                   end in
      (if nodef then mret tt else dt_as_undef idp);;
      type ← reloc_type instr;
      '(soff, tab) ← insert_name (ar_tab s) idp;
      let offset := u64 (u32 (i - 1) * 8) in
      match t with
      | BREL =>
          if di_kind idp =? DT_IDENT_FUNC then
            assert (di_id idp <? nlabels);;
            a ← lift (labels !! Z.to_nat (di_id idp));
            buf ← lift (patch_imm (ar_buf s) (i - 1) (u32 (a - i)));
            lift (add_rel t (mk_relo (u32 soff) type offset a) tab buf s)
          else lift (add_rel t (mk_relo (u32 soff) type offset (di_id idp)) tab (ar_buf s) s)
      | _ =>
          assert (negb (di_data idp =? 0));;
          id ← lift (ae_syminfo env (di_data idp));
          lift (add_rel t (mk_relo (u32 soff) type offset id) tab (ar_buf s) s)
      end
  end.

Fixpoint as_pass3 (mk : masks) (ids : idheap) (labels : list Z) (nlabels : Z) (dips : list dt_irnode) (i : Z)
    (s : as_rels) : comp (Z * as_rels) :=
  match dips with
  | [] => mret (i, s)
  | dip :: dips =>
      if is_label dip then as_pass3 mk ids labels nlabels dips i s
      else
        let i := u32 (i + 1) in
        if di_extern dip =? 0 then as_pass3 mk ids labels nlabels dips i s
        else
          idp ← lift (ids !! di_extern dip);
          s ← reloc_one mk labels nlabels (di_instr dip) idp i s;
          as_pass3 mk ids labels nlabels dips i s
  end.

(** The third pass, if there are relocations, with the assertions after it. *)
Definition as_relocations (mk : masks) (ids : idheap) (labels : list Z) (dlp : dt_irlist) (n : counts) (tab : T)
    (buf : list bpf_insn) : comp as_rels :=
  let s := mk_rels tab buf 0 0 0 (replicate (Z.to_nat (brel n)) zero_relo) (replicate (Z.to_nat (krel n)) zero_relo)
             (replicate (Z.to_nat (urel n)) zero_relo) in
  if 0 <? u32 (brel n + krel n + urel n) then
    '(i, s) ← as_pass3 mk ids labels (dl_label dlp) (dl_list dlp) 0 s;
    assert ((ar_brp s =? brel n) && (ar_krp s =? krel n) && (ar_urp s =? urel n) && (i =? dl_len dlp));;
    mret s
  else mret s.

(** ** The assembler *)

(** The DIFO, the identifiers, the string table and [dt_maxreclen]. *)
Record as_result := mk_as_result {
  as_difo : full_difo;
  as_ids : idheap;
  as_tables : as_tabs;
  as_stab : T;
  as_maxreclen : Z
}.

Definition dt_as (dlp : dt_irlist) (ids : idheap) (tabs : as_tabs) (tab : T) (dt_maxreclen : Z) : comp as_result :=
  let m := ae_mem env in
  mk ← link_masks (ae_linkmode env);
  longjmp_unless (ma_difo m);;
  longjmp_unless (ma_buf m);;
  longjmp_unless (ma_labels m);;
  '(i, labels, buf, n) ← as_pass1 mk ids (dl_list dlp) 0 (replicate (Z.to_nat (dl_label dlp)) 0)
                           (replicate (Z.to_nat (dl_len dlp)) zero_insn) (mk_counts 0 0 0);
  assert (i =? dl_len dlp);;
  buf ← lift (as_branches labels (dl_label dlp) 0 buf);
  let flags := if ae_destructive env then DIFOFLG_DESTRUCTIVE else 0 in
  '(ids, tabs, tab, vartab) ← as_variables (dl_len dlp) ids tabs tab;
  longjmp_unless ((brel n =? 0) || ma_breltab m);;
  longjmp_unless ((krel n =? 0) || ma_kreltab m);;
  longjmp_unless ((urel n =? 0) || ma_ureltab m);;
  s ← as_relocations mk ids labels dlp n tab buf;
  strtab ← lift (tab_bytes (ar_tab s));
  longjmp_unless ((Z.of_nat (length strtab) =? 0) || ma_strtab m);;
  mret (mk_as_result
          (mk_full (mk_difo (ar_buf s) strtab vartab flags (ar_breltab s) 0) (ar_kreltab s) (ar_ureltab s)
             (ae_bufoff env))
          ids tabs (ar_tab s) (if dt_maxreclen <? ae_bufoff env then ae_bufoff env else dt_maxreclen)).

End Assembler.

(** ** Copies *)

(** [mem] tells which of the allocations succeed, the first of which is the DIFO
    itself; the inner [None] is NULL.  After that one fails, the cleanup reads
    the fields of NULL. *)
Definition copy_ok {A} (m : bool) (l : list A) : bool := match l with [] => true | _ => m end.

Definition dt_difo_copy (mem : nat → bool) (dd : ddheap) (dtp : dtrace_hdl) (odp : full_difo) :
    option (option full_difo * ddheap * dtrace_hdl) :=
  let d := fd_difo odp in
  if negb (mem 0%nat) then None
  else if copy_ok (mem 1%nat) (dtdo_buf d) && copy_ok (mem 2%nat) (dtdo_strtab d) &&
          copy_ok (mem 3%nat) (dtdo_vartab d) && copy_ok (mem 4%nat) (dtdo_breltab d) &&
          copy_ok (mem 5%nat) (fd_kreltab odp) && copy_ok (mem 6%nat) (fd_ureltab odp)
  then
    '(dd, ddesc) ← dt_datadesc_hold dd (dtdo_ddesc d);
    Some (Some (mk_full (mk_difo (dtdo_buf d) (dtdo_strtab d) (dtdo_vartab d) (dtdo_flags d) (dtdo_breltab d) ddesc)
                  (fd_kreltab odp) (fd_ureltab odp) 0), dd, dtp)
  else Some (None, dd, set_errno dtp EDT_NOMEM).

End Assemble.
