(* ===== verification/AssembleCorrect.v ===== *)
(** * What dt_as() achieves

    The passes of the assembler one by one, and the DIFO that they make: the
    instructions of the list, one relocation for each instruction that refers to
    an identifier, one record for each variable in use, and a string table in
    which all their names are found. *)
From S2P Require Import Prelude CLib CSort StrTable Ident DtMap DtAs Node DtLink Assemble.
#[local] Open Scope Z_scope.
Import Ident DtMap DtAs Node DtLink Assemble.

Module AssembleCorrect.

(** ** Arrays that are filled from the start *)

Lemma assign_next {A} (l : list A) (m : nat) z v :
  assign (l ++ replicate (S m) z) (Z.of_nat (length l)) v = Some ((l ++ [v]) ++ replicate m z).
Proof.
  unfold assign. rewrite length_app, length_replicate, (proj2 (Z.leb_le _ _)), (proj2 (Z.ltb_lt _ _)) by lia.
  cbn [andb]. rewrite Nat2Z.id. rewrite insert_app_r_alt by done. rewrite Nat.sub_diag. cbn [replicate].
  cbn. by rewrite <- app_assoc.
Qed.

(** ** The first pass *)

(** The instructions that refer to an identifier, with their places. *)
Fixpoint refs (pc : Z) (dips : list dt_irnode) : list (Z * dt_irnode) :=
  match dips with
  | [] => []
  | d :: dips =>
      if is_label d then refs pc dips
      else if di_extern d =? 0 then refs (pc + 1) dips
      else (pc, d) :: refs (pc + 1) dips
  end.

(** Instructions that can be relocated. *)
Definition reloc_code (x : bpf_insn) : bool :=
  (code x =? STW) || (code x =? STDW) || (code x =? MOVK) || (code x =? LDDW) ||
  ((code x =? CALL) && (src_reg x =? BPF_PSEUDO_CALL)).

(** An identifier of the BPF library; the functions that are part of the code
    itself (DT_IDENT_FUNC) are not among them. *)
Record bpf_ident (ids : idheap) (a : Z) (i : dt_ident) (n : list Z) : Prop := {
  bi_there : ids !! a = Some i;
  bi_bpf : has (di_flags i) DT_IDFLG_BPF = true;
  bi_kind : (di_kind i =? DT_IDENT_FUNC) = false;
  bi_name : di_name i = Some n;
  bi_cstring : cstring n;
  bi_id : urange 32 (di_id i)
}.

(** The instruction refers to such an identifier or to none. *)
Definition ref_ok (ids : idheap) (d : dt_irnode) : Prop :=
  di_extern d ≠ 0 →
  is_label d = false ∧ reloc_code (di_instr d) = true ∧ ∃ i n, bpf_ident ids (di_extern d) i n.

Lemma count_bpf mk x i : reloc_code x = true → has (di_flags i) DT_IDFLG_BPF = true →
  count_one mk x i = mret (Some BREL).
Proof.
  unfold reloc_code, count_one, rel_table. intros Hx ->.
  destruct (code x =? STW); [done|]. destruct (code x =? STDW); [done|]. destruct (code x =? MOVK); [done|].
  destruct (code x =? LDDW); [done|]. cbn [orb] in *. apply andb_true_iff in Hx as [-> ->]. done.
Qed.

Lemma refs_shift dips : ∀ pc pc', length (refs pc dips) = length (refs pc' dips).
Proof.
  induction dips as [|d dips IH]; intros pc pc'; cbn [refs]; [done|].
  destruct (is_label d); [done|]. destruct (di_extern d =? 0); cbn [length]; auto.
Qed.

Lemma refs_length dips : ∀ pc, Z.of_nat (length (refs pc dips)) <= size dips.
Proof.
  induction dips as [|d dips IH]; intros pc; cbn [refs size]; [done|].
  destruct (is_label d); [apply IH|]. specialize (IH (pc + 1)). destruct (di_extern d =? 0); cbn [length]; lia.
Qed.

Lemma pass1_spec mk ids dips : ∀ i labels buf n i' labels' buf',
  as_fill dips i labels buf = Some (i', labels', buf') → Forall (ref_ok ids) dips →
  0 <= brel n → brel n + Z.of_nat (length (refs 0 dips)) < 2 ^ 32 →
  as_pass1 mk ids dips i labels buf n =
    mret (i', labels', buf', mk_counts (brel n + Z.of_nat (length (refs 0 dips))) (krel n) (urel n)).
Proof.
  induction dips as [|d dips IH]; intros i labels buf n i' labels' buf' Hf Hr Hn Hb; cbn [as_fill as_pass1 refs] in *.
  { simplify_eq. rewrite Z.add_0_r. by destruct n. }
  apply Forall_cons in Hr as [Hd Hr].
  destruct (if di_label d =? DT_LBL_NONE then Some labels else assign labels (di_label d) i) as [labels1|]; [|done].
  cbn [mbind option_bind lift comp_bind mret comp_ret] in *. unfold ref_ok in Hd. destruct (is_label d) eqn:El.
  - cbn [lift mbind comp_bind mret comp_ret]. destruct (Z.eqb_spec (di_extern d) 0) as [E0|E0]; [by apply IH|].
    by destruct (Hd E0) as [? _].
  - destruct (assign buf i (di_instr d)) as [buf1|]; [|done]. cbn [mbind option_bind lift comp_bind mret comp_ret] in *.
    destruct (Z.eqb_spec (di_extern d) 0) as [E0|E0].
    + rewrite (refs_shift _ (0 + 1) 0) in *. by apply IH.
    + destruct (Hd E0) as (_ & Hc & i0 & nm & []). rewrite bi_there0. cbn [lift mbind comp_bind mret comp_ret].
      rewrite count_bpf by done. cbn [mbind comp_bind mret comp_ret length] in *. rewrite (refs_shift _ (0 + 1) 0) in *.
      unfold count. rewrite (wrap_id 32 (brel n + 1)) by (unfold urange; lia). erewrite IH; [|done|done|cbn [brel]; lia|cbn [brel]; lia].
      cbn [brel krel urel]. by replace (brel n + 1 + Z.of_nat (length (refs 0 dips)))
        with (brel n + Z.of_nat (S (length (refs 0 dips)))) by lia.
Qed.

(** ** Going through the tables *)

(** The fields of an identifier that tell its place. *)
Definition key_of (h : idheap) (a : Z) : option (Z * option (list Z)) := (λ i, (di_id i, di_name i)) <$> h !! a.
Definition same_keys (h h' : idheap) : Prop := ∀ a, key_of h' a = key_of h a.

(** A table that has been filled, with the identifiers [L]. *)
Definition filled (h : idheap) (dhp : dt_idhash) (L : list Z) : Prop := dh_tmpl dhp = None ∧ wf h dhp L.

Definition visits (h : idheap) (dhp : dt_idhash) : list Z := default [] (gather h dhp).

Lemma filled_named h dhp L a : filled h dhp L → a ∈ L → is_Some (name_of h a).
Proof.
  intros [_ Hwf] Ha. rewrite <- (wf_perm _ _ _ Hwf) in Ha. apply elem_of_concat in Ha as (c & chain & Hc & Ha).
  destruct (wf_chain _ _ _ Hwf _ _ _ Hc Ha) as (n & -> & _). eauto.
Qed.

Lemma key_name h h' a : key_of h' a = key_of h a → name_of h' a = name_of h a.
Proof. unfold key_of, name_of. by destruct (h !! a), (h' !! a); intros ?; simplify_eq/=. Qed.

Lemma filled_keys h h' dhp L : same_keys h h' → filled h dhp L → filled h' dhp L.
Proof. intros Hk [Ht Hwf]. split; [done|]. eapply wf_frame; [|exact Hwf]. intros a _. by apply key_name. Qed.

Lemma gather_keys h h' dhp : same_keys h h' → gather h' dhp = gather h dhp.
Proof.
  intros Hk. unfold gather. case_match; [done|].
  assert (∀ a, is_Some (h' !! a) ↔ is_Some (h !! a)) as Hs.
  { intros a. specialize (Hk a). unfold key_of in Hk. destruct (h !! a), (h' !! a); simplify_eq/=; split; eauto. }
  rewrite (bool_decide_ext _ (Forall (λ a, is_Some (h !! a)) (concat (take (dh_hashsz dhp) (dh_hash dhp)))))
    by (apply Forall_iff; done).
  case_match; [|done]. f_equal. apply qsort_ext. intros a b. pose proof (Hk a) as Ha. pose proof (Hk b) as Hb.
  unfold key_of in Ha, Hb. destruct (h !! a), (h' !! a), (h !! b), (h' !! b); simplify_eq/=; try done.
  unfold dt_idhash_comp. by rewrite H1, H2, H3, H4.
Qed.

Lemma visits_perm h dhp L : filled h dhp L → gather h dhp = Some (visits h dhp) ∧ visits h dhp ≡ₚ L.
Proof.
  intros Hf. pose proof Hf as [_ Hwf]. unfold visits, gather. pose proof (wf_perm _ _ _ Hwf) as Hp.
  rewrite <- (wf_hashsz _ _ _ Hwf), firstn_all, (wf_nelems _ _ _ Hwf).
  replace (length (concat (dh_hash dhp))) with (length L) by (by rewrite Hp). rewrite Z.eqb_refl. cbn [negb].
  rewrite bool_decide_true; [split; [done|]; cbn [default from_option id]; by rewrite qsort_perm|].
  rewrite Hp. apply Forall_forall. intros a Ha.
  destruct (filled_named _ _ _ _ Hf Ha) as [n Hn]. unfold name_of in Hn. destruct (h !! a); [eauto|done].
Qed.

Lemma visits_named h dhp L a : filled h dhp L → a ∈ visits h dhp → is_Some (name_of h a).
Proof. intros Hf. rewrite (proj2 (visits_perm _ _ _ Hf)). by eapply filled_named. Qed.

Section Tables.
Context (al : idheap → option Z) (yylineno : Z).

(** The tables of variables, all filled, with identifiers [L] that are apart. *)
Record tables_ok (h : idheap) (tabs : as_tabs) (L : list Z) : Prop := {
  to_tls : ∃ L1, filled h (at_tls tabs) L1;
  to_aggs : ∃ L2, filled h (at_aggs tabs) L2;
  to_globals : ∃ L3, filled h (at_globals tabs) L3;
  to_locals : ∃ L4, filled h (at_locals tabs) L4;
  to_all : L = visits h (at_tls tabs) ++ visits h (at_aggs tabs) ++ visits h (at_globals tabs) ++ visits h (at_locals tabs);
  to_nodup : NoDup L
}.

Lemma tables_named h tabs L a : tables_ok h tabs L → a ∈ L → is_Some (name_of h a).
Proof.
  intros [[L1 H1] [L2 H2] [L3 H3] [L4 H4] -> _] Ha. rewrite !elem_of_app in Ha.
  destruct Ha as [Ha|[Ha|[Ha|Ha]]]; (eapply visits_named; [|exact Ha]); eassumption.
Qed.

Section Visits.
Context {D : Type} (func : Z → idheap → D → comp (Z * idheap * D)).

Lemma iter_loop_split l1 l2 h s h' s' : iter_loop func (l1 ++ l2) h s = mret (0, h', s') →
  ∃ h1 s1, iter_loop func l1 h s = mret (0, h1, s1) ∧ iter_loop func l2 h1 s1 = mret (0, h', s').
Proof.
  revert h s. induction l1 as [|a l1 IH]; intros h s; cbn [iter_loop app]; [eauto|].
  destruct (func a h s) as [[[[rv h2] s2]|]|]; cbn [mbind comp_bind]; [|done..].
  destruct (Z.eqb_spec rv 0); cbn [negb]; [apply IH|]. by intros [= ? _ _].
Qed.

Hypothesis func_keys : ∀ a h s rv h' s', func a h s = mret (rv, h', s') → same_keys h h'.

Lemma iter_loop_keys l h s rv h' s' : iter_loop func l h s = mret (rv, h', s') → same_keys h h'.
Proof using func_keys.
  revert h s. induction l as [|a l IH]; intros h s; cbn [iter_loop].
  { by intros [= _ <- _]. }
  destruct (func a h s) as [[[[rv1 h1] s1]|]|] eqn:E; cbn [mbind comp_bind]; [|done..].
  apply func_keys in E. destruct (negb (rv1 =? 0)); [by intros [= _ <- _]|].
  intros Hk%IH b. by rewrite Hk, E.
Qed.

(** Each table is visited, one after the other. *)
Lemma iter_tables_spec h tabs L s h' s' : tables_ok h tabs L →
  iter_loop func L h s = mret (0, h', s') → iter_tables al yylineno func h tabs s = mret (h', tabs, s').
Proof using func_keys.
  intros [[L1 H1] [L2 H2] [L3 H3] [L4 H4] -> _] Hrun. unfold iter_tables.
  assert (∀ h0 h1 dhp L0 php s0 h2 s2, same_keys h h1 → h0 = h1 → filled h dhp L0 →
    iter_loop func (visits h dhp) h1 s0 = mret (0, h2, s2) →
    dt_idhash_iter func al yylineno h0 php dhp s0 = mret (0, h2, php, dhp, s2) ∧ same_keys h h2) as Hit.
  { intros ? h1 dhp L0 php s0 h2 s2 Hk -> Hfl Hl. split.
    - destruct (visits_perm _ _ _ Hfl) as [Hg _]. destruct Hfl as [Ht _].
      unfold dt_idhash_iter, dt_idhash_populate. rewrite Ht. cbn [mbind comp_bind]. rewrite (gather_keys h h1), Hg by done.
      cbn [lift mbind comp_bind mret comp_ret]. by rewrite Hl.
    - apply iter_loop_keys in Hl. intros a. by rewrite Hl, Hk. }
  apply iter_loop_split in Hrun as (h1 & s1 & R1 & Hrun). apply iter_loop_split in Hrun as (h2 & s2 & R2 & Hrun).
  apply iter_loop_split in Hrun as (h3 & s3 & R3 & R4).
  destruct (Hit h h (at_tls tabs) L1 (at_php tabs) s h1 s1) as [-> K1]; [done..|]. cbn [mbind comp_bind mret comp_ret].
  destruct (Hit h1 h1 (at_aggs tabs) L2 (at_php tabs) s1 h2 s2) as [-> K2]; [done..|]. cbn [mbind comp_bind mret comp_ret].
  destruct (Hit h2 h2 (at_globals tabs) L3 (at_php tabs) s2 h3 s3) as [-> K3]; [done..|]. cbn [mbind comp_bind mret comp_ret].
  destruct (Hit h3 h3 (at_locals tabs) L4 (at_php tabs) s3 h' s') as [-> _]; [done..|]. cbn [mbind comp_bind mret comp_ret].
  by destruct tabs.
Qed.

End Visits.

End Tables.

(** ** The variables *)

Definition name_size (i : dt_ident) : Z := Z.of_nat (length (default [] (di_name i))) + 1.

(** The variables among [l] that the code uses, and the bytes of their names. *)
Definition used (h : idheap) (l : list Z) : list (Z * dt_ident) :=
  omap (λ a, i ← h !! a; if in_vartab i then Some (a, i) else None) l.

Lemma used_cons h a l i : h !! a = Some i → used h (a :: l) = if in_vartab i then (a, i) :: used h l else used h l.
Proof. intros Hi. unfold used. cbn [omap list_omap]. rewrite Hi. cbn [mbind option_bind]. by destruct (in_vartab i). Qed.

Definition var_names_size (l : list (Z * dt_ident)) : Z := foldr (λ p n, name_size p.2 + n) 0 l.

(** No variable of [l] is marked as used any more. *)
Definition forget (h : idheap) (l : list Z) : idheap :=
  map_imap (λ a i, Some (if bool_decide (a ∈ l) && in_vartab i then unused i else i)) h.

Lemma forget_lookup h l a :
  forget h l !! a = (λ i, if bool_decide (a ∈ l) && in_vartab i then unused i else i) <$> h !! a.
Proof. unfold forget. rewrite map_lookup_imap. by destruct (h !! a). Qed.

Lemma forget_keys h l : same_keys h (forget h l).
Proof. intros a. unfold key_of. rewrite forget_lookup. destruct (h !! a) as [i|]; [|done]. cbn. by case_match. Qed.

Lemma countvar_spec l : ∀ h n, (∀ a, a ∈ l → is_Some (h !! a)) → 0 <= n → n + Z.of_nat (length (used h l)) < 2 ^ 64 →
  iter_loop dt_countvar l h n = mret (0, h, n + Z.of_nat (length (used h l))).
Proof.
  induction l as [|a l IH]; intros h n Hl Hn Hb; cbn [iter_loop].
  { cbn. by rewrite Z.add_0_r. }
  destruct (Hl a ltac:(left)) as [i Hi]. rewrite (used_cons _ _ _ _ Hi) in *.
  assert (∀ a, a ∈ l → is_Some (h !! a)) as Hl' by (intros b Hb'; apply Hl; by right).
  assert (dt_countvar a h n = mret (0, h, if in_vartab i then u64 (n + 1) else n)) as -> by (unfold dt_countvar; by rewrite Hi).
  cbn [mbind comp_bind mret comp_ret]. change (negb (0 =? 0)) with false. cbn iota. destruct (in_vartab i); [|by apply IH]. cbn [length] in *. rewrite wrap_id by (unfold urange; lia).
  rewrite IH by (done || lia).
  by replace (n + 1 + Z.of_nat (length (used h l))) with (n + Z.of_nat (S (length (used h l)))) by lia.
Qed.

Lemma countvar_keys a h s rv h' s' : dt_countvar a h s = mret (rv, h', s') → same_keys h h'.
Proof. unfold dt_countvar. destruct (h !! a); cbn; [|done]. by intros [= _ <- _]. Qed.

Section Assembler.
Context {T : Type} `{!StringTable T, !StringTableLaws T} `{Ctf} (hdl : hdl_types) (env : as_env).
Context (al : idheap → option Z) (yylineno : Z).

(** A name goes into the table. *)
Lemma insert_name_spec (tab : T) i n : di_name i = Some n → cstring n → tab_ok tab → tab_used tab + name_size i <= DIF_STROFF_MAX →
  ∃ off tab', insert_name tab i = mret (off, tab') ∧ tab_grows (name_size i) tab tab' ∧ tab_stored tab' off n ∧ u32 off = off.
Proof.
  unfold name_size, DIF_STROFF_MAX. intros Hn Hc Ht Hu. rewrite Hn in *. cbn [default from_option id] in *.
  destruct (tab_insert_grows tab n Ht Hc ltac:(lia)) as (off & tab' & Hi & Hg & Hst & Ho). exists off, tab'.
  split; [|done]. unfold insert_name. rewrite Hn, Hi. cbn [lift mbind comp_bind mret comp_ret].
  pose proof (tab_stored_range _ _ _ (tg_ok _ _ _ Hg) Hst). pose proof (tg_used _ _ _ Hg).
  rewrite (proj2 (Z.eqb_neq off (-1))), (proj2 (Z.ltb_ge _ _)) by (unfold DIF_STROFF_MAX; lia). done.
Qed.

(** The record of the variable [p], whose name is in the table. *)
Definition var_at (tab : T) (dl_len : Z) (p : Z * dt_ident) (v : dtrace_difv) : Prop :=
  tab_stored tab (dtdv_name v) (default [] (di_name p.2)) ∧ v = var_record hdl env dl_len (dtdv_name v) p.1 p.2.

Lemma var_at_grows n tab tab' len p v : tab_grows n tab tab' → var_at tab len p v → var_at tab' len p v.
Proof. intros Hg [H1 H2]. split; [by apply Hg|done]. Qed.

Definition named_var (h : idheap) (a : Z) : Prop := ∃ n, name_of h a = Some n ∧ cstring n.

Lemma copyvar_keys len a h (s : as_vars) rv h' s' : dt_copyvar hdl env len a h s = mret (rv, h', s') → same_keys h h'.
Proof.
  unfold dt_copyvar. destruct (h !! a) as [i|] eqn:Hi; cbn [lift mbind comp_bind mret comp_ret]; [|done].
  destruct (in_vartab i); cbn [negb]; [|by intros [= _ <- _]].
  destruct (insert_name _ _) as [[[off tab]|]|]; cbn [mbind comp_bind]; [|done..].
  destruct (assign _ _ _); cbn [lift mbind comp_bind mret comp_ret]; [|done]. intros [= _ <- _] b. unfold key_of.
  destruct (decide (a = b)) as [->|Hne]; [by rewrite lookup_insert_eq, Hi|by rewrite lookup_insert_ne].
Qed.

Lemma used_other h a i l : a ∉ l → used (<[a := i]> h) l = used h l.
Proof.
  induction l as [|b l IH]; intros Ha; [done|]. apply not_elem_of_cons in Ha as [Hab Ha].
  unfold used in *. cbn [omap list_omap]. rewrite lookup_insert_ne by done. by rewrite IH.
Qed.

Lemma forget_cons h a i l : h !! a = Some i → a ∉ l →
  forget h (a :: l) = forget (if in_vartab i then <[a := unused i]> h else h) l.
Proof.
  intros Hi Ha. apply map_eq. intros b. rewrite !forget_lookup. destruct (decide (b = a)) as [->|Hne].
  - rewrite (bool_decide_true (a ∈ a :: l)), (bool_decide_false (a ∈ l)) by (set_solver || done). cbn [andb].
    destruct (in_vartab i) eqn:E; rewrite ?lookup_insert_eq, ?Hi; cbn; by rewrite ?E.
  - rewrite (bool_decide_ext (b ∈ a :: l) (b ∈ l)) by set_solver.
    destruct (in_vartab i); rewrite ?lookup_insert_ne by done; done.
Qed.

Lemma copyvar_spec len l : ∀ h vs0 tab, NoDup l → (∀ a, a ∈ l → named_var h a) → tab_ok tab →
  tab_used tab + var_names_size (used h l) <= DIF_STROFF_MAX → Z.of_nat (length vs0 + length (used h l)) < 2 ^ 32 →
  ∃ tab' vs, iter_loop (dt_copyvar hdl env len) l h
      (mk_vars (Z.of_nat (length vs0)) tab (vs0 ++ replicate (length (used h l)) zero_difv)) =
      mret (0, forget h l, mk_vars (Z.of_nat (length (vs0 ++ vs))) tab' (vs0 ++ vs)) ∧
    tab_grows (var_names_size (used h l)) tab tab' ∧ Forall2 (var_at tab' len) (used h l) vs.
Proof.
  induction l as [|a l IH]; intros h vs0 tab Hn Hl Ht Hu Hb; cbn [iter_loop].
  { exists tab, []. change (used h []) with (@nil (Z * dt_ident)). rewrite !app_nil_r. split_and!; [|by apply tab_grows_refl|constructor].
    assert (forget h [] = h) as ->; [|done]. apply map_eq. intros b. rewrite forget_lookup. by destruct (h !! b). }
  apply NoDup_cons in Hn as [Ha Hn]. destruct (Hl a ltac:(left)) as (n & Hname & Hc). unfold name_of in Hname.
  destruct (h !! a) as [i|] eqn:Hi; [|done]. cbn in Hname. rewrite (used_cons _ _ _ _ Hi) in *. rewrite (forget_cons _ _ _ _ Hi Ha).
  unfold dt_copyvar at 2. rewrite Hi. cbn [lift mbind comp_bind mret comp_ret].
  destruct (in_vartab i) eqn:Ei; cbn [negb mbind comp_bind mret comp_ret].
  2:{ change (negb (0 =? 0)) with false. cbn iota. apply IH; try done. intros b Hb'. apply Hl. by right. }
  cbn [length var_names_size foldr snd av_tab av_vartab av_idx] in *. fold (var_names_size (used h l)) in *.
  assert (0 <= var_names_size (used h l)) as Hp.
  { clear. induction (used h l) as [|p q IHq]; cbn; [done|]. unfold name_size at 1. fold (var_names_size q). lia. }
  destruct (insert_name_spec tab i n Hname Hc Ht ltac:(lia)) as (off & tab1 & -> & Hg & Hst & Ho).
  cbn [mbind comp_bind mret comp_ret]. rewrite assign_next. cbn [lift mbind comp_bind mret comp_ret].
  change (negb (0 =? 0)) with false. cbn iota. set (v := var_record hdl env len off a i).
  rewrite wrap_id by (unfold urange; lia).
  replace (Z.of_nat (length vs0) + 1) with (Z.of_nat (length (vs0 ++ [v]))) by (rewrite length_app; cbn; lia).
  rewrite <- (used_other h a (unused i) l Ha) in *.
  destruct (IH (<[a := unused i]> h) (vs0 ++ [v]) tab1) as (tab2 & vs & Hrun & Hg2 & HF); [done| | | |rewrite length_app; cbn; lia|].
  { intros b Hb'. destruct (Hl b ltac:(by right)) as (nb & Hnb & Hcb). exists nb. unfold name_of.
    rewrite lookup_insert_ne by (by intros ->). done. }
  { apply Hg. }
  { pose proof (tg_used _ _ _ Hg). lia. }
  exists tab2, (v :: vs). rewrite <- (app_assoc vs0 [v] vs) in Hrun. split; [exact Hrun|]. split.
  { by eapply tab_grows_trans. }
  constructor; [|done]. split; cbn [snd fst v var_record dtdv_name].
  - rewrite Hname, Ho. apply (tg_stored _ _ _ Hg2), Hst.
  - unfold v, var_record. by rewrite !Ho.
Qed.

(** The variables are counted and then copied. *)
Lemma variables_spec len h tabs L tab : tables_ok h tabs L → (∀ a, a ∈ L → named_var h a) → tab_ok tab →
  tab_used tab + var_names_size (used h L) <= DIF_STROFF_MAX → Z.of_nat (length (used h L)) < 2 ^ 32 → ma_vartab (ae_mem env) = true →
  ∃ tab' vs, as_variables hdl env al yylineno len h tabs tab = mret (forget h L, tabs, tab', vs) ∧
    tab_grows (var_names_size (used h L)) tab tab' ∧ Forall2 (var_at tab' len) (used h L) vs.
Proof.
  intros Htb Hn Ht Hu Hb Hm. unfold as_variables.
  assert (∀ a, a ∈ L → is_Some (h !! a)) as Hs.
  { intros a Ha. destruct (Hn a Ha) as (n & Ha' & _). unfold name_of in Ha'. by destruct (h !! a). }
  rewrite (iter_tables_spec al yylineno dt_countvar countvar_keys h tabs L 0 h (0 + Z.of_nat (length (used h L))) Htb)
    by (apply countvar_spec; [done|lia|lia]).
  cbn [mbind comp_bind mret comp_ret]. rewrite Z.add_0_l, Hm.
  destruct (copyvar_spec len L h [] tab (to_nodup _ _ _ Htb) Hn Ht Hu ltac:(cbn; lia)) as (tab' & vs & Hrun & Hg & HF).
  destruct (Z.eqb_spec (Z.of_nat (length (used h L))) 0) as [E|E].
  - exists tab, []. destruct (used h L) as [|p q] eqn:Eu; [|done]. split_and!; [|by apply tab_grows_refl|constructor].
    assert (forget h L = h) as ->; [|done]. apply map_eq. intros b. rewrite forget_lookup.
    destruct (h !! b) as [i|] eqn:Hi; [|done]. cbn. f_equal. case_bool_decide as HbL; [|done]. destruct (in_vartab i) eqn:Ei; [|done].
    exfalso. assert ((b, i) ∈ used h L) as Hin; [|rewrite Eu in Hin; by apply not_elem_of_nil in Hin].
    unfold used. apply list_elem_of_omap. exists b. split; [done|]. by rewrite Hi; cbn; rewrite Ei.
  - exists tab', vs. split; [|done]. cbn [longjmp_unless mbind comp_bind mret comp_ret]. rewrite Nat2Z.id.
    cbn [length app] in Hrun. change (Z.of_nat 0) with 0 in Hrun.
    rewrite (iter_tables_spec al yylineno _ (copyvar_keys len) h tabs L _ _ _ Htb Hrun). done.
Qed.

(** ** The relocations *)

Definition reloc_kind (x : bpf_insn) : Z := if code x =? LDDW then R_BPF_64_64 else R_BPF_64_32.

Lemma reloc_type_spec x : reloc_code x = true → reloc_type x = mret (reloc_kind x).
Proof.
  unfold reloc_code, reloc_type, reloc_kind. destruct (code x =? LDDW); [done|].
  destruct (code x =? STW); [done|]. destruct (code x =? STDW); [done|]. destruct (code x =? MOVK); [done|].
  cbn [orb]. by intros ->.
Qed.

(** The relocation of the instruction [p.2] at [p.1]. *)
Definition rel_at (h : idheap) (tab : T) (p : Z * dt_irnode) (r : dof_relodesc) : Prop :=
  ∃ i n, bpf_ident h (di_extern p.2) i n ∧ tab_stored tab (dofr_name r) n ∧
    r = mk_relo (dofr_name r) (reloc_kind (di_instr p.2)) (8 * p.1) (di_id i).

Lemma rel_at_grows h k tab tab' p r : tab_grows k tab tab' → rel_at h tab p r → rel_at h tab' p r.
Proof. intros Hg (i & n & Hi & Hs & Hr). exists i, n. split_and!; [done|by apply Hg|done]. Qed.

(** The bytes of the names. *)
Definition refs_size (h : idheap) (l : list (Z * dt_irnode)) : Z :=
  foldr (λ p n, from_option name_size 0 (h !! di_extern p.2) + n) 0 l.

Lemma refs_size_nonneg h l : 0 <= refs_size h l.
Proof.
  induction l as [|p l IH]; cbn [refs_size foldr]; [done|]. fold (refs_size h l).
  destruct (h !! di_extern p.2); cbn [from_option]; unfold name_size; lia.
Qed.

Lemma pass3_spec mk h labels nl buf kt ut dips : ∀ pc tab rs0, Forall (ref_ok h) dips → tab_ok tab →
  tab_used tab + refs_size h (refs pc dips) <= DIF_STROFF_MAX → 0 <= pc → pc + size dips < 2 ^ 31 →
  ∃ tab' rs, as_pass3 env mk h labels nl dips pc
      (mk_rels tab buf (Z.of_nat (length rs0)) 0 0 (rs0 ++ replicate (length (refs pc dips)) zero_relo) kt ut) =
      mret (pc + size dips, mk_rels tab' buf (Z.of_nat (length (rs0 ++ rs))) 0 0 (rs0 ++ rs) kt ut) ∧
    tab_grows (refs_size h (refs pc dips)) tab tab' ∧ Forall2 (rel_at h tab') (refs pc dips) rs.
Proof.
  induction dips as [|d dips IH]; intros pc tab rs0 Hr Ht Hu Hpc Hsz; cbn [as_pass3 refs size] in *.
  { exists tab, []. rewrite !app_nil_r, Z.add_0_r. split_and!; [done|by apply tab_grows_refl|constructor]. }
  apply Forall_cons in Hr as [Hd Hr]. unfold ref_ok in Hd. pose proof (size_nonneg dips).
  destruct (is_label d) eqn:El; [rewrite Z.add_0_l in *; by apply IH|].
  rewrite (wrap_id 32 (pc + 1)) by (unfold urange; lia). rewrite Z.add_assoc.
  destruct (Z.eqb_spec (di_extern d) 0) as [E0|E0]; [apply IH; try done; lia|].
  destruct (Hd E0) as (_ & Hc & i & n & Hi). destruct (Hi) as [Hi1 Hi2 Hi3 Hi4 Hi5 _]. rewrite Hi1. cbn [lift mbind comp_bind mret comp_ret].
  cbn [refs_size foldr snd length] in *. fold (refs_size h (refs (pc + 1) dips)) in *. rewrite Hi1 in *. cbn [from_option] in *.
  pose proof (refs_size_nonneg h (refs (pc + 1) dips)).
  unfold reloc_one, rel_table. rewrite Hi2. cbn [mbind comp_bind mret comp_ret]. rewrite reloc_type_spec by done.
  cbn [mbind comp_bind mret comp_ret ar_tab].
  destruct (insert_name_spec tab i n Hi4 Hi5 Ht ltac:(lia)) as (off & tab1 & -> & Hg & Hst & Ho).
  cbn [mbind comp_bind mret comp_ret]. rewrite Hi3. unfold add_rel. cbn [ar_breltab ar_brp ar_krp ar_urp ar_buf ar_kreltab ar_ureltab].
  rewrite assign_next. cbn [lift mbind option_bind comp_bind mret comp_ret].
  replace (u64 (u32 (pc + 1 - 1) * 8)) with (8 * pc) by (rewrite !wrap_id; unfold urange; try lia; rewrite wrap_id; unfold urange; lia).
  set (r := mk_relo _ _ _ _). replace (Z.of_nat (length rs0) + 1) with (Z.of_nat (length (rs0 ++ [r]))) by (rewrite length_app; cbn; lia).
  destruct (IH (pc + 1) tab1 (rs0 ++ [r])) as (tab2 & rs & Hrun & Hg2 & HF); [done|apply Hg| |lia|lia|].
  { pose proof (tg_used _ _ _ Hg). lia. }
  exists tab2, (r :: rs). rewrite <- (app_assoc rs0 [r] rs) in Hrun. split; [exact Hrun|]. split; [by eapply tab_grows_trans|].
  constructor; [|done]. exists i, n. unfold r. cbn [dofr_name fst snd]. rewrite Ho. split_and!; [done| |done].
  apply (tg_stored _ _ _ Hg2), Hst.
Qed.

Lemma relocations_spec mk h labels dlp buf tab : Forall (ref_ok h) (dl_list dlp) → tab_ok tab →
  dl_len dlp = size (dl_list dlp) → size (dl_list dlp) < 2 ^ 31 →
  tab_used tab + refs_size h (refs 0 (dl_list dlp)) <= DIF_STROFF_MAX →
  ∃ tab' rs, as_relocations env mk h labels dlp (mk_counts (Z.of_nat (length (refs 0 (dl_list dlp)))) 0 0) tab buf =
      mret (mk_rels tab' buf (Z.of_nat (length rs)) 0 0 rs [] []) ∧
    tab_grows (refs_size h (refs 0 (dl_list dlp))) tab tab' ∧ Forall2 (rel_at h tab') (refs 0 (dl_list dlp)) rs.
Proof.
  intros Hr Ht Hlen Hsz Hu. unfold as_relocations. cbn [brel krel urel]. rewrite !Z.add_0_r, Nat2Z.id.
  change (replicate (Z.to_nat 0) zero_relo) with (@nil dof_relodesc).
  pose proof (refs_length (dl_list dlp) 0). rewrite wrap_id by (unfold urange; lia).
  destruct (pass3_spec mk h labels (dl_label dlp) buf [] [] (dl_list dlp) 0 tab [] Hr Ht Hu ltac:(lia) ltac:(lia))
    as (tab' & rs & Hrun & Hg & HF). cbn [length app] in Hrun. change (Z.of_nat 0) with 0 in Hrun.
  pose proof (Forall2_length _ _ _ HF) as Hl.
  destruct (Z.ltb_spec 0 (Z.of_nat (length (refs 0 (dl_list dlp))))) as [Hpos|Hpos].
  - exists tab', rs. split; [|done]. rewrite Hrun. cbn [mbind comp_bind mret comp_ret ar_brp ar_krp ar_urp].
    rewrite Hl, Hlen, Z.add_0_l, !Z.eqb_refl. done.
  - exists tab, []. destruct (refs 0 (dl_list dlp)); [|cbn in Hpos; lia]. split_and!; [done|by apply tab_grows_refl|constructor].
Qed.

(** ** The assembler *)

(** What is assembled: the list of instructions, the identifiers they refer to,
    the variables [L] in the tables; and the room that there is for the names. *)
Record assembly (dlp : dt_irlist) (ids : idheap) (tabs : as_tabs) (L : list Z) (tab : T) : Prop := {
  ay_list : wf_irlist dlp;
  ay_refs : Forall (ref_ok ids) (dl_list dlp);
  ay_tables : tables_ok ids tabs L;
  ay_named a : a ∈ L → named_var ids a;
  ay_used : Z.of_nat (length (used ids L)) < 2 ^ 32;
  ay_tab : tab_ok tab;
  ay_names : tab_used tab + var_names_size (used ids L) + refs_size ids (refs 0 (dl_list dlp)) <= DIF_STROFF_MAX;
  ay_mode : ae_linkmode env ∈ [DT_LINK_KERNEL; DT_LINK_DYNAMIC; DT_LINK_STATIC];
  ay_mem : ae_mem env = mk_as_mem true true true true true true true true
}.

(** The records of the DIFO [d], with names that are in its string table. *)
Definition as_rel_of (ids : idheap) (d : dtrace_difo) (p : Z * dt_irnode) (r : dof_relodesc) : Prop :=
  ∃ i n, bpf_ident ids (di_extern p.2) i n ∧ dt_difo_getstr d (dofr_name r) = Some n ∧
    r = mk_relo (dofr_name r) (reloc_kind (di_instr p.2)) (8 * p.1) (di_id i).

Definition as_var_of (d : dtrace_difo) (p : Z * dt_ident) (v : dtrace_difv) : Prop :=
  dt_difo_getstr d (dtdv_name v) = di_name p.2 ∧ v = var_record hdl env (dtdo_len d) (dtdv_name v) p.1 p.2.

Record assembled (dlp : dt_irlist) (ids : idheap) (L : list Z) (tab : T) (d : dtrace_difo) : Prop := {
  ad_code : ∃ labels, as_code dlp = Some (labels, dtdo_buf d) ∧ Z.of_nat (length labels) = dl_label dlp ∧
    code_at labels (dtdo_buf d) 0 (dl_list dlp);
  ad_len : dtdo_len d = dl_len dlp;
  ad_rels : Forall2 (as_rel_of ids d) (refs 0 (dl_list dlp)) (dtdo_breltab d);
  ad_vars : Forall2 (as_var_of d) (used ids L) (dtdo_vartab d);
  ad_flags : dtdo_flags d = if ae_destructive env then DIFOFLG_DESTRUCTIVE else 0;
  ad_ddesc : dtdo_ddesc d = 0;
  ad_strs off n : tab_stored tab off n → cstring n → dt_difo_getstr d off = Some n
}.

Lemma unused_bpf i : has (di_flags (unused i)) DT_IDFLG_BPF = has (di_flags i) DT_IDFLG_BPF.
Proof. unfold has, unused. cbn [set_flags di_flags]. by rewrite <- Z.land_assoc. Qed.

Lemma forget_ident ids L a i : forget ids L !! a = Some i →
  ∃ j, ids !! a = Some j ∧ di_kind i = di_kind j ∧ di_id i = di_id j ∧ di_name i = di_name j ∧
    has (di_flags i) DT_IDFLG_BPF = has (di_flags j) DT_IDFLG_BPF.
Proof.
  rewrite forget_lookup. destruct (ids !! a) as [j|]; [|done]. cbn. intros [= <-]. exists j. split; [done|].
  case_match; [|done]. by rewrite unused_bpf.
Qed.

Lemma bpf_ident_forget ids L a i n : bpf_ident (forget ids L) a i n → ∃ j, bpf_ident ids a j n ∧ di_id i = di_id j.
Proof.
  intros [H1 H2 H3 H4 H5 H6]. destruct (forget_ident _ _ _ _ H1) as (j & Hj & Ek & Ei & En & Eb).
  exists j. split; [|done]. constructor; [done|congruence|congruence|congruence|done|by rewrite <- Ei].
Qed.

Lemma forget_bpf_ident ids L a j n : bpf_ident ids a j n → ∃ i, bpf_ident (forget ids L) a i n.
Proof.
  intros [H1 H2 H3 H4 H5 H6]. exists (if bool_decide (a ∈ L) && in_vartab j then unused j else j).
  constructor; [by rewrite forget_lookup, H1|..]; try (done || by case_match). case_match; [by rewrite unused_bpf|done].
Qed.

Lemma refs_size_forget ids L l : refs_size (forget ids L) l = refs_size ids l.
Proof.
  unfold refs_size. induction l as [|p l IH]; cbn [foldr]; [done|]. rewrite IH. f_equal. rewrite forget_lookup.
  destruct (ids !! di_extern p.2); [|done]. cbn. by case_match.
Qed.

Lemma masks_exist mode : mode ∈ [DT_LINK_KERNEL; DT_LINK_DYNAMIC; DT_LINK_STATIC] → ∃ mk, link_masks mode = mret mk.
Proof. intros Hm. repeat (apply elem_of_cons in Hm as [->|Hm]; [by eexists|]). by apply not_elem_of_nil in Hm. Qed.

(** [dt_as] succeeds. *)
Lemma dt_as_spec dlp ids tabs L tab maxreclen : assembly dlp ids tabs L tab →
  ∃ d tab', dt_as hdl env al yylineno dlp ids tabs tab maxreclen =
      mret (mk_as_result (mk_full d [] [] (ae_bufoff env)) (forget ids L) tabs tab'
              (if maxreclen <? ae_bufoff env then ae_bufoff env else maxreclen)) ∧
    assembled dlp ids L tab d ∧
    tab_grows (var_names_size (used ids L) + refs_size ids (refs 0 (dl_list dlp))) tab tab'.
Proof.
  intros [Hwf Hrefs Htabs Hnamed Hused Htab Hnames Hmode Hmem].
  pose proof (size_nonneg (dl_list dlp)) as Hs0. pose proof (refs_size_nonneg ids (refs 0 (dl_list dlp))) as Hr0.
  pose proof (wi_len _ Hwf) as Hlen. pose proof (wi_len_max _ Hwf) as Hmax.
  destruct (as_code_spec dlp Hwf) as (labels & buf & Hcode & Hbl & Hll & Hat). pose proof Hcode as Hcode'. unfold as_code in Hcode.
  destruct (as_fill _ _ _ _) as [[[i labels1] buf1]|] eqn:Hfill; [|done]. cbn [mbind option_bind] in Hcode.
  destruct (Z.eqb_spec i (dl_len dlp)) as [->|]; [|done]. cbn [negb] in Hcode.
  destruct (as_branches labels1 _ _ _) as [buf2|] eqn:Hbr; [|done]. cbn [mbind option_bind] in Hcode. simplify_eq.
  assert (Z.of_nat (length (refs 0 (dl_list dlp))) < 2 ^ 31) as Hrl.
  { pose proof (refs_length (dl_list dlp) 0). lia. }
  destruct (variables_spec (dl_len dlp) ids tabs L tab Htabs Hnamed Htab ltac:(lia) Hused ltac:(by rewrite Hmem))
    as (tab1 & vs & Hvars & Hg1 & HF1).
  assert (Forall (ref_ok (forget ids L)) (dl_list dlp)) as Hrefs'.
  { eapply Forall_impl; [exact Hrefs|]. intros d Hd He. destruct (Hd He) as (H1 & H2 & i & n & Hi). split_and!; [done|done|].
    destruct (forget_bpf_ident _ L _ _ _ Hi) as [j Hj]. by exists j, n. }
  assert (Hu1 := tg_used _ _ _ Hg1).
  destruct (masks_exist _ Hmode) as [mk Hmk].
  destruct (relocations_spec mk (forget ids L) labels dlp buf tab1 Hrefs' (tg_ok _ _ _ Hg1) Hlen ltac:(lia)
    ltac:(rewrite refs_size_forget; lia)) as (tab2 & rs & Hrel & Hg2 & HF2). rewrite refs_size_forget in Hg2.
  destruct (tab_bytes_spec tab2 (tg_ok _ _ _ Hg2)) as (strtab & Hbytes & _).
  set (d := mk_difo buf strtab vs (if ae_destructive env then DIFOFLG_DESTRUCTIVE else 0) rs 0).
  exists d, tab2. split_and!; [| |by eapply tab_grows_trans].
  - unfold dt_as. rewrite Hmk, Hmem. cbn [ma_difo ma_buf ma_labels ma_breltab ma_kreltab ma_ureltab ma_strtab].
    cbn [longjmp_unless mbind comp_bind mret comp_ret].
    change zero_insn with (insn_of 0 0 0 0 0).
    rewrite (pass1_spec mk ids _ _ _ _ (mk_counts 0 0 0) _ _ _ Hfill Hrefs) by (cbn [brel]; lia).
    cbn [mbind comp_bind mret comp_ret brel krel urel]. rewrite !Z.eqb_refl. cbn [assert mbind comp_bind mret comp_ret].
    rewrite Hbr. cbn [lift mbind comp_bind mret comp_ret]. rewrite Hvars. cbn [mbind comp_bind mret comp_ret].
    rewrite !orb_true_r. cbn [longjmp_unless mbind comp_bind mret comp_ret].
    rewrite Z.add_0_l, Hrel. cbn [mbind comp_bind mret comp_ret ar_tab]. rewrite Hbytes. cbn [lift mbind comp_bind mret comp_ret].
    by rewrite orb_true_r.
  - assert (∀ off n, tab_stored tab2 off n → cstring n → dt_difo_getstr d off = Some n) as Hstr.
    { intros off n. by apply (stored_getstr tab2); [apply Hg2|]. }
    constructor; try done.
    + exists labels. split_and!; [done|lia|done].
    + eapply Forall2_impl; [exact HF2|]. intros p r (i & n & Hi & Hst & Hr).
      destruct (bpf_ident_forget _ _ _ _ _ Hi) as (j & Hj & Eid). exists j, n. rewrite <- Eid.
      split_and!; [done|apply Hstr; [done|apply Hi]|done].
    + apply Forall2_same_length_lookup_2; [by eapply Forall2_length|]. intros k p v Hp Hv0.
      destruct (Forall2_lookup_lr _ _ _ _ _ _ HF1 Hp Hv0) as [Hst Hv]. apply list_elem_of_lookup_2 in Hp.
      assert (∃ n, di_name p.2 = Some n ∧ cstring n) as (n & Hn & Hc).
      { unfold used in Hp. apply list_elem_of_omap in Hp as (a & Ha & Hp). destruct (Hnamed a Ha) as (n & Hn & Hc).
        unfold name_of in Hn. destruct (ids !! a) as [i|]; [|done]. cbn in Hp, Hn. destruct (in_vartab i); [|done].
        simplify_eq. by exists n. }
      split; [|by rewrite Hv at 1; unfold dtdo_len; cbn [d dtdo_buf]; rewrite Hbl].
      rewrite Hn in Hst |- *. apply Hstr; [|done]. by apply (tg_stored _ _ _ Hg2).
    + intros off n Hst Hc. apply Hstr; [|done]. by apply (tg_stored _ _ _ Hg2), (tg_stored _ _ _ Hg1).
Qed.

End Assembler.

(** ** Memory *)

Section Memory.
Context {T : Type} `{!StringTable T, !StringTableLaws T} `{Ctf} (hdl : hdl_types) (env : as_env).
Context (al : idheap → option Z) (yylineno : Z).

Definition with_mem (m : as_mem) : as_env :=
  mk_as_env m (ae_linkmode env) (ae_cflags env) (ae_destructive env) (ae_type env) (ae_syminfo env) (ae_bufoff env).

(** The result [x] if there is enough memory, and else the error. *)
Definition or_nomem {A} (x y : comp A) : Prop := ∀ r, x = mret r → y = mret r ∨ y = throw EDT_NOMEM.

Lemma or_nomem_refl {A} (x : comp A) : or_nomem x x.
Proof. intros r ->. by left. Qed.

Lemma or_nomem_bind {A B} (x y : comp A) (f g : A → comp B) : or_nomem x y → (∀ a, or_nomem (f a) (g a)) →
  or_nomem (x ≫= f) (y ≫= g).
Proof.
  intros Hx Hf r Hr. destruct x as [[a|c]|]; [|done..]. destruct (Hx a eq_refl) as [-> | ->]; [|by right].
  by apply Hf.
Qed.

Lemma or_nomem_unless b c : (c = true → b = true) → or_nomem (longjmp_unless b) (longjmp_unless c).
Proof. intros Hbc r Hr. destruct b, c; try done; [by left|by right]. Qed.

Definition all_mem : as_mem := mk_as_mem true true true true true true true true.

Lemma variables_memory m len h tabs (tab : T) :
  or_nomem (as_variables hdl (with_mem all_mem) al yylineno len h tabs tab) (as_variables hdl (with_mem m) al yylineno len h tabs tab).
Proof.
  unfold as_variables. apply or_nomem_bind; [apply or_nomem_refl|]. intros [[h' tabs'] n].
  destruct (n =? 0); [apply or_nomem_refl|]. apply or_nomem_bind; [by apply or_nomem_unless|]. intros _. apply or_nomem_refl.
Qed.

Lemma dt_as_memory m dlp ids tabs (tab : T) maxreclen :
  or_nomem (dt_as hdl (with_mem all_mem) al yylineno dlp ids tabs tab maxreclen) (dt_as hdl (with_mem m) al yylineno dlp ids tabs tab maxreclen).
Proof.
  unfold dt_as. cbn [ae_mem ae_linkmode ae_destructive ae_bufoff with_mem ma_difo ma_buf ma_labels ma_breltab ma_kreltab ma_ureltab ma_strtab all_mem].
  repeat first
    [ apply or_nomem_refl
    | apply or_nomem_unless; intros _; (apply orb_true_r || done)
    | apply variables_memory
    | apply or_nomem_bind; [|intros ?]
    | case_match ].
Qed.


End Memory.

End AssembleCorrect.
