(* ===== verification/LinkGraph.v ===== *)
(** * Which functions are linked, and where they go

    The functions that a piece of code needs, in the order in which the linker
    adds them, and the proof that [dt_link_layout] gives each the place it will
    have.  The state of the identifiers is that of the start, but for the
    functions seen so far and the positions known so far. *)
From S2P Require Import Prelude CLib StrTable Ident DtMap DtAs DtLink.
#[local] Open Scope Z_scope.
Import Ident DtMap DtAs DtLink.

Module LinkGraph.

(** A function that is linked: its symbol and code, the enabled probe id, and
    the clause id that is current at each of its relocations. *)
Record block := mk_block {
  b_sym : Z;
  b_difo : dtrace_difo;
  b_epid : Z;
  b_clids : list Z
}.

Definition b_len (b : block) : Z := dtdo_len (b_difo b).

(** The sums over the functions. *)
Definition total (f : dtrace_difo → Z) (B : list block) : Z := foldr (λ b n, f (b_difo b) + n) 0 B.

(** The positions of functions that follow each other from [pc] on. *)
Fixpoint place (pc : Z) (B : list block) : gmap Z Z :=
  match B with
  | [] => ∅
  | b :: B => <[b_sym b := pc]> (place (pc + b_len b) B)
  end.

Definition b_syms (B : list block) : list Z := b_sym <$> B.

Lemma total_app f B1 B2 : total f (B1 ++ B2) = total f B1 + total f B2.
Proof. unfold total. induction B1 as [|b B1 IH]; cbn [app foldr]; [done|]. rewrite IH. lia. Qed.

Lemma total_nonneg f B : (∀ d, 0 <= f d) → 0 <= total f B.
Proof. intros Hf. unfold total. induction B as [|b B IH]; cbn [foldr]; [done|]. specialize (Hf (b_difo b)). lia. Qed.

Lemma place_lookup_None pc B a : place pc B !! a = None ↔ a ∉ b_syms B.
Proof.
  revert pc. unfold b_syms. induction B as [|b B IH]; intros pc; cbn; [by rewrite lookup_empty; set_solver|].
  rewrite lookup_insert_None, IH. set_solver.
Qed.

Lemma place_app pc B1 B2 : NoDup (b_syms (B1 ++ B2)) →
  place pc (B1 ++ B2) = place (pc + total dtdo_len B1) B2 ∪ place pc B1.
Proof.
  revert pc. induction B1 as [|b B1 IH]; intros pc Hn; cbn [app place total foldr].
  - by rewrite map_union_empty, Z.add_0_r.
  - unfold b_syms in Hn. cbn [app fmap list_fmap] in Hn. apply NoDup_cons in Hn as [Hb Hn]. rewrite IH by done.
    fold (total dtdo_len B1). rewrite Z.add_assoc. rewrite insert_union_r; [done|].
    apply place_lookup_None. rewrite fmap_app in Hb. set_solver.
Qed.

(** What the counters have room for. *)
Definition fits (f : dtrace_difo → Z) (n : Z) (B : list block) : Prop := 0 <= n ∧ n + total f B < 2 ^ 31.

Lemma len_nonneg d : 0 <= dtdo_len d.
Proof. unfold dtdo_len. lia. Qed.
Lemma brelen_nonneg d : 0 <= dtdo_brelen d.
Proof. unfold dtdo_brelen. lia. Qed.
Lemma varlen_nonneg d : 0 <= dtdo_varlen d.
Proof. unfold dtdo_varlen. lia. Qed.

Lemma fits_new f n b B1 B2 : (∀ d, 0 <= f d) → fits f n (b :: B1 ++ B2) →
  u32 (n + f (b_difo b)) = n + f (b_difo b) ∧ s32 n = n ∧ u32 n = n ∧ n ≠ -1 ∧ fits f (n + f (b_difo b)) B1 ∧
  fits f (n + f (b_difo b) + total f B1) B2 ∧
  n + f (b_difo b) + total f B1 + total f B2 = n + total f (b :: B1 ++ B2).
Proof.
  intros Hf [Hn Hb]. unfold fits. cbn [total foldr] in *. fold (total f (B1 ++ B2)) in *. rewrite total_app in *.
  pose proof (total_nonneg f B1 Hf). pose proof (total_nonneg f B2 Hf). specialize (Hf (b_difo b)).
  rewrite !wrap_id, swrap_id by (unfold urange, srange; lia). lia.
Qed.

Section Graph.
Context (env : link_env) (ids0 : idheap).
#[local] Abbreviation syms := (le_syms env).

(** The symbol that a relocation is for, and the function if it is one. *)
Definition rname (d : dtrace_difo) (r : dof_relodesc) : list Z := default [] (dt_difo_getstr d (dofr_name r)).

Definition target (d : dtrace_difo) (r : dof_relodesc) : option (Z * dt_ident) :=
  a ← dt_dlib_get_sym syms ids0 (rname d r);
  if a =? 0 then None else i ← ids0 !! a; Some (a, i).

Definition callee (d : dtrace_difo) (r : dof_relodesc) : option Z :=
  '(a, i) ← target d r;
  if di_kind i =? DT_IDENT_SYMBOL then Some a else None.

Definition inlined (c : Z) : bool :=
  if c =? 0 then false
  else match ids0 !! c with Some i => negb (Z.land (di_flags i) DT_IDFLG_CGREG =? 0) | None => false end.

(** The relocations of a function that lead to more functions. *)
Definition relocs (c : Z) (d : dtrace_difo) : list dof_relodesc := if inlined c then [] else dtdo_breltab d.

Definition difo_of (c : Z) : option dtrace_difo := i ← ids0 !! c; le_difos env !! di_data i.

(** The probe id after a relocation: the name of a probe sets it. *)
Definition next_prid (d : dtrace_difo) (r : dof_relodesc) (prid : Z) : Z :=
  match target d r with
  | Some (_, i) =>
      if (di_kind i =? DT_IDENT_SCALAR) && negb ((1 <=? di_id i) && (di_id i <=? 10)) &&
         bool_decide (58 ∈ default [] (di_name i))
      then u32 (dofr_data r) else prid
  | None => prid
  end.

(** The enabled probe id of a function. *)
Definition new_epid (es : ddheap * dtrace_hdl) (d : dtrace_difo) (prid : Z) : option (Z * (ddheap * dtrace_hdl)) :=
  if dtdo_ddesc d =? 0 then Some (0, es)
  else '(r, dd, hdl) ← dt_epid_add (le_mem env es.2) es.1 es.2 (dtdo_ddesc d) prid; Some (r, (dd, hdl)).

Definition new_clid (d : dtrace_difo) (clid : Z) : Z := if dtdo_ddesc d =? 0 then clid else u32 (clid + 1).

(** The relocations [rs] of [d] need the functions [B] if those in [s] have been
    linked already; the ids that are current at [rs] are [cl]. *)
Inductive linked (d : dtrace_difo) :
    list dof_relodesc → Z → Z → gset Z → ddheap * dtrace_hdl →
    list Z → list block → gset Z → ddheap * dtrace_hdl → Prop :=
  | linked_nil clid prid s es : linked d [] clid prid s es [] [] s es
  | linked_skip r rs clid prid s es cl B s' es' :
      (∀ c, callee d r = Some c → c ∈ s) →
      linked d rs clid (next_prid d r prid) s es cl B s' es' →
      linked d (r :: rs) clid prid s es (clid :: cl) B s' es'
  | linked_new r rs clid prid s es c rd epid es1 cl1 B1 s2 es2 cl B2 s3 es3 :
      callee d r = Some c → c ∉ s → difo_of c = Some rd → new_epid es rd prid = Some (epid, es1) →
      linked rd (relocs c rd) (new_clid rd clid) (le_prid env) ({[c]} ∪ s) es1 cl1 B1 s2 es2 →
      linked d rs (new_clid rd clid) prid s2 es2 cl B2 s3 es3 →
      linked d (r :: rs) clid prid s es (clid :: cl) (mk_block c rd epid cl1 :: B1 ++ B2) s3 es3.

(** What is needed of code: names are in its string table, relocations are for
    its instructions, those for functions are for calls, and no instruction
    has two. *)
Definition touched (r : dof_relodesc) : list Z :=
  let k := dofr_offset r / 8 in if dofr_type r =? R_BPF_64_64 then [k; k + 1] else [k].

Record unit_ok (d : dtrace_difo) : Prop := {
  uo_name r : r ∈ dtdo_breltab d → ∃ n, dt_difo_getstr d (dofr_name r) = Some n ∧ cstring n;
  uo_var v : v ∈ dtdo_vartab d → ∃ n, dt_difo_getstr d (dtdv_name v) = Some n ∧ cstring n;
  uo_data r : r ∈ dtdo_breltab d → urange 64 (dofr_data r) ∧ 0 <= dofr_offset r;
  uo_range r k : r ∈ dtdo_breltab d → k ∈ touched r → k < dtdo_len d;
  uo_call r c : r ∈ dtdo_breltab d → callee d r = Some c →
    ∃ x, dtdo_buf d !! Z.to_nat (dofr_offset r / 8) = Some x ∧ BPF_IS_CALL x = true;
  uo_apart : NoDup (concat (touched <$> dtdo_breltab d))
}.

(** The table of symbols: [L] are its identifiers, [U] those with a function.
    No function has been seen, none has a position, and all that they call is
    there. *)
Record library (L : list Z) (U : gset Z) : Prop := {
  lib_syms : wf ids0 syms L;
  lib_fresh a i : a ∈ L → ids0 !! a = Some i → di_kind i = DT_IDENT_SYMBOL →
    Z.land (di_flags i) DT_IDFLG_REF = 0 ∧ di_id i = DT_IDENT_UNDEF;
  lib_fun c : c ∈ U → ∃ i d, ids0 !! c = Some i ∧ di_kind i = DT_IDENT_SYMBOL ∧ di_data i ≠ 0 ∧
    le_difos env !! di_data i = Some d ∧ unit_ok d ∧ c ∈ L;
  lib_closed c d r c' : c ∈ U → difo_of c = Some d → r ∈ relocs c d → callee d r = Some c' → c' ∈ U
}.

(** ** The state of the identifiers *)

(** The functions [s] have been seen, [m] are the positions known. *)
Definition mark (s : gset Z) (m : gmap Z Z) (a : Z) (i : dt_ident) : dt_ident :=
  set_id (set_flags i (if decide (a ∈ s) then Z.lor (di_flags i) DT_IDFLG_REF else di_flags i))
    (default (di_id i) (m !! a)).

Definition view (s : gset Z) (m : gmap Z Z) : idheap := map_imap (λ a i, Some (mark s m a i)) ids0.

Lemma view_lookup s m a : view s m !! a = mark s m a <$> ids0 !! a.
Proof. unfold view. rewrite map_lookup_imap. by destruct (ids0 !! a). Qed.

Lemma mark_none i a : mark ∅ ∅ a i = i.
Proof. unfold mark. rewrite decide_False, lookup_empty by set_solver. by destruct i. Qed.

Lemma view_start : view ∅ ∅ = ids0.
Proof. apply map_eq. intros a. rewrite view_lookup. destruct (ids0 !! a); simpl; [by rewrite mark_none|done]. Qed.

Lemma view_seen s m a i : ids0 !! a = Some i →
  <[a := set_flags (mark s m a i) (Z.lor (di_flags (mark s m a i)) DT_IDFLG_REF)]> (view s m) =
  view ({[a]} ∪ s) m.
Proof.
  intros Hi. apply map_eq. intros b. rewrite (view_lookup ({[a]} ∪ s)). destruct (decide (b = a)) as [->|Hne].
  - rewrite lookup_insert_eq, Hi. simpl. f_equal. unfold mark. rewrite (decide_True (P := a ∈ {[a]} ∪ s)) by set_solver.
    unfold set_id, set_flags. cbn. f_equal. case_decide; [|done]. by rewrite <- Z.lor_assoc, Z.lor_diag.
  - rewrite lookup_insert_ne, view_lookup by done. destruct (ids0 !! b); [|done]. simpl. f_equal. unfold mark.
    by rewrite (decide_ext (b ∈ {[a]} ∪ s) (b ∈ s)) by set_solver.
Qed.

Lemma view_place s m a i v : ids0 !! a = Some i →
  <[a := set_id (mark s m a i) v]> (view s m) = view s (<[a := v]> m).
Proof.
  intros Hi. apply map_eq. intros b. rewrite (view_lookup s (<[a := v]> m)). destruct (decide (b = a)) as [->|Hne].
  - rewrite lookup_insert_eq, Hi. simpl. unfold mark. by rewrite lookup_insert_eq.
  - rewrite lookup_insert_ne, view_lookup by done. destruct (ids0 !! b); [|done]. simpl. unfold mark.
    by rewrite lookup_insert_ne.
Qed.

Lemma land_ref f s (a : Z) g : Z.land DT_IDFLG_REF g = 0 →
  Z.land (if decide (a ∈ (s : gset Z)) then Z.lor f DT_IDFLG_REF else f) g = Z.land f g.
Proof. intros Hg. case_decide; [|done]. by rewrite Z.land_lor_distr_l, Hg, Z.lor_0_r. Qed.

Lemma lookup_view s m name : lookup_filled (view s m) syms name = lookup_filled ids0 syms name.
Proof.
  unfold lookup_filled. destruct (dh_hash syms !! _) as [chain|]; [|done]. cbn [mbind option_bind].
  induction chain as [|a chain IH]; [done|]. cbn [lookup_loop]. rewrite view_lookup.
  destruct (ids0 !! a) as [i|]; [|done]. cbn. by rewrite IH.
Qed.

Lemma get_sym_view s m name : dt_dlib_get_sym syms (view s m) name = dt_dlib_get_sym syms ids0 name.
Proof.
  unfold dt_dlib_get_sym. rewrite lookup_view. destruct (lookup_filled _ _ _) as [a|]; [|done]. cbn [mbind option_bind].
  destruct (a =? 0); [done|]. rewrite view_lookup. destruct (ids0 !! a) as [i|]; [|done].
  cbn [fmap option_fmap option_map mbind option_bind]. unfold mark. cbn [set_id set_flags di_flags].
  by rewrite land_ref.
Qed.

Lemma get_func_view s m name : dt_dlib_get_func syms (view s m) name = dt_dlib_get_func syms ids0 name.
Proof.
  unfold dt_dlib_get_func, dt_dlib_get_xsym. rewrite !get_sym_view.
  destruct (dt_dlib_get_sym _ _ _) as [a|]; [|done]. cbn [mbind option_bind]. destruct (a =? 0); [done|].
  rewrite view_lookup. by destruct (ids0 !! a) as [i|].
Qed.

Lemma enter_view s m a i : a ≠ 0 → ids0 !! a = Some i →
  enter (view s m) a = Some (view ({[a]} ∪ s) m, inlined a).
Proof.
  intros Ha Hi. unfold enter, inlined. rewrite (proj2 (Z.eqb_neq a 0)), view_lookup, Hi by done.
  cbn [fmap option_fmap option_map mbind option_bind]. rewrite view_seen by done. do 3 f_equal.
  unfold mark. cbn [set_id set_flags di_flags]. rewrite Z.land_lor_distr_l, land_ref by done.
  change (Z.land DT_IDFLG_REF DT_IDFLG_CGREG) with 0. by rewrite Z.lor_0_r.
Qed.

Lemma linked_seen d rs clid prid s es cl B s' es' : linked d rs clid prid s es cl B s' es' →
  NoDup (b_syms B) ∧ list_to_set (b_syms B) ## s ∧ s' = s ∪ list_to_set (b_syms B).
Proof.
  unfold b_syms. induction 1 as [|d r rs clid prid s es cl B s' es' Hc H IH|d r rs clid prid s es c rd epid es1 cl1 B1 s2 es2 cl B2 s3 es3
    Hc Hns Hrd He H1 IH1 H2 IH2]; cbn [fmap list_fmap list_to_set].
  - split_and!; [constructor|set_solver|set_solver].
  - done.
  - destruct IH1 as (N1 & D1 & ->), IH2 as (N2 & D2 & ->). rewrite fmap_app, list_to_set_app_L. split_and!.
    + apply NoDup_cons. split; [set_solver|]. apply NoDup_app. split_and!; [done|set_solver|done].
    + set_solver.
    + set_solver.
Qed.

(** All functions that the linked functions call are linked. *)
Definition calls_in (s : gset Z) (d : dtrace_difo) (rs : list dof_relodesc) : Prop :=
  ∀ r c, r ∈ rs → callee d r = Some c → c ∈ s.

Lemma linked_closed d rs clid prid s es cl B s' es' : linked d rs clid prid s es cl B s' es' →
  calls_in s' d rs ∧ Forall (λ b, calls_in s' (b_difo b) (relocs (b_sym b) (b_difo b))) B.
Proof.
  assert (∀ s1 s2 d rs, s1 ⊆ s2 → calls_in s1 d rs → calls_in s2 d rs) as Hmono.
  { intros s1 s2 d0 rs0 Hs Hc r c Hr Hrc. apply Hs. by apply (Hc r). }
  assert (∀ s d r rs, (∀ c, callee d r = Some c → c ∈ s) → calls_in s d rs → calls_in s d (r :: rs)) as Hcons.
  { intros s0 d0 r rs0 H1 H2 r' c Hr. apply elem_of_cons in Hr as [->|Hr]; [apply H1|by apply H2]. }
  induction 1 as [|d r rs clid prid s es cl B s' es' Hc H IH|d r rs clid prid s es c rd epid es1 cl1 B1 s2 es2 cl B2 s3 es3
    Hc Hns Hrd He H1 IH1 H2 IH2].
  - split; [|done]. intros r c Hr. by apply not_elem_of_nil in Hr.
  - destruct (linked_seen _ _ _ _ _ _ _ _ _ _ H) as (_ & _ & Es), IH as [Hd HB]. split; [|done]. apply Hcons; [|done].
    intros c Hrc. rewrite Es. apply elem_of_union_l. by apply Hc.
  - destruct (linked_seen _ _ _ _ _ _ _ _ _ _ H1) as (_ & _ & E1), (linked_seen _ _ _ _ _ _ _ _ _ _ H2) as (_ & _ & E2).
    assert (s2 ⊆ s3) as Hs by (rewrite E2; set_solver). destruct IH1 as [Hd1 HB1], IH2 as [Hd2 HB2]. split.
    + apply Hcons; [|done]. intros c' Hc'. assert (c' = c) as -> by congruence. apply Hs. rewrite E1. set_solver.
    + constructor; [by eapply Hmono|]. apply Forall_app. split; [|done]. eapply Forall_impl; [exact HB1|].
      intros b. by apply Hmono.
Qed.

Section Library.
Context (L : list Z) (U : gset Z) (lib : library L U).

(** What a relocation is for, and what the look-ups find. *)
Inductive reloc_for (d : dtrace_difo) (r : dof_relodesc) (n : list Z) : Prop :=
  | for_none : target d r = None → dt_dlib_get_sym syms ids0 n = Some 0 → dt_dlib_get_func syms ids0 n = Some 0 →
      reloc_for d r n
  | for_sym a i : target d r = Some (a, i) → a ≠ 0 → a ∈ L → ids0 !! a = Some i →
      di_name i = Some n →
      dt_dlib_get_sym syms ids0 n = Some a →
      dt_dlib_get_func syms ids0 n =
        Some (if (di_kind i =? DT_IDENT_FUNC) || (di_kind i =? DT_IDENT_SYMBOL) then a else 0) →
      reloc_for d r n.

Lemma reloc_cases d r : unit_ok d → r ∈ dtdo_breltab d →
  ∃ n, dt_difo_getstr d (dofr_name r) = Some n ∧ cstring n ∧ rname d r = n ∧ reloc_for d r n.
Proof using lib.
  intros Hd Hr. destruct (uo_name _ Hd r Hr) as (n & Hn & Hs). exists n. unfold rname. rewrite Hn.
  split_and!; [done|done|done|]. pose proof (lookup_filled_spec _ _ _ n (lib_syms _ _ lib)) as Hl.
  assert (target d r = (a ← dt_dlib_get_sym syms ids0 n; if a =? 0 then None else i ← ids0 !! a; Some (a, i))) as Ht.
  { unfold target, rname. by rewrite Hn. }
  destruct (named ids0 n L) as [|a N] eqn:En; cbn [head default from_option] in Hl.
  - assert (dt_dlib_get_sym syms ids0 n = Some 0) as Hg by (unfold dt_dlib_get_sym; by rewrite Hl).
    rewrite Hg in Ht. constructor; [done|done|]. unfold dt_dlib_get_func, dt_dlib_get_xsym. by rewrite Hg.
  - assert (a ∈ named ids0 n L) as Ha by (rewrite En; set_solver). apply elem_of_named in Ha as [Hna HaL].
    unfold name_of in Hna. destruct (ids0 !! a) as [i|] eqn:Hi; [|done]. cbn in Hna.
    assert (a ≠ 0) as Ha0 by (intros ->; by apply (wf_null _ _ _ (lib_syms _ _ lib))).
    apply Z.eqb_neq in Ha0 as Ha0'. cbn [id] in Hl.
    assert (dt_dlib_get_sym syms ids0 n = Some (if Z.land (di_flags i) DT_IDFLG_BPF =? 0 then 0 else a)) as Hg.
    { unfold dt_dlib_get_sym. rewrite Hl. cbn. by rewrite Ha0', Hi. }
    destruct (Z.land (di_flags i) DT_IDFLG_BPF =? 0); rewrite Hg in Ht; cbn in Ht.
    + constructor; [done|done|]. unfold dt_dlib_get_func, dt_dlib_get_xsym. by rewrite Hg.
    + rewrite Ha0', Hi in Ht. cbn in Ht. apply (for_sym d r n a i); try done.
      unfold dt_dlib_get_func, dt_dlib_get_xsym. rewrite Hg. cbn [mbind option_bind]. rewrite Ha0', Hi.
      cbn [mbind option_bind]. destruct (di_kind i =? DT_IDENT_FUNC); cbn [negb orb]; [by rewrite Ha0'|].
      cbn. by destruct (di_kind i =? DT_IDENT_SYMBOL).
Qed.

Lemma callee_target d r c : callee d r = Some c →
  ∃ i, target d r = Some (c, i) ∧ ids0 !! c = Some i ∧ di_kind i = DT_IDENT_SYMBOL.
Proof using Type.
  unfold callee. destruct (target d r) as [[a i]|] eqn:E; [|done]. cbn [mbind option_bind].
  destruct (Z.eqb_spec (di_kind i) DT_IDENT_SYMBOL); [|done]. intros [= ->]. exists i. split_and!; [done| |done].
  unfold target in E. destruct (dt_dlib_get_sym _ _ _) as [a|]; [|done]. cbn in E. destruct (a =? 0); [done|].
  destruct (ids0 !! a) eqn:?; cbn in E; by simplify_eq.
Qed.

Lemma fun_fresh c i : c ∈ U → ids0 !! c = Some i → Z.land (di_flags i) DT_IDFLG_REF = 0.
Proof using lib.
  intros Hc Hi. destruct (lib_fun _ _ lib c Hc) as (i' & d & Hi' & Hk & _ & _ & _ & HL). simplify_eq.
  by eapply (lib_fresh _ _ lib c).
Qed.

Lemma fun_difo c : c ∈ U → ∃ i d, ids0 !! c = Some i ∧ c ≠ 0 ∧ di_kind i = DT_IDENT_SYMBOL ∧
  (di_data i =? 0) = false ∧ le_difos env !! di_data i = Some d ∧ difo_of c = Some d ∧ unit_ok d.
Proof using lib.
  intros Hc. destruct (lib_fun _ _ lib c Hc) as (i & d & Hi & Hk & Hn & Hd & Hu & HL). exists i, d.
  split_and!; try done; [|by apply Z.eqb_neq|unfold difo_of; by rewrite Hi].
  intros ->. by apply (wf_null _ _ _ (lib_syms _ _ lib)).
Qed.

(** Has the function been seen? *)
Lemma seen_flag s m c i : c ∈ U → ids0 !! c = Some i →
  negb (Z.land (di_flags (mark s m c i)) DT_IDFLG_REF =? 0) = bool_decide (c ∈ s).
Proof using lib.
  intros Hc Hi. unfold mark. cbn [set_id set_flags di_flags]. rewrite bool_decide_decide. case_decide.
  - rewrite Z.land_lor_distr_l, Z.land_diag, (fun_fresh c i) by done. done.
  - by rewrite (fun_fresh c i).
Qed.

(** ** The functions linked *)

(** A list of relocations whose functions are in the library. *)
Definition rels_in (d : dtrace_difo) (rs : list dof_relodesc) : Prop :=
  ∀ r c, r ∈ rs → callee d r = Some c → c ∈ U.

Lemma rels_in_cons d r rs : rels_in d (r :: rs) → rels_in d rs.
Proof using Type. intros H r' c Hr. apply H. by right. Qed.

Lemma rels_in_difo c d : c ∈ U → difo_of c = Some d → rels_in d (relocs c d).
Proof using lib. intros Hc Hd r c' Hr. by apply (lib_closed _ _ lib c d). Qed.

Lemma linked_in d rs clid prid s es cl B s' es' : linked d rs clid prid s es cl B s' es' → rels_in d rs →
  Forall (λ b, b_sym b ∈ U ∧ difo_of (b_sym b) = Some (b_difo b)) B.
Proof using lib.
  induction 1 as [|d r rs clid prid s es cl B s' es' Hc H IH|d r rs clid prid s es c rd epid es1 cl1 B1 s2 es2 cl B2 s3 es3
    Hc Hns Hrd He H1 IH1 H2 IH2]; intros Hin.
  - constructor.
  - eapply IH, rels_in_cons, Hin.
  - assert (c ∈ U) as HcU by (apply (Hin r); set_solver). constructor; [done|]. apply Forall_app. split.
    + by apply IH1, rels_in_difo.
    + eapply IH2, rels_in_cons, Hin.
Qed.

(** ** The layout *)

(** The look-ups for a relocation whose function is new. *)
Lemma new_fun d r c s m : unit_ok d → r ∈ dtdo_breltab d → rels_in d [r] → callee d r = Some c → c ∉ s →
  ∃ n i rd, dt_difo_getstr d (dofr_name r) = Some n ∧ cstring n ∧ ids0 !! c = Some i ∧ c ∈ U ∧ (c =? 0) = false ∧
    dt_dlib_get_sym syms (view s m) n = Some c ∧ dt_dlib_get_func syms (view s m) n = Some c ∧
    view s m !! c = Some (mark s m c i) ∧ di_kind (mark s m c i) = DT_IDENT_SYMBOL ∧
    (Z.land (di_flags (mark s m c i)) DT_IDFLG_REF =? 0) = true ∧
    (∀ hdl, dt_dlib_get_func_difo hdl (mark s m c i) = Some (di_data i, hdl)) ∧ (di_data i =? 0) = false ∧
    le_difos env !! di_data i = Some rd ∧ difo_of c = Some rd ∧ unit_ok rd.
Proof using lib.
  intros Hd Hr Hin Hc Hns. assert (c ∈ U) as HcU by (by apply (Hin r); [set_solver|]).
  destruct (fun_difo c HcU) as (i & rd & Hi & Hc0 & Hk & Hda & Hrd & Hdi & Hu).
  destruct (callee_target _ _ _ Hc) as (i' & Ht & Hi' & _). simplify_eq.
  destruct (reloc_cases d r Hd Hr) as (n & Hn & Hs & _ & Hfor).
  destruct Hfor as [?|a j Ht' Ha HaL Hj _ Hg Hf]; [congruence|]. rewrite Ht in Ht'. simplify_eq.
  exists n, j, rd. rewrite get_sym_view, get_func_view, view_lookup, Hi, Hf, Hk. pose proof (seen_flag s m a j HcU Hi) as Hsf.
  rewrite bool_decide_false in Hsf by done. apply negb_false_iff in Hsf.
  split_and!; try done; [by apply Z.eqb_neq|]. intros hdl. unfold dt_dlib_get_func_difo, mark.
  cbn [set_id set_flags di_kind di_data]. by rewrite Hk, Hda.
Qed.

Lemma size_seen c (s : gset Z) : c ∈ U → c ∉ s → base.size (U ∖ s) = S (base.size (U ∖ ({[c]} ∪ s))).
Proof using Type. clear lib.
  intros Hc Hs. assert (U ∖ s = {[c]} ∪ (U ∖ ({[c]} ∪ s))) as E.
  { apply set_eq. intros x. destruct (decide (x = c)); set_solver. }
  rewrite E, size_union, size_singleton by set_solver. done.
Qed.

Lemma size_new c (s : gset Z) fuel : c ∈ U → c ∉ s → (base.size (U ∖ s) <= fuel)%nat →
  ∃ f, fuel = S f ∧ (base.size (U ∖ ({[c]} ∪ s)) <= f)%nat.
Proof using Type. intros Hc Hs. rewrite (size_seen c) by done. destruct fuel as [|f]; [lia|]. exists f. split; [done|lia]. Qed.

Lemma size_more s s' fuel : s ⊆ s' → (base.size (U ∖ s) <= fuel)%nat → (base.size (U ∖ s') <= fuel)%nat.
Proof using Type. clear lib. intros Hs Hf. etransitivity; [apply subseteq_size|exact Hf]. set_solver. Qed.

Lemma layout_deps_spec d rs clid prid s es cl B s' es' : linked d rs clid prid s es cl B s' es' →
  ∀ fuel pc0 hdl m pc rc vc, unit_ok d → (∀ r, r ∈ rs → r ∈ dtdo_breltab d) → rels_in d rs →
  (base.size (U ∖ s) <= fuel)%nat → fits dtdo_len pc B → fits dtdo_brelen rc B → fits dtdo_varlen vc B →
  layout_deps env (dt_link_layout env fuel) d pc0 rs (mk_layout (view s m) hdl pc rc vc) =
    Some (s32 pc0, mk_layout (view s' (place pc B ∪ m)) hdl (pc + total dtdo_len B) (rc + total dtdo_brelen B)
                     (vc + total dtdo_varlen B)).
Proof using lib.
  intros Hl. pose proof Hl as Hl0. revert Hl0.
  induction Hl as [d clid prid s es|d r rs clid prid s es cl B s' es' Hc H IH|d r rs clid prid s es c rd epid es1 cl1 B1 s2 es2 cl B2 s3 es3
    Hc Hns Hrd He H1 IH1 H2 IH2]; intros Hl fuel pc0 hdl m pc rc vc Hd Hrs Hin Hfuel Hpc Hrc Hvc; cbn [layout_deps].
  - cbn [place total foldr]. by rewrite map_empty_union, !Z.add_0_r.
  - destruct (reloc_cases d r Hd) as (n & -> & _ & _ & Hn); [set_solver|]. cbn [mbind option_bind ly_ids ly_hdl ly_pc ly_rc ly_vc].
    rewrite get_func_view. specialize (IH H fuel pc0 hdl m pc rc vc Hd ltac:(set_solver) (rels_in_cons _ _ _ Hin) Hfuel Hpc Hrc Hvc).
    destruct Hn as [_ _ ->|a i Ht Ha HaL Hi _ _ ->]; cbn [mbind option_bind]; [done|].
    destruct (_ || _) eqn:Ek; [|done]. rewrite (proj2 (Z.eqb_neq a 0)) by done. rewrite view_lookup, Hi.
    cbn [fmap option_fmap option_map mbind option_bind].
    destruct (Z.eqb_spec (di_kind i) DT_IDENT_SYMBOL) as [Hk|Hk].
    + assert (callee d r = Some a) as Hca by (unfold callee; rewrite Ht; cbn; by rewrite (proj2 (Z.eqb_eq _ _) Hk)).
      rewrite (seen_flag s m a i); [|apply (Hin r); set_solver|done]. rewrite bool_decide_true by (by apply Hc).
      by rewrite orb_true_r.
    + unfold mark. cbn [set_id set_flags di_kind]. by rewrite (proj2 (Z.eqb_neq _ _) Hk).
  - destruct (new_fun d r c s m Hd) as (n & i & rd' & Hn & _ & Hi & HcU & Hc0 & _ & Hf & Hv & Hk & Hfl & Hgd & Hda & Hdi & Hrd' & Hrok);
      [set_solver|intros r' c' ? ?; apply (Hin r'); set_solver|done|done|]. rewrite Hrd in Hrd'. simplify_eq.
    rewrite Hn. cbn [mbind option_bind ly_ids ly_hdl ly_pc ly_rc ly_vc]. rewrite Hf. cbn [mbind option_bind].
    rewrite Hc0, Hv. cbn [mbind option_bind]. rewrite Hk, Hfl. change (DT_IDENT_SYMBOL =? DT_IDENT_SYMBOL) with true.
    cbn [negb orb]. rewrite Hgd. cbn [mbind option_bind]. rewrite Hda, Hdi. cbn [mbind option_bind].
    destruct (size_new c s fuel HcU Hns Hfuel) as (f & -> & Hf').
    destruct (fits_new _ _ _ _ _ len_nonneg Hpc) as (Ep & Es & Eu & Hm1 & Fp1 & Fp2 & Tp).
    destruct (fits_new _ _ _ _ _ brelen_nonneg Hrc) as (Er & _ & _ & _ & Fr1 & Fr2 & Tr).
    destruct (fits_new _ _ _ _ _ varlen_nonneg Hvc) as (Ev & _ & _ & _ & Fv1 & Fv2 & Tv).
    cbn [b_difo] in *.
    assert (dt_link_layout env (S f) rd' c (mk_layout (view s m) hdl pc rc vc) = Some (s32 pc,
      mk_layout (view s2 (place (pc + dtdo_len rd') B1 ∪ m)) hdl (pc + dtdo_len rd' + total dtdo_len B1)
        (rc + dtdo_brelen rd' + total dtdo_brelen B1) (vc + dtdo_varlen rd' + total dtdo_varlen B1))) as Hrec.
    { cbn [dt_link_layout ly_ids ly_hdl ly_pc ly_rc ly_vc]. rewrite (enter_view s m c i) by (done || by apply Z.eqb_neq).
      cbn [mbind option_bind]. rewrite Ep, Er, Ev. unfold relocs in IH1, H1.
      destruct (inlined c) eqn:Hinl.
      - inversion H1; subst. cbn [place total foldr]. by rewrite map_empty_union, !Z.add_0_r.
      - apply IH1; try done. pose proof (rels_in_difo c rd' HcU Hrd) as Hri. unfold relocs in Hri. by rewrite Hinl in Hri. }
    rewrite Hrec, Es. cbn [mbind option_bind]. rewrite (proj2 (Z.eqb_neq pc (-1))) by done. cbn [ly_ids ly_hdl ly_pc ly_rc ly_vc].
    rewrite view_lookup, Hi. cbn [fmap option_fmap option_map mbind option_bind]. rewrite view_place by done.
    destruct (linked_seen _ _ _ _ _ _ _ _ _ _ Hl) as (Hnd & _). destruct (linked_seen _ _ _ _ _ _ _ _ _ _ H1) as (_ & _ & Hs2).
    assert (s ⊆ s2) as Hs2' by (rewrite Hs2; clear; set_solver).
    rewrite (IH2 H2 (S f) pc0 hdl _ _ _ _ Hd (λ r' Hr', Hrs r' (list_elem_of_further _ _ _ Hr')) (rels_in_cons _ _ _ Hin)
               (size_more _ _ _ Hs2' Hfuel) Fp2 Fr2 Fv2).
    do 2 f_equal. f_equal; [|done|done|done]. f_equal. rewrite Eu, insert_union_l, map_union_assoc. f_equal.
    change (mk_block c rd' epid cl1 :: B1 ++ B2) with ((mk_block c rd' epid cl1 :: B1) ++ B2) in *.
    rewrite place_app by done. f_equal. f_equal. cbn [total foldr b_difo]. fold (total dtdo_len B1). lia.
Qed.

(** ** The functions that are needed can be found *)

Definition probe_known (hdl : dtrace_hdl) (prid : Z) : Prop :=
  ∃ desc, desc ≠ 0 ∧ dt_probes hdl !! Z.to_nat prid = Some desc.

(** There are data descriptions and probes for all functions, and room for
    their ids. *)
Record epids_ready (root : dtrace_difo) (s : gset Z) (es : ddheap * dtrace_hdl) : Prop := {
  er_mem hdl : le_mem env hdl = true;
  er_ids : ∃ E, epids es.2 E ∧ Z.of_nat (length E) + Z.of_nat (base.size (U ∖ s)) < 2 ^ 30;
  er_desc c d : c ∈ U → difo_of c = Some d → dtdo_ddesc d ≠ 0 → is_Some (es.1 !! dtdo_ddesc d);
  er_probe : probe_known es.2 (le_prid env);
  er_probes d r prid : d = root ∨ (∃ c, c ∈ U ∧ difo_of c = Some d) → r ∈ dtdo_breltab d → probe_known es.2 prid → probe_known es.2 (next_prid d r prid)
}.

Lemma new_epid_ok root s es c d prid : epids_ready root s es → c ∈ U → c ∉ s → difo_of c = Some d → probe_known es.2 prid →
  ∃ epid es', new_epid es d prid = Some (epid, es') ∧ epids_ready root ({[c]} ∪ s) es' ∧ dt_probes es'.2 = dt_probes es.2.
Proof using Type. clear lib.
  intros [Hm (E & HE & Hn) Hd Hp Hps] Hc Hns Hdi (desc & Hdesc & Hpr). rewrite (size_seen c s) in Hn by done.
  unfold new_epid. destruct (Z.eqb_spec (dtdo_ddesc d) 0) as [H0|H0].
  - exists 0, es. split; [done|]. split; [|done]. constructor; try done. exists E. split; [done|lia].
  - destruct (Hd c d Hc Hdi H0) as [dd Hdd]. rewrite Hm.
    destruct (epid_add_spec true es.1 es.2 E _ prid dd desc HE Hdd H0 Hdesc Hpr ltac:(lia)) as (r & h' & dtp' & -> & [[? _]|Hr]);
      [done|]. destruct Hr as (_ & HE' & Hpr' & ->). cbn [mbind option_bind]. do 2 eexists. split; [done|]. cbn [fst snd].
    split; [|done]. constructor; cbn [fst snd].
    + done.
    + exists (E ++ [(dtdo_ddesc d, desc)]). split; [done|]. rewrite length_app. cbn [length]. lia.
    + intros c' d' ? ? ?. destruct (decide (dtdo_ddesc d' = dtdo_ddesc d)) as [->|]; [by rewrite lookup_insert_eq|].
      rewrite lookup_insert_ne by done. by apply (Hd c').
    + unfold probe_known. by rewrite Hpr'.
    + unfold probe_known. rewrite Hpr'. exact Hps.
Qed.

Lemma linked_exists root n : ∀ d rs clid prid s es, (base.size (U ∖ s) <= n)%nat → unit_ok d → d = root ∨ (∃ c, c ∈ U ∧ difo_of c = Some d) →
  (∀ r, r ∈ rs → r ∈ dtdo_breltab d) → rels_in d rs → epids_ready root s es → probe_known es.2 prid →
  ∃ cl B s' es', linked d rs clid prid s es cl B s' es' ∧ epids_ready root s' es' ∧ dt_probes es'.2 = dt_probes es.2.
Proof using lib.
  induction n as [n IHn] using lt_wf_ind. intros d rs. induction rs as [|r rs IH]; intros clid prid s es Hn Hd Hun Hrs Hin He Hp.
  { do 4 eexists. split; [constructor|done]. }
  assert (∀ r', r' ∈ rs → r' ∈ dtdo_breltab d) as Hrs' by (intros; apply Hrs; set_solver).
  pose proof (rels_in_cons _ _ _ Hin) as Hin'.
  destruct (callee d r) as [c|] eqn:Hc; [destruct (decide (c ∈ s)) as [Hs|Hs]|].
  2:{ assert (c ∈ U) as HcU by (apply (Hin r); [set_solver|done]).
      destruct (fun_difo c HcU) as (i & rd & Hi & _ & _ & _ & _ & Hrd & Hu).
      destruct (new_epid_ok root s es c rd prid He HcU Hs Hrd Hp) as (epid & es1 & Hes1 & He1 & Hp1).
      pose proof (size_seen c s HcU Hs) as Hsz.
      destruct (IHn (base.size (U ∖ ({[c]} ∪ s))) ltac:(lia) rd (relocs c rd) (new_clid rd clid) (le_prid env)
                  ({[c]} ∪ s) es1 (Nat.le_refl _) Hu
                  ltac:(right; by exists c))
        as (cl1 & B1 & s2 & es2 & H1 & He2 & Hp2).
      - unfold relocs. destruct (inlined c); set_solver.
      - by apply rels_in_difo.
      - done.
      - apply (er_probe _ _ _ He1).
      - destruct (linked_seen _ _ _ _ _ _ _ _ _ _ H1) as (_ & _ & Hs2).
        destruct (IH (new_clid rd clid) prid s2 es2) as (cl & B2 & s3 & es3 & H2 & He3 & Hp3); [|done|done|done|done|done| |].
        { etransitivity; [apply subseteq_size|exact Hn]. set_solver. }
        { unfold probe_known. by rewrite Hp2, Hp1. }
        do 4 eexists. split; [by eapply linked_new|]. split; [done|congruence]. }
  all: destruct (IH clid (next_prid d r prid) s es) as (cl & B & s' & es' & H & He' & Hp'); try done;
    [apply (er_probes _ _ _ He); try done; apply Hrs; set_solver|].
  all: do 4 eexists; split; [eapply linked_skip; [|exact H]|done].
  - intros c' Hc'. congruence.
  - congruence.
Qed.

End Library.

End Graph.

End LinkGraph.
