(* ===== verification/LinkBuild.v ===== *)
(** * The linked DIFO

    What [dt_link_construct] puts into the arrays of the final DIFO: the code,
    the variables and the relocations of each function, one after the other. *)
From S2P Require Import Prelude CLib StrTable Ident DtMap DtAs DtLink LinkGraph.
#[local] Open Scope Z_scope.
Import Ident DtMap DtAs DtLink LinkGraph.

Module LinkBuild.

(** ** Arrays *)


(** The arrays agree but for the indices from [lo] to [hi]. *)
Definition keeps {A} (lo hi : Z) (a a' : list A) : Prop :=
  length a' = length a ∧ ∀ k : nat, Z.of_nat k < lo ∨ hi <= Z.of_nat k → a' !! k = a !! k.

Lemma keeps_refl {A} lo hi (a : list A) : keeps lo hi a a.
Proof. done. Qed.

Lemma keeps_trans {A} lo hi (a b c : list A) : keeps lo hi a b → keeps lo hi b c → keeps lo hi a c.
Proof. intros [L1 H1] [L2 H2]. split; [lia|]. intros k Hk. by rewrite H2, H1. Qed.

Lemma keeps_weaken {A} lo hi lo' hi' (a b : list A) : lo' <= lo → hi <= hi' → keeps lo hi a b → keeps lo' hi' a b.
Proof. intros ? ? [Hl H]. split; [done|]. intros k Hk. apply H. lia. Qed.

Lemma keeps_insert {A} i (a : list A) v : 0 <= i → keeps i (i + 1) a (<[Z.to_nat i := v]> a).
Proof. intros Hi. split; [apply length_insert|]. intros k Hk. apply list_lookup_insert_ne. lia. Qed.

Lemma keeps_step {A} p n (a a' : list A) v : 0 <= p < n → keeps (p + 1) n (<[Z.to_nat p := v]> a) a' → keeps p n a a'.
Proof.
  intros Hp Hk. eapply keeps_trans; [apply (keeps_weaken p (p + 1)); [lia|lia|apply keeps_insert; lia]|].
  apply (keeps_weaken (p + 1) n); [lia|lia|done].
Qed.

Section Tables.
Context {T : Type} `{!StringTable T, !StringTableLaws T}.

(** ** What the new tables have *)

Context (env : link_env) (ids0 : idheap) (L : list Z) (U : gset Z) (lib : library env ids0 L U).

(** The positions of the functions, and the boot time. *)
Context (G : gmap Z Z) (bootv : Z).

Definition position (c : Z) : Z := default DT_IDENT_UNDEF (G !! c).


(** The type and the value of a relocation of the function [d] at [base], which
    is [inl]ined or has the ids [epid] and [clid]. *)
Definition final_type (inl : bool) (d : dtrace_difo) (r : dof_relodesc) : Z :=
  match target env ids0 d r with
  | Some (_, i) => if inl && (di_kind i =? DT_IDENT_SCALAR) then R_BPF_NONE else dofr_type r
  | None => dofr_type r
  end.

Definition final_data (inl : bool) (epid clid base : Z) (d : dtrace_difo) (r : dof_relodesc) : Z :=
  match target env ids0 d r with
  | Some (a, i) =>
      if di_kind i =? DT_IDENT_SCALAR then
        if inl then dofr_data r
        else match const_value env epid clid (di_id i) with
             | Some v => u64 v
             | None => if di_id i =? DT_CONST_BOOTTM then u64 bootv else dofr_data r
             end
      else if di_kind i =? DT_IDENT_SYMBOL then if inl then u64 (dofr_data r + base) else position a
      else dofr_data r
  | None => dofr_data r
  end.

(** ... and the value as the relocation is copied. *)
Definition copied_data (d : dtrace_difo) (r : dof_relodesc) : Z :=
  match callee env ids0 d r with Some c => position c | None => dofr_data r end.

Record entry (tab : T) (d : dtrace_difo) (base : Z) (r : dof_relodesc) (type data : Z) (nr : dof_relodesc) : Prop := {
  en_name : tab_stored tab (dofr_name nr) (rname d r);
  en_type : dofr_type nr = type;
  en_offset : dofr_offset nr = dofr_offset r + 8 * base;
  en_data : dofr_data nr = data
}.

Definition vname (d : dtrace_difo) (v : dtrace_difv) : list Z := default [] (dt_difo_getstr d (dtdv_name v)).

Record var_entry (tab : T) (d : dtrace_difo) (base : Z) (v nv : dtrace_difv) : Prop := {
  ve_name : tab_stored tab (dtdv_name nv) (vname d v);
  ve_rest : nv = mk_difv (dtdv_name nv) (dtdv_id v) (dtdv_offset v) (dtdv_kind v) (dtdv_scope v)
    (u32 (dtdv_insn_from v + base)) (u32 (dtdv_insn_to v + base)) (dtdv_flags v) (dtdv_type v)
}.

(** The elements of [l], related by [R] to those of the array [a] from [p] on. *)
Definition seg {A B} (R : nat → A → B → Prop) (l : list A) (a : list B) (p : Z) : Prop :=
  ∀ j x, l !! j = Some x → ∃ y, a !! (Z.to_nat p + j)%nat = Some y ∧ R j x y.

Definition code_there (buf : list bpf_insn) (p : Z) (b : block) : Prop :=
  seg (λ _ x y, y = x) (dtdo_buf (b_difo b)) buf p.

Definition vars_there (tab : T) (vars : list dtrace_difv) (p base : Z) (b : block) : Prop :=
  seg (λ _, var_entry tab (b_difo b) base) (dtdo_vartab (b_difo b)) vars p.

Definition b_final (b : block) (base : Z) (j : nat) (r : dof_relodesc) : Z :=
  final_data (inlined ids0 (b_sym b)) (b_epid b) (default 0 (b_clids b !! j)) base (b_difo b) r.

Definition rels_there (tab : T) (rels : list dof_relodesc) (p base : Z) (b : block) : Prop :=
  seg (λ j r, entry tab (b_difo b) base r (final_type (inlined ids0 (b_sym b)) (b_difo b) r) (b_final b base j r))
    (dtdo_breltab (b_difo b)) rels p.

(** A property of the functions, each with its index in an array and its position. *)
Fixpoint along (f : dtrace_difo → Z) (P : Z → Z → block → Prop) (p base : Z) (B : list block) : Prop :=
  match B with
  | [] => True
  | b :: B => P p base b ∧ along f P (p + f (b_difo b)) (base + b_len b) B
  end.

Lemma along_app f P p base B1 B2 :
  along f P p base (B1 ++ B2) ↔ along f P p base B1 ∧ along f P (p + total f B1) (base + total dtdo_len B1) B2.
Proof.
  revert p base. induction B1 as [|b B1 IH]; intros p base; cbn [app along total foldr].
  - rewrite !Z.add_0_r. tauto.
  - fold (total f B1) (total dtdo_len B1). unfold b_len. rewrite IH, !Z.add_assoc. tauto.
Qed.

Lemma along_mono f (P Q : Z → Z → block → Prop) p base B : (∀ d, 0 <= f d) →
  (∀ p' base' b, p <= p' → p' + f (b_difo b) <= p + total f B → P p' base' b → Q p' base' b) →
  along f P p base B → along f Q p base B.
Proof.
  intros Hf. revert p base. induction B as [|b B IH]; intros p base HPQ; cbn [along total foldr] in *; [done|].
  fold (total f B) in *. pose proof (total_nonneg f B Hf). pose proof (Hf (b_difo b)).
  intros [H1 H2]. split; [apply HPQ; try lia; done|]. apply IH; [|done]. intros ? ? ? ? ?. apply HPQ; lia.
Qed.

Lemma seg_keeps {A B} (R : nat → A → B → Prop) (l : list A) a a' p lo hi :
  keeps lo hi a a' → 0 <= p → p + Z.of_nat (length l) <= lo ∨ hi <= p → seg R l a p → seg R l a' p.
Proof.
  intros [_ Hk] Hp Hr Hs j x Hx. destruct (Hs j x Hx) as (y & Hy & HR). exists y. split; [|done].
  apply lookup_lt_Some in Hx. rewrite Hk; [done|]. lia.
Qed.

Lemma seg_impl {A B} (R R' : nat → A → B → Prop) (l : list A) a p :
  (∀ j x y, R j x y → R' j x y) → seg R l a p → seg R' l a p.
Proof. intros HR Hs j x Hx. destruct (Hs j x Hx) as (y & Hy & H). eauto. Qed.

Lemma entry_grows n t t' d base r ty da nr : tab_grows n t t' → entry t d base r ty da nr → entry t' d base r ty da nr.
Proof. intros Hg []. constructor; [by eapply tg_stored|done..]. Qed.

Lemma var_entry_grows n t t' d base v nv : tab_grows n t t' → var_entry t d base v nv → var_entry t' d base v nv.
Proof. intros Hg []. constructor; [by eapply tg_stored|done]. Qed.

(** ** Copying *)

(** The bytes of the names. *)
Definition rstrs (d : dtrace_difo) (rs : list dof_relodesc) : Z :=
  foldr (λ r n, Z.of_nat (length (rname d r)) + 1 + n) 0 rs.
Definition vstrs (d : dtrace_difo) (vs : list dtrace_difv) : Z :=
  foldr (λ v n, Z.of_nat (length (vname d v)) + 1 + n) 0 vs.
Definition strs (d : dtrace_difo) : Z := vstrs d (dtdo_vartab d) + rstrs d (dtdo_breltab d).

Lemma rstrs_nonneg d rs : 0 <= rstrs d rs.
Proof. unfold rstrs. induction rs; cbn [foldr]; lia. Qed.
Lemma vstrs_nonneg d vs : 0 <= vstrs d vs.
Proof. unfold vstrs. induction vs; cbn [foldr]; lia. Qed.
Lemma strs_nonneg d : 0 <= strs d.
Proof. unfold strs. pose proof (rstrs_nonneg d (dtdo_breltab d)). pose proof (vstrs_nonneg d (dtdo_vartab d)). lia. Qed.

Lemma seg_cons {A B} (R : nat → A → B → Prop) x l (a : list B) p : 0 <= p →
  seg R (x :: l) a p ↔ (∃ y, a !! Z.to_nat p = Some y ∧ R 0%nat x y) ∧ seg (λ j, R (S j)) l a (p + 1).
Proof.
  intros Hp. assert (∀ j, (Z.to_nat (p + 1) + j = Z.to_nat p + S j)%nat) as E by lia. split.
  - intros H. split.
    + destruct (H 0%nat x eq_refl) as (y & Hy & HR). rewrite Nat.add_0_r in Hy. eauto.
    + intros j z Hz. rewrite E. by apply H.
  - intros [(y & Hy & HR) H] [|j] z Hz.
    + cbn in Hz. simplify_eq. rewrite Nat.add_0_r. eauto.
    + rewrite <- E. by apply H.
Qed.

(** An element is stored at [p], and others after it. *)
Lemma seg_store {A B} (R : nat → A → B → Prop) x l (a a' : list B) y p n :
  0 <= p < Z.of_nat (length a) → keeps (p + 1) n (<[Z.to_nat p := y]> a) a' → R 0%nat x y →
  seg (λ j, R (S j)) l a' (p + 1) → seg R (x :: l) a' p.
Proof.
  intros Hp [_ Hk] HR Hs. apply seg_cons; [lia|]. split; [|done]. exists y. rewrite Hk by lia.
  split; [apply list_lookup_insert_eq; lia|done].
Qed.

Lemma copy_vars_spec d pc vps : unit_ok env ids0 d → (∀ v, v ∈ vps → v ∈ dtdo_vartab d) → ∀ vc st,
  tab_ok (lk_stab st) → tab_used (lk_stab st) + vstrs d vps < 2 ^ 31 →
  0 <= vc → vc + Z.of_nat (length vps) <= Z.of_nat (length (lk_vartab st)) →
  ∃ tab vars, copy_vars d pc vps vc st = Some (set_vartab st tab vars) ∧
    tab_grows (vstrs d vps) (lk_stab st) tab ∧ keeps vc (vc + Z.of_nat (length vps)) (lk_vartab st) vars ∧
    seg (λ _, var_entry tab d pc) vps vars vc.
Proof.
  intros Hd. induction vps as [|v vps IH]; intros Hin vc st Ht Hu Hv Hl; cbn [copy_vars].
  - exists (lk_stab st), (lk_vartab st). destruct st. split_and!; [done|by apply tab_grows_refl|apply keeps_refl|].
    intros j x Hx. done.
  - destruct (uo_var _ _ _ Hd v) as (n & Hn & Hs); [set_solver|].
    assert (vname d v = n) as Hvn by (unfold vname; by rewrite Hn). cbn [vstrs foldr] in *. fold (vstrs d vps) in *.
    rewrite Hn. cbn [mbind option_bind]. rewrite Hvn in *. pose proof (vstrs_nonneg d vps). cbn [length] in Hl.
    destruct (tab_insert_grows (lk_stab st) n Ht Hs ltac:(lia)) as (off & t & -> & Hg & Hst & Hoff). cbn [mbind option_bind].
    rewrite assign_spec by lia. cbn [mbind option_bind]. set (nv := mk_difv _ _ _ _ _ _ _ _ _).
    destruct (IH ltac:(set_solver) (vc + 1) (set_vartab st t (<[Z.to_nat vc := nv]> (lk_vartab st))))
      as (tab & vars & -> & Hg' & Hk & Hseg); cbn [set_vartab lk_stab lk_vartab] in *;
      [apply Hg|destruct Hg; lia|lia|rewrite length_insert; lia|].
    exists tab, vars. split_and!; [done|by eapply tab_grows_trans| |].
    + cbn [length]. rewrite Nat2Z.inj_succ, <- Z.add_1_l, Z.add_assoc. eapply keeps_step; [lia|exact Hk].
    + eapply seg_store; [|exact Hk| |exact Hseg]; [lia|]. constructor; cbn.
      * rewrite Hoff, Hvn. by eapply tg_stored.
      * done.
Qed.

Lemma mark_id s a i : a ∈ L → ids0 !! a = Some i → di_kind i = DT_IDENT_SYMBOL → di_id (mark s G a i) = position a.
Proof using lib.
  intros Ha Hi Hk. unfold mark, position. cbn [set_id di_id].
  by rewrite (proj2 (lib_fresh _ _ _ _ lib a i Ha Hi Hk)).
Qed.

Lemma offset_shift d r pc : unit_ok env ids0 d → r ∈ dtdo_breltab d → 0 <= pc → pc + dtdo_len d < 2 ^ 31 →
  u64 (dofr_offset r + u64 (pc * 8)) = dofr_offset r + 8 * pc.
Proof.
  intros Hd Hr Hpc Hl. destruct (uo_data _ _ _ Hd r Hr) as [_ Ho].
  assert (dofr_offset r / 8 < dtdo_len d) as Hlt.
  { apply (uo_range _ _ _ Hd r); [done|]. unfold touched. case_match; set_solver. }
  pose proof (Z.div_mod (dofr_offset r) 8 ltac:(lia)). pose proof (Z.mod_pos_bound (dofr_offset r) 8 ltac:(lia)).
  rewrite (wrap_id 64 (pc * 8)) by (unfold urange; lia). rewrite wrap_id by (unfold urange; lia). lia.
Qed.

(** The value that is copied. *)
Lemma copied_lookup d r n s : reloc_for env ids0 L d r n →
  ∃ a, dt_dlib_get_func (le_syms env) (view ids0 s G) n = Some a ∧
    (if a =? 0 then Some (dofr_data r)
     else i ← view ids0 s G !! a; Some (if negb (di_kind i =? DT_IDENT_SYMBOL) then dofr_data r else di_id i)) =
    Some (copied_data d r).
Proof using lib.
  intros Hf. rewrite get_func_view. unfold copied_data, callee. destruct Hf as [-> _ ->|a i -> Ha HaL Hi _ _ ->].
  - by exists 0.
  - eexists. split; [done|]. cbn [mbind option_bind]. rewrite view_lookup.
    destruct (Z.eqb_spec (di_kind i) DT_IDENT_SYMBOL) as [Hk|Hk].
    + rewrite orb_true_r, (proj2 (Z.eqb_neq a 0)), Hi by done. cbn [fmap option_fmap option_map mbind option_bind].
      change (di_kind (mark s G a i)) with (di_kind i). rewrite Hk, (mark_id s a i) by done. done.
    + destruct (di_kind i =? DT_IDENT_FUNC); cbn [orb]; [|done]. rewrite (proj2 (Z.eqb_neq a 0)), Hi by done.
      cbn [fmap option_fmap option_map mbind option_bind]. change (di_kind (mark s G a i)) with (di_kind i).
      by rewrite (proj2 (Z.eqb_neq _ _) Hk).
Qed.

Lemma copy_relocs_spec d pc s rps : unit_ok env ids0 d → (∀ r, r ∈ rps → r ∈ dtdo_breltab d) →
  0 <= pc → pc + dtdo_len d < 2 ^ 31 → ∀ rc st, lk_ids st = view ids0 s G →
  tab_ok (lk_stab st) → tab_used (lk_stab st) + rstrs d rps < 2 ^ 31 →
  0 <= rc → rc + Z.of_nat (length rps) <= Z.of_nat (length (lk_breltab st)) →
  ∃ tab rels, copy_relocs env d pc rps rc st = Some (set_breltab st tab rels) ∧
    tab_grows (rstrs d rps) (lk_stab st) tab ∧ keeps rc (rc + Z.of_nat (length rps)) (lk_breltab st) rels ∧
    seg (λ _ r, entry tab d pc r (dofr_type r) (copied_data d r)) rps rels rc.
Proof using lib.
  intros Hd Hin Hpc Hlen. induction rps as [|r rps IH]; intros rc st Hids Ht Hu Hv Hl; cbn [copy_relocs].
  - exists (lk_stab st), (lk_breltab st). destruct st. split_and!; [done|by apply tab_grows_refl|apply keeps_refl|].
    intros j x Hx. done.
  - assert (r ∈ dtdo_breltab d) as Hr by (apply Hin; set_solver).
    destruct (reloc_cases _ _ _ _ lib d r Hd Hr) as (n & Hn & Hs & Hrn & Hfor).
    destruct (copied_lookup d r n s Hfor) as (a & Hf & Hdata).
    cbn [rstrs foldr] in *. fold (rstrs d rps) in *. rewrite Hn, Hids. cbn [mbind option_bind]. rewrite Hrn in *.
    pose proof (rstrs_nonneg d rps). cbn [length] in Hl. rewrite Hf. cbn [mbind option_bind].
    destruct (tab_insert_grows (lk_stab st) n Ht Hs ltac:(lia)) as (off & t & -> & Hg & Hst & Hoff). cbn [mbind option_bind].
    rewrite Hdata. cbn [mbind option_bind]. rewrite assign_spec by lia. cbn [mbind option_bind]. set (nr := mk_relo _ _ _ _).
    destruct (IH ltac:(set_solver) (rc + 1) (set_breltab st t (<[Z.to_nat rc := nr]> (lk_breltab st))))
      as (tab & rels & -> & Hg' & Hk & Hseg); cbn [set_breltab lk_stab lk_breltab lk_ids] in *;
      [done|apply Hg|destruct Hg; lia|lia|rewrite length_insert; lia|].
    exists tab, rels. split_and!; [done|by eapply tab_grows_trans| |].
    + cbn [length]. rewrite Nat2Z.inj_succ, <- Z.add_1_l, Z.add_assoc. eapply keeps_step; [lia|exact Hk].
    + eapply seg_store; [|exact Hk| |exact Hseg]; [lia|]. constructor; cbn; try done.
      * rewrite Hoff, Hrn. by eapply tg_stored.
      * by apply (offset_shift d).
Qed.

(** ** Growing *)

Definition is_destructive (b : block) : bool := negb (Z.land (dtdo_flags (b_difo b)) DIFOFLG_DESTRUCTIVE =? 0).
Definition add_flags (flags : Z) (B : list block) : Z :=
  if existsb is_destructive B then Z.lor flags DIFOFLG_DESTRUCTIVE else flags.

(** Reading the boot time gives [bootv]. *)
Definition boot_ok (boot : Z) : Prop := (if boot =? 0 then get_boottime env boot else (0, boot)) = (0, bootv).

(** The arrays agree below [p], but for the indices from [lo] to [hi], and from [q] on. *)
Definition keeps_but {A} (lo hi p q : Z) (a a' : list A) : Prop :=
  length a' = length a ∧
  ∀ k : nat, Z.of_nat k < p ∧ (Z.of_nat k < lo ∨ hi <= Z.of_nat k) ∨ q <= Z.of_nat k → a' !! k = a !! k.

(** The functions [B] have been added to the arrays; relocations that were
    there have changed between [lo] and [hi] only. *)
Record grown (lo hi : Z) (st st' : link) (B : list block) : Prop := {
  gr_tab : tab_grows (total strs B) (lk_stab st) (lk_stab st');
  gr_pc : lk_pc st' = lk_pc st + total dtdo_len B;
  gr_rc : lk_rc st' = lk_rc st + total dtdo_brelen B;
  gr_vc : lk_vc st' = lk_vc st + total dtdo_varlen B;
  gr_buf : keeps (lk_pc st) (lk_pc st') (lk_buf st) (lk_buf st');
  gr_vars : keeps (lk_vc st) (lk_vc st') (lk_vartab st) (lk_vartab st');
  gr_rels : keeps_but lo hi (lk_rc st) (lk_rc st') (lk_breltab st) (lk_breltab st');
  gr_code : along dtdo_len (λ p _, code_there (lk_buf st') p) (lk_pc st) (lk_pc st) B;
  gr_var : along dtdo_varlen (vars_there (lk_stab st') (lk_vartab st')) (lk_vc st) (lk_pc st) B;
  gr_rel : along dtdo_brelen (rels_there (lk_stab st') (lk_breltab st')) (lk_rc st) (lk_pc st) B;
  gr_boot : boot_ok (lk_boot st')
}.

Definition nonneg (st : link (T:=T)) : Prop := 0 <= lk_pc st ∧ 0 <= lk_rc st ∧ 0 <= lk_vc st.

Lemma add_flags_app flags B1 B2 : add_flags (add_flags flags B1) B2 = add_flags flags (B1 ++ B2).
Proof.
  unfold add_flags. rewrite existsb_app. destruct (existsb is_destructive B1), (existsb is_destructive B2); cbn [orb]; try done.
  by rewrite <- Z.lor_assoc, Z.lor_diag.
Qed.

Lemma grown_nonneg lo hi st st' B : grown lo hi st st' B → nonneg st → nonneg st'.
Proof.
  intros [] (? & ? & ?). unfold nonneg. pose proof (total_nonneg _ B len_nonneg). pose proof (total_nonneg _ B brelen_nonneg).
  pose proof (total_nonneg _ B varlen_nonneg). lia.
Qed.

Lemma grown_weaken lo hi lo' hi' st st' B : lo' <= lo → hi <= hi' → grown lo hi st st' B → grown lo' hi' st st' B.
Proof. intros ? ? []. constructor; try done. destruct gr_rels0 as [? Hk]. split; [done|]. intros k Hr. apply Hk. lia. Qed.

(** The tables of functions that are there stay when others are added. *)
Lemma code_stays buf buf' p q B pc : 0 <= pc → keeps p q buf buf' → pc + total dtdo_len B <= p →
  along dtdo_len (λ p _, code_there buf p) pc pc B → along dtdo_len (λ p _, code_there buf' p) pc pc B.
Proof.
  intros Hpc Hk Hp. apply along_mono; [apply len_nonneg|]. intros p' _ b Hp1 Hp2. apply (seg_keeps _ _ _ _ _ p q Hk); [lia|].
  left. fold (dtdo_len (b_difo b)). lia.
Qed.

Lemma vars_stay n tab tab' vars vars' p q B vc pc : 0 <= vc → tab_grows n tab tab' → keeps p q vars vars' →
  vc + total dtdo_varlen B <= p →
  along dtdo_varlen (vars_there tab vars) vc pc B → along dtdo_varlen (vars_there tab' vars') vc pc B.
Proof.
  intros Hpc Hg Hk Hp. apply along_mono; [apply varlen_nonneg|]. intros p' base b Hp1 Hp2 Hs.
  eapply seg_impl; [intros j x y; by eapply var_entry_grows|]. eapply (seg_keeps _ _ _ _ _ p q Hk); [lia| |exact Hs].
  left. fold (dtdo_varlen (b_difo b)). lia.
Qed.

Lemma rels_stay n tab tab' rels rels' lo hi p q B rc pc : 0 <= rc → hi <= rc → tab_grows n tab tab' →
  keeps_but lo hi p q rels rels' → rc + total dtdo_brelen B <= p →
  along dtdo_brelen (rels_there tab rels) rc pc B → along dtdo_brelen (rels_there tab' rels') rc pc B.
Proof.
  intros Hpc Hhi Hg [_ Hk] Hp. apply along_mono; [apply brelen_nonneg|]. intros p' base b Hp1 Hp2 Hs j r Hr.
  destruct (Hs j r Hr) as (nr & Hnr & He). exists nr. split; [|by eapply entry_grows].
  apply lookup_lt_Some in Hr. assert (Z.of_nat j < dtdo_brelen (b_difo b)) by (unfold dtdo_brelen; lia). rewrite Hk; [done|]. lia.
Qed.

Lemma grown_trans lo hi st st1 st2 B1 B2 : nonneg st → hi <= lk_rc st →
  grown lo hi st st1 B1 → grown lo hi st1 st2 B2 → grown lo hi st st2 (B1 ++ B2).
Proof.
  intros (? & ? & ?) Hhi [] []. pose proof (total_nonneg _ B1 len_nonneg). pose proof (total_nonneg _ B1 brelen_nonneg).
  pose proof (total_nonneg _ B1 varlen_nonneg). pose proof (total_nonneg _ B2 len_nonneg). pose proof (total_nonneg _ B2 brelen_nonneg).
  pose proof (total_nonneg _ B2 varlen_nonneg). constructor; rewrite ?total_app, ?along_app; try lia; try done.
  - by eapply tab_grows_trans.
  - eapply keeps_trans; (eapply keeps_weaken; [| |eassumption]; lia).
  - eapply keeps_trans; (eapply keeps_weaken; [| |eassumption]; lia).
  - destruct gr_rels0 as [? K1], gr_rels1 as [? K2]. split; [lia|]. intros k Hk. rewrite K2, K1 by lia. done.
  - rewrite <- gr_pc0. split; [|done]. by eapply code_stays; [..|exact gr_code0]; [done|eassumption|lia].
  - rewrite <- gr_pc0, <- gr_vc0. split; [|done]. by eapply vars_stay; [..|exact gr_var0]; [done|done|eassumption|lia].
  - rewrite <- gr_pc0, <- gr_rc0. split; [|done]. by eapply rels_stay; [..|exact gr_rel0]; [done|exact Hhi|done|eassumption|lia].
Qed.

(** ** One relocation *)

(** Setting a relocation, and what is not an array, adds nothing. *)
Lemma grown_set st st' n nr : lk_stab st' = lk_stab st → lk_pc st' = lk_pc st → lk_rc st' = lk_rc st → lk_vc st' = lk_vc st →
  lk_buf st' = lk_buf st → lk_vartab st' = lk_vartab st → lk_breltab st' = <[Z.to_nat n := nr]> (lk_breltab st) →
  tab_ok (lk_stab st) → boot_ok (lk_boot st') → 0 <= n < lk_rc st → grown n (n + 1) st st' [].
Proof.
  intros Es Ep Er Ev Eb Ea Ee Ht Hb Hn. constructor; rewrite ?Es, ?Ep, ?Er, ?Ev, ?Eb, ?Ea, ?Ee; cbn [total foldr along];
    rewrite ?Z.add_0_r; try done.
  - by apply tab_grows_refl.
  - split; [apply length_insert|]. intros k Hk. apply list_lookup_insert_ne. lia.
Qed.

Lemma grown_refl lo hi st : tab_ok (lk_stab st) → boot_ok (lk_boot st) → grown lo hi st st [].
Proof.
  intros Ht Hb. constructor; cbn [total foldr along]; rewrite ?Z.add_0_r; try done. by apply tab_grows_refl.
Qed.

Lemma boot_ok_value boot : boot_ok boot → boot_ok bootv.
Proof.
  unfold boot_ok. intros H. destruct (Z.eqb_spec bootv 0) as [E|E]; [|done].
  destruct (Z.eqb_spec boot 0) as [Eb|Eb]; [by rewrite E, <- Eb at 1|]. congruence.
Qed.

(** Setting the value or the type of the [n]th relocation. *)
Lemma set_data_spec (st : link (T:=T)) n nr v : lk_breltab st !! Z.to_nat n = Some nr → 0 <= n →
  set_data st n v = Some (set_breltab st (lk_stab st)
    (<[Z.to_nat n := mk_relo (dofr_name nr) (dofr_type nr) (dofr_offset nr) (u64 v)]> (lk_breltab st))).
Proof.
  intros Hn H0. unfold set_data. rewrite Hn. cbn [mbind option_bind]. apply lookup_lt_Some in Hn.
  rewrite assign_spec by lia. done.
Qed.

Lemma set_type_spec (st : link (T:=T)) n nr v : lk_breltab st !! Z.to_nat n = Some nr → 0 <= n →
  set_type st n v = Some (set_breltab st (lk_stab st)
    (<[Z.to_nat n := mk_relo (dofr_name nr) v (dofr_offset nr) (dofr_data nr)]> (lk_breltab st))).
Proof.
  intros Hn H0. unfold set_type. rewrite Hn. cbn [mbind option_bind]. apply lookup_lt_Some in Hn.
  rewrite assign_spec by lia. done.
Qed.

(** What one relocation, the [n]th, leads to if no function is added. *)
Record processed (d : dtrace_difo) (base type data : Z) (r : dof_relodesc) (n : Z) (st st1 : link) : Prop := {
  pr_grown : grown n (n + 1) st st1 [];
  pr_ids : lk_ids st1 = lk_ids st;
  pr_dd : lk_dd st1 = lk_dd st;
  pr_hdl : lk_hdl st1 = lk_hdl st;
  pr_flags : lk_flags st1 = lk_flags st;
  pr_entry : ∃ nr, lk_breltab st1 !! Z.to_nat n = Some nr ∧ entry (lk_stab st1) d base r type data nr
}.

Lemma processed_same d base r n st nr type data : tab_ok (lk_stab st) → boot_ok (lk_boot st) →
  lk_breltab st !! Z.to_nat n = Some nr → entry (lk_stab st) d base r type data nr →
  processed d base type data r n st st.
Proof. intros. constructor; try done; [by apply grown_refl|eauto]. Qed.

Lemma processed_set d base r n st boot nr type data type' data' : tab_ok (lk_stab st) → boot_ok boot →
  0 <= n < lk_rc st → lk_breltab st !! Z.to_nat n = Some nr → entry (lk_stab st) d base r type data nr →
  processed d base type' data' r n st (set_breltab (set_boot st boot) (lk_stab st)
    (<[Z.to_nat n := mk_relo (dofr_name nr) type' (dofr_offset nr) data']> (lk_breltab st))).
Proof.
  intros Ht Hb Hn Hnr []. constructor; try done; [by eapply grown_set|]. eexists. split.
  - cbn. apply list_lookup_insert_eq. by eapply lookup_lt_Some.
  - by constructor.
Qed.

Lemma set_boot_same (st : link (T:=T)) : set_boot st (lk_boot st) = st.
Proof. by destruct st. Qed.

Context (HG : ∀ a p, G !! a = Some p → a ∈ U).

Lemma mark_const s a i : ids0 !! a = Some i → di_kind i ≠ DT_IDENT_SYMBOL → di_id (mark s G a i) = di_id i.
Proof using lib HG.
  intros Hi Hk. unfold mark. cbn [set_id di_id]. destruct (G !! a) as [p|] eqn:E; [|done].
  destruct (lib_fun _ _ _ _ lib a (HG _ _ E)) as (i' & d & Hi' & Hk' & _). simplify_eq.
Qed.

(** A constant. *)
Lemma construct_const_spec s a i d r n epid clid prid base st nr : ids0 !! a = Some i → is_Some (di_name i) →
  target env ids0 d r = Some (a, i) → di_kind i = DT_IDENT_SCALAR →
  tab_ok (lk_stab st) → boot_ok (lk_boot st) → 0 <= n < lk_rc st →
  lk_breltab st !! Z.to_nat n = Some nr → entry (lk_stab st) d base r (dofr_type r) (dofr_data r) nr →
  ∃ st1, construct_const env (mark s G a i) r n epid clid prid st = Some (Some (next_prid env ids0 d r prid), st1) ∧
    processed d base (dofr_type r) (final_data false epid clid base d r) r n st st1.
Proof using lib HG.
  intros Hi [nm Hnm] Ht Hk Htab Hb Hn Hnr He. unfold construct_const.
  rewrite (mark_const s a i) by (done || by rewrite Hk). unfold next_prid, final_data. rewrite Ht, Hk, Hnm.
  change (di_name (mark s G a i)) with (di_name i). rewrite Hnm. cbn [mbind option_bind default from_option id].
  change (DT_IDENT_SCALAR =? DT_IDENT_SCALAR) with true. cbn [andb].
  assert (∀ x, const_value env epid clid x = None → negb ((1 <=? x) && (x <=? 10)) = negb (x =? DT_CONST_BOOTTM)) as Hcn.
  { intros x. unfold const_value, DT_CONST_EPID, DT_CONST_PRID, DT_CONST_CLID, DT_CONST_ARGC, DT_CONST_STBSZ, DT_CONST_STRSZ,
      DT_CONST_NSPEC, DT_CONST_NCPUS, DT_CONST_STKSIZ, DT_CONST_BOOTTM. repeat case_match; try done. intros _. lia. }
  assert (∀ x v, const_value env epid clid x = Some v → negb ((1 <=? x) && (x <=? 10)) = false) as Hcs.
  { intros x v. unfold const_value, DT_CONST_EPID, DT_CONST_PRID, DT_CONST_CLID, DT_CONST_ARGC, DT_CONST_STBSZ, DT_CONST_STRSZ,
      DT_CONST_NSPEC, DT_CONST_NCPUS, DT_CONST_STKSIZ, DT_CONST_BOOTTM. repeat case_match; try done; intros _; lia. }
  destruct (const_value env epid clid (di_id i)) as [v|] eqn:Ec.
  - rewrite (Hcs _ _ Ec), (set_data_spec st n nr) by (done || lia). cbn [mbind option_bind andb]. eexists. split; [done|].
    rewrite (en_type _ _ _ _ _ _ _ He). rewrite <- (set_boot_same st) at 2. by eapply processed_set.
  - rewrite (Hcn _ Ec). destruct (Z.eqb_spec (di_id i) DT_CONST_BOOTTM) as [Eb|Eb]; cbn [negb andb].
    + unfold boot_ok in Hb. rewrite Hb. cbn [negb Z.eqb]. pose proof (boot_ok_value _ Hb) as Hb'.
      rewrite (set_data_spec _ n nr) by (done || lia). cbn [mbind option_bind]. eexists. split; [done|].
      rewrite (en_type _ _ _ _ _ _ _ He).
      exact (processed_set d base r n st bootv nr _ _ _ _ Htab Hb' Hn Hnr He).
    + eexists. split; [done|]. by eapply processed_same.
Qed.


(** A relocation that adds no function. *)
Lemma construct_skip rec d r rs base epid n clid prid s st nr :
  unit_ok env ids0 d → r ∈ dtdo_breltab d → rels_in env ids0 U d [r] → (∀ c, callee env ids0 d r = Some c → c ∈ s) →
  lk_ids st = view ids0 s G → tab_ok (lk_stab st) → boot_ok (lk_boot st) → 0 <= n < lk_rc st →
  lk_breltab st !! Z.to_nat n = Some nr → entry (lk_stab st) d base r (dofr_type r) (copied_data d r) nr →
  ∃ st1, construct_deps env rec false d base epid (r :: rs) n clid prid st =
      construct_deps env rec false d base epid rs (n + 1) clid (next_prid env ids0 d r prid) st1 ∧
    processed d base (final_type false d r) (final_data false epid clid base d r) r n st st1.
Proof using lib HG.
  intros Hd Hr Hin Hseen Hids Ht Hb Hn Hnr He. cbn [construct_deps].
  destruct (reloc_cases _ _ _ _ lib d r Hd Hr) as (nm & -> & _ & _ & Hfor). cbn [mbind option_bind]. rewrite Hids, get_sym_view.
  assert (final_type false d r = dofr_type r) as -> by (unfold final_type; repeat case_match; done).
  destruct Hfor as [Htg -> _|a i Htg Ha HaL Hi Hname -> _]; cbn [mbind option_bind].
  { unfold next_prid, final_data, copied_data, callee in *. rewrite Htg in *. exists st. split; [done|]. by eapply processed_same. }
  rewrite (proj2 (Z.eqb_neq a 0)), view_lookup, Hi by done. cbn [fmap option_fmap option_map mbind option_bind].
  change (di_kind (mark s G a i)) with (di_kind i).
  assert (∀ k, di_kind i = k → k ≠ DT_IDENT_SYMBOL → callee env ids0 d r = None) as Hnc.
  { intros k Hk Hne. unfold callee. rewrite Htg. cbn. by rewrite (proj2 (Z.eqb_neq (di_kind i) _)) by congruence. }
  destruct (Z.eqb_spec (di_kind i) DT_IDENT_SCALAR) as [Hk|Hk].
  - unfold copied_data in He. rewrite (Hnc _ Hk) in He by done.
    destruct (construct_const_spec s a i d r n epid clid prid base st nr) as (st1 & -> & Hp); try done.
    cbn [mbind option_bind]. by exists st1.
  - assert (next_prid env ids0 d r prid = prid) as ->.
    { unfold next_prid. rewrite Htg. by rewrite (proj2 (Z.eqb_neq _ _) Hk). }
    exists st. unfold copied_data in He. unfold final_data. rewrite Htg, (proj2 (Z.eqb_neq _ _) Hk).
    destruct (Z.eqb_spec (di_kind i) DT_IDENT_SYMBOL) as [Hk'|Hk'].
    + assert (callee env ids0 d r = Some a) as Hc by (unfold callee; rewrite Htg; cbn; by rewrite (proj2 (Z.eqb_eq _ _) Hk')).
      rewrite Hc in He. rewrite (seen_flag _ _ _ _ lib s G a i); [|apply (Hin r); [set_solver|done]|done].
      rewrite bool_decide_true by (by apply Hseen). split; [done|]. by eapply processed_same.
    + rewrite (Hnc _ eq_refl Hk') in He. split; [done|]. by eapply processed_same.
Qed.

(** The relocation that was processed stays while the others are, and they were
    not touched before. *)
Lemma processed_kept d base type data r n hi st st1 st' B : processed d base type data r n st st1 →
  grown (n + 1) hi st1 st' B → 0 <= n < lk_rc st →
  ∃ nr, lk_breltab st' !! Z.to_nat n = Some nr ∧ entry (lk_stab st') d base r type data nr.
Proof.
  intros [Hg1 _ _ _ _ (nr & Hnr & He)] Hg Hn. exists nr. split; [|eapply entry_grows, He; apply Hg].
  destruct (gr_rels _ _ _ _ _ Hg) as [_ Hk]. rewrite Hk; [done|]. rewrite (gr_rc _ _ _ _ _ Hg1). cbn [total foldr]. lia.
Qed.

Lemma entries_stay lo hi st st1 B d base (ty da : dof_relodesc → Z) rs p : grown lo hi st st1 B →
  0 <= p → p + Z.of_nat (length rs) <= lk_rc st → hi <= p →
  seg (λ _ r, entry (lk_stab st) d base r (ty r) (da r)) rs (lk_breltab st) p →
  seg (λ _ r, entry (lk_stab st1) d base r (ty r) (da r)) rs (lk_breltab st1) p.
Proof.
  intros Hg Hn Hl Hp Hs j x Hx. destruct (Hs j x Hx) as (nr & Hnr & He). exists nr.
  split; [|eapply entry_grows, He; apply Hg]. apply lookup_lt_Some in Hx. destruct (gr_rels _ _ _ _ _ Hg) as [_ Hk].
  rewrite Hk; [done|]. lia.
Qed.

Lemma processed_grown d base type data r n (rs : list dof_relodesc) st st1 st' B : nonneg st →
  n + 1 + Z.of_nat (length rs) <= lk_rc st → processed d base type data r n st st1 →
  grown (n + 1) (n + 1 + Z.of_nat (length rs)) st1 st' B → grown n (n + Z.of_nat (length (r :: rs))) st st' B.
Proof.
  intros Hst Hl [Hg _ _ _ _ _] Hg'. change B with ([] ++ B). cbn [length].
  apply (grown_trans _ _ _ st1); [done|lia|eapply grown_weaken, Hg; lia|eapply grown_weaken, Hg'; lia].
Qed.

(** All the relocations of an inlined function. *)
Lemma construct_inlined rec d base epid clid rs : unit_ok env ids0 d → (∀ r, r ∈ rs → r ∈ dtdo_breltab d) →
  ∀ n prid s st, lk_ids st = view ids0 s G → tab_ok (lk_stab st) → boot_ok (lk_boot st) → nonneg st →
  0 <= n → n + Z.of_nat (length rs) <= lk_rc st →
  seg (λ _ r, entry (lk_stab st) d base r (dofr_type r) (copied_data d r)) rs (lk_breltab st) n →
  ∃ st', construct_deps env rec true d base epid rs n clid prid st = Some (s32 base, st') ∧
    grown n (n + Z.of_nat (length rs)) st st' [] ∧ lk_ids st' = lk_ids st ∧ lk_dd st' = lk_dd st ∧ lk_hdl st' = lk_hdl st ∧
    lk_flags st' = lk_flags st ∧
    seg (λ _ r, entry (lk_stab st') d base r (final_type true d r) (final_data true epid clid base d r)) rs (lk_breltab st') n.
Proof using lib HG.
  intros Hd. induction rs as [|r rs IH]; intros Hin n prid s st Hids Ht Hb Hst Hn Hl Hseg.
  { exists st. split; [done|]. split; [by apply grown_refl|]. split_and!; try done. }
  apply seg_cons in Hseg as [(nr & Hnr & He) Hseg]; [|done]. cbn [length] in Hl.
  assert (∃ st1, construct_deps env rec true d base epid (r :: rs) n clid prid st =
      construct_deps env rec true d base epid rs (n + 1) clid prid st1 ∧
    processed d base (final_type true d r) (final_data true epid clid base d r) r n st st1) as (st1 & -> & Hp).
  { assert (r ∈ dtdo_breltab d) as Hr by (apply Hin; set_solver). cbn [construct_deps].
    destruct (reloc_cases _ _ _ _ lib d r Hd Hr) as (nm & -> & _ & _ & Hfor). cbn [mbind option_bind]. rewrite Hids, get_sym_view.
    unfold copied_data, callee in He. unfold final_type, final_data.
    destruct Hfor as [Htg -> _|a i Htg Ha HaL Hi Hname -> _]; cbn [mbind option_bind]; rewrite Htg in *.
    { exists st. split; [done|]. by eapply processed_same. }
    rewrite (proj2 (Z.eqb_neq a 0)), view_lookup, Hi by done. cbn [fmap option_fmap option_map mbind option_bind] in *.
    change (di_kind (mark s G a i)) with (di_kind i). cbn [andb].
    destruct (Z.eqb_spec (di_kind i) DT_IDENT_SCALAR) as [Hk|Hk].
    - rewrite (proj2 (Z.eqb_neq (di_kind i) DT_IDENT_SYMBOL)) in He by (by rewrite Hk).
      rewrite (set_type_spec st n nr) by done. cbn [mbind option_bind]. eexists. split; [done|].
      rewrite <- (set_boot_same st) at 2. rewrite (en_data _ _ _ _ _ _ _ He). eapply processed_set; try done. lia.
    - destruct (Z.eqb_spec (di_kind i) DT_IDENT_SYMBOL) as [Hk'|Hk'].
      + rewrite (set_data_spec st n nr) by done. cbn [mbind option_bind]. eexists. split; [done|].
        rewrite <- (set_boot_same st) at 2. rewrite (en_type _ _ _ _ _ _ _ He). eapply processed_set; try done. lia.
      + exists st. split; [done|]. by eapply processed_same. }
  pose proof (entries_stay _ _ _ _ _ d base dofr_type (copied_data d) rs (n + 1) (pr_grown _ _ _ _ _ _ _ _ Hp) ltac:(lia) ltac:(lia) ltac:(lia) Hseg) as Hseg1.
  pose proof Hp as [Hg1 Hi1 Hd1 Hh1 Hf1 _].
  destruct (IH ltac:(set_solver) (n + 1) prid s st1) as (st' & -> & Hg & Hi & Hdd & Hh & Hf & Hs').
  - by rewrite Hi1.
  - apply Hg1.
  - apply Hg1.
  - by eapply grown_nonneg.
  - lia.
  - rewrite (gr_rc _ _ _ _ _ Hg1). cbn [total foldr]. lia.
  - exact Hseg1.
  - exists st'. split; [done|]. split; [eapply (processed_grown _ _ _ _ _ _ _ _ st1); [done|lia|exact Hp|exact Hg]|]. split_and!; try congruence.
    apply seg_cons; [done|]. split; [eapply processed_kept; [exact Hp|exact Hg|lia]|done].
Qed.

(** ** A function and all that it needs *)

(** The state is ready for the functions [B]: there is room for all that they have. *)
Record ready (s : gset Z) (es : ddheap * dtrace_hdl) (B : list block) (st : link (T:=T)) : Prop := {
  rd_ids : lk_ids st = view ids0 s G;
  rd_es : (lk_dd st, lk_hdl st) = es;
  rd_tab : tab_ok (lk_stab st);
  rd_boot : boot_ok (lk_boot st);
  rd_nonneg : nonneg st;
  rd_strs : tab_used (lk_stab st) + total strs B < 2 ^ 31;
  rd_len : lk_pc st + total dtdo_len B <= Z.of_nat (length (lk_buf st)) < 2 ^ 31;
  rd_rel : lk_rc st + total dtdo_brelen B <= Z.of_nat (length (lk_breltab st)) < 2 ^ 31;
  rd_var : lk_vc st + total dtdo_varlen B <= Z.of_nat (length (lk_vartab st)) < 2 ^ 31
}.

Lemma ready_prefix s es B1 B2 st : ready s es (B1 ++ B2) st → ready s es B1 st.
Proof.
  intros []. rewrite ?total_app in *. pose proof (total_nonneg _ B2 len_nonneg). pose proof (total_nonneg _ B2 brelen_nonneg).
  pose proof (total_nonneg _ B2 varlen_nonneg). pose proof (total_nonneg _ B2 strs_nonneg). constructor; try done; lia.
Qed.

Lemma ready_next lo hi s es s1 es1 B1 B2 st st1 : ready s es (B1 ++ B2) st →
  grown lo hi st st1 B1 → lk_ids st1 = view ids0 s1 G → (lk_dd st1, lk_hdl st1) = es1 → ready s1 es1 B2 st1.
Proof.
  intros [] Hg Hi He. pose proof (grown_nonneg _ _ _ _ _ Hg rd_nonneg0). destruct Hg. rewrite ?total_app in *.
  destruct gr_buf0 as [Lb _], gr_vars0 as [Lv _], gr_rels0 as [Lr _], gr_tab0. constructor; try done; lia.
Qed.

(** The places of the functions are those of [G]. *)
Lemma place_split pc B1 B2 : NoDup (b_syms (B1 ++ B2)) → place pc (B1 ++ B2) ⊆ G →
  place pc B1 ⊆ G ∧ place (pc + total dtdo_len B1) B2 ⊆ G.
Proof.
  intros Hn Hp. rewrite place_app in Hp by done. split; (etransitivity; [|exact Hp]); [|apply map_union_subseteq_l].
  apply map_union_subseteq_r, map_disjoint_spec. intros a x y Hx Hy.
  unfold b_syms in Hn. rewrite fmap_app in Hn. apply NoDup_app in Hn as (_ & Hn & _).
  assert (a ∈ b_syms B1) as Ha1 by (apply dec_stable; intros Hc; apply (place_lookup_None pc) in Hc; congruence).
  apply (Hn a Ha1). apply dec_stable; intros Hc. apply (place_lookup_None (pc + total dtdo_len B1)) in Hc. congruence.
Qed.

(** The tables of the function [d] have been copied. *)
Record started (d : dtrace_difo) (st st1 : link (T:=T)) : Prop := {
  sd_same : lk_ids st1 = lk_ids st ∧ lk_dd st1 = lk_dd st ∧ lk_hdl st1 = lk_hdl st ∧ lk_boot st1 = lk_boot st ∧
    lk_flags st1 = lk_flags st;
  sd_tab : tab_grows (strs d) (lk_stab st) (lk_stab st1);
  sd_pc : lk_pc st1 = lk_pc st + dtdo_len d;
  sd_rc : lk_rc st1 = lk_rc st + dtdo_brelen d;
  sd_vc : lk_vc st1 = lk_vc st + dtdo_varlen d;
  sd_buf : keeps (lk_pc st) (lk_pc st1) (lk_buf st) (lk_buf st1);
  sd_vars : keeps (lk_vc st) (lk_vc st1) (lk_vartab st) (lk_vartab st1);
  sd_rels : keeps (lk_rc st) (lk_rc st1) (lk_breltab st) (lk_breltab st1);
  sd_code : seg (λ _ x y, y = x) (dtdo_buf d) (lk_buf st1) (lk_pc st);
  sd_var : seg (λ _, var_entry (lk_stab st1) d (lk_pc st)) (dtdo_vartab d) (lk_vartab st1) (lk_vc st);
  sd_rel : seg (λ _ r, entry (lk_stab st1) d (lk_pc st) r (dofr_type r) (copied_data d r)) (dtdo_breltab d)
             (lk_breltab st1) (lk_rc st)
}.

Lemma splice_keeps {A} (a l : list A) (p : nat) : (p + length l <= length a)%nat →
  keeps (Z.of_nat p) (Z.of_nat p + Z.of_nat (length l)) a (take p a ++ l ++ drop (p + length l) a) ∧
  seg (λ _ x y, y = x) l (take p a ++ l ++ drop (p + length l) a) (Z.of_nat p).
Proof.
  intros Hl. assert (length (take p a) = p) as Ht by (rewrite length_take; lia). split; [split|].
  - rewrite !length_app, length_drop. lia.
  - intros k [Hk|Hk].
    + rewrite lookup_app_l by lia. apply lookup_take_lt. lia.
    + rewrite lookup_app_r, lookup_app_r, lookup_drop by lia. f_equal. lia.
  - intros j x Hx. pose proof (lookup_lt_Some _ _ _ Hx). exists x. split; [|done].
    rewrite lookup_app_r, lookup_app_l by lia. rewrite <- Hx. f_equal. lia.
Qed.

Lemma construct_start s es d b B st : b_difo b = d → unit_ok env ids0 d → ready s es (b :: B) st →
  ∃ st1, (st1 ← copy_code st d; st2 ← copy_vars d (lk_pc st) (dtdo_vartab d) (lk_vc st) st1;
          copy_relocs env d (lk_pc st) (dtdo_breltab d) (lk_rc st) st2) = Some st1 ∧ started d st st1.
Proof using lib.
  intros <- Hd [Hids Hes Htab Hboot (Hpc & Hrc & Hvc) Hst Hlen Hrel Hvar]. cbn [total foldr] in *.
  fold (total dtdo_len B) (total dtdo_brelen B) (total dtdo_varlen B) (total strs B) in *. set (d := b_difo b) in *.
  pose proof (total_nonneg _ B len_nonneg). pose proof (total_nonneg _ B brelen_nonneg). pose proof (total_nonneg _ B varlen_nonneg).
  pose proof (total_nonneg _ B strs_nonneg). pose proof (len_nonneg d). pose proof (brelen_nonneg d). pose proof (varlen_nonneg d).
  pose proof (rstrs_nonneg d (dtdo_breltab d)). pose proof (vstrs_nonneg d (dtdo_vartab d)). unfold strs in Hst at 1.
  unfold copy_code. rewrite !wrap_id by (unfold urange; lia). rewrite (proj2 (Z.leb_le _ _)) by lia.
  rewrite (proj2 (Nat.leb_le _ _)) by (unfold dtdo_len in Hlen at 1; lia). cbn [mbind option_bind].
  destruct (splice_keeps (lk_buf st) (dtdo_buf d) (Z.to_nat (lk_pc st))) as [Hkb Hcode]; [unfold dtdo_len in Hlen at 1; lia|].
  rewrite Z2Nat.id in Hkb, Hcode by done. set (buf := take _ _ ++ _) in *.
  set (st1 := mk_link _ _ _ _ _ _ _ _ _ _ _ _).
  destruct (copy_vars_spec d (lk_pc st) (dtdo_vartab d) Hd ltac:(done) (lk_vc st) st1) as (t1 & vars & -> & Ht1 & Hkv & Hsv);
    [done|cbn; lia|done|unfold dtdo_varlen in Hvar at 1; cbn; lia|]. cbn [mbind option_bind].
  destruct (copy_relocs_spec d (lk_pc st) s (dtdo_breltab d) Hd ltac:(done) Hpc ltac:(lia) (lk_rc st) (set_vartab st1 t1 vars))
    as (t2 & rels & -> & Ht2 & Hkr & Hsr); [done|apply Ht1|destruct Ht1; cbn in *; lia|done|unfold dtdo_brelen in Hrel at 1; cbn; lia|].
  eexists. split; [done|]. constructor; cbn [set_breltab set_vartab st1 lk_ids lk_dd lk_hdl lk_boot lk_flags lk_stab lk_pc lk_rc
    lk_vc lk_buf lk_vartab lk_breltab] in *; try done.
  - unfold strs. by eapply tab_grows_trans.
  - eapply seg_impl; [|exact Hsv]. intros j x y. by eapply var_entry_grows.
Qed.

Lemma grown_block lo hi b B st st1 st2 : nonneg st → hi <= lk_rc st → started (b_difo b) st st1 →
  grown (lk_rc st) (lk_rc st1) st1 st2 B → rels_there (lk_stab st2) (lk_breltab st2) (lk_rc st) (lk_pc st) b →
  grown lo hi st st2 (b :: B).
Proof.
  intros (Hpc & Hrc & Hvc) Hhi [_ Ht Ep Er Ev Kb Kv Kr Sc Sv _] [Gt Gp Gr Gv Gb Gvs Grs Gc Gva Gre Gbo] Hown.
  set (d := b_difo b) in *. pose proof (total_nonneg _ B len_nonneg). pose proof (total_nonneg _ B brelen_nonneg). pose proof (total_nonneg _ B varlen_nonneg).
  pose proof (len_nonneg d). pose proof (brelen_nonneg d). pose proof (varlen_nonneg d).
  constructor; cbn [total foldr along]; fold (total dtdo_len B) (total dtdo_brelen B) (total dtdo_varlen B) (total strs B) d; try lia; try done.
  - by eapply tab_grows_trans.
  - eapply keeps_trans; (eapply keeps_weaken; [| |eassumption]; lia).
  - eapply keeps_trans; (eapply keeps_weaken; [| |eassumption]; lia).
  - destruct Grs as [L1 K1], Kr as [L2 K2]. split; [lia|]. intros k Hk. rewrite K1, K2 by lia. done.
  - rewrite <- Ep. unfold b_len. fold d. rewrite <- Ep. split; [|done].
    eapply (seg_keeps _ _ _ _ _ _ _ Gb); [done|left; change (lk_pc st + dtdo_len d <= lk_pc st1); lia|done].
  - rewrite <- Ev. unfold b_len. fold d. rewrite <- Ep. split; [|done].
    eapply seg_impl; [intros j x y; by eapply var_entry_grows|].
    eapply (seg_keeps _ _ _ _ _ _ _ Gvs); [done|left; change (lk_vc st + dtdo_varlen d <= lk_vc st1); lia|done].
  - rewrite <- Er. unfold b_len. fold d. rewrite <- Ep. by split.
Qed.

Lemma started_ready s es b B st st1 : ready s es (b :: B) st → started (b_difo b) st st1 → ready s es B st1.
Proof.
  intros [Hids Hes Htab Hboot (Hpc & Hrc & Hvc) Hst Hlen Hrel Hvar] [(E1 & E2 & E3 & E4 & _) Ht Ep Er Ev [Lb _] [Lv _] [Lr _] _ _ _].
  cbn [total foldr place] in *. fold (total dtdo_len B) (total dtdo_brelen B) (total dtdo_varlen B) (total strs B) in *.
  pose proof (len_nonneg (b_difo b)). pose proof (brelen_nonneg (b_difo b)). pose proof (varlen_nonneg (b_difo b)).
  destruct Ht. constructor; try congruence; try done; try lia.
  - by rewrite E4.
  - unfold nonneg. lia.
Qed.

(** The relocations [rs] of [d] have been dealt with. *)
Record finished (d : dtrace_difo) (base epid : Z) (cl : list Z) (rs : list dof_relodesc) (n : Z) (s' : gset Z)
    (es' : ddheap * dtrace_hdl) (B : list block) (st st' : link (T:=T)) : Prop := {
  fn_grown : grown n (n + Z.of_nat (length rs)) st st' B;
  fn_ids : lk_ids st' = view ids0 s' G;
  fn_es : (lk_dd st', lk_hdl st') = es';
  fn_flags : lk_flags st' = add_flags (lk_flags st) B;
  fn_own : seg (λ j r, entry (lk_stab st') d base r (final_type false d r)
                 (final_data false epid (default 0 (cl !! j)) base d r)) rs (lk_breltab st') n
}.

(** What the loop over the relocations [rs] of [d] does. *)
Definition deps_correct (d : dtrace_difo) rs clid prid s es cl B s' es' : Prop :=
  ∀ fuel base epid n st, unit_ok env ids0 d → (∀ r, r ∈ rs → r ∈ dtdo_breltab d) → rels_in env ids0 U d rs →
  (base.size (U ∖ s) <= fuel)%nat → NoDup (b_syms B) → ready s es B st →
  place (lk_pc st) B ⊆ G → 0 <= n → n + Z.of_nat (length rs) <= lk_rc st →
  seg (λ _ r, entry (lk_stab st) d base r (dofr_type r) (copied_data d r)) rs (lk_breltab st) n →
  ∃ st', construct_deps env (dt_link_construct env fuel) false d base epid rs n clid prid st = Some (s32 base, st') ∧
    finished d base epid cl rs n s' es' B st st'.

(** A function, with those that it needs. *)
Lemma construct_call d c epid clid s s1 s' es es' cl B fuel st : unit_ok env ids0 d →
  enter (view ids0 s G) c = Some (view ids0 s1 G, inlined ids0 c) →
  rels_in env ids0 U d (relocs ids0 c d) → (base.size (U ∖ s1) <= fuel)%nat → NoDup (b_syms B) →
  linked env ids0 d (relocs ids0 c d) clid (le_prid env) s1 es cl B s' es' →
  deps_correct d (relocs ids0 c d) clid (le_prid env) s1 es cl B s' es' →
  ready s es (mk_block c d epid cl :: B) st → place (lk_pc st + dtdo_len d) B ⊆ G →
  ∃ st', dt_link_construct env (S fuel) d c epid clid st = Some (s32 (lk_pc st), st') ∧
    grown 0 0 st st' (mk_block c d epid cl :: B) ∧ lk_ids st' = view ids0 s' G ∧ (lk_dd st', lk_hdl st') = es' ∧
    lk_flags st' = add_flags (lk_flags st) B.
Proof using lib HG.
  intros Hd Hent Hin Hfuel Hnd Hl Hdeps Hrd Hpl. pose proof (rd_nonneg _ _ _ _ Hrd) as Hnn. set (b := mk_block c d epid cl) in *.
  cbn [dt_link_construct]. rewrite (rd_ids _ _ _ _ Hrd), Hent. cbn [mbind option_bind].
  assert (ready s1 es (b :: B) (set_ids st (view ids0 s1 G))) as Hrd1 by (by destruct Hrd; constructor).
  destruct (construct_start s1 es d b B (set_ids st (view ids0 s1 G)) eq_refl Hd Hrd1) as (st1 & Hst1 & Hsd).
  change (lk_pc (set_ids st _)) with (lk_pc st) in *. change (lk_rc (set_ids st _)) with (lk_rc st) in *.
  change (lk_vc (set_ids st _)) with (lk_vc st) in *.
  destruct (copy_code _ _) as [sta|]; [|done]. cbn [mbind option_bind] in Hst1 |- *.
  destruct (copy_vars _ _ _ _ sta) as [stb|]; [|done]. cbn [mbind option_bind] in Hst1 |- *. rewrite Hst1.
  cbn [mbind option_bind]. pose proof (started_ready _ _ _ _ _ _ Hrd1 Hsd) as Hrd2.
  pose proof (sd_same _ _ _ Hsd) as (_ & _ & _ & _ & Hfl). change (lk_flags (set_ids st _)) with (lk_flags st) in Hfl.
  assert (lk_rc st + Z.of_nat (length (dtdo_breltab d)) = lk_rc st1) as Hrc by (by rewrite (sd_rc _ _ _ Hsd)).
  assert (∀ st2, grown (lk_rc st) (lk_rc st + Z.of_nat (length (dtdo_breltab d))) st1 st2 B →
    rels_there (lk_stab st2) (lk_breltab st2) (lk_rc st) (lk_pc st) b → grown 0 0 st st2 (b :: B)) as Hgb.
  { intros st2 Hg Hr. rewrite Hrc in Hg. apply (grown_block 0 0 b B (set_ids st (view ids0 s1 G)) st1 st2) in Hsd; [|done|apply Hnn|done|done].
    by destruct Hsd; constructor. }
  unfold rels_there, b_final in Hgb. cbn [b b_sym b_difo b_epid b_clids] in Hgb. unfold relocs in *.
  destruct (inlined ids0 c).
  - inversion Hl; subst.
    destruct (construct_inlined (dt_link_construct env fuel) d (lk_pc st) epid clid (dtdo_breltab d) Hd ltac:(done) (lk_rc st) (le_prid env) s' st1)
      as (st2 & -> & Hg & Hi & Hdd & Hh & Hf & Hs); [apply Hrd2|apply Hrd2|apply Hrd2|apply Hrd2|apply Hnn|by rewrite Hrc|apply Hsd|].
    exists st2. split; [done|]. split; [by apply Hgb|]. rewrite Hi, Hdd, Hh, Hf, Hfl. split_and!; [apply Hrd2|apply Hrd2|done].
  - destruct (Hdeps fuel (lk_pc st) epid (lk_rc st) st1) as (st2 & -> & [Hg Hi He Hf Hs]);
      [done|done|done|done|done|done|by rewrite (sd_pc _ _ _ Hsd)|apply Hnn|by rewrite Hrc|apply Hsd|].
    exists st2. split; [done|]. split; [by apply Hgb|]. by rewrite Hf, Hfl.
Qed.

(** A relocation that adds no function, and the rest of the relocations. *)
Lemma deps_skip d r rs clid prid s es cl B s' es' : (∀ c, callee env ids0 d r = Some c → c ∈ s) →
  deps_correct d rs clid (next_prid env ids0 d r prid) s es cl B s' es' →
  deps_correct d (r :: rs) clid prid s es (clid :: cl) B s' es'.
Proof using lib HG.
  intros Hc IH fuel base epid n st Hd Hrs Hin Hfuel Hnd Hrd Hpl Hn Hl Hseg. cbn [length] in Hl.
  apply seg_cons in Hseg as [(nr & Hnr & He) Hseg]; [|done].
  destruct (construct_skip (dt_link_construct env fuel) d r rs base epid n clid prid s st nr) as (st1 & -> & Hp);
    [done|apply Hrs; set_solver|intros r' c ? ?; apply (Hin r'); set_solver|done|apply Hrd|apply Hrd|apply Hrd|lia|done|done|].
  pose proof (entries_stay _ _ _ _ _ d base dofr_type (copied_data d) rs (n + 1) (pr_grown _ _ _ _ _ _ _ _ Hp) ltac:(lia) ltac:(lia) ltac:(lia) Hseg) as Hseg1.
  pose proof Hp as [Hg1 Hi1 Hd1 Hh1 Hf1 _].
  destruct (IH fuel base epid (n + 1) st1) as (st' & -> & [Hg Hi Hes Hf Hs]).
  - done.
  - intros r' Hr'. apply Hrs. by right.
  - eapply rels_in_cons, Hin.
  - done.
  - done.
  - eapply (ready_next _ _ _ _ _ _ [] B); [exact Hrd|exact Hg1|..].
    + by rewrite Hi1, (rd_ids _ _ _ _ Hrd).
    + by rewrite Hd1, Hh1, (rd_es _ _ _ _ Hrd).
  - rewrite (gr_pc _ _ _ _ _ Hg1). cbn [total foldr]. by rewrite Z.add_0_r.
  - lia.
  - rewrite (gr_rc _ _ _ _ _ Hg1). cbn [total foldr]. lia.
  - done.
  - exists st'. split; [done|]. constructor; try done; [|by rewrite Hf, Hf1|].
    + eapply (processed_grown _ _ _ _ _ _ _ _ st1); [apply Hrd|lia|exact Hp|exact Hg].
    + apply seg_cons; [done|]. split; [eapply processed_kept; [exact Hp|exact Hg|lia]|done].
Qed.

(** The code for an enabled probe id, and its clause id. *)
Lemma new_epid_code es d prid epid es1 : new_epid env es d prid = Some (epid, es1) →
  (if negb (dtdo_ddesc d =? 0) then dt_epid_add (le_mem env es.2) es.1 es.2 (dtdo_ddesc d) prid
   else Some (0, es.1, es.2)) = Some (epid, es1.1, es1.2).
Proof.
  unfold new_epid. destruct (dtdo_ddesc d =? 0); cbn [negb]; [by intros [= <- <-]|].
  destruct (dt_epid_add _ _ _ _ _) as [[[r dd] hdl]|]; [|done]. by intros [= <- <-].
Qed.

Lemma set_ids_same (st : link (T:=T)) : set_ids st (lk_ids st) = st.
Proof. by destruct st. Qed.

Definition with_flags (st : link (T:=T)) (b : block) : link := set_dtdo_flags st (add_flags (lk_flags st) [b]).

Lemma grown_with_flags lo hi st st1 b B : grown lo hi st st1 B → grown lo hi st (with_flags st1 b) B.
Proof. intros []. by constructor. Qed.

(** The code for a relocation that adds the function [c], whose tables are
    then in [st1]. *)
Lemma construct_new rec d r rs base ep n clid prid s es c i rd epid es1 cl1 s2 st st1 nr :
  unit_ok env ids0 d → r ∈ dtdo_breltab d → rels_in env ids0 U d [r] → callee env ids0 d r = Some c → c ∉ s →
  ids0 !! c = Some i → difo_of env ids0 c = Some rd → lk_ids st = view ids0 s G → (lk_dd st, lk_hdl st) = es →
  new_epid env es rd prid = Some (epid, es1) → 0 <= lk_pc st < 2 ^ 31 → G !! c = Some (lk_pc st) → 0 <= n →
  rec rd c epid (new_clid rd clid) (set_hdl st es1.1 es1.2) = Some (lk_pc st, st1) → lk_ids st1 = view ids0 s2 G →
  lk_breltab st1 !! Z.to_nat n = Some nr →
  let stX := with_flags st1 (mk_block c rd epid cl1) in
  construct_deps env rec false d base ep (r :: rs) n clid prid st =
    construct_deps env rec false d base ep rs (n + 1) (new_clid rd clid) prid
      (set_breltab (set_boot stX (lk_boot stX)) (lk_stab stX)
         (<[Z.to_nat n := mk_relo (dofr_name nr) (dofr_type nr) (dofr_offset nr) (position c)]> (lk_breltab stX))).
Proof using lib.
  intros Hd Hr Hin Hc Hns Hi Hrd Hids <- He Hpc HGc Hn Hrec Hi1 Hnr stX.
  destruct (new_fun _ _ _ _ lib d r c s G Hd Hr Hin Hc Hns) as (nm & i' & rd' & Hnm & _ & Hi' & HcU & Hc0 & Hgs & _ & Hv & Hk & Hfl & Hgd & Hda & Hdi & Hrd' & _).
  rewrite Hrd in Hrd'. simplify_eq. cbn [construct_deps]. rewrite Hnm. cbn [mbind option_bind]. rewrite Hids, Hgs.
  cbn [mbind option_bind]. rewrite Hc0, Hv. cbn [mbind option_bind]. rewrite Hk, Hfl.
  change (DT_IDENT_SYMBOL =? DT_IDENT_SCALAR) with false. change (DT_IDENT_SYMBOL =? DT_IDENT_SYMBOL) with true. cbn [negb].
  rewrite Hgd. cbn [mbind option_bind]. rewrite Hda, Hdi. cbn [mbind option_bind]. cbn [set_hdl lk_hdl lk_dd].
  pose proof (new_epid_code _ _ _ _ _ He) as Hec. cbn [fst snd] in Hec. rewrite Hec. cbn [mbind option_bind].
  replace (if negb (dtdo_ddesc rd' =? 0) then u32 (clid + 1) else clid) with (new_clid rd' clid)
    by (unfold new_clid; by destruct (dtdo_ddesc rd' =? 0)).
  change (rec rd' c epid (new_clid rd' clid) _) with (rec rd' c epid (new_clid rd' clid) (set_hdl st es1.1 es1.2)).
  rewrite Hrec. cbn [mbind option_bind]. rewrite (proj2 (Z.eqb_neq (lk_pc st) (-1))) by lia.
  rewrite Hi1, view_lookup, Hi. cbn [fmap option_fmap option_map mbind option_bind]. rewrite view_place by done.
  rewrite (wrap_id 32 (lk_pc st)) by (unfold urange; lia). rewrite insert_id, <- Hi1, set_ids_same by done.
  rewrite (set_data_spec st1 n nr), (wrap_id 64 (lk_pc st)) by (done || (unfold urange; lia)). cbn [mbind option_bind].
  f_equal. unfold stX, with_flags, add_flags, position. cbn [existsb]. rewrite orb_false_r, HGc. unfold is_destructive. cbn [b_difo].
  clear. destruct (negb _), st1; reflexivity.
Qed.

(** When the function [b] and what it needs are there, so is the relocation
    that names [b], at its place. *)
Lemma new_processed d r base ep n k clid es1 b B1 st st1 nr :
  callee env ids0 d r = Some (b_sym b) → 0 <= n → 0 < k → n + k <= lk_rc st →
  entry (lk_stab st) d base r (dofr_type r) (copied_data d r) nr → grown 0 0 (set_hdl st es1.1 es1.2) st1 (b :: B1) →
  lk_breltab st1 !! Z.to_nat n = Some nr →
  let stX := with_flags st1 b in
  let st2 := set_breltab (set_boot stX (lk_boot stX)) (lk_stab stX)
    (<[Z.to_nat n := mk_relo (dofr_name nr) (dofr_type nr) (dofr_offset nr) (position (b_sym b))]> (lk_breltab stX)) in
  grown n (n + k) st stX (b :: B1) ∧
  processed d base (final_type false d r) (final_data false ep clid base d r) r n stX st2.
Proof using Type.
  intros Hc Hn Hk Hl Hen Hg1 Hnr1 stX st2. assert (grown n (n + k) st stX (b :: B1)) as HgX.
  { apply grown_with_flags. destruct Hg1 as [? ? ? ? ? ? [Lr Kr] ? ? ? ?]. constructor; try done. split; [done|].
    intros j Hj. apply Kr. cbn [set_hdl lk_rc]. lia. }
  split; [done|]. destruct (callee_target _ _ _ _ _ Hc) as (i' & Htg & _ & Hki).
  assert (final_type false d r = dofr_type nr) as -> by (rewrite (en_type _ _ _ _ _ _ _ Hen); unfold final_type; by rewrite Htg).
  assert (final_data false ep clid base d r = position (b_sym b)) as -> by (unfold final_data; by rewrite Htg, Hki).
  eapply processed_set; [apply HgX|apply HgX| |exact Hnr1|].
  - rewrite (gr_rc _ _ _ _ _ HgX). pose proof (total_nonneg _ (b :: B1) brelen_nonneg). lia.
  - eapply entry_grows; [apply HgX|exact Hen].
Qed.

(** A relocation that adds a function [c], with what that needs, and the rest. *)
Lemma deps_new d r rs clid prid s es c rd epid es1 cl1 B1 s2 es2 cl B2 s3 es3 :
  callee env ids0 d r = Some c → c ∉ s → difo_of env ids0 c = Some rd → new_epid env es rd prid = Some (epid, es1) →
  linked env ids0 rd (relocs ids0 c rd) (new_clid rd clid) (le_prid env) ({[c]} ∪ s) es1 cl1 B1 s2 es2 →
  deps_correct rd (relocs ids0 c rd) (new_clid rd clid) (le_prid env) ({[c]} ∪ s) es1 cl1 B1 s2 es2 →
  deps_correct d rs (new_clid rd clid) prid s2 es2 cl B2 s3 es3 →
  deps_correct d (r :: rs) clid prid s es (clid :: cl) (mk_block c rd epid cl1 :: B1 ++ B2) s3 es3.
Proof using lib HG.
  intros Hc Hns Hrd He Hl1 IH1 IH2 fuel base ep n st Hd Hrs Hin Hfuel Hnd Hready Hplace Hn Hl Hseg. cbn [length] in Hl.
  apply seg_cons in Hseg as [(nr & Hnr & Hen) Hseg]; [|done].
  destruct (new_fun _ _ _ _ lib d r c s G Hd) as (nm & i & rd' & Hnm & _ & Hi & HcU & Hc0 & Hgs & _ & Hv & Hk & Hfl & Hgd & Hda & Hdi & Hrd' & Hrok);
    [set_solver|intros r' c' ? ?; apply (Hin r'); set_solver|done|done|]. rewrite Hrd in Hrd'. simplify_eq.
  destruct (size_new _ c s fuel HcU Hns Hfuel) as (f & -> & Hf').
  change (mk_block c rd' epid cl1 :: B1 ++ B2) with ((mk_block c rd' epid cl1 :: B1) ++ B2) in *.
  set (b := mk_block c rd' epid cl1) in *. set (st0 := set_hdl st es1.1 es1.2).
  assert (ready s es1 (b :: B1) st0) as Hr0.
  { apply ready_prefix in Hready. destruct Hready. constructor; try done. cbn. by destruct es1. }
  destruct (place_split _ _ _ Hnd Hplace) as [Hpl1 Hpl2].
  assert ((b_sym b ∉ b_syms B1) ∧ NoDup (b_syms B1)) as [Hnd0 Hnd1].
  { unfold b_syms in *. rewrite fmap_app in Hnd. apply NoDup_app in Hnd as [Hnd _]. by apply NoDup_cons in Hnd. }
  destruct (construct_call rd' c epid (new_clid rd' clid) s ({[c]} ∪ s) s2 es1 es2 cl1 B1 f st0) as (st1 & Hcall & Hg1 & Hi1 & He1 & Hf1);
    [done|by rewrite (enter_view _ s G c i) by (done || by apply Z.eqb_neq)|by eapply rels_in_difo|done|done|done|done|done| |].
  { etransitivity; [|exact Hpl1]. by apply insert_subseteq, place_lookup_None. }
  pose proof (ready_prefix _ _ _ _ _ Hready) as Hrp.
  assert (0 <= lk_pc st < 2 ^ 31 ∧ G !! c = Some (lk_pc st)) as [Hpc HGc].
  { destruct Hrp as [_ _ _ _ (? & _ & _) _ ? _ _]. pose proof (total_nonneg _ (b :: B1) len_nonneg). split; [lia|].
    eapply lookup_weaken; [|exact Hpl1]. cbn [place b b_sym]. apply lookup_insert_eq. }
  rewrite swrap_id in Hcall by (unfold srange; cbn; lia).
  assert (lk_breltab st1 !! Z.to_nat n = Some nr) as Hnr1.
  { rewrite <- Hnr. apply (gr_rels _ _ _ _ _ Hg1). change (lk_rc st0) with (lk_rc st). lia. }
  rewrite (construct_new _ d r rs base ep n clid prid s es c i rd' epid es1 cl1 s2 st st1 nr); try done;
    [|set_solver|intros r' c' ? ?; apply (Hin r'); set_solver|apply Hready|apply Hready].
  fold b. set (stX := with_flags st1 b). set (st2 := set_breltab _ _ _).
  destruct (new_processed d r base ep n (Z.of_nat (length (r :: rs))) clid es1 b B1 st st1 nr) as [HgX Hp]; try done.
  fold stX in HgX, Hp. fold st2 in Hp.
  assert (grown n (n + Z.of_nat (length (r :: rs))) st st2 (b :: B1)) as Hg2.
  { rewrite <- (app_nil_r (b :: B1)). eapply grown_trans; [apply Hready|cbn [length]; lia|exact HgX|].
    eapply grown_weaken; [..|apply Hp]; cbn [length]; lia. }
  assert (ready s2 es2 B2 st2) as Hr2 by (eapply ready_next; [exact Hready|exact Hg2|done|done]).
  pose proof (entries_stay _ _ _ _ _ d base dofr_type (copied_data d) rs (n + 1) Hg1 ltac:(lia) ltac:(cbn; lia) ltac:(lia) Hseg) as Hseg1.
  assert (lk_rc st <= lk_rc stX) as Hrc by (rewrite (gr_rc _ _ _ _ _ HgX); pose proof (total_nonneg _ (b :: B1) brelen_nonneg); lia).
  pose proof (entries_stay _ _ _ _ _ d base dofr_type (copied_data d) rs (n + 1) (pr_grown _ _ _ _ _ _ _ _ Hp) ltac:(lia) ltac:(lia) ltac:(lia) Hseg1) as Hseg2.
  destruct (IH2 (S f) base ep (n + 1) st2) as (st' & -> & [Hg Hi' Hes Hf Hs]).
  - done.
  - intros r' Hr'. apply Hrs. by right.
  - eapply rels_in_cons, Hin.
  - eapply size_more; [|exact Hfuel]. destruct (linked_seen _ _ _ _ _ _ _ _ _ _ _ _ Hl1) as (_ & _ & ->). set_solver.
  - unfold b_syms in *. rewrite fmap_app in Hnd. by apply NoDup_app in Hnd as (_ & _ & ?).
  - done.
  - by rewrite (gr_pc _ _ _ _ _ Hg2).
  - lia.
  - change (lk_rc st2) with (lk_rc stX). lia.
  - done.
  - exists st'. split; [done|]. constructor; try done.
    + eapply grown_trans; [apply Hready|cbn [length]; lia|exact Hg2|]. eapply grown_weaken; [..|exact Hg]; cbn [length]; lia.
    + rewrite Hf, <- add_flags_app. f_equal. change (lk_flags st2) with (add_flags (lk_flags st1) [b]). rewrite Hf1.
      rewrite add_flags_app. unfold add_flags. rewrite existsb_app. cbn [existsb]. by rewrite orb_false_r, orb_comm.
    + apply seg_cons; [done|]. split; [|done]. eapply processed_kept; [exact Hp|exact Hg|lia].
Qed.

(** The loop over the relocations is correct for the functions that are linked. *)
Lemma construct_deps_spec d rs clid prid s es cl B s' es' :
  linked env ids0 d rs clid prid s es cl B s' es' → deps_correct d rs clid prid s es cl B s' es'.
Proof using lib HG.
  induction 1 as [d clid prid s es|d r rs clid prid s es cl B s' es' Hc H IH|]; [|by apply deps_skip|by eapply deps_new].
  intros fuel base epid n st Hd Hrs Hin Hfuel Hnd Hrd Hpl Hn Hl Hseg. exists st. split; [done|]. constructor; try done.
  - apply grown_refl; apply Hrd.
  - apply Hrd.
  - apply Hrd.
Qed.

End Tables.

End LinkBuild.
