(* ===== verification/LinkResolve.v ===== *)
(** * The resolution of relocations

    [dt_link_resolve] changes the immediate values of instructions, and
    [dt_dlib_reset] the identifiers.  The result is the code of the functions,
    each with its own relocations resolved. *)
From S2P Require Import Prelude CLib StrTable Ident DtMap DtAs DtLink LinkGraph LinkBuild.
#[local] Open Scope Z_scope.
Import Ident DtMap DtAs DtLink LinkGraph LinkBuild.

Module LinkResolve.

(** ** Changing immediate values *)

(** The instructions [buf] are at [base]; the value at each position is set. *)
Fixpoint patch_all (base : Z) (buf : list bpf_insn) (ps : list (Z * Z)) : list bpf_insn :=
  match ps with
  | [] => buf
  | p :: ps => patch_all base (alter (λ x, set_imm x p.2) (Z.to_nat (p.1 - base)) buf) ps
  end.

Lemma patch_all_app base buf ps qs : patch_all base buf (ps ++ qs) = patch_all base (patch_all base buf ps) qs.
Proof. revert buf. induction ps as [|p ps IH]; intros buf; cbn; [done|]. apply IH. Qed.

Lemma length_patch_all base buf ps : length (patch_all base buf ps) = length buf.
Proof. revert buf. induction ps as [|p ps IH]; intros buf; cbn; [done|]. rewrite IH. apply length_alter. Qed.

(** Only values change. *)
Lemma patch_all_code base buf ps k x : buf !! k = Some x →
  ∃ y, patch_all base buf ps !! k = Some y ∧ code y = code x.
Proof.
  revert buf x. induction ps as [|p ps IH]; intros buf x Hx; cbn; [eauto|].
  destruct (decide (Z.to_nat (p.1 - base) = k)) as [<-|Hne].
  - destruct (IH (alter (λ x, set_imm x p.2) (Z.to_nat (p.1 - base)) buf) (set_imm x p.2)) as (y & Hy & Hc).
    { by rewrite list_lookup_alter_eq, Hx. }
    exists y. by rewrite Hc.
  - apply IH. by rewrite list_lookup_alter_ne.
Qed.

Lemma patch_all_left base l1 l2 ps : Forall (λ p, base <= p.1 < base + Z.of_nat (length l1)) ps →
  patch_all base (l1 ++ l2) ps = patch_all base l1 ps ++ l2.
Proof.
  intros H. revert l1 H. induction ps as [|p ps IH]; intros l1 H; cbn; [done|]. apply Forall_cons_iff in H as [Hp H].
  rewrite alter_app_l by lia. apply IH. by rewrite length_alter.
Qed.

Lemma patch_all_right base l1 l2 ps : Forall (λ p, base + Z.of_nat (length l1) <= p.1) ps →
  patch_all base (l1 ++ l2) ps = l1 ++ patch_all (base + Z.of_nat (length l1)) l2 ps.
Proof.
  intros H. revert l2. induction H as [|p ps Hp H IH]; intros l2; cbn; [done|].
  replace (Z.to_nat (p.1 - base)) with (length l1 + Z.to_nat (p.1 - (base + Z.of_nat (length l1))))%nat by lia.
  rewrite alter_app_r. apply IH.
Qed.

Definition value_at (ps : list (Z * Z)) (k : Z) : option Z := (list_to_map ps : gmap Z Z) !! k.

Definition patched (ps : list (Z * Z)) (k : Z) (x : bpf_insn) : bpf_insn :=
  match value_at ps k with Some v => set_imm x v | None => x end.

Lemma patch_all_lookup base buf ps k : NoDup ps.*1 → Forall (λ p, base <= p.1) ps →
  patch_all base buf ps !! k = patched ps (base + Z.of_nat k) <$> buf !! k.
Proof.
  revert buf. induction ps as [|[q v] ps IH]; intros buf Hn Hf.
  { cbn. unfold patched, value_at. cbn. rewrite lookup_empty. by destruct (buf !! k). }
  apply NoDup_cons in Hn as [Hq Hn]. apply Forall_cons_iff in Hf as [Hp Hf]. cbn [patch_all fst snd].
  rewrite IH by done. unfold patched, value_at.
  cbn [list_to_map fold_right fst snd] in *. destruct (decide (q = base + Z.of_nat k)) as [->|Hne].
  - replace (Z.to_nat (base + Z.of_nat k - base)) with k by lia. rewrite list_lookup_alter_eq, lookup_insert_eq.
    rewrite not_elem_of_list_to_map_1 by done. by destruct (buf !! k).
  - rewrite list_lookup_alter_ne by lia. by rewrite lookup_insert_ne.
Qed.

Section Resolve.
Context {T : Type} `{!StringTable T, !StringTableLaws T}.
Context (env : link_env) (ids0 : idheap) (L : list Z) (U : gset Z) (lib : library env ids0 L U).
Context (G : gmap Z Z) (bootv : Z).
#[local] Abbreviation final_of := (b_final env ids0 G bootv).

(** The values that a relocation sets, and all of a function. *)
Definition reloc_patches (b : block) (base : Z) (j : nat) (r : dof_relodesc) : list (Z * Z) :=
  match target env ids0 (b_difo b) r with
  | None => []
  | Some (_, i) =>
      let k := base + dofr_offset r / 8 in
      let type := final_type env ids0 (inlined ids0 (b_sym b)) (b_difo b) r in
      let data := final_of b base j r in
      let val := if di_kind i =? DT_IDENT_SCALAR then data else u64 (data - k - 1) in
      if (di_kind i =? DT_IDENT_SCALAR) || (di_kind i =? DT_IDENT_SYMBOL) then
        if type =? R_BPF_64_64 then [(k, Z.land val 0xffffffff); (k + 1, Z.shiftr val 32)]
        else if type =? R_BPF_64_32 then [(k, u32 val)]
        else []
      else []
  end.

Definition own_patches (b : block) (base : Z) : list (Z * Z) :=
  concat (imap (reloc_patches b base) (dtdo_breltab (b_difo b))).

(** The code of a function, with its relocations resolved, and of all. *)
Definition linked_code (b : block) (base : Z) : list bpf_insn :=
  imap (λ k x, patched (own_patches b base) (base + Z.of_nat k) x) (dtdo_buf (b_difo b)).

Fixpoint text (base : Z) (B : list block) : list bpf_insn :=
  match B with
  | [] => []
  | b :: B => linked_code b base ++ text (base + b_len b) B
  end.

Fixpoint all_patches (base : Z) (B : list block) : list (Z * Z) :=
  match B with
  | [] => []
  | b :: B => own_patches b base ++ all_patches (base + b_len b) B
  end.

Definition codes (B : list block) : list bpf_insn := concat (dtdo_buf ∘ b_difo <$> B).

(** *** The relocations of a function are for its own instructions *)

Lemma reloc_patches_touched b base j r : (reloc_patches b base j r).*1 `sublist_of` ((Z.add base) <$> touched r).
Proof.
  unfold reloc_patches, touched, final_type. destruct (target _ _ _ _) as [[a i]|]; cbn [fmap list_fmap]; [|apply sublist_nil_l].
  destruct (_ || _); [|apply sublist_nil_l]. destruct (inlined _ _ && _); [apply sublist_nil_l|].
  destruct (dofr_type r =? R_BPF_64_64); cbn; [by rewrite Z.add_assoc|].
  destruct (dofr_type r =? R_BPF_64_32); cbn; [done|apply sublist_nil_l].
Qed.

Lemma imap_touched (f : nat → dof_relodesc → list (Z * Z)) base rs :
  (∀ j r, (f j r).*1 `sublist_of` (Z.add base <$> touched r)) →
  (concat (imap f rs)).*1 `sublist_of` (Z.add base <$> concat (touched <$> rs)).
Proof.
  revert f. induction rs as [|r rs IH]; intros f Hf; cbn [imap fmap list_fmap concat]; [done|].
  rewrite !fmap_app. apply sublist_app; [done|]. apply IH. intros j. apply (Hf (S j)).
Qed.

Lemma own_patches_touched b base :
  (own_patches b base).*1 `sublist_of` (Z.add base <$> concat (touched <$> dtdo_breltab (b_difo b))).
Proof. apply imap_touched. intros j r. apply reloc_patches_touched. Qed.

Lemma own_patches_ok b base : unit_ok env ids0 (b_difo b) →
  NoDup (own_patches b base).*1 ∧ Forall (λ p, base <= p.1 < base + b_len b) (own_patches b base).
Proof.
  intros Hu. pose proof (own_patches_touched b base) as Hs. split.
  - eapply sublist_NoDup; [|exact Hs]. apply NoDup_fmap_2_strong; [lia|apply Hu].
  - apply Forall_forall. intros p Hp. assert (p.1 ∈ (own_patches b base).*1) as Hp1 by (by apply list_elem_of_fmap_2).
    assert (p.1 ∈ Z.add base <$> concat (touched <$> dtdo_breltab (b_difo b))) as Hp2.
    { eapply elem_of_submseteq; [exact Hp1|by apply sublist_submseteq]. }
    apply list_elem_of_fmap in Hp2 as (k & -> & Hk). apply list_elem_of_In, in_concat in Hk as (l & Hl & Hk).
    apply list_elem_of_In in Hl, Hk. apply list_elem_of_fmap in Hl as (r & -> & Hr).
    pose proof (uo_range _ _ _ Hu r k Hr Hk). destruct (uo_data _ _ _ Hu r Hr) as [_ Ho].
    assert (0 <= dofr_offset r / 8) by (apply Z.div_pos; lia). unfold b_len. split; [|lia].
    unfold touched in Hk. destruct (_ =? _); repeat (apply elem_of_cons in Hk as [->|Hk]; [lia|]); by apply not_elem_of_nil in Hk.
Qed.

Lemma patch_own b base : unit_ok env ids0 (b_difo b) →
  patch_all base (dtdo_buf (b_difo b)) (own_patches b base) = linked_code b base.
Proof.
  intros Hu. destruct (own_patches_ok b base Hu) as [Hn Hf]. apply list_eq. intros k.
  unfold linked_code. rewrite patch_all_lookup, list_lookup_imap; [done|done|].
  eapply Forall_impl; [exact Hf|]. cbn. lia.
Qed.

Lemma all_patches_above base B : Forall (λ b, unit_ok env ids0 (b_difo b)) B → Forall (λ p, base <= p.1) (all_patches base B).
Proof.
  intros H. revert base. induction H as [|b B Hu H IH]; intros base; cbn [all_patches]; [done|]. apply Forall_app. split.
  - destruct (own_patches_ok b base Hu) as [_ Hf]. eapply Forall_impl; [exact Hf|]. cbn. lia.
  - eapply Forall_impl; [apply IH|]. cbn. unfold b_len, dtdo_len. lia.
Qed.

(** All the relocations together resolve each function's own. *)
Lemma patch_all_text base B : Forall (λ b, unit_ok env ids0 (b_difo b)) B →
  patch_all base (codes B) (all_patches base B) = text base B.
Proof.
  intros H. revert base. induction H as [|b B Hu H IH]; intros base; [done|].
  change (codes (b :: B)) with (dtdo_buf (b_difo b) ++ codes B). cbn [all_patches text].
  rewrite patch_all_app, patch_all_left by apply own_patches_ok, Hu.
  rewrite patch_all_right; rewrite ?length_patch_all.
  - rewrite patch_own by done. f_equal. apply IH.
  - by apply all_patches_above.
Qed.

(** *** The loop *)

(** A relocation: its function, the position of that, its index. *)
Definition item : Type := block * Z * nat * dof_relodesc.

Fixpoint items (base : Z) (B : list block) : list item :=
  match B with
  | [] => []
  | b :: B => imap (λ j r, (b, base, j, r)) (dtdo_breltab (b_difo b)) ++ items (base + b_len b) B
  end.

Definition item_patches (it : item) : list (Z * Z) := let '(b, base, j, r) := it in reloc_patches b base j r.

Lemma all_patches_items base B : all_patches base B = concat (item_patches <$> items base B).
Proof.
  revert base. induction B as [|b B IH]; intros base; cbn [all_patches items]; [done|].
  rewrite fmap_app, concat_app, <- IH. f_equal. unfold own_patches. f_equal. by rewrite fmap_imap.
Qed.

Definition good_entry (tab : T) (it : item) (nr : dof_relodesc) : Prop :=
  let '(b, base, j, r) := it in
  entry tab (b_difo b) base r (final_type env ids0 (inlined ids0 (b_sym b)) (b_difo b) r) (final_of b base j r) nr.

Lemma seg_Forall2 {A B C} (R : nat → A → B → Prop) (Q : C → B → Prop) (f : nat → A → C) l (a : list B) p :
  0 <= p → p + Z.of_nat (length l) <= Z.of_nat (length a) → (∀ j x y, R j x y → Q (f j x) y) → seg R l a p →
  Forall2 Q (imap f l) (take (length l) (drop (Z.to_nat p) a)).
Proof.
  intros Hp Hl HRQ Hs. apply Forall2_same_length_lookup_2.
  { rewrite length_imap, length_take, length_drop. lia. }
  intros k c y Hc Hy. rewrite list_lookup_imap in Hc. destruct (l !! k) as [x|] eqn:Hx; [|done]. cbn in Hc. simplify_eq.
  destruct (Hs k x Hx) as (y' & Hy' & HR). apply lookup_lt_Some in Hx. rewrite lookup_take_lt, lookup_drop in Hy by done.
  simplify_eq. by apply HRQ.
Qed.

Lemma along_items tab rels B : ∀ rc base, 0 <= rc → Z.of_nat (length rels) = rc + total dtdo_brelen B →
  along dtdo_brelen (rels_there env ids0 G bootv tab rels) rc base B → Forall2 (good_entry tab) (items base B) (drop (Z.to_nat rc) rels).
Proof.
  induction B as [|b B IH]; intros rc base Hrc Hl; cbn [along items total foldr] in *.
  - intros _. rewrite drop_ge by lia. constructor.
  - fold (total dtdo_brelen B) in *. pose proof (total_nonneg _ B brelen_nonneg). intros [Hb HB].
    rewrite <- (take_drop (length (dtdo_breltab (b_difo b))) (drop (Z.to_nat rc) rels)). apply Forall2_app.
    + eapply seg_Forall2; [done|unfold dtdo_brelen in Hl at 1; lia| |exact Hb]. done.
    + rewrite drop_drop. replace (Z.to_nat rc + length (dtdo_breltab (b_difo b)))%nat with (Z.to_nat (rc + dtdo_brelen (b_difo b)))
        by (unfold dtdo_brelen; lia).
      apply IH; [pose proof (brelen_nonneg (b_difo b)); lia|lia|done].
Qed.

Lemma patch_imm_spec buf k v : 0 <= k < Z.of_nat (length buf) → patch_imm buf k v = Some (patch_all 0 buf [(k, v)]).
Proof.
  intros Hk. unfold patch_imm. destruct (lookup_lt_is_Some_2 buf (Z.to_nat k) ltac:(lia)) as [x Hx]. rewrite Hx.
  cbn [mbind option_bind]. rewrite assign_spec by done. f_equal. cbn [patch_all fst snd]. rewrite Z.sub_0_r.
  apply list_eq. intros j. destruct (decide (j = Z.to_nat k)) as [->|Hne].
  - rewrite list_lookup_insert_eq, list_lookup_alter_eq, Hx by lia. done.
  - by rewrite list_lookup_insert_ne, list_lookup_alter_ne by done.
Qed.

Lemma resolve_one_spec buf rp k val : 0 <= k → k < Z.of_nat (length buf) < 2 ^ 31 →
  (dofr_type rp = R_BPF_64_64 → k + 1 < Z.of_nat (length buf)) →
  resolve_one buf rp k val = Some (patch_all 0 buf
    (if dofr_type rp =? R_BPF_64_64 then [(k, Z.land val 0xffffffff); (k + 1, Z.shiftr val 32)]
     else if dofr_type rp =? R_BPF_64_32 then [(k, u32 val)] else [])).
Proof.
  intros Hk Hl H64. unfold resolve_one. destruct (Z.eqb_spec (dofr_type rp) R_BPF_64_64) as [E|E].
  - specialize (H64 E). rewrite patch_imm_spec by lia. cbn [mbind option_bind]. rewrite wrap_id by (unfold urange; lia).
    rewrite patch_imm_spec by (rewrite length_patch_all; lia). done.
  - destruct (dofr_type rp =? R_BPF_64_32); [|done]. apply patch_imm_spec. lia.
Qed.

(** What the relocations need of the instructions. *)
Definition item_ok (buf : list bpf_insn) (it : item) : Prop :=
  let '(b, base, j, r) := it in
  unit_ok env ids0 (b_difo b) ∧ r ∈ dtdo_breltab (b_difo b) ∧ 0 <= base ∧
  base + b_len b <= Z.of_nat (length buf) < 2 ^ 31 ∧
  ∀ k x, dtdo_buf (b_difo b) !! k = Some x → ∃ y, buf !! (Z.to_nat base + k)%nat = Some y ∧ code y = code x.

Lemma item_ok_patched buf ps it : item_ok buf it → item_ok (patch_all 0 buf ps) it.
Proof.
  destruct it as [[[b base] j] r]. intros (Hu & Hr & Hb & Hl & Hc). unfold item_ok. rewrite length_patch_all.
  refine (conj Hu (conj Hr (conj Hb (conj Hl _)))).
  intros k x Hx. destruct (Hc k x Hx) as (y & Hy & Hyx). destruct (patch_all_code 0 buf ps _ _ Hy) as (z & Hz & Hzy).
  exists z. split; [done|congruence].
Qed.

Lemma resolve_loop_spec tab dp s m its rels : Forall2 (good_entry tab) its rels → ∀ buf, Forall (item_ok buf) its →
  (∀ off n, tab_stored tab off n → cstring n → dt_difo_getstr dp off = Some n) →
  resolve_loop env dp (view ids0 s m) rels buf = Some (patch_all 0 buf (concat (item_patches <$> its))).
Proof using lib.
  induction 1 as [|[[[b base] j] r] nr its rels He H IH]; intros buf Hok Hstr; [done|].
  apply Forall_cons_iff in Hok as [(Hu & Hr & Hb & Hl & Hcode) Hok]. destruct He as [Hname Htype Hoff Hdata].
  cbn [resolve_loop fmap list_fmap concat]. rewrite patch_all_app.
  assert (∀ ps, resolve_loop env dp (view ids0 s m) rels (patch_all 0 buf ps) =
    Some (patch_all 0 (patch_all 0 buf ps) (concat (item_patches <$> its)))) as IH'.
  { intros ps. apply IH; [|done]. eapply Forall_impl; [exact Hok|]. intros it. apply item_ok_patched. }
  destruct (reloc_cases _ _ _ _ lib (b_difo b) r Hu Hr) as (n & _ & Hcn & Hrn & Hfor).
  rewrite (Hstr _ n) by (done || by rewrite <- Hrn). cbn [mbind option_bind]. rewrite get_sym_view.
  assert (u32 (dofr_offset nr / 8) = base + dofr_offset r / 8 ∧ 0 <= dofr_offset r / 8 < b_len b) as [-> Hk].
  { destruct (uo_data _ _ _ Hu r Hr) as [_ Ho]. assert (0 <= dofr_offset r / 8) by (apply Z.div_pos; lia).
    assert (dofr_offset r / 8 < b_len b).
    { apply (uo_range _ _ _ Hu r); [done|]. unfold touched. destruct (_ =? _); set_solver. }
    rewrite Hoff, Z.mul_comm, Z.div_add by lia. rewrite wrap_id by (unfold urange; lia). lia. }
  set (k := base + dofr_offset r / 8).
  assert (dofr_type nr = R_BPF_64_64 → k + 1 < Z.of_nat (length buf)) as H64.
  { rewrite Htype. intros E. assert (dofr_type r = R_BPF_64_64) as E'.
    { unfold final_type in E. repeat case_match; try done. }
    assert (dofr_offset r / 8 + 1 < b_len b); [|lia]. apply (uo_range _ _ _ Hu r); [done|]. unfold touched. rewrite E'. cbn. set_solver. }
  unfold item_patches at 1, reloc_patches. fold k. rewrite <- Htype, <- Hdata.
  destruct Hfor as [Htg -> _|a i Htg Ha HaL Hi _ -> _]; rewrite Htg; cbn [mbind option_bind]; [apply (IH' [])|].
  rewrite (proj2 (Z.eqb_neq a 0)), view_lookup, Hi by done. cbn [fmap option_fmap option_map mbind option_bind].
  change (di_kind (mark s m a i)) with (di_kind i). destruct (Z.eqb_spec (di_kind i) DT_IDENT_SCALAR) as [Ek|Ek]; cbn [orb].
  - rewrite resolve_one_spec by (done || lia). cbn [mbind option_bind]. apply IH'.
  - destruct (Z.eqb_spec (di_kind i) DT_IDENT_SYMBOL) as [Es|Es]; [|apply (IH' [])].
    destruct (uo_call _ _ _ Hu r a Hr) as (x & Hx & Hcall).
    { unfold callee. rewrite Htg. cbn. by rewrite (proj2 (Z.eqb_eq _ _) Es). }
    destruct (Hcode _ _ Hx) as (y & Hy & Hyx). replace (Z.to_nat base + Z.to_nat (dofr_offset r / 8))%nat with (Z.to_nat k) in Hy by lia.
    rewrite Hy. cbn [mbind option_bind]. unfold BPF_IS_CALL in *. rewrite Hyx, Hcall. cbn [negb].
    rewrite resolve_one_spec by (done || lia). cbn [mbind option_bind]. apply IH'.
Qed.

(** ** The identifiers *)

Lemma foldl_alter {A} (f : A → A) (l : list Z) (h : gmap Z A) a : NoDup l →
  foldl (λ h a, alter f a h) h l !! a = if decide (a ∈ l) then f <$> h !! a else h !! a.
Proof.
  revert h. induction l as [|b l IH]; intros h Hn; cbn [foldl]; [by rewrite decide_False by set_solver|].
  apply NoDup_cons in Hn as [Hb Hn]. rewrite IH by done. destruct (decide (a = b)) as [->|Hne].
  - rewrite decide_False, decide_True, lookup_alter_eq by set_solver. done.
  - rewrite lookup_alter_ne by done. by rewrite (decide_ext (a ∈ b :: l) (a ∈ l)) by set_solver.
Qed.

Lemma reset_lookup h ref a :
  dt_dlib_reset (le_syms env) h ref !! a = if decide (a ∈ L) then dt_dlib_idreset ref <$> h !! a else h !! a.
Proof using lib.
  unfold dt_dlib_reset. pose proof (wf_perm _ _ _ (lib_syms _ _ _ _ lib)) as Hp.
  rewrite foldl_alter by (rewrite Hp; apply (wf_nodup _ _ _ (lib_syms _ _ _ _ lib))).
  rewrite (decide_ext (a ∈ concat (dh_hash (le_syms env))) (a ∈ L)) by (by rewrite Hp). done.
Qed.

(** Functions: symbols of the table. *)
Definition symbols (s : gset Z) : Prop :=
  ∀ a, a ∈ s → a ∈ L ∧ ∃ i, ids0 !! a = Some i ∧ di_kind i = DT_IDENT_SYMBOL.

Lemma ldiff_ref f : Z.land f DT_IDFLG_REF = 0 → ∀ (b : bool),
  Z.ldiff (if b then Z.lor f DT_IDFLG_REF else f) DT_IDFLG_REF = f.
Proof.
  intros Hf b. apply Z.bits_inj'. intros n Hn. assert (Z.testbit (Z.land f DT_IDFLG_REF) n = false) as Ht by (by rewrite Hf, Z.bits_0).
  rewrite Z.land_spec in Ht. rewrite Z.ldiff_spec. destruct b; rewrite ?Z.lor_spec; destruct (Z.testbit f n), (Z.testbit DT_IDFLG_REF n); done.
Qed.

Lemma reset_ref s m : symbols s → dt_dlib_reset (le_syms env) (view ids0 s m) true = view ids0 ∅ m.
Proof using lib.
  intros Hs. apply map_eq. intros a. rewrite reset_lookup, !view_lookup. destruct (ids0 !! a) as [i|] eqn:Hi.
  2:{ by destruct (decide (a ∈ L)). }
  cbn. unfold mark at 2 3. rewrite (decide_False (P := a ∈ ∅)) by set_solver.
  destruct (decide (a ∈ L)) as [Ha|Ha].
  - f_equal. unfold dt_dlib_idreset, mark. cbn [di_kind set_id set_flags di_flags].
    destruct (Z.eqb_spec (di_kind i) DT_IDENT_SYMBOL) as [Hk|Hk]; cbn [negb].
    + pose proof (ldiff_ref (di_flags i) (proj1 (lib_fresh _ _ _ _ lib a i Ha Hi Hk)) (bool_decide (a ∈ s))) as Hl.
      unfold set_id, set_flags. cbn. f_equal. rewrite bool_decide_decide in Hl. by destruct (decide (a ∈ s)).
    + rewrite decide_False; [done|]. intros Has. destruct (Hs a Has) as (_ & i' & Hi' & Hk'). simplify_eq.
  - f_equal. rewrite decide_False; [done|]. intros Has. by destruct (Hs a Has).
Qed.

Lemma reset_all s m : symbols s → (∀ a p, m !! a = Some p → a ∈ U) →
  dt_dlib_reset (le_syms env) (view ids0 s m) false = ids0.
Proof using lib.
  intros Hs Hm. apply map_eq. intros a. rewrite reset_lookup, !view_lookup. destruct (ids0 !! a) as [i|] eqn:Hi.
  2:{ by destruct (decide (a ∈ L)). }
  cbn. assert (di_kind i ≠ DT_IDENT_SYMBOL ∨ a ∉ L → mark s m a i = i) as Hno.
  { intros Hk. unfold mark. rewrite decide_False.
    - destruct (m !! a) as [p|] eqn:Hp; [|by destruct i].
      destruct (lib_fun _ _ _ _ lib a (Hm _ _ Hp)) as (i' & d & Hi' & Hk' & _ & _ & _ & HL). simplify_eq. tauto.
    - intros Has. destruct (Hs a Has) as (? & i' & Hi' & Hk'). simplify_eq. tauto. }
  destruct (decide (a ∈ L)) as [Ha|Ha]; [|f_equal; apply Hno; tauto]. f_equal. unfold dt_dlib_idreset.
  change (di_kind (mark s m a i)) with (di_kind i). destruct (Z.eqb_spec (di_kind i) DT_IDENT_SYMBOL) as [Hk|Hk]; [|apply Hno; tauto].
  destruct (lib_fresh _ _ _ _ lib a i Ha Hi Hk) as [Hf Hid]. pose proof (ldiff_ref (di_flags i) Hf (bool_decide (a ∈ s))) as Hl.
  unfold mark, set_id, set_flags. cbn. rewrite bool_decide_decide in Hl. destruct (decide (a ∈ s)); rewrite Hl; destruct i; cbn in *; congruence.
Qed.

End Resolve.

End LinkResolve.
