(* ===== verification/LinkCorrect.v ===== *)
(** * What dt_link() achieves *)
From S2P Require Import Prelude CLib StrTable Ident DtMap DtAs DtLink LinkGraph LinkBuild LinkResolve.
#[local] Open Scope Z_scope.
Import Ident DtMap DtAs DtLink LinkGraph LinkBuild LinkResolve.

Module LinkCorrect.

Section Link.
Context {T : Type} `{!StringTable T, !StringTableLaws T}.
Context (env : link_env) (ids0 : idheap) (L : list Z) (U : gset Z).

(** All the functions of the library, summed up. *)
Definition lib_total (f : dtrace_difo → Z) : Z :=
  foldr (λ c n, match difo_of env ids0 c with Some d => f d + n | None => n end) 0 (elements U).

(** What is linked: the code [d] for a probe, with the identifier [idp], and
    how much there is of it. *)
Record linkable (d : dtrace_difo) (idp : Z) (dd : ddheap) (hdl : dtrace_hdl) (boot bootv : Z) : Prop := {
  ln_lib : library env ids0 L U;
  ln_unit : unit_ok env ids0 d;
  ln_idp : idp = 0 ∨ idp ∈ L ∧ ∃ i, ids0 !! idp = Some i ∧ di_kind i = DT_IDENT_SYMBOL;
  ln_needs r c : r ∈ relocs ids0 idp d → callee env ids0 d r = Some c → c ∈ U;
  ln_epids : epids_ready env ids0 U d (if idp =? 0 then ∅ else {[idp]}) (dd, hdl);
  ln_boot : boot_ok env bootv boot;
  ln_len : dtdo_len d + lib_total dtdo_len < 2 ^ 31;
  ln_brelen : dtdo_brelen d + lib_total dtdo_brelen < 2 ^ 31;
  ln_varlen : dtdo_varlen d + lib_total dtdo_varlen < 2 ^ 31;
  ln_strs : 1 + strs d + lib_total strs < 2 ^ 31
}.

Lemma total_bound f B : (∀ d, 0 <= f d) → NoDup (b_syms B) →
  Forall (λ b, b_sym b ∈ U ∧ difo_of env ids0 (b_sym b) = Some (b_difo b)) B → total f B <= lib_total f.
Proof.
  intros Hf Hn HB. unfold lib_total.
  assert (b_syms B ⊆+ elements U) as Hsub.
  { apply NoDup_submseteq; [done|]. intros c Hc. unfold b_syms in Hc. apply list_elem_of_fmap in Hc as (b & -> & Hb).
    apply elem_of_elements. rewrite Forall_forall in HB. by apply HB. }
  set (g := λ c n, match difo_of env ids0 c with Some d => f d + n | None => n end).
  assert (∀ l, 0 <= foldr g 0 l) as Hpos.
  { intros l. induction l as [|c l IH]; cbn; [done|]. unfold g at 1. destruct (difo_of _ _ c) as [d|]; [specialize (Hf d); lia|done]. }
  assert (total f B = foldr g 0 (b_syms B)) as ->.
  { clear Hn Hsub. induction HB as [|b B [_ Hb] HB IH]; [done|]. unfold b_syms in *. cbn. unfold g at 1. rewrite Hb, <- IH. done. }
  clear HB Hn. induction Hsub as [|c l k Hs IH|c c' l|c l k Hs IH|l k j _ IH1 _ IH2]; cbn.
  - done.
  - unfold g at 1 3. destruct (difo_of _ _ c); lia.
  - unfold g. destruct (difo_of _ _ c), (difo_of _ _ c'); lia.
  - unfold g at 2. destruct (difo_of _ _ c) as [d|]; [specialize (Hf d); lia|done].
  - lia.
Qed.

(** The tables of the result, with the names found in its string table. *)
Definition vars_named (dp : dtrace_difo) (p base : Z) (b : block) : Prop :=
  seg (λ _ v nv, dt_difo_getstr dp (dtdv_name nv) = Some (vname (b_difo b) v) ∧
         nv = mk_difv (dtdv_name nv) (dtdv_id v) (dtdv_offset v) (dtdv_kind v) (dtdv_scope v)
                (u32 (dtdv_insn_from v + base)) (u32 (dtdv_insn_to v + base)) (dtdv_flags v) (dtdv_type v))
    (dtdo_vartab (b_difo b)) (dtdo_vartab dp) p.

Definition rels_named (G : gmap Z Z) (bootv : Z) (dp : dtrace_difo) (p base : Z) (b : block) : Prop :=
  seg (λ j r nr, dt_difo_getstr dp (dofr_name nr) = Some (rname (b_difo b) r) ∧
         dofr_type nr = final_type env ids0 (inlined ids0 (b_sym b)) (b_difo b) r ∧
         dofr_offset nr = dofr_offset r + 8 * base ∧ dofr_data nr = b_final env ids0 G bootv b base j r)
    (dtdo_breltab (b_difo b)) (dtdo_breltab dp) p.

(** The DIFO [dp] has the functions [root] and [B], one after the other. *)
Record is_linked (bootv : Z) (root : block) (B : list block) (dp : dtrace_difo) : Prop := {
  il_buf : dtdo_buf dp = text env ids0 (place (b_len root) B) bootv 0 (root :: B);
  il_rels : along dtdo_brelen (rels_named (place (b_len root) B) bootv dp) 0 0 (root :: B);
  il_brelen : dtdo_brelen dp = total dtdo_brelen (root :: B);
  il_vars : along dtdo_varlen (vars_named dp) 0 0 (root :: B);
  il_varlen : dtdo_varlen dp = total dtdo_varlen (root :: B);
  il_flags : dtdo_flags dp = add_flags 0 B;
  il_ddesc : dtdo_ddesc dp = dtdo_ddesc (b_difo root)
}.

Lemma along_codes buf B : ∀ p, 0 <= p → Z.of_nat (length buf) = p + total dtdo_len B →
  along dtdo_len (λ p _, code_there buf p) p p B → drop (Z.to_nat p) buf = codes B.
Proof.
  induction B as [|b B IH]; intros p Hp Hl; cbn [along total foldr] in *.
  - intros _. by rewrite drop_ge by lia.
  - fold (total dtdo_len B) in *. pose proof (total_nonneg _ B len_nonneg). intros [Hb HB]. unfold b_len in HB.
    rewrite <- (take_drop (length (dtdo_buf (b_difo b))) (drop (Z.to_nat p) buf)), drop_drop.
    change (codes (b :: B)) with (dtdo_buf (b_difo b) ++ codes B). f_equal.
    + assert (Forall2 (flip eq) (imap (const id) (dtdo_buf (b_difo b))) (take (length (dtdo_buf (b_difo b))) (drop (Z.to_nat p) buf))) as HF.
      { eapply seg_Forall2; [done|unfold dtdo_len in Hl at 1; lia| |exact Hb]. done. }
      rewrite imap_const, list_fmap_id in HF. by apply list_eq_Forall2, Forall2_flip.
    + rewrite <- (IH (p + dtdo_len (b_difo b))); [|unfold dtdo_len; lia|lia|done]. f_equal. unfold dtdo_len. lia.
Qed.

Lemma items_ok buf B : Forall (λ b, unit_ok env ids0 (b_difo b)) B → ∀ base, 0 <= base →
  base + total dtdo_len B <= Z.of_nat (length buf) < 2 ^ 31 →
  along dtdo_len (λ p _, code_there buf p) base base B → Forall (item_ok env ids0 buf) (items base B).
Proof.
  induction 1 as [|b B Hu H IH]; intros base Hb Hl; cbn [along items total foldr] in *; [done|].
  fold (total dtdo_len B) in *. pose proof (total_nonneg _ B len_nonneg). pose proof (len_nonneg (b_difo b)). intros [Hc HB].
  apply Forall_app. split; [|apply IH; unfold b_len; [lia|lia|done]].
  apply Forall_forall. intros it Hit. apply elem_of_lookup_imap in Hit as (j & r & -> & Hr).
  refine (conj Hu (conj _ (conj Hb (conj _ _)))); [by eapply list_elem_of_lookup_2|unfold b_len; lia|].
  intros k x Hx. destruct (Hc k x Hx) as (y & Hy & ->). eauto.
Qed.

(** ** The steps of dt_link() *)

(** The functions seen when [idp] is entered. *)
Definition seen0 (idp : Z) : gset Z := if idp =? 0 then ∅ else {[idp]}.

Section Steps.
Context (d : dtrace_difo) (idp : Z) (dd : ddheap) (hdl : dtrace_hdl) (boot bootv : Z).
Hypothesis Hln : linkable d idp dd hdl boot bootv.
Let lib := ln_lib _ _ _ _ _ _ Hln.

(** The functions that are linked. *)
Context (cl : list Z) (B : list block) (s' : gset Z) (es' : ddheap * dtrace_hdl).
Hypothesis Hl : linked env ids0 d (relocs ids0 idp d) 0 (le_prid env) (seen0 idp) (dd, hdl) cl B s' es'.
#[local] Abbreviation root := (mk_block idp d 0 cl).
#[local] Abbreviation places := (place (dtdo_len d) B).

Lemma enter_root m : enter (view ids0 ∅ m) idp = Some (view ids0 (seen0 idp) m, inlined ids0 idp).
Proof using Hln. clear Hl.
  unfold seen0. destruct (Z.eqb_spec idp 0) as [->|Hne]; [done|].
  destruct (ln_idp _ _ _ _ _ _ Hln) as [?|(_ & i & Hi & _)]; [done|]. rewrite (enter_view _ _ _ idp i) by done.
  by rewrite union_empty_r_L.
Qed.

Lemma blocks_in : NoDup (b_syms B) ∧ Forall (λ b, b_sym b ∈ U ∧ difo_of env ids0 (b_sym b) = Some (b_difo b)) B.
Proof using Hln Hl.
  split; [by eapply linked_seen|]. eapply linked_in; [apply lib|exact Hl|]. intros r c. apply (ln_needs _ _ _ _ _ _ Hln).
Qed.

Lemma blocks_units : Forall (λ b, unit_ok env ids0 (b_difo b)) (root :: B).
Proof using Hln Hl.
  constructor; [apply Hln|]. eapply Forall_impl; [apply blocks_in|]. intros b [Hb Hd].
  destruct (fun_difo _ _ _ _ lib _ Hb) as (i & d' & _ & _ & _ & _ & _ & Hd' & Hu). simpl in Hd. congruence.
Qed.

Lemma blocks_fit f : (∀ d, 0 <= f d) → f d + lib_total f < 2 ^ 31 → 0 <= total f (root :: B) < 2 ^ 31.
Proof using Hln Hl.
  intros Hf Hb. destruct blocks_in as [Hn HB]. pose proof (total_bound f B Hf Hn HB). pose proof (total_nonneg f B Hf).
  cbn [total foldr b_difo]. fold (total f B). specialize (Hf d). lia.
Qed.

Lemma blocks_symbols : symbols ids0 L s'.
Proof using Hln Hl.
  destruct (linked_seen _ _ _ _ _ _ _ _ _ _ _ _ Hl) as (_ & _ & Es). destruct blocks_in as [_ HB].
  intros a Ha. rewrite Es in Ha. apply elem_of_union in Ha as [Ha|Ha].
  - unfold seen0 in Ha. destruct (Z.eqb_spec idp 0) as [->|Hne]; [set_solver|]. apply elem_of_singleton in Ha as ->.
    by destruct (ln_idp _ _ _ _ _ _ Hln) as [?|?].
  - apply elem_of_list_to_set in Ha. unfold b_syms in Ha. apply list_elem_of_fmap in Ha as (b & -> & Hb).
    rewrite Forall_forall in HB. destruct (HB b Hb) as [HbU _].
    destruct (lib_fun _ _ _ _ lib _ HbU) as (i & d' & Hi & Hk & _ & _ & _ & HL). split; [done|]. by exists i.
Qed.

Lemma places_in a p : places !! a = Some p → a ∈ U.
Proof using Hln Hl.
  intros Ha. destruct blocks_in as [_ HB]. assert (a ∈ b_syms B) as Hin.
  { apply dec_stable. intros Hn. apply (place_lookup_None (dtdo_len d)) in Hn. congruence. }
  unfold b_syms in Hin. apply list_elem_of_fmap in Hin as (b & -> & Hb). rewrite Forall_forall in HB. by apply HB.
Qed.

(** The layout. *)
Lemma layout_step fuel : (base.size U <= fuel)%nat →
  dt_link_layout env (S fuel) d idp (mk_layout ids0 hdl 0 0 0) =
    Some (0, mk_layout (view ids0 s' places) hdl (total dtdo_len (root :: B)) (total dtdo_brelen (root :: B))
               (total dtdo_varlen (root :: B))).
Proof using Hln Hl.
  intros Hfuel. pose proof (blocks_fit _ len_nonneg (ln_len _ _ _ _ _ _ Hln)) as F1.
  pose proof (blocks_fit _ brelen_nonneg (ln_brelen _ _ _ _ _ _ Hln)) as F2.
  pose proof (blocks_fit _ varlen_nonneg (ln_varlen _ _ _ _ _ _ Hln)) as F3.
  cbn [total foldr b_difo] in *. fold (total dtdo_len B) (total dtdo_brelen B) (total dtdo_varlen B) in *.
  pose proof (total_nonneg _ B len_nonneg). pose proof (total_nonneg _ B brelen_nonneg). pose proof (total_nonneg _ B varlen_nonneg).
  pose proof (len_nonneg d). pose proof (brelen_nonneg d). pose proof (varlen_nonneg d).
  cbn [dt_link_layout ly_ids ly_hdl ly_pc ly_rc ly_vc]. rewrite <- (view_start ids0) at 1. rewrite enter_root. cbn [mbind option_bind].
  rewrite !Z.add_0_l, !wrap_id by (unfold urange; lia). unfold relocs in Hl.
  destruct (inlined ids0 idp) eqn:Hinl.
  - inversion Hl; subst. cbn [place total foldr]. by rewrite !Z.add_0_r.
  - rewrite (layout_deps_spec _ _ _ _ lib _ _ _ _ _ _ _ _ _ _ Hl); try (unfold fits; lia); try done.
    + by rewrite map_union_empty.
    + apply Hln.
    + intros r c. pose proof (ln_needs _ _ _ _ _ _ Hln r c) as Hn. unfold relocs in Hn. by rewrite Hinl in Hn.
    + etransitivity; [apply subseteq_size|exact Hfuel]. set_solver.
Qed.

(** The state in which the construction starts. *)
Definition link0 (ids : idheap) (stab : T) (B : list block) : link :=
  mk_link ids dd hdl boot stab (replicate (Z.to_nat (total dtdo_len B)) zero_insn)
    (replicate (Z.to_nat (total dtdo_varlen B)) zero_difv) (replicate (Z.to_nat (total dtdo_brelen B)) zero_relo) 0 0 0 0.

Lemma construct_step fuel stab : (base.size U <= fuel)%nat → tab_ok stab → tab_used stab = 1 →
  ∃ st, dt_link_construct env (S fuel) d idp 0 0 (link0 (view ids0 ∅ places) stab (root :: B)) = Some (0, st) ∧
    grown env ids0 places bootv 0 0 (link0 (view ids0 ∅ places) stab (root :: B)) st (root :: B) ∧
    lk_ids st = view ids0 s' places ∧ (lk_dd st, lk_hdl st) = es' ∧ lk_flags st = add_flags 0 B.
Proof using Hln Hl.
  intros Hfuel Htab Hused. pose proof (blocks_fit _ len_nonneg (ln_len _ _ _ _ _ _ Hln)) as F1.
  pose proof (blocks_fit _ brelen_nonneg (ln_brelen _ _ _ _ _ _ Hln)) as F2.
  pose proof (blocks_fit _ varlen_nonneg (ln_varlen _ _ _ _ _ _ Hln)) as F3.
  destruct blocks_in as [Hn HB]. pose proof (total_bound strs B strs_nonneg Hn HB) as F4.
  set (st0 := link0 _ _ _).
  destruct (construct_call env ids0 L U lib places bootv places_in d idp 0 0 ∅ (seen0 idp) s' (dd, hdl) es' cl B fuel st0)
    as (st & Hc & Hg & Hi & He & Hf).
  - apply Hln.
  - apply enter_root.
  - intros r c. apply (ln_needs _ _ _ _ _ _ Hln).
  - etransitivity; [apply subseteq_size|exact Hfuel]. set_solver.
  - done.
  - exact Hl.
  - eapply construct_deps_spec; [apply lib|apply places_in|exact Hl].
  - constructor; try done; try (cbn [st0 link0 lk_pc lk_rc lk_vc lk_buf lk_breltab lk_vartab]; rewrite length_replicate, Z2Nat.id; lia).
    + apply Hln.
    + cbn [st0 link0 lk_stab total foldr b_difo]. fold (total strs B). pose proof (ln_strs _ _ _ _ _ _ Hln). lia.
  - done.
  - exists st. by rewrite swrap_id in Hc by (unfold srange; cbn; lia).
Qed.

Lemma reloc_named b r : b ∈ root :: B → r ∈ dtdo_breltab (b_difo b) → cstring (rname (b_difo b) r).
Proof using Hln Hl.
  intros Hb Hr. pose proof blocks_units as Hu. rewrite Forall_forall in Hu. destruct (uo_name _ _ _ (Hu b Hb) r Hr) as (n & Hn & Hs).
  unfold rname. by rewrite Hn.
Qed.

Lemma var_named b v : b ∈ root :: B → v ∈ dtdo_vartab (b_difo b) → cstring (vname (b_difo b) v).
Proof using Hln Hl.
  intros Hb Hr. pose proof blocks_units as Hu. rewrite Forall_forall in Hu. destruct (uo_var _ _ _ (Hu b Hb) v Hr) as (n & Hn & Hs).
  unfold vname. by rewrite Hn.
Qed.

Lemma along_in f (P Q : Z → Z → block → Prop) C : ∀ p base, (∀ p base b, b ∈ C → P p base b → Q p base b) →
  along f P p base C → along f Q p base C.
Proof using Type.
  induction C as [|b C IH]; intros p base HPQ; cbn [along]; [done|]. intros [H1 H2].
  split; [apply HPQ; [by left|done]|]. apply IH; [|done]. intros p' base' b' Hb'. apply HPQ. by right.
Qed.

(** The finished DIFO. *)
Lemma finish_step stab st bytes : tab_ok stab →
  grown env ids0 places bootv 0 0 (link0 (view ids0 ∅ places) stab (root :: B)) st (root :: B) →
  lk_flags st = add_flags 0 B → tab_bytes (lk_stab st) = Some bytes →
  ∃ dp', dt_link_resolve env (mk_difo (lk_buf st) bytes (lk_vartab st) (lk_flags st) (lk_breltab st) (dtdo_ddesc d)) ids0 = Some dp' ∧
    is_linked bootv root B dp'.
Proof using Hln Hl.
  intros Htab Hg Hf Hb. pose proof (blocks_fit _ len_nonneg (ln_len _ _ _ _ _ _ Hln)) as F1.
  pose proof (blocks_fit _ brelen_nonneg (ln_brelen _ _ _ _ _ _ Hln)) as F2. pose proof (blocks_fit _ varlen_nonneg (ln_varlen _ _ _ _ _ _ Hln)) as F3.
  destruct Hg as [Gt _ _ _ [Lb _] [Lv _] [Lr _] Gc Gv Gr _]. cbn [link0 lk_buf lk_vartab lk_breltab lk_pc lk_vc lk_rc lk_stab] in *.
  rewrite length_replicate in Lb. rewrite length_replicate in Lv. rewrite length_replicate in Lr. set (dp := mk_difo _ _ _ _ _ _). set (C := root :: B) in *.
  pose proof (λ off n, stored_getstr (lk_stab st) dp off n (tg_ok _ _ _ Gt) Hb) as Hstr.
  pose proof (along_items env ids0 places bootv (lk_stab st) (lk_breltab st) C 0 0 ltac:(lia) ltac:(lia) Gr) as Hits. rewrite drop_0 in Hits.
  pose proof (along_codes (lk_buf st) C 0 ltac:(lia) ltac:(lia) Gc) as Hcode. rewrite drop_0 in Hcode.
  pose proof (resolve_loop_spec env ids0 L U lib places bootv _ dp ∅ ∅ _ _ Hits (lk_buf st)
    (items_ok (lk_buf st) C blocks_units 0 ltac:(lia) ltac:(lia) Gc) Hstr) as Hres. rewrite view_start in Hres.
  rewrite <- all_patches_items, Hcode, patch_all_text in Hres by apply blocks_units.
  unfold dt_link_resolve. change (dtdo_breltab dp) with (lk_breltab st). change (dtdo_buf dp) with (lk_buf st). rewrite Hcode, Hres.
  cbn [mbind option_bind]. eexists. split; [done|]. constructor; try done.
  - eapply along_in; [|exact Gr]. intros p base b Hin Hs j r Hr. destruct (Hs j r Hr) as (nr & Hnr & [En Et Eo Ed]). exists nr.
    split; [done|]. split_and!; try done. apply Hstr; [done|]. apply reloc_named; [done|by eapply list_elem_of_lookup_2].
  - change (Z.of_nat (length (lk_breltab st)) = total dtdo_brelen C). lia.
  - eapply along_in; [|exact Gv]. intros p base b Hin Hs j v Hv. destruct (Hs j v Hv) as (nv & Hnv & [En Er]). exists nv.
    split; [done|]. split; [|done]. apply Hstr; [done|]. apply var_named; [done|by eapply list_elem_of_lookup_2].
  - change (Z.of_nat (length (lk_vartab st)) = total dtdo_varlen C). lia.
Qed.

End Steps.

(** All allocations succeed. *)
Definition plenty : link_mem := mk_link_mem true true true true true true.

(** There are such functions. *)
Lemma link_exists d idp dd hdl boot bootv : linkable d idp dd hdl boot bootv →
  ∃ cl B s' es', linked env ids0 d (relocs ids0 idp d) 0 (le_prid env) (seen0 idp) (dd, hdl) cl B s' es'.
Proof.
  intros Hln.
  destruct (linked_exists env ids0 L U (ln_lib _ _ _ _ _ _ Hln) d (base.size (U ∖ seen0 idp)) d (relocs ids0 idp d) 0 (le_prid env)
    (seen0 idp) (dd, hdl)) as (cl & B & s' & es' & Hl & _).
  - done.
  - apply Hln.
  - by left.
  - unfold relocs. destruct (inlined ids0 idp); set_solver.
  - intros r c. apply (ln_needs _ _ _ _ _ _ Hln).
  - apply Hln.
  - apply (er_probe _ _ _ _ _ _ (ln_epids _ _ _ _ _ _ Hln)).
  - by exists cl, B, s', es'.
Qed.

Lemma dt_link_spec fuel d idp dd hdl boot bootv :
  linkable d idp dd hdl boot bootv → (base.size U < fuel)%nat →
  ∃ cl B s' dd' hdl' boot' dp',
    linked env ids0 d (relocs ids0 idp d) 0 (le_prid env) (seen0 idp) (dd, hdl) cl B s' (dd', hdl') ∧
    dt_link env fuel plenty ids0 dd hdl boot d idp = Some (mk_result 0 ids0 dd' hdl' boot' dp' false) ∧
    is_linked bootv (mk_block idp d 0 cl) B dp'.
Proof.
  intros Hln Hfuel. destruct fuel as [|fuel]; [lia|].
  destruct (link_exists _ _ _ _ _ _ Hln) as (cl & B & s' & [dd' hdl'] & Hl).
  pose proof (layout_step _ _ _ _ _ _ Hln _ _ _ _ Hl fuel ltac:(lia)) as Hlay.
  destruct tab_new_spec as (stab & Hnew & Htab & Hused).
  destruct (construct_step _ _ _ _ _ _ Hln _ _ _ _ Hl fuel stab ltac:(lia) Htab Hused) as (st & Hc & Hg & Hi & Hes & Hf).
  destruct (tab_bytes_spec (lk_stab st) (tg_ok _ _ _ (gr_tab _ _ _ _ _ _ _ _ _ Hg))) as (bytes & Hb & Hblen & _).
  destruct (finish_step _ _ _ _ _ _ Hln _ _ _ _ Hl stab st bytes Htab Hg Hf Hb) as (dp' & Hres & Hil).
  exists cl, B, s', dd', hdl', (lk_boot st), dp'. split; [done|]. split; [|done]. unfold dt_link. rewrite Hlay. cbn [mbind option_bind].
  change (0 =? -1) with false. cbn [ly_ids ly_hdl ly_pc ly_rc ly_vc].
  rewrite reset_ref with (L := L) (U := U) by (apply Hln || by eapply blocks_symbols).
  unfold link_alloc. cbn [plenty m_fdp m_buf m_breltab m_vartab m_stab m_strtab andb]. rewrite !orb_true_r. cbn [negb andb].
  rewrite Hnew. cbn [mbind option_bind]. unfold link0 in Hc. rewrite Hc. cbn [mbind option_bind]. change (0 =? -1) with false. cbn [negb].
  rewrite Hi, reset_all with (L := L) (U := U) by (apply Hln || (by eapply blocks_symbols) || by eapply places_in).
  rewrite Hb. cbn [mbind option_bind]. rewrite andb_false_r, Hres. cbn [mbind option_bind].
  by simplify_eq.
Qed.

(** C5: if the symbols of a program and of the functions in the library are
    defined and everything fits, dt_link() succeeds: it adds each function that
    is needed, directly or through others, once, in the order of a depth-first
    search.  The code of the result is that of the functions one after the
    other, each with its own relocations resolved: calls get the distance to
    the function, constants their value.  The relocations and variables of the
    functions follow each other too, moved by the function's position, with
    names that are in the new string table; the identifiers of the symbols are
    as they were. *)
Theorem dt_link_correct fuel d idp dd hdl boot bootv :
  linkable d idp dd hdl boot bootv → (base.size U < fuel)%nat →
  ∃ cl B s' dd' hdl' boot' dp',
    linked env ids0 d (relocs ids0 idp d) 0 (le_prid env) (seen0 idp) (dd, hdl) cl B s' (dd', hdl') ∧
    dt_link env fuel plenty ids0 dd hdl boot d idp = Some (mk_result 0 ids0 dd' hdl' boot' dp' false) ∧
    is_linked bootv (mk_block idp d 0 cl) B dp'.
Proof. apply dt_link_spec. Qed.

End Link.

End LinkCorrect.
