(* ===== verification/LinkRun.v ===== *)
(** * Running a linked program

    In the linked code a call names no function: it says how far away the
    function is.  A run of the linked code does what a run of the functions
    does that call each other by name. *)
From S2P Require Import Prelude CLib StrTable Bpf Ident DtMap DtAs DtLink LinkGraph LinkBuild LinkResolve LinkCorrect.
#[local] Open Scope Z_scope.
Import Bpf Ident DtMap DtAs DtLink LinkGraph LinkBuild LinkResolve LinkCorrect.

Module LinkRun.

(** ** The machine on linked code *)

Section Machine.
Context (helper : Z → list (option val) → mem → option (val * mem)).

(** As [Bpf.run], on instructions as they are stored. *)
Fixpoint lrun (fuel : nat) (X : list bpf_insn) (fb : Z) (pc : Z) (rs : regs) (m : mem) : option (option val * mem) :=
  match fuel with
  | O => None
  | S fuel =>
      x ← (if 0 <=? pc then X !! Z.to_nat pc else None);
      i ← decode_insn (λ _, EmptyString) x (default zero_insn (X !! Z.to_nat (pc + 1)));
      match i with
      | Alu op d s => rs ← alu_step rs op d s; lrun fuel X fb (pc + 1) rs m
      | Lddw d imm => lrun fuel X fb (pc + 1) (rset rs d (Int imm)) m
      | Ldx n d base off =>
          '(b, o) ← addr rs base off;
          v ← load m b o n; lrun fuel X fb (pc + 1) (rset rs d v) m
      | Stx n base off s =>
          '(b, o) ← addr rs base off;
          v ← rget rs s;
          m ← store m b o n v; lrun fuel X fb (pc + 1) rs m
      | St n base off imm =>
          '(b, o) ← addr rs base off;
          m ← store m b o n (Int (imm64 imm)); lrun fuel X fb (pc + 1) rs m
      | Ja (Rel n) => lrun fuel X fb (pc + 1 + n) rs m
      | Ja (Lab _) => None
      | J c d s (Rel n) =>
          a ← rget rs d; b ← sget rs s; t ← cond_val c a b;
          lrun fuel X fb (if t : bool then pc + 1 + n else pc + 1) rs m
      | J _ _ _ (Lab _) => None
      | Call h =>
          '(v, m) ← helper h (take 5 (drop 1 rs)) m;
          lrun fuel X fb (pc + 1) (after_call rs (Some v)) m
      | CallF _ =>
          '(v, m) ← lrun fuel X (fb - 1) (pc + 1 + imm x)
                      (None :: take 5 (drop 1 rs) ++ [None; None; None; None; Some (Ptr (fb - 1) 512)])
                      (<[fb - 1 := frame0]> m);
          lrun fuel X fb (pc + 1) (after_call rs v) (delete (fb - 1) m)
      | Exit => Some (rget rs r0, m)
      end
  end.

(** A call of the function at [base], as [Bpf.calls_to]. *)
Definition lcalls_to (X : list bpf_insn) (fb base : Z) (args : list val) (m : mem) (v : option val) (m' : mem) : Prop :=
  ∃ n m1, lrun n X fb base (None :: (Some <$> args) ++ replicate (9 - length args) None ++ [Some (Ptr fb 512)])
    (<[fb := frame0]> m) = Some (v, m1) ∧ m' = delete fb m1.

(** ** The simulation *)

Section Simulation.
Context (funs : string → option (list insn)) (X : list bpf_insn) (at_base : Z → list insn → Prop).

(** The instruction [i] of a function is [x] in the linked code. *)
Definition matches (pc : Z) (i : insn) : Prop :=
  ∃ x i', X !! Z.to_nat pc = Some x ∧ decode_insn (λ _, EmptyString) x (default zero_insn (X !! Z.to_nat (pc + 1))) = Some i' ∧
    match i with
    | CallF f => (∃ g, i' = CallF g) ∧ ∀ Q, funs f = Some Q → at_base (pc + 1 + imm x) Q
    | _ => i' = i
    end.

Hypothesis functions_match : ∀ base P k i, at_base base P → P !! k = Some i → 0 <= base ∧ matches (base + Z.of_nat k) i.

Lemma lrun_simulates fuel : ∀ base P fb pc rs m r, at_base base P →
  run helper funs fuel P fb pc rs m = Some r → lrun fuel X fb (base + pc) rs m = Some r.
Proof using functions_match.
  induction fuel as [|fuel IH]; intros base P fb pc rs m r Hat Hrun; [done|]. cbn [run lrun] in *.
  destruct (Z.leb_spec 0 pc) as [Hpc|]; [|done]. destruct (P !! Z.to_nat pc) as [i|] eqn:Hi; [|done]. cbn [mbind option_bind] in Hrun.
  destruct (functions_match _ _ _ _ Hat Hi) as (Hb & x & i' & Hx & Hdec & Hm). rewrite Z2Nat.id in Hx, Hdec, Hm by done.
  rewrite (proj2 (Z.leb_le 0 (base + pc))), Hx by lia. cbn [mbind option_bind]. rewrite Hdec. cbn [mbind option_bind].
  assert (∀ n, base + pc + n = base + (pc + n)) as Ea by lia.
  assert (∀ n, base + pc + 1 + n = base + (pc + 1 + n)) as Ej by lia.
  destruct i; try subst i'.
  9:{ destruct Hm as [[g ->] Hat']. destruct (funs f) as [Q|] eqn:Hf; [|done]. cbn [mbind option_bind] in Hrun. specialize (Hat' Q eq_refl).
      destruct (run helper funs fuel Q _ 0 _ _) as [[v m1]|] eqn:Er; [|done]. cbn [mbind option_bind] in Hrun.
      apply (IH (base + pc + 1 + imm x)) in Er; [|done]. rewrite Z.add_0_r in Er. rewrite Er. cbn [mbind option_bind].
      rewrite Ea. by eapply IH. }
  all: repeat first
    [ done | rewrite Ea; by eapply IH | rewrite Ej; by eapply IH
    | match type of Hrun with
      | (?y ≫= _) = Some _ => destruct y as [?|]; [|done]; cbn [mbind option_bind] in Hrun |- *
      end
    | case_match ].
Qed.

End Simulation.

End Machine.

(** ** The functions of a linked program *)

(** Decoding, with the name of the function that each instruction calls. *)
Fixpoint decode_named (sym : nat → string) (k : nat) (buf : list bpf_insn) : option (list insn) :=
  match buf with
  | [] => Some []
  | x :: buf =>
      i ← decode_insn (λ _, sym k) x (default zero_insn (head buf));
      P ← decode_named sym (S k) buf;
      Some (i :: P)
  end.

Lemma decode_named_lookup sym k0 buf P k i : decode_named sym k0 buf = Some P → P !! k = Some i →
  ∃ x, buf !! k = Some x ∧ decode_insn (λ _, sym (k0 + k)%nat) x (default zero_insn (buf !! S k)) = Some i.
Proof.
  revert k0 P k. induction buf as [|x buf IH]; intros k0 P k Hd Hk; cbn [decode_named] in Hd; [by simplify_eq|].
  destruct (decode_insn _ _ _) as [i0|] eqn:E0; [|done]. cbn [mbind option_bind] in Hd.
  destruct (decode_named sym (S k0) buf) as [P'|] eqn:E1; [|done]. cbn [mbind option_bind] in Hd. simplify_eq.
  destruct k as [|k]; cbn in Hk |- *.
  - simplify_eq. exists x. split; [done|]. rewrite Nat.add_0_r. by destruct buf.
  - destruct (IH _ _ _ E1 Hk) as (y & Hy & Hi). exists y. split; [done|]. by rewrite Nat.add_succ_r.
Qed.

(** Only 64-bit loads use the next slot. *)
Lemma decode_next sym x n1 n2 : BPF_CLASS (code x) ≠ BPF_LD → decode_insn sym x n1 = decode_insn sym x n2.
Proof. unfold decode_insn, BPF_LD. intros H. destruct (BPF_CLASS (code x)) as [|p|p]; [done|..]; done. Qed.

(** The name only matters for calls of functions. *)
Lemma decode_sym f x n i : decode_insn (λ _, f) x n = Some i →
  (decode_insn (λ _, EmptyString) x n = Some i ∧ ∀ g, i ≠ CallF g) ∨
  (i = CallF f ∧ decode_insn (λ _, EmptyString) x n = Some (CallF EmptyString) ∧ is_fcall x = true).
Proof.
  unfold decode_insn, is_fcall, BPF_JMP, BPF_CALL. intros H.
  repeat case_match; simplify_eq; try done; try (right; done);
    left; (split; [done|]); intros g Hg; first [discriminate Hg|subst i];
    repeat match type of H with (?y ≫= _) = _ => destruct y; [|done]; cbn [mbind option_bind] in H end; done.
Qed.

Fixpoint positions (base : Z) (B : list block) : list (block * Z) :=
  match B with
  | [] => []
  | b :: B => (b, base) :: positions (base + b_len b) B
  end.

Lemma positions_range base B b p : (b, p) ∈ positions base B → base <= p ∧ p + b_len b <= base + total dtdo_len B ∧ b ∈ B.
Proof.
  revert base. induction B as [|b0 B IH]; intros base Hin; cbn [positions] in Hin; [by apply not_elem_of_nil in Hin|].
  cbn [total foldr]. fold (total dtdo_len B). unfold b_len in *. pose proof (len_nonneg (b_difo b0)). pose proof (total_nonneg _ B len_nonneg).
  apply elem_of_cons in Hin as [[= -> ->]|Hin]; [split_and!; [lia|lia|by left]|].
  destruct (IH _ Hin) as (? & ? & ?). split_and!; [lia|lia|by right].
Qed.

Lemma positions_place base B b p : NoDup (b_syms B) → (b, p) ∈ positions base B → place base B !! b_sym b = Some p.
Proof.
  revert base. induction B as [|b0 B IH]; intros base Hn Hin; cbn [positions place] in *; [by apply not_elem_of_nil in Hin|].
  unfold b_syms in Hn. cbn [fmap list_fmap] in Hn. apply NoDup_cons in Hn as [Hb Hn].
  apply elem_of_cons in Hin as [[= -> ->]|Hin]; [apply lookup_insert_eq|]. rewrite lookup_insert_ne; [by apply IH|].
  intros E. apply Hb. rewrite E. apply list_elem_of_fmap_2. by apply (positions_range _ _ _ _ Hin).
Qed.

Section Linked.
Context (env : link_env) (ids0 : idheap) (G : gmap Z Z) (bootv : Z) (nm : Z → string).

(** The function that the instruction [k] of a function calls. *)
Definition call_of (d : dtrace_difo) (k : nat) : option Z :=
  head (omap (λ r, if (dofr_offset r =? 8 * Z.of_nat k) && (dofr_type r =? R_BPF_64_32)
                   then callee env ids0 d r else None) (dtdo_breltab d)).

Definition call_name (b : block) (k : nat) : string := match call_of (b_difo b) k with Some c => nm c | None => EmptyString end.

(** The program of a function at [base]: calls by name, and all other
    relocations resolved. *)
Definition program (b : block) (base : Z) : option (list insn) :=
  decode_named (call_name b) 0 (linked_code env ids0 G bootv b base).

Definition funs_of (C : list block) (f : string) : option (list insn) :=
  '(b, base) ← find (λ p, bool_decide (nm (b_sym p.1) = f)) (positions 0 C); program b base.

(** Every call of a function has a relocation, and a function does not end
    within an instruction. *)
Record calls_ok (d : dtrace_difo) : Prop := {
  co_call k x : dtdo_buf d !! k = Some x → is_fcall x = true → is_Some (call_of d k);
  co_last x : last (dtdo_buf d) = Some x → BPF_CLASS (code x) ≠ BPF_LD
}.

Lemma call_of_reloc d k c : call_of d k = Some c → ∃ j r, dtdo_breltab d !! j = Some r ∧
  dofr_offset r = 8 * Z.of_nat k ∧ dofr_type r = R_BPF_64_32 ∧ callee env ids0 d r = Some c.
Proof.
  unfold call_of. intros H. apply head_Some_elem_of in H. apply list_elem_of_omap in H as (r & Hr & Hc).
  destruct (Z.eqb_spec (dofr_offset r) (8 * Z.of_nat k)), (Z.eqb_spec (dofr_type r) R_BPF_64_32); cbn [andb] in Hc; try done.
  apply list_elem_of_lookup_1 in Hr as [j Hj]. by exists j, r.
Qed.

(** The value that a relocation gives to an instruction, and the instructions
    that have none. *)
Lemma reloc_value b base j r k v : unit_ok env ids0 (b_difo b) → dtdo_breltab (b_difo b) !! j = Some r →
  (base + k, v) ∈ reloc_patches env ids0 G bootv b base j r → value_at (own_patches env ids0 G bootv b base) (base + k) = Some v.
Proof.
  intros Hu Hj Hin. destruct (own_patches_ok env ids0 G bootv b base Hu) as [Hn _].
  apply elem_of_list_to_map_1; [done|]. unfold own_patches. apply list_elem_of_In, in_concat.
  exists (reloc_patches env ids0 G bootv b base j r). split; [|by apply list_elem_of_In].
  apply list_elem_of_In, elem_of_lookup_imap. by exists j, r.
Qed.

Lemma reloc_none b base k : (∀ r, r ∈ dtdo_breltab (b_difo b) → k ∉ touched r) →
  value_at (own_patches env ids0 G bootv b base) (base + k) = None.
Proof.
  clear nm. intros Hk. apply not_elem_of_list_to_map_1. intros Hin.
  assert (base + k ∈ Z.add base <$> concat (touched <$> dtdo_breltab (b_difo b))) as Hin'.
  { eapply elem_of_submseteq; [exact Hin|]. apply sublist_submseteq, own_patches_touched. }
  apply list_elem_of_fmap in Hin' as (k' & Ek & Hk'). assert (k' = k) as -> by lia.
  apply list_elem_of_In, in_concat in Hk' as (l & Hl & Hkl). apply list_elem_of_In in Hl, Hkl.
  apply list_elem_of_fmap in Hl as (r & -> & Hr). by apply (Hk r).
Qed.

(** The value in a call is the distance to the function. *)
Lemma call_patched b base k c x : unit_ok env ids0 (b_difo b) → inlined ids0 (b_sym b) = false → call_of (b_difo b) k = Some c →
  value_at (own_patches env ids0 G bootv b base) (base + Z.of_nat k) = Some (u32 (u64 (position G c - (base + Z.of_nat k) - 1))) ∧
  patched (own_patches env ids0 G bootv b base) (base + Z.of_nat k) x =
    set_imm x (u32 (u64 (position G c - (base + Z.of_nat k) - 1))).
Proof.
  clear nm. intros Hu Hinl Hc. destruct (call_of_reloc _ k c Hc) as (j & r & Hj & Ho & Hty & Hca).
  assert (value_at (own_patches env ids0 G bootv b base) (base + Z.of_nat k) = Some (u32 (u64 (position G c - (base + Z.of_nat k) - 1)))) as Hv.
  { apply (reloc_value b base j r _ _ Hu Hj). destruct (callee_target _ _ _ _ _ Hca) as (i & Ht & _ & Hk).
    unfold reloc_patches, b_final, final_type, final_data. rewrite Ht, Hk, Hinl, Hty, Ho. cbn [andb].
    replace (8 * Z.of_nat k / 8) with (Z.of_nat k) by (rewrite Z.mul_comm, Z.div_mul; lia). cbn. by left. }
  split; [done|]. unfold patched. by rewrite Hv.
Qed.

Lemma length_linked_code b base : length (linked_code env ids0 G bootv b base) = length (dtdo_buf (b_difo b)).
Proof. apply length_imap. Qed.

Lemma text_lookup C base b p k : (b, p) ∈ positions base C → (k < length (dtdo_buf (b_difo b)))%nat →
  text env ids0 G bootv base C !! (Z.to_nat (p - base) + k)%nat = linked_code env ids0 G bootv b p !! k.
Proof.
  revert base. induction C as [|b0 C IH]; intros base Hin Hk; cbn [positions text] in *; [by apply not_elem_of_nil in Hin|].
  apply elem_of_cons in Hin as [[= -> ->]|Hin].
  - rewrite Z.sub_diag. cbn. apply lookup_app_l. by rewrite length_linked_code.
  - pose proof (positions_range _ _ _ _ Hin) as (Hp & _). unfold b_len, dtdo_len in Hp.
    rewrite lookup_app_r; rewrite length_linked_code; [|lia].
    rewrite <- (IH _ Hin Hk). f_equal. unfold b_len, dtdo_len. lia.
Qed.

Section Blocks.
Context (C : list block).
Hypothesis Hunits : Forall (λ b, unit_ok env ids0 (b_difo b) ∧ inlined ids0 (b_sym b) = false ∧ calls_ok (b_difo b)) C.
Hypothesis Hlen : total dtdo_len C < 2 ^ 31.
(** Every function called is there, at its position, and it is the only one of its name. *)
Hypothesis Hcalls : ∀ b k c, b ∈ C → call_of (b_difo b) k = Some c → ∃ b' p, (b', p) ∈ positions 0 C ∧ position G c = p ∧
  find (λ q, bool_decide (nm (b_sym q.1) = nm c)) (positions 0 C) = Some (b', p).

Definition stands_at (base : Z) (P : list insn) : Prop := ∃ b, (b, base) ∈ positions 0 C ∧ program b base = Some P.

Lemma stands_match base P k i : stands_at base P → P !! k = Some i →
  0 <= base ∧ matches (funs_of C) (text env ids0 G bootv 0 C) stands_at (base + Z.of_nat k) i.
Proof using Hunits Hlen Hcalls.
  intros (b & Hin & HP) Hk. pose proof (positions_range _ _ _ _ Hin) as (Hb0 & Hb1 & HbC). split; [done|].
  rewrite Forall_forall in Hunits. destruct (Hunits b HbC) as (Hu & Hinl & [Hcall Hlast]).
  destruct (decode_named_lookup _ _ _ _ _ _ HP Hk) as (x & Hx & Hd). cbn [Nat.add] in Hd.
  pose proof (lookup_lt_Some _ _ _ Hx) as Hlt. rewrite length_linked_code in Hlt.
  assert (text env ids0 G bootv 0 C !! Z.to_nat (base + Z.of_nat k) = Some x) as Htx.
  { rewrite <- Hx, <- (text_lookup C 0 b base k) by done. f_equal. lia. }
  unfold linked_code in Hx. rewrite list_lookup_imap in Hx. destruct (dtdo_buf (b_difo b) !! k) as [x0|] eqn:Hx0; [|done].
  cbn in Hx. injection Hx as Hx.
  assert (code x = code x0 ∧ src_reg x = src_reg x0) as [Ec Esr].
  { subst x. unfold patched. destruct (value_at _ _); done. }
  assert (decode_insn (λ _, call_name b k) x (default zero_insn (text env ids0 G bootv 0 C !! Z.to_nat (base + Z.of_nat k + 1))) = Some i) as Hdt.
  { rewrite <- Hd. destruct (decide (S k < length (dtdo_buf (b_difo b)))%nat) as [HS|HS].
    - replace (Z.to_nat (base + Z.of_nat k + 1)) with (Z.to_nat (base - 0) + S k)%nat by lia. by rewrite (text_lookup C 0 b base).
    - apply decode_next. rewrite Ec. apply Hlast. rewrite last_lookup. rewrite <- Hx0. f_equal. lia. }
  destruct (decode_sym _ _ _ _ Hdt) as [[Hd0 Hno]|(-> & Hd0 & Hfc)].
  - exists x, i. split_and!; [done|done|]. destruct i; try done. by destruct (Hno f).
  - exists x, (CallF EmptyString). split; [done|]. split; [done|]. split; [by eexists|].
    destruct (Hcall k x0 Hx0) as [c Hc]; [by unfold is_fcall in *; rewrite <- Ec, <- Esr|].
    destruct (Hcalls b k c HbC Hc) as (b' & p & Hin' & Hpos & Hfind). intros Q HQ. exists b'.
    unfold funs_of, call_name in HQ. rewrite Hc, Hfind in HQ. cbn [mbind option_bind] in HQ.
    destruct (call_patched b base k c x0 Hu Hinl Hc) as [_ Hp]. rewrite Hp in Hx. subst x. cbn [set_imm imm].
    pose proof (positions_range _ _ _ _ Hin') as (? & ? & _). pose proof (len_nonneg (b_difo b')). pose proof (len_nonneg (b_difo b)).
    assert (Z.of_nat k < dtdo_len (b_difo b)) by (unfold dtdo_len; lia). unfold b_len in *.
    rewrite wrap_wrap_le, swrap_wrap, swrap_id, Hpos by (unfold srange; lia).
    by replace (base + Z.of_nat k + 1 + (p - (base + Z.of_nat k) - 1)) with p by lia.
Qed.

(** A run of the program of a function is a run of the text. *)
Lemma text_runs helper P base fb pc rs m v m' : stands_at base P →
  runs_to helper (funs_of C) P fb pc rs m v m' →
  ∃ n, lrun helper n (text env ids0 G bootv 0 C) fb (base + pc) rs m = Some (v, m').
Proof using Hunits Hlen Hcalls.
  intros HP [n Hr]. exists n.
  by apply (lrun_simulates helper (funs_of C) _ stands_at (λ base P k i, stands_match base P k i) n base P).
Qed.

End Blocks.

End Linked.

(** ** The result of dt_link() runs as the functions do *)

Section Link.
Context {T : Type} `{!StringTable T, !StringTableLaws T}.
Context (env : link_env) (ids0 : idheap) (L : list Z) (U : gset Z).

(** The program and the functions that it may need are complete: not linked
    already, with a relocation for every call; and the program itself is none
    of the functions. *)
Record runnable (d : dtrace_difo) (idp : Z) : Prop := {
  rn_idp : (idp ∉ U) ∧ inlined ids0 idp = false;
  rn_calls : calls_ok env ids0 d;
  rn_funs c d' : c ∈ U → difo_of env ids0 c = Some d' → inlined ids0 c = false ∧ calls_ok env ids0 d'
}.

Lemma find_position (nm : Z → string) (C : list block) base b p : (∀ x y, nm x = nm y → x = y) → NoDup (b_syms C) →
  (b, p) ∈ positions base C →
  find (λ q, bool_decide (nm (b_sym q.1) = nm (b_sym b))) (positions base C) = Some (b, p).
Proof.
  intros Hnm. revert base. induction C as [|b0 C IH]; intros base Hn Hin; cbn [positions find] in *; [by apply not_elem_of_nil in Hin|].
  unfold b_syms in Hn. cbn [fmap list_fmap] in Hn. apply NoDup_cons in Hn as [Hb Hn]. cbn [fst].
  apply elem_of_cons in Hin as [[= -> ->]|Hin]; [by rewrite bool_decide_true|]. rewrite bool_decide_false; [by apply IH|].
  intros E. apply Hnm in E. apply Hb. rewrite E. apply list_elem_of_fmap_2. by apply (positions_range _ _ _ _ Hin).
Qed.

Lemma position_exists (C : list block) base c : c ∈ b_syms C → ∃ b p, (b, p) ∈ positions base C ∧ b_sym b = c.
Proof.
  revert base. induction C as [|b0 C IH]; intros base Hin; cbn [positions]; unfold b_syms in Hin; [by apply not_elem_of_nil in Hin|].
  cbn [fmap list_fmap] in Hin. apply elem_of_cons in Hin as [->|Hin]; [exists b0, base; split; [by left|done]|].
  destruct (IH (base + b_len b0) Hin) as (b & p & Hb & Hs). exists b, p. split; [by right|done].
Qed.

(** The calls of the linked functions go to linked functions. *)
Lemma calls_linked d idp dd hdl boot bootv cl B s' es' (nm : Z → string) b k c :
  (∀ x y, nm x = nm y → x = y) → linkable env ids0 L U d idp dd hdl boot bootv → runnable d idp →
  linked env ids0 d (relocs ids0 idp d) 0 (le_prid env) (seen0 idp) (dd, hdl) cl B s' es' →
  let C := mk_block idp d 0 cl :: B in
  b ∈ C → call_of env ids0 (b_difo b) k = Some c →
  ∃ b' p, (b', p) ∈ positions 0 C ∧ position (place (dtdo_len d) B) c = p ∧
    find (λ q, bool_decide (nm (b_sym q.1) = nm c)) (positions 0 C) = Some (b', p).
Proof.
  intros Hnm Hln [[Hidp Hi0] _ Hfuns] Hl C Hb Hc. destruct (blocks_in _ _ _ _ _ _ _ _ _ _ Hln _ _ _ _ Hl) as [Hn HB].
  destruct (linked_closed _ _ _ _ _ _ _ _ _ _ _ _ Hl) as [Hc0 HcB]. destruct (linked_seen _ _ _ _ _ _ _ _ _ _ _ _ Hl) as (_ & _ & Es).
  destruct (call_of_reloc _ _ _ _ _ Hc) as (j & r & Hj & _ & _ & Hca). apply list_elem_of_lookup_2 in Hj.
  rewrite Forall_forall in HB. rewrite Forall_forall in HcB.
  assert (c ∈ s' ∧ c ∈ U) as [Hcs HcU].
  { apply elem_of_cons in Hb as [->|Hb]; cbn [b_difo] in *.
    - unfold relocs in Hc0. rewrite Hi0 in Hc0. split; [by apply (Hc0 r)|].
      apply (ln_needs _ _ _ _ _ _ _ _ _ _ Hln r); [|done]. unfold relocs. by rewrite Hi0.
    - destruct (HB b Hb) as [HbU Hbd]. destruct (Hfuns _ _ HbU Hbd) as [Hbi _]. specialize (HcB b Hb). unfold relocs in HcB. rewrite Hbi in HcB.
      split; [by apply (HcB r)|]. eapply (lib_closed _ _ _ _ (ln_lib _ _ _ _ _ _ _ _ _ _ Hln)); [exact HbU|exact Hbd| |exact Hca].
      unfold relocs. by rewrite Hbi. }
  assert (c ∈ b_syms B) as HcB'.
  { rewrite Es in Hcs. apply elem_of_union in Hcs as [Hcs|Hcs]; [|by apply elem_of_list_to_set in Hcs].
    unfold seen0 in Hcs. destruct (idp =? 0); [by apply elem_of_empty in Hcs|]. apply elem_of_singleton in Hcs. congruence. }
  destruct (position_exists B (0 + b_len (mk_block idp d 0 cl)) c HcB') as (b' & p & Hin & Hs). exists b', p.
  assert ((b', p) ∈ positions 0 C) as HinC by (by right). split; [done|]. split.
  - unfold position. rewrite <- Hs. by rewrite (positions_place (dtdo_len d) B b' p).
  - rewrite <- Hs. apply find_position; [done| |done]. unfold b_syms. cbn [C fmap list_fmap b_sym]. apply NoDup_cons. split; [|done].
    intros Hin'. apply list_elem_of_fmap in Hin' as (b0 & -> & Hb0). by apply Hidp, HB.
Qed.

(** What is needed to run the linked functions. *)
Lemma linked_runs d idp dd hdl boot bootv cl B s' es' (nm : Z → string) helper P base fb pc rs m v m' :
  (∀ x y, nm x = nm y → x = y) → linkable env ids0 L U d idp dd hdl boot bootv → runnable d idp →
  linked env ids0 d (relocs ids0 idp d) 0 (le_prid env) (seen0 idp) (dd, hdl) cl B s' es' →
  let C := mk_block idp d 0 cl :: B in
  let G := place (dtdo_len d) B in
  stands_at env ids0 G bootv nm C base P → runs_to helper (funs_of env ids0 G bootv nm C) P fb pc rs m v m' →
  ∃ n, lrun helper n (text env ids0 G bootv 0 C) fb (base + pc) rs m = Some (v, m').
Proof.
  intros Hnm Hln Hrun Hl C G. destruct (blocks_in _ _ _ _ _ _ _ _ _ _ Hln _ _ _ _ Hl) as [_ HB].
  pose proof (blocks_units _ _ _ _ _ _ _ _ _ _ Hln _ _ _ _ Hl) as Hu. apply text_runs.
  - destruct Hrun as [[_ Hi0] Hc0 Hfuns]. apply Forall_cons_iff in Hu as [Hu0 Hu]. constructor; [done|].
    apply Forall_forall. intros b Hb. rewrite Forall_forall in HB, Hu. destruct (HB b Hb) as [HbU Hbd]. destruct (Hfuns _ _ HbU Hbd).
    split_and!; [by apply Hu|done|done].
  - apply (blocks_fit _ _ _ _ _ _ _ _ _ _ Hln _ _ _ _ Hl _ len_nonneg), Hln.
  - intros b k c. by eapply calls_linked.
Qed.


End Link.

End LinkRun.
