(* ===== verification/LinkExample.v ===== *)
(** * A small program, linked

    The library has the function [f] and the clause [g], which calls [f] and
    uses its enabled probe id; the program calls both.  The function [h] is
    declared but not defined. *)
From stdpp Require Import pretty.
From S2P Require Import Prelude CLib StrTable Strtab Bpf Ident DtMap DtAs DtLink LinkGraph LinkBuild LinkResolve LinkCorrect LinkRun.
#[local] Open Scope Z_scope.
Import Strtab Bpf Ident DtMap DtAs DtLink LinkGraph LinkBuild LinkResolve LinkCorrect LinkRun.

Module LinkExample.

(** ** The library *)

Definition names : list Z := [102; 0; 103; 0; 69; 80; 73; 68; 0; 104; 0].
Definition rel (name type off : Z) : dof_relodesc := mk_relo name type off 0.

Definition f_code : dtrace_difo := mk_difo [BPF_MOV_IMM 0 7; BPF_RETURN] names [] 0 [] 0.
Definition g_code : dtrace_difo :=
  mk_difo [BPF_MOV_IMM 6 (-1); BPF_CALL_FUNC (-1); BPF_ALU64_REG BPF_ADD 0 6; BPF_RETURN] names [] 1
    [rel 4 R_BPF_64_32 0; rel 0 R_BPF_64_32 8] 500.
Definition main_code : dtrace_difo :=
  mk_difo [BPF_CALL_FUNC (-1); BPF_MOV_REG 7 0; BPF_CALL_FUNC (-1); BPF_ALU64_REG BPF_ADD 0 7; BPF_RETURN] names
    [mk_difv 2 1 0 1 0 0 4 0 (mk_diftype 0 0 0 0 8)] 0
    [rel 2 R_BPF_64_32 0; rel 0 R_BPF_64_32 16] 0.

Definition attr0 : dtrace_attribute := mk_attr 5 5 5.
Definition symbol (name : list Z) (kind id data : Z) : dt_ident :=
  mk_ident (Some name) kind DT_IDFLG_BPF id attr0 0 0 0 data 0 0 0 0.

Definition idents : idheap :=
  list_to_map [(11, symbol [102] DT_IDENT_SYMBOL DT_IDENT_UNDEF 21); (12, symbol [103] DT_IDENT_SYMBOL DT_IDENT_UNDEF 22);
               (13, symbol [69; 80; 73; 68] DT_IDENT_SCALAR DT_CONST_EPID 0); (14, symbol [104] DT_IDENT_SYMBOL DT_IDENT_UNDEF 0)].

Definition syms : dt_idhash := mk_idhash [] false None 1000 1000 (2 ^ 32 - 1) 0 4 1 [[11; 12; 13; 14]].

Definition world : link_env :=
  mk_env syms (list_to_map [(21, f_code); (22, g_code)]) 1 (λ _, true) 0 256 1 20 3 (Some (100, 7)) (Some (40, 3)).

Definition funs : gset Z := {[11; 12]}.

(** ** Memory *)

Definition BUFSIZ : nat := Z.to_nat 8192.
Definition memory : chunks := λ _, Some (replicate BUFSIZ 0).
Definition table : StringTable dt_strtab := string_table (λ _ _, 0) (λ _, 0) memory BUFSIZ.

#[local] Existing Instance table.

Lemma table_laws : StringTableLaws dt_strtab.
Proof.
  apply string_table_laws; [unfold BUFSIZ; lia| |by intros n; eexists]. intros n c Hc. unfold memory in Hc. apply (inj Some) in Hc as <-.
  split; [apply length_replicate|].
  apply Forall_replicate. done.
Qed.

#[local] Existing Instance table_laws.

(** ** The program can be linked *)

Ltac each H := repeat (apply elem_of_cons in H as [->|H]); [..|by apply not_elem_of_nil in H].

Lemma one_chain n : chain_of syms n = 0%nat.
Proof. unfold chain_of. change (Z.of_nat (dh_hashsz syms)) with 1. by rewrite Z.mod_1_r. Qed.

Lemma syms_wf : wf idents syms [11; 12; 13; 14].
Proof.
  constructor; try done.
  - cbn. lia.
  - intros [|c] chain a Hc Ha; [|by destruct c]. cbn in Hc. simplify_eq.
    each Ha; eexists; (split; [vm_compute; reflexivity|apply one_chain]).
  - intros n chain Hc. rewrite one_chain in Hc. by injection Hc as <-.
  - repeat (apply NoDup_cons; split; [set_solver|]). constructor.
  - set_solver.
Qed.

Lemma funs_cases c : c ∈ funs → c = 11 ∨ c = 12.
Proof. unfold funs. set_solver. Qed.

Lemma str_ok (l : list Z) : forallb (λ c, (0 <? c) && (c <? 256)) l = true → cstring l.
Proof.
  intros H. apply Forall_forall. intros c Hc. rewrite forallb_forall in H. apply list_elem_of_In, H in Hc.
  apply andb_true_iff in Hc as [H1 H2]. apply Z.ltb_lt in H1, H2. unfold byte. lia.
Qed.

Ltac named := eexists; (split; [vm_compute; reflexivity|apply str_ok; reflexivity]).

Lemma f_ok : unit_ok world idents f_code.
Proof.
  constructor; [| | | | |constructor].
  1-3: intros r Hr; by apply not_elem_of_nil in Hr.
  all: intros r k Hr; by apply not_elem_of_nil in Hr.
Qed.

Lemma g_ok : unit_ok world idents g_code.
Proof.
  constructor.
  - intros r Hr. each Hr; named.
  - intros v Hv. by apply not_elem_of_nil in Hv.
  - intros r Hr. each Hr; (split; [unfold urange|]; cbn; lia).
  - intros r k Hr Hk. each Hr; cbn in Hk; apply list_elem_of_singleton in Hk as ->; done.
  - intros r c Hr Hc. each Hr; vm_compute in Hc; [done|]. eexists. done.
  - cbn. repeat (apply NoDup_cons; split; [set_solver|]). constructor.
Qed.

Lemma main_ok : unit_ok world idents main_code.
Proof.
  constructor.
  - intros r Hr. each Hr; named.
  - intros v Hv. each Hv; named.
  - intros r Hr. each Hr; (split; [unfold urange|]; cbn; lia).
  - intros r k Hr Hk. each Hr; cbn in Hk; apply list_elem_of_singleton in Hk as ->; done.
  - intros r c Hr Hc. each Hr; eexists; done.
  - cbn. repeat (apply NoDup_cons; split; [set_solver|]). constructor.
Qed.

Lemma library_ok : library world idents [11; 12; 13; 14] funs.
Proof.
  constructor.
  - apply syms_wf.
  - intros a i Ha Hi Hk. each Ha; vm_compute in Hi; injection Hi as <-; done.
  - intros c Hc. apply funs_cases in Hc as [->| ->].
    + exists (symbol [102] DT_IDENT_SYMBOL DT_IDENT_UNDEF 21), f_code. split_and!; try done; [apply f_ok|set_solver].
    + exists (symbol [103] DT_IDENT_SYMBOL DT_IDENT_UNDEF 22), g_code. split_and!; try done; [apply g_ok|set_solver].
  - intros c d r c' Hc Hd Hr Hcal. apply funs_cases in Hc as [->| ->]; vm_compute in Hd; injection Hd as <-.
    + by apply not_elem_of_nil in Hr.
    + change (relocs idents 12 _) with (dtdo_breltab g_code) in Hr. each Hr; vm_compute in Hcal; [done|]. injection Hcal as <-. unfold funs. set_solver.
Qed.

Lemma main_linkable : linkable world idents [11; 12; 13; 14] funs main_code 0 heap0 handle0 0 60000000004.
Proof.
  constructor; try done.
  - apply library_ok.
  - apply main_ok.
  - by left.
  - intros r c Hr Hc. change (relocs idents 0 main_code) with (dtdo_breltab main_code) in Hr. unfold funs.
    each Hr; vm_compute in Hc; injection Hc as <-; set_solver.
  - constructor; try done.
    + exists []. split; [apply handle0_ok|done].
    + intros c d Hc Hd Hdd. apply funs_cases in Hc as [->| ->]; vm_compute in Hd; injection Hd as <-; [done|by eexists].
    + exists 701. done.
    + intros d r prid Hd Hr Hp. replace (next_prid world idents d r prid) with prid; [done|].
      destruct Hd as [->|(c & Hc & Hd)]; [|apply funs_cases in Hc as [->| ->]; vm_compute in Hd; injection Hd as <-].
      all: try (by apply not_elem_of_nil in Hr). all: each Hr; vm_compute; reflexivity.
Qed.

Lemma dt_link_correct_witness :
  ∃ cl B s' dd' hdl' boot' dp',
    linked world idents main_code (relocs idents 0 main_code) 0 (le_prid world) (seen0 0) (heap0, handle0) cl B s' (dd', hdl') ∧
    dt_link world 3 plenty idents heap0 handle0 0 main_code 0 = Some (mk_result 0 idents dd' hdl' boot' dp' false) ∧
    is_linked world idents 60000000004 (mk_block 0 main_code 0 cl) B dp'.
Proof. apply (dt_link_correct world idents [11; 12; 13; 14] funs); [apply main_linkable|vm_compute; lia]. Defined.

(** ** The program runs *)

Lemma main_runnable : runnable world idents funs main_code 0.
Proof.
  constructor.
  - split; [unfold funs; set_solver|done].
  - constructor.
    + intros k x Hx Hf. do 5 (destruct k as [|k]; [cbn in Hx; injection Hx as <-; first [by vm_compute in Hf|by eexists]|]). by destruct k.
    + intros x [= <-]. done.
  - intros c d Hc Hd. apply funs_cases in Hc as [->| ->]; vm_compute in Hd; injection Hd as <-; (split; [done|]); constructor.
    + intros k x Hx Hf. do 2 (destruct k as [|k]; [cbn in Hx; injection Hx as <-; by vm_compute in Hf|]). by destruct k.
    + intros x [= <-]. done.
    + intros k x Hx Hf. do 4 (destruct k as [|k]; [cbn in Hx; injection Hx as <-; first [by vm_compute in Hf|by eexists]|]). by destruct k.
    + intros x [= <-]. done.
Qed.


(** The value that the program computes: [f] is 7, [g] adds the probe id 1. *)
Example main_result :
  (r ← dt_link world 3 plenty idents heap0 handle0 0 main_code 0;
   fst <$> lrun (λ _ _ _, None) 20 (dtdo_buf (lr_dp r)) 9 0
             [None; None; None; None; None; None; None; None; None; None; Some (Ptr 9 512)] (<[9 := frame0]> ∅)) =
  Some (Some (Int 15)).
Proof. vm_compute. reflexivity. Qed.

End LinkExample.
