(* ===== verification/LinkErrors.v ===== *)
(** * When dt_link() fails

    Without memory, and for a function that is not defined. *)
From S2P Require Import Prelude CLib StrTable Strtab Ident DtMap DtAs DtLink LinkGraph LinkBuild LinkResolve LinkCorrect LinkExample.
#[local] Open Scope Z_scope.
Import Ident DtMap DtAs DtLink LinkGraph LinkBuild LinkResolve LinkCorrect.

Module LinkErrors.

Section Errors.
Context {T : Type} `{!StringTable T, !StringTableLaws T}.
Context (env : link_env) (ids0 : idheap) (L : list Z) (U : gset Z).


(** The loop over relocations, in two parts. *)
Lemma layout_deps_app rec d pc rs1 rs2 st st1 : s32 pc ≠ -1 → layout_deps env rec d pc rs1 st = Some (s32 pc, st1) →
  layout_deps env rec d pc (rs1 ++ rs2) st = layout_deps env rec d pc rs2 st1.
Proof.
  intros Hpc. revert st. induction rs1 as [|r rs1 IH]; intros st; cbn [layout_deps app]; [by intros [= ->]|].
  destruct (dt_difo_getstr _ _) as [n|]; [|done]. cbn [mbind option_bind].
  destruct (dt_dlib_get_func _ _ _) as [a|]; [|done]. cbn [mbind option_bind]. destruct (a =? 0); [apply IH|].
  destruct (ly_ids st !! a) as [i|]; [|done]. cbn [mbind option_bind]. destruct (_ || _); [apply IH|].
  destruct (dt_dlib_get_func_difo _ _) as [[rdp h]|]; [|done]. cbn [mbind option_bind].
  destruct (rdp =? 0); [by intros [= ? _]|]. destruct (le_difos env !! rdp) as [rd|]; [|done]. cbn [mbind option_bind].
  destruct (rec _ _ _) as [[ipc st2]|]; [|done]. cbn [mbind option_bind]. destruct (ipc =? -1); [by intros [= ? _]|].
  destruct (ly_ids st2 !! a) as [j|]; [|done]. cbn [mbind option_bind]. apply IH.
Qed.


End Errors.

(** ** Examples *)

Import LinkExample.
#[local] Existing Instance table.
#[local] Existing Instance table_laws.

(** No memory for the string table. *)
Definition no_strtab : link_mem := mk_link_mem true true true true true false.


(** The program calls [f] and then [h], which is not defined. *)
Definition bad_code : dtrace_difo :=
  mk_difo [BPF_CALL_FUNC (-1); BPF_CALL_FUNC (-1); BPF_RETURN] names [] 0
    [rel 0 R_BPF_64_32 0; rel 9 R_BPF_64_32 8] 0.

Lemma bad_ok : unit_ok world idents bad_code.
Proof.
  constructor.
  - intros r Hr. each Hr; named.
  - intros v Hv. by apply not_elem_of_nil in Hv.
  - intros r Hr. each Hr; (split; [unfold urange|]; cbn; lia).
  - intros r k Hr Hk. each Hr; cbn in Hk; apply list_elem_of_singleton in Hk as ->; done.
  - intros r c Hr Hc. each Hr; eexists; done.
  - cbn. repeat (apply NoDup_cons; split; [set_solver|]). constructor.
Qed.


End LinkErrors.
