(* ===== verification/ClauseLink.v ===== *)
(** * A clause, compiled, assembled, linked and run

    The code of a clause as a DIFO, what the linker asks of it, and the program
    that it is in a linked DIFO: there the relocations have given the clause the
    identifiers of its probe and of itself, and its calls lead to the functions
    that were linked with it. *)
From S2P Require Import Prelude CLib StrTable Bpf BpfWords Strtab Ident DtMap DtAs Node Cg CgSem CgRegs CgRun CgWp CgFault CgCorrect CgClause CgProgram DtLink Assemble AssembleCorrect LinkGraph LinkBuild LinkResolve LinkCorrect LinkRun.
#[local] Open Scope Z_scope.
Import Bpf BpfWords Ident DtMap DtAs Node Cg CgSem CgRegs CgRun CgWp CgFault CgCorrect CgClause CgProgram DtLink Assemble AssembleCorrect LinkGraph LinkBuild LinkResolve LinkCorrect LinkRun.

Module ClauseLink.

(** ** References and instructions *)

Lemma refs_app a : ∀ pc b, refs pc (a ++ b) = refs pc a ++ refs (pc + size a) b.
Proof.
  induction a as [|d a IH]; intros pc b; cbn [app refs size]; [by rewrite Z.add_0_r|].
  destruct (is_label d); [by rewrite Z.add_0_l|]. rewrite IH, Z.add_assoc. by destruct (di_extern d =? 0).
Qed.

Lemma refs_in dips : ∀ pc p, p ∈ refs pc dips → pc <= p.1 < pc + size dips ∧ p.2 ∈ dips ∧ di_extern p.2 ≠ 0.
Proof.
  induction dips as [|d dips IH]; intros pc p; cbn [refs size]; [by intros ?%not_elem_of_nil|]. pose proof (size_nonneg dips).
  destruct (is_label d).
  { intros (? & ? & ?)%IH. split_and!; [lia|lia|by right|done]. }
  destruct (Z.eqb_spec (di_extern d) 0) as [|Hne].
  { intros (? & ? & ?)%IH. split_and!; [lia|lia|by right|done]. }
  intros [->|(? & ? & ?)%IH]%elem_of_cons; cbn [fst snd]; [split_and!; [lia|lia|by left|done]|].
  split_and!; [lia|lia|by right|done].
Qed.

Lemma refs_nodup dips : ∀ pc, NoDup (refs pc dips).*1.
Proof.
  induction dips as [|d dips IH]; intros pc; cbn [refs]; [constructor|].
  destruct (is_label d); [apply IH|]. destruct (di_extern d =? 0); [apply IH|]. cbn [fmap list_fmap fst].
  apply NoDup_cons. split; [|apply IH]. intros (p & E & Hp)%list_elem_of_fmap. apply refs_in in Hp. lia.
Qed.

(** The instruction at a place, and its reference. *)
Lemma placed_ref f labels buf dips : ∀ pc k, 0 <= pc → placed f labels buf pc dips → pc <= k < pc + size dips →
  ∃ d x, d ∈ dips ∧ f k (di_instr d) = Some x ∧ buf !! Z.to_nat k = Some x ∧ (di_extern d ≠ 0 → (k, d) ∈ refs pc dips).
Proof.
  induction dips as [|d dips IH]; intros pc k Hpc; cbn [placed size refs]; [lia|]. intros [_ H] Hk.
  destruct (is_label d).
  - destruct (IH pc k) as (d' & x & ? & ? & ? & ?); [done|done|lia|]. exists d', x. split_and!; [by right|done..].
  - destruct H as [(x & Hx & Hb) H]. destruct (decide (k = pc)) as [->|].
    + exists d, x. split_and!; [by left|done|done|]. intros Hne. rewrite (proj2 (Z.eqb_neq _ _)) by done. by left.
    + destruct (IH (pc + 1) k) as (d' & y & ? & ? & ? & Hr); [lia|done|lia|]. exists d', y. split_and!; [by right|done|done|].
      intros Hne. destruct (di_extern d =? 0); [by apply Hr|right; by apply Hr].
Qed.

Lemma ref_placed f labels buf dips : ∀ pc p, placed f labels buf pc dips → p ∈ refs pc dips →
  ∃ x, f p.1 (di_instr p.2) = Some x ∧ buf !! Z.to_nat p.1 = Some x.
Proof.
  induction dips as [|d dips IH]; intros pc p; cbn [placed refs]; [by intros _ ?%not_elem_of_nil|]. intros [_ H].
  destruct (is_label d); [by apply IH|]. destruct H as [H1 H]. destruct (di_extern d =? 0); [by apply IH|].
  intros [->|Hp]%elem_of_cons; [done|by apply (IH (pc + 1))].
Qed.

Lemma placed_frame f labels buf buf' dips : ∀ pc, 0 <= pc →
  (∀ k, pc <= k → buf' !! Z.to_nat k = buf !! Z.to_nat k) → placed f labels buf pc dips → placed f labels buf' pc dips.
Proof.
  induction dips as [|d dips IH]; intros pc Hpc Hk; cbn [placed]; [done|]. intros [H1 H2]. split; [done|].
  destruct (is_label d); [by apply IH|]. rewrite Hk by lia. destruct H2 as [H2 H3]. split; [done|]. apply IH; [lia| |done].
  intros k Hle. apply Hk. lia.
Qed.

(** Instructions without labels that are no branches. *)
Lemma placed_plain labels buf pc i e dips : BPF_CLASS (code i) ≠ BPF_JMP →
  placed (as_branch labels (Z.of_nat (length labels))) labels buf pc (mk_irnode 0 i e :: dips) ↔
    buf !! Z.to_nat pc = Some i ∧ placed (as_branch labels (Z.of_nat (length labels))) labels buf (pc + 1) dips.
Proof.
  intros Hi. cbn [placed is_label di_label di_instr]. change (negb _) with false. cbn iota.
  assert (as_branch labels (Z.of_nat (length labels)) pc i = Some i) as ->.
  { unfold as_branch. by rewrite (proj2 (Z.eqb_neq _ _)). }
  split; [intros (_ & (z & [= <-] & Hz) & Hp); done|]. intros [Hz Hp]. split; [done|]. split; [by exists i|done].
Qed.

(** A branch keeps all but its distance. *)
Lemma as_branch_fields labels n pc x y : as_branch labels n pc x = Some y →
  code y = code x ∧ src_reg y = src_reg x ∧ imm y = imm x.
Proof.
  unfold as_branch. repeat (case_match; [by intros ?; simplify_eq|]).
  destruct (labels !! _); cbn [mbind option_bind]; intros ?; by simplify_eq.
Qed.

Lemma as_branch_fcall labels n pc x y : as_branch labels n pc x = Some y → is_fcall y = is_fcall x.
Proof. intros (Ec & Es & _)%as_branch_fields. unfold is_fcall. by rewrite Ec, Es. Qed.

(** The second slot of a 64-bit constant is no call. *)
Lemma decoding_slots ext l labels buf : decoding ext l → ∀ pc, 0 <= pc → code_at labels buf pc l →
  ∀ k x y, pc <= k < pc + size l → buf !! Z.to_nat k = Some x → BPF_CLASS (code x) = BPF_LD → code x ≠ 0 →
    buf !! Z.to_nat (k + 1) = Some y → is_fcall y = false.
Proof.
  unfold code_at. induction 1 as [|d l [Hd Hs _ _] Hl IH|r v l Hl IH]; intros pc Hpc Hp k x y Hk Hx Hc H0 Hy.
  - cbn [size] in Hk. lia.
  - cbn [placed size] in *. destruct Hp as [_ Hp]. revert Hp Hk. destruct (is_label d); intros Hp Hk; [by apply (IH pc Hpc Hp k x y)|].
    destruct Hp as [(z & Hz & Hb) Hp]. destruct (decide (k = pc)) as [->|Hne].
    + rewrite Hb in Hx. simplify_eq. apply as_branch_fields in Hz as (Ez & _). rewrite Ez in Hc. rewrite Hc in Hs. done.
    + apply (IH (pc + 1) ltac:(lia) Hp k x y); [lia|done..].
  - rewrite size_app in Hk. change (size (setx_code r v)) with 2 in Hk.
    cbn [setx_code app placed is_label di_label] in Hp. change (negb _) with false in Hp. cbn iota in Hp.
    destruct Hp as (_ & (z & Hz & Hb) & _ & (w & Hw & Hb2) & Hp).
    destruct (decide (k = pc)) as [->|]; [|destruct (decide (k = pc + 1)) as [->|]].
    + rewrite Hb2 in Hy. simplify_eq. by rewrite (as_branch_fcall _ _ _ _ _ Hw).
    + rewrite Hb2 in Hx. simplify_eq. apply as_branch_fields in Hw as (Ew & _). by rewrite Ew in H0.
    + apply (IH (pc + 1 + 1) ltac:(lia) Hp k x y); [lia|done..].
Qed.

(** ** The DIFO of a clause *)

(** The compiler sets the data description after the assembler has finished. *)
Definition with_ddesc (d : dtrace_difo) (ddesc : Z) : dtrace_difo :=
  mk_difo (dtdo_buf d) (dtdo_strtab d) (dtdo_vartab d) (dtdo_flags d) (dtdo_breltab d) ddesc.

(** The relocation [r] of the instruction [k], for the symbol [n]. *)
Record is_rel (d : dtrace_difo) (n : list Z) (k : Z) (r : dof_relodesc) : Prop := {
  ir_name : dt_difo_getstr d (dofr_name r) = Some n;
  ir_type : dofr_type r = R_BPF_64_32;
  ir_offset : dofr_offset r = 8 * k;
  ir_data : urange 64 (dofr_data r)
}.

Lemma rel_touched d n k r : is_rel d n k r → touched r = [k].
Proof. intros [_ Ht Ho _]. unfold touched. rewrite Ht, Ho, (Z.mul_comm 8), Z.div_mul by done. done. Qed.

(** The DIFO [d] has the code of a clause with the given [body]; the symbols of
    the probe's and the clause's identifiers are called [ne] and [nc], that of
    [dt_probe_error] is called [nx]. *)
Record clause_difo (get_var : string → Z) (ext : Z) (ne nc nx : list Z) (body : list dt_irnode) (d : dtrace_difo) : Prop := {
  cd_decoding : decoding ext body;
  cd_ext : ext ≠ 0;
  cd_names : cstring ne ∧ cstring nc ∧ cstring nx;
  cd_code : ∃ labels, code_at labels (dtdo_buf d) 0 (clause_nodes get_var (-1) (-1) body);
  cd_len : dtdo_len d = size body + 12;
  cd_rels : ∃ r1 r2 r3 rs, dtdo_breltab d = r1 :: r2 :: r3 :: rs ∧
    is_rel d ne 6 r1 ∧ is_rel d nc 7 r2 ∧ is_rel d ne 8 r3 ∧ Forall2 (λ p, is_rel d nx p.1) (refs 10 body) rs;
  cd_vars v : v ∈ dtdo_vartab d → ∃ n, dt_difo_getstr d (dtdv_name v) = Some n ∧ cstring n
}.

Section Assembled.
Context {T : Type} `{!StringTable T, !StringTableLaws T} `{Ctf} (hdl : hdl_types) (aenv : as_env).
Context (get_var : string → Z) (ext : Z) (body : list dt_irnode) (ne nc nx : list Z).

Lemma clause_refs epidv clidv : get_var "EPID" ≠ 0 → get_var "CLID" ≠ 0 →
  refs 0 (clause_nodes get_var epidv clidv body) =
    (6, mk_irnode 0 (BPF_STORE_IMM BPF_W BPF_REG_0 DMST_EPID epidv) (get_var "EPID")) ::
    (7, mk_irnode 0 (BPF_STORE_IMM BPF_W BPF_REG_0 DMST_CLID clidv) (get_var "CLID")) ::
    (8, mk_irnode 0 (BPF_STORE_IMM BPF_W BPF_REG_9 0 epidv) (get_var "EPID")) :: refs 10 body.
Proof.
  intros He Hc. unfold clause_nodes. rewrite !refs_app. change (0 + size (prologue_code get_var epidv clidv)) with 10.
  change (refs (10 + size body) (epilogue_code 1)) with (@nil (Z * dt_irnode)). rewrite app_nil_r.
  cbn [prologue_code refs is_label di_label di_extern]. change (negb _) with false. cbn iota. change (0 =? 0) with true. cbn iota.
  rewrite !(proj2 (Z.eqb_neq (get_var "EPID") 0)), (proj2 (Z.eqb_neq (get_var "CLID") 0)) by done. done.
Qed.

Lemma reloc_is_rel ids d ddesc p r i n : as_rel_of ids d p r → bpf_ident ids (di_extern p.2) i n →
  code (di_instr p.2) ≠ LDDW → is_rel (with_ddesc d ddesc) n p.1 r.
Proof.
  intros (j & n' & Hj & Hs & Hr) Hi Hc. assert (n' = n ∧ j = i) as [-> ->].
  { pose proof (bi_there _ _ _ _ Hi) as E1. rewrite (bi_there _ _ _ _ Hj) in E1. injection E1 as ->. split; [|done].
    pose proof (bi_name _ _ _ _ Hi) as E2. rewrite (bi_name _ _ _ _ Hj) in E2. by injection E2. }
  constructor; [exact Hs|..]; rewrite Hr; cbn [dofr_type dofr_offset dofr_data]; [|done|].
  - unfold reloc_kind. by rewrite (proj2 (Z.eqb_neq _ _)).
  - pose proof (bi_id _ _ _ _ Hi). unfold urange in *. lia.
Qed.

(** What the assembler made of a clause is such a DIFO. *)
Lemma assembled_clause dlp ids L (tab : T) d ddesc ie ic ix :
  dl_list dlp = clause_nodes get_var (-1) (-1) body → dl_len dlp = size body + 12 → decoding ext body → ext ≠ 0 →
  get_var "EPID" ≠ 0 → get_var "CLID" ≠ 0 →
  bpf_ident ids (get_var "EPID") ie ne → bpf_ident ids (get_var "CLID") ic nc → bpf_ident ids ext ix nx →
  (∀ a, a ∈ L → named_var ids a) → assembled hdl aenv dlp ids L tab d →
  clause_difo get_var ext ne nc nx body (with_ddesc d ddesc).
Proof.
  intros Hl Hlen Hdec Hx He Hc Hie Hic Hix Hn [(labels & _ & _ & Hcode) Had Hrels Hvars _ _ _].
  constructor; [done|done| | |by change (dtdo_len d = size body + 12); rewrite Had| |].
  - split_and!; [apply Hie|apply Hic|apply Hix].
  - exists labels. rewrite <- Hl. exact Hcode.
  - rewrite Hl, clause_refs in Hrels by done. apply Forall2_cons_inv_l in Hrels as (r1 & l1 & H1 & Hrels & E1).
    apply Forall2_cons_inv_l in Hrels as (r2 & l2 & H2 & Hrels & ->). apply Forall2_cons_inv_l in Hrels as (r3 & rs & H3 & Hrels & ->).
    exists r1, r2, r3, rs. split; [done|].
    split; [by apply (reloc_is_rel _ _ _ _ _ _ _ H1 Hie)|]. split; [by apply (reloc_is_rel _ _ _ _ _ _ _ H2 Hic)|].
    split; [by apply (reloc_is_rel _ _ _ _ _ _ _ H3 Hie)|].
    apply Forall2_same_length_lookup_2; [by eapply Forall2_length|]. intros k p r Hp Hr.
    pose proof (Forall2_lookup_lr _ _ _ _ _ _ Hrels Hp Hr) as Hpr. apply list_elem_of_lookup_2 in Hp.
    apply refs_in in Hp as (_ & Hin & Hne). destruct (decoding_extern _ _ _ Hdec Hin) as [Hext Hcall].
    destruct (is_fcall (di_instr p.2)); [|done].
    apply (reloc_is_rel _ d _ _ _ ix _ Hpr); [by rewrite Hext|by rewrite Hcall].
  - intros v Hv. apply list_elem_of_lookup in Hv as [k Hv]. destruct (Forall2_lookup_r _ _ _ _ _ Hvars Hv) as (p & Hp & Hname & _).
    apply list_elem_of_lookup_2 in Hp. unfold used in Hp. apply list_elem_of_omap in Hp as (a & Ha & Hp).
    destruct (Hn a Ha) as (n & Hna & Hcn). unfold name_of in Hna. destruct (ids !! a) as [i|]; [|done]. cbn in Hp, Hna.
    destruct (in_vartab i); [|done]. simplify_eq. exists n. split; [|done]. change (dt_difo_getstr d (dtdv_name v) = Some n).
    rewrite Hname. done.
Qed.

End Assembled.

(** ** What the linker needs *)

Section Link.
Context (env : link_env) (ids : idheap) (get_var : string → Z) (ext : Z) (ne nc nx : list Z).

(** The symbol of a name. *)
Definition symbol (n : list Z) : option (Z * dt_ident) :=
  a ← dt_dlib_get_sym (le_syms env) ids n; if a =? 0 then None else i ← ids !! a; Some (a, i).

(** The symbols that a clause refers to: two constants and a function [x]. *)
Record clause_symbols (x : Z) : Prop := {
  cs_epid : ∃ a i, symbol ne = Some (a, i) ∧ di_kind i = DT_IDENT_SCALAR ∧ di_id i = DT_CONST_EPID;
  cs_clid : ∃ a i, symbol nc = Some (a, i) ∧ di_kind i = DT_IDENT_SCALAR ∧ di_id i = DT_CONST_CLID;
  cs_err : ∃ i, symbol nx = Some (x, i) ∧ di_kind i = DT_IDENT_SYMBOL
}.

Lemma rel_target d n k r : is_rel d n k r → target env ids d r = symbol n.
Proof. intros [Hn _ _ _]. unfold target, rname, symbol. by rewrite Hn. Qed.

Context (x : Z) (body : list dt_irnode) (d : dtrace_difo).
Hypothesis Hsym : clause_symbols x.
Hypothesis Hd : clause_difo get_var ext ne nc nx body d.

Lemma rel_callee n k r : is_rel d n k r → n = ne ∨ n = nc → callee env ids d r = None.
Proof using Hsym.
  intros Hr Hn. unfold callee. rewrite (rel_target _ _ _ _ Hr). destruct Hsym as [(a & i & E1 & K1 & _) (c & j & E2 & K2 & _) _].
  destruct Hn as [->| ->]; rewrite ?E1, ?E2; cbn [mbind option_bind]; by rewrite ?K1, ?K2.
Qed.

Lemma rel_callee_err k r : is_rel d nx k r → callee env ids d r = Some x.
Proof using Hsym.
  intros Hr. unfold callee. rewrite (rel_target _ _ _ _ Hr). destruct Hsym as [_ _ (i & -> & K)].
  cbn [mbind option_bind]. by rewrite K.
Qed.

(** The relocations one by one. *)
Lemma clause_rel r : r ∈ dtdo_breltab d → ∃ n k, is_rel d n k r ∧ 0 <= k < dtdo_len d ∧ cstring n ∧
  ((n = ne ∨ n = nc) ∧ 6 <= k <= 8 ∨
   n = nx ∧ ∃ y, dtdo_buf d !! Z.to_nat k = Some y ∧ code y = CALL ∧ is_fcall y = true).
Proof using Hd.
  destruct Hd as [Hdec Hx (Ce & Cc & Cx) (labels & Hcode) Hlen (r1 & r2 & r3 & rs & E & H1 & H2 & H3 & HF) _].
  rewrite E, Hlen. pose proof (size_nonneg body).
  intros [->|[->|[->|Hr]%elem_of_cons]%elem_of_cons]%elem_of_cons;
    [exists ne, 6; split_and!; try done; try lia; left; split; [by left|lia]
    |exists nc, 7; split_and!; try done; try lia; left; split; [by right|lia]
    |exists ne, 8; split_and!; try done; try lia; left; split; [by left|lia]|].
  apply list_elem_of_lookup in Hr as [j Hr]. destruct (Forall2_lookup_r _ _ _ _ _ HF Hr) as (p & Hp & Hpr).
  apply list_elem_of_lookup_2 in Hp. destruct (refs_in _ _ _ Hp) as (Hk & Hin & Hne).
  exists nx, p.1. split_and!; [done|lia|lia|done|]. right. split; [done|].
  unfold clause_nodes, code_at in Hcode. apply placed_app in Hcode as [_ Hcode]. change (0 + size _) with 10 in Hcode.
  apply placed_app in Hcode as [Hcode _]. destruct (ref_placed _ _ _ _ _ _ Hcode Hp) as (y & Hy & Hb). exists y. split; [done|].
  rewrite (as_branch_fcall _ _ _ _ _ Hy). apply as_branch_fields in Hy as (-> & _).
  destruct (decoding_extern _ _ _ Hdec Hin) as [Hext Hcall]. destruct (is_fcall (di_instr p.2)); [by rewrite Hcall|done].
Qed.

Lemma clause_unit : unit_ok env ids d.
Proof using Hd Hsym.
  constructor.
  - intros r Hr. destruct (clause_rel r Hr) as (n & k & [] & _ & Hc & _). eauto.
  - apply Hd.
  - intros r Hr. destruct (clause_rel r Hr) as (n & k & [_ _ Ho Hda] & Hk & _). split; [done|lia].
  - intros r k Hr Hk. destruct (clause_rel r Hr) as (n & k' & Hrel & Hk' & _). rewrite (rel_touched _ _ _ _ Hrel) in Hk.
    apply list_elem_of_singleton in Hk as ->. lia.
  - intros r c Hr Hc. destruct (clause_rel r Hr) as (n & k & Hrel & Hk & _ & [[Hn _]|(-> & y & Hy & Hcall & _)]).
    { by rewrite (rel_callee _ _ _ Hrel Hn) in Hc. }
    exists y. rewrite (ir_offset _ _ _ _ Hrel), (Z.mul_comm 8), Z.div_mul by done. split; [done|]. unfold BPF_IS_CALL. by rewrite Hcall.
  - destruct Hd as [_ _ _ _ _ (r1 & r2 & r3 & rs & -> & H1 & H2 & H3 & HF) _]. cbn [fmap list_fmap concat].
    rewrite (rel_touched _ _ _ _ H1), (rel_touched _ _ _ _ H2), (rel_touched _ _ _ _ H3).
    assert (concat (touched <$> rs) = (refs 10 body).*1) as ->.
    { induction HF as [|p r l k Hp HF IH]; [done|]. cbn [fmap list_fmap concat]. rewrite (rel_touched _ _ _ _ Hp). cbn [app]. by rewrite IH. }
    assert (∀ k, k ∈ (refs 10 body).*1 → 10 <= k) as Hge.
    { intros k (p & -> & Hp)%list_elem_of_fmap. apply refs_in in Hp. lia. }
    cbn [app]. repeat (apply NoDup_cons; split; [intros Hin; set_unfold; repeat destruct Hin as [Hin|Hin]; try lia; apply Hge in Hin; lia|]).
    apply refs_nodup.
Qed.

(** The calls of the code are those in the body. *)
Lemma clause_call_ref k y : dtdo_buf d !! k = Some y → is_fcall y = true → ∃ dn, (Z.of_nat k, dn) ∈ refs 10 body.
Proof using Hd.
  destruct Hd as [Hdec Hx _ (labels & Hcode) Hlen _ _]. intros Hk Hf. pose proof (lookup_lt_Some _ _ _ Hk) as Hlt.
  assert (Forall (λ dn, is_fcall (di_instr dn) = false) (prologue_code get_var (-1) (-1) ++ epilogue_code 1)) as Hends by (by repeat constructor).
  destruct (placed_ref _ _ _ _ 0 (Z.of_nat k) ltac:(lia) Hcode) as (dn & z & Hin & Hz & Hb & Href).
  { unfold clause_nodes. rewrite !size_app. change (size (prologue_code _ _ _)) with 10. change (size (epilogue_code 1)) with 2.
    unfold dtdo_len in Hlen. lia. }
  rewrite Nat2Z.id in Hb. simplify_eq. rewrite (as_branch_fcall _ _ _ _ _ Hz) in Hf. rewrite Forall_app, !Forall_forall in Hends.
  destruct Hends as [Hpro Hepi]. unfold clause_nodes in Hin, Href. rewrite !elem_of_app in Hin.
  destruct Hin as [Hin|[Hin|Hin]]; [by rewrite (Hpro _ Hin) in Hf| |by rewrite (Hepi _ Hin) in Hf].
  destruct (decoding_extern _ _ _ Hdec Hin) as [Hext _]. rewrite Hf in Hext. specialize (Href ltac:(by rewrite Hext)).
  rewrite !refs_app, !elem_of_app in Href. destruct Href as [Hp|[Hp|Hp]]; [|by exists dn|].
  - apply refs_in in Hp as (_ & Hp & _). cbn [snd] in Hp. by rewrite (Hpro _ Hp) in Hf.
  - apply refs_in in Hp as (_ & Hp & _). cbn [snd] in Hp. by rewrite (Hepi _ Hp) in Hf.
Qed.

Lemma clause_call_of k y : dtdo_buf d !! k = Some y → is_fcall y = true → call_of env ids d k = Some x.
Proof using Hd Hsym.
  intros Hk Hf. destruct (clause_call_ref k y Hk Hf) as (dn & Hp).
  assert (∃ r, r ∈ dtdo_breltab d ∧ is_rel d nx (Z.of_nat k) r) as (r & Hr & Hrel).
  { destruct Hd as [_ _ _ _ _ (r1 & r2 & r3 & rs & E & _ & _ & _ & HF) _]. apply list_elem_of_lookup in Hp as [j Hp].
    destruct (Forall2_lookup_l _ _ _ _ _ HF Hp) as (r & Hr & Hrel). exists r. split; [|done].
    rewrite E. do 3 right. by eapply list_elem_of_lookup_2. }
  unfold call_of. set (f := λ r, _). assert (f r = Some x) as Hfr.
  { unfold f. rewrite (ir_offset _ _ _ _ Hrel), (ir_type _ _ _ _ Hrel), !Z.eqb_refl. by rewrite (rel_callee_err _ _ Hrel). }
  destruct (head (omap f (dtdo_breltab d))) as [c|] eqn:Eh.
  - apply head_Some_elem_of in Eh. apply list_elem_of_omap in Eh as (r' & Hr' & Hc). unfold f in Hc.
    destruct (_ && _); [|done]. destruct (clause_rel r' Hr') as (n & k' & Hrel' & _ & _ & [[Hn _]|[-> _]]).
    + by rewrite (rel_callee _ _ _ Hrel' Hn) in Hc.
    + by rewrite (rel_callee_err _ _ Hrel') in Hc.
  - assert (x ∈ omap f (dtdo_breltab d)) as Hin by (apply list_elem_of_omap; by exists r).
    destruct (omap f (dtdo_breltab d)); [by apply not_elem_of_nil in Hin|done].
Qed.

Lemma clause_calls : calls_ok env ids d.
Proof using Hd Hsym.
  constructor.
  - intros k y Hk Hf. rewrite (clause_call_of k y Hk Hf). by eexists.
  - intros y Hy. destruct Hd as [_ _ _ (labels & Hcode) Hlen _ _]. rewrite last_lookup in Hy.
    unfold clause_nodes, code_at in Hcode. apply placed_app in Hcode as [_ Hcode]. apply placed_app in Hcode as [_ Hcode].
    change (0 + size _) with 10 in Hcode. cbn [epilogue_code placed] in Hcode.
    change (is_label (mk_irnode 1 _ _)) with false in Hcode. change (is_label (mk_irnode 0 _ _)) with false in Hcode. cbn iota in Hcode.
    destruct Hcode as (_ & _ & _ & (z & Hz & Hb) & _). pose proof (size_nonneg body). unfold dtdo_len in Hlen.
    replace (Z.to_nat (10 + size body + 1)) with (pred (length (dtdo_buf d))) in Hb by lia. simplify_eq.
    by apply as_branch_fields in Hz as (-> & _).
Qed.

(** ** The linked code *)

Context (G : gmap Z Z) (bootv : Z) (b : block) (base : Z).
Hypothesis Hb : b_difo b = d ∧ inlined ids (b_sym b) = false.
#[local] Abbreviation code_of := (linked_code env ids G bootv b base).
#[local] Abbreviation values := (own_patches env ids G bootv b base).

(** The identifiers that the clause gets: that of the enabled probe, and the
    clause's own, which is current at the second relocation. *)
Definition b_clid : Z := default 0 (b_clids b !! 1%nat).

(** The code with these identifiers, and calls as they were. *)
Definition resolved (buf : list bpf_insn) : list bpf_insn :=
  imap (λ k z, if bool_decide (k = 6%nat ∨ k = 8%nat) then set_imm z (b_epid b)
               else if bool_decide (k = 7%nat) then set_imm z b_clid else z) buf.

Lemma const_patched n k j r v : is_rel d n k r → dtdo_breltab d !! j = Some r →
  (∃ a i, symbol n = Some (a, i) ∧ di_kind i = DT_IDENT_SCALAR ∧
     const_value env (b_epid b) (default 0 (b_clids b !! j)) (di_id i) = Some v) →
  value_at values (base + k) = Some (u32 (u64 v)).
Proof using Hb Hd Hsym.
  destruct Hb as [Hbd Hinl]. intros Hr Hj (a & i & Hs & Hk & Hc).
  apply (reloc_value env ids G bootv b base j r); [rewrite Hbd; apply clause_unit|by rewrite Hbd|].
  unfold reloc_patches, b_final, final_type, final_data. rewrite Hbd, (rel_target _ _ _ _ Hr), Hs, Hk, Hinl, Hc.
  rewrite (ir_type _ _ _ _ Hr), (ir_offset _ _ _ _ Hr), (Z.mul_comm 8), Z.div_mul by done. cbn. by left.
Qed.

Lemma set_imm_wrap z v : set_imm z (u32 (u64 v)) = set_imm z v.
Proof. unfold set_imm. f_equal. rewrite (wrap_wrap_le 32 64) by done. apply swrap_wrap. Qed.

(** Each instruction of the linked code. *)
Lemma linked_insn k z : dtdo_buf d !! k = Some z → ∃ y, code_of !! k = Some y ∧
  if is_fcall z then resolved (dtdo_buf d) !! k = Some z ∧ ∃ v, y = set_imm z v
  else resolved (dtdo_buf d) !! k = Some y.
Proof using Hb Hd Hsym.
  intros Hk. pose proof Hb as [Hbd Hinl]. unfold linked_code. rewrite list_lookup_imap, Hbd, Hk. cbn [fmap option_fmap option_map].
  eexists. split; [done|]. unfold resolved. rewrite list_lookup_imap, Hk. cbn [fmap option_fmap option_map].
  destruct (is_fcall z) eqn:Hf.
  - destruct (clause_call_ref k z Hk Hf) as (dn & Hp%refs_in). cbn [fst] in Hp.
    rewrite !bool_decide_false by lia. split; [done|]. pose proof (clause_call_of k z Hk Hf) as Hc. rewrite <- Hbd in Hc.
    destruct (call_patched env ids G bootv b base k x z) as [_ ->]; [rewrite Hbd; apply clause_unit|done|done|]. eauto.
  - f_equal. destruct Hd as [_ _ _ _ _ (r1 & r2 & r3 & rs & E & H1 & H2 & H3 & _) _]. destruct Hsym as [(a1 & i1 & E1 & K1 & V1) (a2 & i2 & E2 & K2 & V2) _].
    unfold patched. case_bool_decide as H68; [|case_bool_decide as H7].
    + assert (value_at values (base + Z.of_nat k) = Some (u32 (u64 (b_epid b)))) as ->; [|by rewrite set_imm_wrap].
      destruct H68 as [-> | ->].
      * apply (const_patched ne 6 0 r1); [done|by rewrite E|]. exists a1, i1. by rewrite V1.
      * apply (const_patched ne 8 2 r3); [done|by rewrite E|]. exists a1, i1. by rewrite V1.
    + subst k. change (Z.of_nat 7) with 7. assert (value_at values (base + 7) = Some (u32 (u64 b_clid))) as ->; [|by rewrite set_imm_wrap].
      apply (const_patched nc 7 1 r2); [done|by rewrite E|]. exists a2, i2. by rewrite V2.
    + rewrite (reloc_none env ids G bootv b base); [done|]. rewrite Hbd. intros r Hr Ht. destruct (clause_rel r Hr) as (n & k' & Hrel & _ & _ & Hcase).
      rewrite (rel_touched _ _ _ _ Hrel) in Ht. apply list_elem_of_singleton in Ht as <-.
      destruct Hcase as [[_ Hr68]|(_ & y & Hy & _ & Hfy)]; [lia|]. rewrite Nat2Z.id in Hy. congruence.
Qed.

Lemma length_resolved buf : length (resolved buf) = length buf.
Proof. apply length_imap. Qed.

(** The resolved code is that of the clause with its identifiers. *)
Lemma resolved_code labels : code_at labels (dtdo_buf d) 0 (clause_nodes get_var (-1) (-1) body) →
  code_at labels (resolved (dtdo_buf d)) 0 (clause_nodes get_var (b_epid b) b_clid body).
Proof.
  intros Hc. unfold clause_nodes, code_at in *. apply placed_app in Hc as [Hp Hc]. apply placed_app.
  assert (∀ k, resolved (dtdo_buf d) !! k = (λ z, if bool_decide (k = 6%nat ∨ k = 8%nat) then set_imm z (b_epid b)
               else if bool_decide (k = 7%nat) then set_imm z b_clid else z) <$> dtdo_buf d !! k) as Hres.
  { intros k. unfold resolved. by rewrite list_lookup_imap. }
  change (0 + size (prologue_code _ _ _)) with 10 in *. split.
  - unfold prologue_code in Hp |- *. rewrite !placed_plain in Hp by done. rewrite !placed_plain by done.
    destruct Hp as (B0 & B1 & B2 & B3 & B4 & B5 & B6 & B7 & B8 & B9 & _).
    rewrite !Hres, B0, B1, B2, B3, B4, B5, B6, B7, B8, B9. by split_and!.
  - eapply placed_frame; [done| |exact Hc]. intros k Hk. rewrite Hres, !bool_decide_false by lia. by destruct (dtdo_buf d !! Z.to_nat k).
Qed.

(** ** The program *)

Lemma decode_slot sym z n1 n2 : BPF_CLASS (code z) ≠ BPF_LD ∨ code z = 0 → decode_insn sym z n1 = decode_insn sym z n2.
Proof. intros [Hc|Hc]; [by apply decode_next|]. unfold decode_insn. by rewrite Hc. Qed.

Lemma decode_plain sym sym' z n : is_fcall z = false → decode_insn sym z n = decode_insn sym' z n.
Proof.
  unfold is_fcall, decode_insn, BPF_JMP, BPF_CALL. intros Hf. destruct (Z.eqb_spec (BPF_CLASS (code z)) 5) as [E|E].
  - rewrite E. destruct (Z.eqb_spec (BPF_OP (code z)) 128) as [E'|E'].
    + rewrite E'. cbn [andb] in Hf. by rewrite Hf.
    + repeat case_match; done.
  - repeat case_match; done.
Qed.

Lemma decode_prog_ext sym sym' buf : (∀ v, sym v = sym' v) → decode_prog sym buf = decode_prog sym' buf.
Proof.
  intros E. induction buf as [|z buf IH]; cbn [decode_prog]; [done|]. rewrite IH.
  assert (decode_insn sym z (default (insn_of 0 0 0 0 0) (head buf)) = decode_insn sym' z (default (insn_of 0 0 0 0 0) (head buf))) as ->; [|done].
  unfold decode_insn. by rewrite E.
Qed.

Lemma decode_fcall sym z n : is_fcall z = true → decode_insn sym z n = Some (CallF (sym (imm z))).
Proof.
  unfold is_fcall, decode_insn, BPF_JMP, BPF_CALL. rewrite !andb_true_iff, !Z.eqb_eq. intros [[-> ->] ->]. done.
Qed.


Lemma decode_same sym f X Y : ∀ k0, length X = length Y →
  (∀ k y z, X !! k = Some y → Y !! k = Some z →
     decode_insn (λ _, sym (k0 + k)%nat) y (default zero_insn (X !! S k)) = decode_insn f z (default zero_insn (Y !! S k))) →
  decode_named sym k0 X = decode_prog f Y.
Proof.
  revert Y. induction X as [|y X IH]; intros [|z Y] k0 Hl Hk; try done. cbn [decode_named decode_prog].
  pose proof (Hk 0%nat y z eq_refl eq_refl) as H0. rewrite Nat.add_0_r in H0.
  change (y :: X) with ([y] ++ X) in H0. change (z :: Y) with ([z] ++ Y) in H0. cbn [app lookup list_lookup] in H0.
  assert (∀ A (l : list A), l !! 0%nat = head l) as Eh by (by intros ? []). rewrite !Eh in H0. rewrite H0.
  rewrite (IH Y (S k0)); [done|by injection Hl|]. intros k y' z' Hy Hz.
  specialize (Hk (S k) y' z' Hy Hz). by rewrite Nat.add_succ_r in Hk.
Qed.

(** A 64-bit constant is not followed by a call. *)
Lemma clause_slots k z z2 : dtdo_buf d !! k = Some z → BPF_CLASS (code z) = BPF_LD → code z ≠ 0 →
  dtdo_buf d !! S k = Some z2 → is_fcall z2 = false.
Proof using Hd.
  destruct Hd as [Hdec _ _ (labels & Hcode) Hlen _ _]. intros Hz Hc H0 Hz2. pose proof (lookup_lt_Some _ _ _ Hz) as Hlt.
  unfold dtdo_len in Hlen. unfold clause_nodes, code_at in Hcode. apply placed_app in Hcode as [Hpro Hcode]. apply placed_app in Hcode as [Hbody Hepi].
  change (0 + size (prologue_code _ _ _)) with 10 in *.
  assert (∀ l pc, Forall (λ dn, (BPF_CLASS (code (di_instr dn)) =? BPF_LD) = false) l → 0 <= pc → pc <= Z.of_nat k < pc + size l →
    placed (as_branch labels (Z.of_nat (length labels))) labels (dtdo_buf d) pc l → False) as Hno.
  { intros l pc Hl Hpc Hk Hp. destruct (placed_covers _ _ _ _ _ _ Hpc Hp Hk) as (dn & y & Hin & Hy & Hb').
    rewrite Nat2Z.id in Hb'. simplify_eq. apply as_branch_fields in Hy as (Ey & _). rewrite Forall_forall in Hl.
    specialize (Hl _ Hin). rewrite <- Ey, Hc in Hl. done. }
  destruct (decide (Z.of_nat k < 10)) as [Hk|Hk].
  { exfalso. apply (Hno (prologue_code get_var (-1) (-1)) 0); [by repeat constructor|done|change (size _) with 10; lia|done]. }
  destruct (decide (Z.of_nat k < 10 + size body)) as [Hk'|Hk'].
  - apply (decoding_slots _ _ _ _ Hdec 10 ltac:(lia) Hbody (Z.of_nat k) z z2); [lia|by rewrite Nat2Z.id|done|done|].
    by replace (Z.to_nat (Z.of_nat k + 1)) with (S k) by lia.
  - exfalso. pose proof (size_nonneg body).
    apply (Hno (epilogue_code 1) (10 + size body)); [by repeat constructor|lia|change (size (epilogue_code 1)) with 2; lia|done].
Qed.

(** In the linked code the clause is the program of its code with the identifiers. *)
Lemma clause_linked_program nm : program env ids G bootv nm b base = decode_prog (λ _, nm x) (resolved (dtdo_buf d)).
Proof using Hb Hd Hsym.
  unfold program. destruct Hb as [Hbd Hinl].
  assert (∀ k, (dtdo_buf d !! k = None ∧ code_of !! k = None ∧ resolved (dtdo_buf d) !! k = None) ∨ is_Some (dtdo_buf d !! k)) as Hdom.
  { intros k. destruct (dtdo_buf d !! k) eqn:E; [right; eauto|left]. split; [done|]. unfold linked_code, resolved.
    by rewrite !list_lookup_imap, Hbd, E. }
  apply decode_same. { unfold linked_code, resolved. by rewrite !length_imap, Hbd. }
  intros k y z Hy Hz. destruct (Hdom k) as [(_ & E & _)|[z0 Hk]]; [congruence|].
  destruct (linked_insn k z0 Hk) as (y' & Hy' & Hcase). rewrite Hy in Hy'. injection Hy' as <-. cbn [Nat.add].
  destruct (is_fcall z0) eqn:Hf.
  - destruct Hcase as [Hz' [v ->]]. rewrite Hz' in Hz. injection Hz as <-. rewrite !decode_fcall by done. f_equal. f_equal.
    unfold call_name. rewrite Hbd. by rewrite (clause_call_of k z0 Hk Hf).
  - rewrite Hz in Hcase. injection Hcase as ->.
    assert (is_fcall y = false ∧ code y = code z0) as [Hfy Ecy].
    { unfold resolved in Hz. rewrite list_lookup_imap, Hk in Hz. cbn in Hz. injection Hz as <-. repeat case_bool_decide; done. }
    rewrite (decode_plain _ (λ _, nm x)) by done.
    destruct (decide (BPF_CLASS (code y) = BPF_LD ∧ code y ≠ 0)) as [[Hc H0]|Hno].
    2:{ apply decode_slot. destruct (decide (BPF_CLASS (code y) = BPF_LD)); [|by left]. right. apply dec_stable. naive_solver. }
    f_equal. f_equal. rewrite Ecy in Hc, H0. destruct (Hdom (S k)) as [(_ & -> & ->)|[z2 Hz2]]; [done|].
    destruct (linked_insn (S k) z2 Hz2) as (y2 & -> & Hcase). by rewrite (clause_slots k z0 z2 Hk Hc H0 Hz2) in Hcase.
Qed.

End Link.

End ClauseLink.
