(* ===== verification/ClauseRun.v ===== *)
(** * From a clause to the run of a linked program

    The stages of the compiler one after the other: [dt_cg] generates the code of
    a clause, [dt_as] makes a DIFO of it, and [dt_link] links a program that needs
    the clause.  In the code of the linked program, a call of the place where the
    clause is does what the clause means. *)
From S2P Require Import Prelude CLib StrTable Bpf BpfWords Bitmap Regset Strtab Ident DtMap DtAs Node Cg CgSem CgRegs CgRun CgWp CgFault CgCorrect CgClause CgProgram DtLink Assemble AssembleCorrect LinkGraph LinkBuild LinkResolve LinkCorrect LinkRun ClauseLink.
#[local] Open Scope Z_scope.
Import Bpf BpfWords Strtab Ident DtMap DtAs Node Cg CgSem CgRegs CgRun CgWp CgFault CgCorrect CgClause CgProgram DtLink Assemble AssembleCorrect LinkGraph LinkBuild LinkResolve LinkCorrect LinkRun ClauseLink.

Module ClauseRun.

Section Stages.
Context `{Ctf} (hdl : hdl_types) (eattr : bool) (pcb_amin : dtrace_attribute).
Context (dt_dlib_get_func dt_dlib_get_var dt_dlib_get_map : string → Z) (strsize : Z).
Context (oob : nat → nat → Z) (soob : nat → Z) (smem : chunks).
Context (ids0 : idheap) (err_id gsize lsize : Z).
#[local] Abbreviation clause := (run_clause hdl eattr pcb_amin ids0).
#[local] Abbreviation ok_clause := (clause_ok hdl eattr pcb_amin ids0 gsize lsize).
#[local] Abbreviation compile :=
  (dt_cg hdl eattr pcb_amin dt_dlib_get_func dt_dlib_get_var dt_dlib_get_map strsize oob soob smem).
#[local] Abbreviation err_fun := (dt_dlib_get_func "dt_probe_error").

(** The symbols of the BPF library that the code of a clause refers to. *)
Record bpf_symbols (ne nc nx : list Z) : Prop := {
  bs_addr : dt_dlib_get_var "EPID" ≠ 0 ∧ dt_dlib_get_var "CLID" ≠ 0 ∧ err_fun ≠ 0;
  bs_epid : ∃ i, bpf_ident ids0 (dt_dlib_get_var "EPID") i ne;
  bs_clid : ∃ i, bpf_ident ids0 (dt_dlib_get_var "CLID") i nc;
  bs_err : ∃ i, bpf_ident ids0 err_fun i nx ∧ s32 (di_id i) = err_id
}.

(** ** The identifiers after the code generator *)

Lemma ids_bpf ids a i n : ids_ok ids0 ids → bpf_ident ids0 a i n → ∃ j, bpf_ident ids a j n.
Proof.
  intros Hids [H1 H2 H3 H4 H5 H6]. destruct (ids_there _ _ _ _ Hids H1) as (j & Hj & Hs). exists j.
  pose proof Hs as (E1 & E2 & _ & _ & _ & E6).
  constructor; [done|by rewrite <- (same_has i j)|by rewrite <- E1|by rewrite <- E6|done|by rewrite <- E2].
Qed.

Lemma ids_keys ids : ids_ok ids0 ids → same_keys ids0 ids.
Proof.
  intros Hids a. specialize (Hids a). unfold key_of. inversion Hids as [i j (_ & E2 & _ & _ & _ & E6)|]; [|done].
  cbn. by rewrite E2, E6.
Qed.

Lemma tables_keys h h' tabs L : same_keys h h' → tables_ok h tabs L → tables_ok h' tabs L.
Proof.
  intros Hk [[L1 H1] [L2 H2] [L3 H3] [L4 H4] HL Hn]. unfold visits in HL.
  constructor; [eexists; by eapply filled_keys..| |done]. unfold visits. by rewrite !(gather_keys h h').
Qed.

Lemma used_length h l : (length (used h l) <= length l)%nat.
Proof.
  induction l as [|a l IH]; [done|]. unfold used in *. cbn [omap list_omap length].
  destruct (h !! a ≫= _); cbn [length]; lia.
Qed.

(** ** The references of the code *)

Lemma clause_refs_ok ids ne nc nx body ie ic ix : decoding err_fun body →
  bpf_ident ids (dt_dlib_get_var "EPID") ie ne → bpf_ident ids (dt_dlib_get_var "CLID") ic nc → bpf_ident ids err_fun ix nx →
  Forall (ref_ok ids) (clause_nodes dt_dlib_get_var (-1) (-1) body).
Proof.
  intros Hdec He Hc Hx. unfold clause_nodes. rewrite !Forall_app. split_and!.
  - repeat (apply Forall_cons; split); try done; intros _; split_and!; eauto.
  - apply Forall_forall. intros d Hd Hne. destruct (decoding_extern _ _ _ Hdec Hd) as [Hext Hcall].
    destruct (is_fcall (di_instr d)) eqn:Hf; [|done]. specialize (Hcall eq_refl). split_and!.
    + unfold is_label, BPF_IS_NOP. rewrite Hcall. by rewrite orb_true_r.
    + unfold is_fcall in Hf. apply andb_true_iff in Hf as [_ Hs]. unfold reloc_code. by rewrite Hcall, Hs.
    + exists ix, nx. by rewrite Hext.
  - by repeat constructor.
Qed.

(** ** The stages *)

Context `{!StringTable dt_strtab, !StringTableLaws dt_strtab} (aenv : as_env) (al : idheap → option Z) (yylineno : Z).

(** What the assembler is given besides the code: tables of variables that have
    names, a string table and memory. *)
Record as_ready (tabs : as_tabs) (L : list Z) (tab : dt_strtab) : Prop := {
  rd_tables : tables_ok ids0 tabs L;
  rd_named a : a ∈ L → named_var ids0 a;
  rd_count : Z.of_nat (length L) < 2 ^ 32;
  rd_tab : tab_ok tab;
  rd_mode : ae_linkmode aenv ∈ [DT_LINK_KERNEL; DT_LINK_DYNAMIC; DT_LINK_STATIC];
  rd_mem : ae_mem aenv = mk_as_mem true true true true true true true true
}.

(** There is room for the names of the variables and symbols that the code uses. *)
Definition names_fit (L : list Z) (tab : dt_strtab) (st : cg_state) : Prop :=
  tab_used tab + var_names_size (used (cg_ids st) L) + refs_size (cg_ids st) (refs 0 (dl_list (pcb_ir st))) <= DIF_STROFF_MAX.

(** A clause compiles, and its code assembles. *)
Lemma clause_stages ne nc nx pred acts active spilled tab tabs L maxreclen : bpf_symbols ne nc nx →
  ok_clause pred acts = true → length active = 1%nat → length spilled = 1%nat → as_ready tabs L tab →
  ∃ st, compile active spilled ids0 tab pred acts = Some (Done (tt, st)) ∧
    (names_fit L tab st → ∃ d tab' body,
       dt_as hdl aenv al yylineno (pcb_ir st) (cg_ids st) tabs (dt_ccstab st) maxreclen =
         mret (mk_as_result (mk_full d [] [] (ae_bufoff aenv)) (forget (cg_ids st) L) tabs tab'
                 (if maxreclen <? ae_bufoff aenv then ae_bufoff aenv else maxreclen)) ∧
       body_does err_id gsize lsize body (clause pred acts) ∧ size body < 2 ^ 15 - 12 ∧
       ∀ ddesc, clause_difo dt_dlib_get_var err_fun ne nc nx body (with_ddesc d ddesc)).
Proof.
  intros [(Ae & Ac & Ax) [ie He] [ic Hc] (ix & Hx & Hid)] Hok Ha Hs [Htb Hnm Hcnt Htab Hmode Hmem].
  destruct (compile_ok hdl eattr pcb_amin dt_dlib_get_func dt_dlib_get_var dt_dlib_get_map strsize oob soob smem ids0 err_id
    gsize lsize pred acts active spilled tab) as (st & hi & body & Hcomp & Hcc & Hl & Hlen & Hlab & Hids & Hst); [|done..|].
  { exists ix. split; [apply Hx|done]. }
  exists st. split; [done|]. intros Hfit. rewrite Hst.
  destruct (clause_sizes _ _ _ _ _ _ _ _ _ _ _ _ _ (-1) (-1) Hcc Hok) as (Hsz & Hb & Hhi).
  destruct (ids_bpf _ _ _ _ Hids He) as [je He']. destruct (ids_bpf _ _ _ _ Hids Hc) as [jc Hc']. destruct (ids_bpf _ _ _ _ Hids Hx) as [jx Hx'].
  assert (∀ a, a ∈ L → named_var (cg_ids st) a) as Hnm'.
  { intros a Ha'. destruct (Hnm a Ha') as (n & Hn & Hcn). exists n. split; [|done]. by rewrite (key_name _ _ _ (ids_keys _ Hids a)). }
  destruct (dt_as_spec hdl aenv al yylineno (pcb_ir st) (cg_ids st) tabs L tab maxreclen) as (d & tab' & Has & Had & _).
  { constructor; try done.
    - apply (closed_wf _ hi); rewrite ?Hl; [apply Hcc|by rewrite <- Hl|done|lia|lia].
    - rewrite Hl. eapply clause_refs_ok; [apply Hcc|done..].
    - by apply (tables_keys ids0); [apply ids_keys|].
    - pose proof (used_length (cg_ids st) L). lia. }
  exists d, tab', body. split_and!; [done|apply Hcc|lia|]. intros ddesc.
  eapply (assembled_clause hdl aenv _ _ _ _ _ _ (pcb_ir st)); [done|by rewrite Hlen, Hl|apply Hcc|done..].
Qed.

End Stages.

(** ** The clause in a linked program *)

Section Linked.
Context {T : Type} `{!StringTable T, !StringTableLaws T}.
Context (env : link_env) (ids : idheap) (L : list Z) (U : gset Z).
Context (get_var : string → Z) (ext : Z) (ne nc nx : list Z) (err_id gsize lsize : Z).

Lemma clause_in_program x body d c b root idp cl B s' dd hdl es' boot bootv base (nm : Z → string) (M : machine err_id) clause m m1 s :
  clause_symbols env ids ne nc nx x → clause_difo get_var ext ne nc nx body d → body_does err_id gsize lsize body clause →
  size body < 2 ^ 15 - 12 → c ∈ U → difo_of env ids c = Some d → (∀ y z, nm y = nm z → y = z) →
  linkable env ids L U root idp dd hdl boot bootv → runnable env ids U root idp →
  linked env ids root (relocs ids idp root) 0 (le_prid env) (seen0 idp) (dd, hdl) cl B s' es' →
  let C := mk_block idp root 0 cl :: B in
  let G := place (dtdo_len root) B in
  (b, base) ∈ positions 0 C → b_sym b = c →
  k_funs M = funs_of env ids G bootv nm C → (∀ v, k_sym M v = nm x) →
  m !! k_bd M = Some (k_dd M) → holds_vars M gsize lsize s m →
  begun (b_epid b) (b_clid b) (k_mst M) (k_buf M) m = Some m1 → (∀ m2, rest_as M m1 m2 → k_err_needs M m2) →
  does_clause err_id gsize lsize M (lcalls_to (k_helper M) (text env ids G bootv 0 C) (k_fb M) base [Ptr (k_bd M) 0] m) s clause m1.
Proof.
  intros Hsym Hd Hbody Hsz HcU Hcd Hnm Hln Hrun Hl C G Hpos Hbs Hfuns Hksym Hdd Hv Hm Hneeds.
  destruct (blocks_in _ _ _ _ _ _ _ _ _ _ Hln _ _ _ _ Hl) as [_ HB].
  assert (b_difo b = d ∧ inlined ids (b_sym b) = false) as Hb.
  { pose proof (positions_range _ _ _ _ Hpos) as (_ & _ & Hin). apply elem_of_cons in Hin as [->|Hin].
    - cbn [b_sym] in Hbs. subst c. by destruct Hrun as [[? _] _ _].
    - rewrite Forall_forall in HB. destruct (HB b Hin) as [HbU Hbd]. rewrite Hbs in Hbd. rewrite Hbs.
      split; [congruence|]. by destruct (rn_funs _ _ _ _ _ Hrun c d HcU Hcd). }
  pose proof Hd as [Hdec _ _ (labels & Hcode) Hlen _ _]. unfold dtdo_len in Hlen.
  pose proof (resolved_code get_var body d b labels Hcode) as Hres.
  assert (Forall decodes (resolved b (dtdo_buf d))) as Hdecs.
  { eapply code_at_decodes; [exact Hres| |by eapply clause_decodes]. rewrite length_resolved.
    unfold clause_nodes. rewrite !size_app. change (size (prologue_code _ _ _)) with 10. change (size (epilogue_code 1)) with 2. lia. }
  destruct (decode_prog_all (λ _, nm x) _ Hdecs) as [P HP].
  assert (call_result err_id gsize lsize M P m s clause m1) as Hres'.
  { eapply (clause_program get_var err_id gsize lsize M (b_epid b) (b_clid b) body clause labels); [done|exact Hres| | |
      by rewrite (decode_prog_ext _ (λ _, nm x))|done..]; rewrite length_resolved; [|lia].
    unfold clause_nodes. rewrite !size_app. change (size (prologue_code _ _ _)) with 10. change (size (epilogue_code 1)) with 2. lia. }
  assert (stands_at env ids G bootv nm C base P) as Hstands.
  { exists b. split; [done|].
    by rewrite (clause_linked_program env ids get_var ext ne nc nx x body d Hsym Hd G bootv b base Hb nm). }
  eapply does_clause_impl; [|exact Hres']. intros v m' (m2 & Hr & ->). rewrite Hfuns in Hr.
  destruct (linked_runs _ _ _ _ _ _ _ _ _ _ _ _ _ _ nm (k_helper M) P base _ _ _ _ _ _ Hnm Hln Hrun Hl Hstands Hr) as [n Hn].
  exists n, m2. split; [|done]. by rewrite Z.add_0_r in Hn.
Qed.

End Linked.

Section Whole.
Context `{Ctf} (hdl : hdl_types) (eattr : bool) (pcb_amin : dtrace_attribute).
Context (dt_dlib_get_func dt_dlib_get_var dt_dlib_get_map : string → Z) (strsize : Z).
Context (oob : nat → nat → Z) (soob : nat → Z) (smem : chunks).
Context (ids0 : idheap) (err_id gsize lsize : Z).
Context `{!StringTable dt_strtab, !StringTableLaws dt_strtab} (aenv : as_env) (al : idheap → option Z) (yylineno : Z).


End Whole.

End ClauseRun.
