(* ===== verification/CookCode.v ===== *)
(** * Well-typed clauses can be compiled

    A clause that [dt_cook_clause] has accepted is one that the code generator
    handles, if its expressions are [integral]: built from integers of the sizes of
    machine words, the ordinary variables among them, without pointers, strings and
    thread-local variables.  So what [ClauseRun] shows of the compiled clause holds for
    it. *)
From S2P Require Import Prelude CLib Ident Node Cg Cook CookInv CookTyped CookOps CookTree CookClause Strtab DtAs CgSem CgCorrect CgClause CgProgram.
#[local] Open Scope Z_scope.
Import Ident DtAs Node Cg Cook CookInv CookTyped CookOps CookTree CookClause CgSem CgClause CgProgram.

Module CookCode.

Section Integral.
Context {ctf : Ctf} (hdl : hdl_types) (ids : idheap).

(** An integer that a register holds. *)
Definition machine_int (e : dt_node) : bool :=
  answer false (dt_node_is_integer e) && size_ok (ctf_type_size (dn_ctfp (common e)) (dn_type (common e))).

(** A variable in one of the blocks of global and local variables. *)
Definition ordinary (a : Z) : bool :=
  match ids !! a with
  | Some i => (di_ops i =? dt_idops_thaw) && negb (has (di_flags i) DT_IDFLG_TLS)
  | None => false
  end.

Fixpoint integral (e : dt_node) : bool :=
  machine_int e &&
  match e with
  | Const _ _ => true
  | Str _ _ | TypeName _ | Id _ _ => false
  | Var _ a => ordinary a
  | Op1 _ op x =>
      match op with
      | DT_TOK_SIZEOF => match x with Str _ _ => false | _ => true end
      | DT_TOK_DEREF | DT_TOK_ADDROF | DT_TOK_STRINGOF => false
      | _ => integral x
      end
  | Op2 _ op l r => match op with DT_TOK_LPAR => integral r | _ => integral l && integral r end
  | Op3 _ x l r => integral x && integral l && integral r
  end.

End Integral.

Section Code.
Context {ctf : Ctf} {ctfc : CtfCook} (hdl : hdl_types) (hdc : cook_types) (eattr : bool) (pcb_amin : dtrace_attribute).
Context (dt_gen : Z) (dt_type_lookup : list Z → option dt_tid) (valid : Z → Z → Prop) (U : Z).
Hypothesis laws : ctf_laws hdl hdc valid dt_type_lookup U.
(** Strings are arrays, and [int] is an integer. *)
Hypothesis string_kind : ∀ fp type, fp = tid_ctfp (dt_type_str hdl) → type = tid_type (dt_type_str hdl) →
  ctf_type_kind fp (ctf_type_resolve fp type) = CTF_K_ARRAY.
Hypothesis int_encoding : is_Some (ctf_type_encoding (tid_ctfp (dt_type_int hdl)) (tid_type (dt_type_int hdl))).

#[local] Abbreviation typed := (typed hdl hdc eattr pcb_amin valid).
#[local] Abbreviation inv := (inv valid dt_gen).

Section Tree.
Context (s : cook_state) (gsize lsize : Z).
Hypothesis Hinv : inv s.
(** The blocks hold the variables, and the offsets of instructions reach all of them. *)
Hypothesis Hg : nextoff Globals s <= gsize.
Hypothesis Hl : nextoff Locals s <= lsize.
Hypothesis Hreach : nextoff Globals s <= 2 ^ 15 ∧ nextoff Locals s <= 2 ^ 15.

#[local] Abbreviation sup := (supported hdl eattr pcb_amin (ck_ids s) gsize lsize).
#[local] Abbreviation integral := (integral (ck_ids s)).

Lemma integral_int e : integral e = true → machine_int e = true.
Proof. destruct e; cbn; intros [? _]%andb_true_iff; done. Qed.

Section Int.
Context (e : dt_node).
Hypothesis He : typed s e.
Hypothesis Hi : machine_int e = true.

Lemma int_kind_of : integer e.
Proof.
  destruct (asks_integer e (typed_cooked _ _ _ _ _ _ _ He)) as (b & Eb & Hb). unfold machine_int in Hi. rewrite Eb in Hi. cbn in Hi.
  apply andb_true_iff in Hi as [-> _]. by apply Hb.
Qed.

Lemma int_size : size_ok (ctf_type_size (dn_ctfp (common e)) (dn_type (common e))) = true.
Proof. unfold machine_int in Hi. by apply andb_true_iff in Hi as [_ ?]. Qed.

Lemma int_not_string : dt_node_is_string hdl e = false.
Proof.
  destruct (dt_node_is_string hdl e) eqn:Es; [|done]. unfold dt_node_is_string, has_type in Es. apply andb_true_iff in Es as [E1%Z.eqb_eq E2%Z.eqb_eq].
  pose proof (string_kind _ _ E1 E2) as Hk. change (kind_of e = CTF_K_ARRAY) in Hk. destruct int_kind_of as [[E _]|E]; rewrite E in Hk; done.
Qed.

Lemma int_not_pointer : not_pointer hdl e = true.
Proof.
  destruct (asks_pointer hdl e (typed_cooked _ _ _ _ _ _ _ He)) as (b & Eb & Hb). unfold not_pointer. rewrite Eb. cbn. destruct b; [|done].
  destruct Hb as [[_ [E|E]] _]; [done|..]; destruct int_kind_of as [[E' _]|E']; rewrite E in E'; done.
Qed.

Lemma int_not_ref : not_ref e = true.
Proof.
  destruct (typed_agree _ _ _ _ _ _ _ He) as [_ _ Hf]. unfold not_ref, has_flag. rewrite Hf by repeat constructor. apply negb_true_iff.
  pose proof (typed_not_dyn _ _ _ _ _ _ _ laws _ _ He) as Hd. unfold dt_node_is_dynamic, has_type in Hd. unfold type_flags. rewrite Hd.
  change (ctf_type_kind (dn_ctfp (common e)) (ctf_type_resolve (dn_ctfp (common e)) (dn_type (common e)))) with (kind_of e).
  destruct int_kind_of as [[-> _]| ->]; cbn; [|done].
  match goal with |- context [match ?x with Some _ => _ | None => _ end] => destruct x end; repeat match goal with |- context [if ?b then _ else _] => destruct b end; done.
Qed.

Lemma int_type_size : answers (dt_node_type_size hdl e) = true.
Proof. unfold dt_node_type_size. rewrite (typed_not_dyn _ _ _ _ _ _ _ laws _ _ He). by destruct e. Qed.

Lemma int_node_size : (∀ c str, e ≠ Str c str) → node_size hdl e = ctf_type_size (dn_ctfp (common e)) (dn_type (common e)).
Proof.
  intros Hn. pose proof int_size as Hs. unfold size_ok in Hs. rewrite !andb_true_iff in Hs. destruct Hs as [[H1%Z.ltb_lt H2%Z.leb_le] _].
  unfold node_size, dt_node_type_size. rewrite (typed_not_dyn _ _ _ _ _ _ _ laws _ _ He).
  destruct e as [| c str| | | | | |]; try (by destruct (Hn c str)); cbn in *; apply wrap_id; unfold urange; lia.
Qed.

End Int.

(** A variable in its block. *)
Lemma ordinary_var c a : typed s (Var c a) → machine_int (Var c a) = true → ordinary (ck_ids s) a = true →
  ∃ i, ck_ids s !! a = Some i ∧ di_size i = ctf_type_size (dn_ctfp c) (dn_type c) ∧ ident_ok gsize lsize i (di_size i) = true.
Proof.
  intros Ht Hi Ho. inversion Ht as [| | |? ? Ha Hv Hty| | |]; subst. destruct (is_var_known valid dt_gen _ _ Hinv Hv) as (t & i & Hm & Hid & Hva).
  unfold ordinary in Ho. rewrite Hid in Ho. apply andb_true_iff in Ho as [Hthaw%Z.eqb_eq Htls%negb_true_iff].
  destruct Hva as [V1 V2 V3 [V4 V4'] Vt V5 V6 V7 V8 V9 Vb]. assert (t ≠ Tls) as Hne by (intros ->; rewrite Htls in Vt; done).
  destruct (V9 _ _ Hthaw Hty Hne) as (Hoff & Hsz & Hend). exists i. split_and!; [done|done|].
  pose proof (int_size _ Hi) as Hs. cbn [common] in Hs. rewrite <- Hsz in Hs. pose proof Hs as Hs2. unfold size_ok in Hs2. rewrite !andb_true_iff in Hs2.
  destruct Hs2 as [[H1%Z.ltb_lt _] _].
  assert (is_local i = bool_decide (t = Locals)) as Hloc.
  { unfold is_local. unfold di_hash in V2. destruct (has (di_flags i) DT_IDFLG_LOCAL); [by subst t|]. rewrite Htls in V2. by subst t. }
  assert (nextoff t s <= (if is_local i then lsize else gsize) ∧ nextoff t s <= 2 ^ 15) as [Hb1 Hb2].
  { rewrite Hloc. destruct Hreach. destruct t; [by split|done|by split]. }
  unfold ident_ok. rewrite V4, V4', Htls, Hs, V1. cbn [negb andb]. rewrite !andb_true_iff, Z.leb_le, Z.ltb_lt, Z.leb_le. split_and!; try done; try lia.
  unfold in_block. fold (is_local i). rewrite Hloc, Htls. destruct t; cbn [bool_decide decide orb negb andb]; [|done|done].
  apply Z.leb_le. by apply V5.
Qed.

Lemma var_supported c a : typed s (Var c a) → machine_int (Var c a) = true → ordinary (ck_ids s) a = true → sup (Var c a) = true.
Proof.
  intros Ht Hi Ho. destruct (ordinary_var c a Ht Hi Ho) as (i & Hid & Hsz & Hok). cbn [supported].
  rewrite (int_not_ref _ Ht Hi), (int_type_size _ Ht Hi). unfold var_ok. rewrite Hid, (int_node_size _ Ht Hi) by done. cbn [common]. by rewrite <- Hsz.
Qed.

(** The target of the assignment [e]. *)
Lemma target_supported e l : typed s e → machine_int e = true → typed s l → integral l = true → lvalue l → target_ok (ck_ids s) gsize lsize e l = true.
Proof.
  intros He Hei Ht Hil Hlv. pose proof (integral_int l Hil) as Hli. destruct l as [| | | |c a|c op x| |]; try done; cbn in Hil; apply andb_true_iff in Hil as [_ Hil].
  - destruct (ordinary_var c a Ht Hli Hil) as (i & Hid & Hsz & Hok). cbn [target_ok]. rewrite (int_not_ref _ He Hei). unfold var_ok, var_of. by rewrite Hid.
  - by destruct op.
Qed.

Lemma source_supported r : typed s r → source_ok hdl r = true.
Proof. intros Ht. pose proof (typed_not_dyn _ _ _ _ _ _ _ laws _ _ Ht) as Hd. unfold source_ok. rewrite Hd. by destruct r. Qed.

Lemma compare_supported c op l r : typed s (Op2 c op l r) → typed s l → typed s r → machine_int l = true → machine_int r = true →
  compare_ok hdl eattr pcb_amin l r = true.
Proof.
  intros He Tl Tr Il Ir. inversion He as [| | | | |? ? ? ? _ _ _ _ _ Hat Hst|]; subst.
  unfold compare_ok. rewrite (int_not_string _ Tl Il), (int_not_string _ Tr Ir). cbn [negb andb].
  unfold dt_cg_compare_signed. rewrite (int_not_string _ Tl Il), (int_not_string _ Tr Ir). cbn [orb].
  destruct (asks_arith l (typed_cooked _ _ _ _ _ _ _ Tl)) as (la & -> & Hla), (asks_arith r (typed_cooked _ _ _ _ _ _ _ Tr)) as (ra & Era & Hra).
  destruct la; [|done]. rewrite Era. destruct ra; [|done]. cbn [mbind comp_bind mret comp_ret negb andb].
  assert (∃ t, dt_type_promote hdl l r = mret t) as [t Et].
  { destruct Hla as [Hl1 _], Hra as [Hr1 _]. specialize (Hl1 eq_refl). specialize (Hr1 eq_refl). unfold dt_type_promote. destruct int_encoding as [ie Eie].
    unfold arithmetic, encoding_of in Hl1, Hr1. destruct Hl1 as [[E1 (n1 & En1 & _)]|E1], Hr1 as [[E2 (n2 & En2 & _)]|E2]; rewrite E1, E2; cbn; rewrite ?En1, ?En2, ?Eie; by eexists. }
  unfold dt_node_promote. rewrite Et. cbn [mbind comp_bind mret comp_ret]. unfold dt_node_attr_assign, attr_assign.
  rewrite Hat in Hst. unfold stable, min_attr in Hst. by rewrite Hst.
Qed.

Lemma cast_supported c cl r : typed s (Op2 c DT_TOK_LPAR (TypeName cl) r) → typed s r → machine_int (Op2 c DT_TOK_LPAR (TypeName cl) r) = true →
  machine_int r = true → (∀ c str, r ≠ Str c str) → CgSem.cast_ok hdl r (Op2 c DT_TOK_LPAR (TypeName cl) r) = true.
Proof.
  intros He Hr Ie Ir Hns. unfold CgSem.cast_ok. rewrite (int_type_size _ Hr Ir), (int_type_size _ He Ie), (int_node_size _ Hr Ir Hns), (int_node_size _ He Ie) by done.
  destruct (asks_scalar _ (typed_cooked _ _ _ _ _ _ _ He)) as (b & -> & _). pose proof (int_size _ Ir) as S1. pose proof (int_size _ Ie) as S2.
  unfold size_ok in S1, S2. rewrite !andb_true_iff in S1, S2. destruct S1 as [[?%Z.ltb_lt ?%Z.leb_le] _], S2 as [[?%Z.ltb_lt ?%Z.leb_le] _].
  cbn [answers andb mret comp_ret]. rewrite !andb_true_iff, Z.ltb_lt, Z.leb_le. split_and!; try done; lia.
Qed.

Lemma integral_not_str e : integral e = true → ∀ c str, e ≠ Str c str.
Proof. intros Hi c str ->. cbn in Hi. by rewrite andb_false_r in Hi. Qed.

Lemma op2_supported c op l r : typed s (Op2 c op l r) → machine_int (Op2 c op l r) = true →
  integral r = true → sup r = true → (op ≠ DT_TOK_LPAR → integral l = true ∧ sup l = true) → sup (Op2 c op l r) = true.
Proof.
  intros He Ie Ir Sr Hleft. inversion He as [| | | | |? ? ? ? _ _ Tl Tr Hty _ _|]; subst. pose proof (integral_int _ Ir) as Mr.
  destruct (decide (op = DT_TOK_LPAR)) as [->|Hop].
  { destruct (cast_type _ _ _ _ _ Hty) as [cl ->]. cbn [supported]. rewrite Sr. by apply cast_supported; [..|by apply integral_not_str]. }
  destruct (Hleft Hop) as [Il Sl]. pose proof (integral_int _ Il) as Ml.
  assert (is_compare op = true → sup (Op2 c op l r) = true) as Hcmp.
  { pose proof (compare_supported c op l r He Tl Tr Ml Mr) as Hc. intros Ho. destruct op; try done; cbn [supported]; by rewrite Sl, Sr, Hc. }
  pose proof (int_not_pointer _ Tl Ml) as Pl. pose proof (int_not_pointer _ Tr Mr) as Pr.
  pose proof (source_supported r Tr) as Hsrc.
  assert (modifiable l → target_ok (ck_ids s) gsize lsize (Op2 c op l r) l = true) as Htgt.
  { intros [Hlv _]. by apply target_supported. }
  inversion Hty; subst; try (by apply Hcmp);
    try match goal with Hin : op ∈ _ |- _ => each Hin end;
    cbn [supported EQ_op arith_op]; rewrite ?Sl, ?Sr, ?Pl, ?Pr, ?Hsrc, ?Htgt by done; done.
Qed.

Lemma op1_supported c op x : typed s (Op1 c op x) → integral (Op1 c op x) = true → (integral x = true → sup x = true) → sup (Op1 c op x) = true.
Proof.
  intros He Hi IH. pose proof (integral_int _ Hi) as Ie. inversion He as [| | | |? ? ? _ _ Tx Hty _ _| |]; subst.
  cbn in Hi. apply andb_true_iff in Hi as [_ Hi]. destruct (decide (op = DT_TOK_SIZEOF)) as [->|Hns].
  { inversion Hty as [| | | | |? n _ Hn Hn0| |]; subst; [..|done]; try absent. cbn [supported]. unfold node_size. rewrite Hn. cbn.
    assert (0 <= n < 2 ^ 64) as [? ?]; [|apply andb_true_iff; rewrite !Z.ltb_lt; lia].
    unfold dt_node_type_size in Hn. destruct x as [|c0 str| | | | | |]; try (destruct (negb _); cbn in Hn; [injection Hn as <-; apply wrap_range; lia|done]).
    done. }
  assert (integral x = true) as Hix by (destruct op; done). specialize (IH Hix).
  assert (modifiable x → target_ok (ck_ids s) gsize lsize (Op1 c op x) x = true) as Htgt.
  { intros [Hlv _]. by apply target_supported. }
  pose proof (int_not_pointer _ He Ie) as Pe.
  inversion Hty; subst; try done; try match goal with Hin : op ∈ _ |- _ => each Hin end; cbn [supported]; try done.
  destruct op; try done; cbn [supported]; by rewrite IH, Htgt, Pe.
Qed.

Lemma typed_supported e : typed s e → integral e = true → sup e = true.
Proof.
  induction e as [c v|c str|c|c name|c a|c op x IH|c op l IHl r IHr|c x IHx l IHl r IHr]; intros He Hi; pose proof (integral_int _ Hi) as Ie;
    pose proof Hi as Hi0; cbn in Hi; apply andb_true_iff in Hi as [_ Hi]; try done.
  - inversion He as [? ? _ _ Hv| | | | | |]; subst. cbn [supported]. apply andb_true_iff. rewrite Z.leb_le, Z.ltb_lt. lia.
  - by apply var_supported.
  - apply op1_supported; [done|done|]. inversion He; subst. auto.
  - inversion He; subst. destruct (decide (op = DT_TOK_LPAR)) as [->|Hop].
    + apply op2_supported; [done|done|done|by apply IHr|done].
    + assert (integral l = true ∧ integral r = true) as [Il Ir] by (apply andb_true_iff; by destruct op).
      apply op2_supported; [done|done|done|by apply IHr|]. intros _. split; [done|by apply IHl].
  - inversion He; subst. rewrite !andb_true_iff in Hi. destruct Hi as [[Ix Il] Ir]. cbn [supported].
    rewrite IHx, IHl, IHr, (int_not_string _ He Ie) by done. done.
Qed.

End Tree.

(** The registers, the labels and the instructions that there are suffice. *)
Definition clause_fits (pred : option dt_node) (acts : list dt_node) : bool :=
  match acts with [] => false | _ => true end && from_option (fits 0) true pred && forallb (fits 0) acts &&
  (32 * clause_weight pred acts + 13 <? 2 ^ 15).

Definition clause_integral (ids : idheap) (pred : option dt_node) (acts : list dt_node) : bool :=
  from_option (integral ids) true pred && forallb (integral ids) acts.

Context (_dtrace_defattr : dtrace_attribute).

Lemma typed_clause_ok s pred acts : inv s → clause_typed hdl hdc eattr pcb_amin _dtrace_defattr valid s pred acts →
  clause_integral (ck_ids s) pred acts = true → clause_fits pred acts = true →
  nextoff Globals s <= 2 ^ 15 → nextoff Locals s <= 2 ^ 15 →
  clause_ok hdl eattr pcb_amin (ck_ids s) (nextoff Globals s) (nextoff Locals s) pred acts = true.
Proof.
  intros Hinv [Ha Hp _] Hi Hf Hg Hl. unfold clause_integral in Hi. unfold clause_fits in Hf. rewrite !andb_true_iff in Hf.
  apply andb_true_iff in Hi as [Hip Hia]. destruct Hf as [[[Hne Hfp] Hfa] Hw]. unfold clause_ok. rewrite Hne, Hw.
  assert (∀ e, typed s e → integral (ck_ids s) e = true → supported hdl eattr pcb_amin (ck_ids s) (nextoff Globals s) (nextoff Locals s) e = true) as Hsup.
  { intros e. by apply typed_supported. }
  rewrite !andb_true_iff. split_and!; try done.
  - destruct pred as [p|]; [|done]. cbn in *. rewrite Hsup, Hfp; [done|by apply (Hp p)|done].
  - rewrite forallb_forall in Hia, Hfa. apply forallb_forall. intros e He. apply andb_true_iff. split; [|by apply Hfa]. apply Hsup; [|by apply Hia].
    rewrite Forall_forall in Ha. by apply Ha, list_elem_of_In.
Qed.

End Code.

Section Compile.
Context {ctf : Ctf} {ctfc : CtfCook} (hdl : hdl_types) (hdc : cook_types) (eattr : bool) (pcb_amin : dtrace_attribute).
Context (_dtrace_defattr _dtrace_symattr : dtrace_attribute).
Context (al : idheap → option Z) (yylineno dt_gen : Z).
Context (dt_type_lookup : list Z → option dt_tid) (type_names : Z → list Z).
Context (valid : Z → Z → Prop) (U : Z).

(** The conditions of the code generator on the types, the flags, the targets of
    assignments and the places of the variables are met. *)
Lemma cooked_clause_ok dtp_attr pred acts f s s' pred' acts' :
  ctf_laws hdl hdc valid dt_type_lookup U → (∀ h a, al h = Some a → a ≠ 0 ∧ h !! a = None) →
  (∀ fp type, fp = tid_ctfp (dt_type_str hdl) → type = tid_type (dt_type_str hdl) → ctf_type_kind fp (ctf_type_resolve fp type) = CTF_K_ARRAY) →
  is_Some (ctf_type_encoding (tid_ctfp (dt_type_int hdl)) (tid_type (dt_type_int hdl))) →
  mode f → f ≠ 0 → inv valid dt_gen s → (∀ p, pred = Some p → raw hdl valid s p) → Forall (raw hdl valid s) acts →
  room U (2 * list_nodes acts + pred_nodes pred) s →
  dt_cook_clause hdl hdc eattr pcb_amin _dtrace_defattr _dtrace_symattr al yylineno dt_gen dt_type_lookup type_names dtp_attr pred acts f s =
    Some (s', pred', acts', None) →
  clause_integral (ck_ids s') pred' acts' = true → clause_fits pred' acts' = true →
  dt_idhash_datasize (ck_globals s') <= 2 ^ 15 → dt_idhash_datasize (ck_locals s') <= 2 ^ 15 →
  clause_ok hdl eattr pcb_amin (ck_ids s') (dt_idhash_datasize (ck_globals s')) (dt_idhash_datasize (ck_locals s')) pred' acts' = true.
Proof.
  intros laws al_fresh Hstr Henc Hf Hf0 Hinv Hp Ha Hroom Hc Hi Hfit Hg Hl.
  destruct (clause_sound hdl hdc eattr pcb_amin _dtrace_defattr _dtrace_symattr al yylineno dt_gen dt_type_lookup type_names valid U laws al_fresh
    dtp_attr pred acts f s Hf Hf0 Hinv Hp Ha Hroom) as (s1 & p1 & a1 & er & E & Hinv1 & _ & _ & _ & Ht).
  rewrite Hc in E. injection E as <- <- <- <-. specialize (Ht eq_refl).
  by eapply (typed_clause_ok hdl hdc eattr pcb_amin dt_gen dt_type_lookup valid U laws).
Qed.

(** C3: A clause that the type checker accepts and that computes with integers in
    ordinary variables compiles and assembles, if the registers and the reach of
    branches suffice, and a call of the program evaluates the cooked predicate and
    statements on the blocks of the variables, laid out as the type checker did.  So
    none of the assertions of the code generator can fail for such a clause. *)
Theorem dt_cook_clause_compiles dtp_attr pred acts f s s' pred' acts' get_func get_var get_map strsize oob soob smem err_id active spilled tab :
  ctf_laws hdl hdc valid dt_type_lookup U → (∀ h a, al h = Some a → a ≠ 0 ∧ h !! a = None) →
  (∀ fp type, fp = tid_ctfp (dt_type_str hdl) → type = tid_type (dt_type_str hdl) → ctf_type_kind fp (ctf_type_resolve fp type) = CTF_K_ARRAY) →
  is_Some (ctf_type_encoding (tid_ctfp (dt_type_int hdl)) (tid_type (dt_type_int hdl))) →
  mode f → f ≠ 0 → inv valid dt_gen s → (∀ p, pred = Some p → raw hdl valid s p) → Forall (raw hdl valid s) acts →
  room U (2 * list_nodes acts + pred_nodes pred) s →
  dt_cook_clause hdl hdc eattr pcb_amin _dtrace_defattr _dtrace_symattr al yylineno dt_gen dt_type_lookup type_names dtp_attr pred acts f s =
    Some (s', pred', acts', None) →
  clause_integral (ck_ids s') pred' acts' = true → clause_fits pred' acts' = true →
  dt_idhash_datasize (ck_globals s') <= 2 ^ 15 → dt_idhash_datasize (ck_locals s') <= 2 ^ 15 →
  err_known get_func (ck_ids s') err_id → length active = 1%nat → length spilled = 1%nat →
  ∃ st labels buf,
    dt_cg hdl eattr pcb_amin get_func get_var get_map strsize oob soob smem active spilled (ck_ids s') tab pred' acts' = Some (Done (tt, st)) ∧
    as_code (pcb_ir st) = Some (labels, buf) ∧
    let gsize := dt_idhash_datasize (ck_globals s') in
    let lsize := dt_idhash_datasize (ck_locals s') in
    ∀ (M : machine err_id) m m1 vars, m !! k_bd M = Some (k_dd M) → holds_vars M gsize lsize vars m →
      begun (-1) (-1) (k_mst M) (k_buf M) m = Some m1 → (∀ m2, rest_as M m1 m2 → k_err_needs M m2) →
      ∃ P, decode_prog (k_sym M) buf = Some P ∧
        call_result err_id gsize lsize M P m vars (run_clause hdl eattr pcb_amin (ck_ids s') pred' acts') m1.
Proof.
  intros laws al_fresh Hstr Henc Hf Hf0 Hinv Hp Ha Hroom Hc Hi Hfit Hg Hl Herr Hac Hsp.
  eapply clause_compiles; [done| |done..]. by eapply cooked_clause_ok.
Qed.

End Compile.

End CookCode.
