(* ===== verification/CookExample.v ===== *)
(** * Type checking of a clause

    A small world of types, with [char], [int], [int64_t] and strings.  The clause
    [/(this->i = 3) > 1/ { x = this->i + 1; x += 2; }] is cooked: the statements
    fail first, because [this->i] has no type, and are cooked again after the
    predicate; the result is compiled and called.  Three expressions show what the
    type checker does with variables that are new. *)
From S2P Require Import Prelude CLib Ident Node Cg Cook CookInv CookTyped CookOps CookTree CookClause Bpf Strtab DtAs CgSem CgClause CgProgram CgExample CookCode.
#[local] Open Scope Z_scope.
Import Ident DtAs Node Cg Cook CookInv CookTyped CookOps CookTree CookClause CgSem CgClause CgProgram CookCode.

Module CookExample.

(** ** Types: int, int64_t, char, string; 5 is that of dynamic variables *)

Definition tsize (t : Z) : Z := match t with 1 => 4 | 2 => 8 | 3 => 1 | 4 => 256 | _ => 0 end.
Definition is_int (t : Z) : bool := (1 <=? t) && (t <=? 3).

#[local] Instance ctf : Ctf := {|
  ctf_type_resolve := λ _ t, t;
  ctf_type_kind := λ _ t, if is_int t then CTF_K_INTEGER else if t =? 4 then CTF_K_ARRAY else CTF_K_STRUCT;
  ctf_type_size := λ _ t, tsize t;
  ctf_type_encoding := λ _ t, if is_int t then Some (mk_encoding CTF_INT_SIGNED 0 (8 * tsize t)) else None;
  ctf_type_reference := λ _ t, t;
  ctf_array_info := λ _ t, if t =? 4 then Some 3 else None
|}.

#[local] Instance ctf_cook : CtfCook := {|
  ctf_type_compat := λ fp t fp' t', (fp =? fp') && (t =? t');
  ctf_enum_value := λ _ _ _, None;
  ctf_array_nelems := λ _ t, if t =? 4 then Some 256 else None;
  ctf_type_pointer := λ _ _, None;
  ctf_parent_file := λ fp, fp;
  ctf_add_type := λ _ _ _, None;
  ctf_add_pointer := λ _ _, None;
  CTF_CHAR := 2
|}.

Definition types : hdl_types := mk_types (mk_tid 1 4) (mk_tid 1 5) (mk_tid 1 1) [(mk_tid 1 1, 2 ^ 31 - 1); (mk_tid 1 2, 2 ^ 63 - 1)].
Definition more_types : cook_types := mk_cook_types (mk_tid 1 6) (mk_tid 1 7) (mk_tid 1 8) (mk_tid 1 2) (mk_tid 1 2) 1.
Definition lookup_type (name : list Z) : option dt_tid := if bool_decide (name = str "int64_t") then Some (mk_tid 1 2) else None.
Definition valid (fp t : Z) : Prop := fp = 1 ∧ t ∈ [1; 2; 3; 4].
Definition U : Z := 272.

Lemma laws : ctf_laws types more_types valid lookup_type U.
Proof.
  assert (∀ t, t ∈ [1; 2; 3; 4] → t = 1 ∨ t = 2 ∨ t = 3 ∨ t = 4) as Hin by set_solver.
  constructor; try done; try (split; [done|set_solver]).
  - intros fp t [-> [->|[->|[->| ->]]]%Hin]; done.
  - intros [_ [E|[E|[E|E]]]%Hin]; done.
  - intros name t. unfold lookup_type. case_bool_decide; [|done]. intros [= <-]. split; [done|set_solver].
  - intros t. unfold lookup_type. case_bool_decide; [|done]. by intros [= <-].
  - intros fp t t' [-> [->|[->|[->| ->]]]%Hin]; try done. intros [= <-]. split; [done|set_solver].
  - intros fp t [-> [->|[->|[->| ->]]]%Hin]; done.
  - intros c a [_ [E|[E|[E|E]]]%Hin] Hs; rewrite E.
    + by exists 2.
    + by exists 3.
    + by exists 0.
    + unfold scalar, integer, kind_of in Hs. cbn in Hs. rewrite E in Hs. by destruct Hs as [[[? _]|?]|?].
Qed.

(** ** The clause *)

Definition attr : dtrace_attribute := mk_attr 5 5 5.
Definition blank : dt_common := mk_common 0 CTF_ERR 0 attr.
Definition lit (v : Z) : dt_node := Const (type_assign types blank 1 1) v.
Definition name (s : string) : dt_node := Id blank (str s).
Definition this_var (s : string) : dt_node := Op2 blank DT_TOK_PTR (name "this") (name s).
Definition op2 (op : tok) (l r : dt_node) : dt_node := Op2 blank op l r.

Definition pred : dt_node := op2 DT_TOK_GT (op2 DT_TOK_ASGN (this_var "i") (lit 3)) (lit 1).
Definition acts : list dt_node :=
  [op2 DT_TOK_ASGN (name "x") (op2 DT_TOK_ADD (this_var "i") (lit 1)); op2 DT_TOK_ADD_EQ (name "x") (lit 2)].

(** ** The tables, and the function of the BPF library that reports faults *)

Definition probe_error : Z := 1.
Definition get_func (name : string) : Z := if decide (name = "dt_probe_error"%string) then probe_error else 0.
Definition library : idheap := {[ probe_error := CgExample.ident DT_IDENT_SYMBOL 0x1000 0xffffffff 0 0 ]}.

Definition new_table (min : Z) : dt_idhash :=
  mk_idhash (str "variables") false None min min (2 ^ 32 - 1) 0 0 _dtrace_strbuckets (replicate _dtrace_strbuckets []).
Definition tables : cook_state := mk_ck library ∅ None (new_table DIF_VAR_OTHER_UBASE) (new_table 0) (new_table 0) 0.

Lemma tables_inv gen : inv valid gen tables.
Proof. apply (inv_create _ _ _ (str "variables") DIF_VAR_OTHER_UBASE 0 0 (2 ^ 32 - 1)); done. Qed.

Definition cook_clause (pred : option dt_node) (acts : list dt_node) :=
  dt_cook_clause types more_types false attr attr attr al_max 1 1 lookup_type (λ _, []) attr pred acts DT_IDFLG_REF tables.

(** The clause after it was cooked. *)
Definition cooked_clause : option dt_node * list dt_node * option error * cook_state :=
  match cook_clause (Some pred) acts with
  | Some (s, p, a, e) => (p, a, e, s)
  | None => (None, [], None, tables)
  end.

Lemma cooked_is : cook_clause (Some pred) acts =
  Some (cooked_clause.2, cooked_clause.1.1.1, cooked_clause.1.1.2, cooked_clause.1.2).
Proof. vm_compute. reflexivity. Qed.

(** Both variables are [int]s; the result of the clause is without error. *)
Lemma cooked_types : ck_types cooked_clause.2 !! 2 = Some (1, 1) ∧ ck_types cooked_clause.2 !! 3 = Some (1, 1) ∧ cooked_clause.1.2 = None.
Proof. vm_compute. done. Qed.

Lemma lit_agree v : agree types valid (common (lit v)).
Proof. apply agree_assign. split; [done|set_solver]. Qed.

Lemma lit_raw s v : 0 <= v < 2 ^ 64 → raw types valid s (lit v).
Proof. intros Hv. by split; [apply (lit_agree v)|]. Qed.

Lemma name_raw s n : plain_name (str n) = true → raw types valid s (name n).
Proof. done. Qed.

Lemma this_raw s n : plain_name (str n) = true → raw types valid s (this_var n).
Proof. intros Hn. split; [by right|done]. Qed.

Lemma op2_raw s op l r : op ≠ DT_TOK_PTR → op ≠ DT_TOK_LPAR → raw types valid s l → raw types valid s r →
  (op = DT_TOK_ASGN → looked_up l = false ∧ assigns s r = []) → raw types valid s (op2 op l r).
Proof.
  intros Ho Ho' Hl Hr Ha. apply raw_op2; [done|]. split_and!; [done..|]. intros E. destruct (Ha E) as [Hlu ->]. split; [done|].
  intros k _ Hin. by apply elem_of_nil in Hin.
Qed.

Lemma pred_raw : raw types valid tables pred.
Proof. repeat (apply op2_raw; [done|done|..|done]); [by apply this_raw|by apply lit_raw|by apply lit_raw]. Qed.

Lemma acts_raw : Forall (raw types valid tables) acts.
Proof.
  apply Forall_cons. split; [|apply Forall_cons; split; [|done]]; repeat (apply op2_raw; [done|done|..|done]);
    first [by apply this_raw|by apply name_raw|by apply lit_raw].
Qed.

Lemma tables_room n : n <= 100 → room U n tables.
Proof. intros Hn []; unfold U; cbn; unfold nextoff; cbn; lia. Qed.

(** ** What the theorems say of the clause *)


(** The variables of the clause, [x] and [this->i]. *)
Definition vars (x i : Z) : venv := mk_venv (Z_to_little_endian 4 8 x) (Z_to_little_endian 4 8 i).

Lemma program_vars x i : holds_vars CgExample.world 4 4 (vars x i) (CgExample.memory (vars x i)).
Proof.
  constructor; try done; cbn [vars gvars lvars].
  - by apply (Z_to_little_endian_bound 4 8 x).
  - by apply (Z_to_little_endian_bound 4 8 i).
Qed.

(** The program sets [this->i] to 3 and [x] to 6. *)
Lemma dt_cook_clause_compiles_witness : ∃ st labels buf P m',
  dt_cg types false attr get_func get_func get_func 256 (λ _ _, 0) (λ _, 0) (λ _, None) [12345] [678] (ck_ids cooked_clause.2)
    (Strtab.mk_strtab [] 0 [] (0%nat, 0%nat) 0 0 0 0) cooked_clause.1.1.1 cooked_clause.1.1.2 = Some (Done (tt, st)) ∧
  as_code (pcb_ir st) = Some (labels, buf) ∧ decode_prog (k_sym CgExample.world) buf = Some P ∧
  Bpf.calls_to CgExample.no_helper CgExample.functions P 10 [Bpf.Ptr 1 0] (CgExample.memory (vars 0 0)) (Some (Bpf.Int 0)) m' ∧
  m' !! 2 = Some (Bpf.Byte <$> [6; 0; 0; 0]) ∧ m' !! 3 = Some (Bpf.Byte <$> [3; 0; 0; 0]).
Proof.
  destruct (dt_cook_clause_compiles types more_types false attr attr attr al_max 1 1 lookup_type (λ _, []) valid U attr (Some pred) acts DT_IDFLG_REF
    tables cooked_clause.2 cooked_clause.1.1.1 cooked_clause.1.1.2 get_func get_func get_func 256 (λ _ _, 0) (λ _, 0) (λ _, None) (-1) [12345] [678]
    (Strtab.mk_strtab [] 0 [] (0%nat, 0%nat) 0 0 0 0)) as (st & labels & buf & Hc & Ha & Hrun);
    [exact laws|exact al_max_fresh|by intros ? ? -> ->|by eexists|by right; left|done|apply tables_inv|intros p [= <-]; apply pred_raw
    |apply acts_raw|apply tables_room; vm_compute; discriminate|vm_compute; reflexivity|vm_compute; reflexivity|vm_compute; reflexivity
    |vm_compute; discriminate|vm_compute; discriminate|eexists; split; [vm_compute; reflexivity|reflexivity]|reflexivity|reflexivity|].
  destruct (Hrun CgExample.world (CgExample.memory (vars 0 0)) (CgExample.started (vars 0 0)) (vars 0 0)) as (P & HP & Hr);
    [reflexivity|apply program_vars|vm_compute; reflexivity|apply CgExample.started_needs|].
  unfold call_result, does_clause in Hr.
  assert (run_clause types false attr (ck_ids cooked_clause.2) cooked_clause.1.1.1 cooked_clause.1.1.2 (vars 0 0) = (vars 6 3, Some tt)) as E
    by (vm_compute; reflexivity).
  rewrite E in Hr. destruct Hr as (m' & Hcall & Hv & _). exists st, labels, buf, P, m'.
  split_and!; [exact Hc|exact Ha|exact HP|exact Hcall|apply Hv|apply Hv].
Defined.

(** ** New variables *)

(** [x = (x = 1)] for a new [x]: the node of the target has got no type when the
    target's type is asked for. *)
Lemma self_assignment_null : cook_clause None [op2 DT_TOK_ASGN (name "x") (op2 DT_TOK_ASGN (name "x") (lit 1))] = None.
Proof. vm_compute. reflexivity. Qed.

(** [y = -this->i] for a new [this->i]: there is no error, and [this->i] is an
    [int64_t] from now on. *)
Lemma negated_new_variable : ∃ s a, cook_clause None [op2 DT_TOK_ASGN (name "y") (Op1 blank DT_TOK_INEG (this_var "i"))] = Some (s, None, a, None) ∧
  ck_types s !! 3 = Some (1, 2).
Proof. eexists _, _. split; [vm_compute; reflexivity|]. vm_compute. reflexivity. Qed.

(** [y = this->i] reports it. *)
Lemma undefined_variable : ∃ s a, cook_clause None [op2 DT_TOK_ASGN (name "y") (this_var "i")] =
  Some (s, None, a, Some (mk_error EDT_COMPILER D_VAR_UNDEF)).
Proof. eexists _, _. vm_compute. reflexivity. Qed.

End CookExample.
