(* ===== verification/ClauseExample.v ===== *)
(** * The clause of [CgExample], compiled, assembled, linked and run

    The library has [dt_probe_error], the constants [EPID] and [CLID], and the
    clause; the program calls the clause. *)
From stdpp Require Import pretty.
From S2P Require Import Prelude CLib StrTable Bpf BpfWords Strtab Ident DtMap DtAs Node Cg CgSem CgCorrect CgClause CgProgram CgExample DtLink Assemble AssembleCorrect LinkGraph LinkBuild LinkResolve LinkCorrect LinkRun LinkExample ClauseLink ClauseRun.
#[local] Open Scope Z_scope.
Import Bpf BpfWords Strtab Ident DtMap DtAs Node Cg CgSem CgCorrect CgClause CgProgram DtLink Assemble AssembleCorrect LinkGraph LinkBuild LinkResolve LinkCorrect LinkRun ClauseLink ClauseRun.

Module ClauseExample.
#[local] Existing Instance LinkExample.table.
#[local] Existing Instance LinkExample.table_laws.
#[local] Existing Instance CgExample.ctf.

(** ** Identifiers and tables *)

Definition scalar (name : list Z) (flags id offset : Z) : dt_ident :=
  mk_ident (Some name) DT_IDENT_SCALAR flags id CgExample.attr 0 0 0 0 offset 8 0 0.

Definition EPID : list Z := [69; 80; 73; 68].
Definition CLID : list Z := [67; 76; 73; 68].
Definition error_name : list Z := [100; 116; 95; 112; 114; 111; 98; 101; 95; 101; 114; 114; 111; 114].

Definition idents : idheap :=
  list_to_map [(1, scalar [120] 0 0x500 0); (2, scalar [121] 0 0x501 8); (3, scalar [122] 0 0x502 16);
               (4, scalar [116] DT_IDFLG_LOCAL 0x503 0); (9, LinkExample.symbol error_name DT_IDENT_SYMBOL DT_IDENT_UNDEF 21);
               (10, LinkExample.symbol EPID DT_IDENT_SCALAR DT_CONST_EPID 0);
               (11, LinkExample.symbol CLID DT_IDENT_SCALAR DT_CONST_CLID 0);
               (12, LinkExample.symbol [99] DT_IDENT_SYMBOL DT_IDENT_UNDEF 22)].

Definition get_sym (name : string) : Z :=
  if decide (name = "dt_probe_error"%string) then 9
  else if decide (name = "EPID"%string) then 10 else if decide (name = "CLID"%string) then 11 else 0.

(** Tables with one chain. *)
Definition one_chain_of (L : list Z) : dt_idhash := mk_idhash [] false None 1280 1280 (2 ^ 32 - 1) 0 (Z.of_nat (length L)) 1 [L].
Definition tabs : as_tabs := mk_tabs None (one_chain_of []) (one_chain_of []) (one_chain_of [1; 2; 3]) (one_chain_of [4]).
Definition variables : list Z := [1; 2; 3; 4].

Definition aenv : as_env :=
  mk_as_env (mk_as_mem true true true true true true true true) DT_LINK_KERNEL 0 false (λ _, (1, 1)) (λ _, None) 16.

Definition strings : dt_strtab := default (mk_strtab [] 0 [] (0%nat, 0%nat) 0 0 0 0) tab_new.

Definition compiled : comp (unit * cg_state) :=
  dt_cg CgExample.types false CgExample.attr get_sym get_sym get_sym 256 (λ _ _, 0) (λ _, 0) (λ _, None) [12345] [678] idents
    strings (Some CgExample.pred) CgExample.acts.

Definition assembled : comp as_result :=
  '(_, st) ← compiled; dt_as CgExample.types aenv (λ _, None) 1 (pcb_ir st) (cg_ids st) tabs (dt_ccstab st) 0.

(** The clause is the DIFO that the assembler makes. *)
Definition clause_code : dtrace_difo := Eval vm_compute in
  match assembled with Some (Done r) => with_ddesc (fd_difo (as_difo r)) 500 | _ => LinkExample.f_code end.

Lemma clause_code_made : (r ← assembled; mret (with_ddesc (fd_difo (as_difo r)) 500)) = Some (Done clause_code).
Proof. vm_compute. reflexivity. Qed.

Lemma clause_code_is st r : compiled = Some (Done (tt, st)) →
  dt_as CgExample.types aenv (λ _, None) 1 (pcb_ir st) (cg_ids st) tabs (dt_ccstab st) 0 = Some (Done r) →
  with_ddesc (fd_difo (as_difo r)) 500 = clause_code.
Proof.
  intros Hc Ha. assert (assembled = Some (Done r)) as E by (unfold assembled; rewrite Hc; exact Ha).
  pose proof clause_code_made as Hm. rewrite E in Hm. generalize dependent clause_code. intros code Hm. by injection Hm.
Qed.

(** ** The program and its library *)

Definition error_code : dtrace_difo :=
  mk_difo [BPF_LOAD BPF_DW 1 1 DCTX_MST; BPF_STORE BPF_DW 1 DMST_FAULT 3; BPF_MOV_IMM 0 0; BPF_RETURN] LinkExample.names [] 0 [] 0.

Definition main_code : dtrace_difo :=
  mk_difo [BPF_CALL_FUNC (-1); BPF_RETURN] [99; 0] [] 0 [LinkExample.rel 0 R_BPF_64_32 0] 0.

Definition syms : dt_idhash := one_chain_of [9; 10; 11; 12].
Definition funs : gset Z := {[9; 12]}.

Definition env : link_env :=
  mk_env syms (list_to_map [(21, error_code); (22, clause_code)]) 1 (λ _, true) 0 256 1 20 3 (Some (100, 7)) (Some (40, 3)).

(** ** What the stages need *)

Ltac each H := repeat (apply elem_of_cons in H as [->|H]); [..|by apply not_elem_of_nil in H].

Lemma table_wf L : bool_decide (NoDup L) = true → forallb (λ a, bool_decide (is_Some (name_of idents a))) L = true →
  bool_decide (0 ∈ L) = false → wf idents (one_chain_of L) L.
Proof.
  intros Hn Hf H0. apply bool_decide_eq_true in Hn. apply bool_decide_eq_false in H0.
  assert (∀ n, chain_of (one_chain_of L) n = 0%nat) as Hch.
  { intros n. unfold chain_of. change (Z.of_nat (dh_hashsz _)) with 1. by rewrite Z.mod_1_r. }
  constructor; try done.
  - cbn. lia.
  - intros [|c] chain a Hc Ha; [|by destruct c]. cbn in Hc. simplify_eq. rewrite forallb_forall in Hf.
    apply list_elem_of_In in Ha. apply Hf in Ha. apply bool_decide_eq_true in Ha as [n Hna]. exists n. by rewrite Hch.
  - intros n chain Hc. rewrite Hch in Hc. by injection Hc as <-.
  - cbn. by rewrite app_nil_r.
Qed.

Lemma symbols_there : bpf_symbols get_sym get_sym idents (-1) EPID CLID error_name.
Proof.
  constructor; [done|eexists; constructor..|eexists; split; [constructor|]];
    first [done|by apply LinkExample.str_ok|vm_compute; reflexivity|by apply LinkExample.str_ok|unfold urange; vm_compute; intuition congruence].
Qed.

Lemma strings_ok : tab_ok strings ∧ tab_used strings = 1.
Proof.
  destruct tab_new_spec as (t & Ht & Hok & Hu). unfold strings. rewrite Ht. done.
Qed.

Lemma assembler_ready : as_ready idents aenv tabs variables strings.
Proof.
  constructor; [| |done|apply strings_ok|by left|done].
  - constructor; [eexists; split; [done|by apply table_wf]..| |].
    + vm_compute. reflexivity.
    + by apply (bool_decide_unpack _).
  - intros a Ha. each Ha; eexists; (split; [vm_compute; reflexivity|by apply LinkExample.str_ok]).
Qed.

(** *** A list of instructions for the assembler alone *)

Definition flagged : idheap := <[1 := scalar [120] DT_IDFLG_DIFR 0x500 0]> (<[4 := scalar [116] (Z.lor DT_IDFLG_LOCAL DT_IDFLG_DIFW) 0x503 0]> idents).

Definition instructions : dt_irlist :=
  mk_irlist [mk_irnode 0 (BPF_MOV_IMM 0 (-1)) 10; mk_irnode 0 (BPF_BRANCH_IMM BPF_JNE 0 0 1) 0;
             mk_irnode 0 (BPF_CALL_FUNC (-1)) 9; mk_irnode 1 BPF_RETURN 0] 4 2.

Lemma instructions_ready : assembly (with_mem aenv all_mem) instructions flagged tabs variables strings.
Proof.
  constructor; [| | | |done|apply strings_ok| |by left|done].
  - constructor; [done|done|done|..].
    + by apply (bool_decide_unpack _).
    + repeat constructor.
    + repeat constructor; intros; vm_compute in *; try done; apply (bool_decide_unpack _); vm_compute; reflexivity.
  - repeat (apply Forall_cons; split); try done; intros _; split_and!; try done;
      (eexists _, _; constructor; [done|done|done|done|by apply LinkExample.str_ok|by vm_compute]).
  - apply (tables_keys idents); [|apply assembler_ready]. intros a. unfold key_of, flagged.
    destruct (decide (a = 1)) as [->|]; [done|]. rewrite lookup_insert_ne by done.
    destruct (decide (a = 4)) as [->|]; [done|]. by rewrite lookup_insert_ne.
  - intros a Ha. each Ha; eexists; (split; [vm_compute; reflexivity|by apply LinkExample.str_ok]).
  - destruct strings_ok as [_ ->]. by vm_compute.
Qed.

Lemma instructions_tables r :
  dt_as CgExample.types (with_mem aenv all_mem) (λ _, None) 1 instructions flagged tabs strings 0 = Some (Done r) →
  dofr_offset <$> dtdo_breltab (fd_difo (as_difo r)) = [0; 16] ∧
  dtdv_flags <$> dtdo_vartab (fd_difo (as_difo r)) = [DIFV_F_REF; DIFV_F_MOD].
Proof.
  intros Hr.
  assert (match dt_as CgExample.types (with_mem aenv all_mem) (λ _, None) 1 instructions flagged tabs strings 0 with
          | Some (Done r) => Some (dofr_offset <$> dtdo_breltab (fd_difo (as_difo r)), dtdv_flags <$> dtdo_vartab (fd_difo (as_difo r)))
          | _ => None end = Some ([0; 16], [DIFV_F_REF; DIFV_F_MOD])) as H by (vm_compute; reflexivity).
  rewrite Hr in H. apply (inj Some), pair_equal_spec in H. exact H.
Qed.


Lemma clause_handled : clause_ok CgExample.types false CgExample.attr idents 24 8 (Some CgExample.pred) CgExample.acts = true.
Proof. vm_compute. reflexivity. Qed.

Lemma names_there st : compiled = Some (Done (tt, st)) → names_fit variables strings st.
Proof.
  intros Hc. unfold names_fit. destruct strings_ok as [_ ->].
  assert (match compiled with
          | Some (Done (_, st)) => 1 + var_names_size (used (cg_ids st) variables) + refs_size (cg_ids st) (refs 0 (dl_list (pcb_ir st))) <=? DIF_STROFF_MAX
          | _ => false end = true) as H by (vm_compute; reflexivity).
  rewrite Hc in H. by apply Z.leb_le.
Qed.

Lemma clause_refers : clause_symbols env idents EPID CLID error_name 9.
Proof.
  constructor; [eexists _, _..|eexists _]; (split; [vm_compute; reflexivity|done]).
Qed.

(** ** The program can be linked *)

Lemma functions_are c : c ∈ funs → c = 9 ∨ c = 12.
Proof. unfold funs. set_solver. Qed.

Ltac library_cases Hc Hd := apply functions_are in Hc as [->| ->]; vm_compute in Hd; apply (inj Some) in Hd; subst.

Lemma error_ok : unit_ok env idents error_code.
Proof.
  constructor; [| | | | |constructor].
  1-3: intros r Hr; by apply not_elem_of_nil in Hr.
  all: intros r k Hr; by apply not_elem_of_nil in Hr.
Qed.

Lemma caller_ok : unit_ok env idents main_code.
Proof.
  constructor.
  - intros r Hr. each Hr. eexists. split; [vm_compute; reflexivity|by apply LinkExample.str_ok].
  - intros v Hv. by apply not_elem_of_nil in Hv.
  - intros r Hr. each Hr. split; [unfold urange|]; cbn; lia.
  - intros r k Hr Hk. each Hr. cbn in Hk. by apply list_elem_of_singleton in Hk as ->.
  - intros r c Hr Hc. each Hr. by eexists.
  - cbn. repeat (apply NoDup_cons; split; [set_solver|]). constructor.
Qed.

Lemma symbols_ok : unit_ok env idents clause_code → library env idents [9; 10; 11; 12] funs.
Proof.
  intros Hu. constructor.
  - by apply table_wf.
  - intros a i Ha Hi Hk. each Ha; vm_compute in Hi; injection Hi as <-; done.
  - intros c Hc. apply functions_are in Hc as [->| ->].
    + exists (LinkExample.symbol error_name DT_IDENT_SYMBOL DT_IDENT_UNDEF 21), error_code. split_and!; try done; [apply error_ok|set_solver].
    + exists (LinkExample.symbol [99] DT_IDENT_SYMBOL DT_IDENT_UNDEF 22), clause_code. split_and!; try done. set_solver.
  - intros c d r c' Hc Hd Hr Hcal. unfold funs. library_cases Hc Hd.
    + by apply not_elem_of_nil in Hr.
    + change (relocs idents 12 _) with (dtdo_breltab clause_code) in Hr.
      each Hr; vm_compute in Hcal; [done..|]. injection Hcal as <-. set_solver.
Qed.

Lemma caller_linkable : unit_ok env idents clause_code → linkable env idents [9; 10; 11; 12] funs main_code 0 heap0 handle0 0 60000000004.
Proof.
  intros Hu. constructor; try done.
  - by apply symbols_ok.
  - apply caller_ok.
  - by left.
  - intros r c Hr Hc. change (relocs idents 0 main_code) with (dtdo_breltab main_code) in Hr. unfold funs.
    each Hr. vm_compute in Hc. injection Hc as <-. set_solver.
  - constructor; try done.
    + exists []. split; [apply handle0_ok|done].
    + intros c d Hc Hd Hdd. library_cases Hc Hd; [done|by eexists].
    + by exists 701.
    + intros d r prid Hd Hr Hp. replace (next_prid env idents d r prid) with prid; [done|].
      destruct Hd as [->|(c & Hc & Hd)]; [|library_cases Hc Hd].
      all: try (by apply not_elem_of_nil in Hr). all: each Hr; vm_compute; reflexivity.
Qed.

Lemma caller_runnable : calls_ok env idents clause_code → runnable env idents funs main_code 0.
Proof.
  intros Hcalls. constructor.
  - split; [unfold funs; set_solver|done].
  - constructor.
    + intros k x Hx Hf. do 2 (destruct k as [|k]; [cbn in Hx; injection Hx as <-; first [by vm_compute in Hf|by eexists]|]). by destruct k.
    + intros x [= <-]. done.
  - intros c d Hc Hd. library_cases Hc Hd; (split; [done|]); [|done]. constructor.
    + intros k x Hx Hf. do 4 (destruct k as [|k]; [cbn in Hx; injection Hx as <-; by vm_compute in Hf|]). by destruct k.
    + intros x [= <-]. done.
Qed.

(** ** The program that is linked *)

Definition blocks : list block := [mk_block 12 clause_code 1 [1; 1; 1; 1]; mk_block 9 error_code 0 []].

(** A symbol that is no function, or one that is there, adds nothing. *)
Lemma linked_here d r rs clid prid s es cl B s' es' :
  match callee env idents d r with Some c => bool_decide (c ∈ s) | None => true end = true →
  linked env idents d (r :: rs) clid prid s es cl B s' es' →
  ∃ cl', cl = clid :: cl' ∧ linked env idents d rs clid (next_prid env idents d r prid) s es cl' B s' es'.
Proof.
  intros Hb Hl. inversion Hl as [|? ? ? ? ? ? cl1|? ? ? ? ? ? c]; simplify_eq; [by exists cl1|].
  match goal with H : callee _ _ _ _ = Some c |- _ => rewrite H in Hb end. by apply bool_decide_eq_true in Hb.
Qed.

(** A function that is not there is linked. *)
Lemma linked_there d r rs clid prid s es cl B s' es' c rd epid es1 : callee env idents d r = Some c → bool_decide (c ∈ s) = false →
  difo_of env idents c = Some rd → new_epid env es rd prid = Some (epid, es1) →
  linked env idents d (r :: rs) clid prid s es cl B s' es' →
  ∃ cl1 B1 s2 es2 cl2 B2, linked env idents rd (relocs idents c rd) (new_clid rd clid) (le_prid env) ({[c]} ∪ s) es1 cl1 B1 s2 es2 ∧
    linked env idents d rs (new_clid rd clid) prid s2 es2 cl2 B2 s' es' ∧
    cl = clid :: cl2 ∧ B = mk_block c rd epid cl1 :: B1 ++ B2.
Proof.
  intros Hcal Hs Hd He Hl. apply bool_decide_eq_false in Hs. inversion Hl as [|? ? ? ? ? ? ? ? ? ? Hin|]; simplify_eq.
  - by apply Hin in Hcal.
  - eauto 20.
Qed.

Lemma linked_nothing d clid prid s es cl B s' es' : linked env idents d [] clid prid s es cl B s' es' → cl = [] ∧ B = [].
Proof. inversion 1. done. Qed.

Lemma linked_blocks cl B s' es' :
  linked env idents main_code (relocs idents 0 main_code) 0 (le_prid env) (seen0 0) (heap0, handle0) cl B s' es' →
  cl = [0] ∧ B = blocks.
Proof.
  change (relocs idents 0 main_code) with (dtdo_breltab main_code). intros Hl.
  eapply linked_there in Hl as (cl1 & B1 & s2 & es2 & cl2 & B2 & H1 & H2 & -> & ->); [|vm_compute; reflexivity..].
  apply linked_nothing in H2 as [-> ->].
  change (relocs idents 12 _) with (dtdo_breltab clause_code) in H1.
  apply linked_here in H1 as (cl3 & -> & H1); [|vm_compute; reflexivity].
  apply linked_here in H1 as (cl3' & -> & H1); [|vm_compute; reflexivity].
  apply linked_here in H1 as (cl4 & -> & H1); [|vm_compute; reflexivity].
  eapply linked_there in H1 as (cl5 & B3 & s3 & es3 & cl6 & B4 & H3 & H4 & -> & ->); [|vm_compute; reflexivity..].
  change (relocs idents 9 _) with (dtdo_breltab error_code) in H3.
  apply linked_nothing in H3 as [-> ->]. apply linked_nothing in H4 as [-> ->]. done.
Qed.

(** ** The machine *)

Definition functions : string → option (list insn) :=
  funs_of env idents (place (dtdo_len main_code) blocks) 60000000004 pretty (mk_block 0 main_code 0 [0] :: blocks).

Lemma error_fun : functions (pretty 9) = Some CgExample.probe_error_code.
Proof. vm_compute. reflexivity. Qed.

Definition world : machine (-1) :=
  mk_machine (-1) CgExample.no_helper functions (λ _, pretty 9) 10 1 2 3 (4, 0) (5, 0) CgExample.context CgExample.record_fault
    CgExample.needs CgExample.probe_error_code ltac:(by apply (bool_decide_unpack _)) ltac:(by apply (bool_decide_unpack _))
    ltac:(by repeat split) ltac:(by repeat split) ltac:(by repeat split) ltac:(by repeat split) error_fun
    (CgExample.probe_error_runs CgExample.no_helper functions) CgExample.record_fault_frame.

Definition started (s : venv) : mem := default ∅ (begun 1 1 (4, 0) (5, 0) (CgExample.memory s)).

Lemma memory_needs s m : rest_as world (started s) m → CgExample.needs m.
Proof. intros Hr. split; [by rewrite (Hr 1)|]. eexists. by rewrite (Hr 4). Qed.


End ClauseExample.
