(* ===== verification/SymTab.v ===== *)
(** * Kernel symbol tables: libdtrace/dt_symtab.c

    Each module has a table of symbols; all symbols are also in one hash table
    by name, [dt_kernsyms].  Symbols are found by address through an array of
    ranges, one symbol to a range, which is formed when the table is sorted.

    Symbols, the strings their names point to and the links of the hash table
    live on a heap.  The list of a table's symbols is the list that [DtList]
    shows a linked list to be.  The ranges up to [dtst_num_range] are a list,
    and the array is NULL until it is first grown, so while
    [dtst_num_range_alloc] is 0.  There are less than 2^31 of them. *)
From S2P Require Import Prelude CLib CSort DtList DtString Htab.
Import DtString Htab.

Module SymTab.

(** ** Data *)

Definition DT_ST_SORTED : Z := 0x01.
Definition DT_ST_PACKED : Z := 0x02.

(** The name is an offset into a block of bytes. *)
Record dt_symbol := mk_symbol {
  dts_name : Z * Z;
  dts_addr : Z;
  dts_size : Z;
  dts_info : Z;
  dts_hval : Z;
  dts_dmp : Z
}.

Record dt_symrange := mk_range {
  dtsr_lo : Z;
  dtsr_hi : Z;
  dtsr_sym : Z
}.

Record dt_symtab := mk_symtab {
  dtst_symlist : list Z;
  dtst_strtab : Z;
  dtst_ranges : list dt_symrange;
  dtst_num_range_alloc : Z;
  dtst_flags : Z
}.

(** The symbols, the blocks of bytes, and the links [dts_he]. *)
Record symheap := mk_symheap {
  sh_syms : gmap Z dt_symbol;
  sh_strs : gmap Z (list Z);
  sh_he : links
}.

Definition put_sym (hp : symheap) (a : Z) (s : dt_symbol) : symheap :=
  mk_symheap (<[a := s]> (sh_syms hp)) (sh_strs hp) (sh_he hp).
Definition put_str (hp : symheap) (b : Z) (s : list Z) : symheap :=
  mk_symheap (sh_syms hp) (<[b := s]> (sh_strs hp)) (sh_he hp).
Definition put_he (hp : symheap) (he : links) : symheap := mk_symheap (sh_syms hp) (sh_strs hp) he.

(** [free] of a symbol, and of a string, which must point to the start of a block. *)
Definition free_sym (hp : symheap) (a : Z) : option symheap :=
  _ ← sh_syms hp !! a;
  Some (mk_symheap (delete a (sh_syms hp)) (sh_strs hp) (delete a (sh_he hp))).
Definition free_str (hp : symheap) (p : Z * Z) : option symheap :=
  _ ← sh_strs hp !! p.1;
  if p.2 =? 0 then Some (mk_symheap (sh_syms hp) (delete p.1 (sh_strs hp)) (sh_he hp)) else None.

(** The string a pointer points to, [None] if the block has been freed. *)
Definition string_at (hp : symheap) (p : Z * Z) : option (list Z) :=
  b ← sh_strs hp !! p.1; if 0 <=? p.2 then cstr (drop (Z.to_nat p.2) b) else None.

Definition name_at (hp : symheap) (a : Z) : option (list Z) := s ← sh_syms hp !! a; string_at hp (dts_name s).

(** ** The hash table of names *)

Definition dt_symtab_hval (hp : symheap) (sym : Z) : Z :=
  match sh_syms hp !! sym with
  | Some s => if negb (dts_hval s =? 0) then dts_hval s else str2hval (string_at hp (dts_name s)) 0
  | None => 0
  end.

Definition dt_symtab_cmp (hp : symheap) (p q : Z) : Z :=
  strcmp (default [] (name_at hp p)) (default [] (name_at hp q)).

Definition dt_symtab_htab_ops (hp : symheap) : HtabOps links := std_ops (dt_symtab_hval hp) (dt_symtab_cmp hp).

(** The names that are hashed, and those that the search of a slot for [entry]
    compares, can be read. *)
Definition readable (hp : symheap) (a : Z) : bool := bool_decide (is_Some (name_at hp a)).
Definition hashes (hp : symheap) (entry : Z) : bool :=
  match sh_syms hp !! entry with
  | Some s => negb (dts_hval s =? 0) || readable hp entry
  | None => false
  end.
Fixpoint compares (hp : symheap) (slot : list dt_hbucket) (entry : Z) : bool :=
  match slot with
  | [] => true
  | b :: slot =>
      readable hp (bk_head b) && readable hp entry &&
      ((dt_symtab_cmp hp (bk_head b) entry =? 0) || compares hp slot entry)
  end.

Definition slot_of (hp : symheap) (kt : dt_htab) (entry : Z) : list dt_hbucket :=
  default [] (tab kt !! Z.to_nat (Z.land (dt_symtab_hval hp entry) (mask kt))).

Definition kern_lookup (hp : symheap) (kt : dt_htab) (entry : Z) : option Z :=
  if hashes hp entry && compares hp (slot_of hp kt entry) entry
  then @dt_htab_lookup _ (dt_symtab_htab_ops hp) kt entry else None.

Definition kern_delete (hp : symheap) (kt : dt_htab) (entry : Z) : option (symheap * dt_htab) :=
  if hashes hp entry && compares hp (slot_of hp kt entry) entry then
    '(_, he, kt) ← @dt_htab_delete _ (dt_symtab_htab_ops hp) (sh_he hp) kt entry;
    Some (put_he hp he, kt)
  else None.

(** An insertion may resize the table and search another slot. *)
Definition kern_insert (mr : nat → bool) (mb : option Z) (hp : symheap) (kt : dt_htab) (entry : Z) :
    option (Z * symheap * dt_htab) :=
  if hashes hp entry && forallb (λ slot, compares hp slot entry) (tab kt) then
    '(err, he, kt) ← @dt_htab_insert _ (dt_symtab_htab_ops hp) mr mb (sh_he hp) kt entry;
    Some (err, put_he hp he, kt)
  else None.

(** ** Creation and insertion *)

(** The tables, NULL if an allocation fails: [m1] and [m2] are those of the
    hash table, [m] that of the symbol table. *)
Definition dt_symtab_create (m1 m2 m : bool) (kernsyms : option dt_htab) : option dt_htab * option dt_symtab :=
  let kernsyms := match kernsyms with None => dt_htab_create m1 m2 | Some t => Some t end in
  match kernsyms with
  | None => (None, None)
  | Some t => (Some t, if negb m then None else Some (mk_symtab [] 0 [] 0 0))
  end.

(** [m]: the allocation succeeds.  The result is NULL if it does not. *)
Definition dt_symtab_grow_ranges (m : bool) (symtab : dt_symtab) : option dt_symtab :=
  let num_alloc := u32 ((dtst_num_range_alloc symtab + 1) * 2) in
  if negb m then None
  else Some (mk_symtab (dtst_symlist symtab) (dtst_strtab symtab) (dtst_ranges symtab) num_alloc (dtst_flags symtab)).

(** The addresses of the symbol, its name and a bucket, and whether the array
    of ranges and the hash table can be grown. *)
Record insert_mem := mk_insert_mem {
  im_sym : option Z;
  im_grow : bool;
  im_name : option Z;
  im_resize : nat → bool;
  im_bucket : option Z
}.

(** A new range for the symbol [a], whose bounds are not yet set. *)
Definition add_symbol (symtab : dt_symtab) (a size : Z) : option dt_symtab :=
  let num_range := Z.of_nat (length (dtst_ranges symtab)) in
  let flags := Z.ldiff (dtst_flags symtab) DT_ST_SORTED in
  if 0 <? size then
    if num_range <? dtst_num_range_alloc symtab then
      Some (mk_symtab (dtst_symlist symtab ++ [a]) (dtst_strtab symtab) (dtst_ranges symtab ++ [mk_range 0 0 a])
              (dtst_num_range_alloc symtab) flags)
    else None
  else
    Some (mk_symtab (dtst_symlist symtab ++ [a]) (dtst_strtab symtab) (dtst_ranges symtab)
            (dtst_num_range_alloc symtab) flags).

(** The address of the new symbol, 0 for NULL. *)
Definition dt_symbol_insert (mm : insert_mem) (hp : symheap) (kt : dt_htab) (symtab : dt_symtab) (dmp : Z)
    (name : list Z) (addr size info : Z) : option (Z * symheap * dt_htab * dt_symtab) :=
  if negb (Z.land (dtst_flags symtab) DT_ST_PACKED =? 0) then Some (0, hp, kt, symtab)
  else
    match im_sym mm with
    | None => Some (0, hp, kt, symtab)
    | Some dtsp =>
        let grown := if dtst_num_range_alloc symtab <=? Z.of_nat (length (dtst_ranges symtab))
                     then dt_symtab_grow_ranges (im_grow mm) symtab else Some symtab in
        match grown with
        | None => Some (0, hp, kt, symtab)
        | Some symtab =>
            match im_name mm with
            | None => Some (0, hp, kt, symtab)
            | Some b =>
                let hp1 := put_str hp b (name ++ [0]) in
                let hp1 := put_sym hp1 dtsp (mk_symbol (b, 0) addr size info (str2hval (Some name) 0) dmp) in
                let hp1 := put_he hp1 (<[dtsp := mk_links 0 0]> (sh_he hp1)) in
                '(err, hp1, kt) ← kern_insert (im_resize mm) (im_bucket mm) hp1 kt dtsp;
                if err <? 0 then
                  hp1 ← free_str hp1 (b, 0);
                  hp1 ← free_sym hp1 dtsp;
                  Some (0, hp1, kt, symtab)
                else
                  symtab ← add_symbol symtab dtsp size;
                  Some (dtsp, hp1, kt, symtab)
            end
        end
    end.

(** ** Lookup by name *)

(** [sp] is the address of the template on the stack. *)
Definition template (hp : symheap) (sp : Z) (name : list Z) : symheap :=
  put_sym (put_str hp sp (name ++ [0])) sp (mk_symbol (sp, 0) 0 0 0 0 0).

Definition dt_symbol_by_name (hp : symheap) (kt : dt_htab) (sp : Z) (name : list Z) : option Z :=
  kern_lookup (template hp sp name) kt sp.

(** The walk along the symbols of the name; there are at most [fuel]. *)
Fixpoint by_module (fuel : nat) (hp : symheap) (dmp symbol : Z) : option Z :=
  if symbol =? 0 then Some 0
  else
    match fuel with
    | O => None
    | S fuel =>
        s ← sh_syms hp !! symbol;
        if dts_dmp s =? dmp then Some symbol
        else next ← he_next (sh_he hp) symbol; by_module fuel hp dmp next
    end.

Definition dt_module_symbol_by_name (hp : symheap) (kt : dt_htab) (sp dmp : Z) (name : list Z) : option Z :=
  symbol ← dt_symbol_by_name hp kt sp name;
  by_module (base.size (dom (sh_syms hp))) hp dmp symbol.

(** ** Ranges of addresses *)

Definition STT_NOTYPE : Z := 0.
Definition STB_WEAK : Z := 2.
Definition GELF_ST_TYPE (info : Z) : Z := Z.land info 0xf.
Definition GELF_ST_BIND (info : Z) : Z := Z.shiftr info 4.

(** A symbol, its address on the heap and its name. *)
Abbreviation named := (Z * dt_symbol * list Z)%type.

Definition dt_symrange_sort_cmp (l r : named) : Z :=
  let '(_, lhs, lname) := l in
  let '(_, rhs, rname) := r in
  let notype s := GELF_ST_TYPE (dts_info s) =? STT_NOTYPE in
  let weak s := GELF_ST_BIND (dts_info s) =? STB_WEAK in
  let cleanup := str "cleanup_module" in
  if dts_addr lhs <? dts_addr rhs then -1
  else if dts_addr rhs <? dts_addr lhs then 1
  else if dts_size rhs <? dts_size lhs then -1
  else if dts_size lhs <? dts_size rhs then 1
  else if negb (Bool.eqb (notype lhs) (notype rhs)) then (if notype lhs then 1 else -1)
  else if negb (Bool.eqb (weak lhs) (weak rhs)) then (if weak lhs then 1 else -1)
  else if negb (strcmp lname cleanup =? 0) && (strcmp rname cleanup =? 0) then -1
  else if negb (strcmp rname cleanup =? 0) && (strcmp lname cleanup =? 0) then 1
  else strcmp lname rname.

Definition dt_symbol_search_cmp (lhs : Z) (rhs : dt_symrange) : Z :=
  if lhs <? dtsr_lo rhs then -1
  else if dtsr_hi rhs <=? lhs then 1
  else 0.

Definition dt_symbol_by_addr (symtab : dt_symtab) (dts_addr : Z) : option Z :=
  if dtst_num_range_alloc symtab =? 0 then Some 0
  else if Z.land (dtst_flags symtab) DT_ST_SORTED =? 0 then Some 0
  else
    sympp ← bsearch (dt_symbol_search_cmp dts_addr) (dtst_ranges symtab);
    match sympp with
    | None => Some 0
    | Some r => Some (dtsr_sym r)
    end.

(** A symbol with its address on the heap. *)
Abbreviation located := (Z * dt_symbol)%type.

Definition end_of (s : dt_symbol) : Z := u64 (dts_addr s + dts_size s).

(** The loop over the symbols after the first candidate: the end and the symbol
    of the range that starts at [lo]. *)
Fixpoint pick (lo hi : Z) (sym : located) (syms : list located) : Z * located :=
  match syms with
  | [] => (hi, sym)
  | sym2 :: syms =>
      let s2 := sym2.2 in
      if hi <=? dts_addr s2 then (hi, sym)
      else if lo <? dts_addr s2 then (dts_addr s2, sym)
      else
        let hi2 := end_of s2 in
        if hi2 <=? lo then pick lo hi sym syms
        else
          let hi := if hi2 <? hi then hi2 else hi in
          let sym := if (dts_addr sym.2 <? dts_addr s2) ||
                        ((dts_addr s2 =? dts_addr sym.2) && (dts_size s2 <? dts_size sym.2))
                     then sym2 else sym in
          pick lo hi sym syms
  end.

(** Does the new range continue the last one? *)
Definition coalesces (new_ranges : list dt_symrange) (lo sym : Z) : bool :=
  match last new_ranges with
  | Some r => (dtsr_hi r =? lo) && (dtsr_sym r =? sym)
  | None => false
  end.

(** The array with another range, and the number of ranges allocated; [None] if
    it cannot be grown.  [mr] says whether an array of some size can be. *)
Definition add_range (mr : Z → bool) (num_alloc : Z) (new_ranges : list dt_symrange) (lo hi sym : Z) :
    option (Z * list dt_symrange) :=
  let n := Nat.pred (length new_ranges) in
  if coalesces new_ranges lo sym then
    Some (num_alloc, alter (λ r, mk_range (dtsr_lo r) hi (dtsr_sym r)) n new_ranges)
  else if num_alloc <=? Z.of_nat (length new_ranges) then
    let n := u32 (num_alloc + 1024) in
    if negb (mr n) then None else Some (n, new_ranges ++ [mk_range lo hi sym])
  else Some (num_alloc, new_ranges ++ [mk_range lo hi sym]).

(** The loop from the symbol [i] on, with the ranges so far, which end at [hi].
    The result is [Some None] if memory runs out. *)
Fixpoint form_loop (fuel : nat) (mr : Z → bool) (syms : list located) (hi num_alloc : Z)
    (new_ranges : list dt_symrange) : option (option (Z * list dt_symrange)) :=
  match syms with
  | [] => Some (Some (num_alloc, new_ranges))
  | sym :: rest =>
      match fuel with
      | O => None
      | S fuel =>
          if dts_size sym.2 =? 0 then form_loop fuel mr rest hi num_alloc new_ranges
          else
            let lo := dts_addr sym.2 in
            if (lo <? hi) && (end_of sym.2 <=? hi) then form_loop fuel mr rest hi num_alloc new_ranges
            else
              let lo := if lo <? hi then hi else lo in
              let '(hi, best) := pick lo (end_of sym.2) sym rest in
              match add_range mr num_alloc new_ranges lo hi best.1 with
              | None => Some None
              | Some (num_alloc, new_ranges) => form_loop fuel mr syms hi num_alloc new_ranges
              end
      end
  end.

(** A symbol is passed once, and there is a range for an end or a start at most. *)
Definition form_fuel (syms : list located) : nat := 3 * length syms.

Definition set_ranges (symtab : dt_symtab) (ranges : list dt_symrange) (num_alloc : Z) : dt_symtab :=
  mk_symtab (dtst_symlist symtab) (dtst_strtab symtab) ranges num_alloc (dtst_flags symtab).

Definition locate (hp : symheap) (r : dt_symrange) : option located :=
  s ← sh_syms hp !! dtsr_sym r; Some (dtsr_sym r, s).

(** [m] says whether the new array can be allocated. *)
Definition dt_symtab_form_ranges (m : bool) (mr : Z → bool) (hp : symheap) (symtab : dt_symtab) :
    option (Z * dt_symtab) :=
  if (length (dtst_ranges symtab) =? 0)%nat then Some (0, symtab)
  else if negb m then Some (-1, symtab)
  else
    syms ← mapM (locate hp) (dtst_ranges symtab);
    r ← form_loop (form_fuel syms) mr syms 0 (dtst_num_range_alloc symtab) [];
    match r with
    | None => Some (-1, symtab)
    | Some (num_alloc, ranges) => Some (0, set_ranges symtab ranges num_alloc)
    end.

(** ** Sorting *)

Definition with_name (hp : symheap) (r : dt_symrange) : option (dt_symrange * named) :=
  s ← sh_syms hp !! dtsr_sym r; n ← string_at hp (dts_name s); Some (r, (dtsr_sym r, s, n)).

Definition sort_ranges (hp : symheap) (ranges : list dt_symrange) : option (list dt_symrange) :=
  rs ← mapM (with_name hp) ranges;
  Some (fst <$> qsort (λ l r : dt_symrange * named, dt_symrange_sort_cmp l.2 r.2) rs).

Definition set_size (s : dt_symbol) (size : Z) : dt_symbol :=
  mk_symbol (dts_name s) (dts_addr s) size (dts_info s) (dts_hval s) (dts_dmp s).

(** Each symbol extends to the next one. *)
Fixpoint resize_syms (hp : symheap) (sym : Z) (syms : list Z) : option symheap :=
  match syms with
  | [] => Some hp
  | nsym :: syms =>
      s ← sh_syms hp !! sym;
      n ← sh_syms hp !! nsym;
      resize_syms (put_sym hp sym (set_size s (u64 (dts_addr n - dts_addr s)))) nsym syms
  end.

Definition set_flag (symtab : dt_symtab) (flag : Z) : dt_symtab :=
  mk_symtab (dtst_symlist symtab) (dtst_strtab symtab) (dtst_ranges symtab) (dtst_num_range_alloc symtab)
    (Z.lor (dtst_flags symtab) flag).

Definition dt_symtab_sort (m : bool) (mr : Z → bool) (hp : symheap) (symtab : dt_symtab) (flag : bool) :
    option (symheap * dt_symtab) :=
  if negb (Z.land (dtst_flags symtab) DT_ST_SORTED =? 0) then Some (hp, symtab)
  else
    ranges ← sort_ranges hp (dtst_ranges symtab);
    let symtab := set_ranges symtab ranges (dtst_num_range_alloc symtab) in
    hp ← match dtsr_sym <$> ranges with
         | sym :: syms => if flag then resize_syms hp sym syms else Some hp
         | [] => Some hp
         end;
    '(rc, symtab) ← dt_symtab_form_ranges m mr hp symtab;
    if negb (rc =? 0) then Some (hp, symtab) else Some (hp, set_flag symtab DT_ST_SORTED).

(** ** Packing *)

(** The number of bytes of the names. *)
Fixpoint names_size (hp : symheap) (syms : list Z) : option Z :=
  match syms with
  | [] => Some 0
  | a :: syms =>
      n ← name_at hp a;
      sz ← names_size hp syms;
      Some (u64 (Z.of_nat (length n) + 1 + sz))
  end.

(** The names are moved to the block [tab], from [offset] on. *)
Fixpoint pack_loop (hp : symheap) (tab : Z) (syms : list Z) (offset : Z) : option symheap :=
  match syms with
  | [] => Some hp
  | a :: syms =>
      s ← sh_syms hp !! a;
      n ← string_at hp (dts_name s);
      b ← sh_strs hp !! tab;
      let len := Z.of_nat (length n) + 1 in
      b ← memcpy b (Z.to_nat offset) (n ++ [0]) (Z.to_nat len);
      hp ← free_str (put_str hp tab b) (dts_name s);
      let s := mk_symbol (tab, offset) (dts_addr s) (dts_size s) (dts_info s) (dts_hval s) (dts_dmp s) in
      pack_loop (put_sym hp a s) tab syms (offset + len)
  end.

Definition set_strtab (symtab : dt_symtab) (tab : Z) : dt_symtab :=
  mk_symtab (dtst_symlist symtab) tab (dtst_ranges symtab) (dtst_num_range_alloc symtab) (dtst_flags symtab).

(** [mt]: the address of the string table.  Its contents are not initialized. *)
Definition dt_symtab_pack (m : bool) (mr : Z → bool) (mt : option Z) (hp : symheap) (symtab : dt_symtab) :
    option (symheap * dt_symtab) :=
  if negb (Z.land (dtst_flags symtab) DT_ST_PACKED =? 0) then Some (hp, symtab)
  else
    '(hp, symtab) ← dt_symtab_sort m mr hp symtab false;
    strsz ← names_size hp (dtst_symlist symtab);
    match mt with
    | None => Some (hp, set_strtab symtab 0)
    | Some tab =>
        hp ← pack_loop (put_str hp tab (replicate (Z.to_nat strsz) 0)) tab (dtst_symlist symtab) 0;
        Some (hp, set_flag (set_strtab symtab tab) DT_ST_PACKED)
    end.

(** ** Destruction *)

(** A symbol is freed after the next one has been reached. *)
Fixpoint destroy_syms (hp : symheap) (kernsyms : option dt_htab) (packed : bool) (last : Z) (syms : list Z) :
    option (symheap * option dt_htab) :=
  match syms with
  | [] => hp ← (if last =? 0 then Some hp else free_sym hp last); Some (hp, kernsyms)
  | dtsp :: syms =>
      s ← sh_syms hp !! dtsp;
      hp ← (if packed then Some hp else free_str hp (dts_name s));
      '(hp, kernsyms) ←
        match kernsyms with
        | Some kt => '(hp, kt) ← kern_delete hp kt dtsp; Some (hp, Some kt)
        | None => Some (hp, None)
        end;
      hp ← (if last =? 0 then Some hp else free_sym hp last);
      destroy_syms hp kernsyms packed dtsp syms
  end.

Definition dt_symtab_destroy (hp : symheap) (kernsyms : option dt_htab) (symtab : dt_symtab) :
    option (symheap * option dt_htab) :=
  hp ← (if dtst_strtab symtab =? 0 then Some hp else free_str hp (dtst_strtab symtab, 0));
  destroy_syms hp kernsyms (negb (Z.land (dtst_flags symtab) DT_ST_PACKED =? 0)) 0 (dtst_symlist symtab).

End SymTab.
