(* ===== verification/SymRange.v ===== *)
(** * The ranges of a symbol table

    The ranges that [form_loop] forms map every address to the symbol that the
    scan of all symbols would choose for it: of those that contain the address
    the one that starts last, and of these the smallest, and of these the
    first. *)
From S2P Require Import Prelude CLib CSort SymTab.
From stdpp Require Import sorting.
#[local] Open Scope Z_scope.
Import SymTab.

Module SymRange.

(** ** The symbol of an address *)

Definition contains (s : dt_symbol) (a : Z) : bool := (dts_addr s <=? a) && (a <? dts_addr s + dts_size s).

(** Symbols whose end is an address. *)
Record sane (s : dt_symbol) : Prop := {
  sane_addr : 0 <= dts_addr s;
  sane_size : 0 <= dts_size s;
  sane_end : dts_addr s + dts_size s < 2 ^ 64
}.

Definition beats (y x : dt_symbol) : bool :=
  (dts_addr x <? dts_addr y) || ((dts_addr y =? dts_addr x) && (dts_size y <? dts_size x)).

Definition choose (a : Z) (acc : option located) (y : located) : option located :=
  if contains y.2 a then
    match acc with
    | None => Some y
    | Some x => Some (if beats y.2 x.2 then y else x)
    end
  else acc.

Definition winner (a : Z) (syms : list located) : option located := foldl (choose a) None syms.

(** The symbols are in the order of their addresses. *)
Abbreviation ordered := (StronglySorted (λ x y : located, dts_addr x.2 <= dts_addr y.2)).
Abbreviation all_sane := (Forall (λ x : located, sane x.2)).

Lemma end_of_sane s : sane s → end_of s = dts_addr s + dts_size s.
Proof. intros []. unfold end_of. apply wrap_id. unfold urange. lia. Qed.

Lemma choose_none a acc syms : Forall (λ y : located, contains y.2 a = false) syms → foldl (choose a) acc syms = acc.
Proof. induction 1 as [|y syms Hy _ IH]; [done|]. cbn [foldl]. unfold choose at 2. by rewrite Hy. Qed.

Lemma ordered_above a x syms : ordered (x :: syms) → a < dts_addr x.2 →
  Forall (λ y : located, contains y.2 a = false) (x :: syms).
Proof.
  intros [_ Hx]%StronglySorted_inv Ha. constructor; [unfold contains; lia|].
  eapply Forall_impl; [exact Hx|]. intros y Hy. cbn in Hy. unfold contains. lia.
Qed.

(** ** One range *)

Definition endpoint (syms : list located) (e : Z) : Prop :=
  ∃ y, y ∈ syms ∧ (e = dts_addr y.2 ∨ e = dts_addr y.2 + dts_size y.2).

Lemma pick_spec lo hi sym syms hi' best : ordered syms → all_sane syms →
  dts_addr sym.2 <= lo < hi → pick lo hi sym syms = (hi', best) →
  lo < hi' <= hi ∧ (hi' = hi ∨ endpoint syms hi') ∧
  ∀ a, lo <= a < hi' → foldl (choose a) (Some sym) syms = Some best.
Proof.
  revert hi sym. induction syms as [|y syms IH]; intros hi sym Ho Hs Hlo; cbn [pick].
  { intros [= <- <-]. split; [lia|]. split; [by left|done]. }
  pose proof (ordered_above) as Habove. pose proof (Forall_cons_1 _ _ _ Hs) as [Hy Hs'].
  destruct (Z.leb_spec hi (dts_addr y.2)) as [Hge|Hlt].
  { intros [= <- <-]. split; [lia|]. split; [by left|]. intros a Ha. apply choose_none, ordered_above; [done|lia]. }
  destruct (Z.ltb_spec lo (dts_addr y.2)) as [Hgt|Hle].
  { intros [= <- <-]. split; [lia|]. split; [right; exists y; set_solver|].
    intros a Ha. apply choose_none, ordered_above; [done|lia]. }
  apply StronglySorted_inv in Ho as [Ho _]. rewrite end_of_sane by done.
  destruct (Z.leb_spec (dts_addr y.2 + dts_size y.2) lo) as [Hout|Hin].
  { intros (? & Hend & Hc)%IH; [|done..]. split; [lia|]. split.
    - destruct Hend as [?|(z & ? & ?)]; [by left|right; exists z; set_solver].
    - intros a Ha. cbn [foldl]. unfold choose at 2. assert (contains y.2 a = false) as -> by (unfold contains; lia). by apply Hc. }
  set (hi2 := if _ <? hi then _ else hi). assert (lo < hi2 <= hi ∧ hi2 <= dts_addr y.2 + dts_size y.2 ∧ (hi2 = hi ∨ hi2 = dts_addr y.2 + dts_size y.2)) as (? & ? & Hhi2).
  { unfold hi2. destruct (Z.ltb_spec (dts_addr y.2 + dts_size y.2) hi); lia. }
  clearbody hi2. intros (? & Hend & Hc)%IH; [|done|done|].
  - split; [lia|]. split.
    + destruct Hend as [->|(z & ? & ?)]; [|right; exists z; set_solver]. destruct Hhi2 as [->| ->]; [by left|right; exists y; set_solver].
    + intros a Ha. cbn [foldl]. unfold choose at 2. assert (contains y.2 a = true) as -> by (unfold contains; lia). by apply Hc.
  - destruct (_ || _); lia.
Qed.

(** ** The array of ranges *)

Definition covers (ranges : list dt_symrange) (a x : Z) : Prop :=
  ∃ r, r ∈ ranges ∧ dtsr_lo r <= a < dtsr_hi r ∧ dtsr_sym r = x.

Record apart (ranges : list dt_symrange) (hi : Z) : Prop := {
  ap_ne : Forall (λ r, dtsr_lo r < dtsr_hi r) ranges;
  ap_sorted : StronglySorted (λ r r', dtsr_hi r <= dtsr_lo r') ranges;
  ap_below : Forall (λ r, dtsr_hi r <= hi) ranges
}.

Lemma apart_app ranges r hi : apart (ranges ++ [r]) hi ↔
  apart ranges (dtsr_lo r) ∧ dtsr_lo r < dtsr_hi r <= hi.
Proof.
  split.
  - intros [H1 H2 H3]. apply Forall_app in H1 as [H1 [H1r _]%Forall_cons]. apply Forall_app in H3 as [H3 [H3r _]%Forall_cons].
    split; [|lia]. constructor; [done|by eapply StronglySorted_app_1_l|].
    apply Forall_forall. intros x Hx. by apply (StronglySorted_app_1_elem_of _ _ _ x r H2 Hx), list_elem_of_singleton.
  - intros [[H1 H2 H3] ?]. constructor.
    + apply Forall_app. split; [done|]. by constructor; [lia|].
    + apply StronglySorted_app_2; [|done|by repeat constructor]. intros x y Hx ->%list_elem_of_singleton.
      rewrite Forall_forall in H3. by apply H3.
    + apply Forall_app. split; [|by constructor; [lia|]]. eapply Forall_impl; [exact H3|]. cbn. lia.
Qed.

Lemma covers_app ranges r a x :
  covers (ranges ++ [r]) a x ↔ covers ranges a x ∨ dtsr_lo r <= a < dtsr_hi r ∧ dtsr_sym r = x.
Proof.
  unfold covers. setoid_rewrite elem_of_app. setoid_rewrite list_elem_of_singleton. split.
  - intros (r' & [?| ->] & ? & ?); [left; by exists r'|by right].
  - intros [(r' & ? & ? & ?)|[? ?]]; [exists r'; auto|exists r; auto].
Qed.

Lemma add_range_spec mr num_alloc ranges lo hi sym :
  apart ranges lo → lo < hi → Z.of_nat (length ranges) <= num_alloc < 2 ^ 32 - 1024 →
  match add_range mr num_alloc ranges lo hi sym with
  | None => mr (num_alloc + 1024) = false
  | Some (n, ranges') => apart ranges' hi ∧ num_alloc <= n ∧
      Z.of_nat (length ranges') <= n ∧ (n = num_alloc ∨ n = num_alloc + 1024 ∧ Z.of_nat (length ranges) = num_alloc) ∧
      (length ranges' <= S (length ranges))%nat ∧
      ∀ a x, covers ranges' a x ↔ covers ranges a x ∨ lo <= a < hi ∧ x = sym
  end.
Proof.
  intros Ha Hlo Hn. unfold add_range.
  assert (apart (ranges ++ [mk_range lo hi sym]) hi) as Hnew by (apply apart_app; split; [done|cbn; lia]).
  assert (∀ a x, covers (ranges ++ [mk_range lo hi sym]) a x ↔ covers ranges a x ∨ lo <= a < hi ∧ x = sym) as Hcov.
  { intros a x. rewrite covers_app. cbn. by rewrite (eq_comm x). }
  unfold coalesces. destruct (last ranges) as [r|] eqn:Hl; [destruct (_ && _) eqn:Hc|].
  2,3: destruct (Z.leb_spec num_alloc (Z.of_nat (length ranges)));
    [rewrite wrap_id by (unfold urange; lia); destruct (mr (num_alloc + 1024)) eqn:Hm; cbn [negb]; [|done]|];
    rewrite length_app; cbn [length]; split_and!; (done || lia).
  apply andb_true_iff in Hc as [Hh Hsy]. apply Z.eqb_eq in Hh, Hsy. subst lo sym.
  apply last_Some in Hl as [ranges0 ->]. rewrite length_app in Hn |- *. cbn [length] in Hn |- *.
  rewrite Nat.add_1_r. cbn [Nat.pred]. rewrite alter_app_r_alt, Nat.sub_diag by lia. cbn [alter list_alter].
  rewrite length_app. cbn [length]. apply apart_app in Ha as [Ha0 ?]. split_and!; [|lia|lia|by left|lia|].
  - apply apart_app. cbn. split; [done|lia].
  - intros a x. rewrite !covers_app. cbn. split; [|intros [[?|?]|?]; [by left|right; lia..]].
    intros [?|[? ?]]; [by do 2 left|]. destruct (decide (a < dtsr_hi r)); [left; right; lia|right; lia].
Qed.

(** ** All ranges *)

(** The ends and starts of symbols beyond [hi]. *)
Definition ends (syms : list located) : list Z := syms ≫= λ y, [dts_addr y.2; dts_addr y.2 + dts_size y.2].
Definition beyond (hi : Z) (syms : list located) : nat := length (filter (λ e, hi < e) (ends syms)).

Lemma elem_of_ends syms e : e ∈ ends syms ↔ endpoint syms e.
Proof. unfold ends, endpoint. setoid_rewrite list_elem_of_bind. split; intros (y & Hy & Hin); exists y; set_solver. Qed.

Lemma above_le hi hi' (es : list Z) : hi <= hi' →
  (length (filter (λ e, (hi' < e)%Z) es) <= length (filter (λ e, (hi < e)%Z) es))%nat.
Proof. intros Hh. induction es as [|e es IH]; [done|]. rewrite !filter_cons. repeat case_decide; cbn [length]; lia. Qed.

Lemma beyond_lt hi hi' syms : hi < hi' → endpoint syms hi' → (S (beyond hi' syms) <= beyond hi syms)%nat.
Proof.
  unfold beyond. intros Hh Hin%elem_of_ends. induction (ends syms) as [|e es IH]; [by apply elem_of_nil in Hin|].
  pose proof (above_le hi hi' es ltac:(lia)). rewrite !filter_cons.
  apply elem_of_cons in Hin as [->|Hin]; [|specialize (IH Hin)]; repeat case_decide; cbn [length]; lia.
Qed.

Lemma beyond_cons hi y syms : (beyond hi syms <= beyond hi (y :: syms))%nat.
Proof.
  unfold beyond, ends. rewrite bind_cons, filter_app, length_app. lia.
Qed.

Lemma beyond_length hi syms : (beyond hi syms <= 2 * length syms)%nat.
Proof.
  unfold beyond. etransitivity; [apply length_filter|]. unfold ends. induction syms as [|y syms IH]; [done|].
  rewrite bind_cons, length_app. cbn [length]. lia.
Qed.

(** The ranges map the addresses below [hi] to the symbols chosen for them. *)
Record formed (all : list located) (ranges : list dt_symrange) (hi : Z) : Prop := {
  fm_apart : apart ranges hi;
  fm_covers : ∀ a x, covers ranges a x ↔ a < hi ∧ ∃ s, winner a all = Some (x, s)
}.

(** The symbols that have been passed end by [hi]. *)
Definition passed (hi : Z) (pre : list located) : Prop := Forall (λ y : located, ∀ a, hi <= a → contains y.2 a = false) pre.

Lemma passed_snoc hi pre y : passed hi pre → sane y.2 → dts_size y.2 = 0 ∨ dts_addr y.2 + dts_size y.2 <= hi →
  passed hi (pre ++ [y]).
Proof.
  intros Hp [] Hy. apply Forall_app. split; [done|]. constructor; [|done]. intros a Ha. unfold contains. lia.
Qed.

Lemma winner_rest hi pre syms a : passed hi pre → hi <= a → winner a (pre ++ syms) = foldl (choose a) None syms.
Proof.
  intros Hp Ha. unfold winner. rewrite foldl_app. f_equal. apply choose_none.
  eapply Forall_impl; [exact Hp|]. cbn. auto.
Qed.

(** A range from [lo] to [hi'] for the symbol [best]. *)
Lemma formed_step pre sym rest ranges ranges' hi lo hi' best :
  ordered (sym :: rest) → all_sane (sym :: rest) → passed hi pre → formed (pre ++ sym :: rest) ranges hi →
  lo = (if dts_addr sym.2 <? hi then hi else dts_addr sym.2) → lo < dts_addr sym.2 + dts_size sym.2 →
  pick lo (end_of sym.2) sym rest = (hi', best) → apart ranges' hi' →
  (∀ a x, covers ranges' a x ↔ covers ranges a x ∨ lo <= a < hi' ∧ x = best.1) →
  hi < hi' ∧ endpoint (sym :: rest) hi' ∧ formed (pre ++ sym :: rest) ranges' hi' ∧ passed hi' pre.
Proof.
  intros Ho Hs Hp [Hap Hcov] Hlo Hend Hpick Hap' Hcov'.
  pose proof (Forall_cons_1 _ _ _ Hs) as [Hsym Hrest]. pose proof (StronglySorted_inv Ho) as [Hor _].
  assert (dts_addr sym.2 <= lo ∧ hi <= lo) as [H ?] by (subst lo; destruct (Z.ltb_spec (dts_addr sym.2) hi); lia).
  rewrite end_of_sane in Hpick by done. destruct (pick_spec _ _ _ _ _ _ Hor Hrest (conj H Hend) Hpick) as (Hhi & Hep & Hbest).
  split; [lia|]. split; [|split; [constructor; [done|]|]].
  - destruct Hep as [->|(z & ? & ?)]; [exists sym|exists z]; set_solver.
  - intros a x. rewrite Hcov', Hcov. split.
    + intros [(? & ?)|[? ->]]; [split; [lia|done]|]. split; [lia|]. exists best.2.
      rewrite (winner_rest hi) by (done || lia). cbn [foldl]. unfold choose at 2.
      assert (contains sym.2 a = true) as -> by (unfold contains; lia). rewrite Hbest by lia. by destruct best.
    + intros [Ha [s Hw]]. destruct (decide (a < hi)) as [?|]; [left; eauto|]. right.
      rewrite (winner_rest hi) in Hw by (done || lia). assert (lo <= a) as Hla.
      { destruct (decide (lo <= a)); [done|]. rewrite choose_none in Hw; [done|]. apply ordered_above; [done|].
        subst lo. destruct (Z.ltb_spec (dts_addr sym.2) hi); lia. }
      split; [lia|]. cbn [foldl] in Hw. unfold choose at 2 in Hw.
      assert (contains sym.2 a = true) as E by (unfold contains; lia). rewrite E, Hbest in Hw by lia. by simplify_eq.
  - eapply Forall_impl; [exact Hp|]. intros y Hy a Ha. apply Hy. lia.
Qed.

(** The outcome of the loop: memory ran out, or the ranges map every address to
    the symbol chosen for it. *)
Definition form_result (mr : Z → bool) (all : list located) (r : option (Z * list dt_symrange)) : Prop :=
  match r with
  | None => ∃ n, mr n = false
  | Some (n, ranges) => (∃ hi, apart ranges hi) ∧
      (∀ a x, covers ranges a x ↔ ∃ s, winner a all = Some (x, s)) ∧
      Z.of_nat (length ranges) <= n < 2 ^ 31 + 1024 ∧ 0 < n
  end.

Lemma form_loop_spec mr fuel pre syms hi num_alloc ranges :
  ordered syms → all_sane syms → passed hi pre → formed (pre ++ syms) ranges hi →
  (length syms + beyond hi syms <= fuel)%nat → 0 < num_alloc → Z.of_nat (length ranges) <= num_alloc →
  num_alloc < 2 ^ 31 + 1024 → Z.of_nat (length ranges + beyond hi syms) < 2 ^ 31 →
  ∃ r, form_loop fuel mr syms hi num_alloc ranges = Some r ∧ form_result mr (pre ++ syms) r.
Proof.
  revert pre syms hi num_alloc ranges. induction fuel as [|fuel IH]; intros pre [|sym rest] hi num_alloc ranges Ho Hs Hp Hf Hfuel H0 Hn Hmax Hlen;
    cbn [form_loop]; try (cbn [length] in Hfuel; lia).
  1,2: eexists; (split; [done|]); cbn; split; [exists hi; apply Hf|]; split; [|lia]; intros a x; rewrite (fm_covers _ _ _ Hf);
    split; [by intros [_ ?]|]; intros [s Hw]; split; [|by exists s];
    destruct (decide (a < hi)) as [?|]; [done|]; rewrite (winner_rest hi) in Hw by (done || lia); done.
  pose proof (Forall_cons_1 _ _ _ Hs) as [Hsym Hrest]. pose proof (StronglySorted_inv Ho) as [Hor _].
  pose proof (beyond_cons hi sym rest) as Hbc. cbn [length] in Hfuel.
  assert (dts_size sym.2 = 0 ∨ dts_addr sym.2 + dts_size sym.2 <= hi → ∃ r, form_loop fuel mr rest hi num_alloc ranges = Some r ∧ form_result mr (pre ++ sym :: rest) r) as Hskip.
  { intros Hsk. rewrite cons_middle, app_assoc in *. apply IH; try done; [by apply passed_snoc|lia|lia]. }
  destruct (Z.eqb_spec (dts_size sym.2) 0) as [|Hsz]; [by apply Hskip; left|].
  rewrite end_of_sane by done. destruct (_ && _) eqn:Hc; [apply Hskip; lia|]. clear Hskip.
  set (lo := if _ <? hi then hi else _). destruct Hsym as [? ? ?].
  assert (hi <= lo ∧ lo < dts_addr sym.2 + dts_size sym.2) as [Hhl Hle] by (unfold lo; destruct (Z.ltb_spec (dts_addr sym.2) hi); lia).
  destruct (pick lo _ sym rest) as [hi' best] eqn:Hpick. rewrite <- end_of_sane in Hpick by done.
  pose proof (add_range_spec mr num_alloc ranges lo hi' best.1) as Hadd.
  assert (lo < hi') as Hlt.
  { rewrite end_of_sane in Hpick by done. eapply pick_spec in Hpick; [lia|done|done|]. split; [|done]. unfold lo. destruct (Z.ltb_spec (dts_addr sym.2) hi); lia. }
  assert (apart ranges lo) as Hap.
  { destruct Hf as [[? ? Hb] _]. constructor; [done..|]. eapply Forall_impl; [exact Hb|]. cbn. lia. }
  specialize (Hadd Hap Hlt ltac:(lia)). destruct (add_range _ _ _ _ _ _) as [[n ranges']|]; [|by eexists; split; [done|]; eexists].
  destruct Hadd as (Hap' & ? & ? & Halloc & Hl' & Hcov').
  destruct (formed_step pre sym rest ranges ranges' hi lo hi' best) as (Hhi & Hep & Hf' & Hp'); try done.
  pose proof (beyond_lt _ _ _ Hhi Hep) as Hb. apply IH; try done; [cbn [length]; lia|lia..].
Qed.

(** ** The choice *)

(** [x] is preferred to [y]; [R] decides between symbols with the same bounds. *)
Definition preferred (R : located → located → Prop) (x y : located) : Prop :=
  beats x.2 y.2 = true ∨ dts_addr x.2 = dts_addr y.2 ∧ dts_size x.2 = dts_size y.2 ∧ R x y.

Definition chosen (R : located → located → Prop) (syms : list located) (a : Z) (x : located) : Prop :=
  x ∈ syms ∧ contains x.2 a = true ∧ ∀ y, y ∈ syms → contains y.2 a = true → preferred R x y.

Lemma beats_preferred R x y z : beats x.2 y.2 = true → preferred R y z → preferred R x z.
Proof. unfold preferred, beats. lia. Qed.

Lemma choose_spec (R : located → located → Prop) a pre syms acc :
  (∀ x, R x x) → StronglySorted R (pre ++ syms) →
  match acc with Some x => chosen R pre a x | None => ∀ y, y ∈ pre → contains y.2 a = false end →
  match foldl (choose a) acc syms with
  | Some x => chosen R (pre ++ syms) a x
  | None => ∀ y, y ∈ pre ++ syms → contains y.2 a = false
  end.
Proof.
  intros Hr. revert pre acc. induction syms as [|y syms IH]; intros pre acc Hs Hacc; [by rewrite app_nil_r|].
  cbn [foldl]. rewrite cons_middle, app_assoc in *. apply IH; [done|]. clear IH.
  assert (∀ x, x ∈ pre → R x y) as HR.
  { intros x Hx. eapply (StronglySorted_app_1_elem_of R pre [y]); [by eapply StronglySorted_app_1_l|done|set_solver]. }
  unfold choose. destruct (contains y.2 a) eqn:Hc; [|].
  - destruct acc as [x|].
    + destruct Hacc as (Hx & Hxc & Hxb). destruct (beats y.2 x.2) eqn:Hb.
      * split; [set_solver|]. split; [done|]. intros z [Hz| ->%list_elem_of_singleton]%elem_of_app Hzc; [|by right].
        eapply beats_preferred; [done|]. by apply Hxb.
      * split; [set_solver|]. split; [done|]. intros z [Hz| ->%list_elem_of_singleton]%elem_of_app Hzc; [by apply Hxb|].
        specialize (HR x Hx). unfold preferred, beats in *.
        destruct (Z.lt_trichotomy (dts_addr x.2) (dts_addr y.2)) as [|[|]], (Z.lt_trichotomy (dts_size x.2) (dts_size y.2)) as [|[|]]; try lia.
        right. auto.
    + split; [set_solver|]. split; [done|]. intros z [Hz| ->%list_elem_of_singleton]%elem_of_app Hzc; [|by right].
      by rewrite Hacc in Hzc.
  - destruct acc as [x|].
    + destruct Hacc as (Hx & Hxc & Hxb). split; [set_solver|]. split; [done|].
      intros z [Hz| ->%list_elem_of_singleton]%elem_of_app Hzc; [by apply Hxb|congruence].
    + intros z [Hz| ->%list_elem_of_singleton]%elem_of_app; [by apply Hacc|done].
Qed.

Lemma winner_spec R a syms : (∀ x, R x x) → StronglySorted R syms →
  match winner a syms with
  | Some x => chosen R syms a x
  | None => ∀ y, y ∈ syms → contains y.2 a = false
  end.
Proof. intros Hr Hs. apply (choose_spec R a [] syms None); [done|done|]. by intros y ?%elem_of_nil. Qed.

(** ** The search *)

Lemma search_partitioned ranges hi a : apart ranges hi → partitioned (dt_symbol_search_cmp a) ranges.
Proof.
  intros [Hne Hs _] i j x y Hij Hi Hj. rewrite Forall_forall in Hne.
  pose proof (Hne x (list_elem_of_lookup_2 _ _ _ Hi)). pose proof (Hne y (list_elem_of_lookup_2 _ _ _ Hj)). cbn in *.
  assert (dtsr_hi x <= dtsr_lo y).
  { apply (StronglySorted_app_1_elem_of (λ r r', dtsr_hi r <= dtsr_lo r') (take j ranges) (drop j ranges)).
    - by rewrite take_drop.
    - apply list_elem_of_lookup. exists i. by rewrite lookup_take_lt.
    - apply list_elem_of_lookup. exists 0%nat. by rewrite lookup_drop, Nat.add_0_r. }
  unfold dt_symbol_search_cmp. destruct (Z.ltb_spec a (dtsr_lo x)), (Z.ltb_spec a (dtsr_lo y)),
    (Z.leb_spec (dtsr_hi x) a), (Z.leb_spec (dtsr_hi y) a); lia.
Qed.

Lemma search_zero a r : dt_symbol_search_cmp a r = 0 ↔ dtsr_lo r <= a < dtsr_hi r.
Proof. unfold dt_symbol_search_cmp. destruct (Z.ltb_spec a (dtsr_lo r)), (Z.leb_spec (dtsr_hi r) a); lia. Qed.

(** ** The order of the symbols *)

Lemma sort_cmp_lex l r :
  dt_symrange_sort_cmp l r =
  let name (x : named) := strcmp x.2 (str "cleanup_module") =? 0 in
  lex (compare_Z (dts_addr l.1.2) (dts_addr r.1.2))
    (lex (compare_Z (- dts_size l.1.2) (- dts_size r.1.2))
       (lex (compare_Z (Z.b2z (GELF_ST_TYPE (dts_info l.1.2) =? STT_NOTYPE)) (Z.b2z (GELF_ST_TYPE (dts_info r.1.2) =? STT_NOTYPE)))
          (lex (compare_Z (Z.b2z (GELF_ST_BIND (dts_info l.1.2) =? STB_WEAK)) (Z.b2z (GELF_ST_BIND (dts_info r.1.2) =? STB_WEAK)))
             (lex (compare_Z (Z.b2z (name l)) (Z.b2z (name r))) (strcmp l.2 r.2))))).
Proof.
  destruct l as [[la ls] ln], r as [[ra rs] rn]. cbn [fst snd]. cbv zeta. unfold dt_symrange_sort_cmp, lex, compare_Z.
  destruct (Z.ltb_spec (dts_addr ls) (dts_addr rs)), (Z.ltb_spec (dts_addr rs) (dts_addr ls)); try lia; try done. cbn [Z.eqb].
  destruct (Z.ltb_spec (dts_size rs) (dts_size ls)), (Z.ltb_spec (- dts_size ls) (- dts_size rs)),
    (Z.ltb_spec (- dts_size rs) (- dts_size ls)), (Z.ltb_spec (dts_size ls) (dts_size rs)); try lia; try done. cbn [Z.eqb].
  destruct (GELF_ST_TYPE (dts_info ls) =? STT_NOTYPE), (GELF_ST_TYPE (dts_info rs) =? STT_NOTYPE); try done; cbn;
    destruct (GELF_ST_BIND (dts_info ls) =? STB_WEAK), (GELF_ST_BIND (dts_info rs) =? STB_WEAK); try done; cbn;
    destruct (strcmp ln _ =? 0), (strcmp rn _ =? 0); done.
Qed.

Definition well_named (x : named) : Prop := cstring x.2.

Lemma compare_strcmp : Comparison strcmp cstring.
Proof. constructor; [intros x y; rewrite (strcmp_opp x y); lia|]. intros x y z ? ? ?. by apply strcmp_trans. Qed.

(** [dt_symrange_sort_cmp] orders the symbols, as qsort(3) requires. *)
Lemma sort_cmp_comparison : Comparison dt_symrange_sort_cmp well_named.
Proof.
  eapply compare_ext; [exact sort_cmp_lex|]. cbv zeta.
  apply (compare_lex _ _ _ (compare_key (λ x : named, dts_addr x.1.2) _)).
  apply (compare_lex _ _ _ (compare_key (λ x : named, - dts_size x.1.2) _)).
  apply (compare_lex _ _ _ (compare_key (λ x : named, Z.b2z (GELF_ST_TYPE (dts_info x.1.2) =? STT_NOTYPE)) _)).
  apply (compare_lex _ _ _ (compare_key (λ x : named, Z.b2z (GELF_ST_BIND (dts_info x.1.2) =? STB_WEAK)) _)).
  apply (compare_lex _ _ _ (compare_key (λ x : named, Z.b2z (strcmp x.2 (str "cleanup_module") =? 0)) _)).
  apply (compare_map snd strcmp cstring); [done|apply compare_strcmp].
Qed.

Lemma sort_cmp_addr l r : dt_symrange_sort_cmp l r <= 0 → dts_addr l.1.2 <= dts_addr r.1.2.
Proof.
  rewrite sort_cmp_lex. cbv zeta. unfold lex at 1. destruct (Z.eqb_spec (compare_Z (dts_addr l.1.2) (dts_addr r.1.2)) 0) as [E|_].
  all: unfold compare_Z in *; destruct (Z.ltb_spec (dts_addr l.1.2) (dts_addr r.1.2)), (Z.ltb_spec (dts_addr r.1.2) (dts_addr l.1.2)); lia.
Qed.

End SymRange.
