(* ===== verification/SymWorld.v ===== *)
(** * The symbol tables of all modules

    The heap, the hash table of names and the symbol tables of all modules, the
    operations on them, and what holds of them at any time. *)
From S2P Require Import Prelude CLib CSort DtList DtString Htab SymTab SymRange.
From stdpp Require Import sorting.
#[local] Open Scope Z_scope.
Import DtString Htab SymTab SymRange.

Module SymWorld.

Lemma filter_on {A} (P Q : A → Prop) `{!∀ x, Decision (P x), !∀ x, Decision (Q x)} (l : list A) :
  (∀ x, x ∈ l → P x ↔ Q x) → filter P l = filter Q l.
Proof.
  induction l as [|x l IH]; intros HPQ; [done|]. rewrite !filter_cons, IH by (intros; apply HPQ; by right).
  pose proof (HPQ x ltac:(by left)). repeat case_decide; tauto.
Qed.

(** ** Names *)

(** Every symbol has a name, and the cached hash value is that of the name. *)
Definition all_named (hp : symheap) : Prop :=
  ∀ a s, sh_syms hp !! a = Some s →
    ∃ n, string_at hp (dts_name s) = Some n ∧ cstring n ∧ (dts_hval s = 0 ∨ dts_hval s = str2hval (Some n) 0).

Definition nm (hp : symheap) (a : Z) : list Z := default [] (name_at hp a).

Lemma all_named_at hp a s : all_named hp → sh_syms hp !! a = Some s →
  ∃ n, name_at hp a = Some n ∧ string_at hp (dts_name s) = Some n ∧ nm hp a = n ∧ cstring n ∧
    dt_symtab_hval hp a = str2hval (Some n) 0.
Proof.
  intros Hn Hs. destruct (Hn a s Hs) as (n & Hst & Hc & Hh). exists n.
  assert (name_at hp a = Some n) as Hna by (unfold name_at; by rewrite Hs).
  split_and!; try done; [unfold nm; by rewrite Hna|]. unfold dt_symtab_hval. rewrite Hs, Hst.
  destruct (Z.eqb_spec (dts_hval s) 0); [done|]. by destruct Hh.
Qed.

Lemma nm_cstring hp a : all_named hp → cstring (nm hp a).
Proof.
  intros Hn. destruct (sh_syms hp !! a) as [s|] eqn:Hs.
  - by destruct (all_named_at _ _ _ Hn Hs) as (n & _ & _ & -> & ? & _).
  - unfold nm, name_at. rewrite Hs. constructor.
Qed.

Lemma hval_nm hp a : all_named hp → dt_symtab_hval hp a = str2hval (Some (nm hp a)) 0.
Proof.
  intros Hn. destruct (sh_syms hp !! a) as [s|] eqn:Hs.
  - by destruct (all_named_at _ _ _ Hn Hs) as (n & _ & _ & -> & _ & ->).
  - unfold dt_symtab_hval, nm, name_at. by rewrite Hs.
Qed.

(** The hash table compares names. *)
Lemma symtab_keys hp : all_named hp → KeyLaws (dt_symtab_hval hp) (dt_symtab_cmp hp).
Proof.
  intros Hn. constructor; unfold dt_symtab_cmp.
  - intros e. rewrite hval_nm by done. destruct (str2hval_correct (nm hp e) [] 0); lia.
  - intros. apply strcmp_refl.
  - intros e f E. rewrite strcmp_opp. lia.
  - intros e f g E1%strcmp_eq E2%strcmp_eq; try by apply nm_cstring. unfold nm in *. rewrite E1, E2. apply strcmp_refl.
  - intros e f E%strcmp_eq; try by apply nm_cstring. rewrite !hval_nm by done. unfold nm in *. by rewrite E.
Qed.

(** The hash table holds the symbols [L], latest first. *)
Definition kern_table (hp : symheap) (kt : dt_htab) (L : list Z) : Prop :=
  ∀ K : KeyLaws (dt_symtab_hval hp) (dt_symtab_cmp hp),
    @table links (dt_symtab_htab_ops hp) (@std_laws _ _ K) (sh_he hp) kt L.

Lemma cmp_zero hp a b : all_named hp → dt_symtab_cmp hp a b = 0 ↔ nm hp a = nm hp b.
Proof.
  intros Hn. unfold dt_symtab_cmp. fold (nm hp a) (nm hp b). split; [|intros ->; apply strcmp_refl].
  apply strcmp_eq; by apply nm_cstring.
Qed.

(** A table stays a table when the heap changes but for its symbols' names. *)
Lemma kern_table_agree hp hp' kt L : all_named hp → all_named hp' →
  (∀ a, a ∈ L → nm hp' a = nm hp a ∧ sh_he hp' !! a = sh_he hp !! a) → kern_table hp kt L → kern_table hp' kt L.
Proof.
  intros Hn Hn' Hag Ht K'. destruct (Ht (symtab_keys hp Hn)) as [G [? ? ? ? ? ? ? [Hok Had Hcl Heq Hin Hnd]]].
  exists G. constructor; try done.
  assert (∀ p x, p ∈ concat G → x ∈ p.2 → x ∈ L) as HL.
  { intros p x Hp Hx. rewrite (Heq p x Hp Hx) in Hx. by apply elem_of_equals in Hx as [_ ?]. }
  assert (∀ x y, x ∈ L → y ∈ L → dt_symtab_cmp hp' x y = dt_symtab_cmp hp x y) as Hc.
  { intros x y Hx Hy. unfold dt_symtab_cmp. fold (nm hp x) (nm hp y) (nm hp' x) (nm hp' y).
    by rewrite (proj1 (Hag x Hx)), (proj1 (Hag y Hy)). }
  constructor; try done.
  - intros p Hp. destruct (Hok p Hp) as [? Hrep ? Hhv ?]. constructor; try done.
    + destruct Hrep as (? & Hdll & ? & ?). split_and!; try done. eapply dll_frame; [|exact Hdll].
      intros x Hx. apply Hag. by eapply HL.
    + intros x Hx. rewrite <- (Hhv x Hx). cbn. rewrite !hval_nm by done.
      destruct (Hag x) as [-> _]; [|done]. by eapply HL.
  - intros p q x y Hp Hq Hx Hy E. apply (Hcl p q x y Hp Hq Hx Hy). cbn in E |- *. rewrite <- Hc; [done|by apply (HL p)|by apply (HL q)].
  - intros p x Hp Hx. rewrite (Heq p x Hp Hx). unfold equals. apply filter_on. cbn.
    intros y Hy. rewrite Hc; [done|done|]. by eapply HL.
Qed.

Definition known (hp : symheap) (L : list Z) : Prop := ∀ a, a ∈ L → is_Some (sh_syms hp !! a).

Lemma known_name hp a : all_named hp → is_Some (sh_syms hp !! a) → is_Some (name_at hp a).
Proof. intros Hn [s Hs]. destruct (all_named_at _ _ _ Hn Hs) as (n & -> & _). by eexists. Qed.

(** The buckets' heads are symbols of the table. *)
Lemma heads_in hp kt L slot b : all_named hp → kern_table hp kt L → slot ∈ tab kt → b ∈ slot → bk_head b ∈ L.
Proof.
  intros Hn Ht Hsl Hb. destruct (Ht (symtab_keys hp Hn)) as [G Hinv]. rewrite (inv_tab _ _ _ _ Hinv) in Hsl.
  apply list_elem_of_fmap in Hsl as (sl & -> & Hsl). apply list_elem_of_fmap in Hb as (p & -> & Hp).
  assert (p ∈ concat G) as HpG by (apply list_elem_of_lookup in Hsl as [? ?]; apply elem_of_concat; eauto). pose proof (inv_holds _ _ _ _ Hinv) as Hh.
  eapply holds_elem; [exact Hh|exact HpG|]. by apply (bucket_head _ _ (holds_ok _ _ _ Hh p HpG)).
Qed.

Lemma compares_ok hp slot e : (∀ b, b ∈ slot → is_Some (name_at hp (bk_head b))) → is_Some (name_at hp e) →
  compares hp slot e = true.
Proof.
  intros Hs He. induction slot as [|b slot IH]; [done|]. cbn [compares]. unfold readable.
  rewrite !bool_decide_true by (done || (apply Hs; by left)). rewrite IH by (intros; apply Hs; by right). cbn. apply orb_true_r.
Qed.

Lemma hashes_ok hp e : all_named hp → is_Some (sh_syms hp !! e) → hashes hp e = true.
Proof.
  intros Hn He. pose proof (known_name _ _ Hn He) as Hr. destruct He as [s Hs]. unfold hashes, readable.
  by rewrite Hs, bool_decide_true, orb_true_r.
Qed.

Section Kern.
Context (hp : symheap) (kt : dt_htab) (L : list Z).
Context (Hn : all_named hp) (Ht : kern_table hp kt L) (Hk : known hp L).

Lemma compares_slot e slot : is_Some (sh_syms hp !! e) → slot ∈ tab kt → compares hp slot e = true.
Proof using Hn Ht Hk.
  intros He Hsl. apply compares_ok; [|by apply known_name]. intros b Hb. apply known_name, Hk; [done|].
  by eapply heads_in.
Qed.

Lemma kern_lookup_spec e : is_Some (sh_syms hp !! e) →
  kern_lookup hp kt e = Some (first (filter (λ a, nm hp a = nm hp e) L) 0).
Proof using Hn Ht Hk.
  intros He. unfold kern_lookup, slot_of. rewrite hashes_ok by done. set (K := symtab_keys hp Hn).
  destruct (tab kt !! _) as [slot|] eqn:Hsl; [|cbn [default compares andb]];
    [cbn [default andb]; rewrite compares_slot by (done || by eapply list_elem_of_lookup_2)|];
    (etransitivity; [exact (@lookup_spec _ _ (@std_laws _ _ K) (sh_he hp) kt L e (Ht K))|]);
    f_equal; f_equal; unfold equals; apply filter_on; intros a _; cbn; by apply cmp_zero.
Qed.

Lemma kern_insert_spec mr mb e : is_Some (sh_syms hp !! e) → e ∉ L → e ≠ 0 → sh_he hp !! e = Some (mk_links 0 0) →
  new_bucket mb kt → Z.of_nat (length L) < 2 ^ 31 - 1 →
  ∃ err he kt', kern_insert mr mb hp kt e = Some (err, put_he hp he, kt') ∧
    (err = - ENOMEM ∧ he = sh_he hp ∧ kern_table hp kt' L ∨ err = 0 ∧ kern_table (put_he hp he) kt' (e :: L)).
Proof using Hn Ht Hk.
  intros He HeL He0 Hhe Hmb Hlen. unfold kern_insert. rewrite hashes_ok by done. cbn [andb].
  assert (forallb (λ slot, compares hp slot e) (tab kt) = true) as ->.
  { apply forallb_forall. intros slot Hsl. apply compares_slot; [done|]. by apply list_elem_of_In. }
  set (K := symtab_keys hp Hn).
  destruct (@htab_insert_spec _ _ (@std_laws _ _ K) mr mb (sh_he hp) kt L e (Ht K) Hmb HeL (conj Hhe He0) Hlen)
    as (err & he & kt' & Hins & Hcase). change (std_ops _ _) with (dt_symtab_htab_ops hp) in Hins. rewrite Hins. cbn [mbind option_bind]. exists err, he, kt'. split; [done|].
  destruct Hcase as [(-> & -> & Htab)|(-> & Htab & _)]; [left; split; [done|]; split; [done|]|right; split; [done|]].
  all: intros K'; destruct Htab as [G [? ? ? ? ? ? ? [Hok ? ? ? ? ?]]]; exists G; constructor; try done; constructor; try done.
  all: intros p Hp; destruct (Hok p Hp); by constructor.
Qed.

End Kern.

(** ** The narrowest symbol *)

(** A symbol is the same but for where its name is. *)
Record same (s t : dt_symbol) : Prop := {
  same_addr : dts_addr s = dts_addr t;
  same_size : dts_size s = dts_size t;
  same_info : dts_info s = dts_info t;
  same_dmp : dts_dmp s = dts_dmp t
}.

Definition agree (hp hp' : symheap) (l : list Z) : Prop :=
  ∀ a, a ∈ l → ∃ s s', sh_syms hp !! a = Some s ∧ sh_syms hp' !! a = Some s' ∧ same s s' ∧ nm hp' a = nm hp a.

(** The symbols at the addresses [l]. *)
Definition locs (hp : symheap) (l : list Z) : list located := omap (λ a, s ← sh_syms hp !! a; Some (a, s)) l.

Lemma elem_of_locs hp l x : x ∈ locs hp l ↔ x.1 ∈ l ∧ sh_syms hp !! x.1 = Some x.2.
Proof.
  unfold locs. rewrite list_elem_of_omap. destruct x as [a s]. cbn. split.
  - intros (a' & Ha & E). destruct (sh_syms hp !! a') as [s'|] eqn:Hs; [|done]. cbn in E. by simplify_eq.
  - intros [Ha Hs]. exists a. by rewrite Hs.
Qed.

(** Of two symbols with the same bounds, that which is sorted first. *)
Definition tie (hp : symheap) (x y : located) : Prop := dt_symrange_sort_cmp (x, nm hp x.1) (y, nm hp y.1) <= 0.

(** [x] is the narrowest symbol of [l] that contains the address [a]. *)
Definition narrowest (hp : symheap) (l : list Z) (a x : Z) : Prop := ∃ s, chosen (tie hp) (locs hp l) a (x, s).

Lemma contains_same s t a : same s t → contains t a = contains s a.
Proof. intros []. unfold contains. congruence. Qed.

Lemma tie_same hp hp' x y s t s' t' : same s s' → same t t' → nm hp' x = nm hp x → nm hp' y = nm hp y →
  tie hp (x, s) (y, t) → tie hp' (x, s') (y, t').
Proof. intros [] [] E1 E2. unfold tie, dt_symrange_sort_cmp. cbn [fst snd]. rewrite E1, E2. by repeat match goal with H : _ s = _ |- _ => rewrite H; clear H | H : _ t = _ |- _ => rewrite H; clear H end. Qed.

Lemma preferred_same hp hp' x y s t s' t' : same s s' → same t t' → nm hp' x = nm hp x → nm hp' y = nm hp y →
  preferred (tie hp) (x, s) (y, t) → preferred (tie hp') (x, s') (y, t').
Proof.
  intros Hs Ht E1 E2 [Hb|(? & ? & Hc)].
  - left. destruct Hs, Ht. unfold beats in *. cbn [fst snd] in *. by repeat match goal with H : _ = _ s' |- _ => rewrite <- H; clear H | H : _ = _ t' |- _ => rewrite <- H; clear H end.
  - right. destruct Hs, Ht. cbn [fst snd] in *. split; [congruence|]. split; [congruence|]. by eapply tie_same.
Qed.

Lemma agree_sym hp hp' l : agree hp hp' l → agree hp' hp l.
Proof.
  intros Ha a Hin. destruct (Ha a Hin) as (s & s' & ? & ? & [] & ?). exists s', s. by split_and!.
Qed.

Lemma locs_agree hp hp' l x s : agree hp hp' l → (x, s) ∈ locs hp l →
  ∃ s', (x, s') ∈ locs hp' l ∧ same s s' ∧ nm hp' x = nm hp x.
Proof.
  intros Hag [Hx Hs]%elem_of_locs. cbn in *. destruct (Hag x Hx) as (t & s' & ? & Hs' & ? & ?). simplify_eq.
  exists s'. split; [by apply elem_of_locs|done].
Qed.

Lemma narrowest_agree hp hp' l a x : agree hp hp' l → narrowest hp l a x → narrowest hp' l a x.
Proof.
  intros Hag (s & Hin & Hc & Hpref). destruct (locs_agree _ _ _ _ _ Hag Hin) as (s' & Hin' & Hs & Hnx).
  exists s'. split; [done|]. cbn [snd] in *. split; [by rewrite (contains_same s)|]. intros [y t'] Ht' Htc.
  destruct (locs_agree _ _ _ _ _ (agree_sym _ _ _ Hag) Ht') as (t & Hty & Hst & Hny). cbn [snd] in *.
  eapply preferred_same; [done| |done| |apply (Hpref (y, t)); [done|]].
  - destruct Hst. by constructor.
  - done.
  - cbn. by rewrite (contains_same t').
Qed.

(** ** The world *)

(** The heap, [dt_kernsyms], the symbol tables, and the symbols inserted into
    any of them, latest first. *)
Record world := mk_world {
  w_heap : symheap;
  w_kern : option dt_htab;
  w_tabs : list dt_symtab;
  w_hist : list Z
}.

Definition world0 : world := mk_world (mk_symheap ∅ ∅ ∅) None [] [].

(** Calls, of which those but the first name a table by its number. *)
Inductive op :=
  | Create (m1 m2 m : bool)
  | Insert (k : nat) (mm : insert_mem) (dmp : Z) (name : list Z) (addr size info : Z)
  | Sort (k : nat) (m : bool) (mr : Z → bool) (flag : bool)
  | Pack (k : nat) (m : bool) (mr : Z → bool) (mt : option Z).

Definition run_op (w : world) (o : op) : option world :=
  match o with
  | Create m1 m2 m =>
      let '(kern, st) := dt_symtab_create m1 m2 m (w_kern w) in
      Some (mk_world (w_heap w) kern (w_tabs w ++ option_list st) (w_hist w))
  | Insert k mm dmp name addr size info =>
      st ← w_tabs w !! k;
      kt ← w_kern w;
      '(r, hp, kt, st) ← dt_symbol_insert mm (w_heap w) kt st dmp name addr size info;
      Some (mk_world hp (Some kt) (<[k := st]> (w_tabs w)) (if r =? 0 then w_hist w else r :: w_hist w))
  | Sort k m mr flag =>
      st ← w_tabs w !! k;
      '(hp, st) ← dt_symtab_sort m mr (w_heap w) st flag;
      Some (mk_world hp (w_kern w) (<[k := st]> (w_tabs w)) (w_hist w))
  | Pack k m mr mt =>
      st ← w_tabs w !! k;
      '(hp, st) ← dt_symtab_pack m mr mt (w_heap w) st;
      Some (mk_world hp (w_kern w) (<[k := st]> (w_tabs w)) (w_hist w))
  end.

Fixpoint run_ops (w : world) (os : list op) : option world :=
  match os with
  | [] => Some w
  | o :: os => w ← run_op w o; run_ops w os
  end.

(** Memory that is allocated was free, and the sizes are those of a machine. *)
Definition unused (w : world) (b : Z) : Prop := b ≠ 0 ∧ sh_strs (w_heap w) !! b = None.

Record insert_ok (w : world) (mm : insert_mem) (st : dt_symtab) (name : list Z) (addr size : Z) : Prop := {
  io_sym a : im_sym mm = Some a → a ≠ 0 ∧ sh_syms (w_heap w) !! a = None;
  io_name b : im_name mm = Some b → unused w b;
  io_bucket kt : w_kern w = Some kt → new_bucket (im_bucket mm) kt;
  io_string : cstring name;
  io_addr : 0 <= addr;
  io_size : 0 <= size;
  io_end : addr + size < 2 ^ 64;
  io_alloc : dtst_num_range_alloc st < 2 ^ 30;
  io_count : Z.of_nat (length (w_hist w)) < 2 ^ 31 - 1
}.

(** Every symbol that has addresses is among those to be sorted. *)
Definition complete (hp : symheap) (st : dt_symtab) : Prop :=
  ∀ a s, a ∈ dtst_symlist st → sh_syms hp !! a = Some s → dts_size s ≠ 0 → a ∈ (dtsr_sym <$> dtst_ranges st).

Fixpoint bytes (hp : symheap) (l : list Z) : Z :=
  match l with
  | [] => 0
  | a :: l => Z.of_nat (length (nm hp a)) + 1 + bytes hp l
  end.

Definition op_ok (w : world) (o : op) : Prop :=
  match o with
  | Create _ _ _ => True
  | Insert k mm _ name addr size _ => ∃ st, w_tabs w !! k = Some st ∧ insert_ok w mm st name addr size
  | Sort k _ _ flag => ∃ st, w_tabs w !! k = Some st ∧
      Z.of_nat (length (dtst_ranges st)) < 2 ^ 30 ∧ (flag = true → complete (w_heap w) st)
  | Pack k _ _ mt => ∃ st, w_tabs w !! k = Some st ∧ Z.of_nat (length (dtst_ranges st)) < 2 ^ 30 ∧
      bytes (w_heap w) (dtst_symlist st) < 2 ^ 64 ∧ ∀ b, mt = Some b → unused w b
  end.

Fixpoint ops_ok (w : world) (os : list op) : Prop :=
  match os with
  | [] => True
  | o :: os => op_ok w o ∧ ∀ w', run_op w o = Some w' → ops_ok w' os
  end.

(** ** What holds at any time *)

Definition is_sorted (st : dt_symtab) : bool := negb (Z.land (dtst_flags st) DT_ST_SORTED =? 0).
Definition is_packed (st : dt_symtab) : bool := negb (Z.land (dtst_flags st) DT_ST_PACKED =? 0).

(** The ranges of a sorted table lead to the narrowest symbols. *)
Record ranges_right (hp : symheap) (st : dt_symtab) : Prop := {
  rr_apart : ∃ hi, apart (dtst_ranges st) hi;
  rr_narrowest a x : covers (dtst_ranges st) a x → narrowest hp (dtst_symlist st) a x;
  rr_found a y : y ∈ locs hp (dtst_symlist st) → contains y.2 a = true → ∃ x, covers (dtst_ranges st) a x
}.

(** The symbols in the ranges suffice to find the narrowest one. *)
Definition sufficient (hp : symheap) (st : dt_symtab) : Prop :=
  ∀ a y, y ∈ locs hp (dtst_symlist st) → contains y.2 a = true →
    ∃ x, x ∈ locs hp (dtsr_sym <$> dtst_ranges st) ∧ contains x.2 a = true ∧ preferred (tie hp) x y.

Record tab_ok (hp : symheap) (st : dt_symtab) : Prop := {
  to_known : known hp (dtst_symlist st);
  to_ranges r : r ∈ dtst_ranges st → dtsr_sym r ∈ dtst_symlist st;
  to_alloc : Z.of_nat (length (dtst_ranges st)) <= dtst_num_range_alloc st < 2 ^ 31 + 1024;
  to_sufficient : sufficient hp st;
  to_sorted : is_sorted st = true → ranges_right hp st
}.

(** The name of a symbol of a table is a block of its own, or in the table's. *)
Record names_ok (hp : symheap) (st : dt_symtab) : Prop := {
  no_strtab : is_packed st = false → dtst_strtab st = 0;
  no_own a s : is_packed st = false → a ∈ dtst_symlist st → sh_syms hp !! a = Some s → (dts_name s).2 = 0;
  no_alone a s a' s' : is_packed st = false → a ∈ dtst_symlist st → sh_syms hp !! a = Some s →
    sh_syms hp !! a' = Some s' → a' ≠ a → (dts_name s').1 ≠ (dts_name s).1;
  no_packed a s : is_packed st = true → a ∈ dtst_symlist st → sh_syms hp !! a = Some s →
    (dts_name s).1 = dtst_strtab st ∧ dtst_strtab st ≠ 0
}.

Record wf (w : world) : Prop := {
  wf_named : all_named (w_heap w);
  wf_sane a s : sh_syms (w_heap w) !! a = Some s → a ≠ 0 ∧ sane s;
  wf_hist a : a ∈ w_hist w ↔ is_Some (sh_syms (w_heap w) !! a);
  wf_nodup : NoDup (w_hist w);
  wf_parts : concat (dtst_symlist <$> w_tabs w) ≡ₚ w_hist w;
  wf_kern : match w_kern w with Some kt => kern_table (w_heap w) kt (w_hist w) | None => w_tabs w = [] end;
  wf_tabs k st : w_tabs w !! k = Some st → tab_ok (w_heap w) st ∧ names_ok (w_heap w) st
}.

End SymWorld.
