(* ===== verification/SymInsert.v ===== *)
(** * Creating symbol tables and inserting symbols *)
From S2P Require Import Prelude CLib CSort DtList DtString Htab SymTab SymRange SymWorld.
From stdpp Require Import sorting.
#[local] Open Scope Z_scope.
Import DtString Htab SymTab SymRange SymWorld.

Module SymInsert.

(** ** Flags *)

Lemma land_lor_same f b : 0 <= b → Z.land (Z.lor f b) b = b.
Proof. intros. apply Z.bits_inj. intros i. rewrite Z.land_spec, Z.lor_spec. by destruct (Z.testbit f i), (Z.testbit b i). Qed.

Lemma land_lor_other f b c : Z.land b c = 0 → Z.land (Z.lor f b) c = Z.land f c.
Proof. intros E. by rewrite Z.land_lor_distr_l, E, Z.lor_0_r. Qed.

Lemma land_ldiff_same f b : Z.land (Z.ldiff f b) b = 0.
Proof. apply Z.bits_inj. intros i. rewrite Z.land_spec, Z.ldiff_spec, Z.bits_0. by destruct (Z.testbit f i), (Z.testbit b i). Qed.

Lemma land_ldiff_other f b c : Z.land b c = 0 → Z.land (Z.ldiff f b) c = Z.land f c.
Proof.
  intros E. apply Z.bits_inj. intros i. assert (Z.testbit (Z.land b c) i = false) as Hb by by rewrite E, Z.bits_0.
  rewrite !Z.land_spec, Z.ldiff_spec in *. by destruct (Z.testbit f i), (Z.testbit b i), (Z.testbit c i).
Qed.

Lemma set_sorted_flags st : is_sorted (set_flag st DT_ST_SORTED) = true ∧ is_packed (set_flag st DT_ST_SORTED) = is_packed st.
Proof. unfold is_sorted, is_packed. cbn [set_flag dtst_flags]. by rewrite land_lor_same, land_lor_other. Qed.

Lemma set_packed_flags st : is_packed (set_flag st DT_ST_PACKED) = true ∧ is_sorted (set_flag st DT_ST_PACKED) = is_sorted st.
Proof. unfold is_sorted, is_packed. cbn [set_flag dtst_flags]. by rewrite land_lor_same, land_lor_other. Qed.

(** ** Tables that an operation leaves alone *)

Lemma tie_refl hp x : tie hp x x.
Proof.
  unfold tie. destruct x as [a s]. cbn [fst snd]. rewrite sort_cmp_lex. cbn [fst snd]. cbv zeta. unfold lex, compare_Z.
  rewrite !Z.ltb_irrefl. cbn [Z.eqb]. by rewrite strcmp_refl.
Qed.

Lemma preferred_refl hp x : preferred (tie hp) x x.
Proof. right. split; [done|]. split; [done|]. apply tie_refl. Qed.

Lemma agree_refl hp hp' l : known hp l → sh_syms hp' = sh_syms hp → sh_strs hp' = sh_strs hp → agree hp hp' l.
Proof.
  intros Hk E1 E2 a Ha. destruct (Hk a Ha) as [s Hs]. exists s, s. rewrite E1. split_and!; try done.
  unfold nm, name_at, string_at. by rewrite E1, E2.
Qed.

Lemma agree_subset hp hp' l l' : l' ⊆ l → agree hp hp' l → agree hp hp' l'.
Proof. intros Hl Ha a Hin. by apply Ha, Hl. Qed.

Lemma range_syms hp st : tab_ok hp st → (dtsr_sym <$> dtst_ranges st) ⊆ dtst_symlist st.
Proof. intros Ht a (r & -> & Hr)%list_elem_of_fmap. by eapply to_ranges. Qed.

Lemma sufficient_agree hp hp' st : agree hp hp' (dtst_symlist st) → (dtsr_sym <$> dtst_ranges st) ⊆ dtst_symlist st →
  sufficient hp st → sufficient hp' st.
Proof.
  intros Hag Hsub Hs a [y t'] Hy' Hc. cbn [snd] in *.
  destruct (locs_agree _ _ _ _ _ (agree_sym _ _ _ Hag) Hy') as (t & Hy & Hst & Hny).
  destruct (Hs a (y, t) Hy) as ([x s] & Hx & Hxc & Hp); [by rewrite (contains_same t')|]. cbn [snd] in *.
  destruct (locs_agree hp hp' _ _ _ (agree_subset _ _ _ _ Hsub Hag) Hx) as (s' & Hx' & Hss & Hnx).
  exists (x, s'). split; [done|]. cbn [snd]. split; [by rewrite (contains_same s)|].
  eapply preferred_same; [done| |done| |done]; [|done]. destruct Hst. by constructor.
Qed.

Lemma tab_ok_agree hp hp' st : agree hp hp' (dtst_symlist st) → tab_ok hp st → tab_ok hp' st.
Proof.
  intros Hag Ht. pose proof (range_syms _ _ Ht) as Hsub. destruct Ht as [Hk Hr Ha Hs Hso]. constructor; try done.
  - intros a Ha'. destruct (Hag a Ha') as (? & s' & _ & -> & _). by eexists.
  - by eapply sufficient_agree.
  - intros Hs'. destruct (Hso Hs') as [Hap Hn Hf]. constructor; [done| |].
    + intros a x Hc. eapply narrowest_agree; [exact Hag|]. by apply Hn.
    + intros a [y t'] Hy' Hc. destruct (locs_agree _ _ _ _ _ (agree_sym _ _ _ Hag) Hy') as (t & Hy & Hst & _).
      apply (Hf a (y, t) Hy). cbn. by rewrite (contains_same t').
Qed.

(** ** The parts of the world *)

Lemma tab_member w k st a : wf w → w_tabs w !! k = Some st → a ∈ dtst_symlist st → a ∈ w_hist w.
Proof.
  intros Hw Hk Ha. rewrite <- (wf_parts _ Hw). apply elem_of_concat. exists k, (dtst_symlist st).
  by rewrite list_lookup_fmap, Hk.
Qed.

Lemma nodup_concat_disjoint {A} (ls : list (list A)) i j l m x :
  NoDup (concat ls) → ls !! i = Some l → ls !! j = Some m → i ≠ j → x ∈ l → x ∈ m → False.
Proof.
  revert i j. induction ls as [|l0 ls IH]; intros i j Hnd Hi Hj Hne Hl Hm; [done|]. cbn [concat] in Hnd.
  apply NoDup_app in Hnd as (_ & Hd & Hnd). destruct i as [|i], j as [|j]; [done| | |]; cbn in Hi, Hj; simplify_eq.
  - apply (Hd x Hl), elem_of_concat. eauto.
  - apply (Hd x Hm), elem_of_concat. eauto.
  - apply (IH i j); auto.
Qed.

Lemma nodup_concat_part {A} (ls : list (list A)) i l : NoDup (concat ls) → ls !! i = Some l → NoDup l.
Proof.
  revert i. induction ls as [|l0 ls IH]; intros i Hnd Hi; [done|]. cbn [concat] in Hnd. apply NoDup_app in Hnd as (? & _ & Hnd).
  destruct i as [|i]; [by simplify_eq/=|by apply (IH i)].
Qed.

Lemma tab_disjoint w k k' st st' a : wf w → w_tabs w !! k = Some st → w_tabs w !! k' = Some st' → k ≠ k' →
  a ∈ dtst_symlist st → a ∉ dtst_symlist st'.
Proof.
  intros Hw Hk Hk' Hne Ha Ha'. pose proof (wf_nodup _ Hw) as Hnd. rewrite <- (wf_parts _ Hw) in Hnd.
  eapply nodup_concat_disjoint; [exact Hnd|..]; [by rewrite list_lookup_fmap, Hk|by rewrite list_lookup_fmap, Hk'|done..].
Qed.

Lemma parts_update (tabs : list dt_symtab) k st st' l : tabs !! k = Some st →
  dtst_symlist st' ≡ₚ l ++ dtst_symlist st →
  concat (dtst_symlist <$> <[k := st']> tabs) ≡ₚ l ++ concat (dtst_symlist <$> tabs).
Proof.
  intros Hk Hl. rewrite list_fmap_insert. revert k Hk. induction tabs as [|t tabs IH]; intros [|k] Hk; [done..| |]; cbn in *.
  - simplify_eq. by rewrite Hl, app_assoc.
  - rewrite (IH k Hk). by rewrite !app_assoc, (Permutation_app_comm l).
Qed.

(** A name that can be read is in a block. *)
Lemma named_block hp a s : all_named hp → sh_syms hp !! a = Some s → is_Some (sh_strs hp !! (dts_name s).1).
Proof.
  intros Hn Hs. destruct (Hn a s Hs) as (n & Hst & _). unfold string_at in Hst.
  destruct (sh_strs hp !! (dts_name s).1); [by eexists|done].
Qed.

(** What an operation on the symbols [l] may change of the heap. *)
Record changes (hp hp' : symheap) (l : list Z) : Prop := {
  ch_named : all_named hp';
  ch_sane a s : sh_syms hp' !! a = Some s → a ≠ 0 ∧ sane s;
  ch_dom a : is_Some (sh_syms hp' !! a) ↔ is_Some (sh_syms hp !! a);
  ch_nm a : is_Some (sh_syms hp !! a) → nm hp' a = nm hp a;
  ch_other a s : a ∉ l → sh_syms hp !! a = Some s → sh_syms hp' !! a = Some s;
  ch_block a s' : sh_syms hp' !! a = Some s' →
    (∃ s, sh_syms hp !! a = Some s ∧ (dts_name s').1 = (dts_name s).1) ∨ sh_strs hp !! (dts_name s').1 = None
}.

Lemma names_ok_other hp hp' l st : all_named hp → changes hp hp' l → known hp (dtst_symlist st) →
  (∀ a, a ∈ dtst_symlist st → a ∉ l) → names_ok hp st → names_ok hp' st.
Proof.
  intros Hn Hch Hk Hd [H1 H2 H3 H4].
  assert (∀ a s, a ∈ dtst_symlist st → sh_syms hp' !! a = Some s → sh_syms hp !! a = Some s) as Hback.
  { intros a s Ha Hs. destruct (Hk a Ha) as [t Ht]. rewrite (ch_other _ _ _ Hch a t (Hd a Ha) Ht) in Hs. by simplify_eq. }
  constructor; try done.
  - intros a s Hp Ha Hs. by eapply H2, Hback.
  - intros a s a' s' Hp Ha Hs Hs' Hne. apply Hback in Hs; [|done].
    destruct (ch_block _ _ _ Hch _ _ Hs') as [(t & Ht & ->)|Hnone]; [by eapply H3|].
    intros E. rewrite E in Hnone. destruct (named_block _ _ _ Hn Hs) as [b Hb]. congruence.
  - intros a s Hp Ha Hs. by eapply H4, Hback.
Qed.

(** An operation that changes the table [k] and its symbols, and inserts none. *)
Lemma wf_same w k st st' hp' kern' :
  wf w → w_tabs w !! k = Some st → dtst_symlist st' = dtst_symlist st → changes (w_heap w) hp' (dtst_symlist st) →
  match kern' with Some kt => kern_table hp' kt (w_hist w) | None => False end →
  tab_ok hp' st' → names_ok hp' st' → wf (mk_world hp' kern' (<[k := st']> (w_tabs w)) (w_hist w)).
Proof.
  intros Hw Hk Hl Hch Hkern Ht Hn. constructor; cbn [w_heap w_kern w_tabs w_hist]; try apply Hch.
  - intros a. rewrite (ch_dom _ _ _ Hch). apply Hw.
  - apply Hw.
  - rewrite (parts_update _ k st st' []); [apply Hw|done|by rewrite Hl].
  - by destruct kern'.
  - intros j st2 Hj. apply list_lookup_insert_Some in Hj as [(<- & -> & _)|(Hne & Hj)]; [done|].
    destruct (wf_tabs _ Hw j st2 Hj) as [Ht2 Hn2].
    assert (∀ a, a ∈ dtst_symlist st2 → a ∉ dtst_symlist st) as Hd by (intros a; eapply tab_disjoint; eauto).
    split; [|eapply names_ok_other; [apply Hw|done|apply Ht2|done|done]].
    eapply tab_ok_agree; [|done]. intros a Ha. destruct (to_known _ _ Ht2 a Ha) as [s Hs].
    exists s, s. split_and!; [done|by apply (ch_other _ _ _ Hch); [apply Hd|]|done|by apply (ch_nm _ _ _ Hch)].
Qed.

(** Nothing but links changes. *)
Lemma changes_links hp hp' : sh_syms hp' = sh_syms hp → sh_strs hp' = sh_strs hp → all_named hp →
  (∀ a s, sh_syms hp !! a = Some s → a ≠ 0 ∧ sane s) → ∀ l, changes hp hp' l.
Proof.
  intros E1 E2 Hn Hs l. constructor; rewrite ?E1; try done.
  - intros a s Ha. rewrite E1 in Ha. unfold string_at. rewrite E2. by apply (Hn a).
  - intros a _. unfold nm, name_at, string_at. by rewrite E1, E2.
  - intros a s' Ha. left. by exists s'.
Qed.

(** ** Creation *)

Lemma create_wf w m1 m2 m : wf w → ∃ w', run_op w (Create m1 m2 m) = Some w' ∧ wf w'.
Proof.
  intros Hw. cbn [run_op]. destruct (dt_symtab_create m1 m2 m (w_kern w)) as [kern st] eqn:Hc.
  eexists. split; [done|].
  assert (kern = w_kern w ∧ st = None ∨ (∃ kt, kern = Some kt ∧ kern_table (w_heap w) kt (w_hist w)) ∧ (st = None ∨ st = Some (mk_symtab [] 0 [] 0 0))) as Hcase.
  { unfold dt_symtab_create in Hc. destruct (w_kern w) as [kt|] eqn:Hk; [|destruct (dt_htab_create m1 m2) as [kt|] eqn:Hh].
    - right. pose proof (wf_kern _ Hw) as Ht. rewrite Hk in Ht. destruct m; simplify_eq/=; (split; [by eexists|]); auto.
    - right. assert (w_hist w = []) as ->.
      { pose proof (wf_kern _ Hw) as Ht. rewrite Hk in Ht. pose proof (wf_parts _ Hw) as Hp. rewrite Ht in Hp. by apply Permutation_nil_l in Hp. }
      split; [|destruct m; simplify_eq/=; auto]. exists kt. split; [by destruct m; simplify_eq/=|].
      intros K. by apply (@htab_create_spec _ _ (@std_laws _ _ K) m1 m2).
    - left. by simplify_eq. }
  destruct Hcase as [[-> ->]|((kt & -> & Hkt) & Hst)]; [cbn [option_list]; by rewrite app_nil_r; destruct w|].
  destruct Hw as [H1 H2 H3 H4 H5 H6 H7]. constructor; cbn; try done.
  - rewrite fmap_app, concat_app, H5. destruct Hst as [-> | ->]; cbn; by rewrite app_nil_r.
  - intros k st' [Hk|[_ Hk]]%lookup_app_Some; [by apply (H7 k)|]. destruct Hst as [-> | ->]; [done|].
    apply list_lookup_singleton_Some in Hk as [_ <-]. split.
    + constructor; cbn; try done; try (by intros ? ?%elem_of_nil); try lia. by intros a y ?%elem_of_nil.
    + constructor; cbn; try done; intros; match goal with H : _ ∈ [] |- _ => by apply elem_of_nil in H end.
Qed.

(** ** Insertion *)

Definition with_alloc (st : dt_symtab) (n : Z) : dt_symtab := set_ranges st (dtst_ranges st) n.

(** The array of ranges after it has been grown if it had to be. *)
Definition room (m : bool) (st : dt_symtab) : option dt_symtab :=
  if dtst_num_range_alloc st <=? Z.of_nat (length (dtst_ranges st)) then dt_symtab_grow_ranges m st else Some st.

Lemma room_spec m hp st st' : tab_ok hp st → dtst_num_range_alloc st < 2 ^ 30 → room m st = Some st' →
  ∃ n, st' = with_alloc st n ∧ Z.of_nat (length (dtst_ranges st)) < n < 2 ^ 31 + 1024.
Proof.
  intros Ht Ha. pose proof (to_alloc _ _ Ht). unfold room, dt_symtab_grow_ranges.
  destruct (Z.leb_spec (dtst_num_range_alloc st) (Z.of_nat (length (dtst_ranges st)))).
  - destruct m; [|done]. cbn [negb]. intros [= <-]. rewrite wrap_id by (unfold urange; lia). eexists. split; [done|lia].
  - intros [= <-]. exists (dtst_num_range_alloc st). split; [by destruct st|lia].
Qed.

Lemma with_alloc_ok hp hp' st n : agree hp hp' (dtst_symlist st) → tab_ok hp st →
  Z.of_nat (length (dtst_ranges st)) <= n < 2 ^ 31 + 1024 → tab_ok hp' (with_alloc st n).
Proof. intros Hag Ht Hn. apply (tab_ok_agree _ _ _ Hag) in Ht. destruct Ht as [? ? ? ? Hr]. constructor; try done. intros Hs. by destruct (Hr Hs). Qed.

(** An insertion that fails has changed the size of the array at most. *)
Lemma insert_failed w k st n hp' kt' : wf w → w_tabs w !! k = Some st →
  Z.of_nat (length (dtst_ranges st)) <= n < 2 ^ 31 + 1024 →
  sh_syms hp' = sh_syms (w_heap w) → sh_strs hp' = sh_strs (w_heap w) → kern_table hp' kt' (w_hist w) →
  wf (mk_world hp' (Some kt') (<[k := with_alloc st n]> (w_tabs w)) (w_hist w)).
Proof.
  intros Hw Hk Hn E1 E2 Hkt. destruct (wf_tabs _ Hw k st Hk) as [Ht Hns].
  eapply wf_same; try done; [apply changes_links; try done; apply Hw| |].
  - eapply with_alloc_ok; [|done|done]. apply agree_refl; [apply Ht|done|done].
  - destruct Hns as [H1 H2 H3 H4]. constructor; rewrite ?E1; done.
Qed.

Section Insert.
Context (w : world) (k : nat) (st : dt_symtab) (Hw : wf w) (Hk : w_tabs w !! k = Some st).
Context (a b dmp addr size info : Z) (name : list Z).
Context (Ha : a ≠ 0 ∧ sh_syms (w_heap w) !! a = None) (Hb : unused w b) (Hname : cstring name).
Context (Haddr : 0 <= addr) (Hsize : 0 <= size) (Hend : addr + size < 2 ^ 64).

Let new : dt_symbol := mk_symbol (b, 0) addr size info (str2hval (Some name) 0) dmp.
Let hp1 : symheap :=
  mk_symheap (<[a := new]> (sh_syms (w_heap w))) (<[b := name ++ [0]]> (sh_strs (w_heap w)))
    (<[a := mk_links 0 0]> (sh_he (w_heap w))).

Lemma new_string_at p : string_at (w_heap w) p ≠ None → string_at hp1 p = string_at (w_heap w) p.
Proof using Hb.
  unfold string_at. cbn. destruct Hb as [_ Hnone]. intros Hp. rewrite lookup_insert_ne; [done|].
  intros E. by rewrite <- E, Hnone in Hp.
Qed.

Lemma new_named : all_named hp1.
Proof using Hw Hb Hname.
  intros x s Hs. cbn in Hs. apply lookup_insert_Some in Hs as [[<- <-]|[Hne Hs]].
  - exists name. split; [|by split; [|right]]. unfold string_at. cbn. rewrite lookup_insert_eq. cbn. by apply cstr_app.
  - destruct (wf_named _ Hw x s Hs) as (n & Hn & ? & ?). exists n. rewrite new_string_at; [done|by rewrite Hn].
Qed.

Lemma new_nm x : is_Some (sh_syms (w_heap w) !! x) → nm hp1 x = nm (w_heap w) x.
Proof using Hw Ha Hb.
  intros [s Hs]. unfold nm, name_at. cbn. rewrite lookup_insert_ne by (intros <-; by destruct Ha; congruence). rewrite Hs.
  cbn. destruct (wf_named _ Hw x s Hs) as (n & Hn & _). rewrite new_string_at; [done|by rewrite Hn].
Qed.

Lemma new_fresh : a ∉ w_hist w.
Proof using Hw Ha. intros Hin%(wf_hist _ Hw). destruct Ha as [_ E]. rewrite E in Hin. by destruct Hin. Qed.

Lemma new_kern kt : w_kern w = Some kt → kern_table hp1 kt (w_hist w).
Proof using Hw Ha Hb Hname.
  intros Hkt. pose proof (wf_kern _ Hw) as Ht. rewrite Hkt in Ht.
  eapply kern_table_agree; [apply Hw|apply new_named| |exact Ht]. intros x Hx. split.
  - by apply new_nm, Hw.
  - cbn. apply lookup_insert_ne. intros <-. by apply new_fresh.
Qed.

Lemma new_known : known hp1 (w_hist w).
Proof using Hw Ha.
  intros x Hx. cbn. rewrite lookup_insert_ne; [by apply Hw|]. intros <-. by apply new_fresh.
Qed.

Lemma new_agree l : known (w_heap w) l → agree (w_heap w) hp1 l.
Proof using Hw Ha Hb.
  intros Hl x Hx. destruct (Hl x Hx) as [s Hs]. exists s, s. split; [done|]. split; [|split; [done|by apply new_nm; eexists]].
  cbn. rewrite lookup_insert_ne; [done|]. intros <-. destruct Ha. congruence.
Qed.

Context (he : links).
Let hp2 : symheap := put_he hp1 he.

(** Other symbols, in the new heap. *)
Lemma new_other x s : x ≠ a → sh_syms hp2 !! x = Some s ↔ sh_syms (w_heap w) !! x = Some s.
Proof using Type. intros Hx. cbn. by rewrite lookup_insert_ne. Qed.

Lemma new_block_ne x s : sh_syms (w_heap w) !! x = Some s → (dts_name s).1 ≠ b.
Proof using Hw Hb.
  intros Hs E. destruct (named_block _ _ _ (wf_named _ Hw) Hs) as [t Ht]. rewrite E in Ht. destruct Hb. congruence.
Qed.

(** What holds of the names of a table holds with another symbol in the heap,
    and in the table if that is not packed. *)
Lemma new_names st2 l : (l = [] ∨ l = [a] ∧ is_packed st2 = false) → a ∉ dtst_symlist st2 →
  names_ok (w_heap w) st2 → ∀ st', dtst_symlist st' = dtst_symlist st2 ++ l → dtst_strtab st' = dtst_strtab st2 →
  is_packed st' = is_packed st2 → names_ok hp2 st'.
Proof using All.
  intros Hl Hnin [H1 H2 H3 H4] st' El Es Ep.
  assert (∀ x s, x ∈ dtst_symlist st' → sh_syms hp2 !! x = Some s →
    x = a ∧ s = new ∧ is_packed st2 = false ∨ x ≠ a ∧ x ∈ dtst_symlist st2 ∧ sh_syms (w_heap w) !! x = Some s) as Hcase.
  { intros x s Hx Hs. rewrite El in Hx. destruct (decide (x = a)) as [->|Hne].
    - left. destruct Hl as [->|[-> ?]]; [by rewrite app_nil_r in Hx|]. cbn in Hs. rewrite lookup_insert_eq in Hs. by simplify_eq.
    - right. split; [done|]. split; [|by apply new_other]. destruct Hl as [->|[-> _]]; set_solver. }
  constructor; rewrite ?Es, ?Ep; try done.
  - intros x s Hp Hx Hs. destruct (Hcase x s Hx Hs) as [(-> & -> & _)|(_ & Hx' & Hs')]; [done|by eapply H2].
  - intros x s x' s' Hp Hx Hs Hs' Hne. destruct (Hcase x s Hx Hs) as [(-> & -> & _)|(Hxa & Hx' & Hs2)].
    + cbn. apply (new_other x' s' Hne) in Hs'. by eapply new_block_ne.
    + destruct (decide (x' = a)) as [->|Hxa']; [|apply (new_other x' s' Hxa') in Hs'; by eapply H3].
      cbn in Hs'. rewrite lookup_insert_eq in Hs'. simplify_eq. cbn. symmetry. by eapply new_block_ne.
  - intros x s Hp Hx Hs. destruct (Hcase x s Hx Hs) as [(_ & _ & ?)|(_ & Hx' & Hs')]; [congruence|by eapply H4].
Qed.

(** The table with the symbol. *)
Lemma add_symbol_spec n st' : add_symbol (with_alloc st n) a size = Some st' →
  st' = mk_symtab (dtst_symlist st ++ [a]) (dtst_strtab st) (dtst_ranges st ++ (if 0 <? size then [mk_range 0 0 a] else [])) n
          (Z.ldiff (dtst_flags st) DT_ST_SORTED).
Proof using Type.
  unfold add_symbol. cbn. destruct (0 <? size); [destruct (_ <? n)|]; intros [= <-]; [done|]. by rewrite app_nil_r.
Qed.

Lemma new_tab n st' : Z.of_nat (length (dtst_ranges st)) < n < 2 ^ 31 + 1024 → tab_ok (w_heap w) st →
  add_symbol (with_alloc st n) a size = Some st' → tab_ok hp2 st'.
Proof using All.
  intros Hn Ht ->%add_symbol_spec. assert (agree (w_heap w) hp2 (dtst_symlist st)) as Hag by (apply new_agree; apply Ht).
  pose proof (tab_ok_agree _ _ _ Hag Ht) as Ht2.
  assert (∀ x l, x ∈ locs hp2 (l ++ [a]) → x ∈ locs hp2 l ∨ x = (a, new)) as Hsplit.
  { intros [x s] l [Hx Hs]%elem_of_locs. cbn [fst snd] in *. destruct (decide (x = a)) as [->|Hne].
    - right. cbn in Hs. rewrite lookup_insert_eq in Hs. by simplify_eq.
    - left. apply elem_of_locs. cbn. set_solver. }
  assert ((a, new) ∈ locs hp2 [a]) as Hin by (apply elem_of_locs; cbn; rewrite lookup_insert_eq; set_solver).
  constructor; cbn.
  - intros x [Hx|Hx%list_elem_of_singleton]%elem_of_app; [by apply Ht2|]. subst. cbn. rewrite lookup_insert_eq. by eexists.
  - intros r [Hr|Hr]%elem_of_app; [apply elem_of_app; left; by apply Ht|].
    destruct (0 <? size); [|by apply elem_of_nil in Hr]. apply list_elem_of_singleton in Hr as ->. set_solver.
  - rewrite length_app. destruct (0 <? size); cbn [length]; lia.
  - intros c y Hy Hc. cbn [dtst_ranges dtst_symlist] in *. rewrite fmap_app. apply Hsplit in Hy as [Hy| ->].
    + destruct (to_sufficient _ _ Ht2 c y Hy Hc) as (x & Hx & ? & ?). exists x. split; [|done].
      apply elem_of_locs in Hx. apply elem_of_locs. set_solver.
    + exists (a, new). split; [|split; [done|apply preferred_refl]]. unfold contains in Hc. cbn in Hc.
      rewrite (proj2 (Z.ltb_lt 0 size)) by lia. apply elem_of_locs in Hin. apply elem_of_locs. cbn in *. set_solver.
  - unfold is_sorted. cbn. by rewrite land_ldiff_same.
Qed.

Lemma insert_added n kt' st' : kern_table hp2 kt' (a :: w_hist w) →
  Z.of_nat (length (dtst_ranges st)) < n < 2 ^ 31 + 1024 → is_packed st = false →
  add_symbol (with_alloc st n) a size = Some st' →
  wf (mk_world hp2 (Some kt') (<[k := st']> (w_tabs w)) (a :: w_hist w)).
Proof using All.
  intros Hkt Hn Hpk Hadd. destruct (wf_tabs _ Hw k st Hk) as [Ht Hns]. pose proof (new_tab n st' Hn Ht Hadd) as Ht'.
  pose proof (add_symbol_spec n st' Hadd) as Est. pose proof new_fresh as Hfr.
  constructor; cbn [w_heap w_kern w_tabs w_hist]; try done.
  - apply new_named.
  - intros x s Hs. destruct (decide (x = a)) as [->|Hne].
    + cbn in Hs. rewrite lookup_insert_eq in Hs. simplify_eq. split; [by destruct Ha|by constructor].
    + apply new_other in Hs; [|done]. by apply Hw.
  - intros x. rewrite elem_of_cons, (wf_hist _ Hw). cbn. destruct (decide (x = a)) as [->|Hne].
    + rewrite lookup_insert_eq. split; [by eexists|by left].
    + rewrite lookup_insert_ne by done. tauto.
  - constructor; [done|apply Hw].
  - rewrite (parts_update _ k st st' [a] Hk), (wf_parts _ Hw); [done|]. rewrite Est. cbn. by rewrite Permutation_app_comm.
  - intros j st2 Hj. apply list_lookup_insert_Some in Hj as [(<- & <- & _)|(Hne & Hj)].
    + split; [done|]. apply (new_names st [a]); try done; [by right|intros ?; by eapply Hfr, tab_member|by rewrite Est..|].
      rewrite Est. unfold is_packed. cbn. by rewrite land_ldiff_other.
    + destruct (wf_tabs _ Hw j st2 Hj) as [Ht2 Hn2]. split.
      * eapply tab_ok_agree; [apply new_agree; apply Ht2|done].
      * apply (new_names st2 []); try done; [by left|intros ?; by eapply Hfr, tab_member|by rewrite app_nil_r].
Qed.

End Insert.

Lemma insert_wf w k mm dmp name addr size info : wf w → op_ok w (Insert k mm dmp name addr size info) →
  ∃ w', run_op w (Insert k mm dmp name addr size info) = Some w' ∧ wf w'.
Proof.
  intros Hw (st & Hk & [Ha Hb Hbk Hname Haddr Hsize Hend Halloc Hcount]). cbn [run_op]. rewrite Hk. cbn [mbind option_bind].
  destruct (w_kern w) as [kt|] eqn:Hkt; [|by pose proof (wf_kern _ Hw) as E; rewrite Hkt in E; rewrite E in Hk].
  cbn [mbind option_bind]. destruct (wf_tabs _ Hw k st Hk) as [Ht Hns].
  assert (kern_table (w_heap w) kt (w_hist w)) as Htab by (pose proof (wf_kern _ Hw) as E; by rewrite Hkt in E).
  assert (∀ n, Z.of_nat (length (dtst_ranges st)) <= n < 2 ^ 31 + 1024 →
    wf (mk_world (w_heap w) (Some kt) (<[k := with_alloc st n]> (w_tabs w)) (w_hist w))) as Hfail
    by (intros n Hn; by apply insert_failed).
  assert (st = with_alloc st (dtst_num_range_alloc st)) as Est by by destruct st.
  unfold dt_symbol_insert. change (negb (Z.land (dtst_flags st) DT_ST_PACKED =? 0)) with (is_packed st).
  destruct (is_packed st) eqn:Hpk; [eexists; split; [done|]; rewrite Est; apply Hfail, Ht|].
  destruct (im_sym mm) as [a|]; [|eexists; split; [done|]; rewrite Est; apply Hfail, Ht].
  specialize (Ha a eq_refl). fold (room (im_grow mm) st).
  destruct (room (im_grow mm) st) as [st2|] eqn:Hroom; [|eexists; split; [done|]; rewrite Est; apply Hfail, Ht].
  destruct (room_spec _ _ _ _ Ht Halloc Hroom) as (n & -> & Hn).
  destruct (im_name mm) as [b|]; [|eexists; split; [done|]; apply Hfail; lia].
  specialize (Hb b eq_refl). unfold put_str, put_sym, put_he. cbn [sh_syms sh_strs sh_he].
  set (hp1 := mk_symheap _ _ _).
  destruct (kern_insert_spec hp1 kt (w_hist w)) with (mr := im_resize mm) (mb := im_bucket mm) (e := a)
    as (err & he & kt' & -> & Hcase); try done;
    [by apply new_named|by eapply new_kern|by apply new_known|by cbn; rewrite lookup_insert_eq; eexists|
     by eapply new_fresh|by destruct Ha|by cbn; rewrite lookup_insert_eq|by apply Hbk|].
  cbn [mbind option_bind]. destruct Hcase as [(-> & -> & Hkt')|(-> & Hkt')].
  - change (- ENOMEM <? 0) with true. unfold free_str, free_sym. cbn -[Z.eqb]. rewrite lookup_insert_eq. cbn.
    rewrite lookup_insert_eq. cbn. eexists. split; [done|]. rewrite !delete_insert_eq, (delete_id _ b), (delete_id _ a) by (apply Ha || apply Hb).
    apply insert_failed; try done; [lia|]. eapply kern_table_agree; [by apply new_named|apply Hw| |exact Hkt'].
    intros x Hx. split; [symmetry; eapply new_nm; try done; by apply Hw|]. cbn.
    assert (a ≠ x) by (intros <-; by eapply new_fresh). by rewrite lookup_delete_ne, lookup_insert_ne.
  - change (0 <? 0) with false. cbn iota.
    assert (∃ st', add_symbol (with_alloc st n) a size = Some st') as [st' Hadd].
    { unfold add_symbol. cbn. rewrite (proj2 (Z.ltb_lt _ n)) by lia. destruct (0 <? size); by eexists. }
    rewrite Hadd. cbn [mbind option_bind]. rewrite (proj2 (Z.eqb_neq a 0)) by apply Ha.
    eexists. split; [done|]. by eapply insert_added.
Qed.

End SymInsert.
