(* ===== verification/SymSort.v ===== *)
(** * Sorting symbol tables *)
From S2P Require Import Prelude CLib CSort DtList DtString Htab SymTab SymRange SymWorld SymInsert.
From stdpp Require Import sorting.
#[local] Open Scope Z_scope.
Import DtString Htab SymTab SymRange SymWorld SymInsert.

Module SymSort.

(** ** The sort *)

Lemma mapM_some {A B} (f : A → option B) (g : A → B) l : (∀ x, x ∈ l → f x = Some (g x)) → mapM f l = Some (g <$> l).
Proof.
  induction l as [|x l IH]; intros H; [done|]. cbn. rewrite (H x) by by left. cbn.
  rewrite IH by (intros; apply H; by right). done.
Qed.

(** The symbols of ranges, as the sort and the loop see them. *)
Definition sym_of (hp : symheap) (a : Z) : dt_symbol := default (mk_symbol (0, 0) 0 0 0 0 0) (sh_syms hp !! a).
Definition at_range (hp : symheap) (r : dt_symrange) : located := (dtsr_sym r, sym_of hp (dtsr_sym r)).

Lemma sym_of_some hp a s : sh_syms hp !! a = Some s → sym_of hp a = s.
Proof. unfold sym_of. by intros ->. Qed.

Lemma locate_all hp ranges : known hp (dtsr_sym <$> ranges) → mapM (locate hp) ranges = Some (at_range hp <$> ranges).
Proof.
  intros Hk. apply mapM_some. intros r Hr. unfold locate, at_range, sym_of.
  destruct (Hk (dtsr_sym r)) as [s ->]; [by apply list_elem_of_fmap_2|done].
Qed.

Lemma locs_ranges hp ranges : known hp (dtsr_sym <$> ranges) → locs hp (dtsr_sym <$> ranges) = at_range hp <$> ranges.
Proof.
  induction ranges as [|r ranges IH]; intros Hk; [done|]. rewrite !fmap_cons. unfold locs, at_range. cbn [omap list_omap].
  destruct (Hk (dtsr_sym r)) as [s Hs]; [by left|]. rewrite (sym_of_some _ _ _ Hs), Hs. cbn. f_equal. apply IH. intros a Ha. apply Hk. by right.
Qed.

(** The sort puts the ranges in the order of [tie]. *)
Lemma sort_ranges_spec hp ranges : all_named hp → known hp (dtsr_sym <$> ranges) →
  ∃ ranges', sort_ranges hp ranges = Some ranges' ∧ ranges' ≡ₚ ranges ∧
    StronglySorted (tie hp) (at_range hp <$> ranges').
Proof.
  intros Hn Hk. unfold sort_ranges.
  assert (mapM (with_name hp) ranges = Some ((λ r, (r, (at_range hp r, nm hp (dtsr_sym r)))) <$> ranges)) as ->.
  { apply mapM_some. intros r Hr. destruct (Hk (dtsr_sym r)) as [s Hs]; [by apply list_elem_of_fmap_2|].
    destruct (all_named_at _ _ _ Hn Hs) as (n & _ & Hst & <- & _). unfold with_name, at_range. rewrite Hs. cbn. rewrite Hst.
    by rewrite (sym_of_some _ _ _ Hs). }
  cbn [mbind option_bind]. set (rs := _ <$> ranges). set (c := λ l r : dt_symrange * named, dt_symrange_sort_cmp l.2 r.2).
  eexists. split; [done|]. split.
  { rewrite qsort_perm. unfold rs. rewrite <- list_fmap_compose. by rewrite list_fmap_id. }
  assert (Comparison c (λ x, well_named x.2)) by (apply (compare_map snd dt_symrange_sort_cmp well_named); [done|apply sort_cmp_comparison]).
  assert (Forall (λ x : dt_symrange * named, x.2 = (at_range hp x.1, nm hp (dtsr_sym x.1))) (qsort c rs)) as Hshape.
  { rewrite qsort_perm. apply Forall_fmap, Forall_true. done. }
  assert (StronglySorted (before c) (qsort c rs)) as Hs.
  { apply (qsort_sorted c (P := λ x, well_named x.2)). apply Forall_fmap, Forall_true. intros r. cbn. by apply nm_cstring. }
  clearbody rs. induction Hs as [|x l Hs IH Hx]; [constructor|]. apply Forall_cons in Hshape as [Ex Hl]. rewrite !fmap_cons.
  constructor; [by apply IH|]. apply Forall_fmap, Forall_fmap. rewrite Forall_forall in Hx, Hl |- *. intros y Hy.
  specialize (Hx y Hy). unfold before, c in Hx. rewrite Ex, (Hl y Hy) in Hx. exact Hx.
Qed.

Lemma tie_ordered hp l : StronglySorted (tie hp) l → ordered l.
Proof.
  induction 1 as [|x l Hs IH Hx]; constructor; [done|]. eapply Forall_impl; [exact Hx|]. intros y Hy%sort_cmp_addr. exact Hy.
Qed.

(** ** The ranges *)

Lemma formed_nil syms : all_sane syms → formed syms [] 0.
Proof.
  intros Hs. constructor; [by constructor; constructor|]. intros a x. split; [by intros (r & ?%elem_of_nil & _)|].
  intros [Ha [s Hw]]. unfold winner in Hw. rewrite choose_none in Hw; [done|]. eapply Forall_impl; [exact Hs|].
  intros y []. unfold contains. lia.
Qed.

(** The array that [dt_symtab_form_ranges] makes, unless memory runs out. *)
Lemma form_ranges_spec m mr hp st : known hp (dtsr_sym <$> dtst_ranges st) → (∀ a s, sh_syms hp !! a = Some s → sane s) →
  ordered (at_range hp <$> dtst_ranges st) → Z.of_nat (length (dtst_ranges st)) < 2 ^ 30 →
  Z.of_nat (length (dtst_ranges st)) <= dtst_num_range_alloc st < 2 ^ 31 + 1024 →
  ∃ rc st', dt_symtab_form_ranges m mr hp st = Some (rc, st') ∧
    (rc = -1 ∧ st' = st ∨
     rc = 0 ∧ ∃ ranges n, st' = set_ranges st ranges n ∧ (∃ hi, apart ranges hi) ∧
       Z.of_nat (length ranges) <= n < 2 ^ 31 + 1024 ∧
       ∀ a x, covers ranges a x ↔ ∃ s, winner a (at_range hp <$> dtst_ranges st) = Some (x, s)).
Proof.
  intros Hk Hsane Ho Hlen Halloc. unfold dt_symtab_form_ranges.
  destruct (Nat.eqb_spec (length (dtst_ranges st)) 0) as [Hnil%nil_length_inv|Hne].
  { eexists _, _. split; [done|]. right. split; [done|]. exists [], (dtst_num_range_alloc st). rewrite Hnil. cbn [length fmap list_fmap].
    split; [by destruct st; simplify_eq/=|]. split; [exists 0; by constructor; constructor|]. split; [lia|].
    intros a x. split; [by intros (r & ?%elem_of_nil & _)|by intros [s ?]]. }
  destruct m; cbn [negb]; [|eexists _, _; split; [done|]; by left]. rewrite locate_all by done. cbn [mbind option_bind].
  set (syms := at_range hp <$> dtst_ranges st) in *. assert (length syms = length (dtst_ranges st)) as Hl by apply length_fmap.
  assert (all_sane syms) as Hs.
  { apply Forall_fmap, Forall_forall. intros r Hr. destruct (Hk (dtsr_sym r)) as [s Es]; [by apply list_elem_of_fmap_2|].
    cbn. rewrite (sym_of_some _ _ _ Es). by eapply Hsane. }
  pose proof (beyond_length 0 syms) as Hb. unfold form_fuel.
  destruct (form_loop_spec mr (3 * length syms) [] syms 0 (dtst_num_range_alloc st) []) as (r & -> & Hr);
    [done|done|constructor|by apply formed_nil|lia|lia|cbn; lia|lia|cbn [length]; lia|].
  cbn [mbind option_bind]. destruct r as [[n ranges]|].
  - eexists _, _. split; [done|]. right. split; [done|]. exists ranges, n. destruct Hr as (? & ? & ? & ?). split; [done|]. split; [done|]. by split.
  - eexists _, _. split; [done|]. by left.
Qed.

Lemma preferred_trans hp x y z : all_named hp → preferred (tie hp) x y → preferred (tie hp) y z → preferred (tie hp) x z.
Proof.
  intros Hn [Hb|(E1 & E2 & Hc)]; [by apply beats_preferred|]. intros [Hb|(E3 & E4 & Hd)].
  - left. unfold beats in *. by rewrite E1, E2.
  - right. split; [congruence|]. split; [congruence|]. unfold tie in *.
    destruct sort_cmp_comparison as [_ Htr]. apply (Htr _ (y, nm hp y.1)); try done; by apply nm_cstring.
Qed.

(** The choice among the symbols of the ranges is that of the narrowest. *)
Definition chooses (hp : symheap) (syms : list located) : Prop := ∀ a,
  match winner a syms with
  | Some x => chosen (tie hp) syms a x
  | None => ∀ y, y ∈ syms → contains y.2 a = false
  end.

Lemma sorted_chooses hp syms : StronglySorted (tie hp) syms → chooses hp syms.
Proof. intros Hs a. apply winner_spec; [apply tie_refl|done]. Qed.

(** A table whose ranges have been formed from such symbols. *)
Lemma formed_tab hp st ranges n : all_named hp → tab_ok hp st → chooses hp (at_range hp <$> dtst_ranges st) →
  (∃ hi, apart ranges hi) → Z.of_nat (length ranges) <= n < 2 ^ 31 + 1024 →
  (∀ a x, covers ranges a x ↔ ∃ s, winner a (at_range hp <$> dtst_ranges st) = Some (x, s)) →
  tab_ok hp (set_ranges st ranges n) ∧ ranges_right hp (set_ranges st ranges n).
Proof.
  intros Hn Ht Hch Hap Hlen Hcov. pose proof (range_syms _ _ Ht) as Hsub.
  assert (known hp (dtsr_sym <$> dtst_ranges st)) as Hk by (intros a Ha; by apply Ht, Hsub).
  rewrite <- (locs_ranges hp _ Hk) in *.
  assert (∀ a x s, winner a (locs hp (dtsr_sym <$> dtst_ranges st)) = Some (x, s) →
    chosen (tie hp) (locs hp (dtst_symlist st)) a (x, s)) as Hnar.
  { intros a x s Hw. specialize (Hch a). rewrite Hw in Hch. destruct Hch as (Hx & Hxc & Hp).
    split; [apply elem_of_locs in Hx; apply elem_of_locs; set_solver|]. split; [done|]. intros y Hy Hyc.
    destruct (to_sufficient _ _ Ht a y Hy Hyc) as (z & Hz & Hzc & Hzy). eapply preferred_trans; [done|by apply Hp|done]. }
  assert (∀ a y, y ∈ locs hp (dtst_symlist st) → contains y.2 a = true →
    ∃ x s, winner a (locs hp (dtsr_sym <$> dtst_ranges st)) = Some (x, s)) as Hfound.
  { intros a y Hy Hyc. destruct (to_sufficient _ _ Ht a y Hy Hyc) as (z & Hz & Hzc & _). specialize (Hch a).
    destruct (winner a _) as [[x s]|]; [by eauto|]. by rewrite (Hch z Hz) in Hzc. }
  assert (ranges_right hp (set_ranges st ranges n)) as Hr.
  { constructor; cbn [set_ranges dtst_ranges dtst_symlist]; [done| |].
    - intros a x [s Hw]%Hcov. exists s. by apply Hnar.
    - intros a y Hy Hyc. destruct (Hfound a y Hy Hyc) as (x & s & Hw). exists x. apply Hcov. by eexists. }
  split; [|done]. constructor; cbn [set_ranges dtst_ranges dtst_symlist dtst_num_range_alloc]; try done; [apply Ht| |].
  - intros r Hr'. destruct Hap as [hi [Hne _ _]]. rewrite Forall_forall in Hne. specialize (Hne r Hr'). cbn in Hne.
    destruct (proj1 (Hcov (dtsr_lo r) (dtsr_sym r))) as [s Hw]; [exists r; split; [done|lia]|].
    apply Hnar in Hw as [Hin _]. by apply elem_of_locs in Hin as [? _].
  - intros a y Hy Hyc. cbn [set_ranges dtst_ranges dtst_symlist] in *. destruct (Hfound a y Hy Hyc) as (x & s & Hw).
    destruct (Hnar _ _ _ Hw) as (Hin & Hxc & Hp). exists (x, s). split; [|split; [done|by apply Hp]].
    destruct (proj2 (Hcov a x)) as (r & Hrin & _ & Hrx); [by eexists|]. apply elem_of_locs in Hin as [_ Hs]. cbn in Hs.
    apply elem_of_locs. cbn. split; [|done]. rewrite <- Hrx. by apply list_elem_of_fmap_2.
Qed.

(** ** Sizes from the addresses of the symbols *)

Section Resize.
Context (addr : Z → Z).

(** The heaps have the same symbols, except for their sizes. *)
Definition same_but_size (hp hp' : symheap) : Prop :=
  sh_strs hp' = sh_strs hp ∧ sh_he hp' = sh_he hp ∧
  ∀ a, match sh_syms hp !! a, sh_syms hp' !! a with
       | Some s, Some s' => s' = set_size s (dts_size s')
       | None, None => True
       | _, _ => False
       end.

(** The symbols have the addresses [addr], and are sane. *)
Definition at_addr (hp : symheap) : Prop := ∀ a s, sh_syms hp !! a = Some s → dts_addr s = addr a ∧ sane s.

Lemma resize_syms_spec hp a l : at_addr hp → known hp (a :: l) → StronglySorted (λ x y, addr x <= addr y) (a :: l) →
  ∃ hp', resize_syms hp a l = Some hp' ∧ same_but_size hp hp' ∧ at_addr hp' ∧
    (∀ x, x ∉ a :: l → sh_syms hp' !! x = sh_syms hp !! x) ∧
    ∀ x y s t, x ∈ a :: l → y ∈ a :: l → x ≠ y → addr x = addr y → sh_syms hp' !! x = Some s → sh_syms hp' !! y = Some t →
      dts_size s = 0 ∨ dts_size t = 0.
Proof.
  revert hp a. induction l as [|n l IH]; intros hp a Hat Hk Hs; cbn [resize_syms].
  { exists hp. split; [done|]. split; [|split; [done|split; [done|]]].
    - split; [done|]. split; [done|]. intros x. destruct (sh_syms hp !! x) as [s|]; [by destruct s|done].
    - intros x y s t ->%list_elem_of_singleton ->%list_elem_of_singleton. done. }
  destruct (Hk a) as [s Hs1]; [by left|]. destruct (Hk n) as [s2 Hs2]; [right; by left|]. rewrite Hs1, Hs2. cbn [mbind option_bind].
  apply StronglySorted_inv in Hs as [Hs Ha]. pose proof (Forall_cons_1 _ _ _ Ha) as [Han _].
  destruct (Hat a s Hs1) as [Ea [? ? ?]], (Hat n s2 Hs2) as [En [? ? ?]].
  rewrite wrap_id by (unfold urange; lia). set (hp1 := put_sym hp a _).
  assert (∀ x, is_Some (sh_syms hp !! x) → is_Some (sh_syms hp1 !! x)) as Hdom.
  { intros x Hx. cbn. destruct (decide (a = x)) as [<-|]; [rewrite lookup_insert_eq; by eexists|by rewrite lookup_insert_ne]. }
  destruct (IH hp1 n) as (hp' & -> & (E1 & E2 & Hsb) & Hat' & Hout & Huniq); [|intros x Hx; apply Hdom, Hk; by right|done|].
  { intros x t Hx. cbn in Hx. apply lookup_insert_Some in Hx as [[<- <-]|[_ Hx]]; [|by apply Hat].
    split; [done|]. constructor; cbn; lia. }
  exists hp'. split; [done|]. split; [split; [done|split; [done|]]|split; [done|split]].
  - intros x. specialize (Hsb x). cbn in Hsb. destruct (decide (a = x)) as [<-|Hne].
    + rewrite lookup_insert_eq in Hsb. rewrite Hs1. destruct (sh_syms hp' !! a); [|done]. by rewrite Hsb.
    + by rewrite lookup_insert_ne in Hsb.
  - intros x Hx. apply not_elem_of_cons in Hx as [? Hx]. rewrite Hout by done. cbn. by rewrite lookup_insert_ne.
  - assert (∀ y u, a ∉ n :: l → y ∈ n :: l → addr a = addr y → sh_syms hp' !! a = Some u → dts_size u = 0) as Hzero.
    { intros y u Hin Hy Ey Hu. rewrite Hout in Hu by done. cbn in Hu. rewrite lookup_insert_eq in Hu. simplify_eq. cbn.
      assert (addr n <= addr y); [|lia]. apply elem_of_cons in Hy as [->|Hy]; [lia|].
      apply StronglySorted_inv in Hs as [_ Hs]. rewrite Forall_forall in Hs. by apply Hs. }
    intros x y u t Hx Hy Hne Exy Hu Ht.
    destruct (decide (x ∈ n :: l)) as [Hx'|Hx'], (decide (y ∈ n :: l)) as [Hy'|Hy']; [by apply (Huniq x y u t)| | |].
    + apply elem_of_cons in Hy as [->|?]; [|done]. right. by eapply (Hzero x).
    + apply elem_of_cons in Hx as [->|?]; [|done]. left. by eapply (Hzero y).
    + apply elem_of_cons in Hx as [->|?]; [|done]. apply elem_of_cons in Hy as [->|?]; done.
Qed.

End Resize.

Lemma same_but_size_lookup hp hp' a s' : same_but_size hp hp' → sh_syms hp' !! a = Some s' →
  ∃ s, sh_syms hp !! a = Some s ∧ s' = set_size s (dts_size s').
Proof. intros (_ & _ & H) Hs. specialize (H a). rewrite Hs in H. destruct (sh_syms hp !! a) as [s|]; [|done]. by exists s. Qed.

Lemma same_but_size_nm hp hp' a : same_but_size hp hp' → nm hp' a = nm hp a.
Proof.
  intros (E & _ & H). specialize (H a). unfold nm, name_at, string_at. rewrite E.
  destruct (sh_syms hp !! a), (sh_syms hp' !! a); try done. by rewrite H.
Qed.

Lemma same_but_size_changes hp hp' l : all_named hp → same_but_size hp hp' →
  (∀ a s, sh_syms hp' !! a = Some s → a ≠ 0 ∧ sane s) → (∀ a, a ∉ l → sh_syms hp' !! a = sh_syms hp !! a) → changes hp hp' l.
Proof.
  intros Hn Hsb Hsane Hout. constructor; try done.
  - intros a s' Hs'. destruct (same_but_size_lookup _ _ _ _ Hsb Hs') as (s & Hs & ->). cbn. destruct Hsb as (E & _ & _).
    unfold string_at. rewrite E. by apply (Hn a).
  - intros a. destruct Hsb as (_ & _ & H). specialize (H a).
    destruct (sh_syms hp !! a), (sh_syms hp' !! a); try done; split; intros [? ?]; by eexists.
  - intros a _. by apply same_but_size_nm.
  - intros a s Ha Hs. by rewrite Hout.
  - intros a s' Hs'. left. destruct (same_but_size_lookup _ _ _ _ Hsb Hs') as (s & Hs & ->). by exists s.
Qed.

(** When each symbol ends where the next one starts, no two have the same bounds. *)
Lemma resized_chooses hp ranges : known hp (dtsr_sym <$> ranges) →
  (∀ x y s t, x ∈ (dtsr_sym <$> ranges) → y ∈ (dtsr_sym <$> ranges) → x ≠ y → dts_addr s = dts_addr t →
    sh_syms hp !! x = Some s → sh_syms hp !! y = Some t → dts_size s = 0 ∨ dts_size t = 0) →
  chooses hp (at_range hp <$> ranges).
Proof.
  intros Hk Huniq a. rewrite <- locs_ranges by done. set (syms := locs _ _).
  assert (StronglySorted (λ _ _, True) syms) as Hs by (induction syms; constructor; [done|by apply Forall_true]).
  pose proof (winner_spec (λ _ _, True) a syms (λ _, I) Hs) as Hw.
  destruct (winner a syms) as [[x s]|]; [|done]. destruct Hw as (Hx & Hxc & Hp). split; [done|]. split; [done|].
  intros [y t] Hy Hyc. destruct (Hp (y, t) Hy Hyc) as [Hb|(E1 & E2 & _)]; [by left|].
  apply elem_of_locs in Hx as [Hxl Hxs], Hy as [Hyl Hys]. cbn [fst snd] in *.
  destruct (decide (x = y)) as [->|Hne]; [simplify_eq; apply preferred_refl|]. exfalso. unfold contains in *. cbn [snd] in *.
  destruct (Huniq x y s t Hxl Hyl Hne E1 Hxs Hys); lia.
Qed.

Lemma set_ranges_perm hp st ranges : ranges ≡ₚ dtst_ranges st → is_sorted st = false → tab_ok hp st →
  tab_ok hp (set_ranges st ranges (dtst_num_range_alloc st)).
Proof.
  intros Hp Hs [H1 H2 H3 H4 H5]. constructor; cbn [set_ranges dtst_ranges dtst_symlist dtst_num_range_alloc]; try done.
  - intros r. rewrite Hp. apply H2.
  - by rewrite Hp.
  - intros a y Hy Hc. destruct (H4 a y Hy Hc) as (x & Hx & ? & ?). exists x. split; [|done].
    apply elem_of_locs in Hx. apply elem_of_locs. cbn [set_ranges dtst_ranges]. by rewrite Hp.
  - intros E. unfold is_sorted in *. cbn in E. congruence.
Qed.

(** What a sort leaves alone. *)
Record same_tab (st st' : dt_symtab) : Prop := {
  st_symlist : dtst_symlist st' = dtst_symlist st;
  st_strtab : dtst_strtab st' = dtst_strtab st;
  st_packed : is_packed st' = is_packed st
}.

(** The second half of the sort. *)
Lemma sort_finish m mr hp st : all_named hp → (∀ a s, sh_syms hp !! a = Some s → sane s) → tab_ok hp st → is_sorted st = false →
  chooses hp (at_range hp <$> dtst_ranges st) → ordered (at_range hp <$> dtst_ranges st) →
  Z.of_nat (length (dtst_ranges st)) < 2 ^ 30 →
  ∃ st', ('(rc, symtab) ← dt_symtab_form_ranges m mr hp st;
          if negb (rc =? 0) then Some (hp, symtab) else Some (hp, set_flag symtab DT_ST_SORTED)) = Some (hp, st') ∧
    tab_ok hp st' ∧ same_tab st st'.
Proof.
  intros Hn Hsane Ht Hns Hch Ho Hlen. pose proof (range_syms _ _ Ht) as Hsub.
  destruct (form_ranges_spec m mr hp st) as (rc & st' & -> & Hcase); try done; [|apply Ht|].
  { intros a Ha. by apply Ht, Hsub. }
  cbn [mbind option_bind]. destruct Hcase as [(-> & ->)|(-> & ranges & n & -> & Hap & Hl & Hcov)]; [by exists st|].
  destruct (formed_tab hp st ranges n) as [[H1 H2 H3 H4 H5] Hr]; try done. eexists. split; [done|].
  destruct (set_sorted_flags (set_ranges st ranges n)) as [Hs Hp]. split; [|by constructor].
  constructor; try done. intros _. by destruct Hr.
Qed.

Lemma ordered_addr hp hp' ranges : same_but_size hp hp' → ordered (at_range hp <$> ranges) → ordered (at_range hp' <$> ranges).
Proof.
  intros Hsb. assert (∀ a, dts_addr (sym_of hp' a) = dts_addr (sym_of hp a)) as E.
  { intros a. destruct Hsb as (_ & _ & H). specialize (H a). unfold sym_of.
    destruct (sh_syms hp !! a), (sh_syms hp' !! a); try done. cbn. by rewrite H. }
  induction ranges as [|r ranges IH]; [done|]. rewrite !fmap_cons. intros [Ho Hr]%StronglySorted_inv.
  constructor; [by apply IH|]. rewrite Forall_fmap in Hr |- *. eapply Forall_impl; [exact Hr|]. intros r'. cbn. by rewrite !E.
Qed.

Lemma ordered_syms hp ranges : ordered (at_range hp <$> ranges) →
  StronglySorted (λ x y, dts_addr (sym_of hp x) <= dts_addr (sym_of hp y)) (dtsr_sym <$> ranges).
Proof.
  induction ranges as [|r ranges IH]; [constructor|]. rewrite !fmap_cons. intros [Ho Hr]%StronglySorted_inv.
  constructor; [by apply IH|]. rewrite Forall_fmap in Hr. apply Forall_fmap. exact Hr.
Qed.

(** The sizes of the sorted symbols, set from their addresses. *)
Lemma resize_tab hp st a l : all_named hp → (∀ a s, sh_syms hp !! a = Some s → a ≠ 0 ∧ sane s) → tab_ok hp st → is_sorted st = false →
  complete hp st → ordered (at_range hp <$> dtst_ranges st) → dtsr_sym <$> dtst_ranges st = a :: l →
  ∃ hp', resize_syms hp a l = Some hp' ∧ same_but_size hp hp' ∧ changes hp hp' (dtst_symlist st) ∧ tab_ok hp' st ∧
    chooses hp' (at_range hp' <$> dtst_ranges st) ∧ ordered (at_range hp' <$> dtst_ranges st).
Proof.
  intros Hn Hsane Ht Hns Hcomp Ho El. pose proof (range_syms _ _ Ht) as Hsub. set (addr x := dts_addr (sym_of hp x)).
  assert (at_addr addr hp) as Hat by (intros x s Hs; unfold addr; rewrite (sym_of_some _ _ _ Hs); split; [done|by eapply Hsane]).
  pose proof (ordered_syms _ _ Ho) as Hs. rewrite El in Hs.
  destruct (resize_syms_spec addr hp a l Hat) as (hp' & Hre & Hsb & Hat' & Hout & Huniq); [|done|].
  { rewrite <- El. intros x Hx. by apply Ht, Hsub. }
  assert (∀ x s, sh_syms hp' !! x = Some s → x ≠ 0 ∧ sane s) as Hsane'.
  { intros x s Hx. split; [|by eapply Hat']. destruct (same_but_size_lookup _ _ _ _ Hsb Hx) as (s0 & Hs0 & _). by eapply Hsane. }
  assert (changes hp hp' (dtst_symlist st)) as Hch.
  { apply same_but_size_changes; try done. intros x Hx. apply Hout. rewrite <- El. intros Hin. by apply Hx, Hsub. }
  assert (known hp' (dtst_symlist st)) as Hk by (intros x Hx; apply (ch_dom _ _ _ Hch); by apply Ht).
  exists hp'. split; [done|]. split; [done|]. split; [done|]. split; [|split; [|by eapply ordered_addr]].
  - constructor; try apply Ht; [done| |by rewrite Hns]. intros c [x s] Hx Hc. exists (x, s). split; [|split; [done|apply preferred_refl]].
    apply elem_of_locs in Hx as [Hx Hxs]. cbn in *. apply elem_of_locs. cbn. split; [|done].
    destruct (decide (x ∈ a :: l)) as [Hin|Hnin]; [by rewrite El|]. eapply Hcomp; [done|by rewrite <- (Hout x Hnin)|].
    unfold contains in Hc. lia.
  - apply resized_chooses; [by intros x Hx; apply Hk, Hsub|]. rewrite El. intros x y s t Hx Hy Hne E Hxs Hyt.
    apply (Huniq x y s t); try done. destruct (Hat' x s Hxs) as [<- _], (Hat' y t Hyt) as [<- _]. done.
Qed.

Lemma names_ok_sort hp hp' st st' : same_but_size hp hp' → same_tab st st' → names_ok hp st → names_ok hp' st'.
Proof.
  intros Hsb [E1 E2 E3] [H1 H2 H3 H4].
  assert (∀ a s', sh_syms hp' !! a = Some s' → ∃ s, sh_syms hp !! a = Some s ∧ dts_name s' = dts_name s) as Hb.
  { intros a s' Hs'. destruct (same_but_size_lookup _ _ _ _ Hsb Hs') as (s & Hs & ->). by exists s. }
  constructor; rewrite ?E1, ?E2, ?E3; try done.
  - intros a s Hp Ha (t & Ht & ->)%Hb. by eapply H2.
  - intros a s a' s' Hp Ha (t & Ht & ->)%Hb (t' & Ht' & ->)%Hb Hne. by eapply H3.
  - intros a s Hp Ha (t & Ht & ->)%Hb. by eapply H4.
Qed.

Lemma same_but_size_refl hp : same_but_size hp hp.
Proof. split; [done|]. split; [done|]. intros a. destruct (sh_syms hp !! a) as [s|]; [by destruct s|done]. Qed.

(** Sorting always returns; the table is sorted unless memory runs out. *)
Lemma sort_spec w k st m mr flag : wf w → w_tabs w !! k = Some st → Z.of_nat (length (dtst_ranges st)) < 2 ^ 30 →
  (flag = true → complete (w_heap w) st) →
  ∃ hp' st', dt_symtab_sort m mr (w_heap w) st flag = Some (hp', st') ∧ same_but_size (w_heap w) hp' ∧
    changes (w_heap w) hp' (dtst_symlist st) ∧ (flag = false → hp' = w_heap w) ∧ tab_ok hp' st' ∧ same_tab st st' ∧ names_ok hp' st'.
Proof.
  intros Hw Hk Hlen Hcomp. destruct (wf_tabs _ Hw k st Hk) as [Ht Hns]. set (hp := w_heap w) in *.
  assert (changes hp hp (dtst_symlist st)) as Hch0 by (apply changes_links; try done; apply Hw).
  unfold dt_symtab_sort. fold (is_sorted st). destruct (is_sorted st) eqn:Hsd.
  { exists hp, st. split; [done|]. by split; [apply same_but_size_refl|]. }
  pose proof (range_syms _ _ Ht) as Hsub.
  destruct (sort_ranges_spec hp (dtst_ranges st)) as (ranges & -> & Hp & Hs); [apply Hw|by intros a Ha; apply Ht, Hsub|].
  cbn [mbind option_bind]. set (st1 := set_ranges st ranges _). pose proof (set_ranges_perm _ _ _ Hp Hsd Ht) as Ht1. fold st1 in Ht1.
  assert (∃ hp', match dtsr_sym <$> ranges with sym :: syms => if flag then resize_syms hp sym syms else Some hp | [] => Some hp end = Some hp' ∧
    same_but_size hp hp' ∧ changes hp hp' (dtst_symlist st) ∧ (flag = false → hp' = hp) ∧ tab_ok hp' st1 ∧
    chooses hp' (at_range hp' <$> dtst_ranges st1) ∧ ordered (at_range hp' <$> dtst_ranges st1)) as (hp' & -> & Hsb & Hch & Hfl & Ht2 & Hcs & Ho).
  { assert (chooses hp (at_range hp <$> ranges) ∧ ordered (at_range hp <$> ranges)) as [? Ho] by (split; [by apply sorted_chooses|by eapply tie_ordered]).
    assert (∃ hp', Some hp = Some hp' ∧ same_but_size hp hp' ∧ changes hp hp' (dtst_symlist st) ∧ (flag = false → hp' = hp) ∧ tab_ok hp' st1 ∧
      chooses hp' (at_range hp' <$> dtst_ranges st1) ∧ ordered (at_range hp' <$> dtst_ranges st1)) as Hnone.
    { exists hp. split; [done|]. by split; [apply same_but_size_refl|]. }
    destruct (dtsr_sym <$> ranges) as [|a l] eqn:El; [done|]. destruct flag; [|done].
    destruct (resize_tab hp st1 a l) as (hp' & ? & ? & ? & ? & ? & ?); try done; [apply Hw|apply Hw| |by exists hp'].
    intros x s Hx Hxs Hsz. cbn [st1 set_ranges dtst_ranges]. rewrite Hp. by eapply Hcomp. }
  cbn [mbind option_bind].
  destruct (sort_finish m mr hp' st1) as (st' & -> & Ht' & Hst); try done; [apply Hch|intros a s Hs1; by eapply Hch|by rewrite <- Hp in Hlen|].
  exists hp', st'. assert (same_tab st st') as Hst' by (destruct Hst; by constructor).
  split; [done|]. repeat (split; [done|]). by eapply names_ok_sort.
Qed.

Lemma sort_wf w k m mr flag : wf w → op_ok w (Sort k m mr flag) → ∃ w', run_op w (Sort k m mr flag) = Some w' ∧ wf w'.
Proof.
  intros Hw (st & Hk & Hlen & Hcomp). cbn [run_op]. rewrite Hk. cbn [mbind option_bind].
  destruct (sort_spec w k st m mr flag Hw Hk Hlen Hcomp) as (hp' & st' & -> & Hsb & Hch & _ & Ht & Hst & Hns). cbn [mbind option_bind].
  eexists. split; [done|]. pose proof (wf_kern _ Hw) as Hkern. destruct (w_kern w) as [kt|]; [|by rewrite Hkern in Hk].
  eapply wf_same; try done; [by apply Hst|]. eapply kern_table_agree; [apply Hw|apply Hch| |exact Hkern].
  intros a Ha. split; [by apply same_but_size_nm|]. by destruct Hsb as (_ & -> & _).
Qed.

End SymSort.
