(* ===== verification/SymPack.v ===== *)
(** * Packing the names of symbol tables, and destroying tables *)
From S2P Require Import Prelude CLib CSort DtList DtString Htab SymTab SymRange SymWorld SymInsert SymSort.
From stdpp Require Import sorting.
#[local] Open Scope Z_scope.
Import DtString Htab SymTab SymRange SymWorld SymInsert SymSort.

Module SymPack.

(** ** Strings in a block *)

(** A string is decided by the bytes up to its NUL. *)
Lemma cstr_prefix buf buf' s k : cstr buf = Some s → (length s < k)%nat → take k buf' = take k buf → cstr buf' = Some s.
Proof.
  revert buf' s k. induction buf as [|c buf IH]; intros buf' s [|k] Hs Hk Ht; try done; [lia|].
  destruct buf' as [|c' buf']; [done|]. cbn in Hs, Ht |- *. injection Ht as -> Ht.
  destruct (c =? 0); [done|]. apply fmap_Some in Hs as (s' & Hs & ->). cbn in Hk.
  by rewrite (IH buf' s' k Hs ltac:(lia) Ht).
Qed.

Lemma memcpy_name b off n : (off + (length n + 1) <= length b)%nat →
  memcpy b off (n ++ [0]) (length n + 1) = Some (take off b ++ (n ++ [0]) ++ drop (off + (length n + 1)) b).
Proof.
  intros Hl. unfold memcpy. rewrite decide_True by (rewrite length_app; cbn; lia).
  by rewrite (take_ge (n ++ [0])) by (rewrite length_app; cbn; lia).
Qed.

Section Written.
Context (b n : list Z) (off : nat).
Let b' := take off b ++ (n ++ [0]) ++ drop (off + (length n + 1)) b.

Lemma written_string : (off + (length n + 1) <= length b)%nat → cstring n → cstr (drop off b') = Some n.
Proof using Type.
  intros Hl Hn. unfold b'. rewrite drop_app_length' by (rewrite length_take; lia). rewrite <- app_assoc. by apply cstr_app.
Qed.

Lemma written_before o s : (off <= length b)%nat → cstr (drop o b) = Some s → (o + length s + 1 <= off)%nat → cstr (drop o b') = Some s.
Proof using Type.
  intros Hl Hs Ho. eapply (cstr_prefix _ _ _ (length s + 1)); [exact Hs|lia|]. unfold b'.
  rewrite !take_drop_commute, take_app_le by (rewrite length_take; lia). by rewrite take_take, Nat.min_l by lia.
Qed.

Lemma written_length : (off + (length n + 1) <= length b)%nat → length b' = length b.
Proof using Type. intros Hl. unfold b'. rewrite !length_app, length_take, length_drop. cbn. lia. Qed.

End Written.

(** ** The loop *)

(** The symbols still to be packed have names of their own; the names that have
    been packed end by [offset]. *)
Record packing (hp : symheap) (tab : Z) (l : list Z) (offset : nat) : Prop := {
  pk_named : all_named hp;
  pk_nodup : NoDup l;
  pk_known : known hp l;
  pk_own a s : a ∈ l → sh_syms hp !! a = Some s → (dts_name s).2 = 0 ∧ (dts_name s).1 ≠ tab;
  pk_alone a s a' s' : a ∈ l → sh_syms hp !! a = Some s → sh_syms hp !! a' = Some s' → a' ≠ a →
    (dts_name s').1 ≠ (dts_name s).1;
  pk_low a s : sh_syms hp !! a = Some s → (dts_name s).1 = tab →
    0 <= (dts_name s).2 ∧ (Z.to_nat (dts_name s).2 + length (nm hp a) + 1 <= offset)%nat;
  pk_room : ∃ b, sh_strs hp !! tab = Some b ∧ Z.of_nat offset + bytes hp l <= Z.of_nat (length b)
}.

(** The names of the symbols [l] move to the block [tab]. *)
Record packed_into (hp hp' : symheap) (tab : Z) (l : list Z) : Prop := {
  pi_named : all_named hp';
  pi_he : sh_he hp' = sh_he hp;
  pi_dom a : is_Some (sh_syms hp' !! a) ↔ is_Some (sh_syms hp !! a);
  pi_nm a : is_Some (sh_syms hp !! a) → nm hp' a = nm hp a;
  pi_same a s s' : sh_syms hp !! a = Some s → sh_syms hp' !! a = Some s' → same s s';
  pi_other a : a ∉ l → sh_syms hp' !! a = sh_syms hp !! a;
  pi_tab a s : a ∈ l → sh_syms hp' !! a = Some s → (dts_name s).1 = tab
}.

Lemma packed_into_nil hp tab : all_named hp → packed_into hp hp tab [].
Proof. intros Hn. constructor; try done; [intros; by simplify_eq|by intros a s ?%elem_of_nil]. Qed.

Lemma packed_into_trans hp1 hp2 hp3 tab a l : packed_into hp1 hp2 tab [a] → packed_into hp2 hp3 tab l →
  packed_into hp1 hp3 tab (a :: l).
Proof.
  intros H1 H2. constructor.
  - apply H2.
  - by rewrite (pi_he _ _ _ _ H2), (pi_he _ _ _ _ H1).
  - intros x. by rewrite (pi_dom _ _ _ _ H2), (pi_dom _ _ _ _ H1).
  - intros x Hx. rewrite (pi_nm _ _ _ _ H2); [by apply (pi_nm _ _ _ _ H1)|by apply (pi_dom _ _ _ _ H1)].
  - intros x s s' Hs Hs'. destruct (proj2 (pi_dom _ _ _ _ H1 x)) as [t Ht]; [by eexists|].
    destruct (pi_same _ _ _ _ H1 x s t Hs Ht), (pi_same _ _ _ _ H2 x t s' Ht Hs'). constructor; congruence.
  - intros x [? ?]%not_elem_of_cons. rewrite (pi_other _ _ _ _ H2), (pi_other _ _ _ _ H1); [done|set_solver|done].
  - intros x s Hx Hs. destruct (decide (x ∈ l)) as [Hl|Hl]; [by eapply H2|]. rewrite (pi_other _ _ _ _ H2) in Hs by done.
    apply (pi_tab _ _ _ _ H1 x); [set_solver|done].
Qed.

Lemma bytes_nm hp hp' l : (∀ a, a ∈ l → nm hp' a = nm hp a) → bytes hp' l = bytes hp l.
Proof. induction l as [|a l IH]; intros H; [done|]. cbn [bytes]. rewrite H by by left. rewrite IH; [done|]. intros; apply H; by right. Qed.

Lemma bytes_nonneg hp l : 0 <= bytes hp l.
Proof. induction l as [|a l IH]; cbn [bytes]; lia. Qed.

(** One symbol. *)
Definition move_name (s : dt_symbol) (tab offset : Z) : dt_symbol :=
  mk_symbol (tab, offset) (dts_addr s) (dts_size s) (dts_info s) (dts_hval s) (dts_dmp s).

Section Step.
Context (hp : symheap) (tab a : Z) (l : list Z) (offset : nat) (s : dt_symbol) (b : list Z).
Context (Hpk : packing hp tab (a :: l) offset) (Hs : sh_syms hp !! a = Some s) (Hb : sh_strs hp !! tab = Some b).

Let n := nm hp a.
Let b' := take offset b ++ (n ++ [0]) ++ drop (offset + (length n + 1)) b.
Let hp1 : symheap :=
  mk_symheap (<[a := move_name s tab (Z.of_nat offset)]> (sh_syms hp)) (delete (dts_name s).1 (<[tab := b']> (sh_strs hp))) (sh_he hp).

Lemma step_room : (offset + (length n + 1) <= length b)%nat.
Proof using Hpk Hb.
  destruct (pk_room _ _ _ _ Hpk) as (b0 & Hb0 & Hr). simplify_eq. cbn [bytes] in Hr. fold n in Hr. pose proof (bytes_nonneg hp l). lia.
Qed.

(** The strings of the other symbols are where they were. *)
Lemma step_string x t m : x ≠ a → sh_syms hp !! x = Some t → string_at hp (dts_name t) = Some m → string_at hp1 (dts_name t) = Some m.
Proof using Hpk Hs Hb.
  intros Hne Ht Hm. assert ((dts_name t).1 ≠ (dts_name s).1) as Hal by (eapply (pk_alone _ _ _ _ Hpk a); [by left|done..]).
  unfold string_at in *. cbn. rewrite lookup_delete_ne by done.
  destruct (decide ((dts_name t).1 = tab)) as [E|E]; [|by rewrite lookup_insert_ne].
  rewrite E, lookup_insert_eq. cbn. rewrite E, Hb in Hm. cbn in Hm.
  destruct (pk_low _ _ _ _ Hpk x t Ht E) as [H0 Hlow]. rewrite (proj2 (Z.leb_le _ _)) in * by done.
  assert (nm hp x = m) as En. { unfold nm, name_at. rewrite Ht. cbn. unfold string_at. rewrite E, Hb. cbn. by rewrite (proj2 (Z.leb_le _ _)), Hm. }
  pose proof step_room. eapply written_before; [lia|done|]. rewrite En in Hlow. lia.
Qed.

Lemma step_new : string_at hp1 (tab, Z.of_nat offset) = Some n ∧ cstring n.
Proof using Hpk Hs Hb.
  destruct (pk_own _ _ _ _ Hpk a s ltac:(by left) Hs) as [_ Hnt].
  assert (cstring n) as Hc by (apply nm_cstring, Hpk). split; [|done].
  unfold string_at. cbn. rewrite lookup_delete_ne, lookup_insert_eq by done. cbn.
  rewrite (proj2 (Z.leb_le _ _)), Nat2Z.id by lia. apply written_string; [apply step_room|done].
Qed.

Lemma step_into : packed_into hp hp1 tab [a].
Proof using Hpk Hs Hb.
  destruct step_new as [Hnew Hc]. pose proof (pk_named _ _ _ _ Hpk) as Hn. constructor.
  - intros x t Ht. cbn in Ht. apply lookup_insert_Some in Ht as [[<- <-]|[Hne Ht]].
    + exists n. split; [done|]. split; [done|]. cbn. destruct (Hn a s Hs) as (m & Hm & _ & Hh).
      assert (n = m) as -> by (unfold n, nm, name_at; rewrite Hs; cbn; by rewrite Hm). done.
    + destruct (Hn x t Ht) as (m & Hm & ? & ?). exists m. split; [|done]. by eapply step_string.
  - done.
  - intros x. cbn. destruct (decide (x = a)) as [->|]; [|by rewrite lookup_insert_ne]. rewrite lookup_insert_eq, Hs.
    split; intros _; by eexists.
  - intros x [t Ht]. unfold nm at 1, name_at. cbn. destruct (decide (x = a)) as [->|].
    + rewrite lookup_insert_eq. cbn. by rewrite Hnew.
    + rewrite lookup_insert_ne, Ht by done. cbn. destruct (Hn x t Ht) as (m & Hm & _). erewrite step_string; [|done..].
      unfold nm, name_at. rewrite Ht. cbn. by rewrite Hm.
  - intros x t t' Ht Ht'. cbn in Ht'. apply lookup_insert_Some in Ht' as [[<- <-]|[_ ?]]; simplify_eq; by constructor.
  - intros x [Hx _]%not_elem_of_cons. cbn. by rewrite lookup_insert_ne.
  - intros x t ->%list_elem_of_singleton Ht. cbn in Ht. rewrite lookup_insert_eq in Ht. by simplify_eq.
Qed.

Lemma step_packing : packing hp1 tab l (offset + (length n + 1)).
Proof using Hpk Hs Hb.
  pose proof step_into as Hi. destruct Hpk as [Hn Hnd Hk Hown Hal Hlow (b0 & Hb0 & Hr)]. apply NoDup_cons in Hnd as [Hal' Hnd].
  assert (∀ x t, x ≠ a → sh_syms hp1 !! x = Some t → sh_syms hp !! x = Some t) as Hback by (intros x t Hne Ht; cbn in Ht; by rewrite lookup_insert_ne in Ht).
  assert (∀ x, x ∈ l → x ≠ a) as Hne by (intros x Hx ->; done).
  constructor; [apply Hi|done|..].
  - intros x Hx. apply Hi, Hk. by right.
  - intros x t Hx Ht. eapply Hown; [by right|]. apply Hback; [by apply Hne|done].
  - intros x t x' t' Hx Ht Ht' Hxx'. pose proof (Hback x t (Hne x Hx) Ht) as Ht0. destruct (decide (x' = a)) as [->|Hxa].
    + cbn in Ht'. rewrite lookup_insert_eq in Ht'. simplify_eq. cbn. symmetry. eapply Hown; [by right|done].
    + eapply Hal; [by right|done|by apply Hback|done].
  - intros x t Ht Et. destruct (decide (x = a)) as [->|Hxa].
    + cbn in Ht. rewrite lookup_insert_eq in Ht. injection Ht as <-. cbn [move_name dts_name snd]. rewrite (pi_nm _ _ _ _ Hi a) by by eexists. fold n. lia.
    + pose proof (Hback x t Hxa Ht) as Ht0. destruct (Hlow x t Ht0 Et). rewrite (pi_nm _ _ _ _ Hi x) by by eexists. lia.
  - simplify_eq. exists b'. destruct (Hown a s ltac:(by left) Hs) as [_ Hnt]. split; [cbn; by rewrite lookup_delete_ne, lookup_insert_eq|].
    unfold b'. rewrite written_length by apply step_room. rewrite (bytes_nm hp hp1); [cbn [bytes] in Hr; fold n in Hr; lia|].
    intros x Hx. apply (pi_nm _ _ _ _ Hi), Hk. by right.
Qed.

End Step.

Lemma pack_loop_spec hp tab l offset : packing hp tab l offset →
  ∃ hp', pack_loop hp tab l (Z.of_nat offset) = Some hp' ∧ packed_into hp hp' tab l.
Proof.
  revert hp offset. induction l as [|a l IH]; intros hp offset Hpk; [exists hp; split; [done|]; apply packed_into_nil, Hpk|].
  destruct (pk_known _ _ _ _ Hpk a) as [s Hs]; [by left|]. destruct (pk_room _ _ _ _ Hpk) as (b & Hb & _).
  destruct (all_named_at _ _ _ (pk_named _ _ _ _ Hpk) Hs) as (n & _ & Hst & Hnm & Hc & _).
  destruct (pk_own _ _ _ _ Hpk a s ltac:(by left) Hs) as [H0 Hnt].
  pose proof (step_room hp tab a l offset b Hpk Hb) as Hroom. rewrite Hnm in Hroom.
  destruct (IH _ _ (step_packing hp tab a l offset s b Hpk Hs Hb)) as (hp' & Hloop & Hinto). rewrite Hnm in Hloop.
  exists hp'. split; [|eapply packed_into_trans; [by eapply step_into|exact Hinto]].
  cbn [pack_loop]. rewrite Hs. cbn [mbind option_bind]. rewrite Hst. cbn [mbind option_bind]. rewrite Hb. cbn [mbind option_bind].
  rewrite Nat2Z.id. replace (Z.to_nat (Z.of_nat (length n) + 1)) with (length n + 1)%nat by lia.
  rewrite memcpy_name by done. cbn [mbind option_bind]. unfold free_str, put_str. cbn [sh_strs sh_syms sh_he].
  rewrite lookup_insert_ne by done. destruct (named_block _ _ _ (pk_named _ _ _ _ Hpk) Hs) as [bs ->]. cbn [mbind option_bind].
  rewrite H0. cbn [Z.eqb mbind option_bind]. unfold put_sym. cbn [sh_strs sh_syms sh_he].
  replace (Z.of_nat offset + (Z.of_nat (length n) + 1)) with (Z.of_nat (offset + (length n + 1))) by lia. exact Hloop.
Qed.

(** ** Packing a table *)

Lemma names_size_spec hp l : all_named hp → known hp l → bytes hp l < 2 ^ 64 → names_size hp l = Some (bytes hp l).
Proof.
  intros Hn. induction l as [|a l IH]; intros Hk Hb; [done|]. cbn [bytes names_size] in *. pose proof (bytes_nonneg hp l).
  destruct (Hk a) as [s Hs]; [by left|]. destruct (all_named_at _ _ _ Hn Hs) as (n & -> & _ & Hnm & _). rewrite Hnm in *. cbn [mbind option_bind].
  rewrite IH; [|by intros x Hx; apply Hk; right|lia]. cbn [mbind option_bind]. by rewrite wrap_id by (unfold urange; lia).
Qed.

(** A new block changes no name. *)
Lemma put_str_string hp b bs p : sh_strs hp !! b = None → string_at hp p ≠ None → string_at (put_str hp b bs) p = string_at hp p.
Proof.
  intros Hb Hp. unfold string_at in *. cbn. rewrite lookup_insert_ne; [done|]. intros E. by rewrite <- E, Hb in Hp.
Qed.

Lemma put_str_named hp b bs : sh_strs hp !! b = None → all_named hp → all_named (put_str hp b bs).
Proof. intros Hb Hn a s Hs. destruct (Hn a s Hs) as (n & E & ? & ?). exists n. rewrite put_str_string; [done|done|by rewrite E]. Qed.

Lemma put_str_nm hp b bs a : sh_strs hp !! b = None → all_named hp → nm (put_str hp b bs) a = nm hp a.
Proof.
  intros Hb Hn. unfold nm, name_at. cbn. destruct (sh_syms hp !! a) as [s|] eqn:Hs; [|done]. cbn.
  destruct (Hn a s Hs) as (n & E & _). by rewrite put_str_string by (done || by rewrite E).
Qed.

(** A table that has no block yet can be packed. *)
Lemma start_packing hp st tab : all_named hp → tab_ok hp st → names_ok hp st → NoDup (dtst_symlist st) → is_packed st = false →
  sh_strs hp !! tab = None → packing (put_str hp tab (replicate (Z.to_nat (bytes hp (dtst_symlist st))) 0)) tab (dtst_symlist st) 0.
Proof.
  intros Hn Ht [H1 H2 H3 H4] Hnd Hp Htab.
  assert (∀ a s, sh_syms hp !! a = Some s → (dts_name s).1 ≠ tab) as Hne.
  { intros a s Hs E. destruct (named_block _ _ _ Hn Hs) as [b Hb]. rewrite E in Hb. congruence. }
  constructor; cbn [put_str sh_syms]; [by apply put_str_named|done|apply Ht| | | |].
  - intros a s Ha Hs. split; [by eapply H2|by eapply Hne].
  - intros a s a' s' Ha Hs Hs' Hx. by eapply H3.
  - intros a s Hs E. by destruct (Hne a s Hs).
  - eexists. split; [cbn; by rewrite lookup_insert_eq|]. rewrite length_replicate.
    rewrite (bytes_nm hp); [pose proof (bytes_nonneg hp (dtst_symlist st)); lia|]. intros a _. by apply put_str_nm.
Qed.

Lemma packed_agree hp hp' tab l l' : packed_into hp hp' tab l → known hp l' → agree hp hp' l'.
Proof.
  intros Hi Hk a Ha. destruct (Hk a Ha) as [s Hs]. destruct (proj2 (pi_dom _ _ _ _ Hi a)) as [s' Hs']; [by eexists|].
  exists s, s'. split_and!; try done; [by eapply pi_same|by apply (pi_nm _ _ _ _ Hi); eexists].
Qed.

Lemma packed_changes hp hp' tab l bs : all_named hp → (∀ a s, sh_syms hp !! a = Some s → a ≠ 0 ∧ sane s) →
  sh_strs hp !! tab = None → packed_into (put_str hp tab bs) hp' tab l → changes hp hp' l.
Proof.
  intros Hn Hs Htab Hi. constructor.
  - apply Hi.
  - intros a s' Hs'. destruct (proj1 (pi_dom _ _ _ _ Hi a)) as [s Es]; [by eexists|].
    destruct (pi_same _ _ _ _ Hi a s s' Es Hs') as [E1 E2 _ _]. destruct (Hs a s Es) as [? []]. split; [done|]. constructor; congruence.
  - intros a. apply (pi_dom _ _ _ _ Hi).
  - intros a Ha. rewrite (pi_nm _ _ _ _ Hi) by done. by apply put_str_nm.
  - intros a s Ha Es. by rewrite (pi_other _ _ _ _ Hi).
  - intros a s' Hs'. destruct (decide (a ∈ l)) as [Ha|Ha].
    + right. by rewrite (pi_tab _ _ _ _ Hi a s').
    + left. rewrite (pi_other _ _ _ _ Hi) in Hs' by done. by exists s'.
Qed.

Lemma pack_wf w k m mr mt : wf w → op_ok w (Pack k m mr mt) → ∃ w', run_op w (Pack k m mr mt) = Some w' ∧ wf w'.
Proof.
  intros Hw (st & Hk & Hlen & Hbytes & Hmt). cbn [run_op]. rewrite Hk. cbn [mbind option_bind]. unfold dt_symtab_pack.
  fold (is_packed st). destruct (is_packed st) eqn:Hpk.
  { eexists. split; [done|]. cbn. rewrite list_insert_id by done. by destruct w. }
  destruct (sort_spec w k st m mr false Hw Hk Hlen) as (hp' & st' & -> & _ & _ & Hhp & Ht & [E1 E2 E3] & Hns); [done|].
  specialize (Hhp eq_refl). subst hp'. cbn [mbind option_bind]. set (hp := w_heap w) in *. pose proof (wf_named _ Hw) as Hn. fold hp in Hn.
  rewrite names_size_spec; [|done|apply Ht|by rewrite E1]. cbn [mbind option_bind].
  pose proof (wf_kern _ Hw) as Hkern. destruct (w_kern w) as [kt|]; [|by rewrite Hkern in Hk]. destruct mt as [tab|]; cbn [mbind option_bind].
  - destruct (Hmt tab eq_refl) as [Htab0 Htab]. fold hp in Htab.
    assert (NoDup (dtst_symlist st')) as Hnd.
    { rewrite E1. pose proof (wf_nodup _ Hw) as Hnd. rewrite <- (wf_parts _ Hw) in Hnd. eapply nodup_concat_part; [exact Hnd|]. by rewrite list_lookup_fmap, Hk. }
    destruct (pack_loop_spec _ _ _ _ (start_packing hp st' tab Hn Ht Hns Hnd (eq_trans E3 Hpk) Htab)) as (hp' & Hloop & Hi).
    change (Z.of_nat 0) with 0 in Hloop. rewrite Hloop. cbn [mbind option_bind]. eexists. split; [done|].
    pose proof (packed_changes _ _ _ _ _ Hn (wf_sane _ Hw) Htab Hi) as Hch.
    assert (agree hp hp' (dtst_symlist st')) as Hag.
    { intros a Ha. destruct (packed_agree _ _ _ _ _ Hi (to_known _ _ Ht) a Ha) as (s & s' & ? & ? & ? & E). exists s, s'. rewrite E, put_str_nm by done. done. }
    destruct (set_packed_flags (set_strtab st' tab)) as [Hp Hso].
    eapply wf_same; try done; [by rewrite <- E1| | |].
    + eapply kern_table_agree; [exact Hn|apply Hi| |exact Hkern]. intros a Ha. split; [by apply (ch_nm _ _ _ Hch), Hw|by rewrite (pi_he _ _ _ _ Hi)].
    + apply (tab_ok_agree _ _ _ Hag) in Ht. destruct Ht as [? ? ? ? Hr]. constructor; try done. intros Hs. rewrite Hso in Hs. by destruct (Hr Hs).
    + constructor; rewrite ?Hp; try done. intros a s _ Ha Hs. split; [by eapply pi_tab|done].
  - eexists. split; [done|]. eapply wf_same; try done; [apply changes_links; try done; apply Hw| |].
    + destruct Ht as [? ? ? ? Hr]. constructor; try done. intros Hs. by destruct (Hr Hs).
    + destruct Hns as [H1 H2 H3 H4]. constructor; try done. intros a s Hp. change (is_packed (set_strtab st' 0)) with (is_packed st') in Hp. congruence.
Qed.

(** Any calls, with any outcome of the allocations, lead from no symbols to a
    well-formed world. *)
Lemma op_wf w o : wf w → op_ok w o → ∃ w', run_op w o = Some w' ∧ wf w'.
Proof. destruct o; intros Hw Ho; [by apply create_wf|by apply insert_wf|by apply sort_wf|by apply pack_wf]. Qed.

Lemma world0_wf : wf world0.
Proof.
  constructor; cbn; try done.
  - intros a. rewrite elem_of_nil, lookup_empty. split; [done|by intros [? ?]].
  - constructor.
Qed.

Lemma run_wf w os : wf w → ops_ok w os → ∃ w', run_ops w os = Some w' ∧ wf w'.
Proof.
  revert w. induction os as [|o os IH]; intros w Hw Hos; [by exists w|]. destruct Hos as [Ho Hos].
  destruct (op_wf w o Hw Ho) as (w' & E & Hw'). cbn [run_ops]. rewrite E. cbn [mbind option_bind]. by apply IH, Hos.
Qed.

End SymPack.
