(* ===== verification/SymLookup.v ===== *)
(** * Looking up symbols, and destroying symbol tables *)
From S2P Require Import Prelude CLib CSort DtList DtString Htab SymTab SymRange SymWorld SymInsert SymSort SymPack.
From stdpp Require Import sorting.
#[local] Open Scope Z_scope.
Import DtString Htab SymTab SymRange SymWorld SymInsert SymSort SymPack.

Module SymLookup.

(** ** By address *)

Lemma by_addr_spec hp st a : tab_ok hp st → (∀ x s, sh_syms hp !! x = Some s → x ≠ 0) → is_sorted st = true →
  ∃ r, dt_symbol_by_addr st a = Some r ∧
    (r ≠ 0 ∧ narrowest hp (dtst_symlist st) a r ∨
     r = 0 ∧ ∀ y, y ∈ locs hp (dtst_symlist st) → contains y.2 a = false).
Proof.
  intros Ht H0 Hs. destruct (to_sorted _ _ Ht Hs) as [[hi Hap] Hn Hf].
  assert ((∀ r, r ∈ dtst_ranges st → dt_symbol_search_cmp a r ≠ 0) → ∀ y, y ∈ locs hp (dtst_symlist st) → contains y.2 a = false) as Hnone.
  { intros Hno y Hy. destruct (contains y.2 a) eqn:Hc; [|done]. destruct (Hf a y Hy Hc) as (x & r & Hr & Hra & _).
    by destruct (Hno r Hr); apply search_zero. }
  unfold dt_symbol_by_addr. destruct (Z.eqb_spec (dtst_num_range_alloc st) 0) as [Ez|_].
  { exists 0. split; [done|]. right. split; [done|]. apply Hnone. pose proof (to_alloc _ _ Ht) as Hal.
    destruct (dtst_ranges st); [by intros r ?%elem_of_nil|cbn in Hal; lia]. }
  unfold is_sorted in Hs. apply negb_true_iff in Hs. rewrite Hs.
  destruct (bsearch_spec (dt_symbol_search_cmp a) _ (search_partitioned _ _ a Hap)) as (r & -> & Hr). cbn [mbind option_bind].
  destruct r as [r|]; eexists; (split; [done|]); [left|right; split; [done|by apply Hnone]].
  destruct Hr as [Hin Hz%search_zero]. assert (narrowest hp (dtst_symlist st) a (dtsr_sym r)) as Hnar by (apply Hn; by exists r).
  split; [|done]. destruct Hnar as (s & Hin' & _). apply elem_of_locs in Hin' as [_ Hs']. by eapply H0.
Qed.

(** ** By name *)

Section Name.
Context (w : world) (kt : dt_htab) (sp : Z) (name : list Z) (Hw : wf w) (Hkt : w_kern w = Some kt).
Context (Hsp : sh_syms (w_heap w) !! sp = None) (Hstr : sh_strs (w_heap w) !! sp = None) (Hname : cstring name).

(** The symbols of that name, latest first. *)
Definition homonyms : list Z := filter (λ a, nm (w_heap w) a = name) (w_hist w).

Lemma hist_not_sp a : a ∈ w_hist w → a ≠ sp.
Proof using Hw Hsp. intros [s Hs]%(wf_hist _ Hw) ->. congruence. Qed.

Lemma template_spec : let hp := template (w_heap w) sp name in
  all_named hp ∧ nm hp sp = name ∧ ∀ a, a ∈ w_hist w → nm hp a = nm (w_heap w) a.
Proof using Hw Hsp Hstr Hname.
  pose proof (wf_named _ Hw) as Hn. set (hp := template _ _ _).
  assert (string_at hp (sp, 0) = Some name) as Hs.
  { unfold string_at. cbn. rewrite lookup_insert_eq. cbn. by apply cstr_app. }
  assert (∀ p, string_at (w_heap w) p ≠ None → string_at hp p = string_at (w_heap w) p) as Hold by (intros p; by apply put_str_string).
  split; [|split].
  - intros a s Ha. cbn in Ha. apply lookup_insert_Some in Ha as [[<- <-]|[_ Ha]]; [exists name; split; [done|by split; [|left]]|].
    destruct (Hn a s Ha) as (n & E & ? & ?). exists n. by rewrite Hold, E by by rewrite E.
  - unfold nm, name_at. cbn. rewrite lookup_insert_eq. cbn. by rewrite Hs.
  - intros a Ha. pose proof (hist_not_sp a Ha). apply (wf_hist _ Hw) in Ha as [s Ha]. unfold nm, name_at. cbn.
    rewrite lookup_insert_ne, Ha by done. cbn. destruct (Hn a s Ha) as (n & E & _). by rewrite Hold, E by by rewrite E.
Qed.

Lemma by_name_spec : dt_symbol_by_name (w_heap w) kt sp name = Some (first homonyms 0).
Proof using Hw Hkt Hsp Hstr Hname.
  destruct template_spec as (Hn & Hnm & Hold). set (hp := template _ _ _) in *. unfold dt_symbol_by_name. fold hp.
  pose proof (wf_kern _ Hw) as Ht. rewrite Hkt in Ht.
  rewrite (kern_lookup_spec hp kt (w_hist w) Hn).
  - f_equal. f_equal. apply filter_on. intros a Ha. by rewrite Hnm, Hold.
  - eapply kern_table_agree; [apply Hw|done| |exact Ht]. intros a Ha. split; [by apply Hold|done].
  - intros a Ha. cbn. rewrite lookup_insert_ne; [by apply Hw|]. by apply not_eq_sym, hist_not_sp.
  - cbn. rewrite lookup_insert_eq. by eexists.
Qed.

(** The symbols of the name are linked, in this order. *)
Lemma homonyms_linked : dll (sh_he (w_heap w)) 0 homonyms 0.
Proof using Hw Hkt.
  pose proof (wf_kern _ Hw) as Ht. rewrite Hkt in Ht. pose proof (wf_named _ Hw) as Hn.
  destruct homonyms as [|a l] eqn:E; [done|]. assert (a ∈ homonyms) as Ha by (rewrite E; by left).
  apply list_elem_of_filter in Ha as [Hna Ha]. destruct (Ht (symtab_keys _ Hn)) as [G Hinv].
  destruct (inv_holds _ _ _ _ Hinv) as [Hok _ _ Heq Hin _]. destruct (Hin a Ha) as (p & Hp & Hap).
  assert (p.2 = a :: l) as Ep.
  { rewrite (Heq p a Hp Hap), <- E. unfold equals, homonyms. apply filter_on. intros x _. rewrite <- Hna. by apply cmp_zero. }
  destruct (Hok p Hp) as [_ (_ & Hdll & _) _ _ _]. by rewrite Ep in Hdll.
Qed.

Lemma by_module_spec dmp l b fuel : dll (sh_he (w_heap w)) b l 0 → (∀ a, a ∈ l → a ∈ w_hist w) → (length l <= fuel)%nat →
  by_module fuel (w_heap w) dmp (first l 0) =
    Some (first (filter (λ a, dts_dmp (sym_of (w_heap w) a) = dmp) l) 0).
Proof using Hw.
  revert b fuel. induction l as [|a l IH]; intros b fuel Hd Hin Hf; [by destruct fuel|].
  destruct fuel as [|fuel]; [cbn in Hf; lia|]. change (first (a :: l) 0) with a. cbn [by_module].
  assert (a ∈ w_hist w) as [s Hs]%(wf_hist _ Hw) by (apply Hin; by left). destruct (wf_sane _ Hw a s Hs) as [H0 _].
  rewrite (proj2 (Z.eqb_neq a 0)), Hs by done. cbn [mbind option_bind].
  rewrite filter_cons, (sym_of_some _ _ _ Hs). destruct (Z.eqb_spec (dts_dmp s) dmp) as [E|E]; [by rewrite decide_True|].
  rewrite decide_False by done. destruct Hd as [Ha Hd]. unfold he_next. rewrite Ha. cbn [mbind option_bind dl_next].
  apply (IH a); [done|intros x Hx; apply Hin; by right|cbn in Hf; lia].
Qed.

Lemma module_by_name_spec dmp : dt_module_symbol_by_name (w_heap w) kt sp dmp name =
  Some (first (filter (λ a, dts_dmp (sym_of (w_heap w) a) = dmp) homonyms) 0).
Proof using Hw Hkt Hsp Hstr Hname.
  unfold dt_module_symbol_by_name. rewrite by_name_spec. cbn [mbind option_bind].
  eapply by_module_spec; [apply homonyms_linked|by intros a [_ ?]%list_elem_of_filter|].
  etransitivity; [apply length_filter|]. pose proof (wf_nodup _ Hw) as Hnd.
  rewrite <- (size_list_to_set (C := gset Z) (w_hist w) Hnd). apply subseteq_size. intros a Ha%elem_of_list_to_set.
  apply elem_of_dom. by apply Hw.
Qed.

End Name.

(** ** Destruction *)

(** The slot in which the hash table searches for one of its symbols is not empty. *)
Lemma slot_nonempty hp kt L a : all_named hp → kern_table hp kt L → a ∈ L → slot_of hp kt a ≠ [].
Proof.
  intros Hn Ht Ha. destruct (Ht (symtab_keys hp Hn)) as [G Hinv]. destruct (inv_holds _ _ _ _ Hinv) as [Hok _ _ _ Hin _].
  destruct (Hin a Ha) as (p & Hp & Hap). apply elem_of_concat in Hp as Hp'. destruct Hp' as (i & sl & Hi & Hsl).
  pose proof (inv_placed _ _ _ _ Hinv i sl p Hi Hsl) as Hpl. rewrite <- (bo_hval _ _ (Hok p Hp) a Hap) in Hpl.
  unfold slot_of. change (hval a) with (dt_symtab_hval hp a) in Hpl. rewrite Hpl, Nat2Z.id, (inv_tab _ _ _ _ Hinv), list_lookup_fmap, Hi.
  cbn. destruct sl; [by apply elem_of_nil in Hsl|done].
Qed.

(** Once the name of a symbol is gone, the hash table cannot search for it. *)
Lemma delete_unnamed hp hp1 kt L a s : all_named hp → kern_table hp kt L → a ∈ L → sh_syms hp !! a = Some s →
  sh_syms hp1 = sh_syms hp → sh_strs hp1 !! (dts_name s).1 = None → kern_delete hp1 kt a = None.
Proof.
  intros Hn Ht Ha Hs Es Hnone. assert (readable hp1 a = false) as Hr.
  { apply bool_decide_false. unfold name_at, string_at. rewrite Es, Hs. cbn. rewrite Hnone. by intros [? ?]. }
  unfold kern_delete, hashes. rewrite Es, Hs, Hr. destruct (Z.eqb_spec (dts_hval s) 0) as [|Hh]; [done|]. cbn [negb orb andb].
  assert (slot_of hp1 kt a = slot_of hp kt a) as ->.
  { unfold slot_of, dt_symtab_hval. by rewrite Es, Hs, (proj2 (Z.eqb_neq _ _) Hh). }
  pose proof (slot_nonempty hp kt L a Hn Ht Ha) as Hsl. destruct (slot_of hp kt a) as [|b slot]; [done|].
  cbn [compares]. by rewrite Hr, andb_false_r.
Qed.

(** The symbol passed before is freed. *)
Lemma free_last hp last : (last = 0 ∨ is_Some (sh_syms hp !! last)) →
  ∃ hp', (if last =? 0 then Some hp else free_sym hp last) = Some hp' ∧ sh_strs hp' = sh_strs hp ∧
    ∀ x, sh_syms hp' !! x = if bool_decide (x = last ∧ x ≠ 0) then None else sh_syms hp !! x.
Proof.
  intros Hlast. destruct (Z.eqb_spec last 0) as [->|Hne].
  - exists hp. split; [done|]. split; [done|]. intros x. by rewrite bool_decide_false by tauto.
  - destruct Hlast as [?|[t Ht]]; [done|]. unfold free_sym. rewrite Ht. cbn. eexists. split; [done|]. split; [done|].
    intros x. cbn. destruct (decide (x = last)) as [->|Hx].
    + rewrite bool_decide_true by done. apply lookup_delete_eq.
    + rewrite bool_decide_false by tauto. by rewrite lookup_delete_ne.
Qed.

(** The symbols [l] have names of their own. *)
Definition own_names (hp : symheap) (l : list Z) : Prop := ∀ a s, a ∈ l → sh_syms hp !! a = Some s →
  (dts_name s).2 = 0 ∧ is_Some (sh_strs hp !! (dts_name s).1) ∧
  ∀ a' s', a' ≠ a → sh_syms hp !! a' = Some s' → (dts_name s').1 ≠ (dts_name s).1.

Lemma free_own hp packed a s l : (packed = false → own_names hp (a :: l)) → sh_syms hp !! a = Some s →
  ∃ hp', (if packed : bool then Some hp else free_str hp (dts_name s)) = Some hp' ∧ sh_syms hp' = sh_syms hp ∧
    (packed = false → ∀ a' s', a' ≠ a → sh_syms hp !! a' = Some s' → sh_strs hp' !! (dts_name s').1 = sh_strs hp !! (dts_name s').1).
Proof.
  intros Hown Hs. destruct packed; [by exists hp|]. destruct (Hown eq_refl a s ltac:(by left) Hs) as (E0 & [b Hb] & Hne). unfold free_str.
  rewrite Hb, E0. cbn. eexists. split; [done|]. split; [done|]. intros _ a' s' Ha' Hs'. cbn. rewrite lookup_delete_ne; [done|].
  by apply not_eq_sym, (Hne a').
Qed.

(** The loop without a hash table. *)
Lemma destroy_syms_spec hp packed last l : NoDup l → known hp l → (last = 0 ∨ (last ∉ l) ∧ is_Some (sh_syms hp !! last)) → 0 ∉ l →
  (packed = false → own_names hp l) →
  ∃ hp', destroy_syms hp None packed last l = Some (hp', None) ∧
    ∀ x, sh_syms hp' !! x = if bool_decide (x ∈ last :: l ∧ x ≠ 0) then None else sh_syms hp !! x.
Proof.
  revert hp last. induction l as [|a l IH]; intros hp last Hnd Hk Hlast H0 Hown; cbn [destroy_syms].
  { destruct (free_last hp last ltac:(tauto)) as (hp' & -> & _ & Hsy). cbn. eexists. split; [done|]. intros x. rewrite Hsy.
    erewrite bool_decide_ext; [done|]. set_solver. }
  apply NoDup_cons in Hnd as [Hal Hnd]. apply not_elem_of_cons in H0 as [Ha0 H0].
  destruct (Hk a) as [s Hs]; [by left|]. rewrite Hs. cbn [mbind option_bind].
  destruct (free_own hp packed a s l Hown Hs) as (hp1 & -> & Es & Hst). cbn [mbind option_bind].
  destruct (free_last hp1 last) as (hp2 & -> & Es2 & Hsy); [rewrite Es; tauto|]. rewrite Es in Hsy. cbn [mbind option_bind].
  assert (∀ x, x ∈ a :: l → ¬ (x = last ∧ x ≠ 0)) as Hxl by (intros x Hx [-> ?]; by destruct Hlast as [?|[? _]]).
  destruct (IH hp2 a) as (hp' & -> & Hhp'); try done.
  - intros x Hx. rewrite Hsy, bool_decide_false; [apply Hk; by right|]. apply Hxl. by right.
  - right. split; [done|]. rewrite Hsy, bool_decide_false; [by eexists|]. apply Hxl. by left.
  - intros Hp x t Hx Ht. rewrite Hsy in Ht. case_bool_decide; [done|]. destruct (Hown Hp x t ltac:(by right) Ht) as (? & ? & Hne).
    split; [done|]. rewrite Es2, (Hst Hp x t) by (done || (intros ->; done)). split; [done|].
    intros a' s' Ha' Hs'. rewrite Hsy in Hs'. case_bool_decide; [done|]. by eapply Hne.
  - eexists. split; [done|]. intros x. rewrite Hhp', Hsy. destruct (decide (x = 0)) as [->|Hx0]; [by rewrite !bool_decide_false by tauto|].
    repeat case_bool_decide; set_solver.
Qed.

Lemma destroy_names w k st : wf w → w_tabs w !! k = Some st → is_packed st = false → own_names (w_heap w) (dtst_symlist st).
Proof.
  intros Hw Hk Hp a s Ha Hs. destruct (wf_tabs _ Hw k st Hk) as [_ [_ H2 H3 _]]. split; [by eapply H2|].
  split; [eapply named_block; [apply Hw|done]|]. intros a' s' Hne Hs'. by eapply H3.
Qed.

(** The block of a packed table is freed. *)
Lemma destroy_block w k st a : wf w → w_tabs w !! k = Some st → a ∈ dtst_symlist st →
  ∃ hp', (if dtst_strtab st =? 0 then Some (w_heap w) else free_str (w_heap w) (dtst_strtab st, 0)) = Some hp' ∧
    sh_syms hp' = sh_syms (w_heap w) ∧ (is_packed st = false → hp' = w_heap w) ∧
    (is_packed st = true → sh_strs hp' !! dtst_strtab st = None).
Proof.
  intros Hw Hk Ha. destruct (wf_tabs _ Hw k st Hk) as [Ht [H1 _ _ H4]]. destruct (is_packed st) eqn:Hp; [|rewrite H1 by done; by exists (w_heap w)].
  destruct (to_known _ _ Ht a Ha) as [s Hs]. destruct (H4 a s eq_refl Ha Hs) as [E Hne]. rewrite (proj2 (Z.eqb_neq _ _) Hne).
  destruct (named_block _ _ _ (wf_named _ Hw) Hs) as [b Hb]. rewrite E in Hb. unfold free_str. cbn [fst snd]. rewrite Hb. cbn.
  eexists. split; [done|]. split; [done|]. split; [done|]. intros _. cbn. apply lookup_delete_eq.
Qed.



(** C38: Destroying a table that has symbols while the hash table of names exists
    reads a name that has been freed: the block of a packed table is freed
    first, and otherwise the name before the symbol is deleted from the hash
    table, which compares names.  Without the hash table it returns and frees
    the symbols of the table and no others. *)
Theorem dt_symtab_destroy_reads_freed os :
  ops_ok world0 os →
  ∃ w, run_ops world0 os = Some w ∧
    ∀ k st, w_tabs w !! k = Some st → dtst_symlist st ≠ [] →
      (∀ kt, w_kern w = Some kt → dt_symtab_destroy (w_heap w) (Some kt) st = None) ∧
      ∃ hp', dt_symtab_destroy (w_heap w) None st = Some (hp', None) ∧
        ∀ a, sh_syms hp' !! a = if bool_decide (a ∈ dtst_symlist st) then None else sh_syms (w_heap w) !! a.
Proof.
  intros Hos. destruct (run_wf world0 os world0_wf Hos) as (w & -> & Hw). exists w. split; [done|]. intros k st Hk Hne.
  destruct (wf_tabs _ Hw k st Hk) as [Ht Hns]. destruct (dtst_symlist st) as [|a l] eqn:El; [done|].
  assert (a ∈ dtst_symlist st) as Ha by (rewrite El; by left). destruct (to_known _ _ Ht a Ha) as [s Hs].
  destruct (destroy_block w k st a Hw Hk Ha) as (hp1 & Hb & Es & Hun & Hpk). unfold dt_symtab_destroy. rewrite Hb, El.
  fold (is_packed st). cbn [mbind option_bind]. split.
  - intros kt Hkt. pose proof (wf_kern _ Hw) as Hkern. rewrite Hkt in Hkern. cbn [destroy_syms]. rewrite Es, Hs. cbn [mbind option_bind].
    assert (∃ hp2, (if is_packed st then Some hp1 else free_str hp1 (dts_name s)) = Some hp2 ∧ sh_syms hp2 = sh_syms (w_heap w) ∧
      sh_strs hp2 !! (dts_name s).1 = None) as (hp2 & -> & Es2 & Hnone).
    { destruct (is_packed st) eqn:Hp.
      - exists hp1. split; [done|]. split; [done|]. rewrite (proj1 (no_packed _ _ Hns a s Hp Ha Hs)). by apply Hpk.
      - rewrite (Hun eq_refl). destruct (destroy_names w k st Hw Hk Hp a s Ha Hs) as (E0 & [b Eb] & _). unfold free_str. rewrite Eb, E0. cbn.
        eexists. split; [done|]. split; [done|]. cbn. apply lookup_delete_eq. }
    cbn [mbind option_bind]. erewrite (delete_unnamed (w_heap w)); try done; [apply Hw|by eapply tab_member].
  - pose proof (wf_nodup _ Hw) as Hnd. rewrite <- (wf_parts _ Hw) in Hnd.
    destruct (destroy_syms_spec hp1 (is_packed st) 0 (a :: l)) as (hp' & E & Hhp'); [..|exists hp'; split; [exact E|]].
    + rewrite <- El. eapply nodup_concat_part; [exact Hnd|]. by rewrite list_lookup_fmap, Hk.
    + intros x Hx. rewrite Es. apply Ht. by rewrite El.
    + by left.
    + rewrite <- El. intros H0. destruct (to_known _ _ Ht 0 H0) as [t Ht0]. by destruct (wf_sane _ Hw 0 t Ht0).
    + intros Hp. rewrite (Hun Hp), <- El. by eapply destroy_names.
    + intros x. rewrite Hhp', Es. erewrite bool_decide_ext; [done|]. rewrite elem_of_cons. split; [tauto|]. intros Hx. split; [by right|].
      intros ->. destruct (to_known _ _ Ht 0) as [t Ht0]; [by rewrite El|]. by destruct (wf_sane _ Hw 0 t Ht0).
Qed.

End SymLookup.
