(* ===== verification/SymExample.v ===== *)
(** * Two modules with overlapping symbols *)
From S2P Require Import Prelude CLib CSort DtList DtString Htab SymTab SymRange SymWorld SymInsert SymSort SymPack SymLookup.
#[local] Open Scope Z_scope.
Import DtString Htab SymTab SymRange SymWorld SymInsert SymSort SymPack SymLookup.

Module SymExample.

(** Memory for a symbol, its name and a bucket. *)
Definition memory (sym name bucket : Z) : insert_mem := mk_insert_mem (Some sym) true (Some name) (λ _, true) (Some bucket).

(** The first table has a function and a label inside it, the second another
    symbol of the function's name. *)
Definition calls : list op :=
  [Create true true true;
   Insert 0 (memory 1 101 201) 7 (str "read") 4096 256 18;
   Insert 0 (memory 2 102 202) 7 (str "loop") 4160 32 18;
   Create true true true;
   Insert 1 (memory 3 103 203) 8 (str "read") 8192 16 18;
   Sort 0 true (λ _, true) false;
   Pack 0 true (λ _, true) (Some 104)].

Definition after (n : nat) : world := default world0 (run_ops world0 (take n calls)).

Lemma insert_ok_intro w mm st name addr size :
  match im_sym mm with Some a => negb (a =? 0) && negb (bool_decide (is_Some (sh_syms (w_heap w) !! a))) | None => true end = true →
  match im_name mm with Some b => negb (b =? 0) && negb (bool_decide (is_Some (sh_strs (w_heap w) !! b))) | None => true end = true →
  match w_kern w, im_bucket mm with
  | Some kt, Some b => negb (b =? 0) && negb (bool_decide (b ∈ (bk_addr <$> concat (tab kt)))) | _, _ => true end = true →
  forallb (λ c, (0 <? c) && (c <? 256)) name = true → (0 <=? addr) = true → (0 <=? size) = true → (addr + size <? 2 ^ 64) = true →
  (dtst_num_range_alloc st <? 2 ^ 30) = true → (Z.of_nat (length (w_hist w)) <? 2 ^ 31 - 1) = true →
  insert_ok w mm st name addr size.
Proof.
  intros H1 H2 H3 H4 H5 H6 H7 H8 H9. constructor; try lia.
  - intros a E. rewrite E in H1. apply andb_true_iff in H1 as [Ha Hs]. split; [by intros ->|].
    apply negb_true_iff, bool_decide_eq_false in Hs. by apply eq_None_not_Some.
  - intros b E. rewrite E in H2. apply andb_true_iff in H2 as [Ha Hs]. split; [by intros ->|].
    apply negb_true_iff, bool_decide_eq_false in Hs. by apply eq_None_not_Some.
  - intros kt E b Eb. rewrite E, Eb in H3. apply andb_true_iff in H3 as [Ha Hs]. split; [by intros ->|].
    by apply negb_true_iff, bool_decide_eq_false in Hs.
  - apply Forall_forall. intros c Hc. rewrite forallb_forall in H4. specialize (H4 c). rewrite <- list_elem_of_In in H4.
    specialize (H4 Hc). unfold byte. lia.
Qed.

(** One call at a time. *)
Lemma ops_ok_step w o os w' : op_ok w o → run_op w o = Some w' → ops_ok w' os → ops_ok w (o :: os).
Proof. intros Ho E Hos. split; [done|]. intros w2 E2. by simplify_eq. Qed.

Ltac next_call n :=
  eapply (ops_ok_step _ _ _ (after n)); [|vm_compute; reflexivity|].
Ltac inserts := eexists; split; [vm_compute; reflexivity|apply insert_ok_intro; vm_compute; reflexivity].

Lemma calls_ok : ops_ok world0 calls.
Proof.
  next_call 1%nat; [done|].
  next_call 2%nat; [inserts|].
  next_call 3%nat; [inserts|].
  next_call 4%nat; [done|].
  next_call 5%nat; [inserts|].
  next_call 6%nat; [eexists; split; [vm_compute; reflexivity|]; split; [vm_compute; reflexivity|intros E; inversion E]|].
  next_call 7%nat; [|done].
  eexists. split; [vm_compute; reflexivity|]. split; [vm_compute; reflexivity|]. split; [vm_compute; reflexivity|].
  intros b [= <-]. split; [discriminate|vm_compute; reflexivity].
Qed.

(** The label is found inside the function, before it is packed and after. *)
Example label_found : ∀ n, n = 6%nat ∨ n = 7%nat →
  ∃ st, w_tabs (after n) !! 0%nat = Some st ∧ dt_symbol_by_addr st 4100 = Some 1 ∧ dt_symbol_by_addr st 4170 = Some 2 ∧
    dt_symbol_by_addr st 4200 = Some 1 ∧ dt_symbol_by_addr st 5000 = Some 0.
Proof. intros n [-> | ->]; eexists; by vm_compute. Qed.



Lemma dt_symtab_destroy_reads_freed_witness :
  ∃ w, run_ops world0 calls = Some w ∧
    ∀ k st, w_tabs w !! k = Some st → dtst_symlist st ≠ [] →
      (∀ kt, w_kern w = Some kt → dt_symtab_destroy (w_heap w) (Some kt) st = None) ∧
      ∃ hp', dt_symtab_destroy (w_heap w) None st = Some (hp', None) ∧
        ∀ a, sh_syms hp' !! a = if bool_decide (a ∈ dtst_symlist st) then None else sh_syms (w_heap w) !! a.
Proof. apply dt_symtab_destroy_reads_freed. apply calls_ok. Defined.

End SymExample.
