(* ===== verification/Consume.v ===== *)
(** * The consumer of trace data: libdtrace/dt_consume.c

    Probes write records into ring buffers, one for each CPU, that the kernel shares
    with the consumer.  [dt_consume_cpu] reads a buffer and hands each record to
    [dt_consume_one_probe].  A record of a speculation is put aside; a record with
    commit() or discard() makes the consumer drain the speculation, and when all that
    was written to it has been read its id is given back.

    What the consumer's callbacks and the functions that print do is a parameter;
    they act on a state of type [A].  The hash table of speculations is the finite map
    that [Htab] shows it to be, from ids to the addresses of buffers.  An allocation
    takes its outcome from a list of outcomes. *)
From S2P Require Import Prelude CLib DtMap BpfFuncs.
#[local] Open Scope Z_scope.
Import DtMap BpfFuncs.

Module Consume.

Definition DTRACE_CONSUME_ERROR : Z := -1.
Definition DTRACE_CONSUME_THIS : Z := 0.
Definition DTRACE_CONSUME_NEXT : Z := 1.
Definition DTRACE_CONSUME_DONE : Z := 2.
Definition DTRACE_CONSUME_ABORT : Z := 3.

Definition DTRACE_WORKSTATUS_ERROR : Z := -1.
Definition DTRACE_WORKSTATUS_OKAY : Z := 0.
Definition DTRACE_WORKSTATUS_DONE : Z := 1.

Definition DTRACEFLOW_ENTRY : Z := 0.
Definition DTRACEFLOW_RETURN : Z := 1.
Definition DTRACEFLOW_NONE : Z := 2.

Definition DTRACE_HANDLE_ABORT : Z := -1.
Definition DTRACE_HANDLE_OK : Z := 0.

Definition DTRACE_EPIDNONE : Z := 0.
Definition DT_ECB_DEFAULT : Z := 0.
Definition DT_ECB_ERROR : Z := 1.

Definition DTRACEACT_PRINTF : Z := 3.
Definition DTRACEACT_PRINTA : Z := 4.
Definition DTRACEACT_LIBACT : Z := 5.
Definition DTRACEACT_USTACK : Z := 0x101.
Definition DTRACEACT_USYM : Z := 0x103.
Definition DTRACEACT_UMOD : Z := 0x104.
Definition DTRACEACT_UADDR : Z := 0x105.
Definition DTRACEACT_SYSTEM : Z := 0x203.
Definition DTRACEACT_FREOPEN : Z := 0x204.
Definition DTRACEACT_STACK : Z := 0x401.
Definition DTRACEACT_SYM : Z := 0x402.
Definition DTRACEACT_MOD : Z := 0x403.
Definition DTRACEACT_COMMIT : Z := 0x602.
Definition DTRACEACT_DISCARD : Z := 0x603.

Definition DIF_SUBR_MAX : Z := 45.
Definition DT_ACT (n : Z) : Z := DIF_SUBR_MAX + 1 + n.
Definition DT_ACT_NORMALIZE : Z := DT_ACT 16.
Definition DT_ACT_DENORMALIZE : Z := DT_ACT 17.
Definition DT_ACT_FTRUNCATE : Z := DT_ACT 21.

Definition EDT_DSIZE : Z := 1040.
Definition EDT_BADEPID : Z := 1041.
Definition EDT_BADERROR : Z := 1057.
Definition EDT_ERRABORT : Z := 1058.
Definition EDT_DIRABORT : Z := 1060.
Definition EDT_BADRVAL : Z := 1061.
Definition EDT_BADNORMAL : Z := 1062.

Definition CONSUME_PEEK_START : Z := 1.
Definition CONSUME_PEEK : Z := 2.
Definition CONSUME_PEEK_FINISH : Z := 3.

Definition PERF_RECORD_SAMPLE : Z := 9.

(** ** Data *)

Record dtrace_probedesc := mk_pdesc { pd_id : Z; prv : list Z; prb : list Z }.

(** [dtpda_ddesc] and [dtpda_pdesc] are addresses; [dtpda_data] are the bytes from
    the pointer on. *)
Record dtrace_probedata := mk_pdat {
  dtpda_epid : Z;
  dtpda_ddesc : Z;
  dtpda_pdesc : Z;
  dtpda_cpu : Z;
  dtpda_data : list Z;
  dtpda_flow : Z;
  dtpda_prefix : option string;
  dtpda_indent : Z
}.

Record dtrace_errdata := mk_err {
  dteda_ddesc : Z;
  dteda_pdesc : Z;
  dteda_cpu : Z;
  dteda_action : Z;
  dteda_offset : Z;
  dteda_fault : Z;
  dteda_addr : Z
}.

Record dt_spec_buf_data := mk_dsbd { dsbd_cpu : Z; dsbd_data : list Z; dsbd_size : Z }.

Record dt_spec_buf := mk_dtsb {
  dtsb_id : Z;
  dtsb_size : Z;
  dtsb_committing : bool;
  dtsb_spec : dt_bpf_specs;
  dtsb_dsbd_list : list dt_spec_buf_data
}.

(** [dtsd_dtsb] is the address of a buffer. *)
Record dtsb_draining := mk_dtsd { dtsd_dtsb : Z; dtsd_read : Z }.

(** The functions that output a record. *)
Inductive printer :=
  | dt_normalize
  | do_ftruncate
  | dt_print_stack (depth size : Z)
  | dt_print_sym
  | dt_print_mod
  | dt_print_ustack
  | dt_print_usym
  | dt_print_umod
  | dtrace_fprintf
  | dtrace_fprinta
  | dt_printa
  | dtrace_system
  | dtrace_freopen
  | dt_print_trace.

(** The callbacks of a client, and its handler for errors, if there is one; the
    handler that [dt_consume_begin] installs calls another one, which may be NULL. *)
Record client (A : Type) := mk_client {
  efunc : dtrace_probedata → A → Z * A;
  rfunc : dtrace_probedata → option dtrace_recdesc → A → Z * A;
  dt_errhdlr : option (dtrace_errdata → A → option (Z * A))
}.
Arguments mk_client {_}. Arguments efunc {_}. Arguments rfunc {_}. Arguments dt_errhdlr {_}.

(** The state: [A] is that of the callbacks and the output, [M] the BPF map of
    speculations.  [c_pdat] and [c_last] are the variables of [dt_consume_cpu] that
    the other functions get pointers to. *)
Record cstate (A M : Type) := mk_cs {
  c_user : A;
  c_specs : M;
  c_heap : gmap Z dt_spec_buf;
  dt_spec_bufs : gmap Z Z;
  dt_spec_bufs_draining : list dtsb_draining;
  c_errno : Z;
  c_alloc : list bool;
  c_pdat : dtrace_probedata;
  c_last : Z
}.
Arguments mk_cs {_ _}. Arguments c_user {_ _}. Arguments c_specs {_ _}. Arguments c_heap {_ _}. Arguments dt_spec_bufs {_ _}.
Arguments dt_spec_bufs_draining {_ _}. Arguments c_errno {_ _}. Arguments c_alloc {_ _}. Arguments c_pdat {_ _}. Arguments c_last {_ _}.

Section Setters.
Context {A M : Type}.
Implicit Types s : cstate A M.
Definition set_user (a : A) s : cstate A M := mk_cs a (c_specs s) (c_heap s) (dt_spec_bufs s) (dt_spec_bufs_draining s) (c_errno s) (c_alloc s) (c_pdat s) (c_last s).
Definition set_specs (m : M) s : cstate A M := mk_cs (c_user s) m (c_heap s) (dt_spec_bufs s) (dt_spec_bufs_draining s) (c_errno s) (c_alloc s) (c_pdat s) (c_last s).
Definition set_bufs h b s : cstate A M := mk_cs (c_user s) (c_specs s) h b (dt_spec_bufs_draining s) (c_errno s) (c_alloc s) (c_pdat s) (c_last s).
Definition set_draining l s : cstate A M := mk_cs (c_user s) (c_specs s) (c_heap s) (dt_spec_bufs s) l (c_errno s) (c_alloc s) (c_pdat s) (c_last s).
Definition set_err e s : cstate A M := mk_cs (c_user s) (c_specs s) (c_heap s) (dt_spec_bufs s) (dt_spec_bufs_draining s) e (c_alloc s) (c_pdat s) (c_last s).
Definition set_alloc l s : cstate A M := mk_cs (c_user s) (c_specs s) (c_heap s) (dt_spec_bufs s) (dt_spec_bufs_draining s) (c_errno s) l (c_pdat s) (c_last s).
Definition set_pdat d s : cstate A M := mk_cs (c_user s) (c_specs s) (c_heap s) (dt_spec_bufs s) (dt_spec_bufs_draining s) (c_errno s) (c_alloc s) d (c_last s).
Definition set_last e s : cstate A M := mk_cs (c_user s) (c_specs s) (c_heap s) (dt_spec_bufs s) (dt_spec_bufs_draining s) (c_errno s) (c_alloc s) (c_pdat s) e.
End Setters.

(** ** Computations *)

Definition cm (A M B : Type) : Type := cstate A M → option (B * cstate A M).

#[export] Instance cm_ret A M : MRet (cm A M) := λ B b s, Some (b, s).
#[export] Instance cm_bind A M : MBind (cm A M) := λ B C f m s,
  match m s with Some (b, s) => f b s | None => None end.

Lemma cm_run {A M B C} (m : cm A M B) (f : B → cm A M C) s : (m ≫= f) s = match m s with Some (b, s) => f b s | None => None end.
Proof. done. Qed.

(** The unsigned integer of [n] bytes at [off]. *)
Definition uint_at (n : nat) (data : list Z) (off : Z) : option Z :=
  if (0 <=? off) && (off + Z.of_nat n <=? Z.of_nat (length data))
  then Some (little_endian_to_Z 8 (take n (drop (Z.to_nat off) data))) else None.

Section Consumer.
Context {A M : Type} `{BpfMap M dt_bpf_specs}.
(** The handle: enabled probes, data descriptions with their argument, and the
    descriptions of probes.  The allocator of buffers; the options. *)
Context (dtp : dtrace_hdl) (dds : ddheap) (dtdd_uarg : Z → Z) (pdescs : Z → dtrace_probedesc).
Context (al : gmap Z dt_spec_buf → Z) (specsize : Z) (flow : bool).
(** The output: [fp] is there; what the functions that print do. *)
Context (fp : bool) (print : printer → dtrace_probedata → dtrace_recdesc → Z → list Z → Z → A → Z * A).

#[local] Abbreviation cstate := (cstate A M).
#[local] Abbreviation cm := (cm A M).

Definition stuck {B} : cm B := λ _, None.
Definition get : cm cstate := λ s, Some (s, s).
Definition modify (f : cstate → cstate) : cm unit := λ s, Some (tt, f s).
Definition ask {B} (x : option B) : cm B := λ s, b ← x; Some (b, s).
Definition dt_set_errno (e : Z) : cm Z := modify (set_err e);; mret (-1).
Definition user {B} (f : A → B * A) : cm B := λ s, let '(b, a) := f (c_user s) in Some (b, set_user a s).

(** Whether the next allocation succeeds. *)
Definition alloc : cm bool :=
  s ← get;
  match c_alloc s with
  | [] => mret true
  | b :: l => modify (set_alloc l);; mret b
  end.

(** ** Flow indentation *)

(** [name] is [word], or ends with it after a hyphen, at its first occurrence. *)
Definition ends_with (name word : list Z) : bool :=
  match strstr name word with
  | None => false
  | Some i => (i + length word =? length name)%nat && ((i =? 0)%nat || bool_decide (name !! (i - 1)%nat = Some (ch "-")))
  end.

Definition flow_kind (pd : dtrace_probedesc) : Z * option string :=
  let sys := bool_decide (prv pd = str "syscall") in
  if ends_with (prb pd) (str "entry") then (DTRACEFLOW_ENTRY, Some (if sys then " => " else " -> "))
  else if ends_with (prb pd) (str "return") then (DTRACEFLOW_RETURN, Some (if sys then " <= " else " <- "))
  else (DTRACEFLOW_NONE, None).

(** [dt_flowindent]; a failing lookup of [next] leaves the probe data alone. *)
Definition dt_flowindent (d : dtrace_probedata) (last next : Z) : option (Z * dtrace_probedata) :=
  let pd := pdescs (dtpda_pdesc d) in
  let '(k, s) := flow_kind pd in
  k ← (if (k =? DTRACEFLOW_ENTRY) && negb (last =? DTRACE_EPIDNONE) && negb (dtpda_epid d =? last) then
         l ← dt_pdesc dtp; p ← l !! Z.to_nat last;
         if p =? 0 then None else Some (if pd_id pd =? pd_id (pdescs p) then DTRACEFLOW_NONE else k)
       else Some k);
  k ← (if (k =? DTRACEFLOW_RETURN) && negb (next =? DTRACE_EPIDNONE) && negb (next =? dtpda_epid d) then
         r ← dt_epid_lookup dtp next;
         Some (match r with
               | None => None
               | Some (_, np) => Some (if pd_id (pdescs np) =? pd_id pd then DTRACEFLOW_NONE else k)
               end)
       else Some (Some k));
  match k with
  | None => Some (-1, d)
  | Some k =>
      let prefix := if (k =? DTRACEFLOW_ENTRY) || (k =? DTRACEFLOW_RETURN) then s else Some "| "%string in
      let indent := if (k =? DTRACEFLOW_RETURN) && (0 <? dtpda_indent d) then dtpda_indent d - 2 else dtpda_indent d in
      Some (0, mk_pdat (dtpda_epid d) (dtpda_ddesc d) (dtpda_pdesc d) (dtpda_cpu d) (dtpda_data d) k prefix indent)
  end.

(** ** Errors *)

(** [DT_REC] *)
Definition DT_REC (d : dtrace_probedata) (recs : list dtrace_recdesc) (ndx : nat) : option Z :=
  r ← recs !! ndx; uint_at 8 (dtpda_data d) (dtrd_offset r).

Definition dt_handle_err (errhdlr : option (dtrace_errdata → A → option (Z * A))) (d : dtrace_probedata) : cm Z :=
  dd ← ask (dds !! dtpda_ddesc d);
  let pd := pdescs (dtpda_pdesc d) in
  if negb (dtdd_nrecs dd =? 5) || negb (bool_decide (prv pd = str "dtrace")) || negb (bool_decide (prb pd = str "ERROR"))
  then dt_set_errno EDT_BADERROR
  else
    recs ← ask (dtdd_recs dd);
    epid ← ask (DT_REC d recs 0);
    r ← ask (dt_epid_lookup dtp (u32 epid));
    match r with
    | None => dt_set_errno EDT_BADERROR
    | Some (errdd, errpd) =>
        action ← ask (DT_REC d recs 1);
        offset ← ask (DT_REC d recs 2);
        fault ← ask (DT_REC d recs 3);
        addr ← ask (DT_REC d recs 4);
        match errhdlr with
        | None => dt_set_errno EDT_ERRABORT
        | Some hdlr =>
            r ← (λ s, '(r, a) ← hdlr (mk_err errdd errpd (dtpda_cpu d) (s32 action) (s32 offset) (s32 fault) addr) (c_user s);
                      Some (r, set_user a s));
            if r =? DTRACE_HANDLE_ABORT then dt_set_errno EDT_ERRABORT else mret 0
        end
    end.

Definition dt_handle (errhdlr : option (dtrace_errdata → A → option (Z * A))) (d : dtrace_probedata) : cm Z :=
  if dtdd_uarg (dtpda_ddesc d) =? DT_ECB_ERROR then
    r ← dt_handle_err errhdlr d;
    mret (if r =? 0 then DTRACE_CONSUME_NEXT else DTRACE_CONSUME_ERROR)
  else mret DTRACE_CONSUME_THIS.

(** ** Buffers of speculations *)

Definition get_buf (a : Z) : cm dt_spec_buf := λ s, b ← c_heap s !! a; Some (b, s).
Definition put_buf (a : Z) (b : dt_spec_buf) : cm unit := modify (λ s, set_bufs (<[a := b]> (c_heap s)) (dt_spec_bufs s) s).

(** [dt_htab_lookup] *)
Definition find_buf (id : Z) : cm (option Z) := λ s, Some (dt_spec_bufs s !! id, s).

(** The allocation of the buffer and the insertion into the table may fail. *)
Definition dt_spec_buf_create (spec : Z) : cm (option Z) :=
  m ← alloc;
  if negb m then dt_set_errno EDT_NOMEM;; mret None
  else
    m ← alloc;
    if negb m then dt_set_errno EDT_NOMEM;; mret None
    else
      s ← get;
      let a := al (c_heap s) in
      modify (set_bufs (<[a := mk_dtsb spec 0 false (mk_specs 0 0) []]> (c_heap s)) (<[spec := a]> (dt_spec_bufs s)));;
      mret (Some a).

Definition dt_spec_buf_add_data (a cpu : Z) (data : list Z) (size : Z) : cm bool :=
  m1 ← alloc;
  m2 ← (if m1 : bool then alloc else mret false);
  if negb m2 then dt_set_errno EDT_NOMEM;; mret false
  else if negb (size <=? Z.of_nat (length data)) then stuck
  else
    b ← get_buf a;
    put_buf a (mk_dtsb (dtsb_id b) (u64 (dtsb_size b + size)) (dtsb_committing b) (dtsb_spec b)
                 (dtsb_dsbd_list b ++ [mk_dsbd cpu (take (Z.to_nat size) data) size]));;
    mret true.

Definition dt_spec_buf_data_destroy (a : Z) : cm unit :=
  b ← get_buf a;
  put_buf a (mk_dtsb (dtsb_id b) 0 (dtsb_committing b) (dtsb_spec b) []).

(** The key of the BPF map is the id as an unsigned number. *)
Definition dt_spec_buf_destroy (a : Z) : cm unit :=
  b ← get_buf a;
  modify (λ s, set_specs (map_delete_elem (c_specs s) (u32 (dtsb_id b))).2 (set_bufs (delete a (c_heap s)) (dt_spec_bufs s) s)).

(** [dt_htab_delete]: the entry of the table is unlinked and destroyed. *)
Definition delete_buf (a : Z) : cm unit :=
  b ← get_buf a;
  r ← find_buf (dtsb_id b);
  match r with
  | None => mret tt
  | Some e =>
      modify (λ s, set_bufs (c_heap s) (delete (dtsb_id b) (dt_spec_bufs s)) s);;
      dt_spec_buf_destroy e
  end.

(** A record of the speculation [specid] that is not being committed is put aside. *)
Definition put_aside (data : list Z) (size peekflags specid : Z) : cm Z :=
  if (peekflags =? CONSUME_PEEK) || (peekflags =? CONSUME_PEEK_FINISH) then mret DTRACE_WORKSTATUS_OKAY
  else
    r ← find_buf specid;
    cursz ← (match r with None => mret 0 | Some a => b ← get_buf a; mret (dtsb_size b) end);
    if u64 specsize <? u64 (cursz + size) then mret DTRACE_WORKSTATUS_OKAY
    else
      r ← (match r with None => dt_spec_buf_create specid | Some a => mret (Some a) end);
      match r with
      | None => mret (-1)
      | Some a =>
          s ← get;
          ok ← dt_spec_buf_add_data a (dtpda_cpu (c_pdat s)) data size;
          mret (if ok : bool then DTRACE_WORKSTATUS_OKAY else -1)
      end.

(** A commit or discard of the speculation whose id is at [recdata]: if it is known
    and is not being drained yet, it is from now on.  The system call for the lookup
    in the BPF map returns -1 when it fails. *)
Definition start_draining (act specid : Z) (recdata : list Z) : cm (option Z) :=
  if negb (specid =? 0) then stuck
  else
    id ← ask (uint_at 4 recdata 0);
    let id := s32 id in
    r ← find_buf id;
    match r with
    | None => mret None
    | Some a =>
        b ← get_buf a;
        if negb (draining (dtsb_spec b) =? 0) then mret None
        else
          s ← get;
          match map_lookup_elem (c_specs s) (u32 id) with
          | None => r ← dt_set_errno 1; mret (Some r)
          | Some spec =>
              if draining spec =? 0 then stuck
              else
                m ← alloc;
                if negb m then r ← dt_set_errno EDT_NOMEM; mret (Some r)
                else
                  put_buf a (mk_dtsb (dtsb_id b) (dtsb_size b) (act =? DTRACEACT_COMMIT) spec (dtsb_dsbd_list b));;
                  modify (λ s, set_draining (dt_spec_bufs_draining s ++ [mk_dtsd a 0]) s);;
                  mret None
          end
    end.

(** ** The records of a probe *)

Definition is_end (act : Z) : bool := (act =? DTRACEACT_COMMIT) || (act =? DTRACEACT_DISCARD).

(** The function that prints a record of the kind [act], and whether the number it
    returns is that of the records it used. *)
Definition printer_of (act : Z) (rec : dtrace_recdesc) : option (printer * bool) :=
  if act =? DTRACEACT_STACK then
    let depth := s32 (dtrd_arg rec) in
    if depth =? 0 then None else Some (dt_print_stack depth (u32 (dtrd_size rec) / u32 depth), false)
  else if act =? DTRACEACT_SYM then Some (dt_print_sym, false)
  else if act =? DTRACEACT_MOD then Some (dt_print_mod, false)
  else if act =? DTRACEACT_USTACK then Some (dt_print_ustack, false)
  else if (act =? DTRACEACT_USYM) || (act =? DTRACEACT_UADDR) then Some (dt_print_usym, false)
  else if act =? DTRACEACT_UMOD then Some (dt_print_umod, false)
  else if act =? DTRACEACT_PRINTF then Some (dtrace_fprintf, true)
  else if act =? DTRACEACT_PRINTA then Some (if negb (dtrd_format rec =? 0) then dtrace_fprinta else dt_printa, true)
  else if act =? DTRACEACT_SYSTEM then Some (dtrace_system, true)
  else if act =? DTRACEACT_FREOPEN then Some (dtrace_freopen, true)
  else Some (dt_print_trace, false).

Definition set_data (data : list Z) (d : dtrace_probedata) : dtrace_probedata :=
  mk_pdat (dtpda_epid d) (dtpda_ddesc d) (dtpda_pdesc d) (dtpda_cpu d) data (dtpda_flow d) (dtpda_prefix d) (dtpda_indent d).

(** A record that is to be printed; the result is the next index or the status to
    return. *)
Definition print_rec (cl : client A) (rec : dtrace_recdesc) (nrecs : Z) (data : list Z) (size i : Z) : cm (Z + Z) :=
  s ← get;
  r ← user (rfunc cl (c_pdat s) (Some rec));
  if r =? DTRACE_CONSUME_NEXT then mret (inl (i + 1))
  else if r =? DTRACE_CONSUME_ABORT then r ← dt_set_errno EDT_DIRABORT; mret (inr r)
  else if negb (r =? DTRACE_CONSUME_THIS) then r ← dt_set_errno EDT_BADRVAL; mret (inr r)
  else
    '(f, used) ← ask (printer_of (dtrd_action rec) rec);
    n ← user (print f (c_pdat s) rec (nrecs - i) data size);
    if n <? 0 then mret (inr DTRACE_WORKSTATUS_ERROR)
    else if (used : bool) && (0 <? n) then
      if 2 ^ 31 <=? i + n then stuck else mret (inl (i + n))
    else mret (inl (i + 1)).

(** The record with the index [i]. *)
Definition one_rec (cl : client A) (data_recording : bool) (recs : list dtrace_recdesc) (nrecs : Z) (data : list Z) (size specid i : Z) :
    cm (Z + Z) :=
  rec ← ask (recs !! Z.to_nat i);
  let act := dtrd_action rec in
  let recdata := drop (Z.to_nat (dtrd_offset rec)) data in
  modify (λ s, set_pdat (set_data recdata (c_pdat s)) s);;
  s ← get;
  let normalize i' : cm (Z + Z) :=
    r ← user (print dt_normalize (c_pdat s) rec (nrecs - i) data size);
    mret (if r =? 0 then inl i' else inr DTRACE_WORKSTATUS_ERROR) in
  if (act =? DTRACEACT_LIBACT) && (dtrd_arg rec =? DT_ACT_DENORMALIZE) then normalize (i + 1)
  else if (act =? DTRACEACT_LIBACT) && (dtrd_arg rec =? DT_ACT_NORMALIZE) then
    if i =? nrecs - 1 then r ← dt_set_errno EDT_BADNORMAL; mret (inr r) else normalize (i + 2)
  else if (act =? DTRACEACT_LIBACT) && (dtrd_arg rec =? DT_ACT_FTRUNCATE) then
    (if fp then user (print do_ftruncate (c_pdat s) rec (nrecs - i) data size);; mret tt else mret tt);; mret (inl (i + 1))
  else if is_end act then
    r ← start_draining act specid recdata;
    mret (match r with None => inl (i + 1) | Some r => inr r end)
  else if negb data_recording then stuck
  else print_rec cl rec nrecs data size i.

(** The loop over the records: [None] when all have been looked at.  [fuel] is the
    number of records. *)
Fixpoint rec_loop (fuel : nat) (cl : client A) (data_recording : bool) (recs : list dtrace_recdesc) (nrecs : Z) (data : list Z)
    (size specid i : Z) : cm (option Z) :=
  if nrecs <=? i then mret None
  else
    match fuel with
    | O => stuck
    | S fuel =>
        r ← one_rec cl data_recording recs nrecs data size specid i;
        match r with
        | inl i => rec_loop fuel cl data_recording recs nrecs data size specid i
        | inr r => mret (Some r)
        end
    end.

(** Each record takes the loop further, so that the fuel suffices. *)
Ltac run_cm := repeat (rewrite cm_run || cbn [modify get mret cm_ret] || match goal with
  | |- context [match ?m ?s with Some _ => _ | None => None end] => destruct (m s) as [[? ?]|] eqn:?
  | |- context [if ?b then _ else _] => destruct b eqn:?
  end).

Lemma print_rec_next cl rec nrecs data size i s i' s' : print_rec cl rec nrecs data size i s = Some (inl i', s') → i < i'.
Proof.
  unfold print_rec. run_cm; intros [=]; subst; try lia. destruct p as [f u]. revert H1. run_cm; intros [=]; subst; lia.
Qed.

Lemma one_rec_next cl dr recs nrecs data size specid i s i' s' :
  one_rec cl dr recs nrecs data size specid i s = Some (inl i', s') → i < i'.
Proof.
  unfold one_rec. run_cm; try (intros Hp; exact (print_rec_next _ _ _ _ _ _ _ _ _ Hp)); try (intros [=]; subst; lia).
  all: repeat case_match; intros [=]; subst; lia.
Qed.

Lemma rec_loop_fuel cl dr recs nrecs data size specid n : ∀ m i s, nrecs - i <= Z.of_nat n → nrecs - i <= Z.of_nat m →
  rec_loop n cl dr recs nrecs data size specid i s = rec_loop m cl dr recs nrecs data size specid i s.
Proof.
  induction n as [|n IH]; intros m i s Hn Hm; destruct m as [|m]; cbn [rec_loop]; destruct (Z.leb_spec nrecs i); try done; try lia.
  rewrite !cm_run. destruct (one_rec _ _ _ _ _ _ _ _ _) as [[[i'|r] s']|] eqn:E; [|done|done]. apply one_rec_next in E. apply IH; lia.
Qed.

(** The call of the probe function; [Some] is a status to return. *)
Definition call_efunc (cl : client A) : cm (option Z) :=
  s ← get;
  d ← ask (if flow then snd <$> dt_flowindent (c_pdat s) (c_last s) DTRACE_EPIDNONE else Some (c_pdat s));
  modify (set_pdat d);;
  r ← user (efunc cl d);
  modify (set_pdat (if flow && (dtpda_flow d =? DTRACEFLOW_ENTRY)
                    then mk_pdat (dtpda_epid d) (dtpda_ddesc d) (dtpda_pdesc d) (dtpda_cpu d) (dtpda_data d) (dtpda_flow d)
                           (dtpda_prefix d) (s32 (dtpda_indent d + 2))
                    else d));;
  if r =? DTRACE_CONSUME_NEXT then mret (Some DTRACE_WORKSTATUS_OKAY)
  else if r =? DTRACE_CONSUME_DONE then mret (Some DTRACE_WORKSTATUS_DONE)
  else if r =? DTRACE_CONSUME_ABORT then r ← dt_set_errno EDT_DIRABORT; mret (Some r)
  else if r =? DTRACE_CONSUME_THIS then mret None
  else r ← dt_set_errno EDT_BADRVAL; mret (Some r).

(** The records of a probe, and after them [rest]. *)
Definition consume_records (cl : client A) (committing : bool) (dd : dtrace_datadesc) (data : list Z) (size epid specid : Z)
    (rest : cm Z) : cm Z :=
  recs ← ask (match dtdd_recs dd with Some l => Some l | None => if dtdd_nrecs dd <=? 0 then Some [] else None end);
  scanned ← ask (if Z.to_nat (dtdd_nrecs dd) <=? length recs then Some (take (Z.to_nat (dtdd_nrecs dd)) recs) else None)%nat;
  let acts := if committing then [] else dtrd_action <$> scanned in
  let data_recording := negb (existsb is_end acts && forallb is_end acts) in
  r ← (if data_recording then call_efunc cl else mret None);
  match r with
  | Some r => mret r
  | None =>
      r ← rec_loop (Z.to_nat (dtdd_nrecs dd)) cl data_recording recs (dtdd_nrecs dd) data size specid 0;
      match r with
      | Some r => mret r
      | None =>
          (if data_recording then
             s ← get; user (rfunc cl (c_pdat s) None);; modify (set_last epid)
           else mret tt);;
          rest
      end
  end.

(** The common part of [dt_consume_one_probe]; [rest] is what is done for a record
    that is not part of a speculation when all else went well. *)
Definition consume_probe (cl : client A) (data : list Z) (size peekflags : Z) (committing : bool) (rest : cm Z) : cm Z :=
  epid ← ask (uint_at 4 data 0);
  specid ← ask (uint_at 4 data 4);
  let specid := s32 specid in
  r ← ask (dt_epid_lookup dtp epid);
  match r with
  | None =>
      modify (λ s, let d := c_pdat s in
        set_pdat (mk_pdat epid (dtpda_ddesc d) (dtpda_pdesc d) (dtpda_cpu d) data (dtpda_flow d) (dtpda_prefix d) (dtpda_indent d)) s);;
      dt_set_errno EDT_BADEPID
  | Some (ddp, pdp) =>
      modify (λ s, let d := c_pdat s in
        set_pdat (mk_pdat epid ddp pdp (dtpda_cpu d) data (dtpda_flow d) (dtpda_prefix d) (dtpda_indent d)) s);;
      dd ← ask (dds !! ddp);
      s ← get;
      r ← (if negb (dtdd_uarg ddp =? DT_ECB_DEFAULT) then dt_handle (dt_errhdlr cl) (c_pdat s) else mret DTRACE_CONSUME_THIS);
      if r =? DTRACE_CONSUME_NEXT then mret DTRACE_WORKSTATUS_OKAY
      else if r =? DTRACE_CONSUME_ERROR then mret DTRACE_WORKSTATUS_ERROR
      else if negb committing && negb (specid =? 0) then put_aside data size peekflags specid
      else consume_records cl committing dd data size epid specid rest
  end.

(** ** Commits *)

(** The data of a speculation that is being committed, with the probe data of the
    record that is being consumed apart from the CPU. *)
Fixpoint commit_loop (cl : client A) (peekflags : Z) (pdat : dtrace_probedata) (l : list dt_spec_buf_data) : cm Z :=
  match l with
  | [] => modify (set_pdat pdat);; mret DTRACE_WORKSTATUS_OKAY
  | dsbd :: l =>
      modify (set_pdat (mk_pdat (dtpda_epid pdat) (dtpda_ddesc pdat) (dtpda_pdesc pdat) (dsbd_cpu dsbd) (dtpda_data pdat)
                          (dtpda_flow pdat) (dtpda_prefix pdat) (dtpda_indent pdat)));;
      r ← consume_probe cl (dsbd_data dsbd) (dsbd_size dsbd) peekflags true (mret DTRACE_WORKSTATUS_OKAY);
      if negb (r =? DTRACE_WORKSTATUS_OKAY) then modify (set_pdat pdat);; mret r
      else commit_loop cl peekflags pdat l
  end.

Definition dt_commit_one_spec (cl : client A) (peekflags a : Z) : cm Z :=
  b ← get_buf a;
  s ← get;
  commit_loop cl peekflags (c_pdat s) (dtsb_dsbd_list b).

(** The speculations that are being drained. *)
Fixpoint drain_loop (cl : client A) (peekflags : Z) (done todo : list dtsb_draining) : cm Z :=
  match todo with
  | [] => mret DTRACE_WORKSTATUS_OKAY
  | dtsd :: todo =>
      let a := dtsd_dtsb dtsd in
      b ← get_buf a;
      let dtsd := mk_dtsd a (u64 (dtsd_read dtsd + Z.of_nat (length (dtsb_dsbd_list b)))) in
      modify (set_draining (done ++ dtsd :: todo));;
      r ← (if dtsb_committing b then dt_commit_one_spec cl peekflags a else mret DTRACE_WORKSTATUS_OKAY);
      if negb (r =? DTRACE_WORKSTATUS_OKAY) then dt_spec_buf_data_destroy a;; mret r
      else if dtsd_read dtsd <? written (dtsb_spec b) then
        dt_spec_buf_data_destroy a;; drain_loop cl peekflags (done ++ [dtsd]) todo
      else
        modify (set_draining (done ++ todo));;
        delete_buf a;;
        drain_loop cl peekflags done todo
  end.

Definition dt_consume_one_probe (cl : client A) (data : list Z) (size peekflags : Z) (committing : bool) : cm Z :=
  consume_probe cl data size peekflags committing
    (if committing then mret DTRACE_WORKSTATUS_OKAY
     else s ← get; drain_loop cl peekflags [] (dt_spec_bufs_draining s)).

(** ** Events of a ring buffer *)

(** [buf] are the bytes of the event. *)
Definition dt_consume_one (cl : client A) (buf : list Z) (peekflags : Z) : cm Z :=
  type ← ask (uint_at 4 buf 0);
  hsize ← ask (uint_at 2 buf 6);
  if type =? PERF_RECORD_SAMPLE then
    if hsize <? 8 then dt_set_errno EDT_DSIZE
    else
      size ← ask (uint_at 4 buf 8);
      if negb (8 + 4 + size =? hsize) then dt_set_errno EDT_DSIZE
      else dt_consume_one_probe cl (drop 16 buf) (u32 (size - 4)) peekflags false
  else mret DTRACE_WORKSTATUS_ERROR.

End Consumer.

(** ** Ring buffers *)

(** A buffer: the CPU, the bytes of the data area, the positions of the writer and
    of the reader, which only grow, and the position of the writer that was read
    last. *)
Record dt_peb := mk_peb {
  p_cpu : Z;
  p_data : list Z;
  data_head : Z;
  data_tail : Z;
  last_head : Z
}.

(** The state of a session: [x_tmp_len] is the size of the memory for events that wrap
    around, [x_kernel] what the kernel does to a buffer before each of the next reads
    of its head.  It is at rest when the list is empty. *)
Record session (A M : Type) := mk_session {
  x_c : cstate A M;
  x_pebs : gmap Z dt_peb;
  x_tmp_len : Z;
  x_kernel : gmap Z (list (dt_peb → dt_peb))
}.
Arguments mk_session {_ _}. Arguments x_c {_ _}. Arguments x_pebs {_ _}. Arguments x_tmp_len {_ _}. Arguments x_kernel {_ _}.

Section Session.
Context {A M : Type} `{BpfMap M dt_bpf_specs}.
Context (dtp : dtrace_hdl) (dds : ddheap) (dtdd_uarg : Z → Z) (pdescs : Z → dtrace_probedesc).
Context (al : gmap Z dt_spec_buf → Z) (specsize : Z) (flow : bool).
Context (fp : bool) (print : printer → dtrace_probedata → dtrace_recdesc → Z → list Z → Z → A → Z * A).
(** [pebset->data_size], and whether memory of a size can be had for an event. *)
Context (data_size : Z) (realloc_ok : Z → bool).

#[local] Abbreviation cstate := (cstate A M).
#[local] Abbreviation session := (session A M).
#[local] Abbreviation consume_one := (dt_consume_one dtp dds dtdd_uarg pdescs al specsize flow fp print).

Definition in_consumer {B} (m : cm A M B) (x : session) : option (B * session) :=
  '(b, c) ← m (x_c x);
  Some (b, mk_session c (x_pebs x) (x_tmp_len x) (x_kernel x)).

Definition put_peb (k : Z) (p : dt_peb) (x : session) : session :=
  mk_session (x_c x) (<[k := p]> (x_pebs x)) (x_tmp_len x) (x_kernel x).

(** [ring_buffer_read_head]: what the kernel did before the read is seen. *)
Definition ring_buffer_read_head (k : Z) (x : session) : option (Z * session) :=
  p ← x_pebs x !! k;
  match x_kernel x !! k with
  | Some (f :: fs) =>
      Some (data_head (f p), mk_session (x_c x) (<[k := f p]> (x_pebs x)) (x_tmp_len x) (<[k := fs]> (x_kernel x)))
  | _ => Some (data_head p, x)
  end.

Definition ring_buffer_write_tail (k tail : Z) (x : session) : option session :=
  p ← x_pebs x !! k;
  Some (put_peb k (mk_peb (p_cpu p) (p_data p) (data_head p) tail (last_head p)) x).

(** The bytes of an event, or a copy if it wraps around the end of the buffer; the
    header can be read whatever the length is.  [None] if the memory for the copy
    cannot be had, which is not checked. *)
Definition event_bytes (p : dt_peb) (off len : Z) (x : session) : option (list Z * session) :=
  if data_size - 1 <? off + len then
    let num := data_size - 1 - off + 1 in
    x ← (if x_tmp_len x <? len then
           if realloc_ok len then Some (mk_session (x_c x) (x_pebs x) len (x_kernel x)) else None
         else Some x);
    if (num <=? len) && (len - num <=? data_size)
    then Some (take (Z.to_nat num) (drop (Z.to_nat off) (p_data p)) ++ take (Z.to_nat (len - num)) (p_data p), x)
    else None
  else Some (take (Z.to_nat (Z.max 8 len)) (drop (Z.to_nat off) (p_data p)), x).

(** The events from [tail] to [head]: the new tail, or a status to return.  [fuel] is
    at least the number of events. *)
Fixpoint event_loop (fuel : nat) (cl : client A) (peekflags k tail head : Z) (x : session) : option ((Z + Z) * session) :=
  match fuel with
  | O => None
  | S fuel =>
      p ← x_pebs x !! k;
      let off := tail mod data_size in
      len ← uint_at 2 (p_data p) (off + 6);
      '(buf, x) ← event_bytes p off len x;
      '(r, x) ← in_consumer (consume_one cl buf peekflags) x;
      if r =? DTRACE_WORKSTATUS_DONE then Some (inr DTRACE_WORKSTATUS_OKAY, x)
      else if negb (r =? DTRACE_WORKSTATUS_OKAY) then Some (inr r, x)
      else
        let tail := u64 (tail + len) in
        if negb (tail =? head) then event_loop fuel cl peekflags k tail head x else Some (inl tail, x)
  end.

(** The outer loop ends when nothing is left to read. *)
Fixpoint buffer_loop (fuel : nat) (cl : client A) (peekflags k : Z) (x : session) : option (Z * session) :=
  match fuel with
  | O => None
  | S fuel =>
      '(head, x) ← (if (peekflags =? CONSUME_PEEK) || (peekflags =? CONSUME_PEEK_FINISH) then
                      p ← x_pebs x !! k; Some (last_head p, x)
                    else
                      '(head, x) ← ring_buffer_read_head k x;
                      p ← x_pebs x !! k;
                      Some (head, put_peb k (mk_peb (p_cpu p) (p_data p) (data_head p) (data_tail p) head) x));
      p ← x_pebs x !! k;
      let tail := data_tail p in
      if head =? tail then Some (DTRACE_WORKSTATUS_OKAY, x)
      else
        '(r, x) ← event_loop (Z.to_nat (u64 (head - tail))) cl peekflags k tail head x;
        match r with
        | inr r => Some (r, x)
        | inl tail =>
            x ← (if (peekflags =? 0) || (peekflags =? CONSUME_PEEK_FINISH) then ring_buffer_write_tail k tail x else Some x);
            if peekflags =? 0 then buffer_loop fuel cl peekflags k x else Some (DTRACE_WORKSTATUS_OKAY, x)
        end
  end.

(** Each turn of the loop sees one of the kernel's steps; when there are no more, one
    turn reads the rest and the next one ends the loop. *)
Definition dt_consume_cpu (cl : client A) (k peekflags : Z) (x : session) : option (Z * session) :=
  p ← x_pebs x !! k;
  let pdat := mk_pdat 0 0 0 (u32 (p_cpu p)) [] 0 None 0 in
  let x := mk_session (set_last DTRACE_EPIDNONE (set_pdat pdat (x_c x))) (x_pebs x) (x_tmp_len x) (x_kernel x) in
  buffer_loop (2 + length (default [] (x_kernel x !! k))) cl peekflags k x.

(** ** BEGIN first, END last *)

(** Whether a probe is dtrace:::BEGIN. *)
Definition is_begin (pd : dtrace_probedesc) : bool :=
  bool_decide (prv pd = str "dtrace") && bool_decide (prb pd = str "BEGIN").

(** The callbacks with which a buffer is consumed in two passes, the first for BEGIN
    only, the second for all others. *)
Definition begin_client (cl : client A) (beginonly : bool) : client A :=
  mk_client
    (λ d a, if Bool.eqb beginonly (is_begin (pdescs (dtpda_pdesc d))) then efunc cl d a else (DTRACE_CONSUME_NEXT, a))
    (rfunc cl)
    (Some (λ e a, if Bool.eqb beginonly (is_begin (pdescs (dteda_pdesc e))) then
                    f ← dt_errhdlr cl; f e a
                  else Some (DTRACE_HANDLE_OK, a))).

(** The buffers [events] in order, without those that [skip]; a status other than 0
    ends it. *)
Fixpoint consume_all (cl : client A) (skip : Z → dt_peb → bool) (events : list (option Z)) (x : session) : option (Z * session) :=
  match events with
  | [] => Some (DTRACE_WORKSTATUS_OKAY, x)
  | None :: events => consume_all cl skip events x
  | Some k :: events =>
      p ← x_pebs x !! k;
      if skip k p then consume_all cl skip events x
      else
        '(r, x) ← dt_consume_cpu cl k 0 x;
        if negb (r =? 0) then Some (r, x) else consume_all cl skip events x
  end.

(** The first buffer of the CPU [cpu]. *)
Fixpoint find_peb (x : session) (events : list (option Z)) (cpu : Z) : option (option Z) :=
  match events with
  | [] => Some None
  | None :: events => find_peb x events cpu
  | Some k :: events => p ← x_pebs x !! k; if p_cpu p =? cpu then Some (Some k) else find_peb x events cpu
  end.

(** [cpu] is [dt_beganon]. *)
Definition dt_consume_begin (cl : client A) (dt_stopped : bool) (dt_endedon cpu : Z) (events : list (option Z)) (x : session) :
    option (Z * session) :=
  b ← find_peb x events cpu;
  match b with
  | None => Some (DTRACE_WORKSTATUS_OKAY, x)
  | Some bk =>
      if negb dt_stopped || negb (cpu =? dt_endedon) then dt_consume_cpu cl bk 0 x
      else
        '(r, x) ← dt_consume_cpu (begin_client cl true) bk CONSUME_PEEK_START x;
        if negb (r =? 0) then Some (r, x)
        else
          '(r, x) ← consume_all cl (λ k _, k =? bk) events x;
          if negb (r =? 0) then Some (r, x)
          else dt_consume_cpu (begin_client cl false) bk CONSUME_PEEK_FINISH x
  end.

(** [dtrace_consume] after the wait for events, of which there are none in error, and
    the notifications about processes.  [beganon] is -1 when BEGIN has been dealt
    with. *)
Definition dtrace_consume (cl : client A) (dt_stopped : bool) (dt_endedon beganon : Z) (events : list (option Z)) (x : session) :
    option (Z * session) :=
  '(r, x) ← (if negb (beganon =? -1) then dt_consume_begin cl dt_stopped dt_endedon beganon events x else Some (0, x));
  if negb (r =? 0) then Some (r, x)
  else
    let skip (_ : Z) (p : dt_peb) := dt_stopped && (p_cpu p =? dt_endedon) in
    '(r, x) ← consume_all cl skip events x;
    if negb (r =? 0) then Some (r, x)
    else
      '(r, x) ← (match dt_spec_bufs_draining (x_c x) with [] => Some (0, x) | _ => consume_all cl skip events x end);
      if negb (r =? 0) then Some (r, x)
      else if negb dt_stopped then Some (0, x)
      else
        e ← find_peb x events dt_endedon;
        match e with
        | None => Some (DTRACE_WORKSTATUS_OKAY, x)
        | Some k => dt_consume_cpu cl k 0 x
        end.

End Session.

End Consume.
