(* ===== verification/ConsumeRing.v ===== *)
(** * A ring buffer is read to its end

    [holds] says which events are in a ring buffer.  While the kernel appends events
    the consumer reads each event once, in the order they were written, also those
    that wrap around the end of the buffer, and ends when the kernel is at rest and
    the buffer is empty.  An error leaves what was read since the head was last looked
    at in the buffer. *)
From S2P Require Import Prelude CLib DtMap BpfFuncs Consume.
#[local] Open Scope Z_scope.
Import DtMap BpfFuncs Consume.

Module ConsumeRing.

Definition total (evs : list (list Z)) : Z := Z.of_nat (length (concat evs)).

(** An event: its length is in its header, and a multiple of the length of the header. *)
Record event_ok (e : list Z) : Prop := {
  eo_min : 8 <= Z.of_nat (length e);
  eo_align : Z.of_nat (length e) mod 8 = 0;
  eo_size : uint_at 2 e 6 = Some (Z.of_nat (length e))
}.

Section Ring.
Context (data_size : Z).

(** The events [evs] are at the position [tail]. *)
Record at_pos (p : dt_peb) (tail : Z) (evs : list (list Z)) : Prop := {
  ap_size : Z.of_nat (length (p_data p)) = data_size;
  ap_tail : 0 <= tail;
  ap_align : tail mod 8 = 0 ∧ data_size mod 8 = 0 ∧ 0 < data_size;
  ap_events : Forall event_ok evs;
  ap_fit : total evs <= data_size;
  ap_bytes (i : nat) b : concat evs !! i = Some b → p_data p !! Z.to_nat ((tail + Z.of_nat i) mod data_size) = Some b
}.

(** The buffer has the events [evs] that have not been read. *)
Record holds (p : dt_peb) (evs : list (list Z)) : Prop := {
  ho_at : at_pos p (data_tail p) evs;
  ho_head : data_head p = data_tail p + total evs;
  ho_range : data_head p < 2 ^ 64
}.

Lemma events_total_app l k : total (l ++ k) = total l + total k.
Proof. unfold total. rewrite concat_app, length_app. lia. Qed.

Lemma events_total_cons e l : total (e :: l) = Z.of_nat (length e) + total l.
Proof. unfold total. cbn. rewrite length_app. lia. Qed.

Lemma total_pos l : 0 <= total l.
Proof. unfold total. lia. Qed.

Lemma at_tail p tail e evs : at_pos p tail (e :: evs) → at_pos p (tail + Z.of_nat (length e)) evs.
Proof.
  intros [H1 H2 [H3 [H4 H5]] H6 H7 H8]. inversion_clear H6 as [|? ? [E1 E2 E3] Hevs]. rewrite events_total_cons in H7. pose proof (total_pos evs). constructor; [done|lia| |done|lia|].
  - split_and!; [|done|done]. rewrite Z.add_mod, H3, E2 by lia. done.
  - intros i b Hb. rewrite <- Z.add_assoc, <- Nat2Z.inj_add. apply H8. cbn. rewrite lookup_app_r by lia. by replace (length e + i - length e)%nat with i by lia.
Qed.

(** Where the byte [i] of the event at [tail] is. *)
Lemma at_first p tail e evs (i : nat) b : at_pos p tail (e :: evs) → e !! i = Some b →
  p_data p !! Z.to_nat (let j := tail mod data_size + Z.of_nat i in if j <? data_size then j else j - data_size) = Some b.
Proof.
  intros [H1 H2 [H3 [H4 H5]] H6 H7 H8] Hi. pose proof (lookup_lt_Some _ _ _ Hi) as Hlt. specialize (H8 i b). cbn in H8. rewrite lookup_app_l in H8 by done.
  specialize (H8 Hi). rewrite events_total_cons in H7. pose proof (total_pos evs). pose proof (Z.mod_pos_bound tail data_size H5).
  replace ((tail + Z.of_nat i) mod data_size) with
    (let j := tail mod data_size + Z.of_nat i in if j <? data_size then j else j - data_size) in H8; [done|]. cbv zeta.
  rewrite Z.add_mod, (Z.mod_small (Z.of_nat i) data_size) by lia. destruct (Z.ltb_spec (tail mod data_size + Z.of_nat i) data_size).
  - by rewrite (Z.mod_small (tail mod data_size + _)) by lia.
  - apply Z.mod_unique_pos with 1; lia.
Qed.

Lemma off_align p tail evs : at_pos p tail evs → tail mod data_size + 8 <= data_size.
Proof.
  intros [_ _ [H3 [H4 H5]] _ _ _]. pose proof (Z.mod_pos_bound tail data_size H5) as Hb.
  assert ((tail mod data_size) mod 8 = 0) as Hm.
  { apply Z.mod_divide; [lia|]. apply Z.mod_divide in H3, H4; try lia. rewrite Z.mod_eq by lia. apply Z.divide_sub_r; [done|]. by apply Z.divide_mul_l. }
  apply Z.mod_divide in Hm as [a Ha], H4 as [c Hc]; try lia.
Qed.

(** The header is never split. *)
Lemma read_size p tail e evs : at_pos p tail (e :: evs) →
  uint_at 2 (p_data p) (tail mod data_size + 6) = Some (Z.of_nat (length e)).
Proof.
  intros Hat. pose proof (off_align _ _ _ Hat) as Hal. pose proof Hat as [H1 H2 [H3 [H4 H5]] H6 _ _]. inversion_clear H6 as [|? ? [E1 E2 E3] _].
  pose proof (Z.mod_pos_bound tail data_size H5). pose proof (λ i b, at_first _ _ _ _ i b Hat) as Hf. cbv zeta in Hf.
  set (off := tail mod data_size) in *. clearbody off. rewrite <- E3. unfold uint_at. rewrite H1.
  rewrite !(proj2 (andb_true_iff _ _)) by (rewrite !Z.leb_le; lia). do 2 f_equal.
  apply list_eq_same_length with 2%nat; [rewrite length_take, length_drop; lia..|]. intros i a b Hi.
  rewrite !lookup_take_lt, !lookup_drop by lia. intros Ha Hb. specialize (Hf _ _ Hb).
  rewrite (proj2 (Z.ltb_lt _ _)) in Hf by lia. replace (Z.to_nat (off + 6) + i)%nat with (Z.to_nat (off + Z.of_nat (Z.to_nat 6 + i))) in Ha by lia. congruence.
Qed.

End Ring.

Section Session.
Context {A M : Type} `{BpfMap M dt_bpf_specs}.
Context (dtp : dtrace_hdl) (dds : ddheap) (dtdd_uarg : Z → Z) (pdescs : Z → dtrace_probedesc).
Context (al : gmap Z dt_spec_buf → Z) (specsize : Z) (flow : bool).
Context (fp : bool) (print : printer → dtrace_probedata → dtrace_recdesc → Z → list Z → Z → A → Z * A).
Context (data_size : Z) (realloc_ok : Z → bool).
Hypothesis enough : ∀ n, realloc_ok n = true.

#[local] Abbreviation session := (session A M).
#[local] Abbreviation consume_one := (dt_consume_one dtp dds dtdd_uarg pdescs al specsize flow fp print).
#[local] Abbreviation at_pos := (at_pos data_size).
#[local] Abbreviation holds := (holds data_size).
#[local] Abbreviation event_bytes := (event_bytes data_size realloc_ok).
#[local] Abbreviation event_loop := (event_loop dtp dds dtdd_uarg pdescs al specsize flow fp print data_size realloc_ok).
#[local] Abbreviation buffer_loop := (buffer_loop dtp dds dtdd_uarg pdescs al specsize flow fp print data_size realloc_ok).

(** The events one after the other. *)
Fixpoint consume_events (cl : client A) (peekflags : Z) (evs : list (list Z)) : cm A M Z :=
  match evs with
  | [] => mret DTRACE_WORKSTATUS_OKAY
  | e :: evs =>
      r ← consume_one cl e peekflags;
      if negb (r =? DTRACE_WORKSTATUS_OKAY) then mret r else consume_events cl peekflags evs
  end.

(** The bytes of an event are put together again when it wraps around. *)
Lemma event_bytes_at p tail e evs (x : session) : at_pos p tail (e :: evs) →
  ∃ t, event_bytes p (tail mod data_size) (Z.of_nat (length e)) x = Some (e, mk_session (x_c x) (x_pebs x) t (x_kernel x)).
Proof.
  intros Hat. pose proof (off_align _ _ _ _ Hat) as Hal. pose proof Hat as [H1 H2 [H3 [H4 H5]] H6 H7 _].
  inversion_clear H6 as [|? ? [E1 E2 E3] _]. pose proof (Z.mod_pos_bound tail data_size H5) as Hb. rewrite events_total_cons in H7. pose proof (total_pos evs).
  pose proof (λ i b, at_first _ _ _ _ _ i b Hat) as Hf. cbv zeta in Hf. set (off := tail mod data_size) in *. clearbody off.
  unfold Consume.event_bytes. destruct (Z.ltb_spec (data_size - 1) (off + Z.of_nat (length e))).
  - assert (∃ t, (if x_tmp_len x <? Z.of_nat (length e) then if realloc_ok (Z.of_nat (length e)) then Some (mk_session (x_c x) (x_pebs x) (Z.of_nat (length e)) (x_kernel x)) else None else Some x)
      = Some (mk_session (x_c x) (x_pebs x) t (x_kernel x))) as [t ->].
    { rewrite enough. destruct (x_tmp_len x <? Z.of_nat (length e)); [by eexists|]. exists (x_tmp_len x). by destruct x. }
    exists t. cbn [mbind option_bind]. rewrite (proj2 (andb_true_iff _ _)) by (rewrite !Z.leb_le; lia). do 2 f_equal.
    apply list_eq_same_length with (length e); [done|rewrite length_app, !length_take, length_drop; lia|]. intros i a b Hi Ha Hb'.
    specialize (Hf _ _ Hb') as Hc. destruct (Z.ltb_spec (off + Z.of_nat i) data_size).
    + rewrite lookup_app_l, lookup_take_lt, lookup_drop in Ha by (rewrite ?length_take, ?length_drop; lia).
      replace (Z.to_nat off + i)%nat with (Z.to_nat (off + Z.of_nat i)) in Ha by lia. congruence.
    + rewrite lookup_app_r, length_take, length_drop, lookup_take_lt in Ha by (rewrite ?length_take, ?length_drop; lia).
      replace (i - _)%nat with (Z.to_nat (off + Z.of_nat i - data_size)) in Ha by lia. congruence.
  - exists (x_tmp_len x). replace (Z.max 8 (Z.of_nat (length e))) with (Z.of_nat (length e)) by lia. destruct x as [c pb t ke]. cbn. do 2 f_equal. f_equal.
    apply list_eq_same_length with (length e); [done|rewrite length_take, length_drop; lia|]. intros i a b Hi Ha Hb'.
    specialize (Hf _ _ Hb') as Hc. rewrite (proj2 (Z.ltb_lt _ _)) in Hc by lia.
    rewrite lookup_take_lt, lookup_drop in Ha by lia. replace (Z.to_nat off + i)%nat with (Z.to_nat (off + Z.of_nat i)) in Ha by lia. congruence.
Qed.

(** The status that the loop returns when it does not go on. *)
Definition stop_status (r : Z) : Z := if r =? DTRACE_WORKSTATUS_DONE then DTRACE_WORKSTATUS_OKAY else r.

Lemma event_loop_spec cl peek k p evs : ∀ tail fuel (x : session), evs ≠ [] → at_pos p tail evs → x_pebs x !! k = Some p →
  tail + total evs < 2 ^ 64 → (length evs <= fuel)%nat →
  match consume_events cl peek evs (x_c x) with
  | None => event_loop fuel cl peek k tail (tail + total evs) x = None
  | Some (r, c) => ∃ t, event_loop fuel cl peek k tail (tail + total evs) x =
      Some (if r =? DTRACE_WORKSTATUS_OKAY then inl (tail + total evs) else inr (stop_status r), mk_session c (x_pebs x) t (x_kernel x))
  end.
Proof.
  induction evs as [|e evs IH]; [done|]. intros tail fuel x _ Hat Hp Hlt Hfuel. destruct fuel as [|fuel]; [cbn in Hfuel; lia|].
  destruct (event_bytes_at _ _ _ _ x Hat) as [t Ht]. cbn [Consume.event_loop consume_events]. rewrite Hp. cbn [mbind option_bind cm_bind].
  rewrite (read_size _ _ _ _ _ Hat). cbn [mbind option_bind]. rewrite Ht. cbn [mbind option_bind]. unfold in_consumer. cbn [x_c x_pebs x_kernel x_tmp_len].
  rewrite cm_run. destruct (consume_one cl e peek (x_c x)) as [[r c]|]; [|done]. cbn [mbind option_bind]. unfold stop_status.
  destruct (Z.eqb_spec r DTRACE_WORKSTATUS_OKAY) as [->|Hr]; cbn [negb].
  2:{ exists t. destruct (Z.eqb_spec r DTRACE_WORKSTATUS_DONE) as [->|]; [done|]. rewrite (proj2 (Z.eqb_neq _ _) Hr). done. }
  cbn [DTRACE_WORKSTATUS_DONE DTRACE_WORKSTATUS_OKAY Z.eqb negb]. rewrite events_total_cons in *. pose proof (total_pos evs) as Hpos.
  pose proof (ap_tail _ _ _ _ Hat) as H0. pose proof (ap_events _ _ _ _ Hat) as Hev. inversion_clear Hev as [|? ? [E1 _ _] Hevs].
  rewrite (wrap_id 64) by (unfold urange; lia). pose proof (at_tail _ _ _ _ _ Hat) as Hat'.
  destruct (decide (evs = [])) as [->|Hne].
  - cbn [consume_events mret cm_ret]. exists t. change (total []) with 0. rewrite Z.add_0_r, Z.eqb_refl. done.
  - assert (0 < total evs) as Hgt.
    { destruct evs as [|e' evs']; [done|]. inversion_clear Hevs as [|? ? [? _ _] _]. rewrite events_total_cons. pose proof (total_pos evs'). lia. }
    rewrite (proj2 (Z.eqb_neq (tail + Z.of_nat (length e)) _)) by lia. cbn [negb].
    specialize (IH (tail + Z.of_nat (length e)) fuel (mk_session c (x_pebs x) t (x_kernel x)) Hne Hat' Hp ltac:(lia) ltac:(cbn in Hfuel; lia)).
    cbn [x_c x_pebs x_kernel] in IH. rewrite <- Z.add_assoc in IH. exact IH.
Qed.

(** ** The kernel *)

(** The kernel appends [new] if there is room, and leaves alone what has not been read. *)
Definition writes (f : dt_peb → dt_peb) (new : list (list Z)) : Prop := ∀ p evs, holds p evs →
  total evs + total new <= data_size → data_head p + total new < 2 ^ 64 →
  holds (f p) (evs ++ new) ∧ data_tail (f p) = data_tail p ∧ p_cpu (f p) = p_cpu p.

(** What is in the buffer whenever the consumer looks at the head, if the kernel
    writes [news]. *)
Definition batches (evs : list (list Z)) (news : list (list (list Z))) : list (list (list Z)) :=
  match news with
  | [] => match evs with [] => [] | _ => [evs] end
  | new :: news => (evs ++ new) :: news
  end.

(** What is left when the consumer stops: nothing, or a whole batch. *)
Definition leftover (bs : list (list (list Z))) (p p' : dt_peb) (ks ks' : list (dt_peb → dt_peb)) (r : Z) : Prop :=
  if r =? DTRACE_WORKSTATUS_OKAY then holds p' [] ∧ data_tail p' = data_tail p + total (concat bs) ∧ ks' = []
  else ∃ n b, bs !! n = Some b ∧ holds p' b ∧ data_tail p' = data_tail p + total (concat (take n bs)) ∧ ks' = drop (S n) ks.

Lemma length_total evs : Forall event_ok evs → Z.of_nat (length evs) <= total evs.
Proof. induction 1 as [|e evs [He _ _] _ IH]; [done|]. rewrite events_total_cons. cbn [length]. lia. Qed.

Lemma consume_events_app cl peek l1 l2 (c : cstate A M) : consume_events cl peek (l1 ++ l2) c =
  match consume_events cl peek l1 c with
  | Some (r, c') => if r =? DTRACE_WORKSTATUS_OKAY then consume_events cl peek l2 c' else Some (r, c')
  | None => None
  end.
Proof.
  revert c. induction l1 as [|e l1 IH]; intros c; [done|]. cbn [consume_events app]. rewrite !cm_run.
  destruct (consume_one cl e peek c) as [[r c']|]; [|done]. destruct (Z.eqb_spec r DTRACE_WORKSTATUS_OKAY) as [->|Hr]; cbn [negb]; [apply IH|].
  cbn [mret cm_ret]. by rewrite (proj2 (Z.eqb_neq _ _) Hr).
Qed.

Definition seen_head (p : dt_peb) : dt_peb := mk_peb (p_cpu p) (p_data p) (data_head p) (data_tail p) (data_head p).
Definition all_read (p : dt_peb) : dt_peb := mk_peb (p_cpu p) (p_data p) (data_head p) (data_head p) (data_head p).

Lemma holds_seen p evs : holds p evs → holds (seen_head p) evs.
Proof. intros [[H1 H2 H3 H4 H5 H6] H7 H8]. constructor; [by constructor|done|done]. Qed.

Lemma holds_read p evs : holds p evs → holds (all_read p) [].
Proof.
  intros [[H1 H2 (H3 & H4 & H4') H5 H6 H7] H8 H9]. pose proof (total_pos evs). constructor; cbn; [|unfold total; cbn; lia|done].
  constructor; cbn; [done|lia| |done|unfold total; cbn; lia|done]. split_and!; [|done|done].
  rewrite H8, Z.add_mod, H3 by lia. assert (total evs mod 8 = 0) as ->; [|done].
  clear -H5. induction H5 as [|e evs [_ He _] _ IH]; [done|]. rewrite events_total_cons, Z.add_mod, He, IH by lia. done.
Qed.

(** A turn of the outer loop in which the events [b] are in the buffer. *)
Lemma read_batch cl k fuel (x x1 : session) p b : ring_buffer_read_head k x = Some (data_head p, x1) → x_pebs x1 !! k = Some p → holds p b →
  match consume_events cl 0 b (x_c x1) with
  | None => buffer_loop (S fuel) cl 0 k x = None
  | Some (r, c) => ∃ t, buffer_loop (S fuel) cl 0 k x =
      if decide (b = []) then Some (DTRACE_WORKSTATUS_OKAY, put_peb k (seen_head p) x1)
      else if r =? DTRACE_WORKSTATUS_OKAY then buffer_loop fuel cl 0 k (mk_session c (<[k := all_read p]> (x_pebs x1)) t (x_kernel x1))
      else Some (stop_status r, mk_session c (<[k := seen_head p]> (x_pebs x1)) t (x_kernel x1))
  end.
Proof.
  intros Hread Hp Hb. cbn [Consume.buffer_loop]. change ((0 =? CONSUME_PEEK) || (0 =? CONSUME_PEEK_FINISH)) with false. cbn iota.
  rewrite Hread. cbn [mbind option_bind]. rewrite Hp. cbn [mbind option_bind]. fold (seen_head p).
  assert (x_pebs (put_peb k (seen_head p) x1) !! k = Some (seen_head p)) as Hx by apply lookup_insert_eq.
  rewrite Hx. cbn [mbind option_bind]. change (data_tail (seen_head p)) with (data_tail p).
  destruct (decide (b = [])) as [->|Hne].
  { exists 0. destruct Hb as [_ -> _]. change (total []) with 0. by rewrite Z.add_0_r, Z.eqb_refl. }
  destruct (holds_seen _ _ Hb) as [Hat _ _]. destruct Hb as [_ Hhead Hlt]. pose proof (ap_tail _ _ _ _ Hat) as H0. change (data_tail (seen_head p)) with (data_tail p) in Hat, H0.
  pose proof (length_total _ (ap_events _ _ _ _ Hat)) as Hlen. assert (0 < total b) as Hgt by (destruct b; [done|cbn [length] in Hlen; lia]).
  rewrite (proj2 (Z.eqb_neq (data_head p) (data_tail p))) by lia. replace (u64 (data_head p - data_tail p)) with (total b) by (rewrite wrap_id; unfold urange; lia).
  pose proof (event_loop_spec cl 0 k (seen_head p) b (data_tail p) (Z.to_nat (total b)) _ Hne Hat Hx ltac:(lia) ltac:(lia)) as Hloop. rewrite <- Hhead in Hloop.
  change (x_c (put_peb k (seen_head p) x1)) with (x_c x1) in Hloop. destruct (consume_events cl 0 b (x_c x1)) as [[r c]|]; [|by rewrite Hloop].
  destruct Hloop as [t ->]. exists t. cbn [mbind option_bind]. destruct (r =? DTRACE_WORKSTATUS_OKAY); [|done].
  cbn [Z.eqb orb]. unfold ring_buffer_write_tail. cbn [x_pebs]. rewrite Hx. cbn [mbind option_bind]. unfold put_peb.
  cbn [x_c x_pebs x_kernel x_tmp_len seen_head p_cpu p_data data_head last_head]. by rewrite insert_insert_eq.
Qed.

#[local] Abbreviation kernel_of x k := (default [] (x_kernel x !! k)).

(** The kernel is at rest. *)
Lemma read_rest k (x : session) p : x_pebs x !! k = Some p → kernel_of x k = [] → ring_buffer_read_head k x = Some (data_head p, x).
Proof. intros Hp Hk. unfold ring_buffer_read_head. rewrite Hp. cbn. destruct (x_kernel x !! k) as [[|]|]; by simplify_eq/=. Qed.

Lemma read_step k (x : session) p f ks : x_pebs x !! k = Some p → kernel_of x k = f :: ks →
  ring_buffer_read_head k x = Some (data_head (f p), mk_session (x_c x) (<[k := f p]> (x_pebs x)) (x_tmp_len x) (<[k := ks]> (x_kernel x))).
Proof. intros Hp Hk. unfold ring_buffer_read_head. rewrite Hp. cbn. destruct (x_kernel x !! k) as [[|]|]; by simplify_eq/=. Qed.

(** [x'] is [x] after the buffer [k] was read. *)
Record reads (k : Z) (x x' : session) (c : cstate A M) (p' : dt_peb) : Prop := {
  rd_c : x_c x' = c;
  rd_pebs : x_pebs x' = <[k := p']> (x_pebs x);
  rd_kernel j : j ≠ k → x_kernel x' !! j = x_kernel x !! j
}.

(** The last turns, when the kernel is at rest. *)
Lemma buffer_loop_rest cl k (x : session) p evs : x_pebs x !! k = Some p → holds p evs → kernel_of x k = [] →
  match consume_events cl 0 evs (x_c x) with
  | None => buffer_loop 2 cl 0 k x = None
  | Some (r, c) => ∃ x' p', buffer_loop 2 cl 0 k x = Some (stop_status r, x') ∧ reads k x x' c p' ∧ leftover (batches evs []) p p' [] (kernel_of x' k) r
  end.
Proof.
  intros Hp Hb Hk. pose proof (read_batch cl k 1 x x p evs (read_rest k x p Hp Hk) Hp Hb) as Hread.
  destruct (consume_events cl 0 evs (x_c x)) as [[r c]|] eqn:Ec; [|exact Hread]. destruct Hread as [t ->].
  destruct (decide (evs = [])) as [->|Hne].
  { injection Ec as <- <-. exists (put_peb k (seen_head p) x), (seen_head p). split_and!; [done|by constructor|]. split_and!; [by apply holds_seen|unfold total; cbn; lia|done]. }
  unfold leftover. replace (batches evs []) with [evs] by (by destruct evs). destruct (Z.eqb_spec r DTRACE_WORKSTATUS_OKAY) as [->|Hr].
  - set (x2 := mk_session c (<[k := all_read p]> (x_pebs x)) t (x_kernel x)).
    assert (x_pebs x2 !! k = Some (all_read p)) as Hp2 by apply lookup_insert_eq. pose proof (holds_read _ _ Hb) as Hb2.
    destruct (read_batch cl k 0 x2 x2 _ [] (read_rest k x2 _ Hp2 Hk) Hp2 Hb2) as [t2 ->]. cbn [decide].
    exists (put_peb k (seen_head (all_read p)) x2), (seen_head (all_read p)). split_and!; [done| |by apply holds_seen| |done].
    + constructor; [done| |done]. cbn. by rewrite insert_insert_eq.
    + destruct Hb as [_ Hh _]. cbn. by rewrite app_nil_r.
  - exists (mk_session c (<[k := seen_head p]> (x_pebs x)) t (x_kernel x)), (seen_head p). split_and!; [done|by constructor|].
    exists 0%nat, evs. split_and!; [done|by apply holds_seen|unfold total; cbn; lia|done].
Qed.

Lemma leftover_later b bs p p1 p' ks ks' f r : data_tail p1 = data_tail p + total b →
  leftover bs p1 p' ks ks' r → leftover (b :: bs) p p' (f :: ks) ks' r.
Proof.
  intros Hp1. unfold leftover. destruct (r =? DTRACE_WORKSTATUS_OKAY).
  - intros (H1 & H2 & H3). split_and!; [done| |done]. rewrite H2, Hp1. cbn [concat]. rewrite events_total_app. lia.
  - intros (n & b' & Hn & H1 & H2 & H3). exists (S n), b'. split_and!; [done|done| |done]. rewrite H2, Hp1. cbn [take concat]. rewrite events_total_app. lia.
Qed.

Lemma batches_nil news : batches [] news = news.
Proof. by destruct news. Qed.

Lemma buffer_loop_spec cl k news : ∀ ks evs p (x : session), x_pebs x !! k = Some p → holds p evs → kernel_of x k = ks →
  Forall2 writes ks news → Forall (λ new, new ≠ []) news → Forall (λ b, total b <= data_size) (batches evs news) →
  data_tail p + total (concat (batches evs news)) < 2 ^ 64 →
  match consume_events cl 0 (concat (batches evs news)) (x_c x) with
  | None => buffer_loop (2 + length ks) cl 0 k x = None
  | Some (r, c) => ∃ x' p', buffer_loop (2 + length ks) cl 0 k x = Some (stop_status r, x') ∧ reads k x x' c p' ∧
      leftover (batches evs news) p p' ks (kernel_of x' k) r
  end.
Proof.
  induction news as [|new news IH]; intros ks evs p x Hp Hb Hk Hw Hne Hfit Hlt.
  { destruct ks; [|by inversion Hw]. replace (concat (batches evs [])) with evs by (destruct evs; [done|by cbn; rewrite app_nil_r]). by apply buffer_loop_rest. }
  destruct ks as [|f ks']; [by inversion Hw|]. apply Forall2_cons in Hw as [Hf Hw']. apply Forall_cons in Hne as [Hn Hne]. cbn [batches] in *. apply Forall_cons in Hfit as [Hfit Hfits].
  cbn [concat] in *. rewrite !events_total_app in Hlt. rewrite events_total_app in Hfit. pose proof (ap_tail _ _ _ _ (ho_at _ _ _ Hb)) as H0. pose proof (total_pos (concat news)) as Hpos.
  destruct (Hf p evs Hb) as (Hb1 & Ht1 & _); [lia|destruct Hb as [_ Hh _]; lia|]. rewrite consume_events_app. cbn [length].
  pose proof (read_step k x p f ks' Hp Hk) as Hread.
  set (x1 := mk_session (x_c x) (<[k := f p]> (x_pebs x)) (x_tmp_len x) (<[k := ks']> (x_kernel x))) in Hread.
  assert (x_pebs x1 !! k = Some (f p)) as Hp1 by apply lookup_insert_eq.
  pose proof (read_batch cl k (2 + length ks') x x1 (f p) (evs ++ new) Hread Hp1 Hb1) as Hturn. change (x_c x1) with (x_c x) in Hturn.
  change (2 + S (length ks'))%nat with (S (2 + length ks')). destruct (consume_events cl 0 (evs ++ new) (x_c x)) as [[r c]|]; [|exact Hturn]. destruct Hturn as [t ->].
  destruct (decide (evs ++ new = [])) as [E|_]; [by apply app_nil in E as [_ ?]|]. destruct (Z.eqb_spec r DTRACE_WORKSTATUS_OKAY) as [->|Hr].
  - set (x2 := mk_session c (<[k := all_read (f p)]> (x_pebs x1)) t (x_kernel x1)).
    specialize (IH ks' [] (all_read (f p)) x2). rewrite batches_nil in IH.
    assert (data_tail (all_read (f p)) = data_tail p + total (evs ++ new)) as Htail by (destruct Hb1 as [_ Hh _]; cbn; lia).
    specialize (IH (lookup_insert_eq _ _ _) (holds_read _ _ Hb1)). cbn [x2 x1 x_kernel] in IH. rewrite lookup_insert_eq in IH.
    specialize (IH eq_refl Hw' Hne Hfits). rewrite Htail, events_total_app in IH. specialize (IH ltac:(lia)). change (x_c x2) with c in IH.
    destruct (consume_events cl 0 (concat news) c) as [[r' c']|]; [|exact IH]. destruct IH as (x' & p' & -> & [R1 R2 R3] & Hleft).
    exists x', p'. split_and!; [done| |by eapply leftover_later].
    constructor; [done| |].
    + rewrite R2. cbn. by rewrite !insert_insert_eq.
    + intros j Hj. rewrite R3 by done. cbn. by rewrite lookup_insert_ne.
  - exists (mk_session c (<[k := seen_head (f p)]> (x_pebs x1)) t (x_kernel x1)), (seen_head (f p)). split_and!; [done| |].
    + constructor; [done| |]; cbn; [by rewrite insert_insert_eq|]. intros j Hj. by rewrite lookup_insert_ne.
    + unfold leftover. rewrite (proj2 (Z.eqb_neq _ _) Hr). exists 0%nat, (evs ++ new). split_and!; [done|by apply holds_seen|cbn; unfold total; cbn; lia|].
      cbn. by rewrite lookup_insert_eq.
Qed.

(** The consumer's state when it begins with the buffer of [cpu]. *)
Definition fresh_cpu (cpu : Z) (c : cstate A M) : cstate A M :=
  set_last DTRACE_EPIDNONE (set_pdat (mk_pdat 0 0 0 (u32 cpu) [] 0 None 0) c).

(** C8: The buffer of a CPU is a queue.  If it has the events [evs], and the kernel writes
    [news] while the consumer reads, then the consumer handles exactly these events,
    each of them once and in the order they were written, wherever they wrap around
    the end of the buffer, and returns when the kernel is at rest, with an empty
    buffer.  If an event makes it stop, with an error or because the client has seen
    enough, the events since it last looked at the head are all still in the buffer,
    those handled included, and the kernel's later steps are still to come. *)
Theorem dt_consume_cpu_drains cl k (x : session) p ks evs news :
  x_pebs x !! k = Some p → holds p evs → kernel_of x k = ks → Forall2 writes ks news → Forall (λ new, new ≠ []) news →
  Forall (λ b, total b <= data_size) (batches evs news) → data_tail p + total (concat (batches evs news)) < 2 ^ 64 →
  match consume_events cl 0 (concat (batches evs news)) (fresh_cpu (p_cpu p) (x_c x)) with
  | None => dt_consume_cpu dtp dds dtdd_uarg pdescs al specsize flow fp print data_size realloc_ok cl k 0 x = None
  | Some (r, c) => ∃ x' p',
      dt_consume_cpu dtp dds dtdd_uarg pdescs al specsize flow fp print data_size realloc_ok cl k 0 x = Some (stop_status r, x') ∧
      reads k x x' c p' ∧ leftover (batches evs news) p p' ks (kernel_of x' k) r
  end.
Proof.
  intros Hp Hb Hk Hw Hne Hfit Hlt. unfold dt_consume_cpu. rewrite Hp. cbn [mbind option_bind x_kernel]. rewrite Hk.
  pose proof (buffer_loop_spec cl k news ks evs p
    (mk_session (fresh_cpu (p_cpu p) (x_c x)) (x_pebs x) (x_tmp_len x) (x_kernel x)) Hp Hb Hk Hw Hne Hfit Hlt) as Hloop. cbn [x_c] in Hloop.
  destruct (consume_events _ _ _ _) as [[r c]|]; [|exact Hloop]. destruct Hloop as (x' & p' & E & [R1 R2 R3] & Hleft).
  exists x', p'. split_and!; [exact E|by constructor|done].
Qed.

End Session.

End ConsumeRing.
