(* ===== verification/ConsumeExample.v ===== *)
(** * Consuming a buffer

    A kernel that writes events into a ring buffer, a client that remembers the data
    it is given, and a buffer of 64 bytes with an event that wraps around its end, to
    which the kernel adds another one while it is being read.  After that, what the
    consumer makes of speculations, in the orders in which their records can come. *)
From S2P Require Import Prelude CLib DtMap BpfFuncs Consume ConsumeRing.
#[local] Open Scope Z_scope.
Import DtMap BpfFuncs Consume ConsumeRing.

Module ConsumeExample.

(** ** A kernel *)

Definition kernel_write (data_size : Z) (new : list (list Z)) (p : dt_peb) : dt_peb :=
  mk_peb (p_cpu p)
    (imap (λ i b, default b (concat new !! Z.to_nat ((Z.of_nat i - data_head p) mod data_size))) (p_data p))
    (data_head p + total new) (data_tail p) (last_head p).

Lemma write_keeps data_size p new (j : Z) b : Z.of_nat (length (p_data p)) = data_size → 0 < data_size →
  p_data p !! Z.to_nat (j mod data_size) = Some b →
  p_data (kernel_write data_size new p) !! Z.to_nat (j mod data_size) =
    Some (default b (concat new !! Z.to_nat ((j - data_head p) mod data_size))).
Proof.
  intros Hl Hpos Hb. cbn [kernel_write p_data]. rewrite list_lookup_imap, Hb. cbn. pose proof (Z.mod_pos_bound j data_size Hpos).
  rewrite Z2Nat.id by lia. by rewrite Zminus_mod_idemp_l.
Qed.

Lemma kernel_writes data_size new : Forall event_ok new → writes data_size (kernel_write data_size new) new.
Proof.
  intros Hnew p evs [[H1 H2 (H3 & H4 & H5) H6 H7 H8] Hh Hr] Hfit Hlt. pose proof (total_pos evs). pose proof (total_pos new).
  split_and!; [|done|done]. constructor; cbn [kernel_write data_head data_tail]; [|rewrite events_total_app; lia|lia].
  constructor; cbn [kernel_write data_tail]; [|done|done|by apply Forall_app|rewrite events_total_app; lia|].
  { cbn [kernel_write p_data]. by rewrite length_imap. }
  intros i b Hi. rewrite concat_app in Hi. pose proof (lookup_lt_Some _ _ _ Hi) as Hlen. rewrite length_app in Hlen. unfold total in *.
  assert (∃ b0, p_data p !! Z.to_nat ((data_tail p + Z.of_nat i) mod data_size) = Some b0) as [b0 Hb0].
  { apply lookup_lt_is_Some. pose proof (Z.mod_pos_bound (data_tail p + Z.of_nat i) data_size H5). lia. }
  fold (kernel_write data_size new p). rewrite (write_keeps _ _ _ _ b0) by done. f_equal. rewrite Hh.
  replace (data_tail p + Z.of_nat i - (data_tail p + Z.of_nat (length (concat evs)))) with (Z.of_nat i - Z.of_nat (length (concat evs))) by lia.
  apply lookup_app_Some in Hi as [Hi|[Hge Hi]].
  - pose proof (lookup_lt_Some _ _ _ Hi). rewrite <- (Z.mod_unique_pos _ _ (-1) (Z.of_nat i - Z.of_nat (length (concat evs)) + data_size)) by lia.
    rewrite lookup_ge_None_2 by lia. cbn. specialize (H8 i b Hi). congruence.
  - pose proof (lookup_lt_Some _ _ _ Hi). rewrite Z.mod_small by lia.
    replace (Z.to_nat _) with (i - length (concat evs))%nat by lia. by rewrite Hi.
Qed.

(** ** A client and an enabled probe *)

Definition log : Type := list (Z * list Z).
Definition remember : client log :=
  mk_client (λ d a, (DTRACE_CONSUME_THIS, a ++ [(dtpda_cpu d, dtpda_data d)])) (λ _ _ a, (DTRACE_CONSUME_NEXT, a)) None.
Definition no_print : printer → dtrace_probedata → dtrace_recdesc → Z → list Z → Z → log → Z * log := λ _ _ _ _ _ _ a, (0, a).

(** The enabled probe 1 records eight bytes, the enabled probe 2 commits a speculation. *)
Definition handle : dtrace_hdl := mk_hdl 0 3 3 (Some [0; 5; 6]) (Some [0; 7; 7]) [] 0 None.
Definition descs : ddheap :=
  {[ 5 := mk_ddesc 1 (Some [mk_rec 1 8 8 8 0 0]) 1; 6 := mk_ddesc 1 (Some [mk_rec DTRACEACT_COMMIT 4 8 4 0 0]) 1 ]}.
Definition probe (_ : Z) : dtrace_probedesc := mk_pdesc 3 (str "syscall") (str "entry").
Definition next_addr (h : gmap Z dt_spec_buf) : Z := 1 + Z.of_nat (size h).

Definition record (v : Z) : list Z := [1; 0; 0; 0; 0; 0; 0; 0; v; 0; 0; 0; 0; 0; 0; 0].
Definition event (v : Z) : list Z := [9; 0; 0; 0; 0; 0; 32; 0; 20; 0; 0; 0; 0; 0; 0; 0] ++ record v.

Lemma event_good v : event_ok (event v).
Proof. by constructor. Qed.

(** ** The buffer, at position 48 *)

Definition empty : dt_peb := mk_peb 2 (replicate 64 0) 48 48 0.
Definition buffer : dt_peb := kernel_write 64 [event 7] empty.
Definition consumer : cstate log (gmap Z dt_bpf_specs) := mk_cs [] ∅ ∅ ∅ [] 0 [] (mk_pdat 0 0 0 0 [] 0 None 0) 0.
Definition start : session log (gmap Z dt_bpf_specs) := mk_session consumer {[ 0 := buffer ]} 0 {[ 0 := [kernel_write 64 [event 8]] ]}.

Lemma empty_holds : holds 64 empty [].
Proof. by repeat constructor. Qed.

Lemma buffer_holds : holds 64 buffer [event 7].
Proof. by destruct (kernel_writes 64 [event 7] ltac:(by repeat constructor) empty [] empty_holds) as [? _]. Qed.

Lemma dt_consume_cpu_drains_witness : ∃ x' p',
  @dt_consume_cpu _ _ (hash_map 4) handle descs (λ _, 0) probe next_addr 1000 false true no_print 64 (λ _, true) remember 0 0 start = Some (0, x') ∧
  c_user (x_c x') = [(2, record 7); (2, record 8)] ∧ x_pebs x' !! 0 = Some p' ∧ data_tail p' = 112 ∧ holds 64 p' [].
Proof.
  pose proof (@dt_consume_cpu_drains _ _ (hash_map 4) handle descs (λ _, 0) probe next_addr 1000 false true no_print 64 (λ _, true) (λ _, eq_refl)
    remember 0 start buffer [kernel_write 64 [event 8]] [event 7] [[event 8]] eq_refl buffer_holds eq_refl) as Hd.
  assert (∃ c, @consume_events _ _ (hash_map 4) handle descs (λ _, 0) probe next_addr 1000 false true no_print remember 0
    (concat (batches [event 7] [[event 8]])) (fresh_cpu (p_cpu buffer) (x_c start)) = Some (DTRACE_WORKSTATUS_OKAY, c) ∧
    c_user c = [(2, record 7); (2, record 8)]) as (c & Hc & Huser) by (eexists; split; [vm_compute; reflexivity|reflexivity]).
  rewrite Hc in Hd. destruct Hd as (x' & p' & E & [R1 R2 R3] & (H1 & H2 & H3)).
  - constructor; [|done]. apply kernel_writes. by repeat constructor.
  - by constructor.
  - by repeat constructor.
  - done.
  - exists x', p'. split_and!; [exact E|by rewrite R1|rewrite R2; apply lookup_insert_eq|by rewrite H2|done].
Defined.

(** ** Speculations *)

Definition spec_record (id v : Z) : list Z := [1; 0; 0; 0; id; 0; 0; 0; v; 0; 0; 0; 0; 0; 0; 0].
Definition commit_record (id : Z) : list Z := [2; 0; 0; 0; 0; 0; 0; 0; id; 0; 0; 0; 0; 0; 0; 0].

(** The consumer with the map of speculations [specs] is given [records] of CPU 0. *)
Definition feed (specsize : Z) (specs : gmap Z dt_bpf_specs) (records : list (list Z)) : option (Z * cstate log (gmap Z dt_bpf_specs)) :=
  foldl (λ o r, '(_, c) ← o;
           @dt_consume_one_probe _ _ (hash_map 4) handle descs (λ _, 0) probe next_addr specsize false true no_print remember r 16 0 false c)
    (Some (0, mk_cs [] specs ∅ ∅ [] 0 [] (mk_pdat 0 0 0 0 [] 0 None 0) 0)) records.

(** What is left: the map of speculations, the buffers that the consumer keeps, and the
    data that the client was given. *)
Definition outcome (o : option (Z * cstate log (gmap Z dt_bpf_specs))) : option (list (Z * dt_bpf_specs) * list (Z * Z) * list (list Z)) :=
  match o with
  | Some (_, c) => Some (map_to_list (c_specs c), map_to_list (dt_spec_bufs c), snd <$> (c_user c : list (Z * list Z)))
  | None => None
  end.

(** Data of the speculation 1, then the commit: the data is handed on, and the id is free. *)
Lemma committed : outcome (feed 1000 {[ 1 := mk_specs 1 1 ]} [spec_record 1 7; commit_record 1]) = Some ([], [], [spec_record 1 7]).
Proof. vm_compute. reflexivity. Qed.

(** If the commit is read first, which may happen when the data is in the buffer of
    another CPU, it is forgotten: the data is kept for ever and the id is never free. *)
Lemma commit_read_first : outcome (feed 1000 {[ 1 := mk_specs 1 1 ]} [commit_record 1; spec_record 1 7; record 8; record 9]) =
  Some ([(1, mk_specs 1 1)], [(1, 1)], [record 8; record 9]).
Proof. vm_compute. reflexivity. Qed.

(** Data that exceeds the size of a speculation is dropped but not counted as read, so
    that the speculation is drained for ever. *)
Lemma drop_not_counted : outcome (feed 16 {[ 1 := mk_specs 2 1 ]} [spec_record 1 7; spec_record 1 8; commit_record 1; record 9; record 9]) =
  Some ([(1, mk_specs 2 1)], [(1, 1)], [spec_record 1 7; record 9; record 9]).
Proof. vm_compute. reflexivity. Qed.

(** A second commit that is read after the id was given out again finds a speculation
    that is not being drained, and the assertion fails. *)
Lemma stale_commit : feed 1000 {[ 1 := mk_specs 1 0 ]} [spec_record 1 7; commit_record 1] = None.
Proof. vm_compute. reflexivity. Qed.

(** Committed data that is read after the commit waits for the next record that is not
    part of a speculation. *)
Lemma late_data_waits :
  outcome (feed 1000 {[ 1 := mk_specs 2 1 ]} [spec_record 1 7; commit_record 1; spec_record 1 8]) =
    Some ([(1, mk_specs 2 1)], [(1, 1)], [spec_record 1 7]) ∧
  outcome (feed 1000 {[ 1 := mk_specs 2 1 ]} [spec_record 1 7; commit_record 1; spec_record 1 8; record 9]) =
    Some ([], [], [spec_record 1 7; record 9; spec_record 1 8]).
Proof. vm_compute. done. Qed.

End ConsumeExample.
